(* ===== verification/_CoqProject ===== *)
-Q . S2P
Prelude.v
Hash.v
Merkle.v
Transaction.v
Mempool.v
Float.v
Config.v
Block.v
Buffer.v
BlockDb.v
Store.v
Chain.v
Miner.v
Validation.v
Leader.v
Ledger.v
ChainInv.v
ValidationTheorems.v
VoteInv.v
LeaderProofs.v
LedgerInv.v
Reachable.v
ChainExample.v
ChainTheorems.v
MinerTheorems.v
Worker.v
Peer.v
Server.v
KeyValue.v
Bloom.v
Account.v
State.v
World.v
StateInv.v
StateSteps.v
StateRefine.v
StateCommit.v
StateOps.v
JournalDb.v
JournalTheorems.v
StateDb.v
StateDbTheorems.v
StateDatabase.v
StateExample.v
StateTheorems.v
Instructions.v
Schedule.v
EvmWord.v
Vm.v
EvmMemory.v
Gasometer.v
Evm.v
EvmReference.v
VmLaws.v
EvmLaws.v
EvmSafety.v
EvmRun.v
EvmExample.v
EvmTheorems.v
EvmBehaviour.v
Blake2.v
Blake2Theorems.v
Externalities.v
Builtins.v
BuiltinsTheorems.v
Executive.v
ExecWorld.v
ExternalitiesLaws.v
ExecutiveInv.v
Transact.v
TransactInv.v
ChainSpec.v
TransactExample.v
TransactTheorems.v
Admission.v
System.v
SystemInv.v
SystemExample.v
NodeTheorems.v
