(* ===== verification/Prelude.v ===== *)
(** * A verification development of the Prism smart contract node

    The node under [src/src] runs the Prism consensus protocol, in which proposer blocks are
    ordered by the votes of many voter chains, and executes Ethereum transactions on the state
    library of [src/parity-ethereum].  This development translates the node, part by part, and
    proves that the parts do what the node needs of them, alone and together.

    ** The parts of the program and how they interact

    A peer connection ([network/peer.rs]) cuts a stream of bytes into messages; the server
    ([network/server.rs]) keeps the table of connections and hands the messages to the workers.
    A worker ([network/worker.rs]) checks a received block ([validation/]), stores it
    ([blockdb/mod.rs]), lets it wait for the blocks it refers to ([network/buffer.rs]) and
    inserts it into the block structure ([blockchain/mod.rs]); received transactions go to the
    memory pool ([miner/memory_pool.rs]).  The miner ([miner/mod.rs]) mines on one Merkle tree
    ([crypto/merkle.rs]) over the contents of all chains; sortition ([config.rs]) decides by the
    hash which content becomes a block.  The ledger manager ([ledger_manager/mod.rs]) takes the
    confirmed order of the blocks ([update_ledger]) and executes their transactions on the state
    database ([statedb/mod.rs]): accounts with caches and checkpoints
    ([ethcore/account-state]), on a backend with a filter of addresses ([ethcore/state-db],
    [util/bloom]), on a journal of trie nodes ([util/journaldb]), on a key-value store.  A
    transaction is executed by the executive ([ethcore/machine/src/executive.rs]), which pays
    for it, runs the interpreter ([ethcore/evm]) or a precompiled contract ([ethcore/builtin])
    for each of its nested calls and creations on an explicit stack, and settles its gas; the
    interpreter sees the state through the externalities ([ethcore/machine/src/externalities.rs]).

    ** The files

    Foundations: this file (panics as the [Outcome] monad, machine integers as [Z] with
    explicit wrap-around, byte strings, hash map iteration order as the parameter [HashOrder],
    the shared tactics, hints and list lemmas); [Float] ([f32] arithmetic on the IEEE model of
    the Standard Library, and bounds on what its roundings do to products and quotients); [KeyValue]
    (the key-value store and its batches).

    Data: [Hash] ([crypto/hash.rs]), [Merkle] ([crypto/merkle.rs]), [Transaction]
    ([ethcore/types/src/transaction/transaction.rs], [transaction/mod.rs]), [Config]
    ([config.rs]), [Block] ([block/]).

    Blockchain, all of [blockchain/mod.rs]: [Store] (merge operators), [Chain] (the column
    families as a [Record] of finite maps, [BlockChain::new], [insert_block], the queries),
    [Leader] ([proposer_leader]), [Ledger] ([vote_diff], [update_ledger]).  Their proofs:
    [ChainInv], [VoteInv], [LeaderProofs], [LedgerInv], [Reachable] (the transition system, and
    the lists of unreferred blocks); an execution in [ChainExample]; the
    results in [ChainTheorems].

    Node: [Mempool] ([miner/memory_pool.rs], [handler/new_transaction.rs]), [Buffer]
    ([network/buffer.rs]), [BlockDb] ([blockdb/mod.rs]), [Validation] ([validation/]) with
    [ValidationTheorems], [Miner] ([miner/mod.rs], [handler/new_validated_block.rs]) with
    [MinerTheorems], [Worker] ([network/worker.rs], [network/message.rs],
    [ledger_manager/mod.rs]), [Admission] (the interleaving of several workers), [System],
    [SystemInv] (all threads on the shared state), [SystemExample], and the
    results in [NodeTheorems].

    Network: [Peer] ([network/peer.rs]), [Server] ([network/server.rs]) with their theorems.

    State: [Account] ([account-state/src/account.rs]), [State] ([account-state/src/state.rs],
    [backend.rs]), [Bloom] ([util/bloom/src/lib.rs]), [StateDb] ([state-db/src/lib.rs]),
    [JournalDb] ([journaldb/src/overlayrecentdb.rs]), [StateDatabase] ([statedb/mod.rs]).
    [World] is the specification of the state; [StateInv], [StateSteps], [StateRefine],
    [StateCommit] and [StateOps] the proofs against it; [JournalTheorems], [StateDbTheorems] and
    the second part of [StateDatabase] the proofs on what is on disk; [StateExample] instances of all
    parameters, and the results in [StateTheorems].

    Virtual machine: [Instructions] ([evm/src/instructions.rs]), [Schedule]
    ([vm/src/schedule.rs] and the transitions of [types/src/engines/params.rs]), [EvmWord] (the
    256-bit words), [Vm] ([vm/src/], with the trait [Ext] as a class), [EvmMemory]
    ([interpreter/stack.rs], [memory.rs]), [Gasometer] ([interpreter/gasometer.rs]), [Evm]
    ([interpreter/mod.rs], [shared_cache.rs]).  [VmLaws] has the contract [ExtLaws] between the
    interpreter and the outside; [EvmReference] has reference definitions of arithmetic and jumps;
    [EvmLaws], [EvmSafety] and [EvmRun] are the proofs, [EvmExample] an instance; the results are
    in [EvmTheorems] and [EvmBehaviour].

    Precompiled contracts: [Blake2] ([util/EIP-152/src], both the portable and the vectorised
    routine) with [Blake2Theorems]; [Builtins] ([ethcore/builtin/src/lib.rs],
    [json/src/spec/builtin.rs]) with [BuiltinsTheorems].

    Execution: [Externalities] ([machine/src/externalities.rs], [substate.rs], [machine.rs]),
    [Executive] (the stack of executions of [machine/src/executive.rs], and the factories of
    virtual machines), [Transact] ([transact] and [finalize] of [executive.rs],
    [executive-state/src/lib.rs], [apply] of [statedb/mod.rs], the execution thread of
    [ledger_manager/mod.rs]), [ChainSpec] (the specification [prism_test.json] that the node
    runs, as a machine).  [ExecWorld] says what executions keep of a world,
    [ExternalitiesLaws] proves [ExtLaws] of the externalities, [ExecutiveInv]
    is on one execution and on the stack of them, [TransactInv] on a
    transaction; [TransactExample] has executions, and [TransactTheorems] the results.

    A definition has the name of the function it translates, with the type as a prefix where
    two types have a method of the same name.  A method takes and returns its [self]; a
    function that can panic returns an [Outcome]; an operation of the state is in the monad
    [SM] of [State], which also carries the [TrieError] of the source.

    ** What the theorems show

    - Ledger ([ChainTheorems]): in every state reached by insertions of accepted blocks and
      ledger updates, in any order, [insert_block] returns and does not panic, nor does
      [update_ledger] for an adversary with a positive share of the mining power; the ledger is a
      linear extension of the references without duplicates; every vote up to the ledger tips is
      counted once; leaders close their levels and satisfy the confirmation rule; the lists the
      miner uses are exact and what it votes for is valid.
    - Node ([NodeTheorems], [Admission]): with workers, miner and ledger manager interleaved,
      the chain stays one of those states, all its blocks have passed the checks, a block
      received by several workers is admitted once, every decodable message and every turn of
      the miner is handled without a panic, and the executed transactions are those of the
      ledger; with the one case in which the ledger manager stops.
    - Components: the buffer, the memory pool and the Merkle tree refine their abstract
      definitions; merge operators do not depend on how the store groups operands; proofs and
      hashes bind their contents, or two of the strings hashed for them collide; the block database
      returns what was stored, in order.
    - Network ([Server]): the framing is a round trip for any division of the bytes into
      portions; the table of connections is consistent and its tokens are distinct; a broadcast
      reaches every connection once; one order of events stops the server, and so does a message
      or an answer for a thread that has gone.
    - State ([StateTheorems], [JournalTheorems], [StateDbTheorems]): accounts with their
      caches, original storage and checkpoints answer as a stack of plain maps does; after a
      commit and a restart the state has every account it had; the journal of nodes and the
      filter of addresses are read back from disk as they were in memory.
    - Virtual machine ([EvmTheorems], [EvmBehaviour]): over any outside that keeps
      its contract the interpreter does not panic and ends within its gas; its memory, stack and
      gas keep their types; arithmetic is that of the integers, jumps reach exactly the valid
      destinations, storage costs what EIP-1283 says; counting gas in 256 bits it can panic.
    - Precompiled contracts ([BuiltinsTheorems], [Blake2Theorems]): every contract has a price
      and executes when it is paid; modular exponentiation computes and costs what EIP-198
      says, without overflow; the vectorised BLAKE2 compression is the portable one.
    - Execution ([TransactTheorems]): the externalities keep the contract of the interpreter, so
      every transaction ends, is rejected for the stated reasons only and then changes nothing,
      uses at most its gas and creates no balance; one that fails changes nothing but the
      payment and the nonce.  The chain of the node satisfies what these theorems assume of a
      chain ([prism_chain_ok]); its execution thread stops at a rejected transaction, and
      transactions can be replayed.

    ** Parameters

    Code that is not in the repository is a type class whose laws are the documented behaviour
    the code relies on: keccak and SipHash, RLP and bincode, the elliptic curve, big integers,
    the Poisson distribution, the slab, the LRU cache, [MemoryDB], the Patricia trie, the output
    buffers, digests, signatures and pairings of the precompiled contracts, the log filter, the
    WebAssembly interpreter, which the chain of the node does not enable, and the order in which
    a hash map is iterated.  The law of the Poisson distribution is that its constructor gives an
    error exactly for rates that are NaN or not positive.  No law says that a hash function has no
    collisions: a theorem that depends on it either assumes it of the values in question or
    concludes that two different strings of a given finite list have the same hash.  The witness of a
    theorem instantiates each parameter with a function that satisfies the laws.

    ** Bounds and fuel

    Loops without a bound in the source have a fuel argument.  Running out of fuel is [Panic]
    or no answer, never a result, so a theorem that says that such a function returns gives a
    bound from which every fuel is enough: for [vote_diff], [update_ledger] and
    [update_transaction_sequence] a number that depends on the state; for [handle_message] the
    bound [process_bound] on the blocks of the message and of the buffer; for the sockets
    [send_fuel] and [receive_fuel], from the number of portions; for the interpreter one more
    than the gas; for a transaction [turns_for], four turns of the executive per unit of gas
    and two more.  The theorems on transactions are for less than [2 ^ 64] gas and [2 ^ 40]
    bytes of data: with more gas the interpreter can panic.  Those on ledger updates that return
    are for a share of the adversary between [2 ^ -64] and one and less than [2 ^ 64] voter blocks:
    then no rounding makes the rate of a Poisson distribution zero.  Loops whose number of turns is
    known have it built in: the layers of a Merkle tree have at most as many turns as leaves,
    and reading the journal at most one more than the store has entries.  Integers have the
    width of the source wherever it computes with them; lengths and indices of vectors are
    natural numbers.

    ** Not modelled

    The Patricia trie and WebAssembly, which are crates outside the repository or not used by
    the chain of the node; the threads on which deep calls get a larger stack; tracing, which
    has no effect on an execution; reading JSON; errors of the disk and of RocksDB; and the
    parts of the parity-ethereum client the node does not use (consensus engines, network, RPC,
    snapshots, light client, account management).  The wallet, the transaction generator, the
    performance counters, the HTTP interfaces, the visualisation and the command line are input
    and output around operations of the other parts.  Of modelled files: log output, [Debug] and
    [Display], [dump] of the blockchain, memory statistics, the exports of accounts to plain
    data, Merkle proofs of the state, and the clones of [StateDB] for other blocks, which the
    node does not make. *)

From stdpp Require Export base tactics list gmap sorting.
From Stdlib Require Export ZArith Lia Permutation.

(** ** Panics

    Every [unwrap], slice index, [unreachable!] and [panic!] of the source is a
    point where the running thread stops.  A translated function returns an
    [Outcome]: either the value the source returns, or [Panic]. *)
Inductive Outcome (A : Type) : Type :=
| Done (a : A)
| Panic.
Arguments Done {A} a.
Arguments Panic {A}.

#[global] Instance outcome_ret : MRet Outcome := λ A a, Done a.
#[global] Instance outcome_bind : MBind Outcome := λ A B f m,
  match m with Done a => f a | Panic => Panic end.
#[global] Instance outcome_fmap : FMap Outcome := λ A B f m,
  match m with Done a => Done (f a) | Panic => Panic end.

(** [Option::unwrap]. *)
Definition unwrap {A} (o : option A) : Outcome A :=
  match o with Some a => Done a | None => Panic end.

(** A loop [for x in l { s = f(s, x) }] whose body may panic. *)
Fixpoint foldM {A S} (f : S → A → Outcome S) (s : S) (l : list A) : Outcome S :=
  match l with
  | [] => Done s
  | x :: l => f s x ≫= λ s', foldM f s' l
  end.

(** [l.iter().map(f).collect()] whose body may panic. *)
Fixpoint mapO {A B} (f : A → Outcome B) (l : list A) : Outcome (list B) :=
  match l with
  | [] => Done []
  | x :: l => y ← f x; ys ← mapO f l; Done (y :: ys)
  end.

(** [std::result::Result]. *)
Inductive Result (A E : Type) : Type :=
| Ok (a : A)
| Err (e : E).
Arguments Ok {A E} a.
Arguments Err {A E} e.

(** [r.expect(..)] and [r.unwrap()]. *)
Definition expect {A E} (r : Result A E) : Outcome A :=
  match r with Ok a => Done a | Err _ => Panic end.

(** [r?]: pass the error on. *)
Definition try_bind {A B E} (r : Result A E) (f : A → Result B E) : Result B E :=
  match r with Ok a => f a | Err e => Err e end.

Definition is_done {A} (m : Outcome A) : Prop := ∃ a, m = Done a.

(** ** Machine integers

    Unsigned integers of the source are values of [Z]; an operation that can
    leave the range of its type is followed by the reduction to its width, which
    is what the release profile of the build does. *)
Definition wrap (w z : Z) : Z := z `mod` 2 ^ w.
Definition u16 (z : Z) : Z := wrap 16 z.
Definition u32 (z : Z) : Z := wrap 32 z.
Definition u64 (z : Z) : Z := wrap 64 z.
Definition u128 (z : Z) : Z := wrap 128 z.

(** [a..b] and [a..=b]. *)
Definition range (a b : Z) : list Z := seqZ a (b - a).
Definition range_incl (a b : Z) : list Z := seqZ a (b - a + 1).

(** ** Iteration order of hash tables

    The order in which [HashMap] and [HashSet] are iterated is not specified by
    the standard library and changes between runs.  It is a parameter: any
    enumeration of the entries. *)
Class HashOrder := {
  hash_iter : ∀ {K V} `{Countable K}, gmap K V → list (K * V);
  hash_iter_perm : ∀ {K V} `{Countable K} (m : gmap K V),
    hash_iter m ≡ₚ map_to_list m;
}.

(** One such enumeration, to evaluate the model on examples. *)
Definition example_hash_order : HashOrder :=
  {| hash_iter K V _ _ m := map_to_list m; hash_iter_perm K V _ _ m := reflexivity _ |}.

Definition hash_set_iter `{HashOrder} {K} `{Countable K} (s : gset K) : list K :=
  fst <$> hash_iter (mapset.mapset_car s).

Section HashOrderFacts.
Context `{HashOrder} `{Countable K}.

Lemma hash_iter_nodup {V} (m : gmap K V) : NoDup (hash_iter m).*1.
Proof. rewrite hash_iter_perm. apply NoDup_fst_map_to_list. Qed.

Lemma elem_of_hash_iter {V} (m : gmap K V) k v : (k, v) ∈ hash_iter m ↔ m !! k = Some v.
Proof. rewrite hash_iter_perm. apply elem_of_map_to_list. Qed.

Lemma elem_of_hash_set_iter (s : gset K) x : x ∈ hash_set_iter s ↔ x ∈ s.
Proof.
  unfold hash_set_iter. rewrite (list_elem_of_fmap fst). split.
  - intros ([y []] & -> & Hy). by apply elem_of_hash_iter in Hy.
  - intros Hx. exists (x, ()). split; [done|]. by apply elem_of_hash_iter.
Qed.

Lemma hash_set_iter_NoDup (s : gset K) : NoDup (hash_set_iter s).
Proof. apply hash_iter_nodup. Qed.
End HashOrderFacts.

(** ** Tactics and hints *)

Create HintDb prism.
Create Rewrite HintDb prism_inv.

(** Decompose hypotheses [m ≫= f = Done _] into the successful steps. *)
Lemma bind_done {A B} (f : A → Outcome B) (m : Outcome A) b :
  m ≫= f = Done b ↔ ∃ a, m = Done a ∧ f a = Done b.
Proof. destruct m; simpl; naive_solver. Qed.

Lemma unwrap_done {A} (o : option A) a : unwrap o = Done a ↔ o = Some a.
Proof. destruct o; simpl; naive_solver. Qed.

Lemma fmap_done {A B} (f : A → B) (m : Outcome A) b :
  f <$> m = Done b ↔ ∃ a, m = Done a ∧ b = f a.
Proof. destruct m; simpl; naive_solver. Qed.

Ltac inv_done :=
  repeat match goal with
  | H : Done _ = Done _ |- _ => injection H as H; subst
  | H : Panic = Done _ |- _ => discriminate H
  | H : mret _ = Done _ |- _ => injection H as H; subst
  | H : unwrap _ = Done _ |- _ => apply unwrap_done in H
  | H : _ ≫= _ = Done _ |- _ =>
      let a := fresh "v" in let H1 := fresh "Hv" in
      apply bind_done in H; destruct H as (a & H1 & H)
  | H : _ <$> _ = Done _ |- _ =>
      let a := fresh "v" in let H1 := fresh "Hv" in
      apply fmap_done in H; destruct H as (a & H1 & H)
  end.

(** Case analysis on the test of the outermost conditional of a hypothesis or
    of the goal, keeping the equation. *)
Ltac case_if :=
  match goal with
  | H : context [if ?b then _ else _] |- _ => destruct b eqn:?
  | |- context [if ?b then _ else _] => destruct b eqn:?
  end.

(** ** Generic lemmas *)

Section Monad.
Context {A S : Type}.
Implicit Types f : S → A → Outcome S.

Lemma foldM_app f s l1 l2 :
  foldM f s (l1 ++ l2) = foldM f s l1 ≫= λ s', foldM f s' l2.
Proof.
  revert s; induction l1 as [|x l1 IH]; intros s; simpl; [done|].
  destruct (f s x); simpl; auto.
Qed.

(** Invariant rule for loops that may panic. *)
Lemma foldM_inv f (P : list A → S → Prop) s l s' :
  P [] s →
  (∀ pre x s1 s2, P pre s1 → x ∈ l → f s1 x = Done s2 → P (pre ++ [x]) s2) →
  foldM f s l = Done s' → P l s'.
Proof.
  intros H0 Hstep.
  assert (∀ pre s1, P pre s1 → foldM f s1 l = Done s' → P (pre ++ l) s') as H;
    [|by apply (H [])].
  clear H0 s. induction l as [|x l IH]; intros pre s1 Hpre Hf; simpl in Hf.
  - inv_done. by rewrite app_nil_r.
  - inv_done. change (x :: l) with ([x] ++ l). rewrite app_assoc.
    eapply IH; [|by eapply Hstep; [| left |]|done].
    intros; eapply Hstep; [done|by right|done].
Qed.

Lemma foldM_total f (P : S → Prop) s l :
  P s → (∀ s1 x, P s1 → x ∈ l → ∃ s2, f s1 x = Done s2 ∧ P s2) →
  ∃ s', foldM f s l = Done s' ∧ P s'.
Proof.
  revert s. induction l as [|x l IH]; intros s Hs Hf; simpl; [eauto|].
  destruct (Hf s x) as (s2 & -> & H2); [done|left|].
  apply (IH s2); [done|]. intros; apply Hf; [done|by right].
Qed.

(** A loop panics when its body does on one of the elements. *)
Lemma foldM_panics f x l s : (∀ s, f s x = Panic) → x ∈ l → foldM f s l = Panic.
Proof.
  intros Hf Hx. revert s. induction Hx as [x l|x y l _ IH]; intros s; simpl.
  - by rewrite Hf.
  - destruct (f s y); [by apply IH|done].
Qed.
End Monad.

Section MapO.
Context {A B : Type}.
Implicit Types f : A → Outcome B.

Lemma mapO_done f l k :
  mapO f l = Done k ↔ Forall2 (λ x y, f x = Done y) l k.
Proof.
  revert k. induction l as [|x l IH]; intros k; simpl.
  - split; [intros; by inv_done|]. intros ->%Forall2_nil_inv_l; done.
  - split.
    + intros H. inv_done. constructor; [done|]. by apply IH.
    + intros (y & k' & Hy & Hk & ->)%Forall2_cons_inv_l.
      rewrite Hy. simpl. apply IH in Hk. by rewrite Hk.
Qed.

Lemma mapO_total f (P : A → B → Prop) l :
  (∀ x, x ∈ l → ∃ y, f x = Done y ∧ P x y) → ∃ k, mapO f l = Done k ∧ Forall2 P l k.
Proof.
  induction l as [|x l IH]; intros Hf; [by exists []|].
  destruct (Hf x) as (y & Hy & HP); [left|].
  destruct IH as (k & Hk & Hall); [intros; apply Hf; by right|].
  exists (y :: k). cbn [mapO]. rewrite Hy. cbn [mbind outcome_bind]. rewrite Hk. by split; [|constructor].
Qed.

Lemma mapO_pure (f : A → B) l : mapO (λ x, Done (f x)) l = Done (f <$> l).
Proof. induction l as [|x l IH]; simpl; [done|]. by rewrite IH. Qed.

Lemma mapO_fmap f g l :
  (∀ x, x ∈ l → f x = Done (g x)) → mapO f l = Done (g <$> l).
Proof.
  induction l as [|x l IH]; intros Hl; cbn; [done|].
  rewrite (Hl x) by left. cbn. rewrite IH; [done|]. intros y Hy. apply Hl. by right.
Qed.
End MapO.

Lemma list_choose {A B} (P : A → B → Prop) l :
  (∀ x, x ∈ l → ∃ y, P x y) → ∃ k, Forall2 P l k.
Proof.
  induction l as [|x l IH]; intros Hl; [by exists []|].
  destruct (Hl x) as [y Hy]; [left|]. destruct IH as [k Hk]; [intros; apply Hl; by right|].
  exists (y :: k). by constructor.
Qed.

Section Ranges.
Lemma elem_of_range a b x : x ∈ range a b ↔ (a ≤ x < b)%Z.
Proof. unfold range. rewrite elem_of_seqZ. lia. Qed.

Lemma elem_of_range_incl a b x : x ∈ range_incl a b ↔ (a ≤ x ≤ b)%Z.
Proof. unfold range_incl. rewrite elem_of_seqZ. lia. Qed.

Lemma range_incl_nil a b : (b < a)%Z → range_incl a b = [].
Proof. intros. unfold range_incl. apply seqZ_nil. lia. Qed.

Lemma range_incl_cons a b :
  (a ≤ b)%Z → range_incl a b = a :: range_incl (a + 1) b.
Proof.
  intros. unfold range_incl. rewrite (seqZ_cons a) by lia.
  f_equal. unfold Z.succ, Z.pred. f_equal; lia.
Qed.

Lemma range_cons a b : (a < b)%Z → range a b = a :: range (a + 1) b.
Proof.
  intros. unfold range. rewrite seqZ_cons by lia. f_equal. f_equal; lia.
Qed.

Lemma range_nil a b : (b ≤ a)%Z → range a b = [].
Proof. intros. unfold range. apply seqZ_nil. lia. Qed.

Lemma length_range_incl a b : length (range_incl a b) = Z.to_nat (b - a + 1).
Proof. apply length_seqZ. Qed.
End Ranges.

Lemma filter_none {A} (P : A → Prop) `{∀ x, Decision (P x)} l :
  (∀ x, x ∈ l → ¬ P x) → filter P l = [].
Proof.
  intros Hn. destruct (filter P l) as [|x k] eqn:E; [done|].
  assert (x ∈ filter P l) as [Hx Hl]%list_elem_of_filter by (rewrite E; left).
  by destruct (Hn x Hl).
Qed.

Lemma filter_all {A} (P : A → Prop) `{∀ x, Decision (P x)} (l : list A) :
  (∀ x, x ∈ l → P x) → filter P l = l.
Proof.
  induction l as [|x l IH]; intros Hl; [done|]. rewrite filter_cons_True by (apply Hl; left).
  f_equal. apply IH. intros y Hy. apply Hl. by right.
Qed.

Lemma NoDup_app_cons_inj {A} (l1 l2 k1 k2 : list A) x :
  NoDup (l1 ++ x :: l2) → k1 ++ x :: k2 = l1 ++ x :: l2 → k1 = l1.
Proof.
  revert k1. induction l1 as [|y l1 IH]; intros [|z k1] [Hx Hnd]%NoDup_cons; cbn; [done| | |].
  - intros [= -> <-]. set_solver.
  - intros [= <- _]. set_solver.
  - intros [= -> Htl]. f_equal. by apply IH.
Qed.

Lemma wrap_small w z : (0 ≤ z < 2 ^ w)%Z → wrap w z = z.
Proof. apply Z.mod_small. Qed.

Lemma wrap_bound w z : (0 ≤ w)%Z → (0 ≤ wrap w z < 2 ^ w)%Z.
Proof. intros. apply Z.mod_pos_bound. lia. Qed.

Lemma u64_small z : (0 ≤ z < 2 ^ 64)%Z → u64 z = z.
Proof. apply wrap_small. Qed.

Lemma u32_small z : (0 ≤ z < 2 ^ 32)%Z → u32 z = z.
Proof. apply wrap_small. Qed.

(** ** Ordered maps

    A [BTreeMap] with integer keys is a finite map that is iterated in the order of its
    keys. *)
Section BTree.
Context {A : Type}.

Definition key_le (x y : Z * A) : Prop := (x.1 ≤ y.1)%Z.
#[global] Instance key_le_dec : RelDecision key_le := λ x y, decide (x.1 ≤ y.1)%Z.
#[global] Instance key_le_trans : Transitive key_le.
Proof. intros x y z. unfold key_le. lia. Qed.
#[global] Instance key_le_total : Total key_le.
Proof. intros x y. unfold key_le. lia. Qed.

Definition btree_list (m : gmap Z A) : list (Z * A) := merge_sort key_le (map_to_list m).

Lemma btree_list_perm m : btree_list m ≡ₚ map_to_list m.
Proof. apply merge_sort_Permutation. Qed.

Lemma elem_of_btree_list m k x : (k, x) ∈ btree_list m ↔ m !! k = Some x.
Proof. by rewrite btree_list_perm, elem_of_map_to_list. Qed.

Lemma btree_list_sorted m : StronglySorted key_le (btree_list m).
Proof. apply StronglySorted_merge_sort; apply _. Qed.

(** A sorted list of the entries of a map is the list its iterator yields. *)
Lemma btree_list_unique m l :
  StronglySorted key_le l → l ≡ₚ map_to_list m → btree_list m = l.
Proof.
  intros Hs Hp. apply (StronglySorted_unique_strong key_le); [|apply btree_list_sorted|done|].
  - intros [k x] [k' y] Hx Hy. unfold key_le. cbn. intros ? ?. assert (k = k') as -> by lia.
    rewrite elem_of_btree_list in Hx. rewrite Hp, elem_of_map_to_list in Hy. congruence.
  - by rewrite Hp, btree_list_perm.
Qed.

Lemma btree_list_empty : btree_list (∅ : gmap Z A) = [].
Proof. apply btree_list_unique; [constructor|by rewrite map_to_list_empty]. Qed.

Lemma btree_list_insert_last m k x :
  (∀ k', is_Some (m !! k') → (k' < k)%Z) → btree_list (<[k := x]> m) = btree_list m ++ [(k, x)].
Proof.
  intros Hk. apply btree_list_unique.
  - apply StronglySorted_app. split_and!; [|apply btree_list_sorted|repeat constructor].
    intros [k' y] z Hy ->%list_elem_of_singleton. apply elem_of_btree_list in Hy.
    unfold key_le. cbn. pose proof (Hk k' (mk_is_Some _ _ Hy)). lia.
  - assert (m !! k = None) as Hn.
    { destruct (m !! k) as [y|] eqn:E; [|done]. pose proof (Hk k (mk_is_Some _ _ E)). lia. }
    rewrite map_to_list_insert by done. by rewrite btree_list_perm, Permutation_app_comm.
Qed.

Lemma StronglySorted_filter (P : Z * A → Prop) `{∀ x, Decision (P x)} l :
  StronglySorted key_le l → StronglySorted key_le (filter P l).
Proof.
  induction 1 as [|x l Hs IH Hall]; [constructor|]. rewrite filter_cons. case_decide; [|done].
  constructor; [done|]. apply Forall_forall. intros y [_ Hy]%list_elem_of_filter.
  by apply (Forall_forall _ _) with (x := y) in Hall.
Qed.

Lemma btree_list_delete m k :
  btree_list (delete k m) = filter (λ x, x.1 ≠ k) (btree_list m).
Proof.
  apply btree_list_unique.
  - apply StronglySorted_filter, btree_list_sorted.
  - apply list.NoDup_Permutation.
    + apply NoDup_filter. rewrite btree_list_perm. apply NoDup_map_to_list.
    + apply NoDup_map_to_list.
    + intros [k' x]. rewrite list_elem_of_filter, elem_of_btree_list, elem_of_map_to_list,
        lookup_delete_Some. cbn. naive_solver.
Qed.
End BTree.

(** A [BTreeSet] of integers, in the order it is iterated. *)
Definition btree_set_list (s : gset Z) : list Z := merge_sort Z.le (elements s).

Lemma elem_of_btree_set_list s x : x ∈ btree_set_list s ↔ x ∈ s.
Proof. unfold btree_set_list. by rewrite merge_sort_Permutation, elem_of_elements. Qed.

#[export] Hint Rewrite @bind_done @unwrap_done @fmap_done : prism_inv.
#[export] Hint Resolve wrap_small u64_small : prism.
