(* ===== verification/Hash.v ===== *)
(** * 256-bit hashes: [src/src/crypto/hash.rs]

    The hash type, its conversions, its order and its hexadecimal form; the
    keccak function, which comes from the [keccak_hash] crate, as a parameter;
    the [Hashable] trait as a type class. *)

From S2P Require Import Prelude.
From Stdlib Require Export Strings.Byte.
From Stdlib Require Import Ascii.

(** ** Bytes *)

#[global] Instance byte_eq_dec : EqDecision byte := Byte.byte_eq_dec.

#[global] Program Instance byte_countable : Countable byte := {|
  encode b := N.succ_pos (Byte.to_N b);
  decode p := Byte.of_N (Pos.pred_N p);
|}.
Next Obligation. intros b. by destruct b. Qed.

Definition byte_of_Z (z : Z) : byte :=
  default "000"%byte (Byte.of_N (Z.to_N (z `mod` 256))).
Definition Z_of_byte (b : byte) : Z := Z.of_N (Byte.to_N b).

(** [from_be_bytes] and [to_be_bytes] of the unsigned integer types. *)
Definition from_be_bytes (bs : list byte) : Z :=
  foldl (λ acc b, 256 * acc + Z_of_byte b)%Z 0%Z bs.
Fixpoint to_be_bytes (n : nat) (z : Z) : list byte :=
  match n with
  | O => []
  | S n => to_be_bytes n (z / 256)%Z ++ [byte_of_Z z]
  end.

(** ** The hash type *)

(** [struct H256([u8; 32])], a big endian 256-bit number. *)
Record H256 := mkH256 {
  h256_bytes : list byte;
  h256_len : length h256_bytes = 32;
}.

(** The conversion from a byte slice: [try_into] to [[u8; 32]] fails on a slice
    of another length. *)
Definition h256_of_bytes (bs : list byte) : option H256 :=
  match decide (length bs = 32) with
  | left p => Some (mkH256 bs p)
  | right _ => None
  end.

Lemma length_to_be_bytes n z : length (to_be_bytes n z) = n.
Proof.
  revert z; induction n as [|n IH]; intros z; simpl; [done|].
  rewrite length_app, IH. simpl. lia.
Qed.

(** The hash whose 32 bytes are the big endian encoding of [z]. *)
Definition h256 (z : Z) : H256 := mkH256 (to_be_bytes 32 z) (length_to_be_bytes 32 z).

(** [H256::default()] is [[0; 32]]. *)
Definition h256_default : H256 := mkH256 (replicate 32 "000"%byte) eq_refl.

Lemma h256_eq (a b : H256) : h256_bytes a = h256_bytes b → a = b.
Proof.
  destruct a as [x p], b as [y q]; simpl. intros ->. f_equal. apply proof_irrel.
Qed.
#[global] Instance h256_bytes_inj : Inj (=) (=) h256_bytes.
Proof. intros x y. apply h256_eq. Qed.

#[global] Instance h256_eq_dec : EqDecision H256.
Proof.
  intros a b. destruct (decide (h256_bytes a = h256_bytes b)) as [E|N].
  - left. by apply h256_eq.
  - right. by intros ->.
Defined.

Lemma h256_of_bytes_to (h : H256) : h256_of_bytes (h256_bytes h) = Some h.
Proof.
  unfold h256_of_bytes. destruct (decide _) as [p|n].
  - f_equal. by apply h256_eq.
  - by destruct n; apply h256_len.
Qed.

#[global] Instance h256_countable : Countable H256 :=
  inj_countable h256_bytes h256_of_bytes h256_of_bytes_to.

#[global] Instance h256_inhabited : Inhabited H256 := populate h256_default.

(** The number a hash stands for. *)
Definition h256_Z (h : H256) : Z := from_be_bytes (h256_bytes h).

(** ** [Ord for H256] and [PartialOrd for H256] *)

Definition H256_cmp (self other : H256) : comparison :=
  let self_higher := from_be_bytes (take 16 (h256_bytes self)) in
  let self_lower := from_be_bytes (drop 16 (h256_bytes self)) in
  let other_higher := from_be_bytes (take 16 (h256_bytes other)) in
  let other_lower := from_be_bytes (drop 16 (h256_bytes other)) in
  match Z.compare self_higher other_higher with
  | Eq => Z.compare self_lower other_lower
  | higher => higher
  end.

(** The operators [<] and [<=], which the standard library derives from
    [partial_cmp]. *)
Definition H256_ltb (a b : H256) : bool :=
  match H256_cmp a b with Lt => true | _ => false end.
Definition H256_leb (a b : H256) : bool :=
  match H256_cmp a b with Gt => false | _ => true end.

Definition H256_le (a b : H256) : Prop := H256_leb a b = true.
#[global] Instance H256_le_dec : RelDecision H256_le :=
  λ a b, decide (H256_leb a b = true).

(** [<[H256]>::sort] and [sort_unstable]: equal hashes are indistinguishable,
    so both return the one sorted permutation. *)
Definition H256_sort (l : list H256) : list H256 := merge_sort H256_le l.

(** ** [Display for H256] *)

Definition hex_digit (n : N) : ascii :=
  if (n <? 10)%N then ascii_of_N (48 + n) else ascii_of_N (87 + n).
Definition hex_byte (b : byte) : list ascii :=
  [hex_digit (Byte.to_N b / 16); hex_digit (Byte.to_N b mod 16)].

Definition H256_fmt (precision : option nat) (h : H256) : list ascii :=
  let start :=
    match precision with
    | Some precision => if 64 <=? precision then 0 else 32 - precision / 2
    | None => 0
    end in
  mjoin (hex_byte <$> drop start (h256_bytes h)).
Definition H256_to_string (h : H256) : list ascii := H256_fmt None h.

(** ** Keccak-256 and the [Hashable] trait *)

Class Keccak := keccak : list byte → H256.
Class Hashable (T : Type) := hash : T → H256.

#[global] Instance H256_hashable `{Keccak} : Hashable H256 :=
  λ h, keccak (h256_bytes h).

(** Keccak collides on two of the listed byte strings.  The list matters: on all byte strings
    every function to 32 bytes collides. *)
Definition keccak_collides `{Keccak} (strings : list (list byte)) : Prop :=
  ∃ x y : list byte, x ∈ strings ∧ y ∈ strings ∧ x ≠ y ∧ keccak x = keccak y.

Lemma keccak_collides_mono `{Keccak} l1 l2 :
  l1 ⊆ l2 → keccak_collides l1 → keccak_collides l2.
Proof. intros Hs (x & y & Hx & Hy & ?). exists x, y. auto. Qed.

(** Equal hashes of two listed strings: equal strings, or a collision. *)
Lemma keccak_inj_or `{Keccak} (strings : list (list byte)) x y :
  x ∈ strings → y ∈ strings → keccak x = keccak y → x = y ∨ keccak_collides strings.
Proof. intros Hx Hy He. destruct (decide (x = y)); [by left|]. right. by exists x, y. Qed.

(** ** Lemmas *)

Lemma Z_of_byte_bound b : (0 ≤ Z_of_byte b < 256)%Z.
Proof. unfold Z_of_byte. pose proof (Byte.to_N_bounded b). lia. Qed.

Lemma Z_of_byte_inj a b : Z_of_byte a = Z_of_byte b → a = b.
Proof.
  unfold Z_of_byte. intros H%N2Z.inj.
  enough (Some a = Some b) by congruence.
  by rewrite <- (Byte.of_to_N a), <- (Byte.of_to_N b), H.
Qed.

Lemma Z_of_byte_of_Z z : Z_of_byte (byte_of_Z z) = (z `mod` 256)%Z.
Proof.
  unfold byte_of_Z, Z_of_byte.
  pose proof (Z.mod_pos_bound z 256).
  destruct (Byte.of_N _) as [b|] eqn:E; simpl.
  - apply Byte.to_of_N in E. rewrite E. lia.
  - apply Byte.of_N_None_iff in E. lia.
Qed.

Lemma from_be_bytes_snoc l b :
  from_be_bytes (l ++ [b]) = (256 * from_be_bytes l + Z_of_byte b)%Z.
Proof. unfold from_be_bytes. by rewrite foldl_app. Qed.

Lemma from_be_bytes_app l1 l2 :
  from_be_bytes (l1 ++ l2) =
  (from_be_bytes l1 * 256 ^ Z.of_nat (length l2) + from_be_bytes l2)%Z.
Proof.
  induction l2 as [|b l2 IH] using rev_ind.
  - rewrite app_nil_r. simpl. unfold from_be_bytes. simpl. lia.
  - rewrite app_assoc, !from_be_bytes_snoc, IH, length_app. simpl.
    rewrite Nat2Z.inj_add, Z.pow_add_r by lia. simpl. lia.
Qed.

Lemma from_be_bytes_bound l : (0 ≤ from_be_bytes l < 256 ^ Z.of_nat (length l))%Z.
Proof.
  induction l as [|b l IH] using rev_ind; [unfold from_be_bytes; simpl; lia|].
  rewrite from_be_bytes_snoc, length_app. simpl.
  rewrite Nat2Z.inj_add, Z.pow_add_r by lia. simpl.
  pose proof (Z_of_byte_bound b). lia.
Qed.

Lemma from_be_bytes_inj l1 l2 :
  length l1 = length l2 → from_be_bytes l1 = from_be_bytes l2 → l1 = l2.
Proof.
  revert l2. induction l1 as [|b l1 IH] using rev_ind; intros l2 Hl He.
  - by destruct l2.
  - destruct l2 as [|c l2 _] using rev_ind; [rewrite length_app in Hl; simpl in *; lia|].
    rewrite !from_be_bytes_snoc in He. rewrite !length_app in Hl. simpl in Hl.
    pose proof (Z_of_byte_bound b). pose proof (Z_of_byte_bound c).
    f_equal; [apply IH; lia|]. f_equal. apply Z_of_byte_inj. lia.
Qed.

Lemma from_to_be_bytes n z :
  from_be_bytes (to_be_bytes n z) = (z `mod` 256 ^ Z.of_nat n)%Z.
Proof.
  revert z. induction n as [|n IH]; intros z; simpl.
  - unfold from_be_bytes; simpl. by rewrite Z.mod_1_r.
  - rewrite from_be_bytes_snoc, IH, Z_of_byte_of_Z.
    rewrite Nat2Z.inj_succ, Z.pow_succ_r by lia.
    rewrite Z.rem_mul_r by lia. lia.
Qed.

Lemma h256_Z_bound h : (0 ≤ h256_Z h < 2 ^ 256)%Z.
Proof.
  unfold h256_Z. pose proof (from_be_bytes_bound (h256_bytes h)) as Hb.
  rewrite h256_len in Hb. change (256 ^ Z.of_nat 32)%Z with (2 ^ 256)%Z in Hb. lia.
Qed.

Lemma h256_Z_inj a b : h256_Z a = h256_Z b → a = b.
Proof.
  intros H. apply h256_eq, from_be_bytes_inj; [|done]. by rewrite !h256_len.
Qed.

Lemma h256_Z_h256 z : (0 ≤ z < 2 ^ 256)%Z → h256_Z (h256 z) = z.
Proof.
  intros Hz. unfold h256_Z, h256, h256_bytes. rewrite from_to_be_bytes.
  apply Z.mod_small. by change (256 ^ Z.of_nat 32)%Z with (2 ^ 256)%Z.
Qed.

(** The two-halves comparison is the comparison of the 256-bit numbers. *)
Lemma H256_cmp_Z a b : H256_cmp a b = Z.compare (h256_Z a) (h256_Z b).
Proof.
  unfold H256_cmp, h256_Z.
  rewrite <- (take_drop 16 (h256_bytes a)) at 3.
  rewrite <- (take_drop 16 (h256_bytes b)) at 3.
  rewrite !from_be_bytes_app, !length_drop, !h256_len.
  pose proof (from_be_bytes_bound (drop 16 (h256_bytes a))) as Ha.
  pose proof (from_be_bytes_bound (drop 16 (h256_bytes b))) as Hb.
  rewrite length_drop, h256_len in Ha, Hb.
  change (256 ^ Z.of_nat (32 - 16))%Z with (2 ^ 128)%Z in *.
  set (ah := from_be_bytes (take _ (h256_bytes a))) in *.
  set (bh := from_be_bytes (take _ (h256_bytes b))) in *.
  set (al := from_be_bytes (drop _ (h256_bytes a))) in *.
  set (bl := from_be_bytes (drop _ (h256_bytes b))) in *.
  destruct (Z.compare_spec ah bh) as [E|L|G].
  - rewrite E. destruct (Z.compare_spec al bl);
      symmetry; [apply Z.compare_eq_iff|apply Z.compare_lt_iff|apply Z.compare_gt_iff]; lia.
  - symmetry. apply Z.compare_lt_iff. lia.
  - symmetry. apply Z.compare_gt_iff. lia.
Qed.

Lemma H256_ltb_Z a b : H256_ltb a b = true ↔ (h256_Z a < h256_Z b)%Z.
Proof.
  unfold H256_ltb. rewrite H256_cmp_Z.
  destruct (Z.compare_spec (h256_Z a) (h256_Z b)); split; intros; done || lia.
Qed.

Lemma H256_le_Z a b : H256_le a b ↔ (h256_Z a ≤ h256_Z b)%Z.
Proof.
  unfold H256_le, H256_leb. rewrite H256_cmp_Z.
  destruct (Z.compare_spec (h256_Z a) (h256_Z b)); split; intros; done || lia.
Qed.

Lemma H256_leb_ltb a b : H256_leb a b = negb (H256_ltb b a).
Proof.
  unfold H256_leb, H256_ltb. rewrite !H256_cmp_Z, (Z.compare_antisym (h256_Z a)).
  by destruct (Z.compare _ _).
Qed.

#[global] Instance H256_le_total_order : TotalOrder H256_le.
Proof.
  split; [split; [split|]|].
  - intros a. rewrite H256_le_Z. lia.
  - intros a b c. rewrite !H256_le_Z. lia.
  - intros a b. rewrite !H256_le_Z. intros. apply h256_Z_inj. lia.
  - intros a b. unfold strict. rewrite !H256_le_Z.
    destruct (Z.lt_trichotomy (h256_Z a) (h256_Z b)) as [|[E|]];
      [left; lia|right; left; by apply h256_Z_inj|right; right; lia].
Qed.

(** The bits of a positive number, one per byte. *)
Fixpoint bits_of (p : positive) : list byte :=
  match p with
  | xH => []
  | xO p => "000"%byte :: bits_of p
  | xI p => "001"%byte :: bits_of p
  end.
Fixpoint of_bits (l : list byte) : positive :=
  match l with
  | [] => xH
  | b :: l => if decide (b = "000"%byte) then xO (of_bits l) else xI (of_bits l)
  end.
Lemma of_bits_of p : of_bits (bits_of p) = p.
Proof. induction p; cbn; by rewrite ?IHp. Qed.

(** A concrete function in place of keccak, to evaluate the model on examples. *)
Definition example_keccak : Keccak := λ bs, h256 (from_be_bytes bs `mod` (2 ^ 256 - 189)).

(** *** Properties *)

(** The order on hashes, computed from the two 128-bit halves, is the order of the
    256-bit big endian numbers the hashes stand for; so it is a total order in which
    only equal hashes compare equal, and a hash of at most [difficulty] is what the
    proof of work test compares. *)
Theorem H256_cmp_is_numeric (a b : H256) :
  H256_cmp a b = Z.compare (h256_Z a) (h256_Z b) ∧
  (H256_cmp a b = Eq ↔ a = b) ∧
  H256_cmp b a = CompOpp (H256_cmp a b) ∧
  (0 ≤ h256_Z a < 2 ^ 256)%Z.
Proof.
  rewrite !H256_cmp_Z. split_and!; [done| |apply Z.compare_antisym|apply h256_Z_bound..].
  rewrite Z.compare_eq_iff. split; [apply h256_Z_inj|by intros ->].
Qed.
