(* ===== verification/Merkle.v ===== *)
(** * Merkle trees: [src/src/crypto/merkle.rs]

    [MerkleTree] stores the tree in one array: the root at index 0, then the
    layers from the root down, the leaves last; every layer of odd size but the
    root's is followed by a copy of its last node.  The operations are translated
    with their index arithmetic.  They are compared with a reference tree defined
    by recursion on the layers, from which follow the completeness of proofs,
    their soundness up to a collision among the strings hashed, and that [update] builds the
    tree [new] would build. *)

From S2P Require Import Prelude Hash.

(** ** Array accesses *)

(** [a - b] on [usize]: an underflow wraps to a value beyond every slice, so that
    the next access with it panics. *)
Definition usub (a b : nat) : Outcome nat :=
  if b <=? a then Done (a - b) else Panic.

(** [v[i] = x] *)
Definition set_at {A} (v : list A) (i : nat) (x : A) : Outcome (list A) :=
  if i <? length v then Done (<[i:=x]> v) else Panic.

(** [v[start..start + len].copy_from_slice(src)] *)
Definition copy_from_slice {A} (v : list A) (start len : nat) (src : list A) :
    Outcome (list A) :=
  if (start + len <=? length v) && (length src =? len) then
    Done (take start v ++ src ++ drop (start + len) v)
  else Panic.

Section Merkle.
Context `{Keccak}.

(** The hash of the concatenation of two nodes. *)
Definition hash_pair (left_hash right_hash : H256) : H256 :=
  keccak (h256_bytes left_hash ++ h256_bytes right_hash).

Record MerkleTree := mkMerkleTree {
  data_size : list nat;
  nodes : list H256;
}.

(** The loop that computes the sizes of the layers, before ([data_size]) and
    after ([layer_size]) duplication.  It halves the size at each turn, so the
    initial size is enough fuel. *)
Fixpoint size_loop (fuel this_layer_size : nat) : list nat * list nat :=
  match fuel with
  | O => ([], [])
  | S fuel =>
      if this_layer_size =? 1 then ([this_layer_size], [this_layer_size])
      else
        let padded :=
          if Nat.odd this_layer_size then this_layer_size + 1 else this_layer_size in
        let '(data_size, layer_size) := size_loop fuel (padded / 2) in
        (this_layer_size :: data_size, padded :: layer_size)
  end.

(** [if l != d { nodes[layer_start + l - 1] = nodes[layer_start + d - 1]; }] *)
Definition duplicate_last (ns : list H256) (layer_start l d : nat) :
    Outcome (list H256) :=
  if l =? d then Done ns
  else
    src ← usub (layer_start + d) 1;
    dst ← usub (layer_start + l) 1;
    x ← unwrap (ns !! src);
    set_at ns dst x.

(** One turn of the inner loop that fills a layer from the layer below. *)
Definition fill_node (last_layer_start layer_start : nat) (ns : list H256) (i : nat) :
    Outcome (list H256) :=
  left_hash ← unwrap (ns !! (last_layer_start + i * 2));
  right_hash ← unwrap (ns !! (last_layer_start + i * 2 + 1));
  set_at ns (layer_start + i) (hash_pair left_hash right_hash).

(** [for (l, d) in layers { ... }] *)
Fixpoint fill_layers (layers : list (nat * nat)) (layer_start : nat)
    (ns : list H256) : Outcome (list H256) :=
  match layers with
  | [] => Done ns
  | (l, d) :: layers =>
      let last_layer_start := layer_start in
      layer_start ← usub layer_start l;
      ns ← foldM (fill_node last_layer_start layer_start) ns (seq 0 d);
      ns ← duplicate_last ns layer_start l d;
      fill_layers layers layer_start ns
  end.

Definition merkle_new {T} `{!Hashable T} (data : list T) : Outcome MerkleTree :=
  let this_layer_size := length data in
  if this_layer_size =? 0 then Done (mkMerkleTree [this_layer_size] [])
  else
    let '(ds, ls) := size_loop this_layer_size this_layer_size in
    let tree_size := sum_list ls in
    let ns := replicate tree_size h256_default in
    match zip ls ds with
    | [] => Panic
    | (l, d) :: layers =>
        layer_start ← usub tree_size l;
        ns ← copy_from_slice ns layer_start d (hash <$> data);
        ns ← duplicate_last ns layer_start l d;
        ns ← fill_layers layers layer_start ns;
        Done (mkMerkleTree ds ns)
    end.

Definition merkle_root (self : MerkleTree) : H256 :=
  match nodes self with
  | [] => h256_default
  | x :: _ => x
  end.

(** Start of the layer of [d] nodes that ends at [layer_end]:
    [layer_end - d - 1] when [d] is odd, [layer_end - d] otherwise. *)
Definition layer_before (layer_end d : nat) : Outcome nat :=
  if Nat.odd d then usub layer_end (d + 1) else usub layer_end d.

(** The loop of [proof]; it takes as many turns as there are layers above the
    leaves. *)
Fixpoint proof_loop (fuel : nat) (self : MerkleTree) (layer_start layer index : nat) :
    Outcome (list H256) :=
  match fuel with
  | O => Panic
  | S fuel =>
      let nodes_index := layer_start + index in
      sibling_index ←
        (if Nat.odd nodes_index then Done (nodes_index + 1) else usub nodes_index 1);
      sibling ← unwrap (nodes self !! sibling_index);
      let layer := layer + 1 in
      if layer =? length (data_size self) - 1 then Done [sibling]
      else
        d ← unwrap (data_size self !! layer);
        layer_start ← layer_before layer_start d;
        results ← proof_loop fuel self layer_start layer (index / 2);
        Done (sibling :: results)
  end.

Definition merkle_proof (self : MerkleTree) (index : nat) : Outcome (list H256) :=
  d0 ← unwrap (data_size self !! 0);
  if (length (data_size self) =? 1) || (d0 <=? index) then Done []
  else
    layer_start ← layer_before (length (nodes self)) d0;
    proof_loop (length (data_size self)) self layer_start 0 index.

Definition merkle_leaf (self : MerkleTree) (index : nat) : Outcome H256 :=
  d0 ← unwrap (data_size self !! 0);
  if d0 <=? index then Done h256_default
  else if d0 =? 1 then unwrap (nodes self !! 0)
  else
    last_layer_start ← layer_before (length (nodes self)) d0;
    unwrap (nodes self !! (last_layer_start + index)).

(** The new value of the node at [layer_start + index]. *)
Definition updated_node (self : MerkleTree) (data_hash : H256)
    (last_layer_start layer_start layer index : nat) : Outcome H256 :=
  let nodes_index := layer_start + index in
  if last_layer_start <=? nodes_index then Done data_hash
  else if 0 <? nodes_index then
    d ← unwrap (data_size self !! layer);
    let left_index :=
      if Nat.odd d then layer_start + index * 2 + d + 1
      else layer_start + index * 2 + d in
    left_hash ← unwrap (nodes self !! left_index);
    right_hash ← unwrap (nodes self !! (left_index + 1));
    Done (hash_pair left_hash right_hash)
  else
    left_hash ← unwrap (nodes self !! 1);
    right_hash ← unwrap (nodes self !! 2);
    Done (hash_pair left_hash right_hash).

(** Write node [index] of a layer of [d] nodes, and its duplicate. *)
Definition write_node (ns : list H256) (layer_start index d : nat) (v : H256) :
    Outcome (list H256) :=
  let nodes_index := layer_start + index in
  ns ← set_at ns nodes_index v;
  layer_last ← usub (layer_start + d) 1;
  if (nodes_index =? layer_last) && Nat.odd nodes_index then
    x ← unwrap (ns !! nodes_index);
    set_at ns (nodes_index + 1) x
  else Done ns.

(** The loop of [update]; one turn per layer. *)
Fixpoint update_loop (fuel : nat) (data_hash : H256) (last_layer_start : nat)
    (self : MerkleTree) (layer_start layer index : nat) : Outcome MerkleTree :=
  match fuel with
  | O => Panic
  | S fuel =>
      v ← updated_node self data_hash last_layer_start layer_start layer index;
      d ← unwrap (data_size self !! layer);
      ns ← write_node (nodes self) layer_start index d v;
      let self := mkMerkleTree (data_size self) ns in
      let layer := layer + 1 in
      if layer =? length (data_size self) then Done self
      else
        layer_start ←
          (if layer =? length (data_size self) - 1 then Done 0
           else d ← unwrap (data_size self !! layer); layer_before layer_start d);
        update_loop fuel data_hash last_layer_start self layer_start layer (index / 2)
  end.

Definition merkle_update {T} `{!Hashable T} (self : MerkleTree) (index : nat) (data : T) :
    Outcome MerkleTree :=
  d0 ← unwrap (data_size self !! 0);
  if d0 <=? index then Done self
  else if d0 =? 1 then
    ns ← set_at (nodes self) 0 (hash data);
    Done (mkMerkleTree (data_size self) ns)
  else
    last_layer_start ← layer_before (length (nodes self)) d0;
    update_loop (length (data_size self)) (hash data) last_layer_start self
      last_layer_start 0 index.

(** [for h in proof.iter() { ... }]; [None] is the early [return false]. *)
Fixpoint verify_loop (layer_size : list nat) (layer_start layer index : nat)
    (acc : H256) (proof : list H256) : Outcome (option H256) :=
  match proof with
  | [] => Done (Some acc)
  | h :: proof =>
      let nodes_index := layer_start + index in
      if nodes_index =? 0 then Done None
      else
        let acc :=
          if Nat.odd nodes_index then hash_pair acc h else hash_pair h acc in
        let layer := layer + 1 in
        size ← unwrap (layer_size !! layer);
        layer_start ← usub layer_start size;
        verify_loop layer_size layer_start layer (index / 2) acc proof
  end.

Definition merkle_verify (root data : H256) (proof : list H256) (index leaf_size : nat) :
    Outcome bool :=
  if leaf_size <=? index then Done false
  else
    let layer_size := (size_loop leaf_size leaf_size).2 in
    if negb (length layer_size =? length proof + 1) then Done false
    else
      let layer_start := sum_list (tail layer_size) in
      acc ← verify_loop layer_size layer_start 0 index data proof;
      Done (match acc with
            | None => false
            | Some acc => bool_decide (acc = root)
            end).

(** ** The reference tree *)

(** A layer, completed to an even number of nodes. *)
Definition pad (l : list H256) : list H256 :=
  if Nat.odd (length l) then l ++ option_list (last l) else l.

Fixpoint pair_up (l : list H256) : list H256 :=
  match l with
  | a :: b :: l => hash_pair a b :: pair_up l
  | _ => []
  end.

(** The layer above [l]. *)
Definition layer_up (l : list H256) : list H256 := pair_up (pad l).

(** All nodes of the tree on the leaves [l], root first. *)
Fixpoint tree_nodes_fuel (fuel : nat) (l : list H256) : list H256 :=
  match fuel with
  | O => []
  | S fuel =>
      if length l <=? 1 then l
      else tree_nodes_fuel fuel (layer_up l) ++ pad l
  end.
Definition tree_nodes (l : list H256) : list H256 := tree_nodes_fuel (length l) l.

Fixpoint tree_sizes_fuel (fuel n : nat) : list nat :=
  match fuel with
  | O => []
  | S fuel => if n <=? 1 then [n] else n :: tree_sizes_fuel fuel (Nat.div2 (S n))
  end.
(** The sizes of the layers over [n] leaves. *)
Definition tree_sizes (n : nat) : list nat :=
  if n =? 0 then [0] else tree_sizes_fuel n n.

Definition ref_tree (l : list H256) : MerkleTree :=
  mkMerkleTree (tree_sizes (length l)) (tree_nodes l).

(** The node a Merkle path folds to. *)
Fixpoint fold_path (index : nat) (acc : H256) (path : list H256) : H256 :=
  match path with
  | [] => acc
  | h :: path =>
      fold_path (Nat.div2 index)
        (if Nat.odd index then hash_pair h acc else hash_pair acc h) path
  end.

(** *** The strings that are hashed

    [new] hashes the concatenation of each pair of siblings, which are all the nodes of the
    array after the root; [verify] hashes one such string for each element of the path. *)

Definition node_string (left_hash right_hash : H256) : list byte :=
  h256_bytes left_hash ++ h256_bytes right_hash.

Fixpoint pair_strings (l : list H256) : list (list byte) :=
  match l with
  | a :: b :: l => node_string a b :: pair_strings l
  | _ => []
  end.
Definition tree_strings (t : MerkleTree) : list (list byte) := pair_strings (drop 1 (nodes t)).

Fixpoint path_strings (index : nat) (acc : H256) (path : list H256) : list (list byte) :=
  match path with
  | [] => []
  | h :: path =>
      let s := if Nat.odd index then node_string h acc else node_string acc h in
      s :: path_strings (Nat.div2 index) (keccak s) path
  end.

(** The siblings on the path from leaf [index] to the root. *)
Fixpoint ref_path_fuel (fuel index : nat) (l : list H256) : list H256 :=
  match fuel with
  | O => []
  | S fuel =>
      if length l <=? 1 then []
      else
        option_list (pad l !! (if Nat.odd index then index - 1 else index + 1)) ++
        ref_path_fuel fuel (Nat.div2 index) (layer_up l)
  end.
Definition ref_path (index : nat) (l : list H256) : list H256 :=
  ref_path_fuel (length l) index l.

End Merkle.

(** ** Lemmas on layers *)

Lemma half_cases n : (∃ k, n = 2 * k ∧ Nat.odd n = false ∧ Nat.div2 n = k ∧ Nat.div2 (S n) = k) ∨
                     (∃ k, n = S (2 * k) ∧ Nat.odd n = true ∧ Nat.div2 n = k ∧ Nat.div2 (S n) = S k).
Proof.
  destruct (Nat.Even_or_Odd n) as [[k ->]|[k ->]]; [left|right]; exists k.
  - repeat split; [|by rewrite Nat.div2_double|by rewrite Nat.div2_succ_double].
    apply Bool.negb_true_iff. rewrite Nat.negb_odd. apply Nat.even_spec. by exists k.
  - replace (2 * k + 1) with (S (2 * k)) by lia.
    repeat split; [|by rewrite Nat.div2_succ_double|].
    + apply Nat.odd_spec. exists k. lia.
    + replace (S (S (2 * k))) with (2 * S k) by lia. by rewrite Nat.div2_double.
Qed.

Ltac half n :=
  let k := fresh "k" in let H := fresh "Hn" in let O := fresh "Ho" in
  let D := fresh "Hd" in let E := fresh "Hs" in
  destruct (half_cases n) as [(k & H & O & D & E)|(k & H & O & D & E)].

Section Layers.
Context `{Keccak}.
Implicit Types l : list H256.

Lemma length_pad l : length (pad l) = 2 * Nat.div2 (S (length l)).
Proof.
  unfold pad. half (length l); rewrite Ho, Hs; [lia|].
  rewrite length_app. destruct (last l) eqn:E; simpl; [lia|].
  apply last_None in E as ->. simpl in *. lia.
Qed.

Lemma length_pair_up l : length (pair_up l) = Nat.div2 (length l).
Proof.
  assert (∀ n l, length l ≤ n → length (pair_up l) = Nat.div2 (length l)) as Hn; [|eauto].
  clear l. induction n as [|n IH]; intros [|a [|b l]] Hl; simpl in *; try done; try lia.
  rewrite IH; [done|lia].
Qed.

Lemma lookup_pair_up l j :
  pair_up l !! j =
  match l !! (2 * j), l !! (2 * j + 1) with
  | Some a, Some b => Some (hash_pair a b)
  | _, _ => None
  end.
Proof.
  revert l. induction j as [|j IH]; intros l.
  - by destruct l as [|a [|b l]].
  - replace (2 * S j) with (S (S (2 * j))) by lia.
    replace (S (S (2 * j)) + 1) with (S (S (2 * j + 1))) by lia.
    destruct l as [|a [|b l]]; simpl; [done..|].
    rewrite IH. by replace (j + (j + 0)) with (2 * j) by lia.
Qed.

Lemma length_layer_up l : length (layer_up l) = Nat.div2 (S (length l)).
Proof.
  unfold layer_up. by rewrite length_pair_up, length_pad, Nat.div2_double.
Qed.

Lemma layer_up_shorter l :
  2 ≤ length l → 1 ≤ length (layer_up l) < length l.
Proof. intros. rewrite length_layer_up. half (length l); rewrite Hs; lia. Qed.

(** Induction along the layers of a tree. *)
Lemma layers_ind (P : list H256 → Prop) :
  (∀ x, P [x]) → (∀ l, 2 ≤ length l → P (layer_up l) → P l) →
  ∀ l, l ≠ [] → P l.
Proof.
  intros H1 Hup. assert (∀ n l, length l ≤ n → l ≠ [] → P l) as Hn; [|eauto].
  induction n as [|n IH]; intros [|a [|b l]] Hl Hne; simpl in *; try done || lia.
  pose proof (layer_up_shorter (a :: b :: l)). simpl in *.
  apply Hup; [simpl; lia|]. apply IH; [lia|]. intros E. rewrite E in *. simpl in *; lia.
Qed.

Lemma tree_nodes_fuel_enough fuel l :
  length l ≤ fuel → tree_nodes_fuel fuel l = tree_nodes l.
Proof.
  unfold tree_nodes.
  assert (∀ n m l, length l ≤ n → length l ≤ m →
    tree_nodes_fuel n l = tree_nodes_fuel m l) as Hn; [|eauto].
  clear. induction n as [|n IH]; intros [|m] l Hn Hm; simpl; try done.
  - by destruct l; simpl in *; [|lia].
  - by destruct l; simpl in *; [|lia].
  - destruct (Nat.leb_spec (length l) 1); [done|].
    pose proof (layer_up_shorter l). f_equal. apply IH; lia.
Qed.

Lemma tree_nodes_single x : tree_nodes [x] = [x].
Proof. done. Qed.

Lemma tree_nodes_step l :
  2 ≤ length l → tree_nodes l = tree_nodes (layer_up l) ++ pad l.
Proof.
  intros Hl. pose proof (layer_up_shorter l Hl).
  unfold tree_nodes at 1. destruct (length l) as [|n] eqn:E; [lia|]. simpl.
  destruct (Nat.leb_spec (length l) 1); [lia|].
  by rewrite tree_nodes_fuel_enough by lia.
Qed.

Lemma tree_sizes_fuel_enough fuel n :
  1 ≤ n ≤ fuel → tree_sizes_fuel fuel n = tree_sizes n.
Proof.
  unfold tree_sizes. intros Hn. destruct (Nat.eqb_spec n 0); [lia|]. clear n0.
  assert (∀ a b n, 1 ≤ n → n ≤ a → n ≤ b →
    tree_sizes_fuel a n = tree_sizes_fuel b n) as Hab; [|apply Hab; lia].
  clear. induction a as [|a IH]; intros [|b] n; intros; cbn [tree_sizes_fuel]; try lia.
  destruct (Nat.leb_spec n 1); [done|]. f_equal. half n; rewrite Hs; apply IH; lia.
Qed.

Lemma tree_sizes_one : tree_sizes 1 = [1].
Proof. done. Qed.

Lemma tree_sizes_step n :
  2 ≤ n → tree_sizes n = n :: tree_sizes (Nat.div2 (S n)).
Proof.
  intros. unfold tree_sizes at 1. destruct (Nat.eqb_spec n 0); [lia|].
  destruct n as [|m]; [lia|]. cbn [tree_sizes_fuel].
  destruct (Nat.leb_spec (S m) 1); [lia|]. f_equal.
  apply tree_sizes_fuel_enough. half (S m); rewrite Hs; lia.
Qed.

Lemma tree_sizes_layers l :
  2 ≤ length l →
  tree_sizes (length l) = length l :: tree_sizes (length (layer_up l)).
Proof. intros. by rewrite tree_sizes_step, length_layer_up. Qed.

(** The loop of the source computes the sizes of the layers. *)
Lemma size_loop_enough fuel n :
  1 ≤ n ≤ fuel →
  size_loop fuel n =
  (tree_sizes n, (λ d, if d =? 1 then 1 else 2 * Nat.div2 (S d)) <$> tree_sizes n).
Proof.
  revert n. induction fuel as [|fuel IH]; intros n Hn; [lia|]. cbn [size_loop].
  destruct (Nat.eqb_spec n 1) as [->|]; [done|].
  rewrite (tree_sizes_step n) by lia.
  replace (if Nat.odd n then n + 1 else n) with (2 * Nat.div2 (S n))
    by (half n; rewrite Ho, Hs; lia).
  replace (2 * Nat.div2 (S n) / 2) with (Nat.div2 (S n))
    by (rewrite Nat.mul_comm, Nat.div_mul; lia).
  rewrite IH by (half n; rewrite Hs; lia). simpl.
  by destruct (Nat.eqb_spec n 1); [lia|].
Qed.

Lemma length_tree_nodes_odd l : l ≠ [] → Nat.odd (length (tree_nodes l)) = true.
Proof.
  revert l. apply layers_ind; [done|]. intros l Hl IH.
  rewrite tree_nodes_step by done. rewrite length_app, length_pad.
  by rewrite Nat.odd_add_mul_2.
Qed.

Lemma layer_up_nonempty l : 2 ≤ length l → layer_up l ≠ [].
Proof. intros Hl E. pose proof (layer_up_shorter l Hl). by rewrite E in *; simpl in *; lia. Qed.

Lemma lookup_pad l i : i < length l → pad l !! i = l !! i.
Proof.
  intros. unfold pad. destruct (Nat.odd _); [|done]. by rewrite lookup_app_l.
Qed.

Lemma lookup_pad_last l :
  Nat.odd (length l) = true → pad l !! length l = last l.
Proof.
  intros Ho. unfold pad. rewrite Ho, lookup_app_r, Nat.sub_diag by done.
  by destruct (last l).
Qed.

Lemma lookup_pad_is_Some l i : i < length l → ∃ a b,
  pad l !! (2 * Nat.div2 i) = Some a ∧ pad l !! (2 * Nat.div2 i + 1) = Some b.
Proof.
  intros Hi. pose proof (length_pad l) as Hp.
  destruct (lookup_lt_is_Some_2 (pad l) (2 * Nat.div2 i)) as [a Ha];
    [|destruct (lookup_lt_is_Some_2 (pad l) (2 * Nat.div2 i + 1)) as [b Hb]; [|eauto]].
  all: rewrite Hp; half (length l); rewrite Hs; half i; rewrite Hd0; lia.
Qed.

(** Node [i] of a layer and its sibling hash to node [i / 2] of the layer above. *)
Lemma lookup_layer_up l i x :
  l !! i = Some x → ∃ y,
  pad l !! (if Nat.odd i then i - 1 else i + 1) = Some y ∧
  layer_up l !! Nat.div2 i =
    Some (if Nat.odd i then hash_pair y x else hash_pair x y).
Proof.
  intros Hx. pose proof (lookup_lt_Some _ _ _ Hx) as Hi.
  destruct (lookup_pad_is_Some l i Hi) as (a & b & Ha & Hb).
  unfold layer_up. rewrite lookup_pair_up, Ha, Hb.
  half i; rewrite Ho; rewrite Hd in Ha, Hb.
  - rewrite <- Hn, lookup_pad, Hx in Ha by done. rewrite Hn. naive_solver.
  - replace (2 * k + 1) with i in Hb by lia. rewrite lookup_pad, Hx in Hb by done.
    replace (i - 1) with (2 * k) by lia. naive_solver.
Qed.
End Layers.

(** ** [new] builds the reference tree *)

Section New.
Context `{Keccak}.
Implicit Types l : list H256.

(** Size of a layer of [d] nodes after duplication. *)
Definition padded_size (d : nat) : nat := if d =? 1 then 1 else 2 * Nat.div2 (S d).

Lemma padded_size_pad l : 2 ≤ length l → padded_size (length l) = length (pad l).
Proof.
  intros. unfold padded_size. rewrite length_pad. by destruct (Nat.eqb_spec (length l) 1); [lia|].
Qed.

Lemma usub_done a b : b ≤ a → usub a b = Done (a - b).
Proof. intros. unfold usub. by destruct (Nat.leb_spec b a); [|lia]. Qed.

Lemma set_at_done {A} (v : list A) i x : i < length v → set_at v i x = Done (<[i:=x]> v).
Proof. intros. unfold set_at. by destruct (Nat.ltb_spec i (length v)); [|lia]. Qed.

(** Writing the cell after [pre]. *)
Lemma set_at_middle {A} (pre post : list A) x y :
  set_at (pre ++ y :: post) (length pre) x = Done (pre ++ x :: post).
Proof.
  rewrite set_at_done by (rewrite length_app; simpl; lia).
  by rewrite insert_app_r_alt, Nat.sub_diag by done.
Qed.

Lemma fill_layer_prefix pre junk below rest k :
  k ≤ length junk → 2 * k ≤ length below →
  foldM (fill_node (length pre + length junk) (length pre))
    (pre ++ junk ++ below ++ rest) (seq 0 k) =
  Done (pre ++ (take k (pair_up below) ++ drop k junk) ++ below ++ rest).
Proof.
  induction k as [|k IH]; intros Hj Hb; [done|].
  rewrite seq_S, foldM_app, IH by lia. cbn.
  destruct (lookup_lt_is_Some_2 below (2 * k)) as [a Ha]; [lia|].
  destruct (lookup_lt_is_Some_2 below (2 * k + 1)) as [b Hb']; [lia|].
  destruct (lookup_lt_is_Some_2 junk k) as [j Hjk]; [lia|].
  assert (pair_up below !! k = Some (hash_pair a b)) as Hab
    by (rewrite lookup_pair_up, Ha, Hb'; done).
  assert (length (take k (pair_up below)) = k) as Hk
    by (rewrite length_take, length_pair_up; half (length below); rewrite Hd; lia).
  assert (∀ i x, below !! i = Some x →
    (pre ++ (take k (pair_up below) ++ drop k junk) ++ below ++ rest)
      !! (length pre + length junk + i) = Some x) as Hlook.
  { intros i x Hx. rewrite lookup_app_r by lia.
    rewrite lookup_app_r by (rewrite length_app, Hk, length_drop; lia).
    rewrite length_app, Hk, length_drop.
    replace (_ - _ - _) with i by lia. by apply lookup_app_l_Some. }
  unfold fill_node. rewrite (Hlook (k * 2) a) by (by rewrite Nat.mul_comm). simpl.
  replace (length pre + length junk + k * 2 + 1)
    with (length pre + length junk + (2 * k + 1)) by lia.
  rewrite (Hlook (2 * k + 1) b) by done. simpl.
  rewrite (drop_S junk j k) by done.
  replace (pre ++ (take k (pair_up below) ++ j :: drop (S k) junk) ++ below ++ rest)
    with ((pre ++ take k (pair_up below)) ++ j :: drop (S k) junk ++ below ++ rest)
    by (by rewrite <- !app_assoc).
  replace (length pre + k) with (length (pre ++ take k (pair_up below)))
    by (rewrite length_app; lia).
  rewrite set_at_middle. simpl. rewrite (take_S_r _ _ _ Hab).
  by rewrite <- !app_assoc.
Qed.

Lemma fill_layer pre junk below rest :
  length (pair_up below) ≤ length junk →
  foldM (fill_node (length pre + length junk) (length pre))
    (pre ++ junk ++ below ++ rest) (seq 0 (length (pair_up below))) =
  Done (pre ++ (pair_up below ++ drop (length (pair_up below)) junk) ++ below ++ rest).
Proof.
  intros Hj. rewrite fill_layer_prefix; [by rewrite take_ge by done|done|].
  rewrite length_pair_up. half (length below); rewrite Hd; lia.
Qed.

Lemma duplicate_last_pad pre l junk rest :
  l ≠ [] → length (l ++ junk) = length (pad l) →
  duplicate_last (pre ++ (l ++ junk) ++ rest) (length pre) (length (pad l)) (length l) =
  Done (pre ++ pad l ++ rest).
Proof.
  intros Hne Hlen. unfold duplicate_last.
  rewrite length_pad, length_app in *. unfold pad. half (length l); rewrite Ho, Hs in *.
  - assert (junk = []) as -> by (apply nil_length_inv; lia).
    destruct (Nat.eqb_spec (2 * k) (length l)); [|lia]. by rewrite app_nil_r.
  - destruct (Nat.eqb_spec (2 * S k) (length l)); [lia|].
    destruct junk as [|j [|j' junk]]; simpl in *; try lia.
    rewrite !usub_done by lia. simpl.
    destruct l as [|x l _] using rev_ind; [done|]. rewrite last_snoc. simpl.
    rewrite length_app in *. simpl in *.
    replace (pre ++ ((l ++ [x]) ++ [j]) ++ rest)
      with ((pre ++ l ++ [x]) ++ j :: rest) by (by rewrite <- !app_assoc).
    rewrite lookup_app_l by (rewrite !length_app; simpl; lia).
    rewrite lookup_app_r by lia.
    replace (length pre + (length l + 1) - 1 - length pre) with (length l) by lia.
    rewrite lookup_app_r, Nat.sub_diag by done. simpl.
    match goal with |- set_at _ ?i _ = _ =>
      replace i with (length (pre ++ l ++ [x])) by (rewrite !length_app; simpl; lia) end.
    rewrite set_at_middle. by rewrite <- !app_assoc.
Qed.

Definition layer_sizes (n : nat) : list (nat * nat) :=
  zip (padded_size <$> tree_sizes n) (tree_sizes n).

Definition sizes_sum (n : nat) : nat := sum_list (padded_size <$> tree_sizes n).

Lemma layer_sizes_step l :
  2 ≤ length l →
  layer_sizes (length l) = (length (pad l), length l) :: layer_sizes (length (layer_up l)).
Proof.
  intros. unfold layer_sizes. rewrite tree_sizes_layers by done. cbn.
  by rewrite padded_size_pad.
Qed.

Lemma sizes_sum_step l :
  2 ≤ length l → sizes_sum (length l) = sizes_sum (length (layer_up l)) + length (pad l).
Proof.
  intros. unfold sizes_sum. rewrite tree_sizes_layers by done. cbn.
  rewrite padded_size_pad by done. unfold id. lia.
Qed.

Lemma fill_layers_tree l :
  l ≠ [] → ∀ below rest, layer_up below = l → 2 ≤ length below →
  fill_layers (layer_sizes (length l)) (sizes_sum (length l))
    (replicate (sizes_sum (length l)) h256_default ++ pad below ++ rest) =
  Done (tree_nodes l ++ pad below ++ rest).
Proof.
  revert l. apply (layers_ind (λ l, ∀ below rest, layer_up below = l → 2 ≤ length below →
    fill_layers (layer_sizes (length l)) (sizes_sum (length l))
      (replicate (sizes_sum (length l)) h256_default ++ pad below ++ rest) =
    Done (tree_nodes l ++ pad below ++ rest))).
  - intros x below rest Hup Hb.
    change (layer_sizes (length [x])) with [(1, 1)].
    change (sizes_sum (length [x])) with 1. cbn [fill_layers].
    pose proof (fill_layer [] [h256_default] (pad below) rest) as Hf.
    unfold layer_up in Hup. rewrite Hup in Hf. specialize (Hf ltac:(simpl; lia)).
    apply bind_done. exists 0. split; [done|].
    apply bind_done. eexists. split; [exact Hf|done].
  - intros l Hl IH below rest Hup Hb.
    assert (l ≠ []) as Hne by (intros ->; simpl in *; lia).
    rewrite layer_sizes_step, sizes_sum_step by done. cbn [fill_layers].
    set (s := sizes_sum (length (layer_up l))) in *.
    rewrite usub_done, Nat.add_sub by lia. cbn [mbind outcome_bind].
    rewrite replicate_add, <- app_assoc.
    pose proof (fill_layer (replicate s h256_default)
      (replicate (length (pad l)) h256_default) (pad below) rest) as Hf.
    unfold layer_up in Hup. rewrite Hup, !length_replicate in Hf.
    rewrite Hf by (rewrite length_pad; half (length l); rewrite Hs; lia). cbn.
    pose proof (duplicate_last_pad (replicate s h256_default) l
      (drop (length l) (replicate (length (pad l)) h256_default)) (pad below ++ rest)) as Hd.
    rewrite length_replicate in Hd. rewrite Hd; [|done|]; cbn.
    + rewrite IH by done. by rewrite (tree_nodes_step l), <- app_assoc by done.
    + rewrite length_app, length_drop, length_replicate, length_pad.
      half (length l); rewrite Hs; lia.
Qed.

Lemma merkle_new_ref {T} `{!Hashable T} (data : list T) :
  merkle_new data = Done (ref_tree (hash <$> data)).
Proof.
  unfold merkle_new. destruct (Nat.eqb_spec (length data) 0) as [E|E].
  { apply nil_length_inv in E as ->. done. }
  rewrite size_loop_enough by lia.
  change (λ d, if d =? 1 then 1 else 2 * Nat.div2 (S d)) with padded_size.
  unfold ref_tree. rewrite length_fmap.
  set (l := hash <$> data). assert (length data = length l) as HL by (unfold l; by rewrite length_fmap).
  rewrite HL in *. clearbody l.
  destruct (decide (length l = 1)) as [E1|E1].
  { destruct l as [|x [|]]; simpl in *; try done. }
  fold (layer_sizes (length l)). fold (sizes_sum (length l)).
  rewrite layer_sizes_step, sizes_sum_step by lia.
  set (s := sizes_sum (length (layer_up l))) in *.
  rewrite usub_done, Nat.add_sub by lia. cbn [mbind outcome_bind].
  rewrite replicate_add.
  assert (length l ≤ length (pad l)) as Hpl
    by (rewrite length_pad; half (length l); rewrite Hs; lia).
  unfold copy_from_slice. rewrite length_app, !length_replicate.
  destruct (Nat.leb_spec (s + length l) (s + length (pad l))); [|lia].
  rewrite Nat.eqb_refl. cbn.
  rewrite take_app_length' by (by rewrite length_replicate).
  rewrite drop_app_ge by (rewrite length_replicate; lia).
  rewrite length_replicate. replace (s + length l - s) with (length l) by lia.
  pose proof (duplicate_last_pad (replicate s h256_default) l
    (drop (length l) (replicate (length (pad l)) h256_default)) []) as Hd.
  rewrite length_replicate, app_nil_r in Hd. rewrite Hd; [|intros ->; simpl in *; lia|]; cbn.
  - pose proof (fill_layers_tree (layer_up l)) as Hf.
    rewrite app_nil_r. specialize (Hf (layer_up_nonempty l ltac:(lia)) l []).
    rewrite !app_nil_r in Hf. fold s in Hf. rewrite Hf by (done || lia).
    cbn. by rewrite (tree_nodes_step l), <- ?HL by lia.
  - rewrite length_app, length_drop, length_replicate. lia.
Qed.
End New.

(** ** [proof], [leaf] and [verify] on the reference tree *)

Section Paths.
Context `{Keccak}.
Implicit Types l : list H256.

Lemma odd_add_odd a b : Nat.odd a = true → Nat.odd (a + b) = negb (Nat.odd b).
Proof. intros Ha. rewrite Nat.odd_add, Ha. by destruct (Nat.odd b). Qed.

Lemma odd_pos a : Nat.odd a = true → 1 ≤ a.
Proof. by destruct a; [|lia]. Qed.

Lemma length_tree_sizes_pos n : 1 ≤ length (tree_sizes n).
Proof.
  destruct (decide (2 ≤ n)); [rewrite tree_sizes_step by done; simpl; lia|].
  destruct n as [|[|n]]; simpl; lia.
Qed.

Lemma length_tree_sizes_up l :
  2 ≤ length l →
  length (tree_sizes (length l)) = S (length (tree_sizes (length (layer_up l)))).
Proof. intros. by rewrite tree_sizes_layers. Qed.

Lemma tree_sizes_head n : tree_sizes n !! 0 = Some n.
Proof.
  destruct (decide (2 ≤ n)); [by rewrite tree_sizes_step|]. by destruct n as [|[|n]]; [..|lia].
Qed.

Lemma tree_sizes_lookup pre n : (pre ++ tree_sizes n) !! length pre = Some n.
Proof. by rewrite lookup_app_r, Nat.sub_diag, tree_sizes_head. Qed.

Lemma layer_before_pad l k :
  layer_before (k + length (pad l)) (length l) = Done k.
Proof.
  unfold layer_before. rewrite length_pad.
  half (length l); rewrite Ho, Hs, usub_done by lia; f_equal; lia.
Qed.

Lemma layer_before_tree l :
  2 ≤ length l →
  layer_before (length (tree_nodes l)) (length l) = Done (length (tree_nodes (layer_up l))).
Proof. intros. by rewrite (tree_nodes_step l), length_app, layer_before_pad. Qed.

Lemma length_tree_nodes_up_odd l :
  2 ≤ length l → Nat.odd (length (tree_nodes (layer_up l))) = true.
Proof. intros. by apply length_tree_nodes_odd, layer_up_nonempty. Qed.

Lemma ref_path_fuel_enough fuel index l :
  length l ≤ fuel → ref_path_fuel fuel index l = ref_path index l.
Proof.
  unfold ref_path.
  assert (∀ n m i l, length l ≤ n → length l ≤ m →
    ref_path_fuel n i l = ref_path_fuel m i l) as Hn; [|eauto].
  clear. induction n as [|n IH]; intros [|m] i l Hn Hm; cbn [ref_path_fuel]; try done.
  - by destruct l; simpl in *; [|lia].
  - by destruct l; simpl in *; [|lia].
  - destruct (Nat.leb_spec (length l) 1); [done|].
    pose proof (layer_up_shorter l). f_equal. apply IH; lia.
Qed.

Lemma ref_path_step index l x :
  2 ≤ length l → l !! index = Some x → ∃ y,
  pad l !! (if Nat.odd index then index - 1 else index + 1) = Some y ∧
  layer_up l !! Nat.div2 index =
    Some (if Nat.odd index then hash_pair y x else hash_pair x y) ∧
  ref_path index l = y :: ref_path (Nat.div2 index) (layer_up l).
Proof.
  intros Hl Hx. destruct (lookup_layer_up l index x Hx) as (y & Hy & Hup).
  exists y. split_and!; [done..|]. pose proof (layer_up_shorter l Hl).
  unfold ref_path at 1. destruct (length l) as [|n] eqn:E; [lia|]. cbn [ref_path_fuel].
  destruct (Nat.leb_spec (length l) 1); [lia|]. rewrite Hy.
  by rewrite ref_path_fuel_enough by lia.
Qed.

Lemma ref_path_single index x : ref_path index [x] = [].
Proof. done. Qed.

Lemma length_ref_path l index :
  index < length l → length (ref_path index l) = length (tree_sizes (length l)) - 1.
Proof.
  intros Hi. destruct (decide (l = [])) as [->|Hne]; [simpl in *; lia|].
  revert l Hne index Hi.
  apply (layers_ind (λ l, ∀ index, index < length l →
    length (ref_path index l) = length (tree_sizes (length l)) - 1)).
  - done.
  - intros l Hl IH index Hi. destruct (lookup_lt_is_Some_2 l index Hi) as [x Hx].
    destruct (ref_path_step index l x Hl Hx) as (y & _ & Hup & ->).
    rewrite length_tree_sizes_up by done. simpl. rewrite IH by (by eapply lookup_lt_Some).
    pose proof (length_tree_sizes_pos (length (layer_up l))). lia.
Qed.

Lemma lookup_tree_layer l rest i x :
  2 ≤ length l → pad l !! i = Some x →
  (tree_nodes l ++ rest) !! (length (tree_nodes (layer_up l)) + i) = Some x.
Proof.
  intros Hl Hx. rewrite (tree_nodes_step l), <- app_assoc by done.
  rewrite lookup_app_r by lia.
  replace (_ + i - _) with i by lia. by apply lookup_app_l_Some.
Qed.

Lemma proof_loop_ref l :
  l ≠ [] → 2 ≤ length l → ∀ fuel pre rest index,
  index < length l → length (tree_sizes (length l)) ≤ S fuel →
  proof_loop fuel (mkMerkleTree (pre ++ tree_sizes (length l)) (tree_nodes l ++ rest))
    (length (tree_nodes (layer_up l))) (length pre) index = Done (ref_path index l).
Proof.
  revert l. apply (layers_ind (λ l, 2 ≤ length l → ∀ fuel pre rest index,
    index < length l → length (tree_sizes (length l)) ≤ S fuel →
    proof_loop fuel (mkMerkleTree (pre ++ tree_sizes (length l)) (tree_nodes l ++ rest))
      (length (tree_nodes (layer_up l))) (length pre) index = Done (ref_path index l))).
  { simpl. lia. }
  intros l Hl IH _ fuel pre rest index Hi Hf.
  pose proof (length_tree_nodes_up_odd l Hl) as Hodd. pose proof (odd_pos _ Hodd).
  destruct (lookup_lt_is_Some_2 l index Hi) as [x Hx].
  destruct (ref_path_step index l x Hl Hx) as (y & Hy & Hup & ->).
  rewrite length_tree_sizes_up in Hf by done.
  pose proof (length_tree_sizes_pos (length (layer_up l))) as Hpos.
  destruct fuel as [|fuel]; [lia|]. cbn [proof_loop data_size nodes].
  rewrite odd_add_odd by done.
  assert ((if negb (Nat.odd index) then Done (length (tree_nodes (layer_up l)) + index + 1)
    else usub (length (tree_nodes (layer_up l)) + index) 1) =
    Done (length (tree_nodes (layer_up l)) +
      (if Nat.odd index then index - 1 else index + 1))) as ->.
  { half index; rewrite Ho; simpl; [f_equal; lia|]. rewrite usub_done by lia. f_equal. lia. }
  cbn [mbind outcome_bind].
  rewrite (lookup_tree_layer l rest _ y) by done. cbn [unwrap mbind outcome_bind].
  rewrite length_app, length_tree_sizes_up by done.
  destruct (decide (length (layer_up l) = 1)) as [E1|E1].
  - rewrite E1 in *. simpl length.
    destruct (Nat.eqb_spec (length pre + 1) (length pre + 2 - 1)); [|lia].
    destruct (layer_up l) as [|z [|]]; by simpl in *.
  - pose proof (layer_up_shorter l Hl).
    pose proof (length_tree_sizes_up (layer_up l) ltac:(lia)) as Hsz.
    pose proof (length_tree_sizes_pos (length (layer_up (layer_up l)))).
    match goal with |- (if ?b then _ else _) = _ => destruct b eqn:Eb end;
      [apply Nat.eqb_eq in Eb; lia|]. clear Eb.
    rewrite tree_sizes_layers by done.
    change (length l :: tree_sizes (length (layer_up l)))
      with ([length l] ++ tree_sizes (length (layer_up l))). rewrite app_assoc.
    replace (length pre + 1) with (length (pre ++ [length l])) by (by rewrite length_app).
    rewrite tree_sizes_lookup. cbn [unwrap mbind outcome_bind].
    rewrite layer_before_tree by lia. cbn [mbind outcome_bind].
    rewrite (tree_nodes_step l), <- (app_assoc (tree_nodes _)) by done. rewrite <- Nat.div2_div.
    rewrite IH; [done|lia| |lia]. by eapply lookup_lt_Some.
Qed.

Lemma merkle_proof_ref l index :
  index < length l → merkle_proof (ref_tree l) index = Done (ref_path index l).
Proof.
  intros Hi. unfold merkle_proof, ref_tree. cbn [data_size nodes].
  rewrite tree_sizes_head. cbn [unwrap mbind outcome_bind].
  destruct (Nat.leb_spec (length l) index); [lia|].
  destruct (decide (length l = 1)) as [E|E].
  { by destruct l as [|x [|]]; simpl in *. }
  rewrite length_tree_sizes_up by lia.
  pose proof (length_tree_sizes_pos (length (layer_up l))) as Hp.
  destruct (length (tree_sizes (length (layer_up l)))) as [|m] eqn:Em; [lia|].
  cbn [Nat.eqb orb]. rewrite <- Em.
  rewrite layer_before_tree by lia. cbn [mbind outcome_bind].
  pose proof (proof_loop_ref l ltac:(intros ->; simpl in *; lia) ltac:(lia)
    (S (length (tree_sizes (length (layer_up l))))) [] [] index Hi) as Hl.
  rewrite app_nil_r in Hl. simpl app in Hl. simpl length in Hl at 4.
  apply Hl. rewrite length_tree_sizes_up by lia. lia.
Qed.

Lemma merkle_leaf_ref l index x :
  l !! index = Some x → merkle_leaf (ref_tree l) index = Done x.
Proof.
  intros Hx. pose proof (lookup_lt_Some _ _ _ Hx) as Hi.
  unfold merkle_leaf, ref_tree. cbn [data_size nodes].
  rewrite tree_sizes_head. cbn [unwrap mbind outcome_bind].
  destruct (Nat.leb_spec (length l) index); [lia|].
  destruct (Nat.eqb_spec (length l) 1) as [E|E].
  { destruct l as [|z [|]]; try done. destruct index; [|simpl in *; lia].
    simpl in Hx. by simplify_eq. }
  rewrite layer_before_tree by lia. cbn [mbind outcome_bind].
  pose proof (lookup_tree_layer l [] index x) as Ht. rewrite app_nil_r in Ht.
  rewrite Ht; [done|lia|]. by rewrite lookup_pad.
Qed.

Lemma sizes_sum_nat_step n :
  2 ≤ n → sizes_sum n = padded_size n + sizes_sum (Nat.div2 (S n)).
Proof. intros. unfold sizes_sum. by rewrite tree_sizes_step. Qed.

Lemma sizes_sum_odd n : 1 ≤ n → Nat.odd (sizes_sum n) = true.
Proof.
  induction (lt_wf n) as [n _ IH]. intros Hn.
  destruct (decide (n = 1)) as [->|]; [done|].
  rewrite sizes_sum_nat_step by lia. unfold padded_size.
  destruct (Nat.eqb_spec n 1); [lia|].
  rewrite Nat.add_comm, Nat.odd_add_mul_2. half n; rewrite Hs; apply IH; lia.
Qed.

(** The loop of [verify] computes the fold of the path. *)
Lemma verify_loop_fold path : ∀ n pre index acc,
  index < n → length (tree_sizes n) = S (length path) →
  verify_loop (pre ++ (padded_size <$> tree_sizes n))
    (sum_list (tail (padded_size <$> tree_sizes n))) (length pre) index acc path =
  Done (Some (fold_path index acc path)).
Proof.
  induction path as [|h path IH]; intros n pre index acc Hi Hlen; [done|].
  assert (2 ≤ n) as Hn2 by (destruct n as [|[|n]]; simpl in *; lia).
  rewrite tree_sizes_step in Hlen |- * by done. cbn [length] in Hlen.
  set (m := Nat.div2 (S n)) in *. cbn [fmap list_fmap tail verify_loop fold_path].
  change (padded_size n :: (padded_size <$> tree_sizes m))
    with ([padded_size n] ++ (padded_size <$> tree_sizes m)).
  assert (1 ≤ m ∧ Nat.div2 index < m) as [Hm Hi'].
  { unfold m. half n; rewrite Hs; half index; rewrite Hd0; lia. }
  change (list_fmap nat nat padded_size (tree_sizes m)) with (padded_size <$> tree_sizes m).
  fold (sizes_sum m). pose proof (sizes_sum_odd m Hm) as Hodd. pose proof (odd_pos _ Hodd).
  destruct (Nat.eqb_spec (sizes_sum m + index) 0); [lia|].
  rewrite odd_add_odd by done. rewrite app_assoc.
  replace (length pre + 1) with (length (pre ++ [padded_size n])) by (by rewrite length_app).
  rewrite lookup_app_r, Nat.sub_diag, list_lookup_fmap, tree_sizes_head by done.
  cbn [fmap option_fmap option_map unwrap mbind outcome_bind].
  assert (usub (sizes_sum m) (padded_size m) =
    Done (sum_list (tail (padded_size <$> tree_sizes m)))) as ->.
  { unfold sizes_sum. pose proof (tree_sizes_head m) as Hh.
    destruct (tree_sizes m) as [|a s]; [done|]. simpl in Hh. injection Hh as ->.
    change (sum_list (padded_size <$> m :: s))
      with (padded_size m + sum_list (padded_size <$> s)).
    rewrite usub_done by lia. cbn [fmap list_fmap tail]. f_equal.
    change (list_fmap nat nat padded_size s) with (padded_size <$> s). lia. }
  cbn [mbind outcome_bind]. rewrite <- Nat.div2_div, IH by lia.
  by destruct (Nat.odd index).
Qed.

Lemma merkle_verify_fold root data path index leaf_size :
  index < leaf_size → length (tree_sizes leaf_size) = S (length path) →
  merkle_verify root data path index leaf_size =
  Done (bool_decide (fold_path index data path = root)).
Proof.
  intros Hi Hlen. unfold merkle_verify.
  destruct (Nat.leb_spec leaf_size index); [lia|].
  rewrite size_loop_enough by lia. cbn [snd].
  change (λ d, if d =? 1 then 1 else 2 * Nat.div2 (S d)) with padded_size.
  rewrite length_fmap, Hlen, Nat.add_1_r, Nat.eqb_refl. cbn [negb].
  pose proof (verify_loop_fold path leaf_size [] index data Hi Hlen) as Hv.
  cbn [app length] in Hv. by rewrite Hv.
Qed.

(** A path of the wrong length is rejected. *)
Lemma merkle_verify_length root data path index leaf_size :
  merkle_verify root data path index leaf_size = Done true →
  index < leaf_size ∧ length (tree_sizes leaf_size) = S (length path).
Proof.
  unfold merkle_verify. destruct (Nat.leb_spec leaf_size index); [done|].
  rewrite size_loop_enough by lia. cbn [snd]. rewrite length_fmap.
  destruct (Nat.eqb_spec (length (tree_sizes leaf_size)) (length path + 1)); [lia|done].
Qed.

Lemma merkle_verify_total root data path index leaf_size :
  ∃ r, merkle_verify root data path index leaf_size = Done r.
Proof.
  destruct (decide (index < leaf_size ∧ length (tree_sizes leaf_size) = S (length path)))
    as [[Hi Hl]|Hn]; [eexists; by apply merkle_verify_fold|].
  exists false. unfold merkle_verify. destruct (Nat.leb_spec leaf_size index); [done|].
  rewrite size_loop_enough by lia. cbn [snd]. rewrite length_fmap.
  destruct (Nat.eqb_spec (length (tree_sizes leaf_size)) (length path + 1)); [lia|done].
Qed.

Lemma merkle_root_up l :
  2 ≤ length l → merkle_root (ref_tree l) = merkle_root (ref_tree (layer_up l)).
Proof.
  intros Hl. unfold merkle_root, ref_tree. cbn [nodes].
  rewrite (tree_nodes_step l) by done.
  pose proof (odd_pos _ (length_tree_nodes_up_odd l Hl)).
  by destruct (tree_nodes (layer_up l)); [simpl in *; lia|].
Qed.

Lemma fold_path_root l :
  l ≠ [] → ∀ index x, l !! index = Some x →
  fold_path index x (ref_path index l) = merkle_root (ref_tree l).
Proof.
  revert l. apply (layers_ind (λ l, ∀ index x, l !! index = Some x →
    fold_path index x (ref_path index l) = merkle_root (ref_tree l))).
  - intros z [|index] x Hx; simpl in *; by simplify_eq.
  - intros l Hl IH index x Hx.
    destruct (ref_path_step index l x Hl Hx) as (y & _ & Hup & ->).
    rewrite merkle_root_up by done. cbn [fold_path].
    by destruct (Nat.odd index); apply IH.
Qed.

Lemma hash_pair_inj strings a b c d :
  node_string a b ∈ strings → node_string c d ∈ strings →
  hash_pair a b = hash_pair c d → (a = c ∧ b = d) ∨ keccak_collides strings.
Proof.
  intros H1 H2 E. destruct (keccak_inj_or strings _ _ H1 H2 E) as [Ee|]; [left|by right].
  apply app_inj_1 in Ee as [??]; [|by rewrite !h256_len]. split; by apply h256_eq.
Qed.

Lemma pair_strings_app l1 l2 :
  Nat.odd (length l1) = false → pair_strings (l1 ++ l2) = pair_strings l1 ++ pair_strings l2.
Proof.
  assert (∀ n l1, length l1 ≤ n → Nat.odd (length l1) = false →
    pair_strings (l1 ++ l2) = pair_strings l1 ++ pair_strings l2) as Hn; [|eauto].
  clear l1. induction n as [|n IH]; intros [|a [|b l1]] Hl Ho; simpl in *; try done; try lia.
  f_equal. apply IH; [lia|done].
Qed.

Lemma elem_of_pair_strings l j a b :
  l !! (2 * j) = Some a → l !! (2 * j + 1) = Some b → node_string a b ∈ pair_strings l.
Proof.
  revert l. induction j as [|j IH]; intros l.
  - destruct l as [|x [|y l]]; simpl; try done. intros [= ->] [= ->]. left.
  - replace (2 * S j) with (S (S (2 * j))) by lia.
    replace (S (S (2 * j)) + 1) with (S (S (2 * j + 1))) by lia.
    destruct l as [|x [|y l]]; simpl; try done. intros. right. by apply IH.
Qed.

Lemma tree_strings_up l :
  2 ≤ length l →
  tree_strings (ref_tree l) = tree_strings (ref_tree (layer_up l)) ++ pair_strings (pad l).
Proof.
  intros Hl. unfold tree_strings, ref_tree. cbn [nodes]. rewrite (tree_nodes_step l) by done.
  pose proof (length_tree_nodes_up_odd l Hl) as Ho.
  destruct (tree_nodes (layer_up l)) as [|x ns]; [done|]. cbn [app drop length] in *.
  rewrite !drop_0. apply pair_strings_app. rewrite Nat.odd_succ, <- Nat.negb_odd in Ho.
  by destruct (Nat.odd (length ns)).
Qed.

(** The string that is hashed to the node above a leaf. *)
Lemma leaf_string l index x :
  2 ≤ length l → l !! index = Some x → ∃ y,
  pad l !! (if Nat.odd index then index - 1 else index + 1) = Some y ∧
  layer_up l !! Nat.div2 index =
    Some (if Nat.odd index then hash_pair y x else hash_pair x y) ∧
  (if Nat.odd index then node_string y x else node_string x y) ∈ tree_strings (ref_tree l).
Proof.
  intros Hl Hx. destruct (lookup_layer_up l index x Hx) as (y & Hy & Hup).
  pose proof (lookup_lt_Some _ _ _ Hx) as Hi. exists y. do 2 (split; [done|]).
  rewrite tree_strings_up by done. apply elem_of_app. right.
  rewrite <- (lookup_pad l) in Hx by done.
  half index; rewrite Ho in *; apply (elem_of_pair_strings _ k); subst;
    [done..|by replace (2 * k) with (S (2 * k) - 1) by lia|by rewrite Nat.add_1_r].
Qed.

(** The path of a leaf hashes strings of the tree. *)
Lemma ref_path_strings l :
  l ≠ [] → ∀ index x, l !! index = Some x →
  path_strings index x (ref_path index l) ⊆ tree_strings (ref_tree l).
Proof.
  revert l. apply (layers_ind (λ l, ∀ index x, l !! index = Some x →
    path_strings index x (ref_path index l) ⊆ tree_strings (ref_tree l))).
  - intros z index x Hx. rewrite ref_path_single. cbn. set_solver.
  - intros l Hl IH index x Hx.
    destruct (ref_path_step index l x Hl Hx) as (y & Hy & Hup & ->).
    destruct (leaf_string l index x Hl Hx) as (y' & Hy' & _ & Hin).
    assert (y' = y) as -> by congruence.
    cbn [path_strings]. specialize (IH (Nat.div2 index) _ Hup).
    intros s [->|Hs]%elem_of_cons; [by destruct (Nat.odd index)|].
    rewrite tree_strings_up by done. apply elem_of_app. left. apply IH.
    by destruct (Nat.odd index).
Qed.

Lemma fold_path_sound l :
  l ≠ [] → ∀ index acc path, index < length l →
  length (tree_sizes (length l)) = S (length path) →
  fold_path index acc path = merkle_root (ref_tree l) →
  l !! index = Some acc ∨
  keccak_collides (tree_strings (ref_tree l) ++ path_strings index acc path).
Proof.
  revert l. apply (layers_ind (λ l, ∀ index acc path, index < length l →
    length (tree_sizes (length l)) = S (length path) →
    fold_path index acc path = merkle_root (ref_tree l) →
    l !! index = Some acc ∨
    keccak_collides (tree_strings (ref_tree l) ++ path_strings index acc path))).
  - intros x index acc path Hi Hlen. simpl in *.
    destruct path; [|simpl in *; lia]. destruct index; [|lia]. simpl. naive_solver.
  - intros l Hl IH index acc path Hi Hlen Hroot.
    rewrite length_tree_sizes_up in Hlen by done.
    destruct path as [|h path];
      [pose proof (length_tree_sizes_pos (length (layer_up l))); simpl in *; lia|].
    destruct (lookup_lt_is_Some_2 l index Hi) as [x Hx].
    destruct (leaf_string l index x Hl Hx) as (y & _ & Hup & Hin).
    rewrite merkle_root_up in Hroot by done. cbn [fold_path] in Hroot.
    simpl in Hlen. apply IH in Hroot as [Hroot|Hc]; [|right|by eapply lookup_lt_Some|lia].
    + rewrite Hup in Hroot. cbn [path_strings]. destruct (Nat.odd index); injection Hroot as Hroot;
        (eapply (hash_pair_inj (_ ++ _ :: _)) in Hroot as [[??]|Hc];
          [|right; exact Hc|apply elem_of_app; left; exact Hin|apply elem_of_app; right; left]);
        subst; by left.
    + revert Hc. apply keccak_collides_mono. rewrite (tree_strings_up l) by done. cbn [path_strings].
      destruct (Nat.odd index); intros z; rewrite !elem_of_app, elem_of_cons; naive_solver.
Qed.
End Paths.

(** ** [update] *)

Section Update.
Context `{Keccak}.
Implicit Types l : list H256.

Lemma pad_insert l i v :
  i < length l →
  pad (<[i:=v]> l) =
  if (i =? length l - 1) && Nat.odd (length l)
  then <[i + 1:=v]> (<[i:=v]> (pad l)) else <[i:=v]> (pad l).
Proof.
  intros Hi. unfold pad. rewrite length_insert.
  destruct (Nat.odd (length l)); [|by rewrite andb_false_r].
  rewrite andb_true_r. destruct l as [|x l _] using rev_ind; [simpl in *; lia|].
  rewrite length_app in *. simpl in Hi. cbn [length]. rewrite last_snoc.
  destruct (Nat.eqb_spec i (length l + 1 - 1)) as [->|].
  - replace (length l + 1 - 1) with (length l) by lia.
    rewrite !insert_app_r_alt, !Nat.sub_diag by lia. cbn [insert list_insert].
    rewrite last_snoc. cbn [option_list]. rewrite <- !app_assoc.
    rewrite !insert_app_r_alt by lia.
    replace (length l + 1 - length l) with 1 by lia. by rewrite Nat.sub_diag.
  - rewrite insert_app_l, last_snoc by lia. simpl.
    rewrite <- !app_assoc. by rewrite insert_app_l by lia.
Qed.

Lemma lookup_pad_insert_ne l i v j :
  i < length l → Nat.div2 j ≠ Nat.div2 i → pad (<[i:=v]> l) !! j = pad l !! j.
Proof.
  intros Hi Hj. rewrite pad_insert by done.
  assert (j ≠ i) by congruence.
  destruct (Nat.eqb_spec i (length l - 1)) as [->|]; simpl;
    [|by rewrite list_lookup_insert_ne].
  destruct (Nat.odd (length l)) eqn:Ho; simpl; [|by rewrite list_lookup_insert_ne].
  rewrite !list_lookup_insert_ne; [done|done|]. intros <-. apply Hj.
  half (length l); [congruence|]. rewrite Hn.
  replace (S (2 * k) - 1 + 1) with (S (2 * k)) by lia.
  replace (S (2 * k) - 1) with (2 * k) by lia.
  by rewrite Nat.div2_double, Nat.div2_succ_double.
Qed.

Lemma layer_up_insert l i v :
  i < length l → ∃ w, layer_up (<[i:=v]> l) = <[Nat.div2 i:=w]> (layer_up l).
Proof.
  intros Hi.
  assert (Nat.div2 i < length (layer_up (<[i:=v]> l))) as Hd
    by (rewrite length_layer_up, length_insert; half (length l); rewrite Hs;
        half i; rewrite Hd0; lia).
  destruct (lookup_lt_is_Some_2 _ _ Hd) as [w Hw]. exists w.
  apply list_eq. intros j. destruct (decide (j = Nat.div2 i)) as [->|Hne].
  - rewrite Hw, list_lookup_insert_eq; [done|].
    by rewrite length_layer_up in *; rewrite length_insert in Hd.
  - rewrite list_lookup_insert_ne by done. unfold layer_up. rewrite !lookup_pair_up.
    rewrite !lookup_pad_insert_ne; try done.
    + by rewrite Nat.add_1_r, Nat.div2_succ_double.
    + by rewrite Nat.div2_double.
Qed.

(** Writing one node of the lowest layer of a tree. *)
Lemma write_node_layer l rest i v :
  2 ≤ length l → i < length l →
  write_node (tree_nodes l ++ rest) (length (tree_nodes (layer_up l))) i (length l) v =
  Done (tree_nodes (layer_up l) ++ pad (<[i:=v]> l) ++ rest).
Proof.
  intros Hl Hi. pose proof (length_tree_nodes_up_odd l Hl) as Hodd.
  rewrite (tree_nodes_step l), <- app_assoc by done.
  set (up := tree_nodes (layer_up l)) in *.
  pose proof (length_pad l) as Hp. unfold write_node.
  rewrite set_at_done by (rewrite !length_app; half (length l); rewrite Hs in Hp; lia).
  cbn [mbind outcome_bind]. rewrite usub_done by lia. cbn [mbind outcome_bind].
  rewrite insert_app_r, odd_add_odd by done.
  rewrite insert_app_l by (half (length l); rewrite Hs in Hp; lia).
  rewrite pad_insert by done.
  replace (length up + i =? length up + length l - 1) with (i =? length l - 1)
    by (destruct (Nat.eqb_spec i (length l - 1)); symmetry;
        [apply Nat.eqb_eq|apply Nat.eqb_neq]; lia).
  destruct (Nat.eqb_spec i (length l - 1)) as [->|]; [|done]. cbn [andb].
  half (length l); rewrite Ho.
  - replace (length l - 1) with (S (2 * (k - 1))) by lia.
    by rewrite Nat.odd_succ, Nat.even_mul.
  - replace (length l - 1) with (2 * k) by lia. rewrite Nat.odd_mul. cbn.
    rewrite Hs in Hp.
    rewrite lookup_app_r by lia. replace (length up + _ - length up) with (2 * k) by lia.
    rewrite lookup_app_l by (rewrite length_insert; lia).
    rewrite list_lookup_insert_eq by lia. cbn [unwrap mbind outcome_bind].
    rewrite set_at_done by (rewrite !length_app, length_insert; lia).
    f_equal. rewrite <- Nat.add_assoc, insert_app_r.
    by rewrite insert_app_l by (rewrite length_insert; lia).
Qed.

(** Start of the lowest layer of a tree as [update] computes it. *)
Definition layer_start_of (l : list H256) : nat :=
  if length l =? 1 then 0 else length (tree_nodes (layer_up l)).

Lemma update_next_layer pre l self_nodes (f : nat → MerkleTree → Outcome MerkleTree) :
  2 ≤ length l →
  (let self := mkMerkleTree (pre ++ tree_sizes (length l)) self_nodes in
   if length pre + 1 =? length (data_size self) then Done self
   else
     layer_start ←
       (if length pre + 1 =? length (data_size self) - 1 then Done 0
        else d ← unwrap (data_size self !! (length pre + 1));
             layer_before (length (tree_nodes (layer_up l))) d);
     f layer_start self) =
  f (layer_start_of (layer_up l))
    (mkMerkleTree ((pre ++ [length l]) ++ tree_sizes (length (layer_up l))) self_nodes).
Proof.
  intros Hl. cbn zeta. cbn [data_size].
  rewrite tree_sizes_layers by done.
  change (length l :: tree_sizes (length (layer_up l)))
    with ([length l] ++ tree_sizes (length (layer_up l))). rewrite app_assoc.
  pose proof (length_tree_sizes_pos (length (layer_up l))) as Hp.
  pose proof (layer_up_shorter l Hl).
  destruct (Nat.eqb_spec (length pre + 1)
    (length ((pre ++ [length l]) ++ tree_sizes (length (layer_up l))))) as [E|_];
    [rewrite !length_app in E; simpl in E; lia|].
  unfold layer_start_of. destruct (Nat.eqb_spec (length (layer_up l)) 1) as [E|E].
  - rewrite E, tree_sizes_one.
    destruct (Nat.eqb_spec (length pre + 1) (length ((pre ++ [length l]) ++ [1]) - 1)) as [|N];
      [done|rewrite !length_app in N; simpl in N; lia].
  - pose proof (length_tree_sizes_up (layer_up l) ltac:(lia)) as Hsz.
    pose proof (length_tree_sizes_pos (length (layer_up (layer_up l)))).
    destruct (Nat.eqb_spec (length pre + 1)
      (length ((pre ++ [length l]) ++ tree_sizes (length (layer_up l))) - 1)) as [E'|_];
      [rewrite !length_app in E'; simpl in E'; lia|].
    replace (length pre + 1) with (length (pre ++ [length l])) by (by rewrite length_app).
    rewrite tree_sizes_lookup. cbn [unwrap mbind outcome_bind].
    by rewrite layer_before_tree by lia.
Qed.

(** The node above two children is computed from them. *)
Lemma updated_node_upper h last l pre below rest j w :
  2 ≤ length l → layer_up below = <[j:=w]> l → j < length l → length (tree_nodes l) ≤ last →
  updated_node
    (mkMerkleTree (pre ++ tree_sizes (length l)) (tree_nodes l ++ pad below ++ rest))
    h last (length (tree_nodes (layer_up l))) (length pre) j = Done w.
Proof.
  intros Hl Hup Hj Hlast.
  pose proof (length_tree_nodes_up_odd l Hl) as Hodd. pose proof (odd_pos _ Hodd).
  assert (length (tree_nodes l) = length (tree_nodes (layer_up l)) + length (pad l)) as Hnl
    by (by rewrite (tree_nodes_step l), length_app by done).
  assert (length l ≤ length (pad l)) as Hpl
    by (rewrite length_pad; half (length l); rewrite Hs; lia).
  set (s := length (tree_nodes (layer_up l))) in *.
  unfold updated_node. cbn [nodes data_size].
  destruct (Nat.leb_spec last (s + j)); [lia|].
  destruct (Nat.ltb_spec 0 (s + j)); [|lia].
  rewrite tree_sizes_lookup. cbn [unwrap mbind outcome_bind].
  assert ((if Nat.odd (length l) then s + j * 2 + length l + 1
    else s + j * 2 + length l) = length (tree_nodes l) + 2 * j) as ->.
  { rewrite Hnl, length_pad. half (length l); rewrite Ho, Hs; lia. }
  assert (layer_up below !! j = Some w) as Hjw
    by (rewrite Hup; by apply list_lookup_insert_eq).
  unfold layer_up in Hjw. rewrite lookup_pair_up in Hjw.
  destruct (pad below !! (2 * j)) as [a|] eqn:Ea; [|done].
  destruct (pad below !! (2 * j + 1)) as [b|] eqn:Eb; [|done].
  rewrite !(lookup_app_r (tree_nodes l)) by lia.
  replace (length (tree_nodes l) + 2 * j - length (tree_nodes l)) with (2 * j) by lia.
  replace (length (tree_nodes l) + 2 * j + 1 - length (tree_nodes l))
    with (2 * j + 1) by lia.
  rewrite (lookup_app_l_Some _ _ _ _ Ea), (lookup_app_l_Some _ _ _ _ Eb).
  cbn. by simplify_eq.
Qed.

Lemma update_loop_upper h last l :
  l ≠ [] → ∀ fuel pre below rest j w,
  2 ≤ length below → layer_up below = <[j:=w]> l → j < length l →
  length (tree_nodes l) ≤ last → length (tree_sizes (length l)) ≤ fuel →
  update_loop fuel h last
    (mkMerkleTree (pre ++ tree_sizes (length l)) (tree_nodes l ++ pad below ++ rest))
    (layer_start_of l) (length pre) j =
  Done (mkMerkleTree (pre ++ tree_sizes (length l))
    (tree_nodes (layer_up below) ++ pad below ++ rest)).
Proof.
  revert l. apply (layers_ind (λ l, ∀ fuel pre below rest j w,
    2 ≤ length below → layer_up below = <[j:=w]> l → j < length l →
    length (tree_nodes l) ≤ last → length (tree_sizes (length l)) ≤ fuel →
    update_loop fuel h last
      (mkMerkleTree (pre ++ tree_sizes (length l)) (tree_nodes l ++ pad below ++ rest))
      (layer_start_of l) (length pre) j =
    Done (mkMerkleTree (pre ++ tree_sizes (length l))
      (tree_nodes (layer_up below) ++ pad below ++ rest)))).
  - intros x [|fuel] pre below rest j w Hb Hup Hj Hlast Hf; simpl in *; [lia|].
    assert (j = 0) as -> by lia. simpl in Hup.
    assert (length (pad below) = 2) as Hp.
    { rewrite length_pad, <- length_layer_up, Hup. done. }
    unfold layer_up in *.
    destruct (pad below) as [|a [|b [|]]]; simpl in *; try done; try lia. simplify_eq.
    unfold updated_node. cbn.
    destruct (Nat.leb_spec last 0); [lia|]. cbn.
    rewrite (lookup_app_r pre [1] (length pre)), Nat.sub_diag by done. cbn.
    rewrite length_app. cbn. by rewrite Nat.eqb_refl.
  - intros l Hl IH [|fuel] pre below rest j w Hb Hup Hj Hlast Hf.
    { pose proof (length_tree_sizes_pos (length l)). lia. }
    cbn [update_loop].
    assert (layer_start_of l = length (tree_nodes (layer_up l))) as ->
      by (unfold layer_start_of; by destruct (Nat.eqb_spec (length l) 1); [lia|]).
    pose proof (length_tree_nodes_up_odd l Hl) as Hodd. pose proof (odd_pos _ Hodd).
    assert (length (tree_nodes l) = length (tree_nodes (layer_up l)) + length (pad l)) as Hnl
      by (by rewrite (tree_nodes_step l), length_app by done).
    assert (length l ≤ length (pad l)) as Hpl
      by (rewrite length_pad; half (length l); rewrite Hs; lia).
    set (s := length (tree_nodes (layer_up l))) in *.
    unfold s in *. rewrite (updated_node_upper h last l pre below rest j w) by done.
    cbn [mbind outcome_bind data_size nodes].
    rewrite tree_sizes_lookup. cbn [unwrap mbind outcome_bind].
    rewrite write_node_layer, <- Hup by done. cbn [mbind outcome_bind].
    destruct (layer_up_insert l j w Hj) as [w' Hw'].
    pose proof (update_next_layer pre l
      (tree_nodes (layer_up l) ++ pad (layer_up below) ++ pad below ++ rest)
      (λ ls self, update_loop fuel h last self ls (length pre + 1) (j / 2)) Hl) as Hnext.
    cbn zeta in Hnext. cbn [data_size] in *. rewrite Hnext. clear Hnext.
    replace (length pre + 1) with (length (pre ++ [length l])) by (by rewrite length_app).
    rewrite <- Nat.div2_div.
    rewrite (IH _ _ _ _ _ w'); [| |by rewrite Hup| |lia|].
    + rewrite <- app_assoc. simpl. rewrite <- tree_sizes_layers by done.
      rewrite (tree_nodes_step (layer_up below)), <- app_assoc; [done|].
      by rewrite Hup, length_insert.
    + by rewrite Hup, length_insert.
    + rewrite length_layer_up. half (length l); rewrite Hs; half j; rewrite Hd0; lia.
    + rewrite length_tree_sizes_up in Hf by done. lia.
Qed.

Lemma merkle_update_ref {T} `{!Hashable T} l index (data : T) :
  merkle_update (ref_tree l) index data =
  Done (if index <? length l then ref_tree (<[index:=hash data]> l) else ref_tree l).
Proof.
  unfold merkle_update.
  change (data_size (ref_tree l)) with (tree_sizes (length l)).
  change (nodes (ref_tree l)) with (tree_nodes l).
  rewrite tree_sizes_head. cbn [unwrap mbind outcome_bind].
  destruct (Nat.leb_spec (length l) index), (Nat.ltb_spec index (length l)); try lia; [done|].
  destruct (Nat.eqb_spec (length l) 1) as [E|E].
  { destruct l as [|x [|]]; simpl in *; try lia. by destruct index; [|lia]. }
  rewrite layer_before_tree by lia. cbn [mbind outcome_bind].
  rewrite length_tree_sizes_up by lia. cbn [update_loop].
  unfold updated_node at 1.
  destruct (Nat.leb_spec (length (tree_nodes (layer_up l)))
    (length (tree_nodes (layer_up l)) + index)); [|lia].
  cbn [mbind outcome_bind data_size nodes ref_tree]. rewrite tree_sizes_head.
  cbn [unwrap mbind outcome_bind].
  pose proof (write_node_layer l [] index (hash data) ltac:(lia) ltac:(lia)) as Hw.
  rewrite !app_nil_r in Hw. rewrite Hw. cbn [mbind outcome_bind].
  destruct (layer_up_insert l index (hash data) ltac:(lia)) as [w Hup].
  pose proof (update_next_layer [] l
    (tree_nodes (layer_up l) ++ pad (<[index:=hash data]> l))
    (λ ls self, update_loop (length (tree_sizes (length (layer_up l)))) (hash data)
       (length (tree_nodes (layer_up l))) self ls (0 + 1) (index / 2)) ltac:(lia)) as Hnext.
  cbn zeta in Hnext. cbn [data_size length app Nat.add] in *.
  rewrite Hnext. clear Hnext. rewrite <- Nat.div2_div.
  pose proof (update_loop_upper (hash data) (length (tree_nodes (layer_up l))) (layer_up l)
    (layer_up_nonempty l ltac:(lia)) (length (tree_sizes (length (layer_up l))))
    [length l] (<[index:=hash data]> l) [] (Nat.div2 index) w) as Hloop.
  rewrite !app_nil_r in Hloop. cbn [length app] in Hloop. rewrite Hloop; try done.
  - unfold ref_tree. rewrite length_insert. rewrite (tree_sizes_layers l) by lia.
    by rewrite (tree_nodes_step (<[_:=_]> l)) by (rewrite length_insert; lia).
  - rewrite length_insert. lia.
  - rewrite length_layer_up. half (length l); rewrite Hs; half index; rewrite Hd0; lia.
Qed.
End Update.

(** ** Properties *)

Section Properties.
Context `{Keccak} {T : Type} `{!Hashable T}.
Implicit Types data : list T.

Lemma merkle_root_inj l1 l2 :
  length l1 = length l2 → merkle_root (ref_tree l1) = merkle_root (ref_tree l2) →
  l1 = l2 ∨ keccak_collides (tree_strings (ref_tree l1) ++ tree_strings (ref_tree l2)).
Proof.
  intros Hlen Hroot. destruct (decide (l2 = [])) as [->|Hne].
  { left. by apply nil_length_inv. }
  destruct (decide (l1 = l2)) as [|Hd]; [by left|]. right.
  assert (∃ i x, l1 !! i = Some x ∧ l2 !! i ≠ Some x) as (i & x & H1 & H2).
  { destruct (decide (Forall (λ i, l1 !! i = l2 !! i) (seq 0 (length l1)))) as [Ha|Ha].
    - destruct Hd. apply list_eq. intros i. destruct (decide (i < length l1)).
      + rewrite Forall_forall in Ha. apply Ha, elem_of_seq. lia.
      + rewrite !lookup_ge_None_2; [done|lia..].
    - apply not_Forall_Exists in Ha; [|apply _]. apply Exists_exists in Ha as (i & Hi & Hni).
      apply elem_of_seq in Hi. destruct (lookup_lt_is_Some_2 l1 i) as [x Hx]; [lia|].
      exists i, x. simpl in Hni. by rewrite Hx in *. }
  pose proof (lookup_lt_Some _ _ _ H1) as Hi.
  assert (l1 ≠ []) as Hne1 by (intros ->; simpl in *; lia).
  destruct (fold_path_sound l2 Hne i x (ref_path i l1)) as [Hs|Hc]; [lia| | |done|].
  - rewrite <- Hlen, length_ref_path by done.
    pose proof (length_tree_sizes_pos (length l1)). lia.
  - by rewrite fold_path_root.
  - revert Hc. apply keccak_collides_mono. pose proof (ref_path_strings l1 Hne1 i x H1). set_solver.
Qed.

(** [MerkleTree::new] never panics, whatever the number of leaves: the index
    arithmetic stays inside the array it allocates, and the array it fills is the
    reference tree over the hashes of the data, layer after layer. *)
Theorem merkle_new_builds_tree data :
  merkle_new data = Done (ref_tree (hash <$> data)).
Proof. apply merkle_new_ref. Qed.

(** The path of a leaf is its proof, and verifies. *)
Lemma merkle_proof_leaf l i x :
  l !! i = Some x →
  merkle_proof (ref_tree l) i = Done (ref_path i l) ∧
  merkle_verify (merkle_root (ref_tree l)) x (ref_path i l) i (length l) = Done true.
Proof.
  intros Hx. pose proof (lookup_lt_Some _ _ _ Hx) as Hi. split; [by apply merkle_proof_ref|].
  rewrite merkle_verify_fold; [|done|].
  - f_equal. apply bool_decide_eq_true. apply fold_path_root; [|done].
    intros ->. by rewrite lookup_nil in Hx.
  - rewrite length_ref_path by lia. pose proof (length_tree_sizes_pos (length l)). lia.
Qed.

(** Completeness of proofs. For every leaf of a tree built by [new], [proof]
    returns a path, and [verify] accepts it against the root, the hash of the leaf, its
    index and the number of leaves. *)
Theorem merkle_proof_verifies data i x :
  data !! i = Some x →
  ∃ t p, merkle_new data = Done t ∧ merkle_proof t i = Done p ∧
    merkle_verify (merkle_root t) (hash x) p i (length data) = Done true.
Proof.
  intros Hx. destruct (merkle_proof_leaf (hash <$> data) i (hash x)) as [Hp Hv];
    [by rewrite list_lookup_fmap, Hx|].
  eexists _, _. rewrite length_fmap in Hv. split_and!; [apply merkle_new_ref|exact Hp|exact Hv].
Qed.

(** What [verify] accepts against the root of a tree is a leaf of it. *)
Lemma merkle_verify_leaf data h p i :
  merkle_verify (merkle_root (ref_tree (hash <$> data))) h p i (length data) = Done true →
  (∃ x, data !! i = Some x ∧ hash x = h) ∨
  keccak_collides (tree_strings (ref_tree (hash <$> data)) ++ path_strings i h p).
Proof.
  intros Hv. destruct (merkle_verify_length _ _ _ _ _ Hv) as [Hi Hlen].
  rewrite merkle_verify_fold in Hv by done. injection Hv as Hv%bool_decide_eq_true.
  destruct (fold_path_sound (hash <$> data)) with (index := i) (acc := h) (path := p)
    as [Hs|Hc]; [| by rewrite length_fmap | by rewrite length_fmap | done | | by right].
  - by destruct data; simpl in *; [lia|].
  - left. rewrite list_lookup_fmap in Hs. apply fmap_Some in Hs as (x & Hx & ->). eauto.
Qed.

(** C39: Soundness of proofs. If [verify] accepts a hash at an index against the root of
    a tree built by [new], then it is the hash of the leaf at that index, unless keccak
    collides on two of the strings that [new] hashed for the nodes of this tree and [verify]
    hashed along this path. *)
Theorem merkle_verify_sound data t h p i :
  merkle_new data = Done t →
  merkle_verify (merkle_root t) h p i (length data) = Done true →
  (∃ x, data !! i = Some x ∧ hash x = h) ∨
  keccak_collides (tree_strings t ++ path_strings i h p).
Proof. rewrite merkle_new_ref. intros [= <-]. apply merkle_verify_leaf. Qed.

(** Updating one leaf of a tree built by [new] gives the tree [new] builds from the
    updated data, for every number of leaves and every index; an index out of range
    leaves the tree unchanged. *)
Theorem merkle_update_rebuilds data t i x :
  merkle_new data = Done t →
  merkle_update t i x = merkle_new (<[i:=x]> data).
Proof.
  rewrite !merkle_new_ref. intros [= <-]. rewrite merkle_update_ref, length_fmap.
  destruct (Nat.ltb_spec i (length data)).
  - by rewrite list_fmap_insert.
  - by rewrite list_insert_ge by lia.
Qed.

(** The root binds the data: two data sets of the same length with the same root
    have the same leaf hashes, unless keccak collides on strings hashed for the two trees. *)
Theorem merkle_root_binding (data1 data2 : list T) t1 t2 :
  merkle_new data1 = Done t1 → merkle_new data2 = Done t2 →
  length data1 = length data2 → merkle_root t1 = merkle_root t2 →
  hash <$> data1 = hash <$> data2 ∨ keccak_collides (tree_strings t1 ++ tree_strings t2).
Proof.
  rewrite !merkle_new_ref. intros [= <-] [= <-] Hlen Hroot.
  apply merkle_root_inj; [by rewrite !length_fmap|done].
Qed.

(** the root does not bind the number of leaves: repeating the last of an odd number
    (at least three) of leaves gives the same root. *)
Theorem merkle_root_duplicated_leaf data x t1 t2 :
  3 ≤ length (data ++ [x]) → Nat.odd (length (data ++ [x])) = true →
  merkle_new (data ++ [x]) = Done t1 → merkle_new (data ++ [x; x]) = Done t2 →
  merkle_root t1 = merkle_root t2.
Proof.
  rewrite !merkle_new_ref. intros Hlen Hodd [= <-] [= <-].
  rewrite !fmap_app. simpl. rewrite length_app in *. simpl in *.
  set (l := hash <$> data). assert (length l = length data) as Hl by apply length_fmap.
  rewrite (merkle_root_up (l ++ [hash x])), (merkle_root_up (l ++ [hash x; hash x]))
    by (rewrite length_app; simpl; lia).
  do 2 f_equal. unfold layer_up. f_equal. unfold pad.
  rewrite !length_app, Hl. simpl. rewrite Hodd, last_snoc.
  replace (length data + 2) with (S (length data + 1)) by lia.
  rewrite Nat.odd_succ, <- Nat.negb_odd, Hodd. simpl. by rewrite <- app_assoc.
Qed.
End Properties.

(** *** Witnesses *)

Section Witnesses.
#[local] Existing Instance example_keccak.

Definition example_leaves : list H256 := [h256 1; h256 2; h256 3; h256 4; h256 5].

Lemma merkle_proof_verifies_witness :
  ∃ t p, merkle_new example_leaves = Done t ∧ merkle_proof t 4 = Done p ∧
    merkle_verify (merkle_root t) (hash (h256 5)) p 4 5 = Done true.
Proof. apply (merkle_proof_verifies example_leaves 4 (h256 5)). reflexivity. Defined.

Lemma merkle_verify_sound_witness :
  (∃ x, example_leaves !! 4 = Some x ∧ hash x = hash (h256 5)) ∨
  keccak_collides (tree_strings (ref_tree (hash <$> example_leaves)) ++
    path_strings 4 (hash (h256 5)) (ref_path 4 (hash <$> example_leaves))).
Proof.
  refine (merkle_verify_sound example_leaves (ref_tree (hash <$> example_leaves))
    (hash (h256 5)) (ref_path 4 (hash <$> example_leaves)) 4 _ _).
  - apply merkle_new_ref.
  - vm_compute. reflexivity.
Defined.

Lemma merkle_update_rebuilds_witness :
  merkle_update (ref_tree (hash <$> example_leaves)) 4 (h256 9) =
  merkle_new (<[4:=h256 9]> example_leaves).
Proof. apply (merkle_update_rebuilds example_leaves). apply merkle_new_ref. Defined.

Lemma merkle_root_binding_witness :
  hash <$> example_leaves = hash <$> example_leaves ∨
  keccak_collides (tree_strings (ref_tree (hash <$> example_leaves)) ++
    tree_strings (ref_tree (hash <$> example_leaves))).
Proof.
  apply (merkle_root_binding example_leaves example_leaves
    (ref_tree (hash <$> example_leaves)) (ref_tree (hash <$> example_leaves)));
    [apply merkle_new_ref|apply merkle_new_ref|reflexivity|reflexivity].
Defined.

Lemma merkle_root_duplicated_leaf_witness :
  merkle_root (ref_tree (hash <$> [h256 1; h256 2; h256 3])) =
  merkle_root (ref_tree (hash <$> [h256 1; h256 2; h256 3; h256 3])).
Proof.
  apply (merkle_root_duplicated_leaf [h256 1; h256 2] (h256 3));
    [simpl; lia|reflexivity|apply merkle_new_ref|apply merkle_new_ref].
Defined.
End Witnesses.
