(* ===== verification/Transaction.v ===== *)
(** * Ethereum transactions: [src/parity-ethereum/ethcore/types/src/transaction/transaction.rs]
    and [src/src/transaction/mod.rs]

    The transaction types the node carries, their hashes, signatures and sender
    recovery.  The elliptic curve operations come from the [parity_crypto] crate and the
    RLP encoder from the [rlp] crate; both are parameters. *)

From S2P Require Import Prelude Hash.

Definition Address := list byte.
Definition Public := list byte.
Definition Secret := H256.

(** [parity_crypto::publickey::Signature], the 65 bytes [r || s || v]. *)
Record Signature := from_rsv { sig_r : H256; sig_s : H256; sig_v : Z }.

(** ** The elliptic curve library *)

Class PublicKeyCrypto := {
  crypto_error : Type;
  InvalidSignature : crypto_error;
  pk_sign : Secret → H256 → Result Signature crypto_error;
  pk_recover : Signature → H256 → Result Public crypto_error;
  public_to_address : Public → Address;
  is_low_s : Signature → bool;
  secret_public : Secret → Public;
}.

(** What the code relies on: a signature made with a secret recovers to its public key,
    its recovery id is 0 or 1, and it is not the empty signature. *)
Class PublicKeyLaws `{PublicKeyCrypto} : Prop := {
  pk_sign_recover secret m :
    ∃ sig, pk_sign secret m = Ok sig ∧ pk_recover sig m = Ok (secret_public secret);
  pk_sign_v secret m sig : pk_sign secret m = Ok sig → sig_v sig = 0%Z ∨ sig_v sig = 1%Z;
  pk_sign_r secret m sig : pk_sign secret m = Ok sig → h256_Z (sig_r sig) ≠ 0%Z;
}.

(** ** The RLP encoder

    The calls made on an [RlpStream], and the encoder from the calls to the bytes. *)
Inductive RlpOp :=
| begin_list (n : nat)
| append_uint (z : Z)
| append_bytes (bs : list byte).

Class Rlp := rlp_out : list RlpOp → list byte.

(** ** Data *)

Inductive Action :=
| Create
| Call (a : Address).

Record RawTransaction := mkRawTransaction {
  tx_nonce : Z;
  tx_gas_price : Z;
  tx_gas : Z;
  tx_action : Action;
  tx_value : Z;
  tx_data : list byte;
}.

Record UnverifiedTransaction := mkUnverified {
  unsigned : RawTransaction;
  ut_v : Z;
  ut_r : Z;
  ut_s : Z;
  ut_hash : H256;
}.

(** [SignedTransaction], which the node calls [Transaction]. *)
Record Transaction := mkTransaction {
  tx_transaction : UnverifiedTransaction;
  tx_sender : Address;
  tx_public : option Public;
}.

#[global] Instance action_eq_dec : EqDecision Action.
Proof. solve_decision. Defined.
#[global] Instance raw_transaction_eq_dec : EqDecision RawTransaction.
Proof. solve_decision. Defined.
#[global] Instance unverified_eq_dec : EqDecision UnverifiedTransaction.
Proof. solve_decision. Defined.
#[global] Instance transaction_eq_dec : EqDecision Transaction.
Proof. solve_decision. Defined.

(** ** Replay protection: [mod signature] *)

Definition add_chain_replay_protection (v : Z) (chain_id : option Z) : Z :=
  u64 (v + match chain_id with Some n => u64 (35 + u64 (n * 2)) | None => 27 end).

Definition check_replay_protection (v : Z) : Z :=
  if (v =? 27)%Z then 0%Z
  else if (v =? 28)%Z then 1%Z
  else if (35 <=? v)%Z then ((v - 1) `mod` 2)%Z
  else 4%Z.

(** ** [impl Transaction] and [impl UnverifiedTransaction] *)

Section Operations.
Context `{Keccak, Rlp, PublicKeyCrypto}.

Definition append_action (a : Action) : RlpOp :=
  match a with Create => append_bytes [] | Call addr => append_bytes addr end.

Definition rlp_append_unsigned_transaction (t : RawTransaction) (chain_id : option Z) :
    list RlpOp :=
  [begin_list (match chain_id with None => 6 | Some _ => 9 end);
   append_uint (tx_nonce t); append_uint (tx_gas_price t); append_uint (tx_gas t);
   append_action (tx_action t); append_uint (tx_value t); append_bytes (tx_data t)] ++
  match chain_id with
  | Some n => [append_uint n; append_uint 0; append_uint 0]
  | None => []
  end.

Definition raw_hash (t : RawTransaction) (chain_id : option Z) : H256 :=
  keccak (rlp_out (rlp_append_unsigned_transaction t chain_id)).

Definition rlp_append_sealed_transaction (t : UnverifiedTransaction) : list RlpOp :=
  let u := unsigned t in
  [begin_list 9;
   append_uint (tx_nonce u); append_uint (tx_gas_price u); append_uint (tx_gas u);
   append_action (tx_action u); append_uint (tx_value u); append_bytes (tx_data u);
   append_uint (ut_v t); append_uint (ut_r t); append_uint (ut_s t)].

Definition set_hash (t : UnverifiedTransaction) (h : H256) : UnverifiedTransaction :=
  mkUnverified (unsigned t) (ut_v t) (ut_r t) (ut_s t) h.

Definition compute_hash (t : UnverifiedTransaction) : UnverifiedTransaction :=
  set_hash t (keccak (rlp_out (rlp_append_sealed_transaction t))).

Definition with_signature (t : RawTransaction) (sig : Signature) (chain_id : option Z) :
    UnverifiedTransaction :=
  compute_hash (mkUnverified t
    (add_chain_replay_protection (sig_v sig) chain_id)
    (h256_Z (sig_r sig)) (h256_Z (sig_s sig)) h256_default).

Definition is_unsigned (t : UnverifiedTransaction) : bool :=
  (ut_r t =? 0)%Z && (ut_s t =? 0)%Z.

Definition receiver (t : UnverifiedTransaction) : option Address :=
  match tx_action (unsigned t) with Create => None | Call r => Some r end.

Definition standard_v (t : UnverifiedTransaction) : Z := check_replay_protection (ut_v t).

Definition tx_chain_id (t : UnverifiedTransaction) : option Z :=
  if is_unsigned t then Some (ut_v t)
  else if (35 <=? ut_v t)%Z then Some ((ut_v t - 35) / 2)%Z
  else None.

Definition signature (t : UnverifiedTransaction) : Signature :=
  from_rsv (h256 (ut_r t)) (h256 (ut_s t)) (standard_v t).

Definition check_low_s (t : UnverifiedTransaction) : Result unit crypto_error :=
  if is_low_s (signature t) then Ok tt else Err InvalidSignature.

Definition recover_public (t : UnverifiedTransaction) : Result Public crypto_error :=
  pk_recover (signature t) (raw_hash (unsigned t) (tx_chain_id t)).

(** [transaction::error::Error], the two constructors [verify_basic] uses. *)
Inductive TransactionError :=
| TransactionInvalidSignature (e : crypto_error)
| InvalidChainId.

Definition verify_basic (t : UnverifiedTransaction) (check_low : bool)
    (chain_id : option Z) : Result unit TransactionError :=
  if is_unsigned t then Err (TransactionInvalidSignature InvalidSignature)
  else
    match if check_low then check_low_s t else Ok tt with
    | Err e => Err (TransactionInvalidSignature e)
    | Ok _ =>
        match tx_chain_id t, chain_id with
        | None, _ => Ok tt
        | Some n, Some m => if (n =? m)%Z then Ok tt else Err InvalidChainId
        | Some _, None => Err InvalidChainId
        end
    end.

(** ** [impl SignedTransaction] *)

Definition transaction_new (t : UnverifiedTransaction) : Result Transaction crypto_error :=
  if is_unsigned t then Err InvalidSignature
  else try_bind (recover_public t) (λ public,
    Ok (mkTransaction t (public_to_address public) (Some public))).

Definition verify_unordered (t : UnverifiedTransaction) : Result Transaction crypto_error :=
  transaction_new t.

Definition deconstruct (t : Transaction) :
    UnverifiedTransaction * Address * option Public :=
  (tx_transaction t, tx_sender t, tx_public t).

(** [Transaction::sign]; both [expect]s are panics. *)
Definition sign (t : RawTransaction) (secret : Secret) (chain_id : option Z) :
    Outcome Transaction :=
  sig ← expect (pk_sign secret (raw_hash t chain_id));
  expect (transaction_new (with_signature t sig chain_id)).

(** [Transaction::fake_sign]. *)
Definition fake_sign (t : RawTransaction) (from : Address) : Transaction :=
  mkTransaction (compute_hash (mkUnverified t 0 1 1 h256_default)) from None.

End Operations.

(** [impl Hashable for Transaction] and [impl PayloadSize for Transaction] of
    [src/src/transaction/mod.rs]: the hash is the stored one. *)
#[global] Instance transaction_hashable : Hashable Transaction :=
  λ t, ut_hash (tx_transaction t).
Definition transaction_size (t : Transaction) : nat := 1.

(** ** Lemmas *)

Section Lemmas.
Context `{Keccak, Rlp, PublicKeyCrypto}.

Lemma check_add_replay_protection v chain_id :
  (v = 0 ∨ v = 1)%Z → (∀ n, chain_id = Some n → 0 ≤ n < 2 ^ 62)%Z →
  let v' := add_chain_replay_protection v chain_id in
  check_replay_protection v' = v ∧
  (if (35 <=? v')%Z then Some ((v' - 35) / 2)%Z else None) = chain_id.
Proof.
  intros Hv Hn. unfold add_chain_replay_protection. destruct chain_id as [n|]; cbv zeta.
  - specialize (Hn n eq_refl). rewrite (u64_small (n * 2)), (u64_small (35 + n * 2)) by lia.
    rewrite u64_small by lia.
    unfold check_replay_protection.
    destruct (Z.eqb_spec (v + (35 + n * 2)) 27); [lia|].
    destruct (Z.eqb_spec (v + (35 + n * 2)) 28); [lia|].
    destruct (Z.leb_spec 35 (v + (35 + n * 2))); [|lia]. split.
    + replace (v + (35 + n * 2) - 1)%Z with (v + (17 + n) * 2)%Z by lia.
      rewrite Z_mod_plus_full. destruct Hv; subst; done.
    + f_equal. replace (v + (35 + n * 2) - 35)%Z with (v + n * 2)%Z by lia.
      rewrite Z.div_add by lia. destruct Hv; subst; done.
  - rewrite u64_small by lia. destruct Hv; subst; done.
Qed.

Lemma h256_of_h256_Z h : h256 (h256_Z h) = h.
Proof. apply h256_Z_inj. apply h256_Z_h256, h256_Z_bound. Qed.

(** The parts of a transaction signed with [sig]. *)
Lemma with_signature_parts t sig chain_id :
  (sig_v sig = 0 ∨ sig_v sig = 1)%Z → (h256_Z (sig_r sig) ≠ 0)%Z →
  (∀ n, chain_id = Some n → 0 ≤ n < 2 ^ 62)%Z →
  let ut := with_signature t sig chain_id in
  is_unsigned ut = false ∧ tx_chain_id ut = chain_id ∧ signature ut = sig ∧ unsigned ut = t.
Proof.
  intros Hv Hr Hn ut.
  destruct (check_add_replay_protection _ _ Hv Hn) as [Hc Hi].
  assert (is_unsigned ut = false) as Hu.
  { unfold is_unsigned; simpl. by destruct (Z.eqb_spec (h256_Z (sig_r sig)) 0). }
  split_and!; [done| | |done].
  - unfold tx_chain_id. rewrite Hu. exact Hi.
  - unfold signature, standard_v. simpl. rewrite Hc, !h256_of_h256_Z. by destruct sig.
Qed.

(** Recovery does not look at the stored hash. *)
Lemma transaction_new_set_hash t h :
  transaction_new (set_hash t h) =
  match transaction_new t with
  | Ok tx => Ok (mkTransaction (set_hash t h) (tx_sender tx) (tx_public tx))
  | Err e => Err e
  end.
Proof.
  unfold transaction_new. change (is_unsigned (set_hash t h)) with (is_unsigned t).
  destruct (is_unsigned t); [done|].
  change (recover_public (set_hash t h)) with (recover_public t).
  by destruct (recover_public t).
Qed.
End Lemmas.

(** ** Properties *)

Section Properties.
Context `{Keccak, Rlp, PublicKeyLaws}.

(** a transaction signed by the wallet, with or without a chain id below 2{^62}, is
    never a panic; it verifies again to the same transaction, carries the chain id it
    was signed for, its sender is the address of the key that signed it, and its hash
    is the hash of its encoding. *)
Theorem sign_then_verify t secret chain_id :
  (∀ n, chain_id = Some n → 0 ≤ n < 2 ^ 62)%Z →
  ∃ tx, sign t secret chain_id = Done tx ∧
    verify_unordered (tx_transaction tx) = Ok tx ∧
    unsigned (tx_transaction tx) = t ∧
    tx_chain_id (tx_transaction tx) = chain_id ∧
    tx_sender tx = public_to_address (secret_public secret) ∧
    verify_basic (tx_transaction tx) false chain_id = Ok tt ∧
    hash tx = keccak (rlp_out (rlp_append_sealed_transaction (tx_transaction tx))).
Proof.
  intros Hn. destruct (pk_sign_recover secret (raw_hash t chain_id)) as (sig & Hs & Hr).
  pose proof (pk_sign_v _ _ _ Hs) as Hv. pose proof (pk_sign_r _ _ _ Hs) as Hr0.
  destruct (with_signature_parts t sig chain_id Hv Hr0 Hn) as (Hu & Hc & Hsig & Ht).
  set (ut := with_signature t sig chain_id) in *.
  assert (transaction_new ut = Ok (mkTransaction ut
    (public_to_address (secret_public secret)) (Some (secret_public secret)))) as Hnew.
  { unfold transaction_new, recover_public. by rewrite Hu, Hc, Hsig, Ht, Hr. }
  eexists. unfold sign. rewrite Hs. simpl. fold ut. rewrite Hnew.
  split_and!; try done.
  cbn [tx_transaction]. unfold verify_basic. rewrite Hu, Hc. destruct chain_id; [|done]. by rewrite Z.eqb_refl.
Qed.
End Properties.

(** *** A concrete curve and encoder, to evaluate the model on examples *)

Definition example_crypto : PublicKeyCrypto := {|
  crypto_error := unit;
  InvalidSignature := tt;
  pk_sign secret m := Ok (from_rsv (h256 (1 + h256_Z secret `mod` 2 ^ 255)) m 1);
  pk_recover sig m :=
    if decide (sig_s sig = m)
    then Ok (h256_bytes (h256 ((h256_Z (sig_r sig) - 1) `mod` 2 ^ 255))) else Err tt;
  public_to_address p := drop 12 p;
  is_low_s sig := true;
  secret_public secret := h256_bytes (h256 (h256_Z secret `mod` 2 ^ 255));
|}.

Lemma example_crypto_laws : PublicKeyLaws (H := example_crypto).
Proof.
  assert (∀ secret, 0 ≤ h256_Z secret `mod` 2 ^ 255 < 2 ^ 255)%Z as Hb.
  { intros secret. apply Z.mod_pos_bound. lia. }
  split; simpl.
  - intros secret m. eexists. split; [done|]. simpl. rewrite decide_True by done.
    specialize (Hb secret). rewrite h256_Z_h256 by lia.
    replace (1 + h256_Z secret `mod` 2 ^ 255 - 1)%Z with (h256_Z secret `mod` 2 ^ 255)%Z by lia.
    by rewrite Z.mod_small by lia.
  - intros secret m sig [= <-]. by right.
  - intros secret m sig [= <-]. simpl. specialize (Hb secret). rewrite h256_Z_h256; lia.
Qed.

Definition example_rlp : Rlp := λ ops,
  mjoin ((λ op, match op with
    | begin_list n => [byte_of_Z (192 + Z.of_nat n)]
    | append_uint z => to_be_bytes 32 z
    | append_bytes bs => to_be_bytes 8 (Z.of_nat (length bs)) ++ bs
    end) <$> ops).

Definition example_raw_transaction : RawTransaction :=
  mkRawTransaction 7 0 21000 (Call (replicate 20 "042"%byte)) 100 [].

Section Witnesses.
#[local] Existing Instances example_keccak example_rlp example_crypto example_crypto_laws.

Lemma sign_then_verify_witness :
  ∃ tx, sign example_raw_transaction (h256 77) (Some 3%Z) = Done tx ∧
    verify_unordered (tx_transaction tx) = Ok tx ∧
    unsigned (tx_transaction tx) = example_raw_transaction ∧
    tx_chain_id (tx_transaction tx) = Some 3%Z ∧
    tx_sender tx = public_to_address (secret_public (h256 77)) ∧
    verify_basic (tx_transaction tx) false (Some 3%Z) = Ok tt ∧
    hash tx = keccak (rlp_out (rlp_append_sealed_transaction (tx_transaction tx))).
Proof.
  apply (sign_then_verify example_raw_transaction (h256 77) (Some 3%Z)).
  intros n [= <-]. lia.
Defined.
End Witnesses.
