(* ===== verification/Mempool.v ===== *)
(** * The memory pool: [src/src/miner/memory_pool.rs] and
    [src/src/handler/new_transaction.rs]

    Pending transactions, found by hash and taken in order of arrival.  The two indices
    implement a first-in first-out queue without duplicates; the refinement theorem says
    so for every sequence of calls the node makes. *)

From S2P Require Import Prelude Hash Transaction.

Record Entry := mkEntry {
  entry_transaction : Transaction;
  storage_index : Z;
}.

Record MemoryPool := mkMemoryPool {
  num_transactions : Z;
  max_transactions : Z;
  counter : Z;
  by_hash : gmap H256 Entry;
  by_storage_index : gmap Z H256;
}.

Definition MemoryPool_new (size_limit : Z) : MemoryPool :=
  mkMemoryPool 0 size_limit 0 ∅ ∅.

Definition pool_insert (self : MemoryPool) (tx : Transaction) : MemoryPool :=
  if (max_transactions self <? num_transactions self)%Z then self
  else
    let entry := mkEntry tx (counter self) in
    mkMemoryPool (u64 (num_transactions self + 1)) (max_transactions self)
      (u64 (counter self + 1))
      (<[hash tx := entry]> (by_hash self))
      (<[storage_index entry := hash tx]> (by_storage_index self)).

Definition pool_get (self : MemoryPool) (h : H256) : option Entry := by_hash self !! h.

Definition pool_contains (self : MemoryPool) (h : H256) : bool :=
  match by_hash self !! h with Some _ => true | None => false end.

Definition remove_and_get (self : MemoryPool) (h : H256) : option Entry * MemoryPool :=
  match by_hash self !! h with
  | None => (None, self)
  | Some entry =>
      (Some entry,
       mkMemoryPool (u64 (num_transactions self - 1)) (max_transactions self) (counter self)
         (delete h (by_hash self)) (delete (storage_index entry) (by_storage_index self)))
  end.

Definition remove_by_hash (self : MemoryPool) (h : H256) : MemoryPool :=
  (remove_and_get self h).2.

(** The values of the B-tree come in the order of the storage indices. *)
Definition get_transactions (self : MemoryPool) (n : nat) : Outcome (list Transaction) :=
  mapO (λ h, e ← unwrap (pool_get self h); Done (entry_transaction e))
    (take n (snd <$> btree_list (by_storage_index self))).

Definition pool_len (self : MemoryPool) : nat := size (by_hash self).

(** [new_transaction]. *)
Definition new_transaction (transaction : Transaction) (mempool : MemoryPool) : MemoryPool :=
  if pool_contains mempool (hash transaction) then mempool
  else pool_insert mempool transaction.

(** ** The queue it implements *)

Inductive pool_op := AddTransaction (tx : Transaction) | RemoveHash (h : H256).

Definition pool_step (p : MemoryPool) (op : pool_op) : MemoryPool :=
  match op with
  | AddTransaction tx => new_transaction tx p
  | RemoveHash h => remove_by_hash p h
  end.

Module Queue.
(** A queue holds at most one more transaction than the limit: the pool compares with
    [>]. *)
Definition add (limit : Z) (q : list Transaction) (tx : Transaction) : list Transaction :=
  if decide (hash tx ∈ hash <$> q) then q
  else if (limit <? Z.of_nat (length q))%Z then q
  else q ++ [tx].

Definition remove (q : list Transaction) (h : H256) : list Transaction :=
  filter (λ tx, hash tx ≠ h) q.

Definition step (limit : Z) (q : list Transaction) (op : pool_op) : list Transaction :=
  match op with AddTransaction tx => add limit q tx | RemoveHash h => remove q h end.
End Queue.

(** ** The invariant *)

(** The transactions in the order of their storage indices. *)
Definition pool_queue (p : MemoryPool) : list Transaction :=
  omap (λ x, entry_transaction <$> by_hash p !! x.2) (btree_list (by_storage_index p)).

Record pool_inv (p : MemoryPool) : Prop := {
  po_index i h : by_storage_index p !! i = Some h ↔
    ∃ e, by_hash p !! h = Some e ∧ storage_index e = i;
  po_hash h e : by_hash p !! h = Some e → hash (entry_transaction e) = h;
  po_counter i : is_Some (by_storage_index p !! i) → (i < counter p)%Z;
  po_range : (0 ≤ counter p < 2 ^ 64)%Z;
  po_num : num_transactions p = Z.of_nat (size (by_hash p));
  po_max : (0 ≤ max_transactions p < 2 ^ 64 - 1)%Z;
  po_bound : (num_transactions p ≤ max_transactions p + 1)%Z;
}.

Ltac pool_simpl :=
  cbn [num_transactions max_transactions counter by_hash by_storage_index storage_index
    entry_transaction] in *.

Lemma pool_inv_new limit : (0 ≤ limit < 2 ^ 64 - 1)%Z → pool_inv (MemoryPool_new limit).
Proof.
  intros Hl. split; unfold MemoryPool_new; pool_simpl; try lia; try done.
  - intros i h. rewrite lookup_empty. split; [done|]. intros (e & He & _).
    by rewrite lookup_empty in He.
  - intros i. rewrite lookup_empty. by intros [? ?].
Qed.

Section Inv.
Context (p : MemoryPool).
Hypothesis Hp : pool_inv p.

(** Every index of the queue has its transaction. *)
Lemma pool_queue_Forall2 :
  Forall2 (λ (x : Z * H256) tx, ∃ e, by_hash p !! x.2 = Some e ∧ storage_index e = x.1 ∧
    entry_transaction e = tx ∧ hash tx = x.2) (btree_list (by_storage_index p)) (pool_queue p).
Proof.
  unfold pool_queue.
  assert (∀ x, x ∈ btree_list (by_storage_index p) →
    ∃ e, by_hash p !! x.2 = Some e ∧ storage_index e = x.1) as Hall.
  { intros [i h] Hx%elem_of_btree_list. by apply (po_index p Hp). }
  induction (btree_list (by_storage_index p)) as [|x l IH]; [constructor|].
  destruct (Hall x) as (e & He & Hi); [left|]. cbn. rewrite He. cbn. constructor.
  - exists e. split_and!; try done. by apply (po_hash p Hp).
  - apply IH. intros y Hy. apply Hall. by right.
Qed.

Lemma get_transactions_queue n : get_transactions p n = Done (take n (pool_queue p)).
Proof.
  unfold get_transactions. apply mapO_done. rewrite <- fmap_take. apply Forall2_fmap_l.
  eapply Forall2_impl; [by apply Forall2_take, pool_queue_Forall2|].
  intros x tx (e & He & _ & <- & _). cbn. unfold pool_get. by rewrite He.
Qed.

Lemma elem_of_queue_hash h : h ∈ hash <$> pool_queue p ↔ is_Some (by_hash p !! h).
Proof.
  rewrite list_elem_of_fmap. pose proof pool_queue_Forall2 as Hf. split.
  - intros (tx & -> & Hx). apply list_elem_of_lookup in Hx as [j Hj].
    destruct (Forall2_lookup_r _ _ _ _ _ Hf Hj) as (x & _ & e & He & _ & _ & ->). eauto.
  - intros [e He]. assert ((storage_index e, h) ∈ btree_list (by_storage_index p)) as Hx.
    { apply elem_of_btree_list, (po_index p Hp). eauto. }
    apply list_elem_of_lookup in Hx as [j Hj].
    destruct (Forall2_lookup_l _ _ _ _ _ Hf Hj) as (tx & Htx & _ & _ & _ & _ & Hh).
    exists tx. split; [done|]. by apply list_elem_of_lookup_2 in Htx.
Qed.

Lemma pool_contains_queue h : pool_contains p h = bool_decide (h ∈ hash <$> pool_queue p).
Proof.
  unfold pool_contains. destruct (by_hash p !! h) eqn:E; symmetry.
  - apply bool_decide_eq_true. apply elem_of_queue_hash. by rewrite E.
  - apply bool_decide_eq_false. rewrite elem_of_queue_hash, E. by intros [? ?].
Qed.

Lemma pool_queue_NoDup : NoDup (hash <$> pool_queue p).
Proof.
  assert (hash <$> pool_queue p = (btree_list (by_storage_index p)).*2) as ->.
  { pose proof pool_queue_Forall2 as Hf. induction Hf as [|x tx l q Hx _ IH]; [done|].
    destruct Hx as (e & _ & _ & _ & Hh). rewrite !fmap_cons. by f_equal. }
  apply NoDup_fmap_2_strong; [|rewrite btree_list_perm; apply NoDup_map_to_list].
  intros [i h] [j h'] Hi Hj. cbn. intros <-.
  apply elem_of_btree_list, (po_index p Hp) in Hi as (e & He & <-).
  apply elem_of_btree_list, (po_index p Hp) in Hj as (e' & He' & <-). congruence.
Qed.

Lemma pool_queue_length : length (pool_queue p) = pool_len p.
Proof.
  unfold pool_len. rewrite <- (length_fmap hash), <- size_dom.
  rewrite <- (size_list_to_set (C := gset H256)) by apply pool_queue_NoDup.
  f_equal. apply set_eq. intros h. by rewrite elem_of_list_to_set, elem_of_queue_hash, elem_of_dom.
Qed.

(** *** Insertion and removal *)

Lemma pool_insert_ok tx :
  (counter p < 2 ^ 64 - 1)%Z → pool_contains p (hash tx) = false →
  pool_inv (pool_insert p tx) ∧
  pool_queue (pool_insert p tx) =
    (if (max_transactions p <? num_transactions p)%Z then pool_queue p
     else pool_queue p ++ [tx]).
Proof.
  intros Hc Hn. unfold pool_insert. destruct (Z.ltb_spec (max_transactions p) (num_transactions p)); [done|].
  assert (by_hash p !! hash tx = None) as Hnone.
  { unfold pool_contains in Hn. by destruct (by_hash p !! hash tx). }
  pose proof (po_max p Hp). pose proof (po_num p Hp). pose proof (po_range p Hp).
  assert (∀ i, is_Some (by_storage_index p !! i) → i ≠ counter p) as Hfresh.
  { intros i Hi%(po_counter p Hp). lia. }
  assert (∀ h e, by_hash p !! h = Some e → storage_index e ≠ counter p) as Hold.
  { intros h e He. apply Hfresh. exists h. apply (po_index p Hp). eauto. }
  rewrite !u64_small by lia. split; [split|]; pool_simpl.
  - intros i h. rewrite lookup_insert_Some. setoid_rewrite lookup_insert_Some.
    rewrite (po_index p Hp). split.
    + intros [[<- <-]|[Hi (e & He & <-)]]; [eexists; split; [by left|done]|].
      exists e. split; [right; split; [congruence|done]|done].
    + intros (e & [[<- <-]|[Hne He]] & <-); [by left|]. right. split; [|eauto].
      intros Heq. by apply (Hold h e).
  - intros h e. rewrite lookup_insert_Some. intros [[<- <-]|[_ He]]; [done|by apply (po_hash p Hp)].
  - intros i [h Hi]. apply lookup_insert_Some in Hi as [[<- _]|[_ Hi]]; [lia|].
    pose proof (po_counter p Hp i (mk_is_Some _ _ Hi)). lia.
  - lia.
  - rewrite map_size_insert_None by done. lia.
  - lia.
  - lia.
  - unfold pool_queue. pool_simpl. rewrite btree_list_insert_last by apply (po_counter p Hp).
    rewrite omap_app. f_equal; [|cbn; by rewrite lookup_insert_eq].
    apply list_omap_ext. apply Forall_Forall2_diag, Forall_forall. intros [i h] Hx. cbn.
    apply elem_of_btree_list, (po_index p Hp) in Hx as (e & He & _).
    rewrite lookup_insert_ne by congruence. done.
Qed.

Lemma remove_by_hash_ok h :
  pool_inv (remove_by_hash p h) ∧
  pool_queue (remove_by_hash p h) = Queue.remove (pool_queue p) h.
Proof.
  unfold remove_by_hash, remove_and_get. destruct (by_hash p !! h) as [e|] eqn:He; cbn [snd].
  2: { split; [done|]. symmetry. apply filter_all. intros tx Htx Hh.
       assert (h ∈ hash <$> pool_queue p) as Hin by (rewrite list_elem_of_fmap; eauto).
       apply elem_of_queue_hash in Hin. rewrite He in Hin. by destruct Hin. }
  pose proof (po_max p Hp). pose proof (po_num p Hp). pose proof (po_bound p Hp).
  assert (∀ h' e', by_hash p !! h' = Some e' → storage_index e' = storage_index e ↔ h' = h) as Hinj.
  { intros h' e' He'. split; [|congruence]. intros Hi.
    assert (by_storage_index p !! storage_index e = Some h') as Hi1 by (apply (po_index p Hp); eauto).
    assert (by_storage_index p !! storage_index e = Some h) as Hi2 by (apply (po_index p Hp); eauto).
    congruence. }
  pose proof (map_size_delete_Some h (by_hash p) (mk_is_Some _ _ He)) as Hsize.
  assert (size (by_hash p) ≠ 0) as Hnz by (apply map_size_ne_0_lookup; eauto).
  rewrite u64_small by lia. split; [split|]; pool_simpl.
  - intros i k. rewrite lookup_delete_Some, (po_index p Hp). setoid_rewrite lookup_delete_Some. split.
    + intros [Hne (e' & He' & <-)]. exists e'. split_and!; try done. intros <-.
      apply Hne. symmetry. by apply (Hinj _ _ He').
    + intros (e' & [Hne He'] & <-). split; [|eauto]. intros Hi.
      apply Hne. symmetry. by apply (Hinj _ _ He').
  - intros k e' [_ He']%lookup_delete_Some. by apply (po_hash p Hp).
  - intros i [k [_ Hi]%lookup_delete_Some]. by apply (po_counter p Hp).
  - apply (po_range p Hp).
  - lia.
  - done.
  - lia.
  - unfold pool_queue at 1. pool_simpl. rewrite btree_list_delete. unfold Queue.remove.
    pose proof pool_queue_Forall2 as Hf. induction Hf as [|x tx l q (e' & He' & Hi & <- & Hh) _ IH]; [done|].
    rewrite !filter_cons. rewrite Hh. destruct (decide (x.2 = h)) as [Heq|Hne].
    + rewrite decide_False by (rewrite <- Hi; intros Hn; apply Hn; by apply (Hinj _ _ He')).
      by rewrite decide_False by tauto.
    + rewrite decide_True by (rewrite <- Hi; intros Hn; by apply Hne, (Hinj _ _ He')).
      rewrite decide_True by done. cbn. rewrite lookup_delete_ne by done. rewrite He'. cbn. by f_equal.
Qed.

Lemma pool_step_ok op :
  (counter p < 2 ^ 64 - 1)%Z →
  pool_inv (pool_step p op) ∧
  pool_queue (pool_step p op) = Queue.step (max_transactions p) (pool_queue p) op ∧
  max_transactions (pool_step p op) = max_transactions p ∧
  (counter (pool_step p op) ≤ counter p + 1)%Z.
Proof.
  intros Hc. pose proof (po_range p Hp). destruct op as [tx|h]; cbn [pool_step Queue.step].
  - unfold new_transaction, Queue.add. pose proof (pool_contains_queue (hash tx)) as Hcon.
    destruct (decide (hash tx ∈ hash <$> pool_queue p)) as [Hin|Hin].
    + rewrite bool_decide_true in Hcon by done. rewrite Hcon. split_and!; [done..|lia].
    + rewrite bool_decide_false in Hcon by done. rewrite Hcon.
      destruct (pool_insert_ok tx Hc Hcon) as [Hi Hq]. rewrite Hq, pool_queue_length.
      rewrite (po_num p Hp). split_and!; [done..| |]; unfold pool_insert; case_if; pool_simpl; try done; try lia.
      rewrite u64_small; lia.
  - destruct (remove_by_hash_ok h) as [Hi Hq]. split_and!; [done..| |];
      unfold remove_by_hash, remove_and_get; destruct (by_hash p !! h); pool_simpl; cbn; lia || done.
Qed.
End Inv.

(** ** Properties *)

(** C38: For every sequence of at most 2^64 - 2 calls of [new_transaction] and
    [remove_by_hash], the pool behaves as a queue of transactions without duplicate
    hashes: [get_transactions] returns the oldest ones in order of arrival and does not
    panic, [contains] and [len] agree with the queue, and the pool never holds more than
    one transaction above its limit. *)
Theorem mempool_refines_queue (limit : Z) (ops : list pool_op) :
  (0 ≤ limit < 2 ^ 64 - 1)%Z → (Z.of_nat (length ops) < 2 ^ 64 - 1)%Z →
  let p := foldl pool_step (MemoryPool_new limit) ops in
  let q := foldl (Queue.step limit) [] ops in
  (∀ n, get_transactions p n = Done (take n q)) ∧
  (∀ h, pool_contains p h = bool_decide (h ∈ hash <$> q)) ∧
  pool_len p = length q ∧ NoDup (hash <$> q) ∧ (Z.of_nat (length q) ≤ limit + 1)%Z.
Proof.
  intros Hl Hlen p q.
  assert (pool_inv p ∧ pool_queue p = q ∧ max_transactions p = limit ∧
    (counter p ≤ Z.of_nat (length ops))%Z) as (Hp & Hq & Hm & _).
  { subst p q. induction ops as [|op ops IH] using rev_ind.
    - split_and!; [by apply pool_inv_new| |done|done]. cbn [foldl].
      unfold pool_queue, MemoryPool_new. pool_simpl. by rewrite btree_list_empty.
    - rewrite length_app in *. cbn [length] in *. rewrite !foldl_app. cbn [foldl].
      destruct IH as (Hp & Hq & Hm & Hc); [lia|].
      destruct (pool_step_ok _ Hp op) as (Hp' & Hq' & Hm' & Hc'); [lia|].
      rewrite Hq', Hq, Hm', Hm. split_and!; [done..|lia]. }
  rewrite <- Hq. split_and!.
  - intros n. by apply get_transactions_queue.
  - intros h. by apply pool_contains_queue.
  - by rewrite pool_queue_length.
  - by apply pool_queue_NoDup.
  - rewrite pool_queue_length by done. unfold pool_len. rewrite <- (po_num p Hp), <- Hm.
    apply (po_bound p Hp).
Qed.

(** Three transactions, one of them sent twice, and one confirmed. *)
Definition example_pool_transaction (nonce : Z) : Transaction :=
  mkTransaction (mkUnverified (mkRawTransaction nonce 0 0 Create 0 []) 0 0 0 (h256 nonce)) [] None.

Lemma mempool_refines_queue_witness :
  let p := foldl pool_step (MemoryPool_new 10)
    [AddTransaction (example_pool_transaction 1); AddTransaction (example_pool_transaction 2);
     AddTransaction (example_pool_transaction 1); AddTransaction (example_pool_transaction 3);
     RemoveHash (h256 2)] in
  get_transactions p 5 = Done [example_pool_transaction 1; example_pool_transaction 3] ∧
  pool_len p = 2.
Proof.
  destruct (mempool_refines_queue 10
    [AddTransaction (example_pool_transaction 1); AddTransaction (example_pool_transaction 2);
     AddTransaction (example_pool_transaction 1); AddTransaction (example_pool_transaction 3);
     RemoveHash (h256 2)]) as (Hget & _ & Hlen & _); [lia|cbn; lia|].
  split; [rewrite (Hget 5)|rewrite Hlen]; vm_compute; reflexivity.
Defined.
