(* ===== verification/Float.v ===== *)
(** * Single precision arithmetic

    The [f32] operations the node uses, over the IEEE 754 model of the Standard Library
    ([SpecFloat]).  A value is kept in the canonical form of its width, so that
    comparisons are those of the standard.  [f32::ln] has no specified precision and is
    a parameter; [f32::powi] is the square-and-multiply loop of the compiler runtime.  The second
    part bounds the results of the operations from below and above by powers of two. *)

From S2P Require Import Prelude.
From Stdlib Require Export SpecFloat.

Definition f32 := spec_float.
Definition f64 := spec_float.

Definition f32_add : f32 → f32 → f32 := SFadd 24 128.
Definition f32_sub : f32 → f32 → f32 := SFsub 24 128.
Definition f32_mul : f32 → f32 → f32 := SFmul 24 128.
Definition f32_div : f32 → f32 → f32 := SFdiv 24 128.
Definition f32_sqrt : f32 → f32 := SFsqrt 24 128.
Definition f32_abs : f32 → f32 := SFabs.
Definition f32_lt : f32 → f32 → bool := SFltb.
Definition f32_le : f32 → f32 → bool := SFleb.
Definition f64_lt : f64 → f64 → bool := SFltb.

(** [n as f32] and [f32::from(n)] for an unsigned integer [n]. *)
Definition f32_of_Z (z : Z) : f32 := binary_normalize 24 128 z 0 false.

(** The decimal literal [n / d], when [n] and [d] are exact in single precision: the
    division rounds once. *)
Definition f32_lit (n d : Z) : f32 := f32_div (f32_of_Z n) (f32_of_Z d).

(** [std::f32::EPSILON], 2{^-23}. *)
Definition f32_EPSILON : f32 := binary_normalize 24 128 1 (-23) false.

(** Conversions between the two widths: [f64::from(x)] and [x as f32]. *)
Definition float_resize (prec emax : Z) (x : spec_float) : spec_float :=
  match x with
  | S754_finite s m e => binary_normalize prec emax (cond_Zopp s (Z.pos m)) e s
  | _ => x
  end.
Definition f64_of_f32 (x : f32) : f64 := float_resize 53 1024 x.
Definition f32_of_f64 (x : f64) : f32 := float_resize 24 128 x.

(** The least integer that is not below [± m * 2^e]. *)
Definition ceil_Z (s : bool) (m : positive) (e : Z) : Z :=
  let v := cond_Zopp s (Z.pos m) in
  if (0 <=? e)%Z then (v * 2 ^ e)%Z else (- ((- v) / 2 ^ (- e)))%Z.

Definition f32_ceil (x : f32) : f32 :=
  match x with
  | S754_finite s m e => binary_normalize 24 128 (ceil_Z s m e) 0 s
  | _ => x
  end.

(** [x as u64] and [x as u32]: truncation towards zero, saturating, 0 for NaN. *)
Definition trunc_Z (s : bool) (m : positive) (e : Z) : Z :=
  let v := if (0 <=? e)%Z then (Z.pos m * 2 ^ e)%Z else (Z.pos m / 2 ^ (- e))%Z in
  cond_Zopp s v.
Definition f32_to_uint (w : Z) (x : f32) : Z :=
  match x with
  | S754_finite s m e => Z.max 0 (Z.min (trunc_Z s m e) (2 ^ w - 1))
  | S754_infinity false => (2 ^ w - 1)%Z
  | _ => 0%Z
  end.

(** [n as i32]. *)
Definition to_i32 (z : Z) : Z :=
  let r := wrap 32 z in if (r <? 2 ^ 31)%Z then r else (r - 2 ^ 32)%Z.

Fixpoint powi_pos (a r : f32) (b : positive) : f32 :=
  match b with
  | xH => f32_mul r a
  | xO b => powi_pos (f32_mul a a) r b
  | xI b => powi_pos (f32_mul a a) (f32_mul r a) b
  end.
Definition f32_powi (a : f32) (n : Z) : f32 :=
  match n with
  | Z0 => f32_of_Z 1
  | Zpos b => powi_pos a (f32_of_Z 1) b
  | Zneg b => f32_div (f32_of_Z 1) (powi_pos a (f32_of_Z 1) b)
  end.

(** The natural logarithm of the platform. *)
Class F32Ln := f32_ln : f32 → f32.

(** ** Positive results

    The magnitude of [m * 2^e] is its number of binary digits before the point.  The operations
    on positive numbers give positive numbers, and not zero, as long as magnitudes stay above
    the smallest exponent. *)

Local Open Scope Z_scope.

Definition mag (m : positive) (e : Z) : Z := Z.log2 (Z.pos m) + 1 + e.

(** A positive number, or infinity, of at least this magnitude. *)
Definition above (b : Z) (x : spec_float) : Prop :=
  match x with
  | S754_infinity false => True
  | S754_finite false m e => b ≤ mag m e
  | _ => False
  end.

(** A positive number of at most this magnitude. *)
Definition below (b : Z) (x : spec_float) : Prop :=
  match x with
  | S754_finite false m e => mag m e ≤ b
  | _ => False
  end.

Lemma digits2_log2 p : Z.pos (digits2_pos p) = Z.log2 (Z.pos p) + 1.
Proof.
  induction p as [p IH|p IH|]; cbn [digits2_pos]; [..|done]; rewrite Pos2Z.inj_succ, IH.
  - rewrite Pos2Z.inj_xI, Z.log2_succ_double by lia. lia.
  - rewrite Pos2Z.inj_xO, Z.log2_double by lia. lia.
Qed.

Lemma Zdigits2_log2 m : 0 < m → Zdigits2 m = Z.log2 m + 1.
Proof. destruct m; try lia. intros _. apply digits2_log2. Qed.

Lemma shr_1_half r : 0 ≤ shr_m r → shr_m (shr_1 r) = shr_m r / 2.
Proof.
  destruct r as [[|[p|p|]|p] b s]; cbn; intros; try done; try lia.
  - rewrite Pos2Z.inj_xI. apply (Z.div_unique _ _ _ 1); lia.
  - rewrite Pos2Z.inj_xO, Z.mul_comm, Z.div_mul by lia. done.
Qed.

Lemma shr_iter p : ∀ r, 0 ≤ shr_m r → shr_m (iter_pos shr_1 p r) = Z.shiftr (shr_m r) (Z.pos p).
Proof.
  assert (∀ m n : Z, 0 ≤ m → 0 ≤ Z.shiftr m n) as Hnn by (intros; by apply Z.shiftr_nonneg).
  assert (∀ r, 0 ≤ shr_m r → shr_m (shr_1 r) = Z.shiftr (shr_m r) 1) as H1
    by (intros; by rewrite shr_1_half, Z.shiftr_div_pow2).
  induction p as [p IH|p IH|]; intros r Hr; cbn [iter_pos]; [| |by apply H1].
  - rewrite (IH (iter_pos _ _ _)), IH, H1 by (rewrite ?IH, ?H1; auto using H1; rewrite ?H1; auto).
    rewrite !Z.shiftr_shiftr by lia. f_equal. lia.
  - rewrite (IH (iter_pos _ _ _)), IH by (rewrite ?IH; auto).
    rewrite !Z.shiftr_shiftr by lia. f_equal. lia.
Qed.

Section Round.
Context (prec emax : Z) (Hprec : 1 < prec).

(** The shift of a rounding keeps the magnitude. *)
Lemma shr_fexp_mag m e l :
  0 < m → emin prec emax < Z.log2 m + 1 + e →
  ∃ r e', shr_fexp prec emax m e l = (r, e') ∧ 0 < shr_m r ∧ Z.log2 (shr_m r) + e' = Z.log2 m + e.
Proof.
  intros Hm Hmag. unfold shr_fexp, shr. rewrite Zdigits2_log2 by done.
  set (n := fexp prec emax (Z.log2 m + 1 + e) - e).
  assert (n ≤ Z.log2 m) as Hn by (unfold n, fexp; lia).
  assert (shr_m (shr_record_of_loc m l) = m) as Hr by (by destruct l as [|[]]).
  destruct n as [|p|p]; [eexists _, _; split; [done|]; rewrite Hr; lia| |
    eexists _, _; split; [done|]; rewrite Hr; lia].
  eexists _, _. split; [done|]. rewrite shr_iter by (rewrite Hr; lia). rewrite Hr.
  assert (0 < Z.shiftr m (Z.pos p)).
  { rewrite Z.shiftr_div_pow2 by lia. apply Z.div_str_pos. split; [lia|].
    transitivity (2 ^ Z.log2 m); [apply Z.pow_le_mono_r; lia|]. by apply Z.log2_spec. }
  split; [done|]. rewrite Z.log2_shiftr by done. lia.
Qed.

Lemma binary_round_aux_mag m e l :
  0 < m → emin prec emax < Z.log2 m + 1 + e →
  ∃ m' e', binary_round_aux prec emax false m e l =
      (if e' <=? emax - prec then S754_finite false m' e' else S754_infinity false) ∧
    Z.log2 m + 1 + e ≤ mag m' e' ≤ Z.log2 m + 1 + e + 1.
Proof.
  intros Hm Hmag. unfold binary_round_aux.
  destruct (shr_fexp_mag m e l Hm Hmag) as (r & e1 & -> & Hr & He).
  set (m2 := round_nearest_even (shr_m r) (loc_of_shr_record r)).
  assert (shr_m r ≤ m2 ≤ shr_m r + 1) as Hm2.
  { unfold m2, round_nearest_even. destruct (loc_of_shr_record r) as [|[]]; [lia| |lia|lia].
    destruct (Z.even _); lia. }
  assert (Z.log2 (shr_m r) ≤ Z.log2 m2 ≤ Z.log2 (shr_m r) + 1) as Hl.
  { split; [apply Z.log2_le_mono; lia|]. etransitivity; [apply Z.log2_le_mono, Hm2|].
    rewrite Z.add_1_r. apply Z.log2_succ_le. }
  destruct (shr_fexp_mag m2 e1 loc_Exact) as (r2 & e2 & -> & Hr2 & He2); [lia|lia|].
  destruct (shr_m r2) as [|p|p]; [lia| |lia]. exists p, e2. split; [done|]. unfold mag. lia.
Qed.

Lemma binary_round_aux_above m e l b :
  0 < m → emin prec emax < Z.log2 m + 1 + e → b ≤ Z.log2 m + 1 + e →
  above b (binary_round_aux prec emax false m e l).
Proof.
  intros Hm Hmag Hb. destruct (binary_round_aux_mag m e l Hm Hmag) as (m' & e' & -> & Hm').
  destruct (e' <=? emax - prec); cbn; [lia|done].
Qed.

Lemma iter_xO m p : Z.pos (Pos.iter xO m p) = Z.pos m * 2 ^ Z.pos p.
Proof.
  induction p as [|p IH] using Pos.peano_ind; [cbn; lia|].
  rewrite Pos.iter_succ, Pos2Z.inj_xO, IH, Pos2Z.inj_succ, Z.pow_succ_r by lia. lia.
Qed.

Lemma shl_align_exact m e e' :
  e' ≤ e → ∃ p, shl_align m e e' = (p, e') ∧ Z.pos p = Z.pos m * 2 ^ (e - e').
Proof.
  intros He. unfold shl_align. destruct (e' - e) as [|p|p] eqn:E; [|lia|].
  - exists m. replace (e - e') with 0 by lia. split; [f_equal; lia|lia].
  - eexists. split; [done|]. rewrite iter_xO. do 2 f_equal. lia.
Qed.

Lemma shl_align_mag m e e' : ∃ p k, shl_align m e e' = (p, k) ∧ mag p k = mag m e.
Proof.
  destruct (Z.le_gt_cases e' e) as [He|He].
  - destruct (shl_align_exact m e e' He) as (p & -> & Hp). exists p, e'. split; [done|].
    unfold mag. rewrite Hp, Z.log2_mul_pow2 by lia. lia.
  - unfold shl_align. destruct (e' - e) as [|p|p] eqn:E; [lia| |lia]. by exists m, e.
Qed.

Lemma binary_normalize_mag z e s :
  0 < z → emin prec emax < Z.log2 z + 1 + e →
  ∃ m' e', binary_normalize prec emax z e s =
      (if e' <=? emax - prec then S754_finite false m' e' else S754_infinity false) ∧
    Z.log2 z + 1 + e ≤ mag m' e' ≤ Z.log2 z + 1 + e + 1.
Proof.
  destruct z as [|m|m]; try lia. intros _ Hmag. cbn [binary_normalize]. unfold binary_round.
  destruct (shl_align_mag m e (fexp prec emax (Z.pos (digits2_pos m) + e))) as (p & k & -> & Hp).
  unfold mag in Hp. destruct (binary_round_aux_mag (Z.pos p) k loc_Exact) as (m' & e' & -> & Hm');
    [lia..|]. exists m', e'. split; [done|]. unfold mag in *. lia.
Qed.

Lemma binary_normalize_above z e s b :
  0 < z → emin prec emax < Z.log2 z + 1 + e → b ≤ Z.log2 z + 1 + e →
  above b (binary_normalize prec emax z e s).
Proof.
  intros Hz Hmag Hb. destruct (binary_normalize_mag z e s Hz Hmag) as (m' & e' & -> & Hm').
  destruct (e' <=? emax - prec); cbn; [lia|done].
Qed.

Lemma SFmul_above a b x y :
  above a x → above b y → emin prec emax < a + b - 1 → above (a + b - 1) (SFmul prec emax x y).
Proof.
  destruct x as [| [] | |[] m e], y as [| [] | |[] m' e']; try done. cbn [above]. unfold mag.
  intros Hx Hy He. cbn [SFmul xorb].
  pose proof (Z.log2_mul_below (Z.pos m) (Z.pos m') ltac:(lia) ltac:(lia)).
  apply binary_round_aux_above; rewrite ?Pos2Z.inj_mul; lia.
Qed.

Lemma log2_div_lower m k n : 0 < m → 0 < n → 0 ≤ k → k ≤ Z.log2 m - Z.log2 n - 1 → k ≤ Z.log2 (m / n).
Proof.
  intros Hm Hn Hk Hle. assert (2 ^ k ≤ m / n) as H.
  { apply Z.div_le_lower_bound; [done|]. transitivity (2 ^ (Z.log2 n + 1) * 2 ^ k).
    - apply Z.mul_le_mono_nonneg_r; [by apply Z.pow_nonneg|].
      rewrite Z.add_1_r. apply Z.lt_le_incl, Z.log2_spec. done.
    - rewrite <- Z.pow_add_r by (pose proof (Z.log2_nonneg n); lia).
      transitivity (2 ^ Z.log2 m); [apply Z.pow_le_mono_r; lia|]. by apply Z.log2_spec. }
  rewrite <- (Z.log2_pow2 k) by done. by apply Z.log2_le_mono.
Qed.

Lemma SFdiv_above a b x y :
  above a x → below b y → emin prec emax + prec ≤ a - b → above (a - b) (SFdiv prec emax x y).
Proof.
  destruct x as [| [] | |[] m e], y as [| [] | |[] m' e']; try done. cbn [above below]. unfold mag.
  intros Hx Hy He. cbn [SFdiv xorb]. unfold SFdiv_core_binary. rewrite !Zdigits2_log2 by lia.
  set (k := Z.min _ _). assert (k ≤ Z.log2 (Z.pos m) + e - (Z.log2 (Z.pos m') + e') - prec) as Hk
    by (unfold k, fexp; lia).
  assert (0 ≤ e - e' - k) as Hs by (unfold k; lia).
  assert (match e - e' - k with
    | 0 => Z.pos m | Z.pos _ => Z.shiftl (Z.pos m) (e - e' - k) | Z.neg _ => 0 end =
    Z.pos m * 2 ^ (e - e' - k)) as ->.
  { destruct (e - e' - k) as [|p|p] eqn:E; [lia| |lia]. by rewrite Z.shiftl_mul_pow2. }
  set (n := Z.pos m * 2 ^ (e - e' - k)).
  assert (0 < n) as Hn by (unfold n; apply Z.mul_pos_pos; [lia|by apply Z.pow_pos_nonneg]).
  assert (Z.log2 n = Z.log2 (Z.pos m) + (e - e' - k)) as Hl
    by (unfold n; rewrite Z.log2_mul_pow2 by lia; lia).
  assert (Z.log2 n - Z.log2 (Z.pos m') - 1 ≤ Z.log2 (n / Z.pos m')) as Hq
    by (apply log2_div_lower; lia).
  pose proof (Z.div_eucl_eq n (Z.pos m')) as _. unfold Z.div in Hq.
  destruct (Z.div_eucl n (Z.pos m')) as [q r]. apply binary_round_aux_above; [|lia..].
  destruct (Z.le_gt_cases q 0) as [H0|]; [|done]. rewrite (Z.log2_nonpos q) in Hq by done. lia.
Qed.
End Round.

(** *** Single precision *)

Lemma f32_of_Z_above z : 0 < z → above 1 (f32_of_Z z).
Proof.
  intros Hz. pose proof (Z.log2_nonneg z).
  apply binary_normalize_above; unfold emin; lia.
Qed.

Lemma f32_of_Z_below z : 0 < z < 2 ^ 16 → below 17 (f32_of_Z z).
Proof.
  intros Hz. pose proof (Z.log2_nonneg z).
  assert (Z.log2 z < 16) by (apply Z.log2_lt_pow2; lia).
  destruct (binary_normalize_mag 24 128 eq_refl z 0 false) as (m & e & E & Hm); [lia|unfold emin; lia|].
  unfold f32_of_Z. rewrite E. pose proof (Z.log2_nonneg (Z.pos m)). unfold mag in *.
  destruct (Z.leb_spec e (128 - 24)); cbn; [unfold mag|]; lia.
Qed.

(** [1 - r], for a number [r] between 0 and 1. *)
Lemma f32_one_minus_below r :
  valid_binary 24 128 r = true → f32_lt (f32_of_Z 0) r = true → f32_lt r (f32_of_Z 1) = true →
  below 2 (f32_sub (f32_of_Z 1) r).
Proof.
  change (f32_of_Z 1) with (S754_finite false 8388608 (-23)).
  destruct r as [| [] | |[] m e]; try done. intros Hv _ Hlt. cbn in Hv.
  apply andb_true_iff in Hv as [Hv _]. apply Z.eqb_eq in Hv.
  unfold fexp, emin in Hv. rewrite digits2_log2 in Hv.
  pose proof (proj2 (Z.log2_spec (Z.pos m) ltac:(lia))) as Hm. rewrite <- Z.add_1_r in Hm.
  assert (e ≤ -23 ∧ Z.pos m < 8388608 * 2 ^ (-23 - e)) as [He Hlow].
  { unfold f32_lt, SFltb, SFcompare in Hlt. destruct (Z.compare_spec e (-23)) as [->|He|]; [| |done].
    - split; [done|]. fold (Pos.compare m 8388608) in Hlt.
      by destruct (Pos.compare_spec m 8388608).
    - split; [lia|]. change 8388608 with (2 ^ 23). rewrite <- Z.pow_add_r by lia.
      eapply Z.lt_le_trans; [exact Hm|]. apply Z.pow_le_mono_r; lia. }
  unfold f32_sub, SFsub. cbn [cond_Zopp]. rewrite (Z.min_r (-23) e) by lia.
  destruct (shl_align_exact 8388608 (-23) e He) as (p & Ep & Hp).
  destruct (shl_align_exact m e e ltac:(lia)) as (q & Eq & Hq). rewrite Ep, Eq. cbn [fst].
  rewrite Z.sub_diag, Z.mul_1_r in Hq. injection Hq as ->. rewrite Hp.
  set (z := 8388608 * 2 ^ (-23 - e) - Z.pos m). assert (0 < z) as Hz by (unfold z; lia).
  assert (Z.log2 z ≤ - e) as Hl.
  { transitivity (Z.log2 (2 ^ (- e))); [apply Z.log2_le_mono|rewrite Z.log2_pow2; lia].
    unfold z. change 8388608 with (2 ^ 23). rewrite <- Z.pow_add_r by lia.
    replace (23 + (-23 - e)) with (- e) by lia. lia. }
  pose proof (Z.log2_nonneg z).
  destruct (binary_normalize_mag 24 128 eq_refl z e false Hz) as (m' & e' & -> & Hm');
    [unfold emin; lia|].
  pose proof (Z.log2_nonneg (Z.pos m')). unfold mag in *.
  destruct (Z.leb_spec e' (128 - 24)); cbn; [unfold mag|]; lia.
Qed.

(** A number of at least [2^-64]. *)
Lemma f32_above_of_le r :
  f32_le (binary_normalize 24 128 1 (-64) false) r = true → above (-86) r.
Proof.
  change (binary_normalize 24 128 1 (-64) false) with (S754_finite false 8388608 (-87)).
  destruct r as [| [] | |[] m e]; try done. unfold f32_le, SFleb, SFcompare. intros Hle.
  pose proof (Z.log2_nonneg (Z.pos m)). cbn. unfold mag.
  destruct (Z.compare_spec (-87) e); try done; lia.
Qed.

Lemma f64_of_f32_positive x b :
  above b x → -1000 ≤ b → f64_lt (f64_of_f32 (f32_of_Z 0)) (f64_of_f32 x) = true.
Proof.
  intros Hx Hb. assert (above b (f64_of_f32 x)) as Ha.
  { destruct x as [| [] | |[] m e]; try done. cbn in *. unfold mag in *.
    change (above b (binary_normalize 53 1024 (Z.pos m) e false)).
    apply binary_normalize_above; unfold emin; lia. }
  by destruct (f64_of_f32 x) as [| [] | |[] m e].
Qed.
