(* ===== verification/Config.v ===== *)
(** * Blockchain configuration and sortition: [src/src/config.rs] *)

From S2P Require Import Prelude Hash Float.

Definition AVG_TX_SIZE : Z := 533.
Definition PROPOSER_TX_REF_HEADROOM : f32 := f32_of_Z 10.
Definition SORTITION_PRECISION : Z := 2 ^ 64 - 1.
Definition DECONFIRM_HEADROOM : f32 := f32_lit 105 100.

Definition PROPOSER_INDEX : Z := 0.
Definition TRANSACTION_INDEX : Z := 1.
Definition FIRST_VOTER_INDEX : Z := 2.

Definition LAZY_ANNOTATION : list byte := replicate 32 "042"%byte.
Definition DEFAULT_DIFFICULTY : H256 := mkH256 (replicate 32 "255"%byte) eq_refl.

Record BlockchainConfig := mkConfig {
  voter_chains : Z;
  tx_txs : Z;
  proposer_tx_refs : Z;
  proposer_mining_rate : f32;
  voter_mining_rate : f32;
  tx_mining_rate : f32;
  proposer_genesis : H256;
  voter_genesis : list H256;
  total_mining_rate : f32;
  total_sortition_width : Z;
  proposer_sortition_width : Z;
  voter_sortition_width : Z;
  tx_sortition_width : Z;
  adversary_ratio : f32;
  log_epsilon : f32;
  quantile_epsilon_confirm : f32;
  quantile_epsilon_deconfirm : f32;
}.

(** The hash whose last two bytes are the big endian encoding of a chain id. *)
Definition genesis_hash (id : Z) : H256 := h256 (u16 id).

Definition genesis_hashes (chains : Z) : list H256 :=
  (λ chain_num, genesis_hash (chain_num + FIRST_VOTER_INDEX)) <$> range 0 chains.

Section New.
Context `{F32Ln}.

(** [(2.0 * e - (2.0 * e).ln() - (2.0 * 3.141_692_6).ln()).sqrt()]. *)
Definition quantile (e : f32) : f32 :=
  let two := f32_of_Z 2 in
  f32_sqrt (f32_sub (f32_sub (f32_mul two e) (f32_ln (f32_mul two e)))
    (f32_ln (f32_mul two (f32_lit 31416926 10000000)))).

Definition BlockchainConfig_new (chains tx_size tx_throughput : Z)
    (proposer_rate voter_rate adv_ratio log_eps : f32) : BlockchainConfig :=
  let tx_txs := (tx_size / AVG_TX_SIZE)%Z in
  let tx_rate := f32_div (f32_of_Z tx_throughput) (f32_of_Z tx_txs) in
  let total_rate :=
    f32_add (f32_add proposer_rate (f32_mul voter_rate (f32_of_Z chains))) tx_rate in
  let width (rate : f32) :=
    f32_to_uint 64
      (f32_ceil (f32_mul (f32_div rate total_rate) (f32_of_Z SORTITION_PRECISION))) in
  let proposer_width := width proposer_rate in
  let voter_width := width voter_rate in
  let tx_width :=
    u64 (u64 (SORTITION_PRECISION - proposer_width) - u64 (voter_width * chains)) in
  let log_epsilon_confirm := f32_mul log_eps DECONFIRM_HEADROOM in
  {| voter_chains := chains;
     tx_txs := tx_txs;
     proposer_tx_refs :=
       f32_to_uint 32 (f32_ceil
         (f32_mul (f32_div tx_rate proposer_rate) PROPOSER_TX_REF_HEADROOM));
     proposer_mining_rate := proposer_rate;
     voter_mining_rate := voter_rate;
     tx_mining_rate := tx_rate;
     proposer_genesis := genesis_hash PROPOSER_INDEX;
     voter_genesis := genesis_hashes chains;
     total_mining_rate := total_rate;
     total_sortition_width := SORTITION_PRECISION;
     proposer_sortition_width := proposer_width;
     voter_sortition_width := voter_width;
     tx_sortition_width := tx_width;
     adversary_ratio := adv_ratio;
     log_epsilon := log_eps;
     quantile_epsilon_confirm := quantile log_epsilon_confirm;
     quantile_epsilon_deconfirm := quantile log_eps |}.
End New.

(** ** 256-bit arithmetic

    [U256] of the [bigint] crate: what an operation whose result does not fit does is
    left open. *)
Class BigUint := {
  u256_fit : Z → Outcome Z;
  u256_fit_small z : (0 ≤ z < 2 ^ 256)%Z → u256_fit z = Done z;
}.

Section Sortition.
Context `{BigUint}.

Definition u256_div (a b : Z) : Outcome Z := if (b =? 0)%Z then Panic else Done (a / b)%Z.
Definition u256_rem (a b : Z) : Outcome Z :=
  if (b =? 0)%Z then Panic else Done (a `mod` b)%Z.
Definition u256_mul (a b : Z) : Outcome Z := u256_fit (a * b).
Definition u256_add (a b : Z) : Outcome Z := u256_fit (a + b).
Definition u256_sub (a b : Z) : Outcome Z := u256_fit (a - b).

Definition sortition_hash (self : BlockchainConfig) (hash difficulty : H256) :
    Outcome (option Z) :=
  let hash := h256_Z hash in
  let difficulty := h256_Z difficulty in
  multiplier ← u256_div difficulty (total_sortition_width self);
  proposer_width ← u256_mul multiplier (proposer_sortition_width self);
  both ← u256_add (proposer_sortition_width self) (tx_sortition_width self);
  transaction_width ← u256_mul multiplier both;
  if (hash <? proposer_width)%Z then Done (Some PROPOSER_INDEX)
  else
    bound ← u256_add transaction_width proposer_width;
    if (hash <? bound)%Z then Done (Some TRANSACTION_INDEX)
    else if (hash <? difficulty)%Z then
      d1 ← u256_sub hash proposer_width;
      d2 ← u256_sub d1 transaction_width;
      voter_idx ← u256_rem d2 (voter_chains self);
      Done (Some (u16 (u16 (u32 voter_idx) + FIRST_VOTER_INDEX)))
    else Done None.

(** ** Lemmas *)

(** The widths of a configuration for which the three regions of [sortition_hash] lie
    below the difficulty. *)
Record sortition_wf (c : BlockchainConfig) : Prop := {
  wf_total : (0 < total_sortition_width c)%Z;
  wf_proposer : (0 ≤ proposer_sortition_width c)%Z;
  wf_tx : (0 ≤ tx_sortition_width c)%Z;
  wf_sum : (2 * proposer_sortition_width c + tx_sortition_width c
    ≤ total_sortition_width c < 2 ^ 64)%Z;
  wf_chains : (0 < voter_chains c ≤ 65533)%Z;
}.

(** The regions as intervals of the hash. *)
Definition sortition_spec (c : BlockchainConfig) (hash difficulty : Z) : option Z :=
  let m := (difficulty / total_sortition_width c)%Z in
  let p := (m * proposer_sortition_width c)%Z in
  let t := (m * (2 * proposer_sortition_width c + tx_sortition_width c))%Z in
  if (hash <? p)%Z then Some 0%Z
  else if (hash <? t)%Z then Some 1%Z
  else if (hash <? difficulty)%Z then Some (2 + (hash - t) `mod` voter_chains c)%Z
  else None.

Lemma sortition_hash_spec c hash difficulty :
  sortition_wf c →
  sortition_hash c hash difficulty =
    Done (sortition_spec c (h256_Z hash) (h256_Z difficulty)).
Proof.
  intros [Ht Hp Hx Hsum Hc]. pose proof (h256_Z_bound hash) as Hh.
  pose proof (h256_Z_bound difficulty) as Hd.
  unfold sortition_hash, sortition_spec, u256_div, u256_mul, u256_add, u256_sub.
  set (h := h256_Z hash) in *. set (d := h256_Z difficulty) in *.
  set (tot := total_sortition_width c) in *. set (P := proposer_sortition_width c) in *.
  set (T := tx_sortition_width c) in *. set (n := voter_chains c) in *.
  destruct (Z.eqb_spec tot 0); [lia|]. simpl. set (m := (d / tot)%Z) in *.
  assert (0 ≤ m)%Z by (apply Z.div_pos; lia).
  assert (m * tot ≤ d)%Z by (unfold m; rewrite Z.mul_comm; by apply Z.mul_div_le).
  assert (m * (2 * P + T) ≤ d)%Z by nia.
  rewrite (u256_fit_small (m * P)) by nia. simpl.
  rewrite (u256_fit_small (P + T)) by nia. simpl.
  rewrite (u256_fit_small (m * (P + T))) by nia. simpl.
  destruct (Z.ltb_spec h (m * P)); [done|].
  rewrite (u256_fit_small (m * (P + T) + m * P)) by nia. simpl.
  replace (m * (P + T) + m * P)%Z with (m * (2 * P + T))%Z by lia.
  destruct (Z.ltb_spec h (m * (2 * P + T))); [done|].
  destruct (Z.ltb_spec h d); [|done].
  rewrite (u256_fit_small (h - m * P)) by nia. simpl.
  rewrite (u256_fit_small (h - m * P - m * (P + T))) by nia. simpl.
  unfold u256_rem. destruct (Z.eqb_spec n 0); [lia|]. simpl.
  replace (h - m * P - m * (P + T))%Z with (h - m * (2 * P + T))%Z by lia.
  pose proof (Z.mod_pos_bound (h - m * (2 * P + T)) n ltac:(lia)) as Hr.
  set (r := ((h - m * (2 * P + T)) `mod` n)%Z) in *.
  unfold FIRST_VOTER_INDEX, u16, u32.
  rewrite (wrap_small 32 r), (wrap_small 16 r), wrap_small by lia. do 2 f_equal. lia.
Qed.

Lemma sortition_spec_range c hash difficulty id :
  (0 < voter_chains c)%Z →
  sortition_spec c hash difficulty = Some id → (0 ≤ id < voter_chains c + 2)%Z.
Proof.
  unfold sortition_spec. intros Hc.
  set (t := ((difficulty / total_sortition_width c) *
    (2 * proposer_sortition_width c + tx_sortition_width c))%Z).
  pose proof (Z.mod_pos_bound (hash - t) (voter_chains c)).
  repeat case_if; intros [= <-]; lia.
Qed.

Lemma sortition_spec_pow c hash difficulty :
  sortition_wf c → (0 ≤ difficulty)%Z →
  is_Some (sortition_spec c hash difficulty) ↔ (hash < difficulty)%Z.
Proof.
  intros [Ht Hp Hx Hsum Hc] Hd. unfold sortition_spec.
  set (tot := total_sortition_width c) in *. set (P := proposer_sortition_width c) in *.
  set (T := tx_sortition_width c) in *. set (m := (difficulty / tot)%Z).
  assert (0 ≤ m)%Z by (apply Z.div_pos; lia).
  assert (m * tot ≤ difficulty)%Z by (unfold m; rewrite Z.mul_comm; by apply Z.mul_div_le).
  assert (m * (2 * P + T) ≤ difficulty)%Z by nia.
  assert (m * P ≤ m * (2 * P + T))%Z by nia.
  destruct (Z.ltb_spec hash (m * P)); [by split; [lia|eauto]|].
  destruct (Z.ltb_spec hash (m * (2 * P + T))); [by split; [lia|eauto]|].
  destruct (Z.ltb_spec hash difficulty); [by split; [lia|eauto]|].
  split; [by intros [? ?]|lia].
Qed.

Lemma u16_id id : (0 ≤ id < 2 ^ 16)%Z → u16 id = id.
Proof. apply wrap_small. Qed.

Lemma genesis_hash_inj a b :
  (0 ≤ a < 2 ^ 16)%Z → (0 ≤ b < 2 ^ 16)%Z → genesis_hash a = genesis_hash b → a = b.
Proof.
  intros Ha Hb E. unfold genesis_hash in E. rewrite !u16_id in E by done.
  rewrite <- (h256_Z_h256 a), <- (h256_Z_h256 b) by lia. by rewrite E.
Qed.

Lemma length_genesis_hashes n : (0 ≤ n)%Z → length (genesis_hashes n) = Z.to_nat n.
Proof.
  intros. unfold genesis_hashes, range. rewrite length_fmap, length_seqZ. f_equal. lia.
Qed.

Lemma genesis_hashes_lookup n i h :
  genesis_hashes n !! i = Some h →
  h = genesis_hash (Z.of_nat i + 2) ∧ (Z.of_nat i < n)%Z.
Proof.
  unfold genesis_hashes, range. rewrite list_lookup_fmap, fmap_Some.
  intros (z & Hz & ->). apply lookup_seqZ in Hz as [-> ?].
  unfold FIRST_VOTER_INDEX. split; [|lia]. f_equal.
Qed.

Lemma genesis_hashes_NoDup n :
  (0 ≤ n ≤ 65533)%Z → NoDup (genesis_hash PROPOSER_INDEX :: genesis_hashes n).
Proof.
  intros Hn. apply NoDup_cons. split.
  - intros (i & Hi)%list_elem_of_lookup. apply genesis_hashes_lookup in Hi as [Hi ?].
    apply genesis_hash_inj in Hi; unfold PROPOSER_INDEX in *; lia.
  - apply NoDup_alt. intros i j h Hi Hj.
    apply genesis_hashes_lookup in Hi as [-> ?]. apply genesis_hashes_lookup in Hj as [E ?].
    apply genesis_hash_inj in E; lia.
Qed.
End Sortition.

(** ** Properties *)

Section Properties.
Context `{BigUint}.

(** for a configuration whose widths fit, the sortition of a block never panics,
    returns a chain id exactly when the hash is below the difficulty, and the id is one
    of the proposer chain, the transaction chain and the voter chains. *)
Theorem sortition_decides_pow c hash difficulty :
  sortition_wf c →
  ∃ r, sortition_hash c hash difficulty = Done r ∧
    (is_Some r ↔ H256_ltb hash difficulty = true) ∧
    (∀ id, r = Some id → 0 ≤ id < voter_chains c + 2)%Z.
Proof.
  intros Hwf. exists (sortition_spec c (h256_Z hash) (h256_Z difficulty)).
  split_and!; [by apply sortition_hash_spec| |].
  - pose proof (h256_Z_bound difficulty) as H0. rewrite H256_ltb_Z.
    by apply sortition_spec_pow; [|lia].
  - intros id. apply sortition_spec_range. destruct Hwf; lia.
Qed.

(** The voter chains share the region above the transactions evenly: within it, the
    hash [t + k] goes to chain [k mod voter_chains], so every chain is reachable as soon
    as the region has one hash for each. *)
Theorem sortition_voter_round_robin c difficulty k :
  sortition_wf c →
  let t := ((h256_Z difficulty / total_sortition_width c) *
    (2 * proposer_sortition_width c + tx_sortition_width c))%Z in
  (0 ≤ k)%Z → (t + k < h256_Z difficulty)%Z →
  sortition_hash c (h256 (t + k)) difficulty =
    Done (Some (FIRST_VOTER_INDEX + k `mod` voter_chains c)%Z).
Proof.
  intros Hwf t Hk Ht. rewrite sortition_hash_spec by done. f_equal.
  destruct Hwf as [Htot Hp Hx Hsum Hc]. pose proof (h256_Z_bound difficulty) as Hd.
  assert (0 ≤ h256_Z difficulty / total_sortition_width c)%Z by (apply Z.div_pos; lia).
  assert (0 ≤ t)%Z by (unfold t; nia).
  rewrite h256_Z_h256 by lia. unfold sortition_spec. cbv zeta. fold t.
  destruct (Z.ltb_spec (t + k)
    (h256_Z difficulty / total_sortition_width c * proposer_sortition_width c)) as [Hl|Hl];
    [unfold t in Hl; nia|].
  destruct (Z.ltb_spec (t + k) t); [lia|].
  destruct (Z.ltb_spec (t + k) (h256_Z difficulty)); [|lia].
  unfold FIRST_VOTER_INDEX. by replace (t + k - t)%Z with k by lia.
Qed.

(** the transaction region counts the proposer width twice.  When the proposer
    chain is wider than the voter chains together, the region reaches beyond the
    difficulty, and a hash that is not below the difficulty is accepted as the proof of
    work of a transaction block. *)
Theorem sortition_accepts_above_difficulty c difficulty :
  (0 < total_sortition_width c)%Z → (0 ≤ tx_sortition_width c)%Z →
  (0 ≤ proposer_sortition_width c ≤ total_sortition_width c)%Z →
  (proposer_sortition_width c + tx_sortition_width c < 2 ^ 256)%Z →
  (h256_Z difficulty < (h256_Z difficulty / total_sortition_width c) *
    (2 * proposer_sortition_width c + tx_sortition_width c) < 2 ^ 256)%Z →
  H256_ltb difficulty difficulty = false ∧
  sortition_hash c difficulty difficulty = Done (Some TRANSACTION_INDEX).
Proof.
  intros Ht Hx Hp Hs Hm. split.
  { apply not_true_is_false. rewrite H256_ltb_Z. lia. }
  pose proof (h256_Z_bound difficulty) as Hd.
  unfold sortition_hash, u256_div, u256_mul, u256_add.
  set (d := h256_Z difficulty) in *. set (tot := total_sortition_width c) in *.
  set (P := proposer_sortition_width c) in *. set (T := tx_sortition_width c) in *.
  destruct (Z.eqb_spec tot 0); [lia|]. simpl. set (m := (d / tot)%Z) in *.
  assert (0 ≤ m)%Z by (apply Z.div_pos; lia).
  assert (m * tot ≤ d)%Z by (unfold m; rewrite Z.mul_comm; by apply Z.mul_div_le).
  assert (m * P ≤ d)%Z by nia.
  rewrite (u256_fit_small (m * P)) by nia. simpl.
  rewrite (u256_fit_small (P + T)) by lia. simpl.
  rewrite (u256_fit_small (m * (P + T))) by nia. simpl.
  destruct (Z.ltb_spec d (m * P)); [lia|].
  rewrite (u256_fit_small (m * (P + T) + m * P)) by nia. simpl.
  by destruct (Z.ltb_spec d (m * (P + T) + m * P)); [|lia].
Qed.
End Properties.

(** *** Witnesses *)

Definition example_biguint : BigUint.
Proof.
  refine {| u256_fit z := if bool_decide (0 ≤ z < 2 ^ 256)%Z then Done z else Panic |}.
  intros z Hz. by rewrite bool_decide_true.
Defined.

(** Ten voter chains, 64000 byte transaction blocks, 1000 transactions per second, one
    proposer block and one voter block per chain every ten seconds. *)
Definition example_config : BlockchainConfig :=
  BlockchainConfig_new (H := λ x, x) 10 64000 1000
    (f32_lit 1 10) (f32_lit 1 10) (f32_lit 2 5) (f32_of_Z 20).

Lemma example_config_wf : sortition_wf example_config.
Proof. split; by vm_compute. Qed.

Section Witnesses.
#[local] Existing Instance example_biguint.

Lemma sortition_decides_pow_witness :
  ∃ r, sortition_hash example_config (h256 5) DEFAULT_DIFFICULTY = Done r ∧
    (is_Some r ↔ H256_ltb (h256 5) DEFAULT_DIFFICULTY = true) ∧
    (∀ id, r = Some id → 0 ≤ id < voter_chains example_config + 2)%Z.
Proof. apply sortition_decides_pow. apply example_config_wf. Defined.

Lemma sortition_voter_round_robin_witness :
  sortition_hash example_config
    (h256 ((h256_Z DEFAULT_DIFFICULTY / total_sortition_width example_config) *
      (2 * proposer_sortition_width example_config + tx_sortition_width example_config)
      + 13)) DEFAULT_DIFFICULTY = Done (Some 5%Z).
Proof.
  refine (sortition_voter_round_robin example_config DEFAULT_DIFFICULTY 13 _ _ _).
  - apply example_config_wf.
  - lia.
  - vm_compute. reflexivity.
Defined.

(** One voter chain that is ten times slower than the proposer chain. *)
Definition example_skewed_config : BlockchainConfig :=
  BlockchainConfig_new (H := λ x, x) 1 64000 1
    (f32_of_Z 1) (f32_lit 1 10) (f32_lit 2 5) (f32_of_Z 20).

Lemma sortition_accepts_above_difficulty_witness :
  H256_ltb (h256 (2 ^ 200)) (h256 (2 ^ 200)) = false ∧
  sortition_hash example_skewed_config (h256 (2 ^ 200)) (h256 (2 ^ 200)) =
    Done (Some TRANSACTION_INDEX).
Proof.
  apply (sortition_accepts_above_difficulty example_skewed_config (h256 (2 ^ 200)));
    vm_compute; try split; reflexivity || discriminate.
Defined.
End Witnesses.
