(* ===== verification/Block.v ===== *)
(** * Blocks: [src/src/block/]

    The header, the three kinds of content, their hashes and sizes, and the genesis
    blocks.  The [bincode] encoding of a header is a parameter. *)

From S2P Require Import Prelude Hash Merkle Transaction Config.

(** ** Data *)

Record Header := mkHeader {
  parent : H256;
  timestamp : Z;
  nonce : Z;
  content_merkle_root : H256;
  extra_content : list byte;
  difficulty : H256;
}.

Record TransactionContent := mkTransactionContent { transactions : list Transaction }.

Record ProposerContent := mkProposerContent {
  transaction_refs : list H256;
  proposer_refs : list H256;
}.

Record VoterContent := mkVoterContent {
  chain_number : Z;
  voter_parent : H256;
  votes : list H256;
}.

Inductive Content :=
| CTransaction (c : TransactionContent)
| CProposer (c : ProposerContent)
| CVoter (c : VoterContent).

Record Block := mkBlock {
  header : Header;
  content : Content;
  sortition_proof : list H256;
}.

#[global] Instance header_eq_dec : EqDecision Header.
Proof. solve_decision. Defined.
#[global] Instance transaction_content_eq_dec : EqDecision TransactionContent.
Proof. solve_decision. Defined.
#[global] Instance proposer_content_eq_dec : EqDecision ProposerContent.
Proof. solve_decision. Defined.
#[global] Instance voter_content_eq_dec : EqDecision VoterContent.
Proof. solve_decision. Defined.
#[global] Instance content_eq_dec : EqDecision Content.
Proof. solve_decision. Defined.
#[global] Instance block_eq_dec : EqDecision Block.
Proof. solve_decision. Defined.

(** [bincode::serialize] of a header. *)
Class BincodeHeader := bincode_header : Header → list byte.

(** [std::mem::size_of::<Header>()], which depends on the platform. *)
Class Layout := size_of_header : nat.

(** ** Operations *)

(** [Block::new]. *)
Definition Block_new (parent : H256) (timestamp nonce : Z) (content_merkle_root : H256)
    (sortition_proof : list H256) (content : Content) (extra_content : list byte)
    (difficulty : H256) : Block :=
  mkBlock (mkHeader parent timestamp nonce content_merkle_root extra_content difficulty)
    content sortition_proof.

(** [Block::from_header]. *)
Definition from_header (header : Header) (content : Content)
    (sortition_proof : list H256) : Block :=
  mkBlock header content sortition_proof.

Section Hashes.
Context `{Keccak, BincodeHeader}.

#[global] Instance header_hashable : Hashable Header := λ h, keccak (bincode_header h).

(** Only the header is hashed. *)
#[global] Instance block_hashable : Hashable Block := λ b, hash (header b).

(** [MerkleTree::new(data).root()]; [new] never panics ([Merkle.merkle_new_ref]). *)
Definition content_root {T} `{!Hashable T} (data : list T) : H256 :=
  match merkle_new data with Done t => merkle_root t | Panic => h256_default end.

#[global] Instance transaction_content_hashable : Hashable TransactionContent :=
  λ c, content_root (transactions c).

#[global] Instance proposer_content_hashable : Hashable ProposerContent := λ c,
  keccak (h256_bytes (content_root (transaction_refs c)) ++
          h256_bytes (content_root (proposer_refs c))).

#[global] Instance voter_content_hashable : Hashable VoterContent := λ c,
  keccak (to_be_bytes 2 (chain_number c) ++ h256_bytes (voter_parent c) ++
          h256_bytes (content_root (votes c))).

#[global] Instance content_hashable : Hashable Content := λ c,
  match c with
  | CTransaction c => hash c
  | CProposer c => hash c
  | CVoter c => hash c
  end.
End Hashes.

(** [impl PayloadSize]. *)
Section Sizes.
Context `{Layout}.

Definition transaction_content_size (c : TransactionContent) : nat :=
  foldl (λ total t, total + transaction_size t) 0 (transactions c).
Definition proposer_content_size (c : ProposerContent) : nat :=
  32 * (length (transaction_refs c) + length (proposer_refs c)).
Definition voter_content_size (c : VoterContent) : nat := 2 + 32 + length (votes c) * 32.

Definition content_size (c : Content) : nat :=
  match c with
  | CTransaction c => transaction_content_size c
  | CProposer c => proposer_content_size c
  | CVoter c => voter_content_size c
  end.

Definition block_size (b : Block) : nat :=
  size_of_header + content_size (content b) + length (sortition_proof b) * 32.
End Sizes.

(** The genesis blocks. *)
Definition proposer_genesis_block : Block :=
  Block_new h256_default 0 0 h256_default [] (CProposer (mkProposerContent [] []))
    (replicate 32 "000"%byte) DEFAULT_DIFFICULTY.

Definition voter_genesis_block (chain_num : Z) : Block :=
  Block_new h256_default 0 0 h256_default []
    (CVoter (mkVoterContent chain_num h256_default []))
    (replicate 32 "000"%byte) DEFAULT_DIFFICULTY.

(** ** Lemmas *)

Section Lemmas.
Context `{Keccak}.

Lemma content_root_ref {T} `{!Hashable T} (data : list T) :
  content_root data = merkle_root (ref_tree (hash <$> data)).
Proof. unfold content_root. by rewrite merkle_new_ref. Qed.

(** The strings that are hashed for the root over a list of hashes. *)
Definition root_strings (l : list H256) : list (list byte) :=
  (h256_bytes <$> l) ++ tree_strings (ref_tree (hash <$> l)).

Lemma H256_hash_list_inj strings (l1 l2 : list H256) :
  (h256_bytes <$> l1) ⊆ strings → (h256_bytes <$> l2) ⊆ strings →
  hash <$> l1 = hash <$> l2 → l1 = l2 ∨ keccak_collides strings.
Proof.
  revert l2. induction l1 as [|a l1 IH]; intros [|b l2]; try done; [by left|].
  intros H1 H2 [= Hh Ht]. rewrite !fmap_cons in *.
  destruct (keccak_inj_or strings (h256_bytes a) (h256_bytes b)) as [E%h256_eq|];
    [apply H1; left|apply H2; left|done| |by right].
  destruct (IH l2) as [->|]; [..|by right]; [set_solver|set_solver|done|]. left. by subst.
Qed.

Lemma content_root_inj strings (l1 l2 : list H256) :
  root_strings l1 ⊆ strings → root_strings l2 ⊆ strings →
  length l1 = length l2 → content_root l1 = content_root l2 → l1 = l2 ∨ keccak_collides strings.
Proof.
  unfold root_strings. intros H1 H2 Hl. rewrite !content_root_ref. intros He.
  destruct (merkle_root_inj (hash <$> l1) (hash <$> l2)) as [E|Hc]; [by rewrite !length_fmap|done| |].
  - apply H256_hash_list_inj; [set_solver|set_solver|done].
  - right. revert Hc. apply keccak_collides_mono. set_solver.
Qed.

Lemma to_be_bytes_inj n a b :
  (0 ≤ a < 256 ^ Z.of_nat n)%Z → (0 ≤ b < 256 ^ Z.of_nat n)%Z →
  to_be_bytes n a = to_be_bytes n b → a = b.
Proof.
  intros Ha Hb E. apply (f_equal from_be_bytes) in E.
  rewrite !from_to_be_bytes, !Z.mod_small in E by done. done.
Qed.
End Lemmas.

(** ** Properties *)

Section Properties.
Context `{Keccak}.

(** The strings that are hashed for the hash of a proposer or voter content. *)
Definition proposer_strings (c : ProposerContent) : list (list byte) :=
  (h256_bytes (content_root (transaction_refs c)) ++ h256_bytes (content_root (proposer_refs c))) ::
  root_strings (transaction_refs c) ++ root_strings (proposer_refs c).
Definition voter_strings (c : VoterContent) : list (list byte) :=
  (to_be_bytes 2 (chain_number c) ++ h256_bytes (voter_parent c) ++
   h256_bytes (content_root (votes c))) :: root_strings (votes c).

(** The hash of the content of a proposer or voter block binds the content: among
    contents with the same number of references (or votes), two with the same hash are
    equal, unless keccak collides on two of the strings hashed for them. *)
Theorem content_hash_binding (c1 c2 : Content) :
  match c1, c2 with
  | CProposer p1, CProposer p2 =>
      length (transaction_refs p1) = length (transaction_refs p2) →
      length (proposer_refs p1) = length (proposer_refs p2) →
      hash p1 = hash p2 → p1 = p2 ∨ keccak_collides (proposer_strings p1 ++ proposer_strings p2)
  | CVoter v1, CVoter v2 =>
      (0 ≤ chain_number v1 < 2 ^ 16)%Z → (0 ≤ chain_number v2 < 2 ^ 16)%Z →
      length (votes v1) = length (votes v2) →
      hash v1 = hash v2 → v1 = v2 ∨ keccak_collides (voter_strings v1 ++ voter_strings v2)
  | _, _ => True
  end.
Proof.
  destruct c1 as [?|p1|v1], c2 as [?|p2|v2]; try done.
  - intros Hl1 Hl2 He. destruct p1 as [t1 r1], p2 as [t2 r2].
    unfold hash, proposer_content_hashable in He.
    unfold proposer_strings; cbn [transaction_refs proposer_refs] in *.
    eapply keccak_inj_or in He as [He|Hc]; [|by right; exact Hc|set_solver..].
    apply app_inj_1 in He as [E1%h256_eq E2%h256_eq]; [|by rewrite !h256_len].
    eapply content_root_inj in E1 as [->|Hc]; [|by right; exact Hc|set_solver|set_solver|done].
    eapply content_root_inj in E2 as [->|Hc]; [|by right; exact Hc|set_solver|set_solver|done].
    by left.
  - intros Hc1 Hc2 Hl He. destruct v1 as [n1 p1 l1], v2 as [n2 p2 l2].
    unfold hash, voter_content_hashable in He.
    unfold voter_strings; cbn [chain_number voter_parent votes] in *.
    eapply keccak_inj_or in He as [He|Hc]; [|by right; exact Hc|set_solver..].
    apply app_inj_1 in He as [E1 E2]; [|by rewrite !length_to_be_bytes].
    apply app_inj_1 in E2 as [E2%h256_eq E3%h256_eq]; [|by rewrite !h256_len].
    apply to_be_bytes_inj in E1; [|done..].
    eapply content_root_inj in E3 as [->|Hc]; [|by right; exact Hc|set_solver|set_solver|done].
    left. by subst.
Qed.

(** The block hash does not bind the transactions of a transaction block.  The hash
    of a transaction is a field that travels with it, and the content root is built from
    those fields, so replacing everything but that field leaves the root unchanged. *)
Theorem transaction_content_not_binding (txs1 txs2 : list Transaction) :
  Forall2 (λ t1 t2, ut_hash (tx_transaction t1) = ut_hash (tx_transaction t2)) txs1 txs2 →
  hash (mkTransactionContent txs1) = hash (mkTransactionContent txs2).
Proof.
  intros Hf. unfold hash at 1 2. unfold transaction_content_hashable. simpl.
  rewrite !content_root_ref. do 2 f_equal.
  induction Hf as [|t1 t2 l1 l2 E Hf IH]; [done|]. simpl. by f_equal.
Qed.
End Properties.

(** *** Witnesses *)

(** The fields of a header one after the other, to evaluate the model on examples. *)
Definition example_bincode : BincodeHeader := λ h,
  h256_bytes (parent h) ++ to_be_bytes 16 (timestamp h) ++ to_be_bytes 4 (nonce h) ++
  h256_bytes (content_merkle_root h) ++ extra_content h ++ h256_bytes (difficulty h).

Section Witnesses.
#[local] Existing Instances example_keccak example_rlp.

Lemma content_hash_binding_witness :
  let p := mkProposerContent [h256 1; h256 2] [h256 3] in
  p = p ∨ keccak_collides (proposer_strings p ++ proposer_strings p).
Proof.
  apply (content_hash_binding
    (CProposer (mkProposerContent [h256 1; h256 2] [h256 3]))
    (CProposer (mkProposerContent [h256 1; h256 2] [h256 3]))); reflexivity.
Defined.

(** A transaction, and one that pays all to another receiver under the same hash. *)
Definition example_unverified (to : Address) : UnverifiedTransaction :=
  mkUnverified (mkRawTransaction 7 0 21000 (Call to) 100 []) 27 1 1 (h256 99).

Lemma transaction_content_not_binding_witness :
  hash (mkTransactionContent
    [mkTransaction (example_unverified (replicate 20 "042"%byte)) [] None]) =
  hash (mkTransactionContent
    [mkTransaction (example_unverified (replicate 20 "043"%byte)) [] None]).
Proof. apply transaction_content_not_binding. repeat constructor. Defined.
End Witnesses.
