(* ===== verification/Buffer.v ===== *)
(** * The block buffer: [src/src/network/buffer.rs]

    Blocks that wait for blocks they refer to.  The buffer keeps an index from each missing
    block to the blocks that wait for it; the refinement theorem says that it behaves as a
    map from each waiting block to the set it waits for. *)

From S2P Require Import Prelude Hash Transaction Block.

Record BlockBuffer := mkBuffer {
  blocks : gmap H256 Block;
  dependency : gmap H256 (gset H256);
  dependent : gmap H256 (gset H256);
}.

Definition BlockBuffer_new : BlockBuffer := mkBuffer ∅ ∅ ∅.

(** [HashSet::remove]. *)
Definition set_remove (h : H256) (ds : gset H256) : gset H256 := ds ∖ {[h]}.

Section Operations.
Context `{Keccak, BincodeHeader, HashOrder}.

(** The loop over the dependencies: the set of them, and the index. *)
Definition add_dependencies (h : H256) (deps : list H256)
    (acc : gset H256 * gmap H256 (gset H256)) : gset H256 * gmap H256 (gset H256) :=
  foldl (λ '(ds, index) dep_hash,
    ({[dep_hash]} ∪ ds,
     <[dep_hash := {[h]} ∪ default ∅ (index !! dep_hash)]> index)) acc deps.

Definition buffer_insert (self : BlockBuffer) (block : Block) (dependencies : list H256) :
    BlockBuffer :=
  let h := hash block in
  let '(ds, index) := add_dependencies h dependencies (∅, dependent self) in
  mkBuffer (<[h := block]> (blocks self)) (<[h := ds]> (dependency self)) index.

(** One turn of the loop of [satisfy]. *)
Definition satisfy_node (h : H256) (acc : BlockBuffer * list Block) (node : H256) :
    Outcome (BlockBuffer * list Block) :=
  let '(self, resolved_blocks) := acc in
  ds ← unwrap (dependency self !! node);
  let ds := set_remove h ds in
  if decide (ds = ∅) then
    block ← unwrap (blocks self !! node);
    Done (mkBuffer (delete node (blocks self)) (delete node (dependency self))
            (dependent self), resolved_blocks ++ [block])
  else Done (mkBuffer (blocks self) (<[node := ds]> (dependency self)) (dependent self),
             resolved_blocks).

Definition satisfy (self : BlockBuffer) (h : H256) : Outcome (BlockBuffer * list Block) :=
  match dependent self !! h with
  | None => Done (self, [])
  | Some dependents =>
      foldM (satisfy_node h)
        (mkBuffer (blocks self) (dependency self) (delete h (dependent self)), [])
        (hash_set_iter dependents)
  end.
End Operations.

(** ** What it implements *)

Module Waiting.
(** Each waiting block with the set of blocks it waits for. *)
Abbreviation t := (gmap H256 (Block * gset H256)).

(** What a block waits for after [h] has been processed. *)
Definition after (h : H256) (x : Block * gset H256) : option (Block * gset H256) :=
  if decide (set_remove h x.2 = ∅) then None else Some (x.1, set_remove h x.2).

Definition satisfy (w : t) (h : H256) : t := omap (after h) w.

(** The blocks that wait for nothing but [h]. *)
Definition resolved (w : t) (h : H256) : list Block :=
  (map_to_list (filter (λ x, set_remove h x.2.2 = ∅) w)).*2.*1.
End Waiting.

(** ** The invariant *)

Section Inv.
Context `{Keccak, BincodeHeader, HashOrder}.

Record buffer_inv (b : BlockBuffer) : Prop := {
  bu_dom x : is_Some (blocks b !! x) ↔ is_Some (dependency b !! x);
  bu_hash x blk : blocks b !! x = Some blk → hash blk = x;
  bu_nonempty x ds : dependency b !! x = Some ds → ds ≠ ∅;
  bu_index d x : (∃ ds, dependency b !! x = Some ds ∧ d ∈ ds) ↔
    x ∈ default ∅ (dependent b !! d);
}.

Definition waiting (b : BlockBuffer) : Waiting.t := map_zip (blocks b) (dependency b).

Lemma hash_set_iter_empty : hash_set_iter (∅ : gset H256) = [].
Proof.
  destruct (hash_set_iter ∅) as [|x l] eqn:E; [done|].
  assert (x ∈ hash_set_iter (∅ : gset H256)) as Hx by (rewrite E; left).
  apply elem_of_hash_set_iter in Hx. set_solver.
Qed.

Lemma buffer_inv_new : buffer_inv BlockBuffer_new.
Proof.
  split; cbn [BlockBuffer_new blocks dependency dependent].
  - intros x. rewrite !lookup_empty. split; by intros [? ?].
  - intros x blk. by rewrite lookup_empty.
  - intros x ds. by rewrite lookup_empty.
  - intros d x. rewrite !lookup_empty. cbn. split; [by intros (? & ? & _)|set_solver].
Qed.

Lemma waiting_None b x : buffer_inv b → waiting b !! x = None → blocks b !! x = None.
Proof.
  intros Hb. unfold waiting. rewrite map_lookup_zip_with.
  destruct (blocks b !! x) as [blk|] eqn:E; [|done].
  destruct (proj1 (bu_dom b Hb x) (mk_is_Some _ _ E)) as [ds ->]. done.
Qed.

(** *** Insertion *)

Lemma add_dependencies_ok h deps ds index :
  (add_dependencies h deps (ds, index)).1 = list_to_set deps ∪ ds ∧
  ∀ d x, x ∈ default ∅ ((add_dependencies h deps (ds, index)).2 !! d) ↔
    x ∈ default ∅ (index !! d) ∨ (x = h ∧ d ∈ deps).
Proof.
  revert ds index. induction deps as [|e deps IH]; intros ds index; cbn.
  - split; [set_solver|]. set_solver.
  - fold (add_dependencies h deps ({[e]} ∪ ds, <[e := {[h]} ∪ default ∅ (index !! e)]> index)).
    destruct (IH ({[e]} ∪ ds) (<[e := {[h]} ∪ default ∅ (index !! e)]> index)) as [IH1 IH2].
    split; [rewrite IH1; set_solver|]. intros d x. rewrite IH2.
    destruct (decide (d = e)) as [->|Hne].
    + rewrite lookup_insert_eq. cbn. set_solver.
    + rewrite lookup_insert_ne by done. set_solver.
Qed.

Lemma buffer_insert_ok b (blk : Block) deps :
  buffer_inv b → blocks b !! hash blk = None → deps ≠ [] →
  buffer_inv (buffer_insert b blk deps) ∧
  waiting (buffer_insert b blk deps) = <[hash blk := (blk, list_to_set deps)]> (waiting b).
Proof.
  intros [Hdom Hhash Hne Hidx] Hfresh Hdeps.
  assert (dependency b !! hash blk = None) as Hfd.
  { destruct (dependency b !! hash blk) as [ds|] eqn:E; [|done].
    destruct (proj2 (Hdom (hash blk)) (mk_is_Some _ _ E)) as [? ?]. congruence. }
  unfold buffer_insert. destruct (add_dependencies_ok (hash blk) deps ∅ (dependent b)) as [Hs Hi].
  destruct (add_dependencies _ _ _) as [ds index]. cbn [fst snd] in *.
  assert (ds = list_to_set deps) as -> by set_solver. clear Hs. split; [split|]; cbn [blocks dependency dependent].
  - intros x. destruct (decide (x = hash blk)) as [->|Hx].
    + rewrite !lookup_insert_eq. split; eauto.
    + by rewrite !lookup_insert_ne.
  - intros x blk'. rewrite lookup_insert_Some. intros [[<- <-]|[_ ?]]; auto.
  - intros x ds. rewrite lookup_insert_Some. intros [[<- <-]|[_ ?]]; [|eauto].
    destruct deps as [|d deps]; [done|]. set_solver.
  - intros d x. rewrite Hi, <- Hidx. setoid_rewrite lookup_insert_Some. split.
    + intros (ds & [[<- <-]|[? ?]] & Hd); [|eauto]. right. set_solver.
    + intros [(ds & Hds & Hd)|[-> Hd]].
      * exists ds. split; [|done]. right. split; [congruence|done].
      * exists (list_to_set deps). split; [by left|set_solver].
  - symmetry. apply (map_insert_zip_with pair).
Qed.

(** *** Satisfaction *)

(** The new dependencies of a block, and the block if it is resolved. *)
Definition dep_after (h : H256) (b : BlockBuffer) (x : H256) : option (gset H256) :=
  match dependency b !! x with
  | Some ds => if decide (set_remove h ds = ∅) then None else Some (set_remove h ds)
  | None => None
  end.
Definition resolved_at (h : H256) (b : BlockBuffer) (x : H256) : option Block :=
  match dependency b !! x with
  | Some ds => if decide (set_remove h ds = ∅) then blocks b !! x else None
  | None => None
  end.

Record satisfied (h : H256) (ns : list H256) (b b' : BlockBuffer) : Prop := {
  sa_dependent : dependent b' = dependent b;
  sa_dependency x :
    dependency b' !! x = if decide (x ∈ ns) then dep_after h b x else dependency b !! x;
  sa_blocks x : blocks b' !! x =
    if decide (x ∈ ns ∧ dep_after h b x = None) then None else blocks b !! x;
}.

Lemma satisfy_node_ok h b res n :
  is_Some (dependency b !! n) → is_Some (blocks b !! n) →
  ∃ b', satisfy_node h (b, res) n = Done (b', res ++ option_list (resolved_at h b n)) ∧
    satisfied h [n] b b'.
Proof.
  intros [ds Hds] [blk Hblk]. unfold satisfy_node, resolved_at. rewrite Hds.
  cbn [unwrap mbind outcome_bind].
  assert (∀ x, x ∈ [n] ↔ n = x) as Hin by set_solver.
  destruct (decide (set_remove h ds = ∅)) as [He|He].
  - rewrite Hblk. eexists. split; [reflexivity|]. split; cbn [dependent dependency blocks]; [done|..];
      intros x; unfold dep_after; destruct (decide (n = x)) as [<-|Hx].
    + rewrite lookup_delete_eq, Hds, decide_True by set_solver. by rewrite decide_True.
    + rewrite lookup_delete_ne by done. by rewrite decide_False by set_solver.
    + rewrite lookup_delete_eq, Hds, (decide_True _ _ He). by rewrite decide_True by set_solver.
    + rewrite lookup_delete_ne by done. by rewrite decide_False by set_solver.
  - eexists. split; [cbn; by rewrite app_nil_r|].
    split; cbn [dependent dependency blocks]; [done|..];
      intros x; unfold dep_after; destruct (decide (n = x)) as [<-|Hx].
    + rewrite lookup_insert_eq, Hds, decide_True by set_solver. by rewrite decide_False.
    + rewrite lookup_insert_ne by done. by rewrite decide_False by set_solver.
    + rewrite Hds, (decide_False _ _ He). by rewrite decide_False by naive_solver.
    + by rewrite decide_False by set_solver.
Qed.

Lemma satisfy_loop h ns b res :
  NoDup ns → (∀ x, x ∈ ns → is_Some (dependency b !! x) ∧ is_Some (blocks b !! x)) →
  ∃ b', foldM (satisfy_node h) (b, res) ns = Done (b', res ++ omap (resolved_at h b) ns) ∧
    satisfied h ns b b'.
Proof.
  revert b res. induction ns as [|n ns IH]; intros b res Hnd Hall.
  { exists b. cbn. rewrite app_nil_r. split; [done|].
    split; [done|..]; intros x; by rewrite decide_False by set_solver. }
  apply NoDup_cons in Hnd as [Hn Hnd]. destruct (Hall n) as [Hds Hblk]; [left|].
  destruct (satisfy_node_ok h b res n Hds Hblk) as (b1 & Hstep & [Hd1 Hdep1 Hb1]).
  assert (∀ x, x ≠ n → dependency b1 !! x = dependency b !! x ∧ blocks b1 !! x = blocks b !! x) as Hsame.
  { intros x Hx. by rewrite Hdep1, Hb1, !decide_False by set_solver. }
  destruct (IH b1 (res ++ option_list (resolved_at h b n)) Hnd) as (b' & Hf & [Hd Hdep Hb]).
  { intros x Hx. destruct (Hsame x) as [-> ->]; [set_solver|]. apply Hall. by right. }
  exists b'. cbn [foldM]. rewrite Hstep. cbn [mbind outcome_bind]. rewrite Hf. split.
  - do 2 f_equal. rewrite <- app_assoc. f_equal. cbn.
    assert (omap (resolved_at h b1) ns = omap (resolved_at h b) ns) as ->.
    { apply list_omap_ext, Forall_Forall2_diag, Forall_forall. intros x Hx. unfold resolved_at.
      destruct (Hsame x) as [-> ->]; [set_solver|done]. }
    by destruct (resolved_at h b n).
  - split; [by rewrite Hd|..]; intros x; rewrite ?Hdep, ?Hb; unfold dep_after in *;
      (destruct (decide (x = n)) as [->|Hx];
       [|destruct (Hsame x Hx) as [Hsd Hsb]; rewrite ?Hsd, ?Hsb]).
    + rewrite decide_False by done. rewrite Hdep1. by rewrite !decide_True by set_solver.
    + destruct (decide (x ∈ ns)); [rewrite decide_True by (by right)|
        rewrite decide_False by (rewrite elem_of_cons; tauto)]; done.
    + rewrite decide_False by naive_solver. rewrite Hb1.
      apply decide_ext. split; intros [_ ?]; (split; [left|done]).
    + apply decide_ext. rewrite elem_of_cons. tauto.
Qed.

Lemma dep_after_other h b x ds :
  dependency b !! x = Some ds → ds ≠ ∅ → h ∉ ds → dep_after h b x = Some ds.
Proof.
  intros Hds Hne Hh. unfold dep_after. rewrite Hds.
  assert (set_remove h ds = ds) as -> by (unfold set_remove; set_solver).
  by rewrite decide_False.
Qed.

Lemma resolved_at_Some h b x blk :
  resolved_at h b x = Some blk ↔
  ∃ ds, dependency b !! x = Some ds ∧ set_remove h ds = ∅ ∧ blocks b !! x = Some blk.
Proof.
  unfold resolved_at. destruct (dependency b !! x) as [ds|]; [|naive_solver].
  case_decide; naive_solver.
Qed.

(** The blocks that a list of nodes resolves to are the blocks that wait for [h] alone. *)
Lemma resolved_perm h b ns :
  buffer_inv b → NoDup ns → (∀ x blk, resolved_at h b x = Some blk → x ∈ ns) →
  omap (resolved_at h b) ns ≡ₚ Waiting.resolved (waiting b) h.
Proof.
  intros Hb Hnd Hin. unfold Waiting.resolved.
  assert (∀ x blk, resolved_at h b x = Some blk → hash blk = x) as Hhash.
  { intros x blk (ds & _ & _ & Hx)%resolved_at_Some. by apply (bu_hash b Hb). }
  set (W := filter _ (waiting b)).
  assert (∀ x blk ds, W !! x = Some (blk, ds) ↔
    dependency b !! x = Some ds ∧ set_remove h ds = ∅ ∧ blocks b !! x = Some blk) as HW.
  { intros x blk ds. unfold W, waiting. rewrite map_lookup_filter_Some, map_lookup_zip_Some.
    cbn. naive_solver. }
  apply list.NoDup_Permutation.
  - apply (NoDup_fmap_1 hash).
    assert (hash <$> omap (resolved_at h b) ns = filter (λ x, is_Some (resolved_at h b x)) ns) as ->.
    { clear Hnd Hin. induction ns as [|x ns IH]; [done|]. rewrite filter_cons. cbn.
      destruct (resolved_at h b x) as [blk|] eqn:E; cbn.
      - rewrite decide_True by eauto. rewrite (Hhash _ _ E). by f_equal.
      - rewrite decide_False by (by intros [? ?]). done. }
    by apply NoDup_filter.
  - apply (NoDup_fmap_1 hash).
    assert (hash <$> (map_to_list W).*2.*1 = (map_to_list W).*1) as ->;
      [|apply NoDup_fst_map_to_list].
    rewrite <- !list_fmap_compose. apply list_fmap_ext. intros i [x [blk ds]] Hi. cbn.
    apply list_elem_of_lookup_2, elem_of_map_to_list, HW in Hi as (_ & _ & Hx).
    by apply (bu_hash b Hb).
  - intros blk. rewrite list_elem_of_omap, !(list_elem_of_fmap fst). split.
    + intros (x & _ & Hx). apply resolved_at_Some in Hx as (ds & ? & ? & ?).
      exists (blk, ds). split; [done|]. apply list_elem_of_fmap. exists (x, (blk, ds)).
      split; [done|]. by apply elem_of_map_to_list, HW.
    + intros ([blk' ds] & -> & Hx). apply list_elem_of_fmap in Hx as ([x [? ?]] & [= <- <-] & Hx).
      apply elem_of_map_to_list, HW in Hx as (? & ? & ?).
      assert (resolved_at h b x = Some blk') as E by (apply resolved_at_Some; eauto).
      exists x. split; [by eapply Hin|done].
Qed.

Lemma buffer_inv_after h b b' :
  buffer_inv b →
  dependent b' = delete h (dependent b) →
  (∀ x, dependency b' !! x = dep_after h b x) →
  (∀ x, blocks b' !! x = if decide (dep_after h b x = None) then None else blocks b !! x) →
  buffer_inv b'.
Proof.
  intros [Hdom Hhash Hne Hidx] Hd Hdep' Hbl'.
  split.
  - intros x. rewrite Hbl', Hdep'. specialize (Hdom x). unfold dep_after.
    destruct (dependency b !! x) as [ds|]; [|by rewrite decide_True].
    destruct (decide (set_remove h ds = ∅)); [by rewrite decide_True|].
    rewrite decide_False by done. rewrite Hdom. split; eauto.
  - intros x blk. rewrite Hbl'. case_decide; [done|]. apply Hhash.
  - intros x ds. rewrite Hdep'. unfold dep_after. destruct (dependency b !! x); [|done].
    case_decide; [done|]. by intros [= <-].
  - intros d x. rewrite Hd. cbn. setoid_rewrite Hdep'. unfold dep_after.
    destruct (decide (d = h)) as [->|Hdh].
    + rewrite lookup_delete_eq. cbn. split; [|by intros ?%elem_of_empty].
      intros (ds & Hds & Hh). destruct (dependency b !! x); [|done].
      case_decide; [done|]. injection Hds as <-. unfold set_remove in Hh. set_solver.
    + rewrite lookup_delete_ne by done. rewrite <- Hidx.
      destruct (dependency b !! x) as [ds|]; [|done]. unfold set_remove.
      split; intros (ds' & Hds & Hin).
      * case_decide; [done|]. injection Hds as <-. exists ds. set_solver.
      * injection Hds as <-. case_decide as Hem; [set_solver|].
         exists (ds ∖ {[h]}). set_solver.
Qed.

Lemma satisfy_ok b h :
  buffer_inv b →
  ∃ b' res, satisfy b h = Done (b', res) ∧ buffer_inv b' ∧
    waiting b' = Waiting.satisfy (waiting b) h ∧ res ≡ₚ Waiting.resolved (waiting b) h.
Proof.
  intros Hb. pose proof Hb as [Hdom Hhash Hne Hidx].
  set (S := default ∅ (dependent b !! h)).
  set (b0 := mkBuffer (blocks b) (dependency b) (delete h (dependent b))).
  destruct (satisfy_loop h (hash_set_iter S) b0 []) as (b' & Hf & [Hd Hdep Hbl]).
  { apply hash_set_iter_NoDup. }
  { intros x Hx%elem_of_hash_set_iter%Hidx. destruct Hx as (ds & Hds & _).
    split; cbn; [eauto|]. apply Hdom. eauto. }
  assert (satisfy b h = Done (b', omap (resolved_at h b) (hash_set_iter S))) as Hsat.
  { unfold satisfy. subst S. destruct (dependent b !! h) as [S|] eqn:E; [exact Hf|].
    cbn [default from_option] in *. rewrite hash_set_iter_empty in *. injection Hf as <-.
    subst b0. rewrite delete_id by done. by destruct b. }
  assert (∀ x, dependency b' !! x = dep_after h b x) as Hdep'.
  { intros x. rewrite Hdep. case_decide as Hx; [done|]. cbn.
    destruct (dependency b !! x) as [ds|] eqn:E; [|unfold dep_after; by rewrite E].
    symmetry. apply dep_after_other; [done|by eapply Hne|].
    intros Hh. apply Hx, elem_of_hash_set_iter, Hidx. eauto. }
  assert (∀ x, blocks b' !! x =
    if decide (dep_after h b x = None) then None else blocks b !! x) as Hbl'.
  { intros x. rewrite Hbl. change (dep_after h b0 x) with (dep_after h b x).
    destruct (decide (dep_after h b x = None)) as [Hn|Hn]; [|by rewrite decide_False by tauto].
    case_decide as Hx; [done|]. cbn. destruct (blocks b !! x) as [blk|] eqn:E; [|done].
    destruct (proj1 (Hdom x) (mk_is_Some _ _ E)) as [ds Hds]. destruct Hx. split; [|done].
    apply elem_of_hash_set_iter, Hidx. exists ds. split; [done|].
    destruct (decide (h ∈ ds)) as [|Hh]; [done|].
    rewrite (dep_after_other h b x ds) in Hn; [done|done|by eapply Hne|done]. }
  exists b', (omap (resolved_at h b) (hash_set_iter S)). split_and!; [done| | |].
  - exact (buffer_inv_after h b b' Hb Hd Hdep' Hbl').
  - apply map_eq. intros x. unfold waiting, Waiting.satisfy.
    rewrite lookup_omap, !map_lookup_zip_with, Hbl', Hdep'. unfold dep_after.
    destruct (blocks b !! x) as [blk|], (dependency b !! x) as [ds|]; cbn; try done;
      [unfold Waiting.after; cbn; repeat case_decide; done..].
  - apply resolved_perm; [done|apply hash_set_iter_NoDup|].
    intros x blk (ds & Hds & He & _)%resolved_at_Some.
    apply elem_of_hash_set_iter, Hidx. exists ds. split; [done|].
    specialize (Hne _ _ Hds). unfold set_remove in He. clear -He Hne. set_solver.
Qed.

(** ** Sequences of operations *)

Inductive buffer_op := BufferInsert (block : Block) (deps : list H256) | BufferSatisfy (h : H256).

(** The buffer and what each call of [satisfy] returned. *)
Definition buffer_step (acc : BlockBuffer * list (list Block)) (op : buffer_op) :
    Outcome (BlockBuffer * list (list Block)) :=
  match op with
  | BufferInsert block deps => Done (buffer_insert acc.1 block deps, acc.2)
  | BufferSatisfy h => '(b, res) ← satisfy acc.1 h; Done (b, acc.2 ++ [res])
  end.

Definition wait_step (acc : Waiting.t * list (list Block)) (op : buffer_op) :
    Waiting.t * list (list Block) :=
  match op with
  | BufferInsert block deps => (<[hash block := (block, list_to_set deps)]> acc.1, acc.2)
  | BufferSatisfy h => (Waiting.satisfy acc.1 h, acc.2 ++ [Waiting.resolved acc.1 h])
  end.

(** The node buffers a block only when it is not buffered and something is missing. *)
Fixpoint buffer_ops_ok (acc : Waiting.t * list (list Block)) (ops : list buffer_op) : Prop :=
  match ops with
  | [] => True
  | op :: ops =>
      match op with
      | BufferInsert block deps => acc.1 !! hash block = None ∧ deps ≠ []
      | BufferSatisfy _ => True
      end ∧ buffer_ops_ok (wait_step acc op) ops
  end.

(** C37: As long as each block that is inserted is not in the buffer yet and misses at least one
    block, the block buffer never panics, and hands back, for any order in which the hash tables
    are iterated, exactly the blocks whose last missing block has now been processed: with
    the blocks that wait and the sets they wait for as the state, a sequence of insertions
    and satisfied hashes gives the same state and, up to order, the same resolved blocks.
    Without the condition [satisfy] can panic: a block inserted a second time with fewer
    dependencies is resolved before its first dependencies are. *)
Theorem buffer_refines_waiting (ops : list buffer_op) :
  buffer_ops_ok (∅, []) ops →
  ∃ b outs, foldM buffer_step (BlockBuffer_new, []) ops = Done (b, outs) ∧
    waiting b = (foldl wait_step (∅, []) ops).1 ∧
    Forall2 Permutation outs (foldl wait_step (∅, []) ops).2.
Proof.
  enough (∀ b outs w souts, buffer_inv b → waiting b = w → Forall2 Permutation outs souts →
    buffer_ops_ok (w, souts) ops →
    ∃ b' outs', foldM buffer_step (b, outs) ops = Done (b', outs') ∧
      waiting b' = (foldl wait_step (w, souts) ops).1 ∧
      Forall2 Permutation outs' (foldl wait_step (w, souts) ops).2) as Hgen.
  { intros Hok. apply Hgen; [apply buffer_inv_new|done|constructor|done]. }
  induction ops as [|op ops IH]; intros b outs w souts Hb Hw Houts Hok.
  { exists b, outs. done. }
  destruct Hok as [Hop Hok]. destruct op as [blk deps|h]; cbn [foldM foldl buffer_step fst snd].
  - destruct Hop as [Hfresh Hdeps]. cbn [fst] in Hfresh. subst w.
    destruct (buffer_insert_ok b blk deps Hb) as [Hb' Hw']; [by apply waiting_None|done|].
    cbn [mbind outcome_bind]. by apply IH.
  - destruct (satisfy_ok b h Hb) as (b' & res & -> & Hb' & Hw' & Hres). cbn [mbind outcome_bind].
    subst w. apply IH; [done|done| |done]. apply Forall2_app; [done|]. by constructor.
Qed.
End Inv.

(** *** Witness *)

Section Witnesses.
#[local] Existing Instances example_keccak example_bincode example_hash_order.

Definition example_waiting_block (nonce : Z) : Block :=
  Block_new (h256 1) 0 nonce (h256 0) [] (CProposer (mkProposerContent [] [])) []
    (h256 (2 ^ 255)).

(** The first block waits for two blocks, the second for one of them. *)
Definition example_buffer_ops : list buffer_op :=
  [BufferInsert (example_waiting_block 1) [h256 1; h256 2];
   BufferInsert (example_waiting_block 2) [h256 1];
   BufferSatisfy (h256 1); BufferSatisfy (h256 2)].

Lemma example_buffer_ops_ok : buffer_ops_ok (∅, []) example_buffer_ops.
Proof.
  split; [split; [vm_compute; reflexivity|discriminate]|].
  split; [split; [vm_compute; reflexivity|discriminate]|]. done.
Qed.

Lemma example_buffer_result :
  foldl wait_step (∅, []) example_buffer_ops =
    (∅, [[example_waiting_block 2]; [example_waiting_block 1]]).
Proof.
  vm_cast_no_check (eq_refl (∅ : Waiting.t, [[example_waiting_block 2]; [example_waiting_block 1]])).
Qed.

Lemma buffer_refines_waiting_witness :
  ∃ b outs, foldM buffer_step (BlockBuffer_new, []) example_buffer_ops = Done (b, outs) ∧
    waiting b = ∅ ∧
    Forall2 Permutation outs [[example_waiting_block 2]; [example_waiting_block 1]].
Proof.
  destruct (buffer_refines_waiting example_buffer_ops example_buffer_ops_ok)
    as (b & outs & Hrun & Hw & Hout).
  rewrite example_buffer_result in Hw, Hout.
  exists b, outs. split; [exact Hrun|]. split; [exact Hw|exact Hout].
Defined.
End Witnesses.
