(* ===== verification/BlockDb.v ===== *)
(** * The block database: [src/src/blockdb/mod.rs]

    Blocks by hash, and the order in which they arrived.  The bincode encoding of a block
    is a parameter: what is encoded decodes to the same block. *)

From S2P Require Import Prelude Hash Transaction Float Config Block.

Class BincodeBlock := {
  serialize : Block → list byte;
  deserialize : list byte → option Block;
}.

Class BincodeBlockLaws `{BincodeBlock} :=
  deserialize_serialize b : deserialize (serialize b) = Some b.

(** The three column families; a sequence number is stored as its native bytes, which
    determine it. *)
Record BlockDatabase := mkBlockDb {
  block_cf : gmap H256 (list byte);
  block_arrival_order_cf : gmap Z H256;
  block_sequence_number_cf : gmap H256 Z;
  db_count : Z;
}.

(** [open] on an empty directory. *)
Definition blockdb_open : BlockDatabase := mkBlockDb ∅ ∅ ∅ 0.

(** The three [put_cf] of a block with a sequence number. *)
Definition put_block (db : BlockDatabase) (h : H256) (raw : list byte) (counter : Z) :
    BlockDatabase :=
  mkBlockDb (<[h := raw]> (block_cf db)) (<[counter := h]> (block_arrival_order_cf db))
    (<[h := counter]> (block_sequence_number_cf db)) (db_count db).

Definition set_count (db : BlockDatabase) (n : Z) : BlockDatabase :=
  mkBlockDb (block_cf db) (block_arrival_order_cf db) (block_sequence_number_cf db) n.

Section Operations.
Context `{Keccak, BincodeHeader, BincodeBlock}.

Definition blockdb_new (config : BlockchainConfig) : Outcome BlockDatabase :=
  let db := put_block blockdb_open (proposer_genesis config)
    (serialize proposer_genesis_block) 0 in
  '(db, counter) ← foldM (λ '(db, counter) i,
      genesis ← unwrap (voter_genesis config !! Z.to_nat i);
      Done (put_block db genesis (serialize (voter_genesis_block i)) counter,
            u64 (counter + 1)))
    (db, 1%Z) (range 0 (voter_chains config));
  Done (set_count db counter).

(** [load]: the number of blocks is the number of entries of the arrival order. *)
Definition blockdb_load (db : BlockDatabase) : BlockDatabase :=
  set_count db (u64 (Z.of_nat (size (block_arrival_order_cf db)))).

Definition blockdb_insert_encoded (db : BlockDatabase) (h : H256) (raw_block : list byte) :
    BlockDatabase * Z :=
  let counter := db_count db in
  (put_block (set_count db (u64 (counter + 1))) h raw_block counter, counter).

Definition blockdb_insert (db : BlockDatabase) (block : Block) : BlockDatabase * Z :=
  let counter := db_count db in
  (put_block (set_count db (u64 (counter + 1))) (hash block) (serialize block) counter, counter).

Definition blockdb_get (db : BlockDatabase) (h : H256) : Outcome (option Block) :=
  match block_cf db !! h with
  | None => Done None
  | Some s => b ← unwrap (deserialize s); Done (Some b)
  end.

Definition blockdb_get_encoded (db : BlockDatabase) (h : H256) : option (list byte) :=
  block_cf db !! h.

Definition blockdb_contains (db : BlockDatabase) (h : H256) : bool :=
  match block_cf db !! h with None => false | Some _ => true end.

Definition num_blocks (db : BlockDatabase) : Z := db_count db.

(** The loop counts down to a sequence number that has been committed. *)
Fixpoint latest_loop (fuel : nat) (db : BlockDatabase) (count : Z) : Outcome H256 :=
  match fuel with
  | O => Panic
  | S fuel =>
      match block_arrival_order_cf db !! count with
      | Some h => Done h
      | None => latest_loop fuel db (u64 (count - 1))
      end
  end.
Definition latest_block_hash (fuel : nat) (db : BlockDatabase) : Outcome H256 :=
  latest_loop fuel db (u64 (db_count db - 1)).

(** *** Iteration in the order of arrival *)

Record BlocksInArrivalOrder := mkBlocksAfter {
  it_seq : Z;
  it_batch : Z;
}.

Definition blocks_after (db : BlockDatabase) (after : H256) (batch_size : Z) :
    Outcome BlocksInArrivalOrder :=
  seq ← unwrap (block_sequence_number_cf db !! after);
  Done (mkBlocksAfter (u64 (seq + 1)) batch_size).

(** The loop of [next]; it takes at most [it_batch] turns. *)
Fixpoint next_loop (fuel : nat) (db : BlockDatabase) (it : BlocksInArrivalOrder)
    (this_batch : Z) (result : list Block) : Outcome (BlocksInArrivalOrder * list Block) :=
  if (it_seq it <? db_count db)%Z && (this_batch <? it_batch it)%Z then
    match fuel with
    | O => Panic
    | S fuel =>
        h ← unwrap (block_arrival_order_cf db !! it_seq it);
        raw ← unwrap (block_cf db !! h);
        block ← unwrap (deserialize raw);
        next_loop fuel db (mkBlocksAfter (u64 (it_seq it + 1)) (it_batch it))
          (u64 (this_batch + 1)) (result ++ [block])
    end
  else Done (it, result).

Definition next (db : BlockDatabase) (it : BlocksInArrivalOrder) :
    Outcome (BlocksInArrivalOrder * option (list Block)) :=
  '(it', result) ← next_loop (Z.to_nat (it_batch it)) db it 0 [];
  Done (it', match result with [] => None | _ => Some result end).

(** [for batch in iter { ... }]: the batches up to the first [None]. *)
Fixpoint batches (fuel : nat) (db : BlockDatabase) (it : BlocksInArrivalOrder) :
    Outcome (list (list Block)) :=
  match fuel with
  | O => Panic
  | S fuel =>
      '(it, batch) ← next db it;
      match batch with
      | None => Done []
      | Some batch => rest ← batches fuel db it; Done (batch :: rest)
      end
  end.
End Operations.

(** ** The invariant *)

Section Inv.
Context `{Keccak, BincodeHeader, BincodeBlock, !BincodeBlockLaws}.

Record blockdb_inv (db : BlockDatabase) : Prop := {
  bd_count : (0 ≤ db_count db < 2 ^ 64)%Z;
  bd_order i : is_Some (block_arrival_order_cf db !! i) ↔ (0 ≤ i < db_count db)%Z;
  bd_stored i h : block_arrival_order_cf db !! i = Some h → is_Some (block_cf db !! h);
  bd_decodes h raw : block_cf db !! h = Some raw → is_Some (deserialize raw);
  bd_seq h i : block_sequence_number_cf db !! h = Some i →
    block_arrival_order_cf db !! i = Some h;
  bd_dom h : is_Some (block_cf db !! h) ↔ is_Some (block_sequence_number_cf db !! h);
}.

Lemma put_block_inv db h raw :
  blockdb_inv db → (db_count db < 2 ^ 64 - 1)%Z → is_Some (deserialize raw) →
  blockdb_inv (put_block (set_count db (u64 (db_count db + 1))) h raw (db_count db)).
Proof.
  intros [Hc Ho Hst Hde Hseq Hdom] Hb Hraw. split;
    cbn [put_block set_count block_cf block_arrival_order_cf block_sequence_number_cf db_count].
  - rewrite u64_small; lia.
  - intros i. rewrite u64_small, lookup_insert_is_Some', Ho by lia. lia.
  - intros i k. rewrite lookup_insert_is_Some', lookup_insert_Some. intros [[_ <-]|[_ Hi]]; [by left|].
    right. by eapply Hst.
  - intros k r. rewrite lookup_insert_Some. intros [[_ <-]|[_ Hk]]; [done|by eapply Hde].
  - intros k i. rewrite !lookup_insert_Some. intros [[<- <-]|[Hk Hi]]; [by left|].
    right. split; [|by apply Hseq]. apply Hseq in Hi.
    pose proof (proj1 (Ho i) (mk_is_Some _ _ Hi)). lia.
  - intros k. by rewrite !lookup_insert_is_Some', Hdom.
Qed.

(** *** The genesis blocks *)

(** The state while the genesis blocks are put: the counter is not stored yet. *)
Lemma genesis_blocks_inv db config ks counter :
  (∀ i, i ∈ ks → is_Some (voter_genesis config !! Z.to_nat i)) →
  blockdb_inv (set_count db counter) → (counter + Z.of_nat (length ks) < 2 ^ 64)%Z →
  ∃ db', foldM (λ '(db, counter) i,
      genesis ← unwrap (voter_genesis config !! Z.to_nat i);
      Done (put_block db genesis (serialize (voter_genesis_block i)) counter,
            u64 (counter + 1))) (db, counter) ks =
    Done (db', counter + Z.of_nat (length ks))%Z ∧
    blockdb_inv (set_count db' (counter + Z.of_nat (length ks))).
Proof.
  revert db counter. induction ks as [|i ks IH]; intros db counter Hg Hinv Hb.
  { exists db. cbn. by rewrite Z.add_0_r. }
  destruct (Hg i) as [g Hgi]; [left|]. cbn [foldM length] in *. rewrite Hgi.
  cbn [unwrap mbind outcome_bind].
  pose proof (bd_count _ Hinv) as Hc. cbn in Hc.
  assert (blockdb_inv (set_count (put_block db g (serialize (voter_genesis_block i)) counter)
    (counter + 1))) as Hinv'.
  { pose proof (put_block_inv _ g (serialize (voter_genesis_block i)) Hinv) as Hp. cbn in Hp.
    rewrite u64_small in Hp by lia. apply Hp; [lia|]. rewrite deserialize_serialize. eauto. }
  rewrite u64_small by lia.
  edestruct IH as (db' & -> & Hd); [intros; apply Hg; by right|exact Hinv'|lia|].
  exists db'. replace (counter + Z.of_nat (S (length ks)))%Z
    with (counter + 1 + Z.of_nat (length ks))%Z by lia. done.
Qed.

Lemma blockdb_new_inv config :
  (0 ≤ voter_chains config < 2 ^ 16)%Z →
  length (voter_genesis config) = Z.to_nat (voter_chains config) →
  ∃ db, blockdb_new config = Done db ∧ blockdb_inv db ∧ db_count db = (voter_chains config + 1)%Z.
Proof.
  intros Hc Hl. unfold blockdb_new.
  set (db0 := put_block blockdb_open (proposer_genesis config) (serialize proposer_genesis_block) 0).
  assert (length (range 0 (voter_chains config)) = Z.to_nat (voter_chains config)) as Hlen.
  { unfold range. rewrite length_seqZ. f_equal. lia. }
  destruct (genesis_blocks_inv db0 config (range 0 (voter_chains config)) 1) as (db & -> & Hinv).
  - intros i Hi%elem_of_range. apply lookup_lt_is_Some_2. lia.
  - assert (blockdb_inv blockdb_open) as He.
    { split; cbn; try (intros *; rewrite ?lookup_empty); try done; try lia.
      - split; [by intros [? ?]|lia]. }
    pose proof (put_block_inv _ (proposer_genesis config) (serialize proposer_genesis_block) He) as Hp.
    apply Hp; [done|]. rewrite deserialize_serialize. eauto.
  - lia.
  - rewrite Hlen in *. replace (1 + Z.of_nat (Z.to_nat (voter_chains config)))%Z
      with (voter_chains config + 1)%Z in * by lia.
    eexists. split; [reflexivity|]. done.
Qed.

(** *** Iteration *)

(** The block with a sequence number. *)
Definition stored_at (db : BlockDatabase) (i : Z) : option Block :=
  block_arrival_order_cf db !! i ≫= λ h, block_cf db !! h ≫= deserialize.

Lemma stored_at_is_Some db i :
  blockdb_inv db → (0 ≤ i < db_count db)%Z → is_Some (stored_at db i).
Proof.
  intros Hdb Hi. unfold stored_at. apply (bd_order db Hdb) in Hi as [h Hh].
  destruct (bd_stored db Hdb i h Hh) as [raw Hraw].
  destruct (bd_decodes db Hdb h raw Hraw) as [b Hb]. rewrite Hh. cbn. rewrite Hraw. cbn. eauto.
Qed.

Lemma next_loop_ok db fuel q batch t res :
  blockdb_inv db → (0 ≤ q ≤ db_count db)%Z → (0 ≤ t ≤ batch)%Z → (batch < 2 ^ 64)%Z →
  (batch - t ≤ Z.of_nat fuel)%Z →
  let q' := Z.min (db_count db) (q + (batch - t)) in
  ∃ bs, next_loop fuel db (mkBlocksAfter q batch) t res = Done (mkBlocksAfter q' batch, res ++ bs) ∧
    Forall2 (λ i b, stored_at db i = Some b) (range q q') bs.
Proof.
  intros Hdb. revert q t res. induction fuel as [|fuel IH]; intros q t res Hq Ht Hb Hf q'.
  - exists []. cbn [next_loop it_seq it_batch].
    rewrite (proj2 (Z.ltb_ge t batch)), andb_false_r, app_nil_r by lia.
    replace q' with q by lia. rewrite range_nil by lia. done.
  - cbn [next_loop it_seq it_batch].
    destruct (Z.ltb_spec q (db_count db)); [|exists []; rewrite app_nil_r, range_nil by lia;
      cbn; replace q' with q by lia; done].
    destruct (Z.ltb_spec t batch); [|exists []; rewrite app_nil_r, range_nil by lia;
      cbn; replace q' with q by lia; done].
    destruct (stored_at_is_Some db q Hdb) as [b Hs]; [lia|].
    pose proof (bd_count _ Hdb). rewrite (u64_small (q + 1)), (u64_small (t + 1)) by lia.
    destruct (IH (q + 1)%Z (t + 1)%Z (res ++ [b])) as (bs & Hn & Hall); [lia..|].
    replace (Z.min (db_count db) (q + 1 + (batch - (t + 1))))%Z with q' in * by lia.
    exists (b :: bs). cbn [andb]. unfold stored_at in Hs.
    destruct (block_arrival_order_cf db !! q) as [h|] eqn:Eh; [|done]. cbn in Hs.
    destruct (block_cf db !! h) as [raw|] eqn:Er; [|done]. cbn in Hs.
    cbn [unwrap mbind outcome_bind]. rewrite Er. cbn [unwrap mbind outcome_bind]. rewrite Hs.
    cbn [unwrap mbind outcome_bind]. rewrite Hn. split; [by rewrite <- app_assoc|].
    rewrite range_cons by lia. constructor; [|done]. unfold stored_at. rewrite Eh. cbn. by rewrite Er.
Qed.

Lemma next_ok db q batch :
  blockdb_inv db → (0 ≤ q ≤ db_count db)%Z → (0 < batch < 2 ^ 64)%Z →
  let q' := Z.min (db_count db) (q + batch) in
  ∃ bs, next db (mkBlocksAfter q batch) =
      Done (mkBlocksAfter q' batch, match bs with [] => None | _ => Some bs end) ∧
    Forall2 (λ i b, stored_at db i = Some b) (range q q') bs.
Proof.
  intros Hdb Hq Hb q'. unfold next. cbn [it_batch].
  destruct (next_loop_ok db (Z.to_nat batch) q batch 0 [] Hdb) as (bs & -> & Hall); [lia..|].
  rewrite Z.sub_0_r in *. by exists bs.
Qed.

Lemma batches_ok db batch n q :
  blockdb_inv db → (0 < batch < 2 ^ 64)%Z → (0 ≤ q ≤ db_count db)%Z →
  (db_count db - q ≤ Z.of_nat n)%Z →
  ∃ bs, (∀ fuel, (db_count db - q < Z.of_nat fuel)%Z →
      batches fuel db (mkBlocksAfter q batch) = Done bs) ∧
    Forall (λ b, 0 < length b ≤ Z.to_nat batch) bs ∧
    Forall2 (λ i b, stored_at db i = Some b) (range q (db_count db)) (mjoin bs).
Proof.
  intros Hdb Hb. revert q. induction n as [|n IH]; intros q Hq Hn;
    destruct (next_ok db q batch Hdb Hq Hb) as (bs & Hnext & Hall);
    set (q' := Z.min (db_count db) (q + batch)) in *;
    pose proof (Forall2_length _ _ _ Hall) as Hlen; unfold range in Hlen; rewrite length_seqZ in Hlen;
    (destruct bs as [|b bs];
      [exists []; split_and!; [|constructor|rewrite range_nil by (cbn in Hlen; lia); constructor];
        intros [|fuel] Hf; [lia|]; cbn [batches]; by rewrite Hnext|]); cbn in Hlen; [lia|].
  destruct (IH q') as (rest & Hrest & Hs & Hr); [lia..|].
  exists ((b :: bs) :: rest). split_and!; [|constructor; [cbn; lia|done]|].
  - intros [|fuel] Hf; [lia|]. cbn [batches]. rewrite Hnext. cbn [mbind outcome_bind].
    by rewrite Hrest by lia.
  - change (mjoin ((b :: bs) :: rest)) with ((b :: bs) ++ mjoin rest).
    replace (range q (db_count db)) with (range q q' ++ range q' (db_count db)); [by apply Forall2_app|].
    unfold range. replace (db_count db - q)%Z with ((q' - q) + (db_count db - q'))%Z by lia.
    rewrite seqZ_app by lia. by replace (q + (q' - q))%Z with q' by lia.
Qed.

(** *** The states of the database *)

(** What the node stores: blocks it mined, and blocks it received and could decode. *)
Definition blockdb_run (db : BlockDatabase) (entries : list (H256 * list byte)) : BlockDatabase :=
  foldl (λ db e, (blockdb_insert_encoded db e.1 e.2).1) db entries.

Definition blockdb_reachable (config : BlockchainConfig) (db : BlockDatabase) : Prop :=
  ∃ db0 entries, blockdb_new config = Done db0 ∧
    Forall (λ e, is_Some (deserialize e.2)) entries ∧
    (voter_chains config + 1 + Z.of_nat (length entries) < 2 ^ 64)%Z ∧
    db = blockdb_run db0 entries.

Lemma blockdb_reachable_inv config db :
  (0 ≤ voter_chains config < 2 ^ 16)%Z →
  length (voter_genesis config) = Z.to_nat (voter_chains config) →
  blockdb_reachable config db → blockdb_inv db.
Proof.
  intros Hc Hl (db0 & es & Hnew & Hall & Hb & ->).
  destruct (blockdb_new_inv config Hc Hl) as (db1 & Hnew1 & Hinv & Hcount).
  assert (db1 = db0) as -> by congruence. clear Hnew Hnew1.
  enough (blockdb_inv (blockdb_run db0 es) ∧
    db_count (blockdb_run db0 es) = voter_chains config + 1 + Z.of_nat (length es))%Z by tauto.
  induction es as [|e es IH] using rev_ind.
  { split; [done|]. cbn. lia. }
  apply Forall_app in Hall as [Hall He]. apply Forall_cons in He as [He _].
  rewrite length_app in Hb. cbn in Hb. destruct IH as [IHinv IHc]; [done|lia|].
  unfold blockdb_run in *. rewrite foldl_app, length_app. cbn [foldl length].
  set (db := foldl _ db0 es) in *. split.
  - apply put_block_inv; [done|lia|done].
  - cbn. rewrite u64_small; lia.
Qed.

Lemma arrival_size db :
  blockdb_inv db → Z.of_nat (size (block_arrival_order_cf db)) = db_count db.
Proof.
  intros Hdb. pose proof (bd_count db Hdb). rewrite <- size_dom.
  assert (dom (block_arrival_order_cf db) = list_to_set (C := gset Z) (range 0 (db_count db))) as ->.
  { apply set_eq. intros i. rewrite elem_of_dom, elem_of_list_to_set, elem_of_range.
    by rewrite (bd_order db Hdb). }
  rewrite size_list_to_set by apply NoDup_seqZ. unfold range. rewrite length_seqZ. lia.
Qed.
End Inv.

(** ** Properties *)

Section Properties.
Context `{Keccak, BincodeHeader, BincodeBlock, !BincodeBlockLaws}.
Context (config : BlockchainConfig) (db : BlockDatabase).
Hypothesis Hchains : (0 ≤ voter_chains config < 2 ^ 16)%Z.
Hypothesis Hgenesis : length (voter_genesis config) = Z.to_nat (voter_chains config).
Hypothesis Hreach : blockdb_reachable config db.

(** A block that is inserted can be read back under its hash, is the latest block, and has
    the number of blocks before it as its sequence number; the other blocks stay, and
    closing and loading the database afterwards recovers the same state. *)
Theorem blockdb_insert_get (b : Block) :
  (num_blocks db + 1 < 2 ^ 64)%Z →
  let '(db', seq) := blockdb_insert db b in
  seq = num_blocks db ∧ num_blocks db' = (num_blocks db + 1)%Z ∧
  blockdb_get db' (hash b) = Done (Some b) ∧ blockdb_contains db' (hash b) = true ∧
  (∀ h, h ≠ hash b → blockdb_get db' h = blockdb_get db h) ∧
  (∀ fuel, 0 < fuel → latest_block_hash fuel db' = Done (hash b)) ∧
  blockdb_load db' = db'.
Proof.
  intros Hb. pose proof (blockdb_reachable_inv config db Hchains Hgenesis Hreach) as Hinv.
  unfold num_blocks in *. pose proof (bd_count db Hinv).
  pose proof (put_block_inv db (hash b) (serialize b) Hinv) as Hinv'.
  unfold blockdb_insert. set (db' := put_block _ _ _ _) in *.
  assert (db_count db' = db_count db + 1)%Z as Hc by (cbn; rewrite u64_small; lia).
  split_and!; [done|done|..].
  - unfold blockdb_get. cbn [db' put_block block_cf]. rewrite lookup_insert_eq.
    by rewrite deserialize_serialize.
  - unfold blockdb_contains. cbn [db' put_block block_cf]. by rewrite lookup_insert_eq.
  - intros h Hh. unfold blockdb_get. cbn [db' put_block set_count block_cf].
    by rewrite lookup_insert_ne.
  - intros [|fuel] Hf; [lia|]. unfold latest_block_hash. rewrite Hc.
    replace (db_count db + 1 - 1)%Z with (db_count db) by lia. rewrite u64_small by lia.
    cbn [latest_loop db' put_block block_arrival_order_cf]. by rewrite lookup_insert_eq.
  - unfold blockdb_load. rewrite arrival_size; [|apply Hinv'; [lia|rewrite deserialize_serialize; eauto]].
    rewrite Hc, u64_small by lia. rewrite <- Hc. by destruct db'.
Qed.

(** Iterating over [blocks_after] from a stored block ends and does not panic: the batches
    are not empty and not larger than asked for, and together they are all blocks with a
    later sequence number, in the order of arrival. *)
Theorem blocks_after_complete (after : H256) (batch : Z) :
  blockdb_contains db after = true → (0 < batch < 2 ^ 64)%Z →
  ∃ seq it bs, block_sequence_number_cf db !! after = Some seq ∧
    blocks_after db after batch = Done it ∧
    (∀ fuel, (num_blocks db ≤ Z.of_nat fuel)%Z → batches fuel db it = Done bs) ∧
    Forall (λ b, 0 < length b ≤ Z.to_nat batch) bs ∧
    Forall2 (λ i b, stored_at db i = Some b) (range (seq + 1) (num_blocks db)) (mjoin bs).
Proof.
  intros Hin Hb. pose proof (blockdb_reachable_inv config db Hchains Hgenesis Hreach) as Hinv.
  unfold num_blocks. unfold blockdb_contains in Hin.
  destruct (proj1 (bd_dom db Hinv after)) as [seq Hseq]; [by destruct (block_cf db !! after)|].
  pose proof (bd_seq db Hinv _ _ Hseq) as Hi. pose proof (bd_count db Hinv).
  pose proof (proj1 (bd_order db Hinv seq) (mk_is_Some _ _ Hi)) as Hr.
  destruct (batches_ok db batch (Z.to_nat (db_count db)) (seq + 1) Hinv Hb) as (bs & Hbs & Hs & Hall); [lia..|].
  exists seq, (mkBlocksAfter (seq + 1) batch), bs. split_and!; try done.
  - unfold blocks_after. rewrite Hseq. cbn. by rewrite u64_small by lia.
  - intros fuel Hf. apply Hbs. lia.
Qed.
End Properties.

(** *** A concrete encoder, to evaluate the model on examples *)

#[global] Program Instance header_countable : Countable Header :=
  inj_countable' (λ h, (parent h, timestamp h, nonce h, content_merkle_root h, extra_content h,
      difficulty h))
    (λ '(p, t, n, r, e, d), mkHeader p t n r e d) _.
Next Obligation. by intros []. Qed.
#[global] Program Instance action_countable : Countable Action :=
  inj_countable' (λ a, match a with Create => None | Call x => Some x end)
    (λ o, match o with None => Create | Some x => Call x end) _.
Next Obligation. by intros []. Qed.
#[global] Program Instance raw_transaction_countable : Countable RawTransaction :=
  inj_countable' (λ t, (tx_nonce t, tx_gas_price t, tx_gas t, tx_action t, tx_value t, tx_data t))
    (λ '(n, p, g, a, v, d), mkRawTransaction n p g a v d) _.
Next Obligation. by intros []. Qed.
#[global] Program Instance unverified_countable : Countable UnverifiedTransaction :=
  inj_countable' (λ t, (unsigned t, ut_v t, ut_r t, ut_s t, ut_hash t))
    (λ '(u, v, r, s, h), mkUnverified u v r s h) _.
Next Obligation. by intros []. Qed.
#[global] Program Instance transaction_countable : Countable Transaction :=
  inj_countable' (λ t, (tx_transaction t, tx_sender t, tx_public t) :
      UnverifiedTransaction * list byte * option (list byte))
    (λ '(u, s, p), mkTransaction u s p) _.
Next Obligation. by intros []. Qed.
#[global] Program Instance content_countable : Countable Content :=
  inj_countable' (λ c, match c with
      | CTransaction c => inl (transactions c)
      | CProposer c => inr (inl (transaction_refs c, proposer_refs c))
      | CVoter c => inr (inr (chain_number c, voter_parent c, votes c))
      end)
    (λ x, match x with
      | inl ts => CTransaction (mkTransactionContent ts)
      | inr (inl (ts, ps)) => CProposer (mkProposerContent ts ps)
      | inr (inr (n, p, vs)) => CVoter (mkVoterContent n p vs)
      end) _.
Next Obligation. by intros [[]|[]|[]]. Qed.
#[global] Program Instance block_countable : Countable Block :=
  inj_countable' (λ b, (header b, content b, sortition_proof b)) (λ '(h, c, p), mkBlock h c p) _.
Next Obligation. by intros []. Qed.

Definition example_codec : BincodeBlock := {|
  serialize b := bits_of (encode b);
  deserialize l := decode (of_bits l);
|}.

Lemma example_codec_laws : BincodeBlockLaws (H := example_codec).
Proof. intros b. cbn. by rewrite of_bits_of, decode_encode. Qed.

Section Witnesses.
#[local] Existing Instances example_keccak example_bincode example_codec example_codec_laws.

(** The database of a node with ten voter chains after one mined block. *)
Definition example_db_block : Block :=
  Block_new (h256 1) 0 5 (h256 0) [] (CProposer (mkProposerContent [] [])) []
    DEFAULT_DIFFICULTY.
Definition example_blockdb : BlockDatabase :=
  match blockdb_new example_config with
  | Done db => (blockdb_insert db example_db_block).1
  | Panic => blockdb_open
  end.

Lemma example_blockdb_ok :
  blockdb_reachable example_config example_blockdb ∧ num_blocks example_blockdb = 12%Z.
Proof.
  destruct (blockdb_new_inv example_config) as (db & Hnew & Hinv & Hcount); [done..|].
  unfold example_blockdb. rewrite Hnew. split.
  - exists db, [(hash example_db_block, serialize example_db_block)]. split_and!; try done.
    constructor; [|constructor].
    exact (mk_is_Some _ _ (deserialize_serialize example_db_block)).
  - unfold num_blocks. cbn. rewrite Hcount. reflexivity.
Qed.

Lemma blockdb_insert_get_witness :
  let '(db', seq) := blockdb_insert example_blockdb example_db_block in
  seq = 12%Z ∧ blockdb_get db' (hash example_db_block) = Done (Some example_db_block).
Proof.
  destruct example_blockdb_ok as [Hreach Hn].
  pose proof (blockdb_insert_get example_config example_blockdb ltac:(done) ltac:(done) Hreach
    example_db_block) as Hget.
  rewrite Hn in Hget. specialize (Hget ltac:(lia)).
  destruct (blockdb_insert example_blockdb example_db_block) as [db' seq].
  destruct Hget as (Hseq & _ & Hb & _). split; [exact Hseq|exact Hb].
Defined.

Lemma blocks_after_complete_witness :
  ∃ seq it bs,
    block_sequence_number_cf example_blockdb !! proposer_genesis example_config = Some seq ∧
    blocks_after example_blockdb (proposer_genesis example_config) 4 = Done it ∧
    (∀ fuel, (num_blocks example_blockdb ≤ Z.of_nat fuel)%Z →
      batches fuel example_blockdb it = Done bs) ∧
    Forall (λ b, 0 < length b ≤ Z.to_nat 4) bs ∧
    Forall2 (λ i b, stored_at example_blockdb i = Some b)
      (range (seq + 1) (num_blocks example_blockdb)) (mjoin bs).
Proof.
  apply (blocks_after_complete example_config example_blockdb); [done|done| | |lia].
  - apply example_blockdb_ok.
  - vm_compute. reflexivity.
Defined.
End Witnesses.
