(* ===== verification/Store.v ===== *)
(** * Merge operators: the last four functions of [src/src/blockchain/mod.rs]

    The blockchain store registers merge operators with RocksDB.  A merge write only
    records an operand; the store later combines the operands of a key, in order, in any
    grouping it likes, by partial merges of neighbouring operands and full merges onto
    the stored value.  [MergeOperator] is what a column family registers, [MergeLaws] is
    what makes the value read independent of the grouping, and the instances are the
    operators of the source. *)

From S2P Require Import Prelude Hash.

Class MergeOperator (V Op : Type) := {
  full_merge : option V → list Op → Outcome V;
  partial_merge : list Op → Op;
}.

Class MergeLaws (V Op : Type) `{!MergeOperator V Op} : Prop := {
  full_merge_app existing ops1 ops2 :
    full_merge existing (ops1 ++ ops2) =
    full_merge existing ops1 ≫= λ v, full_merge (Some v) ops2;
  full_merge_partial existing ops :
    ops ≠ [] → full_merge existing [partial_merge ops] = full_merge existing ops;
}.

(** ** [u64_plus_merge] *)

Definition u64_plus_merge (existing : option Z) (operands : list Z) : Z :=
  foldl (λ existing to_add, u64 (existing + to_add)) (default 0%Z existing) operands.

(** ** [h256_vec_append_merge] *)

Definition push_new (existing : list H256) (new_hash : H256) : list H256 :=
  if bool_decide (new_hash ∈ existing) then existing else existing ++ [new_hash].

Definition h256_vec_append_merge (existing : option (list H256))
    (operands : list (list H256)) : list H256 :=
  foldl (λ existing new_hashes, foldl push_new existing new_hashes)
    (default [] existing) operands.

(** ** [vote_vec_full_merge] and [vote_vec_partial_merge] *)

Definition VoteOp : Type := bool * Z * Z.

(** [Vec::swap_remove(p)]: the last element takes the place of the removed one. *)
Definition swap_remove {A} (l : list A) (p : nat) : list A :=
  match last l with
  | Some x => take (length l - 1) (<[p := x]> l)
  | None => l
  end.

Definition vote_vec_step (existing : list (Z * Z)) (operation : VoteOp) :
    Outcome (list (Z * Z)) :=
  let vote := (operation.1.2, operation.2) in
  match operation.1.1 with
  | true =>
      Done (if bool_decide (vote ∈ existing) then existing else existing ++ [vote])
  | false =>
      match list_find (vote =.) existing with
      | Some (p, _) => Done (swap_remove existing p)
      | None => Panic
      end
  end.

#[global] Arguments vote_vec_step : simpl never.

Definition vote_vec_full_merge (existing : option (list (Z * Z)))
    (operands : list (list VoteOp)) : Outcome (list (Z * Z)) :=
  foldM (λ existing operations, foldM vote_vec_step existing operations)
    (default [] existing) operands.

Definition vote_vec_partial_merge (operands : list (list VoteOp)) : list VoteOp :=
  foldl (λ operations x, operations ++ x) [] operands.

(** ** The registered operators

    An operator registered without a partial merge is also used as its own partial
    merge, with no existing value. *)

#[global] Instance u64_plus_operator : MergeOperator Z Z := {|
  full_merge existing ops := Done (u64_plus_merge existing ops);
  partial_merge ops := u64_plus_merge None ops;
|}.
#[global] Instance h256_vec_operator : MergeOperator (list H256) (list H256) := {|
  full_merge existing ops := Done (h256_vec_append_merge existing ops);
  partial_merge ops := h256_vec_append_merge None ops;
|}.
#[global] Instance vote_vec_operator : MergeOperator (list (Z * Z)) (list VoteOp) := {|
  full_merge := vote_vec_full_merge;
  partial_merge := vote_vec_partial_merge;
|}.

(** The operands a store may hold for a key to which [ops] were written: each write as
    it is, or neighbours combined by partial merges, again and again. *)
Inductive combined {V Op} `{!MergeOperator V Op} : list Op → Op → Prop :=
| combined_one op : combined [op] op
| combined_partial groups ops :
    ops ≠ [] → combined_all groups ops → combined (mjoin groups) (partial_merge ops)
with combined_all {V Op} `{!MergeOperator V Op} : list (list Op) → list Op → Prop :=
| combined_nil : combined_all [] []
| combined_cons group op groups ops :
    combined group op → combined_all groups ops →
    combined_all (group :: groups) (op :: ops).

Scheme combined_mut := Induction for combined Sort Prop
with combined_all_mut := Induction for combined_all Sort Prop.

(** ** Lemmas *)

Section Merge.
Context {V Op : Type} `{MergeLaws V Op}.

Lemma full_merge_combined groups ops :
  combined_all groups ops →
  ∀ existing, full_merge existing ops = full_merge existing (mjoin groups).
Proof.
  revert groups ops.
  apply (combined_all_mut V Op _
    (λ group op _, ∀ existing, full_merge existing [op] = full_merge existing group)
    (λ groups ops _, ∀ existing, full_merge existing ops = full_merge existing (mjoin groups))).
  - done.
  - intros groups ops Hne Hall IH existing. by rewrite full_merge_partial.
  - done.
  - intros group op groups ops _ IH1 _ IH2 existing. simpl.
    change (op :: ops) with ([op] ++ ops). rewrite !full_merge_app, IH1.
    destruct (full_merge existing group); simpl; [apply IH2|done].
Qed.
End Merge.

Lemma u64_add_l a b : u64 (u64 a + b)%Z = u64 (a + b)%Z.
Proof. unfold u64, wrap. by rewrite Zplus_mod_idemp_l. Qed.
Lemma u64_add_r a b : u64 (a + u64 b)%Z = u64 (a + b)%Z.
Proof. unfold u64, wrap. by rewrite Zplus_mod_idemp_r. Qed.

Lemma u64_add_mod a b : u64 (u64 a + u64 b)%Z = u64 (a + b)%Z.
Proof. unfold u64, wrap. by rewrite <- Zplus_mod. Qed.

Lemma foldl_u64_sum ops a :
  ops ≠ [] →
  foldl (λ x y, u64 (x + y)%Z) a ops = u64 (a + foldr Z.add 0 ops)%Z.
Proof.
  revert a. induction ops as [|o ops IH]; intros a Hne; [done|].
  destruct ops as [|o' ops]; [simpl; f_equal; lia|].
  change (foldl (λ x y, u64 (x + y)%Z) (u64 (a + o)) (o' :: ops) =
    u64 (a + (o + foldr Z.add 0 (o' :: ops)))%Z).
  rewrite IH, u64_add_l by done. f_equal. lia.
Qed.

#[global] Instance u64_plus_laws : MergeLaws Z Z.
Proof.
  split.
  - intros. simpl. unfold u64_plus_merge. by rewrite foldl_app.
  - intros existing ops Hne. simpl. unfold u64_plus_merge. simpl. f_equal.
    rewrite !foldl_u64_sum by done. rewrite u64_add_r. f_equal; lia.
Qed.

(** Appending without duplicates: what is appended are the new elements, in order. *)
Lemma elem_of_push_new h l x : x ∈ foldl push_new l h ↔ x ∈ l ∨ x ∈ h.
Proof.
  revert l. induction h as [|a h IH]; intros l; simpl; [set_solver|].
  rewrite IH. unfold push_new. case_bool_decide; set_solver.
Qed.

Lemma push_new_NoDup h l : NoDup l → NoDup (foldl push_new l h).
Proof.
  revert l. induction h as [|a h IH]; intros l Hl; simpl; [done|]. apply IH.
  unfold push_new. case_bool_decide; [done|]. apply NoDup_app. split_and!; [done| |].
  - intros x Hx ->%list_elem_of_singleton. done.
  - apply NoDup_singleton.
Qed.

Lemma foldl_push_new_push_new l r a :
  foldl push_new l (push_new r a) = push_new (foldl push_new l r) a.
Proof.
  unfold push_new at 2 3. case_bool_decide.
  - rewrite bool_decide_true; [done|]. rewrite elem_of_push_new. by right.
  - by rewrite foldl_app.
Qed.

Lemma foldl_push_new_foldl l r h :
  foldl push_new l (foldl push_new r h) = foldl push_new (foldl push_new l r) h.
Proof.
  revert r. induction h as [|a h IH]; intros r; simpl; [done|].
  by rewrite IH, foldl_push_new_push_new.
Qed.

Lemma h256_vec_append_concat existing ops :
  h256_vec_append_merge existing ops = foldl push_new (default [] existing) (mjoin ops).
Proof.
  unfold h256_vec_append_merge. generalize (default [] existing). clear existing.
  induction ops as [|o ops IH]; intros l; simpl; [done|]. by rewrite foldl_app, IH.
Qed.

#[global] Instance h256_vec_laws : MergeLaws (list H256) (list H256).
Proof.
  split.
  - intros. simpl. unfold h256_vec_append_merge. by rewrite foldl_app.
  - intros existing ops Hne. simpl. f_equal. rewrite !h256_vec_append_concat. simpl.
    by rewrite app_nil_r, foldl_push_new_foldl.
Qed.

Lemma vote_vec_partial_concat ops acc :
  foldl (λ operations x, operations ++ x) acc ops = acc ++ mjoin (ops : list (list VoteOp)).
Proof.
  revert acc. induction ops as [|o ops IH]; intros acc; simpl.
  - by rewrite app_nil_r.
  - by rewrite IH, app_assoc.
Qed.

Lemma vote_vec_full_concat existing ops :
  vote_vec_full_merge existing ops = foldM vote_vec_step (default [] existing) (mjoin ops).
Proof.
  unfold vote_vec_full_merge. generalize (default [] existing). clear existing.
  induction ops as [|o ops IH]; intros l; simpl; [done|].
  rewrite foldM_app. destruct (foldM vote_vec_step l o); simpl; [apply IH|done].
Qed.

#[global] Instance vote_vec_laws : MergeLaws (list (Z * Z)) (list VoteOp).
Proof.
  split.
  - intros. simpl. unfold vote_vec_full_merge. by rewrite foldM_app.
  - intros existing ops Hne. simpl. rewrite !vote_vec_full_concat. simpl.
    unfold vote_vec_partial_merge. by rewrite app_nil_r, vote_vec_partial_concat.
Qed.

(** *** Sets of votes *)

Lemma swap_remove_perm {A} (l : list A) p x :
  l !! p = Some x → x :: swap_remove l p ≡ₚ l.
Proof.
  destruct l as [|y l _] using rev_ind; [done|]. intros Hp.
  unfold swap_remove. rewrite last_snoc, length_app. simpl.
  replace (length l + 1 - 1) with (length l) by lia.
  destruct (decide (p < length l)) as [Hlt|Hge].
  - rewrite lookup_app_l in Hp by done. rewrite insert_app_l by done.
    rewrite take_app_length' by (by rewrite length_insert).
    rewrite <- (take_drop_middle l p x Hp) at 2.
    rewrite insert_take_drop by done. rewrite <- !app_assoc. simpl.
    rewrite <- (Permutation_middle (take p l) (drop (S p) l ++ [y]) x). constructor.
    apply Permutation_app_head. by rewrite Permutation_app_comm.
  - assert (p = length l) as -> by (apply lookup_lt_Some in Hp; rewrite length_app in Hp; simpl in *; lia).
    rewrite lookup_app_r, Nat.sub_diag in Hp by lia. injection Hp as ->.
    rewrite insert_app_r_alt, Nat.sub_diag by lia. simpl.
    rewrite take_app_length. by rewrite Permutation_app_comm.
Qed.

(** One operation on a duplicate-free list of votes. *)
Lemma vote_vec_add_step l c v :
  (c, v) ∉ l → vote_vec_step l (true, c, v) = Done (l ++ [(c, v)]).
Proof. intros Hn. unfold vote_vec_step. simpl. by rewrite bool_decide_false. Qed.

Lemma vote_vec_remove_step l c v :
  (c, v) ∈ l →
  ∃ l', vote_vec_step l (false, c, v) = Done l' ∧ (c, v) :: l' ≡ₚ l.
Proof.
  intros Hin. unfold vote_vec_step. simpl.
  destruct (list_find_elem_of ((c, v) =.) l (c, v)) as ([p y] & Hf); [done..|].
  rewrite Hf. apply list_find_Some in Hf as (Hp & <- & _).
  eexists. split; [done|]. by apply swap_remove_perm.
Qed.

Lemma vote_vec_remove_absent l c v :
  (c, v) ∉ l → vote_vec_step l (false, c, v) = Panic.
Proof.
  intros Hn. unfold vote_vec_step. simpl.
  destruct (list_find _ l) as [[p y]|] eqn:Hf; [|done].
  apply list_find_Some in Hf as (Hp & <- & _). destruct Hn. by eapply list_elem_of_lookup_2.
Qed.

(** ** Properties *)

(** the value read from a merged column family does not depend on how the store
    groups the operands: for each of the three operators the source registers, combining
    the operands written to a key by partial merges, in any nesting, gives the value of
    a full merge of all of them, panics included. *)
Theorem merge_grouping_irrelevant :
  (∀ groups ops existing, combined_all (V := Z) groups ops →
     full_merge existing ops = full_merge (V := Z) existing (mjoin groups)) ∧
  (∀ groups ops existing, combined_all (V := list H256) groups ops →
     full_merge existing ops = full_merge (V := list H256) existing (mjoin groups)) ∧
  (∀ groups ops existing, combined_all (V := list (Z * Z)) groups ops →
     full_merge existing ops = full_merge (V := list (Z * Z)) existing (mjoin groups)).
Proof. split_and!; intros; by apply full_merge_combined. Qed.

(** Removing a vote that was added brings the vote list back, as a set: on a list
    without duplicates, an addition followed by the removal of the same new vote never
    panics and yields a permutation of the list; a removal of a vote that is not there
    always panics. *)
Theorem vote_vec_add_remove (l : list (Z * Z)) c v :
  (c, v) ∉ l →
  (∃ l', vote_vec_full_merge (Some l) [[(true, c, v)]; [(false, c, v)]] = Done l' ∧ l' ≡ₚ l) ∧
  vote_vec_full_merge (Some l) [[(false, c, v)]] = Panic.
Proof.
  intros Hn. rewrite !vote_vec_full_concat. simpl.
  rewrite (vote_vec_remove_absent l), bool_decide_false by done. split; [|done].
  destruct (vote_vec_remove_step (l ++ [(c, v)]) c v) as (l' & Hl' & Hp); [set_solver|].
  exists l'. rewrite bind_done. split; [by exists l'|].
  apply (Permutation_cons_inv (a := (c, v))). rewrite Hp. by rewrite Permutation_app_comm.
Qed.

Lemma vote_vec_add_remove_witness :
  (∃ l', vote_vec_full_merge (Some [(1, 2); (3, 4)]%Z) [[(true, 5, 6)%Z]; [(false, 5, 6)%Z]]
    = Done l' ∧ l' ≡ₚ [(1, 2); (3, 4)]%Z) ∧
  vote_vec_full_merge (Some [(1, 2); (3, 4)]%Z) [[(false, 5, 6)%Z]] = Panic.
Proof. apply vote_vec_add_remove. by apply (bool_decide_unpack _). Defined.
