(* ===== verification/Chain.v ===== *)
(** * The block structure: [src/src/blockchain/mod.rs]

    The store of the blockchain, its initialisation, the insertion of blocks and the
    queries on the block structure.  The ledger is in [Ledger], the choice of leaders in
    [Leader].

    RocksDB is modelled by what the code uses of it.  A column family is a finite map
    over typed keys and values; a [WriteBatch] is the list of its operations, applied in
    order by [db.write]; a merge runs the merge operator of the column family at once,
    which [Store.merge_grouping_irrelevant] justifies.  Errors of the storage device are
    not modelled, so a function of type [Result<T>] of the source returns its value. *)

From S2P Require Import Prelude Hash Config Transaction Block Store.

(** ** The store *)

Record Database := mkDatabase {
  proposer_node_level_map : gmap H256 Z; (* hash to node level *)
  voter_node_level_map : gmap H256 Z; (* hash to node level *)
  voter_node_chain_map : gmap H256 Z; (* hash to chain number *)
  voter_tree_level_count_map : gmap (Z * Z) Z; (* chain number and level to number of blocks *)
  proposer_tree_level_map : gmap Z (list H256); (* level to hashes of blocks *)
  voter_node_voted_level_map : gmap H256 Z; (* hash to maximum voted level *)
  proposer_node_vote_map : gmap H256 (list (Z * Z)); (* hash to chain and level of main chain votes *)
  proposer_leader_sequence_map : gmap Z H256; (* level to hash of leader block *)
  proposer_ledger_order_map : gmap Z (list H256); (* level to the blocks it confirms, in order *)
  proposer_vote_count_map : gmap H256 Z; (* number of all votes on a block *)
  parent_neighbor_map : gmap H256 H256; (* the proposer parent of a block *)
  vote_neighbor_map : gmap H256 (list H256); (* the votes of a voter block *)
  voter_parent_neighbor_map : gmap H256 H256; (* the voter parent of a block *)
  transaction_ref_neighbor_map : gmap H256 (list H256); (* transaction blocks a proposer block refers to *)
  proposer_ref_neighbor_map : gmap H256 (list H256); (* proposer blocks a proposer block refers to *)
}.

(** A column family handle: how to read and replace the map of a column family. *)
Record CF (K V : Type) `{Countable K} := mkCF {
  cf_get : Database → gmap K V;
  cf_set : gmap K V → Database → Database;
}.
Arguments mkCF {K V _ _} _ _.
Arguments cf_get {K V _ _} _ _.
Arguments cf_set {K V _ _} _ _ _.

Definition proposer_node_level_cf : CF H256 Z :=
  mkCF proposer_node_level_map (λ m d,
    mkDatabase m (voter_node_level_map d) (voter_node_chain_map d)
      (voter_tree_level_count_map d) (proposer_tree_level_map d)
      (voter_node_voted_level_map d) (proposer_node_vote_map d)
      (proposer_leader_sequence_map d) (proposer_ledger_order_map d)
      (proposer_vote_count_map d) (parent_neighbor_map d) (vote_neighbor_map d)
      (voter_parent_neighbor_map d) (transaction_ref_neighbor_map d)
      (proposer_ref_neighbor_map d)).
Definition voter_node_level_cf : CF H256 Z :=
  mkCF voter_node_level_map (λ m d,
    mkDatabase (proposer_node_level_map d) m (voter_node_chain_map d)
      (voter_tree_level_count_map d) (proposer_tree_level_map d)
      (voter_node_voted_level_map d) (proposer_node_vote_map d)
      (proposer_leader_sequence_map d) (proposer_ledger_order_map d)
      (proposer_vote_count_map d) (parent_neighbor_map d) (vote_neighbor_map d)
      (voter_parent_neighbor_map d) (transaction_ref_neighbor_map d)
      (proposer_ref_neighbor_map d)).
Definition voter_node_chain_cf : CF H256 Z :=
  mkCF voter_node_chain_map (λ m d,
    mkDatabase (proposer_node_level_map d) (voter_node_level_map d) m
      (voter_tree_level_count_map d) (proposer_tree_level_map d)
      (voter_node_voted_level_map d) (proposer_node_vote_map d)
      (proposer_leader_sequence_map d) (proposer_ledger_order_map d)
      (proposer_vote_count_map d) (parent_neighbor_map d) (vote_neighbor_map d)
      (voter_parent_neighbor_map d) (transaction_ref_neighbor_map d)
      (proposer_ref_neighbor_map d)).
Definition voter_tree_level_count_cf : CF (Z * Z) Z :=
  mkCF voter_tree_level_count_map (λ m d,
    mkDatabase (proposer_node_level_map d) (voter_node_level_map d) (voter_node_chain_map d)
      m (proposer_tree_level_map d) (voter_node_voted_level_map d)
      (proposer_node_vote_map d) (proposer_leader_sequence_map d)
      (proposer_ledger_order_map d) (proposer_vote_count_map d) (parent_neighbor_map d)
      (vote_neighbor_map d) (voter_parent_neighbor_map d) (transaction_ref_neighbor_map d)
      (proposer_ref_neighbor_map d)).
Definition proposer_tree_level_cf : CF Z (list H256) :=
  mkCF proposer_tree_level_map (λ m d,
    mkDatabase (proposer_node_level_map d) (voter_node_level_map d) (voter_node_chain_map d)
      (voter_tree_level_count_map d) m (voter_node_voted_level_map d)
      (proposer_node_vote_map d) (proposer_leader_sequence_map d)
      (proposer_ledger_order_map d) (proposer_vote_count_map d) (parent_neighbor_map d)
      (vote_neighbor_map d) (voter_parent_neighbor_map d) (transaction_ref_neighbor_map d)
      (proposer_ref_neighbor_map d)).
Definition voter_node_voted_level_cf : CF H256 Z :=
  mkCF voter_node_voted_level_map (λ m d,
    mkDatabase (proposer_node_level_map d) (voter_node_level_map d) (voter_node_chain_map d)
      (voter_tree_level_count_map d) (proposer_tree_level_map d) m
      (proposer_node_vote_map d) (proposer_leader_sequence_map d)
      (proposer_ledger_order_map d) (proposer_vote_count_map d) (parent_neighbor_map d)
      (vote_neighbor_map d) (voter_parent_neighbor_map d) (transaction_ref_neighbor_map d)
      (proposer_ref_neighbor_map d)).
Definition proposer_node_vote_cf : CF H256 (list (Z * Z)) :=
  mkCF proposer_node_vote_map (λ m d,
    mkDatabase (proposer_node_level_map d) (voter_node_level_map d) (voter_node_chain_map d)
      (voter_tree_level_count_map d) (proposer_tree_level_map d)
      (voter_node_voted_level_map d) m (proposer_leader_sequence_map d)
      (proposer_ledger_order_map d) (proposer_vote_count_map d) (parent_neighbor_map d)
      (vote_neighbor_map d) (voter_parent_neighbor_map d) (transaction_ref_neighbor_map d)
      (proposer_ref_neighbor_map d)).
Definition proposer_leader_sequence_cf : CF Z H256 :=
  mkCF proposer_leader_sequence_map (λ m d,
    mkDatabase (proposer_node_level_map d) (voter_node_level_map d) (voter_node_chain_map d)
      (voter_tree_level_count_map d) (proposer_tree_level_map d)
      (voter_node_voted_level_map d) (proposer_node_vote_map d) m
      (proposer_ledger_order_map d) (proposer_vote_count_map d) (parent_neighbor_map d)
      (vote_neighbor_map d) (voter_parent_neighbor_map d) (transaction_ref_neighbor_map d)
      (proposer_ref_neighbor_map d)).
Definition proposer_ledger_order_cf : CF Z (list H256) :=
  mkCF proposer_ledger_order_map (λ m d,
    mkDatabase (proposer_node_level_map d) (voter_node_level_map d) (voter_node_chain_map d)
      (voter_tree_level_count_map d) (proposer_tree_level_map d)
      (voter_node_voted_level_map d) (proposer_node_vote_map d)
      (proposer_leader_sequence_map d) m (proposer_vote_count_map d) (parent_neighbor_map d)
      (vote_neighbor_map d) (voter_parent_neighbor_map d) (transaction_ref_neighbor_map d)
      (proposer_ref_neighbor_map d)).
Definition proposer_vote_count_cf : CF H256 Z :=
  mkCF proposer_vote_count_map (λ m d,
    mkDatabase (proposer_node_level_map d) (voter_node_level_map d) (voter_node_chain_map d)
      (voter_tree_level_count_map d) (proposer_tree_level_map d)
      (voter_node_voted_level_map d) (proposer_node_vote_map d)
      (proposer_leader_sequence_map d) (proposer_ledger_order_map d) m
      (parent_neighbor_map d) (vote_neighbor_map d) (voter_parent_neighbor_map d)
      (transaction_ref_neighbor_map d) (proposer_ref_neighbor_map d)).
Definition parent_neighbor_cf : CF H256 H256 :=
  mkCF parent_neighbor_map (λ m d,
    mkDatabase (proposer_node_level_map d) (voter_node_level_map d) (voter_node_chain_map d)
      (voter_tree_level_count_map d) (proposer_tree_level_map d)
      (voter_node_voted_level_map d) (proposer_node_vote_map d)
      (proposer_leader_sequence_map d) (proposer_ledger_order_map d)
      (proposer_vote_count_map d) m (vote_neighbor_map d) (voter_parent_neighbor_map d)
      (transaction_ref_neighbor_map d) (proposer_ref_neighbor_map d)).
Definition vote_neighbor_cf : CF H256 (list H256) :=
  mkCF vote_neighbor_map (λ m d,
    mkDatabase (proposer_node_level_map d) (voter_node_level_map d) (voter_node_chain_map d)
      (voter_tree_level_count_map d) (proposer_tree_level_map d)
      (voter_node_voted_level_map d) (proposer_node_vote_map d)
      (proposer_leader_sequence_map d) (proposer_ledger_order_map d)
      (proposer_vote_count_map d) (parent_neighbor_map d) m (voter_parent_neighbor_map d)
      (transaction_ref_neighbor_map d) (proposer_ref_neighbor_map d)).
Definition voter_parent_neighbor_cf : CF H256 H256 :=
  mkCF voter_parent_neighbor_map (λ m d,
    mkDatabase (proposer_node_level_map d) (voter_node_level_map d) (voter_node_chain_map d)
      (voter_tree_level_count_map d) (proposer_tree_level_map d)
      (voter_node_voted_level_map d) (proposer_node_vote_map d)
      (proposer_leader_sequence_map d) (proposer_ledger_order_map d)
      (proposer_vote_count_map d) (parent_neighbor_map d) (vote_neighbor_map d) m
      (transaction_ref_neighbor_map d) (proposer_ref_neighbor_map d)).
Definition transaction_ref_neighbor_cf : CF H256 (list H256) :=
  mkCF transaction_ref_neighbor_map (λ m d,
    mkDatabase (proposer_node_level_map d) (voter_node_level_map d) (voter_node_chain_map d)
      (voter_tree_level_count_map d) (proposer_tree_level_map d)
      (voter_node_voted_level_map d) (proposer_node_vote_map d)
      (proposer_leader_sequence_map d) (proposer_ledger_order_map d)
      (proposer_vote_count_map d) (parent_neighbor_map d) (vote_neighbor_map d)
      (voter_parent_neighbor_map d) m (proposer_ref_neighbor_map d)).
Definition proposer_ref_neighbor_cf : CF H256 (list H256) :=
  mkCF proposer_ref_neighbor_map (λ m d,
    mkDatabase (proposer_node_level_map d) (voter_node_level_map d) (voter_node_chain_map d)
      (voter_tree_level_count_map d) (proposer_tree_level_map d)
      (voter_node_voted_level_map d) (proposer_node_vote_map d)
      (proposer_leader_sequence_map d) (proposer_ledger_order_map d)
      (proposer_vote_count_map d) (parent_neighbor_map d) (vote_neighbor_map d)
      (voter_parent_neighbor_map d) (transaction_ref_neighbor_map d) m).

Section CF.
Context {K V : Type} `{Countable K}.
Implicit Types cf : CF K V.

(** [db.get_pinned_cf(cf, key)]. *)
Definition get_cf cf (d : Database) (k : K) : option V := cf_get cf d !! k.

(** The entries of a write batch. *)
Definition WriteOp := Database → Outcome Database.
Definition put_cf cf (k : K) (v : V) : WriteOp := λ d,
  Done (cf_set cf (<[k := v]> (cf_get cf d)) d).
Definition delete_cf cf (k : K) : WriteOp := λ d,
  Done (cf_set cf (delete k (cf_get cf d)) d).
Definition merge_cf {Op} `{!MergeOperator V Op} cf (k : K) (op : Op) : WriteOp := λ d,
  v ← full_merge (cf_get cf d !! k) [op];
  Done (cf_set cf (<[k := v]> (cf_get cf d)) d).
End CF.

(** [db.write(wb)]. *)
Definition write (d : Database) (wb : list WriteOp) : Outcome Database :=
  foldM (λ d op, op d) d wb.

Definition empty_database : Database :=
  mkDatabase ∅ ∅ ∅ ∅ ∅ ∅ ∅ ∅ ∅ ∅ ∅ ∅ ∅ ∅ ∅.

(** ** The state *)

Record BlockChain := mkBlockChain {
  db : Database;
  proposer_best_level : Z;
  voter_best : list (H256 * Z);
  unreferred_transactions : gmap H256 Z;
  unreferred_proposers : gmap H256 Z;
  unconfirmed_proposers : gset H256;
  proposer_ledger_tip : Z;
  voter_ledger_tips : list H256;
  config : BlockchainConfig;
}.

Definition set_db (d : Database) (s : BlockChain) : BlockChain :=
  mkBlockChain d (proposer_best_level s) (voter_best s) (unreferred_transactions s)
    (unreferred_proposers s) (unconfirmed_proposers s) (proposer_ledger_tip s)
    (voter_ledger_tips s) (config s).
Definition set_proposer_best_level (l : Z) (s : BlockChain) : BlockChain :=
  mkBlockChain (db s) l (voter_best s) (unreferred_transactions s)
    (unreferred_proposers s) (unconfirmed_proposers s) (proposer_ledger_tip s)
    (voter_ledger_tips s) (config s).
Definition set_voter_best (v : list (H256 * Z)) (s : BlockChain) : BlockChain :=
  mkBlockChain (db s) (proposer_best_level s) v (unreferred_transactions s)
    (unreferred_proposers s) (unconfirmed_proposers s) (proposer_ledger_tip s)
    (voter_ledger_tips s) (config s).
Definition set_unreferred_transactions (m : gmap H256 Z) (s : BlockChain) : BlockChain :=
  mkBlockChain (db s) (proposer_best_level s) (voter_best s) m
    (unreferred_proposers s) (unconfirmed_proposers s) (proposer_ledger_tip s)
    (voter_ledger_tips s) (config s).
Definition set_unreferred_proposers (m : gmap H256 Z) (s : BlockChain) : BlockChain :=
  mkBlockChain (db s) (proposer_best_level s) (voter_best s) (unreferred_transactions s)
    m (unconfirmed_proposers s) (proposer_ledger_tip s)
    (voter_ledger_tips s) (config s).
Definition set_unconfirmed_proposers (u : gset H256) (s : BlockChain) : BlockChain :=
  mkBlockChain (db s) (proposer_best_level s) (voter_best s) (unreferred_transactions s)
    (unreferred_proposers s) u (proposer_ledger_tip s)
    (voter_ledger_tips s) (config s).
Definition set_proposer_ledger_tip (l : Z) (s : BlockChain) : BlockChain :=
  mkBlockChain (db s) (proposer_best_level s) (voter_best s) (unreferred_transactions s)
    (unreferred_proposers s) (unconfirmed_proposers s) l
    (voter_ledger_tips s) (config s).
Definition set_voter_ledger_tips (l : list H256) (s : BlockChain) : BlockChain :=
  mkBlockChain (db s) (proposer_best_level s) (voter_best s) (unreferred_transactions s)
    (unreferred_proposers s) (unconfirmed_proposers s) (proposer_ledger_tip s)
    l (config s).

(** ** Initialisation *)

(** [BlockChain::open] on an empty database. *)
Definition open (config : BlockchainConfig) : BlockChain :=
  mkBlockChain empty_database 0
    (replicate (Z.to_nat (voter_chains config)) (h256_default, 0%Z)) ∅ ∅ ∅ 0
    (replicate (Z.to_nat (voter_chains config)) h256_default) config.

(** The batch of one voter genesis block. *)
Definition voter_genesis_ops (proposer_genesis genesis : H256) (chain_num : Z) :
    list WriteOp :=
  [put_cf parent_neighbor_cf genesis proposer_genesis;
   merge_cf vote_neighbor_cf genesis [proposer_genesis];
   merge_cf proposer_vote_count_cf proposer_genesis 1%Z;
   merge_cf proposer_node_vote_cf proposer_genesis [(true, chain_num, 0%Z)];
   put_cf voter_node_level_cf genesis 0%Z;
   put_cf voter_node_voted_level_cf genesis 0%Z;
   put_cf voter_node_chain_cf genesis chain_num;
   merge_cf voter_tree_level_count_cf (chain_num, 0%Z) 1%Z].

(** The body of the loop over the voter chains: the batch, the best block and the
    ledger tip of the chain. *)
Definition init_voter_chain (config : BlockchainConfig)
    (acc : list WriteOp * list (H256 * Z) * list H256) (chain_num : Z) :
    Outcome (list WriteOp * list (H256 * Z) * list H256) :=
  let '(wb, best, tips) := acc in
  genesis ← unwrap (voter_genesis config !! Z.to_nat chain_num);
  old ← unwrap (best !! Z.to_nat chain_num);
  _ ← unwrap (tips !! Z.to_nat chain_num);
  Done (wb ++ voter_genesis_ops (proposer_genesis config) genesis chain_num,
        <[Z.to_nat chain_num := (genesis, old.2)]> best,
        <[Z.to_nat chain_num := genesis]> tips).

(** [BlockChain::new]. *)
Definition BlockChain_new (config : BlockchainConfig) : Outcome BlockChain :=
  let s := open config in
  let genesis := proposer_genesis config in
  let wb :=
    [put_cf proposer_node_level_cf genesis 0%Z;
     merge_cf proposer_tree_level_cf 0%Z [genesis];
     put_cf proposer_leader_sequence_cf 0%Z genesis;
     put_cf proposer_ledger_order_cf 0%Z [genesis];
     put_cf proposer_ref_neighbor_cf genesis [];
     put_cf transaction_ref_neighbor_cf genesis []] in
  let s := set_unreferred_proposers (<[genesis := 0%Z]> (unreferred_proposers s)) s in
  '(wb, best, tips) ← foldM (init_voter_chain config)
    (wb, voter_best s, voter_ledger_tips s) (range 0 (voter_chains config));
  d ← write (db s) wb;
  Done (set_db d (set_voter_best best (set_voter_ledger_tips tips s))).

(** ** Insertion *)

Section Insert.
Context `{Keccak, BincodeHeader}.

Definition insert_proposer (s : BlockChain) (block : Block) (content : ProposerContent)
    (wb : list WriteOp) : Outcome BlockChain :=
  let block_hash := hash block in
  let parent_hash := parent (header block) in
  let refed_proposer := parent_hash :: proposer_refs content in
  let wb := wb ++
    [put_cf proposer_ref_neighbor_cf block_hash refed_proposer;
     put_cf transaction_ref_neighbor_cf block_hash (transaction_refs content)] in
  parent_level ← unwrap (get_cf proposer_node_level_cf (db s) parent_hash);
  let self_level := u64 (parent_level + 1) in
  let wb := wb ++
    [put_cf proposer_node_level_cf block_hash self_level;
     merge_cf proposer_tree_level_cf self_level [block_hash]] in
  let s := set_unreferred_proposers
    (<[block_hash := timestamp (header block)]> (unreferred_proposers s)) s in
  let s := set_unconfirmed_proposers ({[block_hash]} ∪ unconfirmed_proposers s) s in
  d ← write (db s) wb;
  let s := set_db d s in
  let s := if (proposer_best_level s <? self_level)%Z
           then set_proposer_best_level self_level s else s in
  let unreferred := foldl (λ m r, delete r m) (unreferred_proposers s)
    (proposer_refs content) in
  let s := set_unreferred_proposers (delete parent_hash unreferred) s in
  Done (set_unreferred_transactions
    (foldl (λ m r, delete r m) (unreferred_transactions s) (transaction_refs content)) s).

Definition insert_voter (s : BlockChain) (block : Block) (content : VoterContent)
    (wb : list WriteOp) : Outcome BlockChain :=
  let block_hash := hash block in
  let parent_hash := parent (header block) in
  let voter_parent_hash := voter_parent content in
  let wb := wb ++ [put_cf voter_parent_neighbor_cf block_hash voter_parent_hash] in
  voter_parent_level ← unwrap (get_cf voter_node_level_cf (db s) voter_parent_hash);
  voter_parent_chain ← unwrap (get_cf voter_node_chain_cf (db s) voter_parent_hash);
  let self_level := u64 (voter_parent_level + 1) in
  let self_chain := voter_parent_chain in
  let wb := wb ++
    [put_cf voter_node_level_cf block_hash self_level;
     put_cf voter_node_chain_cf block_hash self_chain;
     merge_cf voter_tree_level_count_cf (self_chain, self_level) 1%Z] ++
    ((λ proposer_hash, merge_cf proposer_vote_count_cf proposer_hash 1%Z) <$>
      votes content) ++
    [put_cf vote_neighbor_cf block_hash (votes content)] in
  proposer_parent_level ← unwrap (get_cf proposer_node_level_cf (db s) parent_hash);
  let wb := wb ++ [put_cf voter_node_voted_level_cf block_hash proposer_parent_level] in
  d ← write (db s) wb;
  let s := set_db d s in
  best ← unwrap (voter_best s !! Z.to_nat self_chain);
  Done (if (best.2 <? self_level)%Z
        then set_voter_best
               (<[Z.to_nat self_chain := (block_hash, self_level)]> (voter_best s)) s
        else s).

Definition insert_transaction (s : BlockChain) (block : Block) (wb : list WriteOp) :
    Outcome BlockChain :=
  let s := set_unreferred_transactions
    (<[hash block := timestamp (header block)]> (unreferred_transactions s)) s in
  d ← write (db s) wb;
  Done (set_db d s).

(** [BlockChain::insert_block]. *)
Definition insert_block (s : BlockChain) (block : Block) : Outcome BlockChain :=
  let wb := [put_cf parent_neighbor_cf (hash block) (parent (header block))] in
  match content block with
  | CProposer content => insert_proposer s block content wb
  | CVoter content => insert_voter s block content wb
  | CTransaction _ => insert_transaction s block wb
  end.
End Insert.

(** ** Queries *)

(** [Vec::sort_unstable_by_key(|x| x.1)] on pairs. *)
Definition by_timestamp (x y : H256 * Z) : Prop := (x.2 ≤ y.2)%Z.
#[global] Instance by_timestamp_dec : RelDecision by_timestamp :=
  λ x y, decide (x.2 ≤ y.2)%Z.

Section Queries.
Context (s : BlockChain).

Definition best_proposer : Outcome H256 :=
  blocks ← unwrap (get_cf proposer_tree_level_cf (db s) (proposer_best_level s));
  unwrap (blocks !! 0).

Definition best_voter (chain_num : Z) : Outcome H256 :=
  best ← unwrap (voter_best s !! Z.to_nat chain_num);
  Done best.1.

(** [BlockChain::unreferred_proposers] and [BlockChain::unreferred_transactions]. *)
Definition unreferred_proposers_list `{HashOrder} : list H256 :=
  fst <$> merge_sort by_timestamp (hash_iter (unreferred_proposers s)).
Definition unreferred_transactions_list `{HashOrder} : list H256 :=
  fst <$> merge_sort by_timestamp (hash_iter (unreferred_transactions s)).

(** The inner loop of [unvoted_proposer]: the first block with the most votes. *)
Definition best_vote (blocks : list H256) : option (H256 * Z) :=
  foldl (λ best_vote block_hash,
    let vote_count := default 0%Z (get_cf proposer_vote_count_cf (db s) block_hash) in
    match best_vote with
    | Some (_, num_votes) =>
        if (num_votes <? vote_count)%Z then Some (block_hash, vote_count) else best_vote
    | None => Some (block_hash, vote_count)
    end) None blocks.

Definition unvoted_proposer (tip proposer_parent : H256) : Outcome (list H256) :=
  first_vote_level ← unwrap (get_cf voter_node_voted_level_cf (db s) tip);
  last_vote_level ← unwrap (get_cf proposer_node_level_cf (db s) proposer_parent);
  mapO (λ level,
    blocks ← unwrap (get_cf proposer_tree_level_cf (db s) level);
    best ← unwrap (best_vote (H256_sort blocks));
    Done best.1) (range_incl (u64 (first_vote_level + 1)) last_vote_level).

Definition proposer_level (hash : H256) : Outcome Z :=
  unwrap (get_cf proposer_node_level_cf (db s) hash).
Definition deepest_voted_level (voter : H256) : Outcome Z :=
  unwrap (get_cf voter_node_voted_level_cf (db s) voter).
Definition voter_chain_number (hash : H256) : Outcome Z :=
  unwrap (get_cf voter_node_chain_cf (db s) hash).

Definition contains_proposer (hash : H256) : bool :=
  match get_cf proposer_node_level_cf (db s) hash with Some _ => true | None => false end.
Definition contains_voter (hash : H256) : bool :=
  match get_cf voter_node_level_cf (db s) hash with Some _ => true | None => false end.
Definition contains_transaction (hash : H256) : bool :=
  match get_cf parent_neighbor_cf (db s) hash with Some _ => true | None => false end.

Definition proposer_leaders : Outcome (list H256) :=
  mapO (λ level, unwrap (get_cf proposer_leader_sequence_cf (db s) level))
    (range_incl 0 (proposer_ledger_tip s)).

Definition lagging_level : Z :=
  if (proposer_best_level s <? proposer_ledger_tip s)%Z then 0%Z
  else (proposer_best_level s - proposer_ledger_tip s)%Z.

Definition proposer_transaction_in_ledger (limit : Z) : Outcome (list (H256 * list H256)) :=
  let ledger_tip := proposer_ledger_tip s in
  let ledger_bottom := if (limit <? ledger_tip)%Z then (ledger_tip - limit)%Z else 0%Z in
  proposer_in_ledger ←
    mapO (λ level, unwrap (get_cf proposer_ledger_order_cf (db s) level))
      (range_incl ledger_bottom ledger_tip);
  mapO (λ hash,
    blocks ← unwrap (get_cf transaction_ref_neighbor_cf (db s) hash);
    Done (hash, blocks)) (mjoin proposer_in_ledger).

Definition proposer_bottom_tip : Outcome (H256 * H256 * Z) :=
  match get_cf proposer_tree_level_cf (db s) 1%Z ≫= head with
  | Some proposer_bottom =>
      blocks ← unwrap (get_cf proposer_tree_level_cf (db s) (proposer_best_level s));
      proposer_tip ← unwrap (blocks !! 0);
      Done (proposer_bottom, proposer_tip, proposer_best_level s)
  | None => Done (h256_default, h256_default, 0%Z)
  end.

(** A database iterator yields the entries in the order of the keys. *)
Definition iter_le (x y : H256 * Z) : Prop := H256_le x.1 y.1.
#[global] Instance iter_le_dec : RelDecision iter_le := λ x y, decide (H256_le x.1 y.1).

Definition voter_bottom_tip : Outcome (list (H256 * H256 * Z)) :=
  let iter := merge_sort iter_le (map_to_list (cf_get voter_node_chain_cf (db s))) in
  voters ← foldM (λ voters '(hash, chain),
    level ← unwrap (get_cf voter_node_level_cf (db s) hash);
    if (level =? 1)%Z then
      old ← unwrap (voters !! Z.to_nat chain);
      Done (<[Z.to_nat chain := (hash, old.1.2, old.2)]> voters)
    else Done voters)
    (replicate (length (voter_best s)) (h256_default, h256_default, 0%Z)) iter;
  Done (zip_with (λ v best, (v.1.1, best.1, best.2)) voters (voter_best s)).
End Queries.
