(* ===== verification/Miner.v ===== *)
(** * The miner: [src/src/miner/mod.rs] and [src/src/handler/new_validated_block.rs]

    The miner keeps one content for every chain id, the Merkle tree over them, and a
    header.  One turn of its loop reacts to a control signal, brings contents, tree and
    header up to date with the blockchain, and tries one nonce.  The clock and the random
    draws of a turn are inputs; the blockchain, the memory pool and the block database are
    read in the state they have at the start of the turn. *)

From S2P Require Import Prelude Hash Merkle Float Transaction Mempool Config Block BlockDb Store.
From S2P Require Import Chain.

Inductive ControlSignal :=
| Start (lambda : Z) (lazy : bool) (prob : f64)
| ControlStep
| Exit.

Inductive ContextUpdateSignal :=
| NewProposerBlock
| NewVoterBlock (chain : Z)
| NewTransactionBlock.

Inductive OperatingState :=
| Paused
| Run (lambda : Z) (lazy : bool) (prob : f64)
| StepMode
| ShutDown.

(** The part of [Context] that the miner owns. *)
Record Miner := mkMiner {
  operating_state : OperatingState;
  mi_header : Header;
  mi_contents : list Content;
  mi_tree : MerkleTree;
}.

(** The objects it shares with the other threads. *)
Record Node := mkNode {
  node_chain : BlockChain;
  node_mempool : MemoryPool;
  node_blockdb : BlockDatabase;
}.

Definition set_state (st : OperatingState) (m : Miner) : Miner :=
  mkMiner st (mi_header m) (mi_contents m) (mi_tree m).
Definition set_parent (p : H256) (h : Header) : Header :=
  mkHeader p (timestamp h) (nonce h) (content_merkle_root h) (extra_content h) (difficulty h).

Definition zero_bytes : list byte := replicate 32 "000"%byte.

Definition handle_control_signal (m : Miner) (signal : ControlSignal) : Miner :=
  match signal with
  | Exit => set_state ShutDown m
  | Start i l p => set_state (Run i l p) m
  | ControlStep => set_state StepMode m
  end.

Section Miner.
Context `{Keccak, BincodeHeader, BincodeBlock, BigUint, HashOrder}.

(** [miner::new]; the time is read from the clock. *)
Definition miner_new (config : BlockchainConfig) (time : Z) : Outcome Miner :=
  voters ← mapO (λ voter_idx,
      genesis ← unwrap (voter_genesis config !! Z.to_nat voter_idx);
      Done (CVoter (mkVoterContent voter_idx genesis [])))
    (range 0 (voter_chains config));
  let contents := CProposer (mkProposerContent [] []) ::
    CTransaction (mkTransactionContent []) :: voters in
  tree ← merkle_new contents;
  Done (mkMiner Paused
    (mkHeader (proposer_genesis config) time 0 h256_default zero_bytes DEFAULT_DIFFICULTY)
    contents tree).

(** *** Lines 233-245: the signals since the last turn *)

Record Updates := mkUpdates {
  new_transaction_block : bool;
  new_voter_block : gset Z;
  new_proposer_block : bool;
}.

Definition collect_signals (sigs : list ContextUpdateSignal) : Updates :=
  foldl (λ u sig,
    match sig with
    | NewProposerBlock => mkUpdates (new_transaction_block u) (new_voter_block u) true
    | NewVoterBlock chain =>
        mkUpdates (new_transaction_block u) ({[chain]} ∪ new_voter_block u)
          (new_proposer_block u)
    | NewTransactionBlock => mkUpdates true (new_voter_block u) (new_proposer_block u)
    end) (mkUpdates false ∅ false) sigs.

(** *** Lines 247-380: the contents

    Each step takes and returns the contents and the set of touched ids. *)

Definition chain_id (voter_chain : Z) : nat := Z.to_nat (u16 (FIRST_VOTER_INDEX + voter_chain)).

Definition update_voter_parent (s : BlockChain) (acc : list Content * gset Z)
    (voter_chain : Z) : Outcome (list Content * gset Z) :=
  let '(contents, touched) := acc in
  parent ← best_voter s voter_chain;
  content ← unwrap (contents !! chain_id voter_chain);
  match content with
  | CVoter c =>
      if decide (parent = voter_parent c) then Done acc
      else Done (<[chain_id voter_chain := CVoter (mkVoterContent (chain_number c) parent (votes c))]>
                   contents, {[Z.of_nat (chain_id voter_chain)]} ∪ touched)
  | _ => Panic
  end.

Definition update_transactions (config : BlockchainConfig) (pool : MemoryPool)
    (acc : list Content * gset Z) : Outcome (list Content * gset Z) :=
  let '(contents, touched) := acc in
  txs ← get_transactions pool (Z.to_nat (tx_txs config));
  content ← unwrap (contents !! Z.to_nat TRANSACTION_INDEX);
  match content with
  | CTransaction _ =>
      Done (<[Z.to_nat TRANSACTION_INDEX := CTransaction (mkTransactionContent txs)]> contents,
            {[TRANSACTION_INDEX]} ∪ touched)
  | _ => Panic
  end.

Definition append_transaction_refs (config : BlockchainConfig) (s : BlockChain)
    (acc : list Content * gset Z) : Outcome (list Content * gset Z) :=
  let '(contents, touched) := acc in
  content ← unwrap (contents !! Z.to_nat PROPOSER_INDEX);
  match content with
  | CProposer c =>
      if (Z.of_nat (length (transaction_refs c)) <? proposer_tx_refs config)%Z then
        let refs := take (Z.to_nat (proposer_tx_refs config)) (unreferred_transactions_list s) in
        Done (<[Z.to_nat PROPOSER_INDEX := CProposer (mkProposerContent refs (proposer_refs c))]>
                contents, {[PROPOSER_INDEX]} ∪ touched)
      else Done acc
  | _ => Panic
  end.

Definition refresh_refs (config : BlockchainConfig) (s : BlockChain) (parent : H256)
    (acc : list Content * gset Z) : Outcome (list Content * gset Z) :=
  let '(contents, touched) := acc in
  content ← unwrap (contents !! Z.to_nat PROPOSER_INDEX);
  match content with
  | CProposer c =>
      let refs := take (Z.to_nat (proposer_tx_refs config)) (unreferred_transactions_list s) in
      let proposers := filter (λ x, x ≠ parent) (unreferred_proposers_list s) in
      Done (<[Z.to_nat PROPOSER_INDEX := CProposer (mkProposerContent refs proposers)]> contents,
            {[PROPOSER_INDEX]} ∪ touched)
  | _ => Panic
  end.

(** The loop until the parent is the best proposer block. *)
Fixpoint parent_loop (fuel : nat) (config : BlockchainConfig) (s : BlockChain)
    (new_proposer : bool) (parent : H256) (acc : list Content * gset Z) :
    Outcome (bool * H256 * (list Content * gset Z)) :=
  match fuel with
  | O => Panic
  | S fuel =>
      acc ← (if new_proposer then refresh_refs config s parent acc else Done acc);
      best ← best_proposer s;
      if decide (parent = best) then Done (new_proposer, parent, acc)
      else parent_loop fuel config s true best acc
  end.

(** The votes of one voter chain: always replaced when the parent is new, and otherwise
    only when they differ. *)
Definition update_chain_content (s : BlockChain) (parent : H256) (always : bool)
    (acc : list Content * gset Z) (voter_chain : Z) : Outcome (list Content * gset Z) :=
  let '(contents, touched) := acc in
  content ← unwrap (contents !! chain_id voter_chain);
  match content with
  | CVoter c =>
      new_votes ← unvoted_proposer s (voter_parent c) parent;
      if always || negb (length new_votes =? length (votes c)) ||
        existsb (λ x, negb (bool_decide (x.1 = x.2))) (zip new_votes (votes c))
      then Done (<[chain_id voter_chain :=
                     CVoter (mkVoterContent (chain_number c) (voter_parent c) new_votes)]> contents,
                 {[Z.of_nat (chain_id voter_chain)]} ∪ touched)
      else Done acc
  | _ => Panic
  end.

Definition update_all_votes (config : BlockchainConfig) (s : BlockChain) (parent : H256)
    (new_proposer : bool) (new_voter : gset Z) (acc : list Content * gset Z) :
    Outcome (list Content * gset Z) :=
  if new_proposer || negb (bool_decide (new_voter = ∅)) then
    foldM (update_chain_content s parent new_proposer) acc (range 0 (voter_chains config))
  else Done acc.

(** *** The header and the tree *)

Definition get_difficulty (db : BlockDatabase) (block_hash : H256) : Outcome H256 :=
  block ← blockdb_get db block_hash;
  Done (match block with Some b => difficulty (header b) | None => DEFAULT_DIFFICULTY end).

Definition update_leaf (contents : list Content) (tree : MerkleTree) (id : Z) :
    Outcome MerkleTree :=
  content ← unwrap (contents !! Z.to_nat id);
  merkle_update tree (Z.to_nat id) content.

Definition update_tree (new_proposer : bool) (contents : list Content) (touched : gset Z)
    (tree : MerkleTree) : Outcome MerkleTree :=
  if new_proposer then merkle_new contents
  else foldM (update_leaf contents) tree (btree_set_list touched).

(** Lines 233-401. *)
Definition refresh_context (config : BlockchainConfig) (node : Node)
    (sigs : list ContextUpdateSignal) (m : Miner) : Outcome Miner :=
  let s := node_chain node in
  let u := collect_signals sigs in
  acc ← foldM (update_voter_parent s) (mi_contents m, ∅) (btree_set_list (new_voter_block u));
  acc ← (if new_transaction_block u then update_transactions config (node_mempool node) acc
         else Done acc);
  acc ← (if new_transaction_block u && negb (new_proposer_block u)
         then append_transaction_refs config s acc else Done acc);
  parent ← (if new_proposer_block u then best_proposer s else Done (parent (mi_header m)));
  '(new_proposer, parent, acc) ← parent_loop 2 config s (new_proposer_block u) parent acc;
  '(contents, touched) ←
    update_all_votes config s parent new_proposer (new_voter_block u) acc;
  difficulty ← get_difficulty (node_blockdb node) parent;
  tree ← update_tree new_proposer contents touched (mi_tree m);
  let h := mi_header m in
  Done (mkMiner (operating_state m)
    (mkHeader parent (timestamp h) (nonce h) (merkle_root tree) (extra_content h) difficulty)
    contents tree).

(** *** Mining *)

Definition produce_block (config : BlockchainConfig) (m : Miner) (header_hash : H256) :
    Outcome Block :=
  id ← sortition_hash config header_hash (difficulty (mi_header m));
  sortition_id ← unwrap id;
  proof ← merkle_proof (mi_tree m) (Z.to_nat sortition_id);
  content ← unwrap (mi_contents m !! Z.to_nat sortition_id);
  Done (from_header (mi_header m) content proof).

(** [new_validated_block]. *)
Definition new_validated_block (block : Block) (pool : MemoryPool) (chain : BlockChain) :
    Outcome (MemoryPool * BlockChain) :=
  let pool :=
    match content block with
    | CTransaction c => foldl (λ p tx, remove_by_hash p (hash tx)) pool (transactions c)
    | _ => pool
    end in
  chain ← insert_block chain block;
  Done (pool, chain).

Definition context_signal (c : Content) : ContextUpdateSignal :=
  match c with
  | CProposer _ => NewProposerBlock
  | CVoter c => NewVoterBlock (chain_number c)
  | CTransaction _ => NewTransactionBlock
  end.

(** Lines 403-414: the nonce, the time and the annotation of this turn. *)
Definition new_attempt (m : Miner) (new_nonce time : Z) (skip : bool) : Miner :=
  let h := mi_header m in
  let extra :=
    match operating_state m with
    | Run _ true _ => if skip then LAZY_ANNOTATION else zero_bytes
    | _ => extra_content h
    end in
  mkMiner (operating_state m)
    (mkHeader (parent h) time new_nonce (content_merkle_root h) extra (difficulty h))
    (mi_contents m) (mi_tree m).

(** Lines 416-454: what a turn produces, if it finds a block. *)
Definition try_mine (config : BlockchainConfig) (node : Node) (m : Miner) :
    Outcome (Miner * Node * option (Block * ContextUpdateSignal)) :=
  let header_hash := hash (mi_header m) in
  if H256_ltb header_hash (difficulty (mi_header m)) then
    mined_block ← produce_block config m header_hash;
    let db := (blockdb_insert (node_blockdb node) mined_block).1 in
    '(pool, chain) ← new_validated_block mined_block (node_mempool node) (node_chain node);
    let m := match operating_state m with StepMode => set_state Paused m | _ => m end in
    Done (m, mkNode chain pool db, Some (mined_block, context_signal (content mined_block)))
  else Done (m, node, None).

(** Lines 195-203: what the miner tells itself when its loop starts. *)
Definition initial_signals (config : BlockchainConfig) : list ContextUpdateSignal :=
  [NewProposerBlock; NewTransactionBlock] ++ (NewVoterBlock <$> range 0 (voter_chains config)).

(** The inputs of one turn. *)
Record TurnInput := mkTurn {
  control : option ControlSignal;
  signals : list ContextUpdateSignal;
  turn_nonce : Z;
  turn_time : Z;
  turn_skip : bool;
}.

(** One turn of [miner_loop]; a paused miner only reads the control channel. *)
Definition miner_turn (config : BlockchainConfig) (node : Node) (m : Miner) (i : TurnInput) :
    Outcome (Miner * Node * option (Block * ContextUpdateSignal)) :=
  match operating_state m with
  | ShutDown => Done (m, node, None)
  | Paused =>
      Done (match control i with Some sig => handle_control_signal m sig | None => m end,
            node, None)
  | _ =>
      let m := match control i with Some sig => handle_control_signal m sig | None => m end in
      match operating_state m with
      | ShutDown => Done (m, node, None)
      | _ =>
          m ← refresh_context config node (signals i) m;
          try_mine config node (new_attempt m (turn_nonce i) (turn_time i) (turn_skip i))
      end
  end.
End Miner.
