(* ===== verification/Validation.v ===== *)
(** * Block validation: [src/src/validation/]

    The four checks a received block goes through: proof of work and sortition id,
    sortition proof, availability of the blocks it refers to, and the rules of its
    content. *)

From S2P Require Import Prelude Hash Merkle Transaction Config Block Chain.

Inductive BlockResult :=
| Pass
| WrongPoW
| WrongSortitionId
| WrongSortitionProof (root data : H256) (proof : list H256) (id leaf_size : nat)
| MissingReferences (missing : list H256)
| WrongProposerRef
| WrongChainNumber
| WrongVoteLevel
| EmptyTransaction
| ZeroValue
| InsufficientInput
| WrongSignature.

Section Checks.
Context `{Keccak, BincodeHeader, BigUint}.

Definition check_pow_sortition_id (block : Block) (config : BlockchainConfig) :
    Outcome BlockResult :=
  sortition_id ← sortition_hash config (hash block) (difficulty (header block));
  match sortition_id with
  | Some sortition_id =>
      let correct_sortition_id :=
        match content block with
        | CProposer _ => PROPOSER_INDEX
        | CTransaction _ => TRANSACTION_INDEX
        | CVoter content => u16 (chain_number content + FIRST_VOTER_INDEX)
        end in
      if (sortition_id =? correct_sortition_id)%Z then Done Pass else Done WrongSortitionId
  | None => Done WrongPoW
  end.

Definition check_sortition_proof (block : Block) (config : BlockchainConfig) :
    Outcome BlockResult :=
  sortition_id ← sortition_hash config (hash block) (difficulty (header block));
  match sortition_id with
  | Some sortition_id =>
      let root := content_merkle_root (header block) in
      let leaf_size := Z.to_nat (u16 (voter_chains config + FIRST_VOTER_INDEX)) in
      ok ← merkle_verify root (hash (content block)) (sortition_proof block)
             (Z.to_nat sortition_id) leaf_size;
      if ok : bool then Done Pass
      else Done (WrongSortitionProof root (hash (content block)) (sortition_proof block)
                   (Z.to_nat sortition_id) leaf_size)
  | None => Panic
  end.
End Checks.

(** ** Data availability *)

Definition check_proposer_block_exists (hash : H256) (blockchain : BlockChain) : bool :=
  contains_proposer blockchain hash.
Definition check_voter_block_exists (hash : H256) (blockchain : BlockChain) : bool :=
  contains_voter blockchain hash.
Definition check_transaction_block_exists (hash : H256) (blockchain : BlockChain) : bool :=
  contains_transaction blockchain hash.

(** [proposer_block::get_missing_references]. *)
Definition proposer_missing_references (content : ProposerContent)
    (blockchain : BlockChain) : list H256 :=
  filter (λ h, check_transaction_block_exists h blockchain = false)
    (transaction_refs content) ++
  filter (λ h, check_proposer_block_exists h blockchain = false) (proposer_refs content).

(** [voter_block::get_missing_references]. *)
Definition voter_missing_references (content : VoterContent)
    (blockchain : BlockChain) : list H256 :=
  (if check_voter_block_exists (voter_parent content) blockchain then []
   else [voter_parent content]) ++
  filter (λ h, check_proposer_block_exists h blockchain = false) (votes content).

Definition check_data_availability (block : Block) (blockchain : BlockChain) : BlockResult :=
  let parent := parent (header block) in
  let missing :=
    (if check_proposer_block_exists parent blockchain then [] else [parent]) ++
    match content block with
    | CProposer content => proposer_missing_references content blockchain
    | CVoter content => voter_missing_references content blockchain
    | CTransaction _ => []
    end in
  match missing with [] => Pass | _ => MissingReferences missing end.

(** ** Content *)

(** The loop returns at the first reference above the parent. *)
Fixpoint ref_levels_ok (blockchain : BlockChain) (parent_level : Z) (refs : list H256) :
    Outcome bool :=
  match refs with
  | [] => Done true
  | prop_block_hash :: refs =>
      l ← proposer_level blockchain prop_block_hash;
      if (parent_level <? l)%Z then Done false
      else ref_levels_ok blockchain parent_level refs
  end.

Definition check_ref_proposer_level (parent : H256) (content : ProposerContent)
    (blockchain : BlockChain) : Outcome bool :=
  parent_level ← proposer_level blockchain parent;
  ref_levels_ok blockchain parent_level (proposer_refs content).

Definition check_chain_number (content : VoterContent) (blockchain : BlockChain) :
    Outcome bool :=
  chain_num ← voter_chain_number blockchain (voter_parent content);
  Done (chain_num =? chain_number content)%Z.

Fixpoint vote_levels_ok (blockchain : BlockChain) (start : Z) (votes : list H256) :
    Outcome bool :=
  match votes with
  | [] => Done true
  | vote :: votes =>
      let start := u64 (start + 1) in
      l ← proposer_level blockchain vote;
      if (start =? l)%Z then vote_levels_ok blockchain start votes else Done false
  end.

Definition check_levels_voted (content : VoterContent) (blockchain : BlockChain)
    (parent : H256) : Outcome bool :=
  start ← deepest_voted_level blockchain (voter_parent content);
  stop ← proposer_level blockchain parent;
  if (stop <? start)%Z then Done false
  else if (Z.of_nat (length (votes content)) =? stop - start)%Z
  then vote_levels_ok blockchain start (votes content)
  else Done false.

Section Semantic.
Context `{Keccak, Rlp, PublicKeyCrypto}.

(** The loop stops at the first transaction that fails. *)
Fixpoint check_signature_batch (transactions : list Transaction) : bool :=
  match transactions with
  | [] => true
  | t :: transactions =>
      let '(unverified, addr, public) := deconstruct t in
      match verify_unordered unverified with
      | Ok tx =>
          if bool_decide (addr ≠ tx_sender tx) || bool_decide (public ≠ tx_public tx)
          then false else check_signature_batch transactions
      | Err _ => false
      end
  end.

Definition check_content_semantic (block : Block) (blockchain : BlockChain) :
    Outcome BlockResult :=
  let parent := parent (header block) in
  match content block with
  | CProposer content =>
      ok ← check_ref_proposer_level parent content blockchain;
      Done (if ok : bool then Pass else WrongProposerRef)
  | CVoter content =>
      ok ← check_chain_number content blockchain;
      if ok : bool then
        ok ← check_levels_voted content blockchain parent;
        Done (if ok : bool then Pass else WrongVoteLevel)
      else Done WrongChainNumber
  | CTransaction content =>
      Done (if check_signature_batch (transactions content) then Pass else WrongSignature)
  end.
End Semantic.
