(* ===== verification/Leader.v ===== *)
(** * The confirmation rule: [BlockChain::proposer_leader] and
    [BlockChain::num_voter_blocks] of [src/src/blockchain/mod.rs]

    The Poisson distribution comes from the [statrs] crate and is a parameter. *)

From S2P Require Import Prelude Hash Float Config Transaction Block Store Chain.

Class PoissonDist := {
  poisson : Type;
  poisson_new : f64 → option poisson;
  poisson_cdf : poisson → f64 → f64;
  poisson_pmf : poisson → Z → f64;
}.

(** [Poisson::new] gives an error exactly when the rate is NaN or not positive. *)
Class PoissonLaws `{PoissonDist} := {
  poisson_new_ok rate : f64_lt (f64_of_f32 (f32_of_Z 0)) rate = true → is_Some (poisson_new rate);
  poisson_new_err rate : f64_lt (f64_of_f32 (f32_of_Z 0)) rate = false → poisson_new rate = None;
}.

Definition f32_zero : f32 := f32_of_Z 0.
Definition f32_one : f32 := f32_of_Z 1.

(** ** Counting *)

Definition num_voter_blocks (s : BlockChain) (chain start_level end_level : Z) : Outcome Z :=
  foldM (λ total l,
    t ← unwrap (get_cf voter_tree_level_count_cf (db s) (chain, l));
    Done (u64 (total + t))) 0%Z (range_incl start_level end_level).

(** What the first loop accumulates: the depths of the votes on each block, the number
    of votes, and the number of voter blocks mined since they were cast. *)
Record VoteTally := mkTally {
  votes_depth : gmap H256 (list Z);
  total_vote_count : Z;
  total_vote_blocks : Z;
}.

(** One vote: its depth is pushed on [vote_depth]. *)
Definition tally_vote (s : BlockChain) (acc : list Z * Z * Z) (vote : Z * Z) :
    Outcome (list Z * Z * Z) :=
  let '(vote_depth, count, blocks) := acc in
  let '(chain_num, vote_level) := vote in
  voter_best ← unwrap (voter_best s !! Z.to_nat chain_num);
  let voter_best_level := voter_best.2 in
  n ← num_voter_blocks s chain_num vote_level voter_best_level;
  let this_depth := u64 (u64 (voter_best_level - vote_level) + 1) in
  Done (vote_depth ++ [this_depth], u16 (count + 1), u64 (blocks + n)).

Definition tally_block (s : BlockChain) (t : VoteTally) (block : H256) : Outcome VoteTally :=
  let votes := default [] (get_cf proposer_node_vote_cf (db s) block) in
  '(vote_depth, count, blocks) ←
    foldM (tally_vote s) ([], total_vote_count t, total_vote_blocks t) votes;
  Done (mkTally (<[block := vote_depth]> (votes_depth t)) count blocks).

Definition tally (s : BlockChain) (proposer_blocks : list H256) : Outcome VoteTally :=
  foldM (tally_block s) (mkTally ∅ 0 0) proposer_blocks.

(** ** Lower confidence bounds *)

Section Bounds.
Context `{PoissonDist}.

(** The expected depth of an adversary, from the number of blocks mined since the votes. *)
Definition adversary_expected_vote_depth (c : BlockchainConfig) (blocks count : Z) : f32 :=
  let avg_vote_blocks := f32_div (f32_of_Z blocks) (f32_of_Z count) in
  f32_mul (f32_div avg_vote_blocks (f32_sub f32_one (adversary_ratio c)))
    (adversary_ratio c).

(** The probability that the adversary removes a vote of the given depth. *)
Definition removal_probability (c : BlockchainConfig) (dist : poisson) (depth : Z) : f32 :=
  foldl (λ p k,
    let p1 := f32_of_f64 (poisson_pmf dist k) in
    let p2 := f32_powi
      (f32_div (adversary_ratio c) (f32_sub f32_one (adversary_ratio c)))
      (to_i32 (u64 (u64 (depth - k) + 1))) in
    f32_add p (f32_mul p1 p2))
    (f32_sub f32_one (f32_of_f64
      (poisson_cdf dist (f64_of_f32 (f32_add (f32_of_Z depth) f32_one)))))
    (range 0 depth).

Definition block_votes_lcb (c : BlockchainConfig) (dist : poisson) (quantile : f32)
    (depths : list Z) : f32 :=
  let '(mean, variance) := foldl (λ '(mean, variance) depth,
    let p := removal_probability c dist depth in
    (f32_add mean (f32_sub f32_one p),
     f32_add variance (f32_mul p (f32_sub f32_one p))))
    (f32_zero, f32_zero) depths in
  let tmp := f32_sub mean (f32_mul (f32_sqrt variance) quantile) in
  if f32_lt f32_zero tmp then f32_add f32_zero tmp else f32_zero.

Record LcbState := mkLcb {
  votes_lcb : gmap H256 f32;
  total_votes_lcb : f32;
  max_vote_lcb : f32;
  new_leader : option H256;
}.

(** The choice of the best block so far, ties to the lower hash. *)
Definition lcb_step (st : LcbState) (block : H256) (lcb : f32) : LcbState :=
  let '(max, leader) :=
    if f32_lt (max_vote_lcb st) lcb then (lcb, Some block)
    else (max_vote_lcb st, new_leader st) in
  let leader :=
    match leader with
    | Some l =>
        if f32_lt (f32_abs (f32_sub max lcb)) f32_EPSILON && H256_ltb block l
        then Some block else leader
    | None => None
    end in
  mkLcb (<[block := lcb]> (votes_lcb st)) (f32_add (total_votes_lcb st) lcb) max leader.

Definition lcb_block (c : BlockchainConfig) (dist : poisson) (quantile : f32)
    (depth : gmap H256 (list Z)) (st : LcbState) (block : H256) : Outcome LcbState :=
  votes ← unwrap (depth !! block);
  Done (lcb_step st block (block_votes_lcb c dist quantile votes)).

(** The last loop: whether some block could still overtake the leader. *)
Fixpoint overtaken (lcb : gmap H256 f32) (max remaining : f32) (leader : H256)
    (proposer_blocks : list H256) : Outcome bool :=
  match proposer_blocks with
  | [] => Done false
  | p_block :: proposer_blocks =>
      l ← unwrap (lcb !! p_block);
      let ucb := f32_add l remaining in
      if f32_lt max ucb && negb (bool_decide (p_block = leader)) then Done true
      else if f32_lt (f32_abs (f32_sub max ucb)) f32_EPSILON && H256_ltb p_block leader
      then Done true
      else overtaken lcb max remaining leader proposer_blocks
  end.

(** [BlockChain::proposer_leader]. *)
Definition proposer_leader (s : BlockChain) (level : Z) (quantile : f32) :
    Outcome (option H256) :=
  proposer_blocks ← unwrap (get_cf proposer_tree_level_cf (db s) level);
  t ← tally s proposer_blocks;
  let c := config s in
  if (voter_chains c <? total_vote_count t)%Z then Panic
  else if (u16 (voter_chains c * 3) / 5 <? total_vote_count t)%Z then
    dist ← unwrap (poisson_new (f64_of_f32
      (adversary_expected_vote_depth c (total_vote_blocks t) (total_vote_count t))));
    st ← foldM (lcb_block c dist quantile (votes_depth t))
      (mkLcb ∅ f32_zero f32_zero None) proposer_blocks;
    let remaining_votes := f32_sub (f32_of_Z (voter_chains c)) (total_votes_lcb st) in
    match new_leader st with
    | Some leader =>
        if f32_le (max_vote_lcb st) remaining_votes then Done None
        else
          o ← overtaken (votes_lcb st) (max_vote_lcb st) remaining_votes leader
                proposer_blocks;
          Done (if o : bool then None else Some leader)
    | None => Done None
    end
  else Done None.
End Bounds.
