(* ===== verification/Ledger.v ===== *)
(** * The ledger: [BlockChain::vote_diff] and [BlockChain::update_ledger] of
    [src/src/blockchain/mod.rs]

    The loops of the source without a bound ([while], [for level in change_begin..]) take
    a fuel argument; running out of it is a [Panic].  The theorems of [LedgerInv]
    show that enough fuel exists and that no panic happens. *)

From S2P Require Import Prelude Hash Float Config Transaction Block Store Chain Leader.

(** ** The difference of two voter chains *)

(** The votes of a block, with its level. *)
Definition votes_at (level : Z) (votes : list H256) : list (H256 * Z) :=
  (λ vote, (vote, level)) <$> votes.

(** The local variables of [vote_diff]. *)
Record DiffState := mkDiff {
  diff_to : H256;
  diff_to_level : Z;
  diff_from : H256;
  diff_from_level : Z;
  added_votes : list (H256 * Z);
  removed_votes : list (H256 * Z);
}.

(** One step back on the chain of [to], and on the chain of [from]. *)
Definition step_to (d : Database) (st : DiffState) : Outcome DiffState :=
  votes ← unwrap (get_cf vote_neighbor_cf d (diff_to st));
  p ← unwrap (get_cf voter_parent_neighbor_cf d (diff_to st));
  Done (mkDiff p (u64 (diff_to_level st - 1)) (diff_from st) (diff_from_level st)
    (added_votes st ++ votes_at (diff_to_level st) votes) (removed_votes st)).
Definition step_from (d : Database) (st : DiffState) : Outcome DiffState :=
  votes ← unwrap (get_cf vote_neighbor_cf d (diff_from st));
  p ← unwrap (get_cf voter_parent_neighbor_cf d (diff_from st));
  Done (mkDiff (diff_to st) (diff_to_level st) p (u64 (diff_from_level st - 1))
    (added_votes st) (removed_votes st ++ votes_at (diff_from_level st) votes)).

(** [while to_level != from_level]. *)
Fixpoint level_loop (fuel : nat) (d : Database) (st : DiffState) : Outcome DiffState :=
  match fuel with
  | O => Panic
  | S fuel =>
      if (diff_to_level st =? diff_from_level st)%Z then Done st
      else
        st ← (if (diff_from_level st <? diff_to_level st)%Z
              then step_to d st else step_from d st);
        level_loop fuel d st
  end.

(** [while to != from]. *)
Fixpoint fork_loop (fuel : nat) (d : Database) (st : DiffState) : Outcome DiffState :=
  match fuel with
  | O => Panic
  | S fuel =>
      if decide (diff_to st = diff_from st) then Done st
      else
        st ← step_to d st;
        st ← step_from d st;
        fork_loop fuel d st
  end.

Definition vote_diff (fuel : nat) (d : Database) (from to : H256) :
    Outcome (list (H256 * Z) * list (H256 * Z)) :=
  to_level ← unwrap (get_cf voter_node_level_cf d to);
  from_level ← unwrap (get_cf voter_node_level_cf d from);
  st ← level_loop fuel d (mkDiff to to_level from from_level [] []);
  st ← fork_loop fuel d st;
  Done (added_votes st, removed_votes st).

(** ** Votes *)

(** [Range<u64>], widened to contain a level. *)
Definition widen (affected_range : Z * Z) (proposer_level : Z) : Z * Z :=
  let '(start, stop) := affected_range in
  (if (proposer_level <? start)%Z then proposer_level else start,
   if (stop <=? proposer_level)%Z then u64 (proposer_level + 1) else stop).

(** One removed or added vote: the merge that records it, and the level it affects. *)
Definition apply_vote (d : Database) (chain_num : Z) (add : bool)
    (acc : list WriteOp * (Z * Z)) (vote : H256 * Z) : Outcome (list WriteOp * (Z * Z)) :=
  let '(wb, affected_range) := acc in
  let wb := wb ++ [merge_cf proposer_node_vote_cf vote.1 [(add, chain_num, vote.2)]] in
  proposer_level ← unwrap (get_cf proposer_node_level_cf d vote.1);
  Done (wb, widen affected_range proposer_level).

(** The body of the loop over the voter chains. *)
Definition update_chain_votes (fuel : nat) (s : BlockChain)
    (acc : list H256 * list WriteOp * (Z * Z)) (chain_num : Z) :
    Outcome (list H256 * list WriteOp * (Z * Z)) :=
  let '(tips, wb, affected_range) := acc in
  from ← unwrap (tips !! Z.to_nat chain_num);
  voter_best ← unwrap (voter_best s !! Z.to_nat chain_num);
  let to := voter_best.1 in
  let tips := <[Z.to_nat chain_num := to]> tips in
  '(added, removed) ← vote_diff fuel (db s) from to;
  acc ← foldM (apply_vote (db s) chain_num false) (wb, affected_range) removed;
  '(wb, affected_range) ← foldM (apply_vote (db s) chain_num true) acc added;
  Done (tips, wb, affected_range).

(** Lines 437-494: the votes of all chains, committed; and the affected levels. *)
Definition update_votes (fuel : nat) (s : BlockChain) : Outcome (BlockChain * (Z * Z)) :=
  '(tips, wb, affected_range) ← foldM (update_chain_votes fuel s)
    (voter_ledger_tips s, [], (2 ^ 64 - 1, 0)%Z) (range 0 (voter_chains (config s)));
  d ← write (db s) wb;
  Done (set_db d (set_voter_ledger_tips tips s), affected_range).

(** ** Leaders *)

Section Ledger.
Context `{PoissonDist}.

Definition widen_to_tip (s : BlockChain) (affected_range : Z * Z) : Z * Z :=
  let '(start, stop) := affected_range in
  if (start <? stop)%Z && (u64 (proposer_ledger_tip s + 1) <? start)%Z
  then (u64 (proposer_ledger_tip s + 1), stop) else (start, stop).

Definition update_leader (s : BlockChain) (acc : option Z * list WriteOp) (level : Z) :
    Outcome (option Z * list WriteOp) :=
  let '(change_begin, wb) := acc in
  let existing_leader := get_cf proposer_leader_sequence_cf (db s) level in
  new_leader_confirm ← proposer_leader s level (quantile_epsilon_confirm (config s));
  new_leader_deconfirm ← proposer_leader s level (quantile_epsilon_deconfirm (config s));
  let new_leader :=
    match existing_leader with
    | Some _ => new_leader_deconfirm
    | None => new_leader_confirm
    end in
  if decide (new_leader = existing_leader) then Done (change_begin, wb)
  else
    Done (match change_begin with None => Some level | Some _ => change_begin end,
          wb ++ [match new_leader with
                 | None => delete_cf proposer_leader_sequence_cf level
                 | Some new => put_cf proposer_leader_sequence_cf level new
                 end]).

(** Lines 496-565: the new leaders, committed; and the first level that changed. *)
Definition update_leaders (s : BlockChain) (affected_range : Z * Z) :
    Outcome (BlockChain * option Z) :=
  let '(start, stop) := widen_to_tip s affected_range in
  '(change_begin, wb) ← foldM (update_leader s) (None, []) (range start stop);
  d ← write (db s) wb;
  Done (set_db d s, change_begin).

(** ** Order *)

(** The depth-first traversal.  The head of [stack] is the top; pushing the references
    in order leaves the last one on top. *)
Fixpoint dfs (fuel : nat) (d : Database) (unconfirmed : gset H256)
    (stack order : list H256) : Outcome (list H256) :=
  match fuel with
  | O => Panic
  | S fuel =>
      match stack with
      | [] => Done order
      | top :: stack =>
          if decide (top ∈ unconfirmed) then
            refs ← unwrap (get_cf proposer_ref_neighbor_cf d top);
            dfs fuel d unconfirmed (rev refs ++ stack) (order ++ [top])
          else dfs fuel d unconfirmed stack order
      end
  end.

(** [order.into_iter().filter(|h| unconfirmed_proposers.remove(h)).collect()]. *)
Fixpoint take_unconfirmed (unconfirmed : gset H256) (order : list H256) :
    gset H256 * list H256 :=
  match order with
  | [] => (unconfirmed, [])
  | h :: order =>
      if decide (h ∈ unconfirmed) then
        let '(unconfirmed, rest) := take_unconfirmed (unconfirmed ∖ {[h]}) order in
        (unconfirmed, h :: rest)
      else take_unconfirmed unconfirmed order
  end.

(** The local variables of the last part of [update_ledger]. *)
Record OrderState := mkOrder {
  ord_unconfirmed : gset H256;
  ord_removed : list H256;
  ord_added : list H256;
  ord_wb : list WriteOp;
}.

Definition deconfirm_level (d : Database) (st : OrderState) (level : Z) :
    Outcome OrderState :=
  original_ledger ← unwrap (get_cf proposer_ledger_order_cf d level);
  Done (mkOrder (list_to_set original_ledger ∪ ord_unconfirmed st)
    (ord_removed st ++ original_ledger) (ord_added st)
    (ord_wb st ++ [delete_cf proposer_ledger_order_cf level])).

(** [for level in change_begin..]; the result is the new ledger tip. *)
Fixpoint confirm_levels (fuel : nat) (d : Database) (st : OrderState) (level : Z) :
    Outcome (OrderState * Z) :=
  match fuel with
  | O => Panic
  | S fuel' =>
      match get_cf proposer_leader_sequence_cf d level with
      | None => Done (st, u64 (level - 1))
      | Some leader =>
          order ← dfs fuel d (ord_unconfirmed st) [leader] [];
          let '(unconfirmed, order) := take_unconfirmed (ord_unconfirmed st) (rev order) in
          confirm_levels fuel' d
            (mkOrder unconfirmed (ord_removed st) (ord_added st ++ order)
              (ord_wb st ++ [put_cf proposer_ledger_order_cf level order]))
            (u64 (level + 1))
      end
  end.

(** The transaction blocks of a list of proposer blocks. *)
Definition transaction_blocks (d : Database) (blocks : list H256) : Outcome (list H256) :=
  refs ← mapO (λ block, unwrap (get_cf transaction_ref_neighbor_cf d block)) blocks;
  Done (mjoin (refs : list (list H256))).

(** Lines 567-658: the order of the ledger from the first level that changed. *)
Definition update_order (fuel : nat) (s : BlockChain) (change_begin : Z) :
    Outcome (BlockChain * (list H256 * list H256)) :=
  st ← foldM (deconfirm_level (db s)) (mkOrder (unconfirmed_proposers s) [] [] [])
    (range_incl change_begin (proposer_ledger_tip s));
  '(st, tip) ←
    (if (change_begin <=? u64 (proposer_ledger_tip s + 1))%Z
     then confirm_levels fuel (db s) st change_begin
     else Done (st, proposer_ledger_tip s));
  d ← write (db s) (ord_wb st);
  removed_transaction_blocks ← transaction_blocks d (ord_removed st);
  added_transaction_blocks ← transaction_blocks d (ord_added st);
  Done (set_db d (set_proposer_ledger_tip tip
          (set_unconfirmed_proposers (ord_unconfirmed st) s)),
        (added_transaction_blocks, removed_transaction_blocks)).

(** [BlockChain::update_ledger]. *)
Definition update_ledger (fuel : nat) (s : BlockChain) :
    Outcome (BlockChain * (list H256 * list H256)) :=
  '(s, affected_range) ← update_votes fuel s;
  '(s, change_begin) ← update_leaders s affected_range;
  match change_begin with
  | Some change_begin => update_order fuel s change_begin
  | None => Done (s, ([], []))
  end.
End Ledger.
