(* ===== verification/ChainInv.v ===== *)
(** * The invariant of the block structure

    What the store of [Chain] looks like after any sequence of insertions of validated
    blocks, and that [BlockChain_new] establishes it and [insert_block] preserves it,
    without a panic.  The invariant of the ledger is in [LedgerInv]. *)

From S2P Require Import Prelude Hash Config Transaction Block Store Chain Validation.

Abbreviation plev d := (proposer_node_level_map d).
Abbreviation ptree d := (proposer_tree_level_map d).
Abbreviation prefs d := (proposer_ref_neighbor_map d).
Abbreviation trefs d := (transaction_ref_neighbor_map d).
Abbreviation parents d := (parent_neighbor_map d).
Abbreviation vlev d := (voter_node_level_map d).
Abbreviation vchain d := (voter_node_chain_map d).
Abbreviation vvoted d := (voter_node_voted_level_map d).
Abbreviation vvotes d := (vote_neighbor_map d).
Abbreviation vparent d := (voter_parent_neighbor_map d).
Abbreviation vcount d := (voter_tree_level_count_map d).
Abbreviation pvotes d := (proposer_node_vote_map d).
Abbreviation leaders d := (proposer_leader_sequence_map d).
Abbreviation orders d := (proposer_ledger_order_map d).

(** Compute the column families of an explicit store. *)
Ltac db_simpl :=
  cbn [proposer_node_level_map voter_node_level_map voter_node_chain_map
    voter_tree_level_count_map proposer_tree_level_map voter_node_voted_level_map
    proposer_node_vote_map proposer_leader_sequence_map proposer_ledger_order_map
    proposer_vote_count_map parent_neighbor_map vote_neighbor_map voter_parent_neighbor_map
    transaction_ref_neighbor_map proposer_ref_neighbor_map] in *.

(** ** The invariant *)

(** A configuration with distinct genesis blocks, one for each voter chain. *)
Record config_wf (c : BlockchainConfig) : Prop := {
  cw_chains : (0 ≤ voter_chains c < 2 ^ 16)%Z;
  cw_genesis : length (voter_genesis c) = Z.to_nat (voter_chains c);
  cw_nodup : NoDup (proposer_genesis c :: voter_genesis c);
}.

(** A hash the store has seen: the proposer genesis, or a block with a parent link. *)
Definition known (c : BlockchainConfig) (d : Database) (h : H256) : Prop :=
  h = proposer_genesis c ∨ is_Some (parents d !! h).

(** A proposer block: what it refers to is there, at a lower level, its parent first. *)
Definition proposer_block_ok (d : Database) (h : H256) (l : Z) : Prop :=
  ∃ refs txs, prefs d !! h = Some refs ∧ trefs d !! h = Some txs ∧
    (∀ r, r ∈ refs → ∃ lr, plev d !! r = Some lr ∧ lr < l)%Z ∧
    (0 < l → ∃ p rest, refs = p :: rest ∧ plev d !! p = Some (l - 1))%Z.

Record proposer_inv (c : BlockchainConfig) (d : Database) (best : Z) : Prop := {
  pi_genesis : plev d !! proposer_genesis c = Some 0%Z;
  pi_best : (0 ≤ best < 2 ^ 64 - 1)%Z;
  pi_range h l : plev d !! h = Some l → (0 ≤ l ≤ best)%Z;
  pi_tree l bs : ptree d !! l = Some bs →
    bs ≠ [] ∧ NoDup bs ∧ ∀ h, h ∈ bs ↔ plev d !! h = Some l;
  pi_levels l : (0 ≤ l ≤ best)%Z → is_Some (ptree d !! l);
  pi_block h l : plev d !! h = Some l → proposer_block_ok d h l;
  pi_known h : is_Some (plev d !! h) → known c d h;
}.

(** A voter block at level [l] of chain [ch] that has voted up to level [v]: a genesis
    block, or a child on the same chain with one vote for each level its parent had not
    voted for. *)
Definition voter_block_ok (c : BlockchainConfig) (d : Database)
    (h : H256) (l ch v : Z) (vs : list H256) : Prop :=
  (l = 0 ∧ voter_genesis c !! Z.to_nat ch = Some h ∧ v = 0 ∧
    vs = [proposer_genesis c])%Z ∨
  (0 < l ∧ ∃ p v', vparent d !! h = Some p ∧ vlev d !! p = Some (l - 1) ∧
    vchain d !! p = Some ch ∧ vvoted d !! p = Some v' ∧ 0 ≤ v' ≤ v ∧
    Forall2 (λ x lx, plev d !! x = Some lx) vs (range_incl (v' + 1) v))%Z.

(** *** Counting voter blocks *)

(** The chain and the level of each voter block, and the number of blocks at one of them. *)
Definition voter_keys (lev chain : gmap H256 Z) : gmap H256 (Z * Z) := map_zip chain lev.
Definition level_size (lev chain : gmap H256 Z) (k : Z * Z) : nat :=
  size (filter (λ p, p.2 = k) (voter_keys lev chain)).

(** The counter of a level is the number of its blocks, in 64 bits. *)
Definition counts_ok (lev chain : gmap H256 Z) (count : gmap (Z * Z) Z) : Prop :=
  ∀ k, default 0%Z (count !! k) = u64 (Z.of_nat (level_size lev chain k)).

Record voter_inv (c : BlockchainConfig) (d : Database) (vbest : list (H256 * Z)) : Prop := {
  vi_len : length vbest = Z.to_nat (voter_chains c);
  vi_block h l : vlev d !! h = Some l →
    ∃ ch v vs, vchain d !! h = Some ch ∧ vvoted d !! h = Some v ∧ vvotes d !! h = Some vs ∧
      voter_block_ok c d h l ch v vs;
  vi_chain h l ch : vlev d !! h = Some l → vchain d !! h = Some ch →
    (0 ≤ ch < voter_chains c)%Z ∧
    ∃ bh bl, vbest !! Z.to_nat ch = Some (bh, bl) ∧ (0 ≤ l ≤ bl)%Z;
  vi_best i h l : vbest !! i = Some (h, l) →
    vlev d !! h = Some l ∧ vchain d !! h = Some (Z.of_nat i) ∧ (l < 2 ^ 64)%Z;
  vi_count i h l k : vbest !! i = Some (h, l) → (0 ≤ k ≤ l)%Z →
    is_Some (vcount d !! (Z.of_nat i, k));
  vi_counts : counts_ok (vlev d) (vchain d) (vcount d);
  vi_known h : is_Some (vlev d !! h) → known c d h;
  vi_disjoint h : is_Some (vlev d !! h) → plev d !! h = None;
}.

Record chain_inv (s : BlockChain) : Prop := {
  ci_config : config_wf (config s);
  ci_proposer : proposer_inv (config s) (db s) (proposer_best_level s);
  ci_voter : voter_inv (config s) (db s) (voter_best s);
}.

(** ** Lemmas *)

Lemma write_app d wb1 wb2 : write d (wb1 ++ wb2) = write d wb1 ≫= λ d', write d' wb2.
Proof. apply foldM_app. Qed.

Lemma write_cons d op wb : write d (op :: wb) = op d ≫= λ d', write d' wb.
Proof. done. Qed.

Lemma counts_ok_empty : counts_ok ∅ ∅ ∅.
Proof. intros k. unfold level_size, voter_keys. by rewrite map_zip_with_empty, map_filter_empty. Qed.

Lemma counts_ok_insert lev chain count b ch l :
  counts_ok lev chain count → lev !! b = None →
  counts_ok (<[b := l]> lev) (<[b := ch]> chain)
    (<[(ch, l) := u64_plus_merge (count !! (ch, l)) [1%Z]]> count).
Proof.
  intros Hc Hb k. unfold level_size, voter_keys. rewrite <- map_insert_zip_with.
  assert (map_zip chain lev !! b = None) as Hn.
  { rewrite map_lookup_zip_with, Hb. by destruct (chain !! b). }
  destruct (decide ((ch, l) = k)) as [<-|Hne].
  - rewrite lookup_insert_eq, map_filter_insert_True by done. cbn.
    rewrite map_size_insert_None by (apply map_lookup_filter_None; left; done).
    unfold u64_plus_merge. cbn. rewrite Hc. unfold level_size, voter_keys, u64, wrap.
    rewrite Zplus_mod_idemp_l. f_equal. lia.
  - rewrite lookup_insert_ne by done. rewrite map_filter_insert_False, delete_id by done. apply Hc.
Qed.

(** The blocks of different levels are different blocks. *)
Lemma sum_level_sizes lev chain ks :
  NoDup ks → sum_list (level_size lev chain <$> ks) ≤ size lev.
Proof.
  intros Hnd. transitivity (size (voter_keys lev chain)).
  2: { rewrite <- !size_dom. apply subseteq_size. unfold voter_keys. intros h.
       rewrite !elem_of_dom, map_lookup_zip_with. intros [x Hx].
       by destruct (chain !! h), (lev !! h). }
  unfold level_size. generalize (voter_keys lev chain) as m.
  induction Hnd as [|k ks Hk Hnd IH]; intros m; cbn; [lia|].
  assert (size m = size (filter (λ p, p.2 = k) m) + size (filter (λ p, p.2 ≠ k) m)) as ->.
  { rewrite <- map_size_disj_union by apply map_disjoint_filter_complement.
    by rewrite map_filter_union_complement. }
  apply Nat.add_le_mono_l. etransitivity; [|apply (IH (filter (λ p, p.2 ≠ k) m))].
  apply Nat.eq_le_incl. f_equal. apply list_fmap_ext. intros i k' Hi.
  f_equal. rewrite map_filter_filter. apply map_filter_ext. intros h p _. cbn.
  split; [|by intros []]. intros ->. split; [done|]. intros ->. apply Hk.
  by eapply list_elem_of_lookup_2.
Qed.

(** The votes of a voter block only change the vote counts. *)
Lemma write_vote_counts d (vs : list H256) :
  ∃ m, write d ((λ h, merge_cf proposer_vote_count_cf h 1%Z) <$> vs) =
    Done (cf_set proposer_vote_count_cf m d).
Proof.
  revert d. induction vs as [|h vs IH]; intros d.
  - exists (proposer_vote_count_map d). by destruct d.
  - rewrite fmap_cons, write_cons.
    destruct (IH (cf_set proposer_vote_count_cf (<[h := u64_plus_merge
      (cf_get proposer_vote_count_cf d !! h) [1%Z]]> (cf_get proposer_vote_count_cf d)) d))
      as [m Hm]. exists m. refine (eq_trans Hm _). by destruct d.
Qed.

(** *** Proposer blocks *)

Section InsertProposer.
Context (c : BlockchainConfig) (d d' : Database) (best : Z).
Context (b p : H256) (l : Z) (refs txs : list H256).
Hypothesis Hinv : proposer_inv c d best.
Hypothesis Hfresh : ¬ known c d b.
Hypothesis Hp : plev d !! p = Some l.
Hypothesis Hroom : (l + 2 < 2 ^ 64)%Z.
Hypothesis Hrefs : ∀ r, r ∈ refs → ∃ lr, plev d !! r = Some lr ∧ (lr ≤ l)%Z.
Hypothesis Hplev : plev d' = <[b := (l + 1)%Z]> (plev d).
Hypothesis Hptree : ptree d' =
  <[(l + 1)%Z := foldl push_new (default [] (ptree d !! (l + 1)%Z)) [b]]> (ptree d).
Hypothesis Hprefs : prefs d' = <[b := p :: refs]> (prefs d).
Hypothesis Htrefs : trefs d' = <[b := txs]> (trefs d).
Hypothesis Hparents : parents d' = <[b := p]> (parents d).

Lemma fresh_plev : plev d !! b = None.
Proof.
  destruct (plev d !! b) eqn:E; [|done]. destruct Hfresh. by eapply pi_known; eauto.
Qed.

Lemma plev_weaken h x : plev d !! h = Some x → plev d' !! h = Some x.
Proof.
  intros Hh. rewrite Hplev, lookup_insert_ne; [done|]. intros <-.
  by rewrite fresh_plev in Hh.
Qed.

Lemma plev_case h x :
  plev d' !! h = Some x ↔ (h = b ∧ x = (l + 1)%Z) ∨ plev d !! h = Some x.
Proof.
  pose proof fresh_plev. rewrite Hplev, lookup_insert_Some. naive_solver.
Qed.

Lemma proposer_block_ok_insert h x :
  plev d' !! h = Some x → proposer_block_ok d' h x.
Proof.
  intros [[-> ->]|Hh]%plev_case.
  - exists (p :: refs), txs. rewrite Hprefs, Htrefs, !lookup_insert_eq.
    split_and!; [done..| |].
    + intros r [->|Hr]%elem_of_cons.
      * exists l. split; [by apply plev_weaken|lia].
      * destruct (Hrefs r Hr) as (lr & Hlr & ?). exists lr.
        split; [by apply plev_weaken|lia].
    + intros _. exists p, refs. split; [done|].
      replace (l + 1 - 1)%Z with l by lia. by apply plev_weaken.
  - assert (h ≠ b) by (intros ->; by rewrite fresh_plev in Hh).
    destruct (pi_block _ _ _ Hinv _ _ Hh) as (rs & ts & H1 & H2 & H3 & H4).
    exists rs, ts. rewrite Hprefs, Htrefs, !lookup_insert_ne by done.
    split_and!; [done..| |].
    + intros r Hr. destruct (H3 r Hr) as (lr & ? & ?). eauto using plev_weaken.
    + intros Hx. destruct (H4 Hx) as (q & rest & -> & ?). eauto using plev_weaken.
Qed.

Lemma ptree_insert k bs :
  ptree d' !! k = Some bs → bs ≠ [] ∧ NoDup bs ∧ ∀ h, h ∈ bs ↔ plev d' !! h = Some k.
Proof.
  rewrite Hptree, lookup_insert_Some. intros [[<- <-]|[Hk Hbs]].
  - assert (NoDup (default [] (ptree d !! (l + 1)%Z)) ∧
      ∀ h, h ∈ default [] (ptree d !! (l + 1)%Z) ↔ plev d !! h = Some (l + 1)%Z) as [Hn Hm].
    { destruct (ptree d !! (l + 1)%Z) as [bs|] eqn:E; simpl.
      - by destruct (pi_tree _ _ _ Hinv _ _ E) as (_ & ? & ?).
      - split; [constructor|]. intros h. split; [set_solver|]. intros Hh.
        destruct (pi_levels _ _ _ Hinv (l + 1)) as [? Hs]; [|congruence].
        by apply (pi_range _ _ _ Hinv h). }
    split_and!; [|by apply push_new_NoDup|].
    + intros E. assert (b ∈ foldl push_new (default [] (ptree d !! (l + 1)%Z)) [b]) as Hb.
      { rewrite elem_of_push_new. set_solver. }
      rewrite E in Hb. set_solver.
    + intros h. rewrite elem_of_push_new, plev_case, Hm. set_solver.
  - destruct (pi_tree _ _ _ Hinv _ _ Hbs) as (? & ? & Hm). split_and!; [done..|].
    intros h. rewrite plev_case, Hm. naive_solver.
Qed.

Lemma proposer_inv_insert : proposer_inv c d' (Z.max best (l + 1)).
Proof.
  pose proof (pi_best _ _ _ Hinv). pose proof (pi_range _ _ _ Hinv _ _ Hp).
  split.
  - apply plev_weaken, Hinv.
  - lia.
  - intros h x [[-> ->]|Hh]%plev_case; [lia|]. pose proof (pi_range _ _ _ Hinv _ _ Hh). lia.
  - apply ptree_insert.
  - intros k Hk. rewrite Hptree. destruct (decide (k = l + 1)%Z) as [->|].
    { by rewrite lookup_insert_eq. }
    rewrite lookup_insert_ne by done. apply (pi_levels _ _ _ Hinv). lia.
  - apply proposer_block_ok_insert.
  - intros h [x [[-> ->]|Hh]%plev_case].
    + right. by rewrite Hparents, lookup_insert_eq.
    + destruct (pi_known _ _ _ Hinv h) as [->|Hs]; [eauto|by left|]. right.
      rewrite Hparents. destruct (decide (b = h)) as [->|];
        [by rewrite lookup_insert_eq|by rewrite lookup_insert_ne].
Qed.
End InsertProposer.

(** The invariants only look at some of the column families. *)
Lemma known_insert c d d' b p h :
  parents d' = <[b := p]> (parents d) → known c d h → known c d' h.
Proof.
  intros Hp [->|Hs]; [by left|]. right. rewrite Hp.
  destruct (decide (b = h)) as [->|]; [by rewrite lookup_insert_eq|by rewrite lookup_insert_ne].
Qed.

Lemma proposer_inv_frame c d d' best b p :
  proposer_inv c d best → plev d' = plev d → ptree d' = ptree d → prefs d' = prefs d →
  trefs d' = trefs d → parents d' = <[b := p]> (parents d) → proposer_inv c d' best.
Proof.
  intros Hinv H1 H2 H3 H4 H5. destruct Hinv as [? ? ? ? ? Hb Hk]. split; rewrite ?H1, ?H2; auto.
  - intros h l Hh. unfold proposer_block_ok. rewrite H1, H3, H4. by apply Hb.
  - intros h Hh. eapply known_insert; [done|]. by apply Hk.
Qed.

Lemma voter_inv_frame c d d' vbest b p :
  voter_inv c d vbest → ¬ known c d b →
  (∀ h, h ≠ b → plev d' !! h = plev d !! h) → plev d !! b = None →
  vlev d' = vlev d → vchain d' = vchain d → vvoted d' = vvoted d → vvotes d' = vvotes d →
  vparent d' = vparent d → vcount d' = vcount d → parents d' = <[b := p]> (parents d) →
  voter_inv c d' vbest.
Proof.
  intros Hinv Hf Hpl Hpb H1 H2 H3 H4 H5 H6 H7.
  destruct Hinv as [? Hblk Hch Hb Hcnt Hsz Hk Hdis]. split; rewrite ?H1, ?H2, ?H6; auto.
  - intros h l Hh. destruct (Hblk h l Hh) as (ch & v & vs & ? & ? & ? & Hok).
    exists ch, v, vs. rewrite H3, H4. split_and!; [done..|].
    unfold voter_block_ok. rewrite H1, H2, H3, H5.
    destruct Hok as [|(? & q & v' & ? & ? & ? & ? & ? & Hvs)]; [by left|]. right.
    split; [done|]. exists q, v'. split_and!; [done || lia..|].
    eapply Forall2_impl; [exact Hvs|]. intros x lx Hx. simpl in *.
    rewrite Hpl; [done|]. intros ->. congruence.
  - intros h Hh. eapply known_insert; [done|]. by apply Hk.
  - intros h Hh. rewrite Hpl; [by apply Hdis|]. intros ->. by apply Hf, Hk.
Qed.

(** *** Voter blocks *)

Section InsertVoter.
Context (c : BlockchainConfig) (d d' : Database) (vbest : list (H256 * Z)).
Context (b p vp : H256) (l ch v v' : Z) (vs : list H256) (bh : H256) (bl : Z).
Hypothesis Hinv : voter_inv c d vbest.
Hypothesis Hfresh : ¬ known c d b.
Hypothesis Hpb : plev d !! b = None.
Hypothesis Hvp : vlev d !! vp = Some l.
Hypothesis Hvc : vchain d !! vp = Some ch.
Hypothesis Hvv : vvoted d !! vp = Some v'.
Hypothesis Hv : (0 ≤ v' ≤ v)%Z.
Hypothesis Hvs : Forall2 (λ x lx, plev d !! x = Some lx) vs (range_incl (v' + 1) v).
Hypothesis Hroom : (l + 1 < 2 ^ 64)%Z.
Hypothesis Hbest : vbest !! Z.to_nat ch = Some (bh, bl).
Hypothesis Hplev' : plev d' = plev d.
Hypothesis Hvlev' : vlev d' = <[b := (l + 1)%Z]> (vlev d).
Hypothesis Hvchain' : vchain d' = <[b := ch]> (vchain d).
Hypothesis Hvvoted' : vvoted d' = <[b := v]> (vvoted d).
Hypothesis Hvvotes' : vvotes d' = <[b := vs]> (vvotes d).
Hypothesis Hvparent' : vparent d' = <[b := vp]> (vparent d).
Hypothesis Hvcount' : vcount d' =
  <[(ch, l + 1)%Z := u64_plus_merge (vcount d !! (ch, l + 1)%Z) [1%Z]]> (vcount d).
Hypothesis Hparents' : parents d' = <[b := p]> (parents d).

Definition new_best : list (H256 * Z) :=
  if (bl <? l + 1)%Z then <[Z.to_nat ch := (b, l + 1)%Z]> vbest else vbest.

Lemma fresh_vlev : vlev d !! b = None.
Proof.
  destruct (vlev d !! b) eqn:E; [|done]. destruct Hfresh. by eapply vi_known; eauto.
Qed.

Lemma vlev_case h x :
  vlev d' !! h = Some x ↔ (h = b ∧ x = (l + 1)%Z) ∨ (h ≠ b ∧ vlev d !! h = Some x).
Proof. pose proof fresh_vlev. rewrite Hvlev', lookup_insert_Some. naive_solver. Qed.

(** A block of the store is not the new one. *)
Lemma vlev_old h x : vlev d !! h = Some x → b ≠ h.
Proof. intros Hh <-. by rewrite fresh_vlev in Hh. Qed.

Lemma voter_block_ok_insert h x :
  vlev d' !! h = Some x →
  ∃ ch v vs, vchain d' !! h = Some ch ∧ vvoted d' !! h = Some v ∧ vvotes d' !! h = Some vs ∧
    voter_block_ok c d' h x ch v vs.
Proof.
  intros [[-> ->]|[Hne Hh]]%vlev_case.
  - exists ch, v, vs. rewrite Hvchain', Hvvoted', Hvvotes', !lookup_insert_eq.
    split_and!; [done..|]. right.
    pose proof (vi_chain _ _ _ Hinv _ _ _ Hvp Hvc) as (_ & ? & ? & _ & ?). split; [lia|].
    exists vp, v'. pose proof (vlev_old _ _ Hvp).
    rewrite Hvparent', Hvlev', Hvchain', Hvvoted', Hplev', lookup_insert_eq.
    rewrite !lookup_insert_ne by done. replace (l + 1 - 1)%Z with l by lia. done.
  - destruct (vi_block _ _ _ Hinv _ _ Hh) as (ch0 & v0 & vs0 & ? & ? & ? & Hok).
    exists ch0, v0, vs0. rewrite Hvchain', Hvvoted', Hvvotes', !lookup_insert_ne by done.
    split_and!; [done..|]. destruct Hok as [|(? & q & w & Hq & Hql & ? & ? & ? & ?)]; [by left|].
    right. split; [done|]. exists q, w. pose proof (vlev_old _ _ Hql).
    rewrite Hvparent', Hvlev', Hvchain', Hvvoted', Hplev'.
    by rewrite !lookup_insert_ne by done.
Qed.

Lemma new_best_case i h x :
  new_best !! i = Some (h, x) →
  (i = Z.to_nat ch ∧ h = b ∧ x = (l + 1)%Z ∧ (bl < l + 1)%Z) ∨ vbest !! i = Some (h, x).
Proof.
  unfold new_best. destruct (Z.ltb_spec bl (l + 1)); [|by right].
  intros [[? ?]|[? ?]]%list_lookup_insert_Some; [|by right]. left. naive_solver.
Qed.

Lemma new_best_ge i h x :
  vbest !! i = Some (h, x) → ∃ h' x', new_best !! i = Some (h', x') ∧ (x ≤ x')%Z.
Proof.
  intros Hi. unfold new_best. destruct (Z.ltb_spec bl (l + 1)); [|eauto with lia].
  destruct (decide (i = Z.to_nat ch)) as [->|].
  - rewrite list_lookup_insert_eq by (by eapply lookup_lt_Some).
    eexists _, _. split; [done|]. rewrite Hbest in Hi. injection Hi as <- <-. lia.
  - rewrite list_lookup_insert_ne by done. eauto with lia.
Qed.

Lemma voter_inv_insert : voter_inv c d' new_best.
Proof.
  pose proof (vi_chain _ _ _ Hinv _ _ _ Hvp Hvc) as (Hchr & bh0 & bl0 & Hb0 & Hl).
  split.
  - unfold new_best. case_if; rewrite ?length_insert; apply Hinv.
  - apply voter_block_ok_insert.
  - intros h x ch0 [[-> ->]|[Hne Hh]]%vlev_case.
    + rewrite Hvchain', lookup_insert_eq. intros [= <-]. split; [done|].
      unfold new_best. destruct (Z.ltb_spec bl (l + 1)).
      * rewrite list_lookup_insert_eq by (by eapply lookup_lt_Some). eexists _, _.
        split; [done|lia].
      * rewrite Hbest. eexists _, _. split; [done|lia].
    + rewrite Hvchain', lookup_insert_ne by done. intros Hc.
      destruct (vi_chain _ _ _ Hinv _ _ _ Hh Hc) as (? & bh1 & bl1 & Hb1 & ?).
      split; [done|]. destruct (new_best_ge _ _ _ Hb1) as (h' & x' & ? & ?).
      exists h', x'. split; [done|lia].
  - intros i h x [(-> & -> & -> & ?)|Hi]%new_best_case.
    + rewrite Hvlev', Hvchain', !lookup_insert_eq. split_and!; [done| |done].
      f_equal. lia.
    + destruct (vi_best _ _ _ Hinv _ _ _ Hi) as (Hh & ? & ?). pose proof (vlev_old _ _ Hh).
      by rewrite Hvlev', Hvchain', !lookup_insert_ne by done.
  - intros i h x k Hi Hk. rewrite Hvcount'.
    destruct (decide ((ch, l + 1)%Z = (Z.of_nat i, k))) as [<-|Hne];
      [by rewrite lookup_insert_eq|rewrite lookup_insert_ne by done].
    destruct (new_best_case _ _ _ Hi) as [(-> & -> & -> & ?)|Hi'].
    + rewrite Z2Nat.id in * by lia. rewrite <- (Z2Nat.id ch) by lia.
      eapply vi_count; [done..|]. rewrite Hbest in Hb0. injection Hb0 as <- <-.
      assert (k ≠ l + 1)%Z by congruence. lia.
    + by eapply vi_count.
  - rewrite Hvlev', Hvchain', Hvcount'. apply counts_ok_insert; [apply Hinv|apply fresh_vlev].
  - intros h [x [[-> ->]|[_ Hh]]%vlev_case].
    + right. by rewrite Hparents', lookup_insert_eq.
    + eapply known_insert; [done|]. eapply vi_known; eauto.
  - intros h [x [[-> ->]|[_ Hh]]%vlev_case]; rewrite Hplev'; [done|].
    eapply vi_disjoint; eauto.
Qed.
End InsertVoter.

(** ** What the checks establish *)

Section Checks.
Context (s : BlockChain).

Lemma filter_nil_Forall (P : H256 → bool) l :
  filter (λ h, P h = false) l = [] → ∀ h, h ∈ l → P h = true.
Proof.
  intros Hf h Hh. destruct (P h) eqn:E; [done|].
  assert (h ∈ filter (λ h, P h = false) l) as Hin by by apply list_elem_of_filter.
  rewrite Hf in Hin. set_solver.
Qed.

Lemma contains_proposer_true h :
  contains_proposer s h = true ↔ is_Some (plev (db s) !! h).
Proof.
  unfold contains_proposer, get_cf. simpl. destruct (plev (db s) !! h); naive_solver.
Qed.

Lemma contains_voter_true h : contains_voter s h = true ↔ is_Some (vlev (db s) !! h).
Proof.
  unfold contains_voter, get_cf. simpl. destruct (vlev (db s) !! h); naive_solver.
Qed.

Lemma availability_pass b :
  check_data_availability b s = Pass →
  is_Some (plev (db s) !! parent (header b)) ∧
  match content b with
  | CProposer ct => ∀ r, r ∈ proposer_refs ct → is_Some (plev (db s) !! r)
  | CVoter ct => is_Some (vlev (db s) !! voter_parent ct) ∧
      ∀ r, r ∈ votes ct → is_Some (plev (db s) !! r)
  | CTransaction _ => True
  end.
Proof.
  unfold check_data_availability, check_proposer_block_exists.
  intros Hm. destruct (contains_proposer s (parent (header b))) eqn:Hp; [|done].
  split; [by apply contains_proposer_true|]. simpl in Hm.
  destruct (content b) as [|ct|ct]; [done| |].
  - destruct (proposer_missing_references ct s) as [|? ?] eqn:E; [|done].
    apply app_eq_nil in E as [_ E]. intros r Hr.
    apply contains_proposer_true. by apply (filter_nil_Forall (contains_proposer s)) with (h := r) in E.
  - destruct (voter_missing_references ct s) as [|? ?] eqn:E; [|done].
    apply app_eq_nil in E as [E1 E2]. split.
    + apply contains_voter_true. unfold check_voter_block_exists in E1. by case_if.
    + intros r Hr. apply contains_proposer_true.
      by apply (filter_nil_Forall (contains_proposer s)) with (h := r) in E2.
Qed.

Lemma ref_levels_ok_true l refs :
  ref_levels_ok s l refs = Done true →
  ∀ r, r ∈ refs → ∃ lr, plev (db s) !! r = Some lr ∧ (lr ≤ l)%Z.
Proof.
  induction refs as [|r refs IH]; simpl; [set_solver|]. intros Hr. inv_done.
  destruct (Z.ltb_spec l v); [done|]. intros r' [->|Hin]%elem_of_cons; [|auto].
  apply unwrap_done in Hv. exists v. split; [exact Hv|lia].
Qed.

Lemma vote_levels_ok_true start vs :
  (0 ≤ start)%Z → (start + Z.of_nat (length vs) < 2 ^ 64)%Z →
  vote_levels_ok s start vs = Done true →
  Forall2 (λ x lx, plev (db s) !! x = Some lx) vs
    (range_incl (start + 1) (start + Z.of_nat (length vs))).
Proof.
  revert start. induction vs as [|x vs IH]; intros start H0 Hb; simpl.
  - intros _. rewrite range_incl_nil by lia. constructor.
  - intros Hx. inv_done. simpl in Hb. rewrite u64_small in Hx by lia.
    destruct (Z.eqb_spec (start + 1) v) as [<-|]; [|done].
    rewrite range_incl_cons by lia. constructor; [by apply unwrap_done in Hv|].
    apply IH in Hx; [|lia..].
    by replace (start + Z.of_nat (S (length vs)))%Z
      with (start + 1 + Z.of_nat (length vs))%Z by lia.
Qed.

Lemma levels_voted_true ct p v v' :
  vvoted (db s) !! voter_parent ct = Some v' → plev (db s) !! p = Some v →
  (0 ≤ v')%Z → (v < 2 ^ 64)%Z →
  check_levels_voted ct s p = Done true →
  (v' ≤ v)%Z ∧
  Forall2 (λ x lx, plev (db s) !! x = Some lx) (votes ct) (range_incl (v' + 1) v).
Proof.
  intros Hv' Hv H0 Hb. unfold check_levels_voted, deepest_voted_level, proposer_level, get_cf.
  simpl. rewrite Hv', Hv. simpl. destruct (Z.ltb_spec v v'); [done|].
  destruct (Z.eqb_spec (Z.of_nat (length (votes ct))) (v - v')) as [Hl|]; [|done].
  intros Hok%vote_levels_ok_true; [|lia..]. split; [done|].
  by replace (v' + Z.of_nat (length (votes ct)))%Z with v in Hok by lia.
Qed.
End Checks.

(** ** Insertion *)

(** A block the node inserts: new, with its references in the store, and with a content
    that passes the rules, except that the node does not check the signatures in a
    transaction block of its own; the levels have not run out. *)
Record accepted `{Keccak, BincodeHeader, Rlp, PublicKeyCrypto} (s : BlockChain) (b : Block) :
    Prop := {
  acc_fresh : ¬ known (config s) (db s) (hash b);
  acc_available : check_data_availability b s = Pass;
  acc_content : check_content_semantic b s = Done Pass ∨ (∃ ct, content b = CTransaction ct);
  acc_room : (proposer_best_level s + 2 < 2 ^ 64)%Z;
  acc_voter_room : Forall (λ best : H256 * Z, best.2 + 1 < 2 ^ 64)%Z (voter_best s);
}.

(** What the insertion of a block leaves as it was. *)
Record extends (s s' : BlockChain) : Prop := {
  ex_plev h l : plev (db s) !! h = Some l → plev (db s') !! h = Some l;
  ex_prefs h : is_Some (plev (db s) !! h) → prefs (db s') !! h = prefs (db s) !! h;
  ex_trefs h : is_Some (plev (db s) !! h) → trefs (db s') !! h = trefs (db s) !! h;
  ex_vlev h : is_Some (vlev (db s) !! h) → vlev (db s') !! h = vlev (db s) !! h;
  ex_vchain h : is_Some (vlev (db s) !! h) → vchain (db s') !! h = vchain (db s) !! h;
  ex_vvoted h : is_Some (vlev (db s) !! h) → vvoted (db s') !! h = vvoted (db s) !! h;
  ex_parents h : is_Some (parents (db s) !! h) → is_Some (parents (db s') !! h);
  ex_vvotes h : is_Some (vlev (db s) !! h) → vvotes (db s') !! h = vvotes (db s) !! h;
  ex_vparent h : is_Some (vlev (db s) !! h) → vparent (db s') !! h = vparent (db s) !! h;
  ex_pvotes : pvotes (db s') = pvotes (db s);
  ex_leaders : leaders (db s') = leaders (db s);
  ex_orders : orders (db s') = orders (db s);
  ex_tip : proposer_ledger_tip s' = proposer_ledger_tip s;
  ex_tips : voter_ledger_tips s' = voter_ledger_tips s;
  ex_config : config s' = config s;
  ex_best : (proposer_best_level s ≤ proposer_best_level s')%Z;
  ex_unconfirmed h : h ∈ unconfirmed_proposers s' ↔
    h ∈ unconfirmed_proposers s ∨
    (plev (db s) !! h = None ∧ is_Some (plev (db s') !! h));
}.

(** The store after the batch of a proposer block, and of a voter block. *)
Definition proposer_db (d : Database) (b p : H256) (refs txs : list H256) (l : Z) : Database :=
  mkDatabase (<[b := l]> (plev d)) (vlev d) (vchain d) (vcount d)
    (<[l := foldl push_new (default [] (ptree d !! l)) [b]]> (ptree d))
    (vvoted d) (pvotes d) (leaders d) (orders d) (proposer_vote_count_map d)
    (<[b := p]> (parents d)) (vvotes d) (vparent d)
    (<[b := txs]> (trefs d)) (<[b := p :: refs]> (prefs d)).

Definition voter_db (d : Database) (b p vp : H256) (vs : list H256) (l ch v : Z)
    (counts : gmap H256 Z) : Database :=
  mkDatabase (plev d) (<[b := l]> (vlev d)) (<[b := ch]> (vchain d))
    (<[(ch, l) := u64_plus_merge (vcount d !! (ch, l)) [1%Z]]> (vcount d))
    (ptree d) (<[b := v]> (vvoted d)) (pvotes d) (leaders d) (orders d) counts
    (<[b := p]> (parents d)) (<[b := vs]> (vvotes d)) (<[b := vp]> (vparent d))
    (trefs d) (prefs d).

Lemma write_voter_batch d b p vp vs l ch v :
  ∃ counts, write d
    ((([put_cf parent_neighbor_cf b p] ++ [put_cf voter_parent_neighbor_cf b vp]) ++
      [put_cf voter_node_level_cf b l; put_cf voter_node_chain_cf b ch;
       merge_cf voter_tree_level_count_cf (ch, l) 1%Z] ++
      ((λ h, merge_cf proposer_vote_count_cf h 1%Z) <$> vs) ++
      [put_cf vote_neighbor_cf b vs]) ++ [put_cf voter_node_voted_level_cf b v]) =
  Done (voter_db d b p vp vs l ch v counts).
Proof.
  set (d1 := cf_set voter_tree_level_count_cf
    (<[(ch, l) := u64_plus_merge (vcount d !! (ch, l)) [1%Z]]> (vcount d))
    (cf_set voter_node_chain_cf (<[b := ch]> (vchain d))
    (cf_set voter_node_level_cf (<[b := l]> (vlev d))
    (cf_set voter_parent_neighbor_cf (<[b := vp]> (vparent d))
    (cf_set parent_neighbor_cf (<[b := p]> (parents d)) d))))).
  destruct (write_vote_counts d1 vs) as [m Hm]. exists m.
  transitivity (write d1 ((((λ h, merge_cf proposer_vote_count_cf h 1%Z) <$> vs) ++
    [put_cf vote_neighbor_cf b vs]) ++ [put_cf voter_node_voted_level_cf b v])); [done|].
  by rewrite !write_app, Hm.
Qed.

Section Insert.
Context `{Keccak, BincodeHeader, Rlp, PublicKeyCrypto}.

Lemma insert_proposer_eq s b ct l :
  content b = CProposer ct → plev (db s) !! parent (header b) = Some l →
  (0 ≤ l)%Z → (l + 1 < 2 ^ 64)%Z →
  insert_block s b = Done (mkBlockChain
    (proposer_db (db s) (hash b) (parent (header b)) (proposer_refs ct)
      (transaction_refs ct) (l + 1))
    (Z.max (proposer_best_level s) (l + 1)) (voter_best s)
    (foldl (λ m r, delete r m) (unreferred_transactions s) (transaction_refs ct))
    (delete (parent (header b)) (foldl (λ m r, delete r m)
      (<[hash b := timestamp (header b)]> (unreferred_proposers s)) (proposer_refs ct)))
    ({[hash b]} ∪ unconfirmed_proposers s) (proposer_ledger_tip s)
    (voter_ledger_tips s) (config s)).
Proof.
  intros Hct Hl H0' Hr. unfold insert_block. rewrite Hct. unfold insert_proposer, get_cf.
  cbn [cf_get proposer_node_level_cf]. rewrite Hl. cbn [unwrap mbind outcome_bind].
  rewrite u64_small by lia. destruct s as [d best vb ut up uc tip tips c].
  cbn [db proposer_best_level voter_best unreferred_transactions unreferred_proposers
    unconfirmed_proposers proposer_ledger_tip voter_ledger_tips config] in *.
  unfold write. cbn -[Z.add Z.max Z.ltb].
  destruct (Z.ltb_spec best (l + 1)).
  - by rewrite Z.max_r by lia.
  - by rewrite Z.max_l by lia.
Qed.

Lemma insert_voter_eq s b ct l ch v bh bl :
  content b = CVoter ct → vlev (db s) !! voter_parent ct = Some l →
  vchain (db s) !! voter_parent ct = Some ch →
  plev (db s) !! parent (header b) = Some v →
  voter_best s !! Z.to_nat ch = Some (bh, bl) →
  (0 ≤ l)%Z → (l + 1 < 2 ^ 64)%Z →
  ∃ counts, insert_block s b = Done (mkBlockChain
    (voter_db (db s) (hash b) (parent (header b)) (voter_parent ct) (votes ct) (l + 1) ch v
      counts)
    (proposer_best_level s) (new_best (voter_best s) (hash b) l ch bl)
    (unreferred_transactions s) (unreferred_proposers s) (unconfirmed_proposers s)
    (proposer_ledger_tip s) (voter_ledger_tips s) (config s)).
Proof.
  intros Hct Hl Hch Hv Hb H0' Hr. unfold insert_block. rewrite Hct. unfold insert_voter, get_cf.
  cbn [cf_get voter_node_level_cf voter_node_chain_cf proposer_node_level_cf].
  rewrite Hl, Hch, Hv. cbn [unwrap mbind outcome_bind].
  rewrite u64_small by lia. destruct s as [d best vb ut up uc tip tips c].
  cbn [db proposer_best_level voter_best unreferred_transactions unreferred_proposers
    unconfirmed_proposers proposer_ledger_tip voter_ledger_tips config] in *.
  destruct (write_voter_batch d (hash b) (parent (header b)) (voter_parent ct) (votes ct)
    (l + 1) ch v) as [m Hm].
  exists m. rewrite Hm. cbn [mbind outcome_bind voter_best set_db]. rewrite Hb.
  cbn [unwrap mbind outcome_bind snd]. unfold new_best. by destruct (bl <? l + 1)%Z.
Qed.

Lemma fresh_proposer s (b : Block) :
  chain_inv s → ¬ known (config s) (db s) (hash b) → plev (db s) !! hash b = None.
Proof.
  intros [_ Hp _] Hf. destruct (plev (db s) !! hash b) eqn:E; [|done].
  destruct Hf. by eapply pi_known; eauto.
Qed.

Lemma fresh_voter s (b : Block) :
  chain_inv s → ¬ known (config s) (db s) (hash b) → vlev (db s) !! hash b = None.
Proof.
  intros [_ _ Hv] Hf. destruct (vlev (db s) !! hash b) eqn:E; [|done].
  destruct Hf. by eapply vi_known; eauto.
Qed.

Lemma insert_proposer_ok s b ct :
  chain_inv s → accepted s b → content b = CProposer ct →
  ∃ s', insert_block s b = Done s' ∧ chain_inv s' ∧ extends s s'.
Proof.
  intros Hinv [Hf Ha [Hs|[? ?]] Hr _] Hct; [|congruence]. pose proof Hinv as [Hc Hp Hv].
  destruct (availability_pass _ _ Ha) as [[l Hl] _].
  unfold check_content_semantic in Hs. rewrite Hct in Hs. inv_done. destruct v; [|done].
  unfold check_ref_proposer_level in Hv0. inv_done.
  apply unwrap_done in Hv1. change (plev (db s) !! parent (header b) = Some v) in Hv1.
  assert (v = l) as -> by congruence.
  pose proof (pi_range _ _ _ Hp _ _ Hl) as Hlr.
  pose proof (ref_levels_ok_true _ _ _ Hv0) as Hrl.
  pose proof (fresh_proposer _ _ Hinv Hf) as Hnb.
  eexists. split; [apply (insert_proposer_eq s b ct l); done || lia|].
  assert (∀ h, is_Some (plev (db s) !! h) → hash b ≠ h) as Hne by (intros ? [? ?] <-; congruence).
  split; split; cbn [db proposer_best_level voter_best unconfirmed_proposers
    proposer_ledger_tip voter_ledger_tips config]; try done.
  - eapply (proposer_inv_insert _ (db s)); eauto; lia.
  - eapply (voter_inv_frame _ (db s)); eauto.
    intros h Hh. simpl. by rewrite lookup_insert_ne.
  - intros h x Hx. simpl. rewrite lookup_insert_ne; [done|]. apply Hne. eauto.
  - intros h Hh. simpl. by rewrite lookup_insert_ne by auto.
  - intros h Hh. simpl. by rewrite lookup_insert_ne by auto.
  - intros h Hh. apply lookup_insert_is_Some'. by right.
  - lia.
  - intros h. simpl. rewrite elem_of_union, elem_of_singleton.
    destruct (decide (h = hash b)) as [->|Hn].
    + rewrite lookup_insert_eq. naive_solver.
    + rewrite lookup_insert_ne by done. destruct (plev (db s) !! h) eqn:E; naive_solver.
Qed.

Lemma insert_voter_ok s b ct :
  chain_inv s → accepted s b → content b = CVoter ct →
  ∃ s', insert_block s b = Done s' ∧ chain_inv s' ∧ extends s s'.
Proof.
  intros Hinv [Hf Ha [Hs|[? ?]] Hr Hvr] Hct; [|congruence]. pose proof Hinv as [Hc Hp Hv].
  destruct (availability_pass _ _ Ha) as [[v Hpv] Hav]. rewrite Hct in Hav.
  destruct Hav as [[l Hl] _].
  unfold check_content_semantic in Hs. rewrite Hct in Hs. inv_done. destruct v0; [|done].
  inv_done. destruct v0; [|done].
  destruct (vi_block _ _ _ Hv _ _ Hl) as (ch & v' & vs' & Hch & Hvv & _ & Hok).
  destruct (vi_chain _ _ _ Hv _ _ _ Hl Hch) as (Hchr & bh & bl & Hb & Hlb).
  assert (0 ≤ v')%Z by (destruct Hok as [(? & ? & -> & _)|(? & ? & ? & ? & ? & ? & ? & ? & _)]; lia).
  pose proof (pi_range _ _ _ Hp _ _ Hpv) as Hpr.
  destruct (levels_voted_true _ _ _ _ _ Hvv Hpv) as [Hle Hvotes]; [done|lia|done|].
  assert (bl + 1 < 2 ^ 64)%Z as Hroom.
  { rewrite Forall_lookup in Hvr. by apply (Hvr _ _ Hb). }
  pose proof (fresh_proposer _ _ Hinv Hf) as Hnb. pose proof (fresh_voter _ _ Hinv Hf) as Hnv.
  edestruct (insert_voter_eq s b ct l ch v bh bl) as [counts Heq]; [done..|lia|lia|].
  eexists. split; [exact Heq|].
  assert (∀ h, is_Some (vlev (db s) !! h) → hash b ≠ h) as Hne by (intros ? [? ?] <-; congruence).
  split; split; cbn [db proposer_best_level voter_best unconfirmed_proposers
    proposer_ledger_tip voter_ledger_tips config]; try done.
  - eapply (proposer_inv_frame _ (db s)); eauto.
  - eapply (voter_inv_insert _ (db s)); eauto; lia.
  - intros h Hh. simpl. by rewrite lookup_insert_ne by auto.
  - intros h Hh. simpl. by rewrite lookup_insert_ne by auto.
  - intros h Hh. simpl. by rewrite lookup_insert_ne by auto.
  - intros h Hh. apply lookup_insert_is_Some'. by right.
  - intros h Hh. simpl. by rewrite lookup_insert_ne by auto.
  - intros h Hh. simpl. by rewrite lookup_insert_ne by auto.
  - intros h. simpl. split; [by left|]. intros [|[E [? ?]]]; [done|congruence].
Qed.

Lemma insert_transaction_ok s b ct :
  chain_inv s → accepted s b → content b = CTransaction ct →
  ∃ s', insert_block s b = Done s' ∧ chain_inv s' ∧ extends s s'.
Proof.
  intros Hinv [Hf _ _ _ _] Hct. pose proof Hinv as [Hc Hp Hv].
  pose proof (fresh_proposer _ _ Hinv Hf) as Hnb.
  unfold insert_block. rewrite Hct. eexists. split; [reflexivity|].
  split; split; cbn [db proposer_best_level voter_best unconfirmed_proposers
    proposer_ledger_tip voter_ledger_tips config set_db set_unreferred_transactions];
    try done.
  - eapply (proposer_inv_frame _ (db s)); eauto.
  - eapply (voter_inv_frame _ (db s)); eauto.
  - intros h Hh. apply lookup_insert_is_Some'. by right.
  - intros h. simpl. split; [by left|]. intros [|[E [? ?]]]; [done|congruence].
Qed.

Lemma insert_block_ok s b :
  chain_inv s → accepted s b →
  ∃ s', insert_block s b = Done s' ∧ chain_inv s' ∧ extends s s'.
Proof.
  intros Hinv Hacc. destruct (content b) as [ct|ct|ct] eqn:Hct.
  - by eapply insert_transaction_ok.
  - by eapply insert_proposer_ok.
  - by eapply insert_voter_ok.
Qed.
End Insert.

(** ** Initialisation *)

(** The store with the genesis blocks of the first [k] voter chains. *)
Record genesis_db (c : BlockchainConfig) (k : nat) (d : Database) : Prop := {
  gd_plev : plev d = {[proposer_genesis c := 0%Z]};
  gd_ptree : ptree d = {[0%Z := [proposer_genesis c]]};
  gd_prefs : prefs d = {[proposer_genesis c := []]};
  gd_trefs : trefs d = {[proposer_genesis c := []]};
  gd_leaders : leaders d = {[0%Z := proposer_genesis c]};
  gd_orders : orders d = {[0%Z := [proposer_genesis c]]};
  gd_voter i h : i < k → voter_genesis c !! i = Some h →
    vlev d !! h = Some 0%Z ∧ vchain d !! h = Some (Z.of_nat i) ∧
    vvoted d !! h = Some 0%Z ∧ vvotes d !! h = Some [proposer_genesis c] ∧
    is_Some (parents d !! h) ∧ is_Some (vcount d !! (Z.of_nat i, 0%Z));
  gd_vlev h : is_Some (vlev d !! h) → ∃ i, i < k ∧ voter_genesis c !! i = Some h;
  gd_vvotes h : is_Some (vvotes d !! h) → ∃ i, i < k ∧ voter_genesis c !! i = Some h;
  gd_parents h : is_Some (parents d !! h) → ∃ i, i < k ∧ voter_genesis c !! i = Some h;
  gd_pvotes : default [] (pvotes d !! proposer_genesis c) =
    (λ i, (Z.of_nat i, 0%Z)) <$> seq 0 k;
  gd_pvotes_other h : h ≠ proposer_genesis c → pvotes d !! h = None;
  gd_counts : counts_ok (vlev d) (vchain d) (vcount d);
}.

#[local] Arguments voter_genesis_ops : simpl never.

(** The store after the batch of one voter genesis block. *)
Definition voter_genesis_db (d : Database) (g h : H256) (ch : Z) : Database :=
  mkDatabase (plev d) (<[h := 0%Z]> (vlev d)) (<[h := ch]> (vchain d))
    (<[(ch, 0%Z) := u64_plus_merge (vcount d !! (ch, 0%Z)) [1%Z]]> (vcount d)) (ptree d)
    (<[h := 0%Z]> (vvoted d))
    (<[g := default [] (pvotes d !! g) ++ [(ch, 0%Z)]]> (pvotes d)) (leaders d) (orders d)
    (<[g := u64_plus_merge (proposer_vote_count_map d !! g) [1%Z]]> (proposer_vote_count_map d))
    (<[h := g]> (parents d)) (<[h := [g]]> (vvotes d)) (vparent d) (trefs d) (prefs d).

Lemma write_voter_genesis d g h ch :
  vvotes d !! h = None → (ch, 0%Z) ∉ default [] (pvotes d !! g) →
  write d (voter_genesis_ops g h ch) = Done (voter_genesis_db d g h ch).
Proof.
  intros Hv Hn.
  assert (vote_vec_full_merge (pvotes d !! g) [[(true, ch, 0%Z)]] =
    Done (default [] (pvotes d !! g) ++ [(ch, 0%Z)])) as E.
  { rewrite vote_vec_full_concat. cbn -[vote_vec_step]. by rewrite vote_vec_add_step. }
  unfold write, voter_genesis_ops. cbn -[vote_vec_full_merge h256_vec_append_merge u64_plus_merge].
  rewrite E. cbn -[vote_vec_full_merge h256_vec_append_merge u64_plus_merge].
  by rewrite Hv.
Qed.

Section Init.
Context (c : BlockchainConfig).
Hypothesis Hc : config_wf c.

Definition genesis_ops (k : nat) : list WriteOp :=
  mjoin ((λ i, voter_genesis_ops (proposer_genesis c)
    (default h256_default (voter_genesis c !! i)) (Z.of_nat i)) <$> seq 0 k).

Lemma genesis_ops_S k :
  genesis_ops (S k) = genesis_ops k ++ voter_genesis_ops (proposer_genesis c)
    (default h256_default (voter_genesis c !! k)) (Z.of_nat k).
Proof.
  unfold genesis_ops. rewrite seq_S, fmap_app, join_app. done.
Qed.

Lemma voter_genesis_inj i j h :
  voter_genesis c !! i = Some h → voter_genesis c !! j = Some h → i = j.
Proof.
  destruct Hc as [_ _ Hn]. apply NoDup_cons in Hn as [_ Hn]. by apply NoDup_lookup.
Qed.

Lemma voter_genesis_not_proposer i : voter_genesis c !! i ≠ Some (proposer_genesis c).
Proof.
  destruct Hc as [_ _ Hn]. apply NoDup_cons in Hn as [Hn _]. intros Hi.
  apply Hn. by eapply list_elem_of_lookup_2.
Qed.

Lemma genesis_db_step k d h :
  genesis_db c k d → voter_genesis c !! k = Some h →
  ∃ d', write d (voter_genesis_ops (proposer_genesis c) h (Z.of_nat k)) = Done d' ∧
    genesis_db c (S k) d'.
Proof.
  intros Hd Hh.
  assert (h ≠ proposer_genesis c) as Hng by (intros ->; by eapply voter_genesis_not_proposer).
  assert (vvotes d !! h = None) as Hvn.
  { destruct (vvotes d !! h) eqn:E; [|done].
    destruct (gd_vvotes _ _ _ Hd h) as (i & ? & Hi); [eauto|].
    pose proof (voter_genesis_inj _ _ _ Hh Hi). lia. }
  assert ((Z.of_nat k, 0%Z) ∉ (default [] (pvotes d !! proposer_genesis c))) as Hnv.
  { rewrite (gd_pvotes _ _ _ Hd). rewrite list_elem_of_fmap. intros (i & [= ?] & Hi).
    apply elem_of_seq in Hi. lia. }
  eexists. split; [by apply write_voter_genesis|].
  split; unfold voter_genesis_db; db_simpl; try apply Hd.
  - intros i h' Hi Hh'. destruct (decide (i = k)) as [->|].
    + assert (h' = h) as -> by congruence. rewrite !lookup_insert_eq. eauto 10.
    + destruct (gd_voter _ _ _ Hd i h') as (? & ? & ? & ? & ? & ?); [lia|done|].
      assert (h ≠ h') by (intros <-; by pose proof (voter_genesis_inj _ _ _ Hh Hh')).
      rewrite !lookup_insert_ne by congruence || (intros [= ?]; lia). done.
  - intros h' Hs. destruct (decide (h = h')) as [<-|]; [eauto with lia|].
    rewrite lookup_insert_ne in Hs by done.
    destruct (gd_vlev _ _ _ Hd _ Hs) as (i & ? & ?). eauto with lia.
  - intros h' Hs. destruct (decide (h = h')) as [<-|]; [eauto with lia|].
    rewrite lookup_insert_ne in Hs by done.
    destruct (gd_vvotes _ _ _ Hd _ Hs) as (i & ? & ?). eauto with lia.
  - intros h' Hs. destruct (decide (h = h')) as [<-|]; [eauto with lia|].
    rewrite lookup_insert_ne in Hs by done.
    destruct (gd_parents _ _ _ Hd _ Hs) as (i & ? & ?). eauto with lia.
  - rewrite lookup_insert_eq. cbn [from_option id]. rewrite (gd_pvotes _ _ _ Hd).
    by rewrite seq_S, fmap_app.
  - intros h' Hh'. rewrite lookup_insert_ne by done. by apply (gd_pvotes_other _ _ _ Hd).
  - apply counts_ok_insert; [apply Hd|]. destruct (vlev d !! h) eqn:E; [|done].
    destruct (gd_vlev _ _ _ Hd h) as (i & ? & Hi); [eauto|].
    pose proof (voter_genesis_inj _ _ _ Hh Hi). lia.
Qed.

Lemma genesis_db_all k d :
  k ≤ length (voter_genesis c) → genesis_db c 0 d →
  ∃ d', write d (genesis_ops k) = Done d' ∧ genesis_db c k d'.
Proof.
  intros Hk Hd. induction k as [|k IH]; [by exists d|].
  destruct IH as (d1 & Hd1 & Hg); [lia|].
  destruct (lookup_lt_is_Some_2 (voter_genesis c) k) as [h Hh]; [lia|].
  destruct (genesis_db_step _ _ _ Hg Hh) as (d2 & Hd2 & Hg2). exists d2.
  rewrite genesis_ops_S, write_app, Hd1, Hh. done.
Qed.

(** The loop over the voter chains. *)
Lemma init_voter_chains wb k :
  k ≤ length (voter_genesis c) →
  foldM (init_voter_chain c)
    (wb, replicate (length (voter_genesis c)) (h256_default, 0%Z),
     replicate (length (voter_genesis c)) h256_default) (range 0 (Z.of_nat k)) =
  Done (wb ++ genesis_ops k,
    ((λ h, (h, 0%Z)) <$> take k (voter_genesis c)) ++
      replicate (length (voter_genesis c) - k) (h256_default, 0%Z),
    take k (voter_genesis c) ++ replicate (length (voter_genesis c) - k) h256_default).
Proof.
  intros Hk. induction k as [|k IH].
  - cbn. unfold genesis_ops. cbn. by rewrite app_nil_r, Nat.sub_0_r.
  - destruct (lookup_lt_is_Some_2 (voter_genesis c) k) as [h Hh]; [lia|].
    unfold range in *. replace (Z.of_nat (S k) - 0)%Z with (Z.of_nat k - 0 + 1)%Z by lia.
    rewrite seqZ_app, foldM_app, IH by lia.
    replace (0 + (Z.of_nat k - 0))%Z with (Z.of_nat k) by lia.
    rewrite seqZ_cons, seqZ_nil by lia. cbn [mbind outcome_bind foldM].
    unfold init_voter_chain. rewrite Nat2Z.id, Hh. cbn [unwrap mbind outcome_bind].
    replace (length (voter_genesis c) - k) with (S (length (voter_genesis c) - S k)) by lia.
    assert (length (take k (voter_genesis c)) = k) as Hl by (rewrite length_take; lia).
    cbn [replicate].
    rewrite !lookup_app_r by (rewrite ?length_fmap; lia). rewrite length_fmap, Hl, Nat.sub_diag.
    cbn [lookup list_lookup unwrap mbind outcome_bind].
    rewrite genesis_ops_S, Hh, <- app_assoc, (take_S_r _ _ _ Hh), fmap_app.
    rewrite !insert_app_r_alt by (rewrite ?length_fmap; lia).
    rewrite length_fmap, Hl, Nat.sub_diag, <- !app_assoc. done.
Qed.

Lemma genesis_proposer_inv k d : genesis_db c k d → proposer_inv c d 0.
Proof.
  intros Hd. split; rewrite ?(gd_plev _ _ _ Hd), ?(gd_ptree _ _ _ Hd); try lia.
  - by rewrite lookup_singleton_eq.
  - intros h l [_ <-]%lookup_singleton_Some. lia.
  - intros l bs [<- <-]%lookup_singleton_Some. split_and!; [done|apply NoDup_singleton|].
    intros h. rewrite lookup_singleton_Some. set_solver.
  - intros l Hl. assert (l = 0)%Z as -> by lia. by rewrite lookup_singleton_eq.
  - intros h l [<- <-]%lookup_singleton_Some. exists [], [].
    rewrite (gd_prefs _ _ _ Hd), (gd_trefs _ _ _ Hd), !lookup_singleton_eq.
    split_and!; [done..|set_solver|lia].
  - intros h [l [<- <-]%lookup_singleton_Some]. by left.
Qed.

Lemma genesis_voter_inv d :
  genesis_db c (length (voter_genesis c)) d →
  voter_inv c d ((λ h, (h, 0%Z)) <$> voter_genesis c).
Proof.
  intros Hd. pose proof Hc as [Hch Hlen Hnd].
  assert (∀ h, is_Some (vlev d !! h) → ∃ i, voter_genesis c !! i = Some h ∧
    vlev d !! h = Some 0%Z ∧ vchain d !! h = Some (Z.of_nat i) ∧
    vvoted d !! h = Some 0%Z ∧ vvotes d !! h = Some [proposer_genesis c] ∧
    is_Some (parents d !! h) ∧ is_Some (vcount d !! (Z.of_nat i, 0%Z))) as Hall.
  { intros h Hs. destruct (gd_vlev _ _ _ Hd _ Hs) as (i & Hi & Hh).
    exists i. split; [done|]. by apply (gd_voter _ _ _ Hd). }
  split.
  - by rewrite length_fmap.
  - intros h l Hl. destruct (Hall h) as (i & Hi & H1 & H2 & H3 & H4 & _); [eauto|].
    exists (Z.of_nat i), 0%Z, [proposer_genesis c]. split_and!; [done..|]. left.
    rewrite Nat2Z.id. split_and!; [congruence|done..].
  - intros h l ch Hl Hh. destruct (Hall h) as (i & Hi & H1 & H2 & _); [eauto|].
    assert (l = 0 ∧ ch = Z.of_nat i)%Z as [-> ->] by naive_solver.
    pose proof (lookup_lt_Some _ _ _ Hi). split; [lia|]. exists h, 0%Z.
    rewrite Nat2Z.id, list_lookup_fmap, Hi. split; [done|lia].
  - intros i h l Hi. rewrite list_lookup_fmap, fmap_Some in Hi.
    destruct Hi as (h' & Hi & [= -> ->]). pose proof (lookup_lt_Some _ _ _ Hi).
    destruct (gd_voter _ _ _ Hd i h') as (? & ? & _); [done..|]. split_and!; [done..|lia].
  - intros i h l k Hi Hk. rewrite list_lookup_fmap, fmap_Some in Hi.
    destruct Hi as (h' & Hi & [= -> ->]). pose proof (lookup_lt_Some _ _ _ Hi).
    assert (k = 0)%Z as -> by lia. by destruct (gd_voter _ _ _ Hd i h') as (?&?&?&?&?&?).
  - apply Hd.
  - intros h Hs. destruct (Hall h Hs) as (i & _ & _ & _ & _ & _ & ? & _). by right.
  - intros h Hs. destruct (Hall h Hs) as (i & Hi & _).
    rewrite (gd_plev _ _ _ Hd), lookup_singleton_ne; [done|]. intros <-.
    by eapply voter_genesis_not_proposer.
Qed.

Lemma BlockChain_new_ok :
  ∃ s, BlockChain_new c = Done s ∧ chain_inv s ∧
    genesis_db c (length (voter_genesis c)) (db s) ∧
    config s = c ∧ proposer_best_level s = 0%Z ∧ proposer_ledger_tip s = 0%Z ∧
    unconfirmed_proposers s = ∅ ∧ voter_ledger_tips s = voter_genesis c ∧
    voter_best s = (λ h, (h, 0%Z)) <$> voter_genesis c.
Proof.
  pose proof Hc as [Hch Hlen Hnd].
  assert (voter_chains c = Z.of_nat (length (voter_genesis c))) as Hn by lia.
  unfold BlockChain_new, open.
  cbn [set_unreferred_proposers voter_best voter_ledger_tips db].
  rewrite Hn, Nat2Z.id, init_voter_chains by lia. cbn [mbind outcome_bind].
  rewrite Nat.sub_diag, firstn_all. cbn [replicate]. rewrite !app_nil_r, write_app.
  match goal with |- context [write empty_database ?wb] =>
    assert (∃ d0, write empty_database wb = Done d0 ∧ genesis_db c 0 d0) as (d0 & -> & Hd0) end.
  { eexists. split; [reflexivity|]. split; try done; cbn; try lia.
    all: intros h; rewrite lookup_empty; by intros [? ?]. }
  cbn [mbind outcome_bind]. destruct (genesis_db_all (length (voter_genesis c)) d0) as (d & -> & Hd);
    [done..|].
  eexists. split; [reflexivity|]. cbn [db config proposer_best_level proposer_ledger_tip
    unconfirmed_proposers voter_ledger_tips voter_best set_db set_voter_best
    set_voter_ledger_tips set_unreferred_proposers].
  split_and!; try done. split; [done|by eapply genesis_proposer_inv|by apply genesis_voter_inv].
Qed.
End Init.
