(* ===== verification/ValidationTheorems.v ===== *)
(** * Properties of block validation

    What a block that passes the checks of [Validation] is known to satisfy: its references
    are stored, its content was fixed before its hash decided the type of the block, and
    its transactions carry the sender their signature recovers to. *)

From S2P Require Import Prelude Hash Merkle Float Transaction Config Block Store Chain Validation.
From S2P Require Import ChainInv.

(** ** Availability *)

(** [h] is a block that [b] refers to and that is not in the store. *)
Definition missing_ref (s : BlockChain) (b : Block) (h : H256) : Prop :=
  (h = parent (header b) ∧ contains_proposer s h = false) ∨
  match content b with
  | CProposer ct =>
      (h ∈ transaction_refs ct ∧ contains_transaction s h = false) ∨
      (h ∈ proposer_refs ct ∧ contains_proposer s h = false)
  | CVoter ct =>
      (h = voter_parent ct ∧ contains_voter s h = false) ∨
      (h ∈ votes ct ∧ contains_proposer s h = false)
  | CTransaction _ => False
  end.

Lemma elem_of_missing_singleton (found : bool) (x h : H256) :
  h ∈ (if found then [] else [x]) ↔ h = x ∧ found = false.
Proof. destruct found; set_solver. Qed.

Lemma missing_list s b :
  ∃ m, check_data_availability b s = (match m with [] => Pass | _ => MissingReferences m end) ∧
    ∀ h, h ∈ m ↔ missing_ref s b h.
Proof.
  unfold check_data_availability, missing_ref. eexists. split; [reflexivity|].
  intros h. rewrite elem_of_app, elem_of_missing_singleton.
  unfold check_proposer_block_exists.
  enough (h ∈ match content b with
    | CTransaction _ => []
    | CProposer ct => proposer_missing_references ct s
    | CVoter ct => voter_missing_references ct s end ↔ match content b with
    | CTransaction _ => False
    | CProposer ct => (h ∈ transaction_refs ct ∧ contains_transaction s h = false) ∨
        (h ∈ proposer_refs ct ∧ contains_proposer s h = false)
    | CVoter ct => (h = voter_parent ct ∧ contains_voter s h = false) ∨
        (h ∈ votes ct ∧ contains_proposer s h = false) end) by naive_solver.
  destruct (content b) as [|ct|ct]; [set_solver| |].
  - unfold proposer_missing_references. rewrite elem_of_app, !list_elem_of_filter.
    unfold check_transaction_block_exists, check_proposer_block_exists. tauto.
  - unfold voter_missing_references.
    rewrite elem_of_app, elem_of_missing_singleton, list_elem_of_filter.
    unfold check_voter_block_exists, check_proposer_block_exists. naive_solver.
Qed.

(** [check_data_availability] passes exactly when every block the new block refers to
    (its parent, its references, its voter parent, its votes) is stored, and otherwise
    reports exactly those that are not. *)
Theorem availability_exact (s : BlockChain) (b : Block) :
  (check_data_availability b s = Pass ↔ ∀ h, ¬ missing_ref s b h) ∧
  (∀ m, check_data_availability b s = MissingReferences m →
    m ≠ [] ∧ ∀ h, h ∈ m ↔ missing_ref s b h) ∧
  (check_data_availability b s = Pass ∨ ∃ m, check_data_availability b s = MissingReferences m).
Proof.
  destruct (missing_list s b) as (m & -> & Hm). destruct m as [|x m].
  - split_and!; [|done|by left]. split; [|done]. intros _ h Hh%Hm. set_solver.
  - split_and!; [|by intros ? [= <-]|by right; eexists].
    split; [done|]. intros Hn. destruct (Hn x). apply Hm. left.
Qed.

(** ** Sortition *)

Section Sortition.
Context `{Keccak, BincodeHeader, BigUint}.

(** The sortition id a content of this type must have. *)
Definition content_index (ct : Content) : Z :=
  match ct with
  | CProposer _ => PROPOSER_INDEX
  | CTransaction _ => TRANSACTION_INDEX
  | CVoter ct => u16 (chain_number ct + FIRST_VOTER_INDEX)
  end.

(** C40: A block that passes [check_pow_sortition_id] and [check_sortition_proof] commits to
    its content before the block type is drawn: its hash maps to the id of its content
    type, and whatever list of contents, one for each id, has the Merkle root in the
    header, the content of the block is (up to its hash) the one at that id, unless keccak
    collides on two of the strings hashed for the nodes of that tree and along the proof that
    the block carries. *)
Theorem sortition_commits_content (c : BlockchainConfig) (b : Block) (contents : list Content) t :
  (0 ≤ voter_chains c ≤ 65533)%Z →
  check_pow_sortition_id b c = Done Pass →
  check_sortition_proof b c = Done Pass →
  merkle_new contents = Done t →
  merkle_root t = content_merkle_root (header b) →
  Z.of_nat (length contents) = (voter_chains c + 2)%Z →
  sortition_hash c (hash b) (difficulty (header b)) = Done (Some (content_index (content b))) ∧
  ((∃ x, contents !! Z.to_nat (content_index (content b)) = Some x ∧
      hash x = hash (content b)) ∨
   keccak_collides (tree_strings t ++
     path_strings (Z.to_nat (content_index (content b))) (hash (content b)) (sortition_proof b))).
Proof.
  intros Hc Hpow Hproof Ht Hroot Hlen. rewrite merkle_new_ref in Ht. injection Ht as <-.
  unfold check_pow_sortition_id in Hpow. apply bind_done in Hpow as (r & Hr & Hpow).
  destruct r as [id|]; [|done].
  assert (id = content_index (content b)) as ->.
  { unfold content_index. case_if; [|done].
    match goal with E : (_ =? _)%Z = true |- _ => by apply Z.eqb_eq in E end. }
  split; [done|]. unfold check_sortition_proof in Hproof. rewrite Hr in Hproof.
  cbn [mbind outcome_bind] in Hproof. apply bind_done in Hproof as (ok & Hok & Hproof).
  destruct ok; [|done]. rewrite <- Hroot in Hok.
  replace (Z.to_nat (u16 (voter_chains c + FIRST_VOTER_INDEX))) with (length contents) in Hok.
  - by apply merkle_verify_leaf in Hok.
  - unfold u16, FIRST_VOTER_INDEX. rewrite wrap_small by lia. lia.
Qed.
End Sortition.

(** ** Signatures *)

Section Signatures.
Context `{Keccak, Rlp, PublicKeyCrypto}.

(** The signature of [t] recovers to the public key and sender it carries. *)
Definition signed_by_sender (t : Transaction) : Prop :=
  is_unsigned (tx_transaction t) = false ∧
  ∃ public, recover_public (tx_transaction t) = Ok public ∧
    tx_public t = Some public ∧ tx_sender t = public_to_address public.

(** [check_signature_batch] accepts a list of transactions exactly when each is signed
    and carries the public key and the sender its signature recovers to. *)
Theorem signature_batch_exact (txs : list Transaction) :
  check_signature_batch txs = true ↔ Forall signed_by_sender txs.
Proof.
  induction txs as [|t txs IH]; [done|]. rewrite Forall_cons, <- IH.
  cbn [check_signature_batch]. unfold deconstruct, verify_unordered, transaction_new, signed_by_sender.
  destruct (is_unsigned (tx_transaction t)); [naive_solver|].
  destruct (recover_public (tx_transaction t)) as [public|e]; cbn [try_bind]; [|naive_solver].
  cbn [tx_sender tx_public].
  destruct (decide (tx_sender t = public_to_address public)) as [Hs|Hs];
    [rewrite (bool_decide_false (_ ≠ _)) by tauto|
     rewrite (bool_decide_true (_ ≠ _)) by done; naive_solver].
  destruct (decide (tx_public t = Some public)) as [Hp|Hp];
    [rewrite (bool_decide_false (_ ≠ _)) by tauto|
     rewrite (bool_decide_true (_ ≠ _)) by done; naive_solver].
  cbn [orb]. naive_solver.
Qed.

(** The transaction with another value in its [hash] field. *)
Definition with_hash (t : Transaction) (h : H256) : Transaction :=
  mkTransaction (set_hash (tx_transaction t) h) (tx_sender t) (tx_public t).

(** Validation does not look at the [hash] field a transaction is received with: with any
    other value in it, the verdict on the signatures is the same, while the hash of the
    transaction, the leaf of the content root, is that value. *)
Theorem signature_batch_ignores_hash (txs : list Transaction) (hs : list H256) :
  length hs = length txs →
  check_signature_batch (zip_with with_hash txs hs) = check_signature_batch txs ∧
  hash <$> zip_with with_hash txs hs = hs.
Proof.
  revert hs. induction txs as [|t txs IH]; intros [|h hs] Hlen; try done.
  injection Hlen as Hlen. destruct (IH hs Hlen) as [IH1 IH2]. split.
  - cbn [zip_with check_signature_batch]. unfold deconstruct, verify_unordered.
    cbn [with_hash tx_transaction tx_sender tx_public]. rewrite transaction_new_set_hash.
    destruct (transaction_new (tx_transaction t)); cbn; [|done]. by rewrite IH1.
  - cbn. by rewrite IH2.
Qed.
End Signatures.

(** ** Evaluation on an example *)

Section Witnesses.
#[local] Existing Instances example_keccak example_rlp example_crypto example_biguint
  example_bincode.

(** One content for every id of a configuration with ten voter chains, and a transaction
    block mined on them. *)
Definition example_contents : list Content :=
  CProposer (mkProposerContent [] []) :: CTransaction (mkTransactionContent []) ::
  ((λ i, CVoter (mkVoterContent i (genesis_hash (i + 2)) [])) <$> range 0 10).

Definition example_tree : MerkleTree := ref_tree (hash <$> example_contents).

Definition example_mined_block : Block :=
  Block_new (h256 (2 ^ 90)) 0 7 (merkle_root example_tree)
    (match merkle_proof example_tree 1 with Done p => p | Panic => [] end)
    (CTransaction (mkTransactionContent [])) [] DEFAULT_DIFFICULTY.

Lemma sortition_commits_content_witness :
  sortition_hash example_config (hash example_mined_block) DEFAULT_DIFFICULTY = Done (Some 1%Z) ∧
  ((∃ x, example_contents !! 1 = Some x ∧
      hash x = hash (CTransaction (mkTransactionContent []))) ∨
   keccak_collides (tree_strings example_tree ++
     path_strings 1 (hash (CTransaction (mkTransactionContent [])))
       (sortition_proof example_mined_block))).
Proof.
  apply (sortition_commits_content example_config example_mined_block example_contents
    example_tree); [vm_compute; split; discriminate| | |apply merkle_new_ref|..];
    vm_compute; reflexivity.
Defined.

Lemma signature_batch_ignores_hash_witness :
  ∃ tx, sign example_raw_transaction (h256 77) (Some 3%Z) = Done tx ∧
    check_signature_batch [with_hash tx (h256 1)] = true ∧
    hash <$> [with_hash tx (h256 1)] = [h256 1].
Proof.
  destruct (sign example_raw_transaction (h256 77) (Some 3%Z)) as [tx|] eqn:E;
    [|vm_compute in E; discriminate].
  exists tx. split; [reflexivity|].
  destruct (signature_batch_ignores_hash [tx] [h256 1]) as [Hb Hh]; [reflexivity|].
  split; [|exact Hh]. assert (check_signature_batch [tx] = true) as Hok.
  { vm_compute in E. injection E as <-. vm_compute. reflexivity. }
  rewrite Hok in Hb. exact Hb.
Defined.
End Witnesses.
