(* ===== verification/VoteInv.v ===== *)
(** * The votes of a voter chain

    The specification of [Ledger.vote_diff]: the votes on the path from a voter block
    down to the genesis block of its chain, and that the function computes the
    difference of two such paths; then the votes that the store records. *)

From S2P Require Import Prelude Hash Transaction Config Block Store Chain Validation Leader Ledger.
From S2P Require Import ChainInv.

(** The votes on the path of [n] steps down from a block, each with the level of the
    voter block that cast it, the most recent first. *)
Fixpoint path_votes (d : Database) (n : nat) (h : H256) : list (H256 * Z) :=
  votes_at (Z.of_nat n) (default [] (vvotes d !! h)) ++
  match n with
  | O => []
  | S n => match vparent d !! h with Some p => path_votes d n p | None => [] end
  end.

(** The votes of the chain that ends in a block. *)
Definition chain_votes (d : Database) (h : H256) : list (H256 * Z) :=
  path_votes d (Z.to_nat (default 0%Z (vlev d !! h))) h.

Section Paths.
Context (c : BlockchainConfig) (d : Database) (best : Z) (vbest : list (H256 * Z)).
Hypothesis Hc : config_wf c.
Hypothesis Hp : proposer_inv c d best.
Hypothesis Hv : voter_inv c d vbest.

Lemma vlev_nonneg h l : vlev d !! h = Some l → (0 ≤ l < 2 ^ 64)%Z.
Proof.
  intros Hl. destruct (vi_block _ _ _ Hv _ _ Hl) as (ch & v & vs & Hch & _).
  destruct (vi_chain _ _ _ Hv _ _ _ Hl Hch) as (_ & bh & bl & Hb & ?).
  destruct (vi_best _ _ _ Hv _ _ _ Hb) as (_ & _ & ?). lia.
Qed.

(** A block above the genesis block: its votes, and the votes of its parent. *)
Lemma chain_votes_step h l ch :
  vlev d !! h = Some l → vchain d !! h = Some ch → (0 < l)%Z →
  ∃ p vs v v', vvotes d !! h = Some vs ∧ vparent d !! h = Some p ∧
    vlev d !! p = Some (l - 1)%Z ∧ vchain d !! p = Some ch ∧
    vvoted d !! h = Some v ∧ vvoted d !! p = Some v' ∧ (0 ≤ v' ≤ v)%Z ∧
    Forall2 (λ x lx, plev d !! x = Some lx) vs (range_incl (v' + 1) v) ∧
    chain_votes d h = votes_at l vs ++ chain_votes d p.
Proof.
  intros Hl Hch H0. destruct (vi_block _ _ _ Hv _ _ Hl) as (ch' & v & vs & Hch' & Hvv & Hvs & Hok).
  assert (ch' = ch) as -> by congruence.
  destruct Hok as [[? _]|(_ & p & v' & Hpar & Hpl & Hpc & Hpv & Hle & Hf)]; [lia|].
  exists p, vs, v, v'. split_and!; [done..|lia|lia|done|].
  unfold chain_votes. rewrite Hl, Hpl. cbn [from_option id].
  replace (Z.to_nat l) with (S (Z.to_nat (l - 1))) by lia.
  cbn [path_votes]. rewrite Hvs, Hpar. cbn [from_option id].
  replace (Z.of_nat (S (Z.to_nat (l - 1)))) with l by lia. done.
Qed.

Lemma chain_votes_genesis h ch :
  vlev d !! h = Some 0%Z → vchain d !! h = Some ch →
  voter_genesis c !! Z.to_nat ch = Some h ∧ vvoted d !! h = Some 0%Z ∧
  chain_votes d h = [(proposer_genesis c, 0%Z)].
Proof.
  intros Hl Hch. destruct (vi_block _ _ _ Hv _ _ Hl) as (ch' & v & vs & Hch' & Hvv & Hvs & Hok).
  assert (ch' = ch) as -> by congruence.
  destruct Hok as [(_ & Hg & -> & ->)|[? _]]; [|lia]. split_and!; [done..|].
  unfold chain_votes. rewrite Hl. cbn [from_option id]. change (Z.to_nat 0) with 0.
  cbn [path_votes]. by rewrite Hvs.
Qed.

(** *** [vote_diff] *)

(** The two ends of the walk are on the chain [ch], at the levels recorded. *)
Record diff_ok (ch : Z) (st : DiffState) : Prop := {
  do_to : vlev d !! diff_to st = Some (diff_to_level st);
  do_to_chain : vchain d !! diff_to st = Some ch;
  do_from : vlev d !! diff_from st = Some (diff_from_level st);
  do_from_chain : vchain d !! diff_from st = Some ch;
}.

(** The votes collected so far, and those still ahead. *)
Definition diff_added (st : DiffState) := added_votes st ++ chain_votes d (diff_to st).
Definition diff_removed (st : DiffState) := removed_votes st ++ chain_votes d (diff_from st).

Lemma step_to_ok ch st :
  diff_ok ch st → (0 < diff_to_level st)%Z →
  ∃ st', step_to d st = Done st' ∧ diff_ok ch st' ∧
    diff_to_level st' = (diff_to_level st - 1)%Z ∧
    diff_from_level st' = diff_from_level st ∧
    diff_from st' = diff_from st ∧ removed_votes st' = removed_votes st ∧
    diff_added st' = diff_added st ∧ diff_removed st' = diff_removed st.
Proof.
  intros [H1 H2 H3 H4] H0. pose proof (vlev_nonneg _ _ H1).
  destruct (chain_votes_step _ _ _ H1 H2 H0)
    as (p & vs & v & v' & Hvs & Hpar & Hpl & Hpc & _ & _ & _ & _ & Hcv).
  unfold step_to, get_cf. cbn [cf_get vote_neighbor_cf voter_parent_neighbor_cf].
  rewrite Hvs, Hpar. cbn [unwrap mbind outcome_bind]. rewrite u64_small by lia.
  eexists. split; [done|]. split; [by split|]. unfold diff_added, diff_removed.
  cbn [diff_to diff_to_level diff_from diff_from_level added_votes removed_votes].
  split_and!; try done. by rewrite Hcv, app_assoc.
Qed.

Lemma step_from_ok ch st :
  diff_ok ch st → (0 < diff_from_level st)%Z →
  ∃ st', step_from d st = Done st' ∧ diff_ok ch st' ∧
    diff_from_level st' = (diff_from_level st - 1)%Z ∧
    diff_to_level st' = diff_to_level st ∧
    diff_added st' = diff_added st ∧ diff_removed st' = diff_removed st.
Proof.
  intros [H1 H2 H3 H4] H0. pose proof (vlev_nonneg _ _ H3).
  destruct (chain_votes_step _ _ _ H3 H4 H0)
    as (p & vs & v & v' & Hvs & Hpar & Hpl & Hpc & _ & _ & _ & _ & Hcv).
  unfold step_from, get_cf. cbn [cf_get vote_neighbor_cf voter_parent_neighbor_cf].
  rewrite Hvs, Hpar. cbn [unwrap mbind outcome_bind]. rewrite u64_small by lia.
  eexists. split; [done|]. split; [by split|]. unfold diff_added, diff_removed.
  cbn [diff_to diff_to_level diff_from diff_from_level added_votes removed_votes].
  split_and!; try done. by rewrite Hcv, app_assoc.
Qed.

Lemma level_loop_ok ch st n :
  diff_ok ch st → (Z.abs (diff_to_level st - diff_from_level st) ≤ Z.of_nat n)%Z →
  ∃ st', (∀ fuel, n < fuel → level_loop fuel d st = Done st') ∧ diff_ok ch st' ∧
    diff_to_level st' = diff_from_level st' ∧
    (diff_to_level st' ≤ diff_to_level st)%Z ∧
    diff_added st' = diff_added st ∧ diff_removed st' = diff_removed st.
Proof.
  revert st. induction n as [|n IH]; intros st Hok Hn.
  - exists st. split_and!; try done; [|lia..]. intros [|fuel] Hf; [lia|]. simpl.
    by rewrite (proj2 (Z.eqb_eq _ _)) by lia.
  - destruct (decide (diff_to_level st = diff_from_level st)) as [He|Hne].
    { exists st. split_and!; try done. intros [|fuel] Hf; [lia|]. simpl.
      by rewrite (proj2 (Z.eqb_eq _ _)). }
    pose proof (vlev_nonneg _ _ (do_to _ _ Hok)). pose proof (vlev_nonneg _ _ (do_from _ _ Hok)).
    destruct (Z.ltb (diff_from_level st) (diff_to_level st)) eqn:Hlt.
    + apply Z.ltb_lt in Hlt as Hlt'.
      destruct (step_to_ok ch st Hok) as (st1 & Hs & Hok1 & Ht & Hf & _ & _ & Ha & Hr); [lia|].
      destruct (IH st1 Hok1) as (st2 & Hl & ? & ? & ? & ? & ?); [lia|].
      exists st2. split_and!; [|done..|lia|congruence|congruence].
      intros [|fuel] Hfu; [lia|]. simpl. rewrite (proj2 (Z.eqb_neq _ _)), Hlt, Hs by done.
      apply Hl. lia.
    + apply Z.ltb_ge in Hlt as Hlt'.
      destruct (step_from_ok ch st Hok) as (st1 & Hs & Hok1 & Hf & Ht & Ha & Hr); [lia|].
      destruct (IH st1 Hok1) as (st2 & Hl & ? & ? & ? & ? & ?); [lia|].
      exists st2. split_and!; [|done..|lia|congruence|congruence].
      intros [|fuel] Hfu; [lia|]. simpl. rewrite (proj2 (Z.eqb_neq _ _)), Hlt, Hs by done.
      apply Hl. lia.
Qed.

Lemma fork_loop_ok ch st n :
  diff_ok ch st → diff_to_level st = diff_from_level st →
  (diff_to_level st ≤ Z.of_nat n)%Z →
  ∃ st', (∀ fuel, n < fuel → fork_loop fuel d st = Done st') ∧ diff_ok ch st' ∧
    diff_to st' = diff_from st' ∧
    diff_added st' = diff_added st ∧ diff_removed st' = diff_removed st.
Proof.
  revert st. induction n as [|n IH]; intros st Hok He Hn;
    pose proof (vlev_nonneg _ _ (do_to _ _ Hok)) as Hnn.
  - destruct Hok as [H1 H2 H3 H4]. assert (diff_to_level st = 0)%Z as E by lia.
    rewrite <- He, E in *. destruct (chain_votes_genesis _ _ H1 H2) as [Hg1 _].
    destruct (chain_votes_genesis _ _ H3 H4) as [Hg2 _].
    assert (diff_to st = diff_from st) by congruence.
    exists st. split_and!; try done; [|by split; rewrite ?E, <- ?He].
    intros [|fuel] Hf; [lia|]. simpl. by rewrite decide_True.
  - destruct (decide (diff_to st = diff_from st)) as [Heq|Hne].
    { exists st. split_and!; try done. intros [|fuel] Hf; [lia|]. simpl. by rewrite decide_True. }
    destruct (decide (diff_to_level st = 0)%Z) as [E|].
    { destruct Hok as [H1 H2 H3 H4]. rewrite <- He, E in *.
      destruct (chain_votes_genesis _ _ H1 H2) as [Hg1 _].
      destruct (chain_votes_genesis _ _ H3 H4) as [Hg2 _]. congruence. }
    destruct (step_to_ok ch st Hok) as (st1 & Hs1 & Hok1 & Ht1 & Hf1 & _ & _ & Ha1 & Hr1); [lia|].
    destruct (step_from_ok ch st1 Hok1) as (st2 & Hs2 & Hok2 & Hf2 & Ht2 & Ha2 & Hr2); [lia|].
    destruct (IH st2 Hok2) as (st3 & Hl & ? & ? & ? & ?); [lia..|].
    exists st3. split_and!; [|done..|congruence|congruence].
    intros [|fuel] Hfu; [lia|]. simpl. rewrite decide_False, Hs1 by done. simpl.
    rewrite Hs2. simpl. apply Hl. lia.
Qed.

(** The difference of two chains: what each adds to the block where they fork. *)
Lemma vote_diff_ok from to lf lt ch :
  vlev d !! from = Some lf → vchain d !! from = Some ch →
  vlev d !! to = Some lt → vchain d !! to = Some ch →
  ∃ n added removed fork,
    (∀ fuel, n ≤ fuel → vote_diff fuel d from to = Done (added, removed)) ∧
    (∃ l, vlev d !! fork = Some l) ∧ vchain d !! fork = Some ch ∧
    chain_votes d to = added ++ chain_votes d fork ∧
    chain_votes d from = removed ++ chain_votes d fork.
Proof.
  intros Hf Hfc Ht Htc. set (st := mkDiff to lt from lf [] []).
  assert (diff_ok ch st) as Hok by by split.
  pose proof (vlev_nonneg _ _ Hf). pose proof (vlev_nonneg _ _ Ht).
  destruct (level_loop_ok ch st (Z.to_nat (Z.abs (lt - lf))) Hok)
    as (st1 & Hl1 & Hok1 & He & Hle & Ha1 & Hr1); [simpl; lia|].
  destruct (fork_loop_ok ch st1 (Z.to_nat lt) Hok1 He) as (st2 & Hl2 & Hok2 & Heq & Ha2 & Hr2);
    [simpl in *; lia|].
  exists (S (Z.to_nat (Z.abs (lt - lf)) + Z.to_nat lt)), (added_votes st2), (removed_votes st2),
    (diff_to st2).
  split_and!.
  - intros fuel Hfu. unfold vote_diff, get_cf. cbn [cf_get voter_node_level_cf].
    rewrite Ht, Hf. cbn [unwrap mbind outcome_bind]. fold st.
    rewrite Hl1 by lia. cbn [mbind outcome_bind]. by rewrite Hl2 by lia.
  - eexists. apply Hok2.
  - apply Hok2.
  - transitivity (diff_added st2); [|done]. by rewrite Ha2, Ha1.
  - transitivity (diff_removed st2); [by rewrite Hr2, Hr1|].
    unfold diff_removed. by rewrite Heq.
Qed.

(** *** A chain votes once for every level *)

Lemma range_incl_app a b e :
  (a ≤ b + 1)%Z → (b ≤ e)%Z → range_incl a e = range_incl a b ++ range_incl (b + 1) e.
Proof.
  intros Hab Hbe. unfold range_incl.
  replace (e - a + 1)%Z with ((b - a + 1) + (e - (b + 1) + 1))%Z by lia.
  rewrite seqZ_app by lia. f_equal. f_equal. lia.
Qed.

Lemma votes_at_levels l vs ls :
  Forall2 (λ x lx, plev d !! x = Some lx) vs ls →
  Forall2 (λ x lx, plev d !! x.1 = Some lx) (votes_at l vs) ls.
Proof. induction 1; simpl; constructor; done. Qed.

Lemma chain_votes_levels h l ch v :
  vlev d !! h = Some l → vchain d !! h = Some ch → vvoted d !! h = Some v →
  ∃ ls, Forall2 (λ x lx, plev d !! x.1 = Some lx) (chain_votes d h) ls ∧
    ls ≡ₚ range_incl 0 v ∧ Forall (λ x : H256 * Z, 0 ≤ x.2 ≤ l)%Z (chain_votes d h).
Proof.
  remember (Z.to_nat l) as n eqn:Hn. revert h l v Hn.
  induction n as [|n IH]; intros h l v Hn Hl Hch Hvv; pose proof (vlev_nonneg _ _ Hl).
  - assert (l = 0)%Z as -> by lia. destruct (chain_votes_genesis _ _ Hl Hch) as (_ & Hv0 & ->).
    assert (v = 0)%Z as -> by congruence. exists [0%Z]. split_and!.
    + constructor; [apply Hp|constructor].
    + done.
    + constructor; [simpl; lia|constructor].
  - destruct (chain_votes_step _ _ _ Hl Hch) as (p & vs & v1 & v' & _ & _ & Hpl & Hpc & Hv1 & Hpv & Hle & Hf & ->);
      [lia|]. assert (v1 = v) as -> by congruence.
    destruct (IH p (l - 1)%Z v') as (ls & Hls & Hperm & Hk); [lia|done..|].
    exists (range_incl (v' + 1) v ++ ls). split_and!.
    + apply Forall2_app; [by apply votes_at_levels|done].
    + rewrite Hperm, (range_incl_app 0 v' v) by lia. apply Permutation_app_comm.
    + apply Forall_app. split.
      * unfold votes_at. rewrite Forall_fmap. apply Forall_true. intros x. simpl. lia.
      * eapply Forall_impl; [exact Hk|]. simpl. lia.
Qed.

Lemma chain_votes_elem h l ch x k :
  vlev d !! h = Some l → vchain d !! h = Some ch → (x, k) ∈ chain_votes d h →
  (0 ≤ k ≤ l)%Z ∧ ∃ lx, plev d !! x = Some lx.
Proof.
  intros Hl Hch Hx. destruct (vi_block _ _ _ Hv _ _ Hl) as (_ & v & _ & _ & Hvv & _).
  destruct (chain_votes_levels _ _ _ _ Hl Hch Hvv) as (ls & Hls & _ & Hk). split.
  - rewrite Forall_forall in Hk. by apply (Hk _ Hx).
  - apply list_elem_of_lookup in Hx as (i & Hi).
    destruct (Forall2_lookup_l _ _ _ _ _ Hls Hi) as (lx & _ & ?). eauto.
Qed.

(** Two votes for the same level are the same vote. *)
Lemma chain_votes_lookup_inj h l ch i j x k y m :
  vlev d !! h = Some l → vchain d !! h = Some ch →
  chain_votes d h !! i = Some (x, k) → chain_votes d h !! j = Some (y, m) →
  plev d !! x = plev d !! y → i = j.
Proof.
  intros Hl Hch Hi Hj He. destruct (vi_block _ _ _ Hv _ _ Hl) as (_ & v & _ & _ & Hvv & _).
  destruct (chain_votes_levels _ _ _ _ Hl Hch Hvv) as (ls & Hls & Hperm & _).
  destruct (Forall2_lookup_l _ _ _ _ _ Hls Hi) as (lx & Hlx & Hx).
  destruct (Forall2_lookup_l _ _ _ _ _ Hls Hj) as (ly & Hly & Hy). simpl in *.
  assert (lx = ly) as <- by congruence.
  assert (NoDup ls) as Hnd by (rewrite Hperm; apply NoDup_seqZ).
  by eapply NoDup_lookup.
Qed.

Lemma chain_votes_unique h l ch x k y m :
  vlev d !! h = Some l → vchain d !! h = Some ch →
  (x, k) ∈ chain_votes d h → (y, m) ∈ chain_votes d h →
  plev d !! x = plev d !! y → x = y ∧ k = m.
Proof.
  intros Hl Hch (i & Hi)%list_elem_of_lookup (j & Hj)%list_elem_of_lookup He.
  assert (i = j) as <- by (eapply chain_votes_lookup_inj; eauto). naive_solver.
Qed.

Lemma chain_votes_NoDup h l ch :
  vlev d !! h = Some l → vchain d !! h = Some ch → NoDup (chain_votes d h).
Proof.
  intros Hl Hch. apply NoDup_alt. intros i j [x k] Hi Hj.
  by eapply chain_votes_lookup_inj.
Qed.

(** The vote of the genesis block is at the end of every chain. *)
Lemma chain_votes_has_genesis h l ch :
  vlev d !! h = Some l → vchain d !! h = Some ch →
  (proposer_genesis c, 0%Z) ∈ chain_votes d h.
Proof.
  remember (Z.to_nat l) as n eqn:Hn. revert h l Hn.
  induction n as [|n IH]; intros h l Hn Hl Hch; pose proof (vlev_nonneg _ _ Hl).
  - assert (l = 0)%Z as -> by lia. destruct (chain_votes_genesis _ _ Hl Hch) as (_ & _ & ->).
    set_solver.
  - destruct (chain_votes_step _ _ _ Hl Hch) as (p & vs & v1 & v' & _ & _ & Hpl & Hpc & _ & _ & _ & _ & ->);
      [lia|]. apply elem_of_app. right. apply (IH p (l - 1)%Z); [lia|done..].
Qed.

(** The votes a chain adds above a fork are not for level 0. *)
Lemma chain_votes_prefix_level h l ch pre fork lf x k :
  vlev d !! h = Some l → vchain d !! h = Some ch →
  vlev d !! fork = Some lf → vchain d !! fork = Some ch →
  chain_votes d h = pre ++ chain_votes d fork → (x, k) ∈ pre →
  ∃ lx, plev d !! x = Some lx ∧ (1 ≤ lx ≤ best)%Z.
Proof.
  intros Hl Hch Hfl Hfc He Hx.
  assert ((x, k) ∈ chain_votes d h) as Hxh by (rewrite He; set_solver).
  destruct (chain_votes_elem _ _ _ _ _ Hl Hch Hxh) as (_ & lx & Hlx).
  exists lx. split; [done|]. pose proof (pi_range _ _ _ Hp _ _ Hlx).
  destruct (decide (lx = 0)%Z) as [->|]; [|lia]. exfalso.
  pose proof (chain_votes_has_genesis _ _ _ Hfl Hfc) as Hg.
  pose proof (chain_votes_NoDup _ _ _ Hl Hch) as Hnd. rewrite He in Hnd.
  apply NoDup_app in Hnd as (_ & Hdis & _). apply (Hdis _ Hx).
  assert ((proposer_genesis c, 0%Z) ∈ chain_votes d h) as Hgh by (rewrite He; set_solver).
  destruct (chain_votes_unique _ _ _ _ _ _ _ Hl Hch Hxh Hgh) as [-> ->]; [|done].
  rewrite Hlx. symmetry. apply Hp.
Qed.
End Paths.

(** * The recorded votes

    The column family [PROPOSER_NODE_VOTE] holds, for every proposer block, exactly the
    votes of the voter chains up to their ledger tips; [Ledger.update_votes] moves it to
    the new tips without a panic. *)

(** ** Sets of votes *)

Definition vote_in (m : gmap H256 (list (Z * Z))) (x : H256) (ch k : Z) : Prop :=
  (ch, k) ∈ default [] (m !! x).
Definition votes_nodup (m : gmap H256 (list (Z * Z))) : Prop :=
  ∀ x, NoDup (default [] (m !! x)).

(** The batch that records the votes [L] of a chain as added or removed. *)
Definition vote_ops (ch : Z) (add : bool) (L : list (H256 * Z)) : list WriteOp :=
  (λ v, merge_cf proposer_node_vote_cf v.1 [(add, ch, v.2)]) <$> L.

Section VoteOps.
Context (ch : Z).

Lemma vote_in_insert m x l y c k :
  vote_in (<[x := l]> m) y c k ↔ (y = x ∧ (c, k) ∈ l) ∨ (y ≠ x ∧ vote_in m y c k).
Proof.
  unfold vote_in. destruct (decide (x = y)) as [->|].
  - rewrite lookup_insert_eq. naive_solver.
  - rewrite lookup_insert_ne by done. naive_solver.
Qed.

Lemma votes_nodup_insert m x l : votes_nodup m → NoDup l → votes_nodup (<[x := l]> m).
Proof.
  intros Hm Hl y. destruct (decide (x = y)) as [->|];
    [by rewrite lookup_insert_eq|rewrite lookup_insert_ne by done; apply Hm].
Qed.

Lemma merge_add d x k :
  votes_nodup (pvotes d) →
  ∃ m, merge_cf proposer_node_vote_cf x [(true, ch, k)] d =
      Done (cf_set proposer_node_vote_cf m d) ∧ votes_nodup m ∧
    ∀ y c j, vote_in m y c j ↔ vote_in (pvotes d) y c j ∨ (y, c, j) = (x, ch, k).
Proof.
  intros Hn. set (l := default [] (pvotes d !! x)).
  assert (vote_vec_full_merge (pvotes d !! x) [[(true, ch, k)]] =
    Done (if bool_decide ((ch, k) ∈ l) then l else l ++ [(ch, k)])) as E.
  { rewrite vote_vec_full_concat. cbn. done. }
  unfold merge_cf. cbn [full_merge vote_vec_operator cf_get proposer_node_vote_cf].
  rewrite E. cbn [mbind outcome_bind]. eexists. split; [done|]. split.
  - apply votes_nodup_insert; [done|]. case_bool_decide; [apply Hn|].
    apply NoDup_app. split_and!; [apply Hn| |apply NoDup_singleton].
    intros v Hv ->%list_elem_of_singleton. done.
  - intros y c j. rewrite vote_in_insert. case_bool_decide; unfold vote_in, l in *.
    + split; [naive_solver|]. intros [?|[= -> -> ->]]; [|by left].
      destruct (decide (y = x)) as [->|]; naive_solver.
    + rewrite elem_of_app, list_elem_of_singleton.
      destruct (decide (y = x)) as [->|]; naive_solver.
Qed.

Lemma merge_remove d x k :
  votes_nodup (pvotes d) → vote_in (pvotes d) x ch k →
  ∃ m, merge_cf proposer_node_vote_cf x [(false, ch, k)] d =
      Done (cf_set proposer_node_vote_cf m d) ∧ votes_nodup m ∧
    ∀ y c j, vote_in m y c j ↔ vote_in (pvotes d) y c j ∧ (y, c, j) ≠ (x, ch, k).
Proof.
  intros Hn Hin. destruct (vote_vec_remove_step _ _ _ Hin) as (l & Hl & Hp).
  assert (vote_vec_full_merge (pvotes d !! x) [[(false, ch, k)]] = Done l) as E.
  { rewrite vote_vec_full_concat. cbn [mjoin list_join foldM app]. by rewrite Hl. }
  unfold merge_cf. cbn [full_merge vote_vec_operator cf_get proposer_node_vote_cf].
  rewrite E. cbn [mbind outcome_bind]. eexists. split; [done|].
  pose proof (Hn x) as Hnx. rewrite <- Hp in Hnx. apply NoDup_cons in Hnx as [Hnk Hnl].
  split; [by apply votes_nodup_insert|]. intros y c j. rewrite vote_in_insert.
  destruct (decide (y = x)) as [->|]; [|naive_solver]. unfold vote_in at 2.
  rewrite <- Hp, elem_of_cons. naive_solver.
Qed.

Lemma write_adds d L :
  votes_nodup (pvotes d) →
  ∃ m, write d (vote_ops ch true L) = Done (cf_set proposer_node_vote_cf m d) ∧
    votes_nodup m ∧
    ∀ y c j, vote_in m y c j ↔ vote_in (pvotes d) y c j ∨ (c = ch ∧ (y, j) ∈ L).
Proof.
  revert d. induction L as [|[x k] L IH]; intros d Hn.
  - exists (pvotes d). split_and!; [by destruct d|done|]. set_solver.
  - destruct (merge_add d x k Hn) as (m1 & H1 & Hn1 & Hm1).
    destruct (IH (cf_set proposer_node_vote_cf m1 d)) as (m & H2 & Hn2 & Hm2); [done|].
    exists m. split_and!; [|done|].
    + unfold vote_ops. rewrite fmap_cons, write_cons. cbn [fst snd]. rewrite H1. exact H2.
    + intros y c j. rewrite Hm2. cbn. rewrite Hm1, elem_of_cons. naive_solver.
Qed.

Lemma write_removes d L :
  votes_nodup (pvotes d) → NoDup L → (∀ x k, (x, k) ∈ L → vote_in (pvotes d) x ch k) →
  ∃ m, write d (vote_ops ch false L) = Done (cf_set proposer_node_vote_cf m d) ∧
    votes_nodup m ∧
    ∀ y c j, vote_in m y c j ↔ vote_in (pvotes d) y c j ∧ ¬ (c = ch ∧ (y, j) ∈ L).
Proof.
  revert d. induction L as [|[x k] L IH]; intros d Hn HL Hin.
  - exists (pvotes d). split_and!; [by destruct d|done|]. set_solver.
  - apply NoDup_cons in HL as [Hx HL].
    destruct (merge_remove d x k Hn) as (m1 & H1 & Hn1 & Hm1); [apply Hin; left|].
    destruct (IH (cf_set proposer_node_vote_cf m1 d)) as (m & H2 & Hn2 & Hm2); [done..| |].
    { intros y j Hy. cbn. rewrite Hm1. split; [apply Hin; by right|]. naive_solver. }
    exists m. split_and!; [|done|].
    + unfold vote_ops. rewrite fmap_cons, write_cons. cbn [fst snd]. rewrite H1. exact H2.
    + intros y c j. rewrite Hm2. cbn. rewrite Hm1, elem_of_cons. naive_solver.
Qed.
End VoteOps.

(** ** The invariant *)

Record votes_inv (d : Database) (tips : list H256) : Prop := {
  vt_tip i h : tips !! i = Some h →
    ∃ l, vlev d !! h = Some l ∧ vchain d !! h = Some (Z.of_nat i);
  vt_nodup : votes_nodup (pvotes d);
  vt_votes x ch k : vote_in (pvotes d) x ch k ↔
    ∃ i h, ch = Z.of_nat i ∧ tips !! i = Some h ∧ (x, k) ∈ chain_votes d h;
}.

(** The affected range: empty, or levels of the proposer tree above the genesis. *)
Definition range_ok (best : Z) (r : Z * Z) : Prop :=
  r = (2 ^ 64 - 1, 0)%Z ∨ (1 ≤ r.1 < r.2 ∧ r.2 ≤ best + 1)%Z.

Lemma widen_ok best r l :
  (best < 2 ^ 64 - 1)%Z → range_ok best r → (1 ≤ l ≤ best)%Z → range_ok best (widen r l).
Proof.
  intros Hb Hr Hl. destruct r as [a b]. unfold range_ok, widen in *.
  rewrite u64_small by lia. right. cbn [fst snd] in *.
  destruct (Z.ltb_spec l a), (Z.leb_spec b l); destruct Hr as [[= -> ->]|Hr]; cbn; lia.
Qed.

Lemma apply_votes_ok best d ch add L wb r :
  (best < 2 ^ 64 - 1)%Z → range_ok best r →
  (∀ x k, (x, k) ∈ L → ∃ lx, plev d !! x = Some lx ∧ (1 ≤ lx ≤ best)%Z) →
  ∃ r', foldM (apply_vote d ch add) (wb, r) L = Done (wb ++ vote_ops ch add L, r') ∧
    range_ok best r'.
Proof.
  intros Hb. revert wb r. induction L as [|[x k] L IH]; intros wb r Hr HL; simpl.
  - exists r. by rewrite app_nil_r.
  - destruct (HL x k) as (lx & Hlx & ?); [left|]. unfold get_cf. simpl. rewrite Hlx. simpl.
    destruct (IH (wb ++ [merge_cf proposer_node_vote_cf x [(add, ch, k)]]) (widen r lx))
      as (r' & Hf & Hr'); [by apply widen_ok|intros; eapply HL; by right|].
    exists r'. split; [|done]. rewrite Hf. by rewrite <- app_assoc.
Qed.

(** The votes of a chain only depend on the voter blocks. *)
Lemma chain_votes_set_votes d m h :
  chain_votes (cf_set proposer_node_vote_cf m d) h = chain_votes d h.
Proof.
  unfold chain_votes. cbn [voter_node_level_map cf_set proposer_node_vote_cf].
  generalize (Z.to_nat (default 0%Z (vlev d !! h))) as n. intros n. revert h.
  induction n as [|n IH]; intros h; [done|]. cbn [path_votes].
  cbn [vote_neighbor_map voter_parent_neighbor_map cf_set proposer_node_vote_cf].
  f_equal. destruct (vparent d !! h); [apply IH|done].
Qed.

(** ** One chain *)

Section UpdateVotes.
Context (s : BlockChain).
Hypothesis Hinv : chain_inv s.

Abbreviation set_votes m := (cf_set proposer_node_vote_cf m (db s)).

(** Membership after moving the tip of chain [i] across a fork. *)
Lemma vote_in_moved (tips : list H256) i from to m m' added removed fork :
  tips !! i = Some from → NoDup (removed ++ fork) →
  (∀ x ch k, vote_in m x ch k ↔
    ∃ j h, ch = Z.of_nat j ∧ tips !! j = Some h ∧ (x, k) ∈ chain_votes (db s) h) →
  chain_votes (db s) from = removed ++ fork → chain_votes (db s) to = added ++ fork →
  (∀ x ch k, vote_in m' x ch k ↔
    (vote_in m x ch k ∧ ¬ (ch = Z.of_nat i ∧ (x, k) ∈ removed)) ∨
    (ch = Z.of_nat i ∧ (x, k) ∈ added)) →
  ∀ x ch k, vote_in m' x ch k ↔
    ∃ j h, ch = Z.of_nat j ∧ <[i := to]> tips !! j = Some h ∧
      (x, k) ∈ chain_votes (db s) h.
Proof.
  intros Hi Hnd Hm Hf Ht Hm' x ch k. rewrite Hm', Hm.
  apply NoDup_app in Hnd as (_ & Hdis & _).
  pose proof (lookup_lt_Some _ _ _ Hi) as Hlt. split.
  - intros [[(j & h & -> & Hj & Hx) Hnot]|[-> Hx]].
    + destruct (decide (j = i)) as [->|].
      * exists i, to. rewrite list_lookup_insert_eq, Ht by done.
        assert (h = from) as -> by congruence. rewrite Hf in Hx. set_solver.
      * exists j, h. by rewrite list_lookup_insert_ne.
    + exists i, to. rewrite list_lookup_insert_eq, Ht by done. set_solver.
  - intros (j & h & -> & Hj & Hx). destruct (decide (j = i)) as [->|].
    + rewrite list_lookup_insert_eq in Hj by done. injection Hj as <-. rewrite Ht in Hx.
      apply elem_of_app in Hx as [Hx|Hx]; [by right|]. left. split.
      * exists i, from. rewrite Hf. set_solver.
      * intros [_ Hr]. by apply (Hdis _ Hr).
    + rewrite list_lookup_insert_ne in Hj by done. left. split; [by exists j, h|].
      intros [? _]. lia.
Qed.

Lemma update_chain_ok tips wb r m i from to bl :
  write (db s) wb = Done (set_votes m) → votes_inv (set_votes m) tips →
  range_ok (proposer_best_level s) r →
  tips !! i = Some from → voter_best s !! i = Some (to, bl) →
  ∃ n wb' r' m',
    (∀ fuel, n ≤ fuel →
      update_chain_votes fuel s (tips, wb, r) (Z.of_nat i) = Done (<[i := to]> tips, wb', r')) ∧
    write (db s) wb' = Done (set_votes m') ∧ votes_inv (set_votes m') (<[i := to]> tips) ∧
    range_ok (proposer_best_level s) r'.
Proof.
  destruct Hinv as [Hc Hp Hv]. intros Hwb [Htip Hnd Hvt] Hr Hi Hb.
  destruct (Htip _ _ Hi) as (lf & Hlf & Hcf). cbn in Hlf, Hcf.
  destruct (vi_best _ _ _ Hv _ _ _ Hb) as (Hlt & Hct & _).
  destruct (vote_diff_ok _ _ _ Hv _ _ _ _ _ Hlf Hcf Hlt Hct)
    as (n & added & removed & fork & Hdiff & (lk & Hlk) & Hck & Hto & Hfrom).
  pose proof (pi_best _ _ _ Hp) as Hbest.
  destruct (apply_votes_ok (proposer_best_level s) (db s) (Z.of_nat i) false removed wb r)
    as (r1 & Hf1 & Hr1); [lia|done| |].
  { intros x k Hx. eapply chain_votes_prefix_level with (h := from) (fork := fork); eauto. }
  destruct (apply_votes_ok (proposer_best_level s) (db s) (Z.of_nat i) true added
    (wb ++ vote_ops (Z.of_nat i) false removed) r1) as (r2 & Hf2 & Hr2); [lia|done| |].
  { intros x k Hx. eapply chain_votes_prefix_level with (h := to) (fork := fork); eauto. }
  assert (NoDup (removed ++ chain_votes (db s) fork)) as Hndf.
  { rewrite <- Hfrom. by eapply chain_votes_NoDup. }
  setoid_rewrite chain_votes_set_votes in Hvt. cbn in Hvt.
  destruct (write_removes (Z.of_nat i) (set_votes m) removed) as (m1 & Hw1 & Hn1 & Hm1);
    [done|by apply NoDup_app in Hndf as [? _]| |].
  { intros x k Hx. cbn. apply Hvt. exists i, from. rewrite Hfrom. set_solver. }
  destruct (write_adds (Z.of_nat i) (set_votes m1) added) as (m2 & Hw2 & Hn2 & Hm2); [done|].
  exists n, ((wb ++ vote_ops (Z.of_nat i) false removed) ++ vote_ops (Z.of_nat i) true added), r2, m2.
  split_and!; [| | |done].
  - intros fuel Hfu. unfold update_chain_votes. rewrite Nat2Z.id, Hi, Hb.
    cbn [unwrap mbind outcome_bind fst]. rewrite Hdiff by done. cbn [mbind outcome_bind].
    rewrite Hf1. cbn [mbind outcome_bind]. by rewrite Hf2.
  - rewrite !write_app, Hwb. cbn [mbind outcome_bind]. rewrite Hw1. exact Hw2.
  - split; [|done|].
    + intros j h Hj. cbn. apply list_lookup_insert_Some in Hj as [(<- & <- & _)|[_ Hj]];
        [eauto|]. apply (Htip _ _ Hj).
    + intros x ch k. setoid_rewrite chain_votes_set_votes. cbn.
      eapply vote_in_moved; eauto. intros y c j. rewrite Hm2. cbn. by rewrite Hm1.
Qed.

(** All chains: the ledger tips become the best blocks. *)
Lemma update_chains_ok k :
  votes_inv (db s) (voter_ledger_tips s) →
  length (voter_ledger_tips s) = length (voter_best s) → k ≤ length (voter_best s) →
  ∃ n wb r m,
    (∀ fuel, n ≤ fuel →
      foldM (update_chain_votes fuel s) (voter_ledger_tips s, [], (2 ^ 64 - 1, 0)%Z)
        (range 0 (Z.of_nat k)) =
      Done (take k (voter_best s).*1 ++ drop k (voter_ledger_tips s), wb, r)) ∧
    write (db s) wb = Done (set_votes m) ∧
    votes_inv (set_votes m) (take k (voter_best s).*1 ++ drop k (voter_ledger_tips s)) ∧
    range_ok (proposer_best_level s) r.
Proof.
  intros Hvi Hlen. induction k as [|k IH]; intros Hk.
  - exists 0, [], (2 ^ 64 - 1, 0)%Z, (pvotes (db s)). split_and!; [done|by destruct (db s)| |by left].
    replace (set_votes (pvotes (db s))) with (db s) by by destruct (db s). done.
  - destruct IH as (n & wb & r & m & Hf & Hw & Hv & Hr); [lia|].
    destruct (lookup_lt_is_Some_2 (voter_best s) k) as [[to bl] Hb]; [lia|].
    destruct (lookup_lt_is_Some_2 (voter_ledger_tips s) k) as [from Hfr]; [lia|].
    assert (length (take k (voter_best s).*1) = k) as Hlk
      by (rewrite length_take, length_fmap; lia).
    assert (<[k := to]> (take k (voter_best s).*1 ++ drop k (voter_ledger_tips s)) =
      take (S k) (voter_best s).*1 ++ drop (S k) (voter_ledger_tips s)) as Hins.
    { rewrite (take_S_r _ _ to) by (by rewrite list_lookup_fmap, Hb).
      rewrite (drop_S _ _ _ Hfr), insert_app_r_alt by lia.
      rewrite Hlk, Nat.sub_diag, <- app_assoc. done. }
    destruct (update_chain_ok _ _ _ _ k from to bl Hw Hv Hr) as (n' & wb' & r' & m' & Hf' & ? & ? & ?);
      [by rewrite lookup_app_r, Hlk, Nat.sub_diag, lookup_drop, Nat.add_0_r by lia|done|].
    rewrite Hins in *. exists (n `max` n'), wb', r', m'. split_and!; [|done..].
    intros fuel Hfu. unfold range in *.
    replace (Z.of_nat (S k) - 0)%Z with (Z.of_nat k - 0 + 1)%Z by lia.
    rewrite seqZ_app, foldM_app, Hf by lia.
    replace (0 + (Z.of_nat k - 0))%Z with (Z.of_nat k) by lia.
    rewrite seqZ_cons, seqZ_nil by lia. cbn [mbind outcome_bind foldM].
    by rewrite Hf' by lia.
Qed.

Lemma update_votes_ok :
  votes_inv (db s) (voter_ledger_tips s) →
  length (voter_ledger_tips s) = length (voter_best s) →
  ∃ n r m,
    (∀ fuel, n ≤ fuel → update_votes fuel s =
      Done (set_db (set_votes m) (set_voter_ledger_tips (voter_best s).*1 s), r)) ∧
    votes_inv (set_votes m) (voter_best s).*1 ∧
    range_ok (proposer_best_level s) r.
Proof.
  intros Hvi Hlen. pose proof Hinv as [Hc _ Hv]. pose proof (vi_len _ _ _ Hv) as Hl.
  destruct (update_chains_ok (length (voter_best s)) Hvi Hlen) as (n & wb & r & m & Hf & Hw & Hm & Hr);
    [done|].
  rewrite firstn_all2, skipn_all2, app_nil_r in * by (rewrite ?length_fmap; lia).
  exists n, r, m. split_and!; [|done..]. intros fuel Hfu. unfold update_votes.
  replace (voter_chains (config s)) with (Z.of_nat (length (voter_best s)))
    by (destruct Hc; lia).
  rewrite Hf by done. cbn [mbind outcome_bind]. by rewrite Hw.
Qed.
End UpdateVotes.
