(* ===== verification/LeaderProofs.v ===== *)
(** * Correctness of the confirmation rule

    [Leader.proposer_leader] never panics on a store that satisfies the invariants: in
    particular the check that more votes than voter chains were counted never fires, and the
    rate of the Poisson distribution is positive, for a share of the adversary between [2 ^ -64]
    and one and less than [2 ^ 64] voter blocks.
    The leader it returns is a block of the level that no other block of the level can
    overtake with the remaining votes. *)

From S2P Require Import Prelude Hash Float Config Transaction Block Store Chain Validation Leader.
From S2P Require Import Ledger ChainInv VoteInv.

(** ** Counting votes *)

Section Tally.
Context (s : BlockChain) (tips : list H256).
Hypothesis Hinv : chain_inv s.
Hypothesis Hvotes : votes_inv (db s) tips.

(** The votes recorded for a block, and for a list of blocks. *)
Definition block_votes (b : H256) : list (Z * Z) := default [] (pvotes (db s) !! b).
Definition level_votes (bs : list H256) : list (Z * Z) := mjoin (block_votes <$> bs).

(** A recorded vote is of a voter chain, at a level that chain has. *)
Lemma block_votes_range b ch k :
  (ch, k) ∈ block_votes b →
  ∃ i bh bl, ch = Z.of_nat i ∧ voter_best s !! i = Some (bh, bl) ∧ (0 ≤ k ≤ bl)%Z ∧
    (0 ≤ ch < voter_chains (config s))%Z.
Proof.
  intros Hin. destruct Hinv as [Hc Hp Hv].
  apply (vt_votes _ _ Hvotes) in Hin as (i & h & -> & Hi & Hx).
  destruct (vt_tip _ _ Hvotes _ _ Hi) as (l & Hl & Hch).
  destruct (vi_chain _ _ _ Hv _ _ _ Hl Hch) as (? & bh & bl & Hb & ?).
  rewrite Nat2Z.id in Hb. exists i, bh, bl. split_and!; try done; try lia.
  all: eapply chain_votes_elem in Hx as [? _]; [|done..]; lia.
Qed.

(** Two votes of one chain for blocks of one level are the same vote. *)
Lemma block_votes_unique b1 b2 ch k1 k2 :
  (ch, k1) ∈ block_votes b1 → (ch, k2) ∈ block_votes b2 →
  plev (db s) !! b1 = plev (db s) !! b2 → b1 = b2 ∧ k1 = k2.
Proof.
  intros H1 H2 He. destruct Hinv as [Hc Hp Hv].
  apply (vt_votes _ _ Hvotes) in H1 as (i & h & -> & Hi & Hx).
  apply (vt_votes _ _ Hvotes) in H2 as (j & h' & Hij & Hj & Hy).
  assert (j = i) as -> by lia. assert (h' = h) as -> by congruence.
  destruct (vt_tip _ _ Hvotes _ _ Hi) as (l & Hl & Hch).
  by eapply chain_votes_unique.
Qed.

Lemma elem_of_level_votes bs v :
  v ∈ level_votes bs ↔ ∃ b, b ∈ bs ∧ v ∈ block_votes b.
Proof.
  unfold level_votes. rewrite list_elem_of_join. setoid_rewrite list_elem_of_fmap.
  naive_solver.
Qed.

Lemma level_votes_NoDup bs l :
  NoDup bs → (∀ b, b ∈ bs → plev (db s) !! b = Some l) → NoDup (level_votes bs).*1.
Proof.
  induction bs as [|b bs IH]; intros Hnd Hl; [constructor|].
  apply NoDup_cons in Hnd as [Hb Hnd].
  change (level_votes (b :: bs)) with (block_votes b ++ level_votes bs).
  rewrite fmap_app. apply NoDup_app. split_and!.
  - apply NoDup_fmap_2_strong; [|apply (vt_nodup _ _ Hvotes)].
    intros [c1 k1] [c2 k2] H1 H2 [= ->].
    by destruct (block_votes_unique b b c2 k1 k2 H1 H2) as [_ ->].
  - intros ch ([c1 k1] & -> & H1)%list_elem_of_fmap ([c2 k2] & Hc & H2)%list_elem_of_fmap.
    simpl in *. subst c2. apply elem_of_level_votes in H2 as (b2 & Hb2 & H2).
    destruct (block_votes_unique b b2 c1 k1 k2 H1 H2) as [-> _]; [|done].
    rewrite !Hl by (by left || by right). done.
  - apply IH; [done|]. intros; apply Hl. by right.
Qed.

(** No more votes for the blocks of a level than there are voter chains. *)
Lemma level_votes_length bs l :
  NoDup bs → (∀ b, b ∈ bs → plev (db s) !! b = Some l) →
  (Z.of_nat (length (level_votes bs)) ≤ voter_chains (config s))%Z.
Proof.
  intros Hnd Hl. pose proof (level_votes_NoDup bs l Hnd Hl) as Hn.
  assert ((level_votes bs).*1 ⊆+ range 0 (voter_chains (config s))) as Hs.
  { apply NoDup_submseteq; [done|].
    intros ch ([c1 k] & -> & Hin)%list_elem_of_fmap.
    apply elem_of_level_votes in Hin as (b & _ & Hin).
    destruct (block_votes_range _ _ _ Hin) as (? & ? & ? & ? & ? & ? & ?).
    apply elem_of_range. simpl. lia. }
  apply submseteq_length in Hs. rewrite length_fmap in Hs.
  unfold range in Hs. rewrite length_seqZ in Hs. destruct Hinv as [[? ? ?] _ _]. lia.
Qed.

(** *** The loops *)

(** The levels of its chain since a vote, and the number of blocks at a list of levels. *)
Definition levels_since (v : Z * Z) : list (Z * Z) :=
  (λ l, (v.1, l)) <$> range_incl v.2 (default 0%Z (snd <$> voter_best s !! Z.to_nat v.1)).
Definition blocks_at (ks : list (Z * Z)) : nat :=
  sum_list (level_size (vlev (db s)) (vchain (db s)) <$> ks).

Lemma blocks_at_app ks1 ks2 : blocks_at (ks1 ++ ks2) = blocks_at ks1 + blocks_at ks2.
Proof. unfold blocks_at. by rewrite fmap_app, sum_list_with_app. Qed.

Lemma num_voter_blocks_ok i bh bl k :
  voter_best s !! i = Some (bh, bl) → (0 ≤ k ≤ bl)%Z →
  num_voter_blocks s (Z.of_nat i) k bl =
    Done (u64 (Z.of_nat (blocks_at (levels_since (Z.of_nat i, k))))).
Proof.
  intros Hb Hk. destruct Hinv as [_ _ Hv]. unfold num_voter_blocks, levels_since. cbn [fst snd].
  rewrite Nat2Z.id, Hb. cbn [fmap option_fmap option_map snd default from_option id].
  assert (∀ x, x ∈ range_incl k bl → (0 ≤ x ≤ bl)%Z) as Hx by (intros x ?%elem_of_range_incl; lia).
  revert Hx. generalize (range_incl k bl) as ls. intros ls Hx.
  enough (∀ a, foldM (λ total l,
      t ← unwrap (get_cf voter_tree_level_count_cf (db s) (Z.of_nat i, l));
      Done (u64 (total + t))) (u64 (Z.of_nat a)) ls =
    Done (u64 (Z.of_nat (a + blocks_at ((λ l, (Z.of_nat i, l)) <$> ls))))) as Hgen
    by exact (Hgen 0).
  induction ls as [|x ls IH]; intros a; [cbn; by rewrite Nat.add_0_r|]. cbn [foldM].
  destruct (vi_count _ _ _ Hv _ _ _ x Hb) as [t Ht]; [apply Hx; left|].
  pose proof (vi_counts _ _ _ Hv (Z.of_nat i, x)) as Hc. rewrite Ht in Hc. cbn in Hc. subst t.
  change (get_cf voter_tree_level_count_cf (db s) (Z.of_nat i, x)) with
    (vcount (db s) !! (Z.of_nat i, x)). rewrite Ht.
  cbn [unwrap mbind outcome_bind]. rewrite u64_add_mod, <- Nat2Z.inj_add, IH by (intros; apply Hx; by right).
  do 3 f_equal. unfold blocks_at. cbn. lia.
Qed.

Lemma tally_votes_ok vs ds count a :
  (∀ ch k, (ch, k) ∈ vs → ∃ b, (ch, k) ∈ block_votes b) →
  (0 ≤ count)%Z → (count + Z.of_nat (length vs) < 2 ^ 16)%Z →
  ∃ ds', foldM (tally_vote s) (ds, count, u64 (Z.of_nat a)) vs =
    Done (ds', (count + Z.of_nat (length vs))%Z,
          u64 (Z.of_nat (a + blocks_at (mjoin (levels_since <$> vs))))) ∧
    length ds' = length ds + length vs.
Proof.
  revert ds count a. induction vs as [|[ch k] vs IH]; intros ds count a Hin H0 Hb.
  - exists ds. split; [cbn; by rewrite Nat.add_0_r, Z.add_0_r|cbn; lia].
  - destruct (Hin ch k) as (b & Hbv); [left|].
    destruct (block_votes_range _ _ _ Hbv) as (i & bh & bl & -> & Hi & Hk & _).
    pose proof (num_voter_blocks_ok _ _ _ k Hi ltac:(lia)) as Hn.
    cbn [length] in *. set (n := blocks_at (levels_since (Z.of_nat i, k))) in *.
    assert (∃ depth, tally_vote s (ds, count, u64 (Z.of_nat a)) (Z.of_nat i, k) =
      Done (ds ++ [depth], (count + 1)%Z, u64 (Z.of_nat (a + n)))) as (depth & Hstep).
    { unfold tally_vote. rewrite Nat2Z.id, Hi. cbn [unwrap mbind outcome_bind snd].
      rewrite Hn. cbn [mbind outcome_bind]. unfold u16.
      rewrite (wrap_small 16), u64_add_mod, <- Nat2Z.inj_add by lia. eauto. }
    cbn [foldM]. rewrite Hstep. cbn [mbind outcome_bind].
    destruct (IH (ds ++ [depth]) (count + 1)%Z (a + n)) as (ds' & Hf & Hlen);
      [intros; apply Hin; by right|lia|lia|].
    exists ds'. rewrite Hf. split; [|rewrite Hlen, length_app; cbn; lia].
    cbn [fmap list_fmap mjoin list_join]. rewrite blocks_at_app. fold n.
    f_equal. rewrite Nat.add_assoc. f_equal. f_equal. lia.
Qed.

Lemma tally_ok bs l :
  NoDup bs → (∀ b, b ∈ bs → plev (db s) !! b = Some l) →
  ∃ t, tally s bs = Done t ∧
    total_vote_count t = Z.of_nat (length (level_votes bs)) ∧
    total_vote_blocks t = u64 (Z.of_nat (blocks_at (mjoin (levels_since <$> level_votes bs)))) ∧
    (total_vote_count t ≤ voter_chains (config s))%Z ∧
    (∀ b, b ∈ bs → ∃ ds, votes_depth t !! b = Some ds ∧ length ds = length (block_votes b)).
Proof.
  intros Hnd Hl. pose proof (level_votes_length bs l Hnd Hl) as Hlen.
  destruct Hinv as [[Hch _ _] _ _].
  enough (∀ bs1 t0 a, bs1 `suffix_of` bs →
    total_vote_count t0 = Z.of_nat (length (level_votes bs) - length (level_votes bs1)) →
    length (level_votes bs1) ≤ length (level_votes bs) →
    total_vote_blocks t0 = u64 (Z.of_nat a) →
    ∃ t, foldM (tally_block s) t0 bs1 = Done t ∧
      total_vote_count t = Z.of_nat (length (level_votes bs)) ∧
      total_vote_blocks t =
        u64 (Z.of_nat (a + blocks_at (mjoin (levels_since <$> level_votes bs1)))) ∧
      (∀ b, b ∈ bs1 → ∃ ds, votes_depth t !! b = Some ds ∧ length ds = length (block_votes b)) ∧
      (∀ b, b ∉ bs1 → votes_depth t !! b = votes_depth t0 !! b)) as Hgen.
  { destruct (Hgen bs (mkTally ∅ 0 0) 0) as (t & Ht & Hc & Hn & Hd & _); [done|cbn; lia|lia|done|].
    exists t. split_and!; [done..|lia|done]. }
  intros bs1. induction bs1 as [|b bs1 IH]; intros t0 a Hsuf Hc Hle Ha.
  - exists t0. split_and!; [done| | |set_solver|done]; [rewrite Hc; cbn; lia|].
    cbn. by rewrite Nat.add_0_r.
  - change (level_votes (b :: bs1)) with (block_votes b ++ level_votes bs1) in *.
    rewrite length_app in *. cbn [foldM].
    destruct (tally_votes_ok (block_votes b) [] (total_vote_count t0) a)
      as (ds & Hf & Hds); [eauto|lia|lia|]. set (n := blocks_at _) in Hf.
    set (t1 := mkTally (<[b := ds]> (votes_depth t0))
      (total_vote_count t0 + Z.of_nat (length (block_votes b))) (u64 (Z.of_nat (a + n)))).
    assert (tally_block s t0 b = Done t1) as ->.
    { unfold tally_block, get_cf. cbn [cf_get proposer_node_vote_cf]. fold (block_votes b).
      by rewrite Ha, Hf. }
    cbn [mbind outcome_bind].
    destruct (IH t1 (a + n)) as (t & Ht & Hct & Hn & Hd & Ho);
      [|cbn [total_vote_count t1]; lia|lia|done|].
    { destruct Hsuf as [pre ->]. exists (pre ++ [b]). by rewrite <- app_assoc. }
    exists t. split_and!; [exact Ht|done| | |].
    + rewrite Hn, fmap_app, join_app, blocks_at_app. fold n. do 2 f_equal. lia.
    + intros b' Hb'. destruct (decide (b' ∈ bs1)) as [Hin|Hni]; [auto|].
      apply elem_of_cons in Hb' as [->|?]; [|done]. rewrite Ho by done. cbn.
      rewrite lookup_insert_eq. eauto.
    + intros b' Hb'. rewrite Ho by set_solver. cbn. apply lookup_insert_ne. set_solver.
Qed.

Lemma levels_since_NoDup vs : NoDup vs.*1 → NoDup (mjoin (levels_since <$> vs)).
Proof.
  induction vs as [|v vs IH]; [constructor|]. rewrite !fmap_cons.
  intros [Hv Hn]%NoDup_cons. cbn [mjoin list_join]. apply NoDup_app. split_and!.
  - unfold levels_since. apply NoDup_fmap_2; [by intros ?? [= ?]|apply NoDup_seqZ].
  - intros k (x & -> & _)%list_elem_of_fmap Hk. apply list_elem_of_join in Hk as (kl & Hk & Hkl).
    apply list_elem_of_fmap in Hkl as (v' & -> & Hv').
    apply list_elem_of_fmap in Hk as (y & [= E _] & _).
    apply Hv. apply list_elem_of_fmap. eauto.
  - by apply IH.
Qed.

(** A level that has a block counts it. *)
Lemma best_level_counted i bh bl k :
  voter_best s !! i = Some (bh, bl) → (k ≤ bl)%Z → 0 < blocks_at (levels_since (Z.of_nat i, k)).
Proof.
  intros Hi Hk. destruct Hinv as [_ _ Hvi]. destruct (vi_best _ _ _ Hvi _ _ _ Hi) as (H1 & H2 & _).
  unfold levels_since. cbn [fst snd]. rewrite Nat2Z.id, Hi.
  cbn [fmap option_fmap option_map snd default from_option id].
  assert ((Z.of_nat i, bl) ∈ (λ x, (Z.of_nat i, x)) <$> range_incl k bl) as Hel.
  { apply list_elem_of_fmap. exists bl. split; [done|]. apply elem_of_range_incl. lia. }
  apply list_elem_of_split in Hel as (k1 & k2 & ->). rewrite blocks_at_app. cbn.
  enough (level_size (vlev (db s)) (vchain (db s)) (Z.of_nat i, bl) ≠ 0) by lia.
  unfold level_size. intros H0%map_size_empty_inv.
  assert (filter (λ p, p.2 = (Z.of_nat i, bl)) (voter_keys (vlev (db s)) (vchain (db s))) !! bh =
    Some (Z.of_nat i, bl)) as Hf; [|by rewrite H0 in Hf].
  apply map_lookup_filter_Some. split; [|done]. unfold voter_keys.
  by rewrite map_lookup_zip_with, H1, H2.
Qed.

(** The votes of a level are of different chains, so that no block is counted twice: the
    number of blocks is exact, and positive, when the store has less than [2 ^ 64] of them. *)
Lemma tally_blocks_positive bs l t :
  NoDup bs → (∀ b, b ∈ bs → plev (db s) !! b = Some l) →
  (Z.of_nat (size (vlev (db s))) < 2 ^ 64)%Z →
  tally s bs = Done t → (0 < total_vote_count t)%Z → (0 < total_vote_blocks t)%Z.
Proof.
  intros Hnd Hl Hsize Ht Hpos. destruct (tally_ok bs l Hnd Hl) as (t' & Ht' & Hc & Hb & _).
  assert (t' = t) as -> by congruence. set (ks := mjoin (levels_since <$> level_votes bs)) in *.
  pose proof (levels_since_NoDup _ (level_votes_NoDup bs l Hnd Hl)) as Hks. fold ks in Hks.
  pose proof (sum_level_sizes (vlev (db s)) (vchain (db s)) ks Hks) as Hle. fold (blocks_at ks) in Hle.
  rewrite Hb, u64_small by lia. destruct (level_votes bs) as [|[ch k] vs] eqn:E; [cbn in Hc; lia|].
  assert ((ch, k) ∈ level_votes bs) as Hin by (rewrite E; left).
  apply elem_of_level_votes in Hin as (b & _ & Hin).
  destruct (block_votes_range _ _ _ Hin) as (i & bh & bl & -> & Hi & Hk & _).
  unfold ks. cbn [fmap list_fmap mjoin list_join]. rewrite blocks_at_app.
  pose proof (best_level_counted i bh bl k Hi). lia.
Qed.
End Tally.

(** ** The lower confidence bounds *)

Section Bounds.
Context `{PoissonDist}.

(** The state of the loop after the blocks [done]: each has a bound, and the leader is
    one of them, with the highest bound or within the tolerance of it. *)
Record lcb_inv (done : list H256) (st : LcbState) : Prop := {
  li_dom b : is_Some (votes_lcb st !! b) ↔ b ∈ done;
  li_leader h : new_leader st = Some h →
    ∃ l, votes_lcb st !! h = Some l ∧
      (l = max_vote_lcb st ∨
       f32_lt (f32_abs (f32_sub (max_vote_lcb st) l)) f32_EPSILON = true);
}.

Lemma lcb_step_inv done st b lcb :
  b ∉ done → lcb_inv done st → lcb_inv (done ++ [b]) (lcb_step st b lcb).
Proof.
  intros Hb [Hd Hl]. unfold lcb_step.
  assert (∀ h l, votes_lcb st !! h = Some l → <[b := lcb]> (votes_lcb st) !! h = Some l) as Hold.
  { intros h l Hh. rewrite lookup_insert_ne; [done|]. intros ->. apply Hb, Hd. eauto. }
  split.
  - intros h. destruct (if f32_lt (max_vote_lcb st) lcb then _ else _) as [mx ld]. cbn [votes_lcb].
    rewrite elem_of_app, list_elem_of_singleton, <- Hd.
    destruct (decide (b = h)) as [->|]; [rewrite lookup_insert_eq|rewrite lookup_insert_ne by done];
      naive_solver.
  - intros h. destruct (f32_lt (max_vote_lcb st) lcb) eqn:Hlt; cbn.
    + intros Hh. assert (h = b) as ->.
      { revert Hh. case_if; congruence. }
      exists lcb. rewrite lookup_insert_eq. auto.
    + destruct (new_leader st) as [ld|] eqn:Hld; [|done].
      destruct (f32_lt _ _ && _) eqn:Ht; intros [= <-].
      * apply andb_true_iff in Ht as [Ht _]. exists lcb. rewrite lookup_insert_eq. auto.
      * destruct (Hl ld eq_refl) as (l & Hs & Hor). exists l. auto.
Qed.

Lemma lcb_fold_ok c dist q depth bs :
  NoDup bs → (∀ b, b ∈ bs → is_Some (depth !! b)) →
  ∃ st, foldM (lcb_block c dist q depth) (mkLcb ∅ f32_zero f32_zero None) bs = Done st ∧
    lcb_inv bs st.
Proof.
  intros Hnd Hdep.
  enough (∀ bs1 bs2 st0, bs1 ++ bs2 = bs → lcb_inv bs1 st0 →
    ∃ st, foldM (lcb_block c dist q depth) st0 bs2 = Done st ∧ lcb_inv bs st) as Hgen.
  { apply (Hgen [] bs); [done|]. split; [|done]. intros b. cbn. rewrite lookup_empty.
    split; [by intros [? ?]|set_solver]. }
  intros bs1 bs2. revert bs1. induction bs2 as [|b bs2 IH]; intros bs1 st0 Hbs Hinv.
  - rewrite app_nil_r in Hbs. subst. by exists st0.
  - destruct (Hdep b) as [ds Hds]; [subst; set_solver|].
    assert (lcb_block c dist q depth st0 b =
      Done (lcb_step st0 b (block_votes_lcb c dist q ds))) as Hstep
      by (unfold lcb_block; by rewrite Hds).
    cbn [foldM]. rewrite Hstep. cbn [mbind outcome_bind].
    apply (IH (bs1 ++ [b])); [by rewrite <- app_assoc|]. apply lcb_step_inv; [|done].
    subst. apply NoDup_app in Hnd as (_ & Hdis & _). intros Hb. apply (Hdis b Hb). left.
Qed.

(** The last loop returns [false] exactly when no block can overtake the leader. *)
Lemma overtaken_ok lcb mx rem h bs :
  (∀ b, b ∈ bs → is_Some (lcb !! b)) →
  ∃ o, overtaken lcb mx rem h bs = Done o ∧
    (o = false → ∀ p, p ∈ bs → ∃ l, lcb !! p = Some l ∧
      (p ≠ h → f32_lt mx (f32_add l rem) = false) ∧
      (H256_ltb p h = true →
        f32_lt (f32_abs (f32_sub mx (f32_add l rem))) f32_EPSILON = false)).
Proof.
  induction bs as [|b bs IH]; intros Hl; [exists false; set_solver|].
  destruct (Hl b) as [l Hb]; [left|]. destruct IH as (o & Ho & Hs); [set_solver|].
  cbn [overtaken]. rewrite Hb. cbn [unwrap mbind outcome_bind].
  destruct (f32_lt mx (f32_add l rem) && negb (bool_decide (b = h))) eqn:E1; [by exists true|].
  destruct (f32_lt (f32_abs (f32_sub mx (f32_add l rem))) f32_EPSILON && H256_ltb b h) eqn:E2;
    [by exists true|].
  exists o. split; [done|]. intros Hof p [->|Hp]%elem_of_cons; [|auto].
  exists l. split_and!; [done| |].
  - intros Hne. rewrite bool_decide_false in E1 by done. by rewrite andb_true_r in E1.
  - intros Hlt. by rewrite Hlt, andb_true_r in E2.
Qed.

(** ** The leader *)

(** The adversary has a share of the mining power between [2 ^ -64] and one. *)
Definition ratio_ok (c : BlockchainConfig) : Prop :=
  valid_binary 24 128 (adversary_ratio c) = true ∧
  f32_le (binary_normalize 24 128 1 (-64) false) (adversary_ratio c) = true ∧
  f32_lt (adversary_ratio c) f32_one = true.

(** The rate is positive: no rounding makes it zero. *)
Lemma adversary_rate_positive c blocks count :
  ratio_ok c → (0 < blocks)%Z → (0 < count < 2 ^ 16)%Z →
  f64_lt (f64_of_f32 (f32_of_Z 0))
    (f64_of_f32 (adversary_expected_vote_depth c blocks count)) = true.
Proof.
  intros (Hv & Hlow & Hhigh) Hb Hc. pose proof (f32_above_of_le _ Hlow) as Hr.
  apply (f64_of_f32_positive _ (-16 - 2 + -86 - 1)); [|lia]. unfold adversary_expected_vote_depth.
  apply SFmul_above; [lia| |done|unfold emin; lia].
  apply (SFdiv_above 24 128 ltac:(lia) (1 - 17) 2);
    [|apply f32_one_minus_below; [done| |done]|unfold emin; lia].
  - apply SFdiv_above; [lia|by apply f32_of_Z_above|by apply f32_of_Z_below|unfold emin; lia].
  - by destruct (adversary_ratio c) as [| [] | |[] m e].
Qed.

(** What makes a block the leader of its level: enough votes are cast, and with the
    lower bounds on the votes of each block, and all remaining votes counted for it, no
    other block reaches the bound of the leader. *)
Definition confirmed (s : BlockChain) (level : Z) (q : f32) (h : H256) : Prop :=
  ∃ bs t dist st, let c := config s in
    let remaining := f32_sub (f32_of_Z (voter_chains c)) (total_votes_lcb st) in
    ptree (db s) !! level = Some bs ∧ tally s bs = Done t ∧ h ∈ bs ∧
    (u16 (voter_chains c * 3) / 5 < total_vote_count t ≤ voter_chains c)%Z ∧
    poisson_new (f64_of_f32 (adversary_expected_vote_depth c
      (total_vote_blocks t) (total_vote_count t))) = Some dist ∧
    foldM (lcb_block c dist q (votes_depth t)) (mkLcb ∅ f32_zero f32_zero None) bs = Done st ∧
    (∃ l, votes_lcb st !! h = Some l ∧ (l = max_vote_lcb st ∨
      f32_lt (f32_abs (f32_sub (max_vote_lcb st) l)) f32_EPSILON = true)) ∧
    f32_le (max_vote_lcb st) remaining = false ∧
    ∀ p, p ∈ bs → ∃ l, votes_lcb st !! p = Some l ∧
      (p ≠ h → f32_lt (max_vote_lcb st) (f32_add l remaining) = false) ∧
      (H256_ltb p h = true →
        f32_lt (f32_abs (f32_sub (max_vote_lcb st) (f32_add l remaining))) f32_EPSILON = false).

(** The distribution accepts the rate of a level, when enough votes are cast to need it. *)
Definition rate_accepted (s : BlockChain) (level : Z) : Prop :=
  ∀ bs t, ptree (db s) !! level = Some bs → tally s bs = Done t →
    (u16 (voter_chains (config s) * 3) / 5 < total_vote_count t ≤ voter_chains (config s))%Z →
    is_Some (poisson_new (f64_of_f32 (adversary_expected_vote_depth (config s)
      (total_vote_blocks t) (total_vote_count t)))).

(** When the rule returns, the rate was accepted. *)
Lemma proposer_leader_accepted s level q r :
  proposer_leader s level q = Done r → rate_accepted s level.
Proof.
  unfold proposer_leader, get_cf. cbn [cf_get proposer_tree_level_cf].
  intros Hr bs t Hbs Ht [Hq Hle]. rewrite Hbs in Hr. cbn [unwrap mbind outcome_bind] in Hr.
  rewrite Ht in Hr. cbn [mbind outcome_bind] in Hr.
  rewrite (proj2 (Z.ltb_ge _ _) Hle), (proj2 (Z.ltb_lt _ _) Hq) in Hr.
  destruct (poisson_new _) as [d|]; [by exists d|done].
Qed.

Lemma rate_accepted_ok `{!PoissonLaws} s tips level :
  chain_inv s → votes_inv (db s) tips → ratio_ok (config s) →
  (Z.of_nat (size (vlev (db s))) < 2 ^ 64)%Z → rate_accepted s level.
Proof.
  intros Hinv Hvotes Hratio Hsize bs t Hbs Ht Hq. pose proof Hinv as [Hc Hp Hv].
  assert (0 ≤ u16 (voter_chains (config s) * 3) / 5)%Z as Hpos.
  { apply Z.div_pos; [|lia]. apply wrap_bound. lia. }
  destruct (pi_tree _ _ _ Hp _ _ Hbs) as (_ & Hnd & Hmem).
  apply poisson_new_ok, adversary_rate_positive; [done| |destruct Hc; lia].
  eapply (tally_blocks_positive s tips); [done|done|done|naive_solver|done|done|lia].
Qed.

(** What the rule returns, when the distribution accepts the rate. *)
Lemma proposer_leader_ok s tips level q :
  chain_inv s → votes_inv (db s) tips → rate_accepted s level →
  (0 ≤ level ≤ proposer_best_level s)%Z →
  ∃ r, proposer_leader s level q = Done r ∧
    (∀ h, r = Some h → plev (db s) !! h = Some level ∧ confirmed s level q h).
Proof.
  intros Hinv Hvotes Hrate Hlevel. pose proof Hinv as [Hc Hp Hv].
  destruct (pi_levels _ _ _ Hp level Hlevel) as [bs Hbs].
  destruct (pi_tree _ _ _ Hp _ _ Hbs) as (_ & Hnd & Hmem).
  destruct (tally_ok s tips Hinv Hvotes bs level) as (t & Ht & Hcount & _ & Hle & Hdep); [done|naive_solver|].
  unfold proposer_leader, get_cf. cbn [cf_get proposer_tree_level_cf]. rewrite Hbs.
  cbn [unwrap mbind outcome_bind]. rewrite Ht. cbn [mbind outcome_bind].
  destruct (Z.ltb_spec (voter_chains (config s)) (total_vote_count t)); [lia|].
  destruct (Z.ltb_spec (u16 (voter_chains (config s) * 3) / 5) (total_vote_count t)) as [Hq|];
    [|by exists None].
  destruct (Hrate bs t Hbs Ht) as [dist Hdist]; [lia|].
  rewrite Hdist. cbn [unwrap mbind outcome_bind].
  destruct (lcb_fold_ok (config s) dist q (votes_depth t) bs) as (st & Hst & [Hdom Hlead]);
    [done|intros b Hb; destruct (Hdep b Hb) as (? & ? & _); eauto|].
  rewrite Hst. cbn [mbind outcome_bind]. destruct (new_leader st) as [h|] eqn:Hh; [|by exists None].
  set (rem := f32_sub _ _). destruct (f32_le (max_vote_lcb st) rem) eqn:Hrem; [by exists None|].
  destruct (overtaken_ok (votes_lcb st) (max_vote_lcb st) rem h bs) as (o & -> & Ho);
    [intros; by apply Hdom|].
  cbn [mbind outcome_bind]. destruct o; [by exists None|]. eexists. split; [done|].
  intros ? [= <-]. destruct (Hlead h eq_refl) as (l & Hl & Hor).
  assert (h ∈ bs) as Hin by (apply Hdom; eauto). split; [by apply Hmem|].
  exists bs, t, dist, st. cbv zeta. fold rem. split_and!; eauto.
Qed.

End Bounds.
