(* ===== verification/LedgerInv.v ===== *)
(** * The order of the ledger

    The traversal of [Ledger.dfs] and the filter of [Ledger.take_unconfirmed]: they
    terminate on a store that satisfies the invariant, and list the unconfirmed blocks
    below a leader, each once, every block after the blocks it refers to.  The second part
    has the invariant of the whole ledger. *)

From S2P Require Import Prelude Hash Transaction Float Config Block Store Chain Validation Leader.
From S2P Require Import Ledger ChainInv VoteInv LeaderProofs.

(** A proposer block refers to another. *)
Definition refers (d : Database) (b r : H256) : Prop :=
  ∃ refs, prefs d !! b = Some refs ∧ r ∈ refs.

(** ** The traversal *)

Section Dfs.
Context (c : BlockchainConfig) (d : Database) (best : Z) (u : gset H256).
Hypothesis Hp : proposer_inv c d best.

(** In a visit [v], what an element refers to comes later. *)
Definition closed (v : list H256) : Prop :=
  ∀ pre y post, v = pre ++ y :: post → ∀ r, refers d y r → r ∈ u → r ∈ post.

Lemma closed_app v1 v2 : closed v1 → closed v2 → closed (v1 ++ v2).
Proof.
  intros H1 H2 pre y post Hv r Hr Hu.
  apply app_eq_app in Hv as (w & [(-> & Hw)|(-> & ->)]).
  - destruct w as [|y' w].
    + cbn in Hw. subst. rewrite app_nil_r in *. by eapply (H2 []).
    + injection Hw as <- ->. apply elem_of_app. left. by eapply H1.
  - by eapply H2.
Qed.

Lemma closed_cons x v :
  (∀ r, refers d x r → r ∈ u → r ∈ v) → closed v → closed (x :: v).
Proof.
  intros Hx Hv pre y post E r Hr Hu. destruct pre as [|x' pre].
  - injection E as <- <-. by apply Hx.
  - injection E as <- ->. by eapply Hv.
Qed.

(** What a visit of the stack [xs] lists. *)
Record visit_ok (xs v : list H256) : Prop := {
  vo_sound y : y ∈ v → y ∈ u ∧ ∃ x, x ∈ xs ∧ rtc (refers d) x y;
  vo_complete x : x ∈ xs → x ∈ u → x ∈ v;
  vo_closed : closed v;
  vo_head x xs' : xs = x :: xs' → x ∈ u → ∃ w, v = x :: w ∧ (xs' = [] → x ∉ w);
}.

(** A reachable block is not higher. *)
Lemma reach_level x y l :
  rtc (refers d) x y → plev d !! x = Some l →
  ∃ ly, plev d !! y = Some ly ∧ (ly ≤ l)%Z ∧ (x = y ∨ ly < l)%Z.
Proof.
  intros Hr. revert l. induction Hr as [x|x z y (refs & Hrefs & Hz) Hr IH]; intros l Hl.
  { exists l. split_and!; [done|lia|by left]. }
  destruct (pi_block _ _ _ Hp _ _ Hl) as (rs & _ & Hrs & _ & Hlow & _).
  assert (rs = refs) as -> by congruence. destruct (Hlow _ Hz) as (lz & Hlz & ?).
  destruct (IH _ Hlz) as (ly & ? & ? & _). exists ly. split_and!; [done|lia|right; lia].
Qed.

Lemma elem_of_rev (x : H256) l : x ∈ rev l ↔ x ∈ l.
Proof. by rewrite !list_elem_of_In, <- in_rev. Qed.
Lemma elem_of_rev_1 (x : H256) l : x ∈ rev l → x ∈ l.
Proof. apply elem_of_rev. Qed.

Lemma visit_ok_nil : visit_ok [] [].
Proof.
  split; [set_solver..| |done]. intros pre y post E. by destruct pre.
Qed.

(** A block that is not visited. *)
Lemma visit_ok_skip x xs v : x ∉ u → visit_ok xs v → visit_ok (x :: xs) v.
Proof.
  intros Hx [H1 H2 H3 _]. split; [| |done|].
  - intros y Hy. destruct (H1 y Hy) as (? & z & ? & ?). split; [done|].
    exists z. split; [by right|done].
  - set_solver.
  - intros z xs' [= <- <-] ?. done.
Qed.

(** A block that is visited, then what it refers to, then the rest. *)
Lemma visit_ok_push x l refs xs v1 v2 :
  x ∈ u → plev d !! x = Some l → prefs d !! x = Some refs →
  visit_ok (rev refs) v1 → visit_ok xs v2 → visit_ok (x :: xs) (x :: v1 ++ v2).
Proof.
  intros Hx Hl Hrefs [S1 C1 K1 _] [S2 C2 K2 _]. split.
  - intros y [->|[Hy|Hy]%elem_of_app]%elem_of_cons.
    + split; [done|]. exists x. split; [left|done].
    + destruct (S1 y Hy) as (? & z & Hz%elem_of_rev_1 & ?). split; [done|].
      exists x. split; [left|]. eapply rtc_l; [|done]. by exists refs.
    + destruct (S2 y Hy) as (? & z & ? & ?). split; [done|]. exists z. split; [by right|done].
  - intros y [->|Hy]%elem_of_cons Hu; [left|]. right. apply elem_of_app. right. auto.
  - apply closed_cons; [|by apply closed_app]. intros r (refs' & Hr' & Hin) Hu.
    assert (refs' = refs) as -> by congruence. apply elem_of_app. left.
    apply C1; [by apply elem_of_rev|done].
  - intros z xs' [= <- <-] _. eexists. split; [done|]. intros -> Hin.
    apply elem_of_app in Hin as [Hin|Hin].
    + destruct (S1 x Hin) as (_ & r & Hr%elem_of_rev_1 & Hreach).
      destruct (pi_block _ _ _ Hp _ _ Hl) as (rs & _ & Hrs & _ & Hlow & _).
      assert (rs = refs) as -> by congruence. destruct (Hlow _ Hr) as (lr & Hlr & ?).
      destruct (reach_level _ _ _ Hreach Hlr) as (lx & Hlx & ? & _).
      assert (lx = l) by congruence. lia.
    + destruct (S2 x Hin) as (_ & r & Hr & _). set_solver.
Qed.

Lemma dfs_visit (L : nat) xs :
  (∀ x, x ∈ xs → ∃ l, plev d !! x = Some l ∧ (l < Z.of_nat L)%Z) →
  ∃ n v, visit_ok xs v ∧ ∀ fuel stack order,
    dfs (n + fuel) d u (xs ++ stack) order = dfs fuel d u stack (order ++ v).
Proof.
  revert xs. induction L as [|L IHL]; intros xs;
    (induction xs as [|x xs IHxs]; intros Hxs;
      [exists 0, []; split; [apply visit_ok_nil|intros; by rewrite app_nil_r]|]);
    (destruct (Hxs x) as (l & Hl & HlL); [left|]).
  { pose proof (pi_range _ _ _ Hp _ _ Hl). lia. }
  destruct IHxs as (n2 & v2 & Hv2 & Hd2); [intros; apply Hxs; by right|].
  destruct (decide (x ∈ u)) as [Hxu|Hxu].
  - destruct (pi_block _ _ _ Hp _ _ Hl) as (refs & _ & Hrefs & _ & Hlow & _).
    destruct (IHL (rev refs)) as (n1 & v1 & Hv1 & Hd1).
    { intros r Hr%elem_of_rev_1. destruct (Hlow r Hr) as (lr & ? & ?).
      exists lr. split; [done|lia]. }
    exists (S (n1 + n2)), (x :: v1 ++ v2). split; [by eapply visit_ok_push|].
    intros fuel stack order. cbn [app Nat.add dfs]. rewrite decide_True by done.
    unfold get_cf. cbn [cf_get proposer_ref_neighbor_cf]. rewrite Hrefs.
    cbn [unwrap mbind outcome_bind]. rewrite <- Nat.add_assoc, Hd1, Hd2.
    by rewrite <- !app_assoc.
  - exists (S n2), v2. split; [by apply visit_ok_skip|].
    intros fuel stack order. cbn [app Nat.add dfs]. by rewrite decide_False.
Qed.

(** The traversal from one block. *)
Lemma dfs_ok x l :
  plev d !! x = Some l → x ∈ u →
  ∃ n w, (∀ fuel, n ≤ fuel → dfs fuel d u [x] [] = Done (x :: w)) ∧
    visit_ok [x] (x :: w) ∧ x ∉ w.
Proof.
  intros Hl Hx. pose proof (pi_range _ _ _ Hp _ _ Hl).
  destruct (dfs_visit (S (Z.to_nat l)) [x]) as (n & v & Hv & Hd).
  { intros y ->%list_elem_of_singleton. exists l. split; [done|lia]. }
  destruct (vo_head _ _ Hv x [] eq_refl Hx) as (w & -> & Hw).
  exists (S n), w. split_and!; [|done|auto]. intros fuel Hf.
  replace fuel with (n + S (fuel - S n)) by lia. by rewrite (Hd _ []).
Qed.
End Dfs.

(** ** The filter *)

Section Filter.
Implicit Types u : gset H256.

Lemma take_unconfirmed_set u l :
  (take_unconfirmed u l).1 = u ∖ list_to_set l.
Proof.
  revert u. induction l as [|h l IH]; intros u; cbn; [set_solver|].
  case_decide.
  - specialize (IH (u ∖ {[h]})). destruct (take_unconfirmed _ l). cbn in *. set_solver.
  - rewrite IH. set_solver.
Qed.

Lemma elem_of_take_unconfirmed u l x :
  x ∈ (take_unconfirmed u l).2 ↔ x ∈ l ∧ x ∈ u.
Proof.
  revert u. induction l as [|h l IH]; intros u; cbn; [set_solver|].
  case_decide.
  - specialize (IH (u ∖ {[h]})). destruct (take_unconfirmed _ l). cbn in *.
    rewrite elem_of_cons, IH. destruct (decide (x = h)) as [->|]; set_solver.
  - rewrite IH. set_solver.
Qed.

Lemma take_unconfirmed_NoDup u l : NoDup (take_unconfirmed u l).2.
Proof.
  revert u. induction l as [|h l IH]; intros u; cbn; [constructor|].
  case_decide; [|apply IH]. specialize (IH (u ∖ {[h]})).
  pose proof (elem_of_take_unconfirmed (u ∖ {[h]}) l h) as He.
  destruct (take_unconfirmed _ l). cbn in *. apply NoDup_cons. set_solver.
Qed.

Lemma take_unconfirmed_app u l1 l2 :
  (take_unconfirmed u (l1 ++ l2)).2 =
  (take_unconfirmed u l1).2 ++ (take_unconfirmed (take_unconfirmed u l1).1 l2).2.
Proof.
  revert u. induction l1 as [|h l1 IH]; intros u; cbn; [done|].
  case_decide; [|apply IH]. specialize (IH (u ∖ {[h]})).
  destruct (take_unconfirmed _ (l1 ++ l2)), (take_unconfirmed _ l1). cbn in *. by rewrite IH.
Qed.

(** What precedes a kept element in the list was kept before it. *)
Lemma take_unconfirmed_before u l pre y post :
  (take_unconfirmed u l).2 = pre ++ y :: post →
  ∃ lpre lpost, l = lpre ++ y :: lpost ∧ ∀ r, r ∈ lpre → r ∈ u → r ∈ pre.
Proof.
  revert u pre. induction l as [|h l IH]; intros u pre; cbn; [by destruct pre|].
  case_decide as Hh.
  - specialize (IH (u ∖ {[h]})). destruct (take_unconfirmed _ l) as [u' o]. cbn in *.
    destruct pre as [|h' pre]; intros [= <- Ho].
    + exists [], l. split; [done|]. set_solver.
    + destruct (IH pre Ho) as (lpre & lpost & -> & Hb). exists (h :: lpre), lpost.
      split; [done|]. intros r [->|Hr]%elem_of_cons Hu; [left|].
      destruct (decide (r = h)) as [->|]; [left|]. right. apply Hb; set_solver.
  - intros Ho. destruct (IH u pre Ho) as (lpre & lpost & -> & Hb).
    exists (h :: lpre), lpost. split; [done|]. intros r [->|Hr]%elem_of_cons Hu; [done|auto].
Qed.
End Filter.

(** ** One level of the ledger *)

(** The order computed for a leader: all it reaches among the unconfirmed blocks, each
    once, after what it refers to, the leader last. *)
Record order_ok (d : Database) (u : gset H256) (leader : H256) (order : list H256) : Prop := {
  oo_nodup : NoDup order;
  oo_last : last order = Some leader;
  oo_reach b : b ∈ order → b ∈ u ∧ rtc (refers d) leader b;
  oo_before pre b post : order = pre ++ b :: post →
    ∀ r, refers d b r → r ∈ u → r ∈ pre;
}.

Lemma level_order_ok c d best u leader l :
  proposer_inv c d best → plev d !! leader = Some l → leader ∈ u →
  ∃ n v order, (∀ fuel, n ≤ fuel → dfs fuel d u [leader] [] = Done v) ∧
    take_unconfirmed u (rev v) = (u ∖ list_to_set order, order) ∧
    order_ok d u leader order.
Proof.
  intros Hp Hl Hu. destruct (dfs_ok c d best u Hp leader l Hl Hu) as (n & w & Hd & Hv & Hw).
  exists n, (leader :: w), (take_unconfirmed u (rev (leader :: w))).2.
  split_and!; [done| |split].
  - rewrite (surjective_pairing (take_unconfirmed u (rev (leader :: w)))) at 1. f_equal.
    rewrite take_unconfirmed_set. apply set_eq. intros x.
    rewrite !elem_of_difference, !elem_of_list_to_set, elem_of_take_unconfirmed. naive_solver.
  - apply take_unconfirmed_NoDup.
  - cbn [rev]. rewrite take_unconfirmed_app, take_unconfirmed_set. cbn [take_unconfirmed].
    rewrite decide_True; [cbn [snd]; by rewrite last_snoc|].
    apply elem_of_difference. split; [done|]. rewrite elem_of_list_to_set.
    by rewrite elem_of_rev.
  - intros b [Hb%elem_of_rev_1 Hbu]%elem_of_take_unconfirmed.
    destruct (vo_sound _ _ _ _ Hv b Hb) as (_ & x & ->%list_elem_of_singleton & ?). done.
  - intros pre b post Ho r Hr Hru.
    destruct (take_unconfirmed_before _ _ _ _ _ Ho) as (lpre & lpost & Hrev & Hb).
    apply Hb; [|done]. apply (f_equal (rev (A := H256))) in Hrev.
    rewrite rev_involutive, rev_app_distr in Hrev. cbn [rev] in Hrev.
    rewrite <- app_assoc in Hrev. cbn in Hrev.
    apply elem_of_rev. by eapply (vo_closed _ _ _ _ Hv).
Qed.

(** * The invariant of the ledger

    The confirmed levels hold disjoint lists of blocks; every block comes after the blocks
    it refers to, and the last block of a level is its leader; the unconfirmed set is the
    rest.  [insert_block] and [update_ledger] preserve it, and [update_ledger] returns. *)

(** The ledger up to a level. *)
Definition ledger (om : gmap Z (list H256)) (t : Z) : list H256 :=
  mjoin ((λ l, default [] (om !! l)) <$> range_incl 0 t).

(** One confirmed level. *)
Record level_ok (d : Database) (om : gmap Z (list H256)) (l : Z) (leader : H256)
    (order : list H256) : Prop := {
  lo_order : om !! l = Some order;
  lo_leader : leaders d !! l = Some leader;
  lo_last : last order = Some leader;
  lo_reach b : b ∈ order → rtc (refers d) leader b;
  lo_before pre b post : order = pre ++ b :: post →
    ∀ r, refers d b r → r ∈ ledger om (l - 1) ++ pre;
}.

Record order_inv (d : Database) (om : gmap Z (list H256)) (u : gset H256) (t : Z) : Prop := {
  oi_nodup : NoDup (ledger om t);
  oi_known h : h ∈ ledger om t → is_Some (plev d !! h);
  oi_unconfirmed h : h ∈ u ↔ is_Some (plev d !! h) ∧ h ∉ ledger om t;
  oi_level l : (0 ≤ l ≤ t)%Z → ∃ leader order, level_ok d om l leader order;
  oi_above l : is_Some (om !! l) → (0 ≤ l ≤ t)%Z;
}.

Record ledger_inv (s : BlockChain) : Prop := {
  le_tip : (0 ≤ proposer_ledger_tip s ≤ proposer_best_level s)%Z;
  le_leader l h : leaders (db s) !! l = Some h → plev (db s) !! h = Some l;
  le_next : leaders (db s) !! (proposer_ledger_tip s + 1)%Z = None;
  le_order : order_inv (db s) (orders (db s)) (unconfirmed_proposers s)
    (proposer_ledger_tip s);
}.

(** The invariant of the whole state. *)
Record full_inv (s : BlockChain) : Prop := {
  fi_chain : chain_inv s;
  fi_votes : votes_inv (db s) (voter_ledger_tips s);
  fi_tips : length (voter_ledger_tips s) = length (voter_best s);
  fi_ledger : ledger_inv s;
}.

(** ** Lemmas on the ledger *)

Lemma ledger_split om b t :
  (0 ≤ b)%Z → (b ≤ t + 1)%Z →
  ledger om t = ledger om (b - 1) ++
    mjoin ((λ l, default [] (om !! l)) <$> range_incl b t).
Proof.
  intros Hb Ht. unfold ledger. rewrite (range_incl_app 0 (b - 1) t) by lia.
  rewrite fmap_app, join_app. by replace (b - 1 + 1)%Z with b by lia.
Qed.

Lemma ledger_snoc om t order :
  (0 ≤ t)%Z → om !! t = Some order → ledger om t = ledger om (t - 1) ++ order.
Proof.
  intros Ht Ho. rewrite (ledger_split om t t) by lia. f_equal.
  rewrite range_incl_cons, range_incl_nil by lia. cbn. by rewrite Ho, app_nil_r.
Qed.

Lemma ledger_ext om om' t :
  (∀ l, (0 ≤ l ≤ t)%Z → om' !! l = om !! l) → ledger om' t = ledger om t.
Proof.
  intros He. unfold ledger. f_equal. apply list_fmap_ext. intros i l Hl.
  apply list_elem_of_lookup_2, elem_of_range_incl in Hl. by rewrite He.
Qed.

Lemma level_ok_ext d d' om om' l leader order :
  leaders d' !! l = leaders d !! l → prefs d' = prefs d →
  (∀ k, (0 ≤ k ≤ l)%Z → om' !! k = om !! k) → (0 ≤ l)%Z →
  level_ok d om l leader order → level_ok d' om' l leader order.
Proof.
  intros Hl Hr Ho H0 [? ? ? Hreach Hbefore].
  assert (∀ b r, refers d' b r ↔ refers d b r) as Href.
  { intros b r. unfold refers. by rewrite Hr. }
  split; [by rewrite Ho by lia|by rewrite Hl|done| |].
  - intros b Hb. specialize (Hreach b Hb).
    eapply (rtc_subrel (refers d)); [|done]. intros x y. apply Href.
  - intros pre b post E r Hrr. rewrite (ledger_ext om om') by (intros; apply Ho; lia).
    eapply Hbefore; [done|]. by apply Href.
Qed.

(** Deconfirming the levels from [b] on. *)
Lemma order_inv_truncate d d' om om' u t b :
  order_inv d om u t → (1 ≤ b)%Z → (b ≤ t + 1)%Z →
  plev d' = plev d → prefs d' = prefs d →
  (∀ l, (l < b)%Z → leaders d' !! l = leaders d !! l) →
  (∀ l, om' !! l = if decide (b ≤ l ≤ t)%Z then None else om !! l) →
  order_inv d' om' (u ∪ list_to_set (mjoin ((λ l, default [] (om !! l)) <$> range_incl b t)))
    (b - 1).
Proof.
  intros [Hnd Hkn Hun Hlv Hab] Hb Hbt Hp Hr Hl Ho.
  assert (∀ l, (0 ≤ l ≤ b - 1)%Z → om' !! l = om !! l) as Hlow.
  { intros l Hl'. rewrite Ho. by rewrite decide_False by lia. }
  rewrite (ledger_split om b t) in Hnd, Hkn, Hun by lia.
  apply NoDup_app in Hnd as (Hnd & Hdis & _).
  split; rewrite ?(ledger_ext om om'), ?Hp by done.
  - done.
  - intros h Hh. apply Hkn. set_solver.
  - intros h. rewrite elem_of_union, elem_of_list_to_set, Hun, elem_of_app.
    split; [|destruct (decide (h ∈ mjoin ((λ l, default [] (om !! l)) <$> range_incl b t)));
      naive_solver].
    intros [|Hin]; [naive_solver|]. split; [apply Hkn; set_solver|].
    intros Hh. by apply (Hdis h).
  - intros l Hlb. destruct (Hlv l) as (leader & order & Hok); [lia|]. exists leader, order.
    eapply level_ok_ext; [apply Hl; lia|done| |lia|done]. intros; apply Hlow; lia.
  - intros l. rewrite Ho. case_decide; [by intros [? ?]|]. intros Hs. apply Hab in Hs. lia.
Qed.

(** Confirming the next level. *)
Lemma order_inv_confirm c best d om u t leader order :
  proposer_inv c d best → order_inv d om u t → (0 ≤ t)%Z →
  leaders d !! (t + 1)%Z = Some leader → order_ok d u leader order →
  order_inv d (<[(t + 1)%Z := order]> om) (u ∖ list_to_set order) (t + 1).
Proof.
  intros Hp [Hnd Hkn Hun Hlv Hab] Ht Hl [Ond Olast Oreach Obef].
  assert (∀ k, (0 ≤ k ≤ t)%Z → <[(t + 1)%Z := order]> om !! k = om !! k) as Hlow.
  { intros k Hk. by rewrite lookup_insert_ne by lia. }
  assert (ledger (<[(t + 1)%Z := order]> om) (t + 1) = ledger om t ++ order) as Hled.
  { rewrite (ledger_snoc _ (t + 1) order) by (lia || by rewrite lookup_insert_eq).
    replace (t + 1 - 1)%Z with t by lia. f_equal. by apply ledger_ext. }
  assert (∀ h, h ∈ order → h ∉ ledger om t) as Hdis.
  { intros h Hh. apply Oreach in Hh as [Hh _]. by apply Hun in Hh as [_ ?]. }
  split; rewrite ?Hled.
  - apply NoDup_app. split_and!; [done| |done]. intros h H1 H2. by apply (Hdis h).
  - intros h [Hh|Hh]%elem_of_app; [by apply Hkn|].
    apply Oreach in Hh as [Hh _]. by apply Hun in Hh as [? _].
  - intros h. rewrite elem_of_difference, elem_of_list_to_set, Hun, elem_of_app. naive_solver.
  - intros l Hlt. destruct (decide (l = t + 1)%Z) as [->|].
    + exists leader, order. split; [by rewrite lookup_insert_eq|done|done| |].
      * intros b Hb. by apply Oreach in Hb as [_ ?].
      * intros pre b post E r Hr. replace (t + 1 - 1)%Z with t by lia.
        rewrite (ledger_ext om) by done. apply elem_of_app.
        destruct (decide (r ∈ u)) as [Hu|Hu]; [right; by eapply Obef|]. left.
        assert (b ∈ order) as Hb by (subst; set_solver).
        apply Oreach in Hb as [[[lb Hlb] _]%Hun _].
        destruct (pi_block _ _ _ Hp _ _ Hlb) as (refs & _ & Hrefs & _ & Hlow' & _).
        destruct Hr as (refs' & Hrefs' & Hin). assert (refs' = refs) as -> by congruence.
        destruct (Hlow' r Hin) as (lr & Hlr & _).
        destruct (decide (r ∈ ledger om t)); [done|]. destruct Hu. apply Hun. eauto.
    + destruct (Hlv l) as (ld & o & Hok); [lia|]. exists ld, o.
      eapply level_ok_ext; [done|done| |lia|done]. intros; apply Hlow; lia.
  - intros l. destruct (decide (l = t + 1)%Z) as [->|]; [lia|].
    rewrite lookup_insert_ne by done. intros Hs%Hab. lia.
Qed.

(** ** The loops of [update_order] *)

Abbreviation set_orders om d := (cf_set proposer_ledger_order_cf om d).
Abbreviation set_leaders m d := (cf_set proposer_leader_sequence_cf m d).

Definition orders_at (om : gmap Z (list H256)) (ls : list Z) : list H256 :=
  mjoin ((λ l, default [] (om !! l)) <$> ls).

Lemma deconfirm_ok d st0 om ls :
  (∀ l, l ∈ ls → is_Some (orders d !! l)) →
  write d (ord_wb st0) = Done (set_orders om d) →
  ∃ st om', foldM (deconfirm_level d) st0 ls = Done st ∧
    ord_removed st = ord_removed st0 ++ orders_at (orders d) ls ∧
    ord_added st = ord_added st0 ∧
    ord_unconfirmed st = ord_unconfirmed st0 ∪ list_to_set (orders_at (orders d) ls) ∧
    write d (ord_wb st) = Done (set_orders om' d) ∧
    ∀ l, om' !! l = if decide (l ∈ ls) then None else om !! l.
Proof.
  revert st0 om. induction ls as [|l ls IH]; intros st0 om Hls Hw.
  - exists st0, om. split_and!; try done; [by rewrite app_nil_r|cbn; set_solver].
  - destruct (Hls l) as [o Ho]; [left|].
    assert (deconfirm_level d st0 l = Done (mkOrder (list_to_set o ∪ ord_unconfirmed st0)
      (ord_removed st0 ++ o) (ord_added st0)
      (ord_wb st0 ++ [delete_cf proposer_ledger_order_cf l]))) as Hstep.
    { unfold deconfirm_level, get_cf. cbn [cf_get proposer_ledger_order_cf]. by rewrite Ho. }
    cbn [foldM]. rewrite Hstep. cbn [mbind outcome_bind].
    edestruct (IH (mkOrder (list_to_set o ∪ ord_unconfirmed st0) (ord_removed st0 ++ o)
      (ord_added st0) (ord_wb st0 ++ [delete_cf proposer_ledger_order_cf l])) (delete l om))
      as (st & om' & Hf & Hr & Ha & Hu & Hw' & Hom); [intros; apply Hls; by right| |].
    { cbn [ord_wb]. by rewrite write_app, Hw. }
    change (orders_at (orders d) (l :: ls)) with (default [] (orders d !! l) ++ orders_at (orders d) ls).
    rewrite Ho. cbn [from_option id]. exists st, om'. split_and!; try done.
    + rewrite Hr. cbn [ord_removed]. by rewrite <- app_assoc.
    + rewrite Hu. cbn [ord_unconfirmed]. rewrite list_to_set_app_L. set_solver.
    + intros k. rewrite Hom. destruct (decide (k = l)) as [->|].
      * rewrite lookup_delete_eq. case_decide; case_decide; set_solver.
      * rewrite lookup_delete_ne by done. case_decide; case_decide; set_solver.
Qed.

Section Confirm.
Context (c : BlockchainConfig) (best : Z) (d : Database).
Hypothesis Hp : proposer_inv c d best.
Hypothesis Hleader : ∀ l h, leaders d !! l = Some h → plev d !! h = Some l.

(** A leader of a level above the ledger is not confirmed yet. *)
Lemma leader_unconfirmed om u t leader :
  order_inv d om u t → leaders d !! (t + 1)%Z = Some leader → leader ∈ u.
Proof.
  intros [Hnd Hkn Hun Hlv Hab] Hl. pose proof (Hleader _ _ Hl) as Hpl.
  apply Hun. split; [eauto|]. intros Hin. unfold ledger in Hin.
  apply list_elem_of_join in Hin as (o & Hlo & Ho).
  apply list_elem_of_fmap in Ho as (l & -> & Hlr). apply elem_of_range_incl in Hlr.
  destruct (Hlv l Hlr) as (ld & o & [H1 H2 _ H4 _]). rewrite H1 in Hlo. cbn in Hlo.
  apply H4 in Hlo. destruct (reach_level _ _ _ Hp _ _ _ Hlo (Hleader _ _ H2)) as (ly & Hly & ? & _).
  assert (ly = t + 1)%Z by congruence. lia.
Qed.

Lemma confirm_levels_ok k om st t :
  (best + 1 - t ≤ Z.of_nat k)%Z → (0 ≤ t ≤ best)%Z →
  write d (ord_wb st) = Done (set_orders om d) → order_inv d om (ord_unconfirmed st) t →
  ∃ n st' om' t',
    (∀ fuel, n ≤ fuel → confirm_levels fuel d st (t + 1) = Done (st', t')) ∧
    write d (ord_wb st') = Done (set_orders om' d) ∧
    order_inv d om' (ord_unconfirmed st') t' ∧ (t ≤ t' ≤ best)%Z ∧
    leaders d !! (t' + 1)%Z = None ∧
    (∀ l, (l ≤ t)%Z → om' !! l = om !! l) ∧
    ord_removed st' = ord_removed st ∧
    ord_added st' = ord_added st ++ orders_at om' (range_incl (t + 1) t').
Proof.
  pose proof (pi_best _ _ _ Hp) as Hbest.
  revert om st t. induction k as [|k IH]; intros om st t Hk Ht Hw Hoi; [lia|].
  destruct (leaders d !! (t + 1)%Z) as [leader|] eqn:Hl.
  2: { exists 1, st, om, t. split_and!; try done; [|lia..|].
       - intros [|fuel] Hf; [lia|]. cbn [confirm_levels]. unfold get_cf.
         cbn [cf_get proposer_leader_sequence_cf]. rewrite Hl. rewrite u64_small by lia.
         do 2 f_equal. lia.
       - rewrite range_incl_nil by lia. cbn. by rewrite app_nil_r. }
  pose proof (Hleader _ _ Hl) as Hpl. pose proof (pi_range _ _ _ Hp _ _ Hpl) as Hlr.
  pose proof (leader_unconfirmed _ _ _ _ Hoi Hl) as Hu.
  destruct (level_order_ok _ _ _ _ _ _ Hp Hpl Hu) as (n1 & v & order & Hd & Htake & Hok).
  pose proof (order_inv_confirm _ _ _ _ _ _ _ _ Hp Hoi (proj1 Ht) Hl Hok) as Hoi'.
  set (st1 := mkOrder (ord_unconfirmed st ∖ list_to_set order) (ord_removed st)
    (ord_added st ++ order) (ord_wb st ++ [put_cf proposer_ledger_order_cf (t + 1)%Z order])).
  destruct (IH (<[(t + 1)%Z := order]> om) st1 (t + 1)%Z)
    as (n2 & st' & om' & t' & Hf & Hw' & Hoi2 & Ht' & Hnone & Hsame & Hrem & Hadd); [lia|lia| |done|].
  { cbn [ord_wb st1]. by rewrite write_app, Hw. }
  exists (S (n1 `max` n2)), st', om', t'. split_and!; try done; try lia.
  - intros [|fuel] Hfu; [lia|]. cbn [confirm_levels]. unfold get_cf.
    cbn [cf_get proposer_leader_sequence_cf]. rewrite Hl, Hd by lia.
    cbn [mbind outcome_bind]. rewrite Htake, u64_small by lia. apply Hf. lia.
  - intros l Hlt. rewrite Hsame by lia. by rewrite lookup_insert_ne by lia.
  - rewrite Hadd. cbn [ord_added st1]. rewrite <- app_assoc. f_equal.
    rewrite (range_incl_cons (t + 1) t') by lia. cbn.
    by rewrite Hsame, lookup_insert_eq by lia.
Qed.
End Confirm.

(** The transaction blocks of proposer blocks of the store. *)
Lemma transaction_blocks_ok c d best bs :
  proposer_inv c d best → (∀ b, b ∈ bs → is_Some (plev d !! b)) →
  ∃ txs, transaction_blocks d bs = Done txs ∧
    txs = mjoin ((λ b, default [] (trefs d !! b)) <$> bs).
Proof.
  intros Hp Hbs. unfold transaction_blocks.
  assert (mapO (λ block, unwrap (get_cf transaction_ref_neighbor_cf d block)) bs =
    Done ((λ b, default [] (trefs d !! b)) <$> bs)) as E.
  { apply mapO_done. induction bs as [|b bs IH]; constructor.
    - destruct (Hbs b) as [l Hl]; [left|]. destruct (pi_block _ _ _ Hp _ _ Hl) as (? & txs & _ & Ht & _).
      unfold get_cf. cbn. by rewrite Ht.
    - apply IH. intros; apply Hbs. by right. }
  rewrite E. cbn. eauto.
Qed.

(** ** New leaders *)

Section Leaders.
Context `{PoissonDist} (s : BlockChain) (tips : list H256).
Hypothesis Hinv : chain_inv s.
Hypothesis Hvotes : votes_inv (db s) tips.

Abbreviation old := (leaders (db s)).

(** Why a leader is in the sequence: it was, or the rule confirms it. *)
Definition leader_reason (l : Z) (h : H256) : Prop :=
  old !! l = Some h ∨
  (old !! l = None ∧ confirmed s l (quantile_epsilon_confirm (config s)) h) ∨
  (is_Some (old !! l) ∧ confirmed s l (quantile_epsilon_deconfirm (config s)) h).

(** The state of the loop below level [a]. *)
Record leaders_ok (a : Z) (cb : option Z) (wb : list WriteOp) (m : gmap Z H256) : Prop := {
  ls_write : write (db s) wb = Done (set_leaders m (db s));
  ls_reason l h : m !! l = Some h → leader_reason l h;
  ls_same l : (a ≤ l)%Z → m !! l = old !! l;
  ls_begin : match cb with
    | None => m = old
    | Some b => (1 ≤ b ≤ proposer_best_level s)%Z ∧ (b < a)%Z ∧ m !! b ≠ old !! b ∧
        ∀ l, (l < b)%Z → m !! l = old !! l
    end;
}.

Lemma update_leader_ok a cb wb m :
  (1 ≤ a ≤ proposer_best_level s)%Z → rate_accepted s a → leaders_ok a cb wb m →
  ∃ cb' wb' m', update_leader s (cb, wb) a = Done (cb', wb') ∧ leaders_ok (a + 1) cb' wb' m'.
Proof.
  intros Ha Hrate [Hw Hre Hsame Hcb]. unfold update_leader, get_cf.
  cbn [cf_get proposer_leader_sequence_cf].
  destruct (proposer_leader_ok s tips a (quantile_epsilon_confirm (config s)) Hinv Hvotes Hrate)
    as (rc & -> & Hrc); [lia|].
  destruct (proposer_leader_ok s tips a (quantile_epsilon_deconfirm (config s)) Hinv Hvotes Hrate)
    as (rd & -> & Hrd); [lia|].
  cbn [mbind outcome_bind].
  set (new := match old !! a with Some _ => rd | None => rc end).
  assert (∀ h, new = Some h → leader_reason a h) as Hnew.
  { intros h. unfold new, leader_reason. destruct (old !! a) eqn:E; intros ->.
    - right; right. split; [eauto|]. by apply Hrd.
    - right; left. split; [done|]. by apply Hrc. }
  destruct (decide (new = old !! a)) as [He|Hne].
  { exists cb, wb, m. split; [done|]. split; [done|done|intros; apply Hsame; lia|].
    destruct cb; [|done]. destruct Hcb as (? & ? & ? & ?). split_and!; try done; lia. }
  exists (match cb with None => Some a | Some _ => cb end), 
    (wb ++ [match new with
                 | None => delete_cf proposer_leader_sequence_cf a
                 | Some h => put_cf proposer_leader_sequence_cf a h
                 end]), (partial_alter (λ _, new) a m).
  split; [done|]. split.
  - rewrite write_app, Hw. cbn [mbind outcome_bind]. by destruct new.
  - intros l h. destruct (decide (l = a)) as [->|].
    + rewrite lookup_partial_alter_eq. apply Hnew.
    + rewrite lookup_partial_alter_ne by done. apply Hre.
  - intros l Hl. rewrite lookup_partial_alter_ne by lia. apply Hsame. lia.
  - destruct cb as [b|].
    + destruct Hcb as (? & ? & ? & Hlow). split_and!; [lia..| |].
      * by rewrite lookup_partial_alter_ne by lia.
      * intros l Hl. rewrite lookup_partial_alter_ne by lia. by apply Hlow.
    + subst m. split_and!; [lia..| |].
      * by rewrite lookup_partial_alter_eq.
      * intros l Hl. by rewrite lookup_partial_alter_ne by lia.
Qed.

Lemma update_leaders_loop n a stop cb wb m :
  Z.to_nat (stop - a) = n → (1 ≤ a)%Z → (stop ≤ proposer_best_level s + 1)%Z →
  (∀ l, l ∈ range a stop → rate_accepted s l) → leaders_ok a cb wb m →
  ∃ cb' wb' m' a', foldM (update_leader s) (cb, wb) (range a stop) = Done (cb', wb') ∧
    leaders_ok a' cb' wb' m'.
Proof.
  revert a cb wb m. induction n as [|n IH]; intros a cb wb m Hn Ha Hs Hrate Hok.
  - rewrite range_nil by lia. by exists cb, wb, m, a.
  - rewrite range_cons in * by lia.
    destruct (update_leader_ok a cb wb m) as (cb1 & wb1 & m1 & Hstep & Hok1); [lia|apply Hrate; left|done|].
    destruct (IH (a + 1)%Z cb1 wb1 m1) as (cb' & wb' & m' & a' & Hf & Hok');
      [lia..|intros; apply Hrate; by right|done|].
    exists cb', wb', m', a'. split; [|done].
    cbn [foldM]. by rewrite Hstep.
Qed.

(** The rates of the levels whose leaders are computed. *)
Definition levels_accepted (r : Z * Z) : Prop :=
  ∀ l, l ∈ range (widen_to_tip s r).1 (widen_to_tip s r).2 → rate_accepted s l.

Lemma update_leaders_accepted r s' cb :
  update_leaders s r = Done (s', cb) → levels_accepted r.
Proof.
  unfold update_leaders, levels_accepted. destruct (widen_to_tip s r) as [a stop]. cbn [fst snd].
  intros Hu. apply bind_done in Hu as ([cb' wb] & Hf & _). clear s'.
  revert Hf. generalize (@None Z, @nil WriteOp) as acc. generalize (range a stop) as ls.
  induction ls as [|l ls IH]; intros acc Hf x Hx; [by apply elem_of_nil in Hx|].
  cbn [foldM] in Hf. apply bind_done in Hf as (acc' & Hl & Hf).
  apply elem_of_cons in Hx as [->|Hx]; [|by eapply IH]. destruct acc as [cb0 wb0].
  unfold update_leader in Hl. apply bind_done in Hl as (rc & Hrc & _).
  by eapply proposer_leader_accepted.
Qed.

Lemma update_leaders_ok r :
  levels_accepted r → range_ok (proposer_best_level s) r →
  (0 ≤ proposer_ledger_tip s ≤ proposer_best_level s)%Z →
  ∃ cb wb m a, update_leaders s r = Done (set_db (set_leaders m (db s)) s, cb) ∧
    leaders_ok a cb wb m.
Proof.
  unfold levels_accepted. intros Hrate Hr Htip. destruct Hinv as [Hc Hp Hv]. pose proof (pi_best _ _ _ Hp).
  assert (∃ a stop, widen_to_tip s r = (a, stop) ∧
    ((stop ≤ a)%Z ∨ (1 ≤ a)%Z ∧ (stop ≤ proposer_best_level s + 1)%Z)) as (a & stop & Hwt & Hran).
  { unfold widen_to_tip. destruct r as [a stop]. rewrite u64_small by lia.
    destruct Hr as [[= -> ->]|[? ?]]; cbn in *.
    - eexists _, _. split; [done|]. left. lia.
    - destruct (Z.ltb_spec a stop); [|lia]. cbn.
      destruct (Z.ltb_spec (proposer_ledger_tip s + 1) a); eexists _, _; split; try done; lia. }
  rewrite Hwt in Hrate. cbn [fst snd] in Hrate.
  assert (leaders_ok a None [] old) as Hinit.
  { split; try done; [by destruct (db s)|]. intros l h ?. by left. }
  assert (∃ cb wb m a', foldM (update_leader s) (None, []) (range a stop) = Done (cb, wb) ∧
    leaders_ok a' cb wb m) as (cb & wb & m & a' & Hf & Hok).
  { destruct Hran as [?|[? ?]].
    - rewrite range_nil by lia. by exists None, [], old, a.
    - by eapply update_leaders_loop. }
  exists cb, wb, m, a'. split; [|done]. unfold update_leaders. rewrite Hwt, Hf.
  cbn [mbind outcome_bind]. by rewrite (ls_write _ _ _ _ Hok).
Qed.
End Leaders.

(** ** [update_order] *)

Lemma orders_at_known d om u t ls x :
  order_inv d om u t → (∀ l, l ∈ ls → (0 ≤ l ≤ t)%Z) →
  x ∈ orders_at om ls → is_Some (plev d !! x).
Proof.
  intros Ho Hls Hx. apply (oi_known _ _ _ _ Ho). unfold orders_at, ledger in *.
  rewrite list_elem_of_join in *. destruct Hx as (o & Hxo & Hin). exists o. split; [done|].
  apply list_elem_of_fmap in Hin as (l & -> & Hl). apply list_elem_of_fmap.
  exists l. split; [done|]. apply elem_of_range_incl. auto.
Qed.

(** A store whose leaders changed first at level [b]. *)
Section UpdateOrder.
Context (s : BlockChain) (b : Z) (m : gmap Z H256).
Hypothesis Hci : chain_inv s.
Hypothesis Hli : ledger_inv s.
Hypothesis Hb : (1 ≤ b ≤ proposer_best_level s)%Z.
Hypothesis Hsame : ∀ l, (l < b)%Z → m !! l = leaders (db s) !! l.
Hypothesis Hm : ∀ l h, m !! l = Some h → plev (db s) !! h = Some l.

Abbreviation d1 := (set_leaders m (db s)).
Abbreviation s1 := (set_db d1 s).
Abbreviation tip := (proposer_ledger_tip s).

Lemma d1_proposer_inv : proposer_inv (config s) d1 (proposer_best_level s).
Proof. destruct Hci as [_ [] _]. by split. Qed.

Lemma deconfirm_levels_ok :
  ∃ st om1, foldM (deconfirm_level d1) (mkOrder (unconfirmed_proposers s) [] [] [])
      (range_incl b tip) = Done st ∧
    ord_removed st = orders_at (orders (db s)) (range_incl b tip) ∧ ord_added st = [] ∧
    write d1 (ord_wb st) = Done (set_orders om1 d1) ∧
    (∀ l, (l < b)%Z → om1 !! l = orders (db s) !! l) ∧
    ((b ≤ tip + 1)%Z → order_inv d1 om1 (ord_unconfirmed st) (b - 1)) ∧
    ((tip < b)%Z → om1 = orders (db s) ∧ ord_unconfirmed st = unconfirmed_proposers s).
Proof.
  destruct Hli as [Htip _ _ Hoi].
  destruct (deconfirm_ok d1 (mkOrder (unconfirmed_proposers s) [] [] []) (orders (db s))
    (range_incl b tip)) as (st & om1 & Hdec & Hrem & Hadd & Hunc & Hw1 & Hom1).
  { intros l Hl%elem_of_range_incl. cbn.
    destruct (oi_level _ _ _ _ Hoi l) as (? & ? & [-> _ _ _ _]); [lia|eauto]. }
  { by destruct (db s). }
  exists st, om1. split_and!; try done.
  - intros l Hl. rewrite Hom1, decide_False; [done|]. rewrite elem_of_range_incl. lia.
  - intros Hle. rewrite Hunc.
    eapply order_inv_truncate; [exact Hoi|lia|lia|done|done| |].
    + intros l Hl. by apply Hsame.
    + intros l. rewrite Hom1. apply decide_ext, elem_of_range_incl.
  - intros Hlt. rewrite range_incl_nil in * by lia. split.
    + apply map_eq. intros l. by rewrite Hom1, decide_False by set_solver.
    + rewrite Hunc. cbn. set_solver.
Qed.

Lemma confirm_from_ok st om1 :
  ord_added st = [] → write d1 (ord_wb st) = Done (set_orders om1 d1) →
  (∀ l, (l < b)%Z → om1 !! l = orders (db s) !! l) →
  ((b ≤ tip + 1)%Z → order_inv d1 om1 (ord_unconfirmed st) (b - 1)) →
  ((tip < b)%Z → om1 = orders (db s) ∧ ord_unconfirmed st = unconfirmed_proposers s) →
  ∃ n st' om t,
    (∀ fuel, n ≤ fuel →
      (if (b <=? u64 (tip + 1))%Z then confirm_levels fuel d1 st b else Done (st, tip)) =
      Done (st', t)) ∧
    write d1 (ord_wb st') = Done (set_orders om d1) ∧
    order_inv d1 om (ord_unconfirmed st') t ∧ (0 ≤ t ≤ proposer_best_level s)%Z ∧
    m !! (t + 1)%Z = None ∧ ord_removed st' = ord_removed st ∧
    ord_added st' = orders_at om (range_incl b t) ∧
    (∀ l, (l < b)%Z → om !! l = orders (db s) !! l) ∧
    ((b ≤ t + 1 ∧ b ≤ tip + 1)%Z ∨ (om = orders (db s) ∧ t = tip ∧ tip < b)%Z).
Proof.
  intros Hadd Hw1 Hlow Hle_inv Hgt_inv. destruct Hli as [Htip Hll Hnext Hoi].
  pose proof (pi_best _ _ _ d1_proposer_inv) as Hbest.
  rewrite u64_small by lia. destruct (Z.leb_spec b (tip + 1)) as [Hle|Hgt].
  - destruct (confirm_levels_ok (config s) (proposer_best_level s) d1 d1_proposer_inv Hm
      (Z.to_nat (proposer_best_level s + 1)) om1 st (b - 1))
      as (n & st' & om & t & Hf & Hw & Ho & Ht & Hnone & Hs & Hr & Ha); [lia|lia|done|auto|].
    replace (b - 1 + 1)%Z with b in * by lia.
    exists n, st', om, t. split_and!; try done; [lia|lia|by rewrite Ha, Hadd| |left; lia].
    intros l Hl. rewrite Hs by lia. auto.
  - destruct Hgt_inv as [-> Hun]; [lia|]. exists 0, st, (orders (db s)), tip.
    split_and!; try done; try lia.
    + rewrite Hun. destruct Hoi as [? ? ? Hlv ?]. split; try done. intros l Hl.
      destruct (Hlv l Hl) as (ld & o & Hok). exists ld, o.
      apply (level_ok_ext (db s) _ (orders (db s))); [|done|done|lia|done].
      cbn. apply Hsame. lia.
    + by rewrite Hsame by lia.
    + by rewrite range_incl_nil by lia.
    + right. split_and!; [done..|lia].
Qed.

Lemma update_order_ok :
  ∃ n om u t,
    (∀ fuel, n ≤ fuel → update_order fuel s1 b =
      Done (set_db (set_orders om d1) (set_proposer_ledger_tip t
              (set_unconfirmed_proposers u s1)),
        (mjoin ((λ x, default [] (trefs (db s) !! x)) <$> orders_at om (range_incl b t)),
         mjoin ((λ x, default [] (trefs (db s) !! x)) <$>
           orders_at (orders (db s)) (range_incl b tip))))) ∧
    (0 ≤ t ≤ proposer_best_level s)%Z ∧ m !! (t + 1)%Z = None ∧ order_inv d1 om u t ∧
    (∀ l, (l < b)%Z → om !! l = orders (db s) !! l) ∧
    ((b ≤ t + 1 ∧ b ≤ tip + 1)%Z ∨ (om = orders (db s) ∧ t = tip ∧ tip < b)%Z).
Proof.
  destruct deconfirm_levels_ok as (st & om1 & Hdec & Hrem & Hadd & Hw1 & Hlow1 & H1 & H2).
  destruct (confirm_from_ok st om1 Hadd Hw1 Hlow1 H1 H2)
    as (n & st' & om & t & Hconf & Hw & Ho & Ht & Hnone & Hrem' & Hadd' & Hlow & Hor).
  pose proof d1_proposer_inv as Hp1. destruct Hli as [Htip Hll Hnext Hoi].
  destruct (transaction_blocks_ok (config s) (set_orders om d1) (proposer_best_level s)
    (ord_removed st')) as (txr & Hr & Htxr); [by destruct Hp1; split| |].
  { intros x. rewrite Hrem', Hrem. apply (orders_at_known _ _ _ _ _ _ Hoi).
    intros l Hl%elem_of_range_incl. lia. }
  destruct (transaction_blocks_ok (config s) (set_orders om d1) (proposer_best_level s)
    (ord_added st')) as (txa & Ha & Htxa); [by destruct Hp1; split| |].
  { intros x. rewrite Hadd'. apply (orders_at_known _ _ _ _ _ _ Ho).
    intros l Hl%elem_of_range_incl. lia. }
  exists n, om, (ord_unconfirmed st'), t. split_and!; try done; try lia.
  intros fuel Hfu. unfold update_order.
  cbn [db set_db unconfirmed_proposers proposer_ledger_tip]. rewrite Hdec.
  cbn [mbind outcome_bind]. rewrite Hconf by done. cbn [mbind outcome_bind]. rewrite Hw.
  cbn [mbind outcome_bind]. rewrite Hr. cbn [mbind outcome_bind]. rewrite Ha.
  cbn [mbind outcome_bind]. rewrite Htxr, Htxa, Hrem', Hrem, Hadd'. done.
Qed.
End UpdateOrder.

(** ** [update_ledger] *)

Section UpdateLedger.
Context `{PoissonDist}.

Lemma chain_inv_set_votes s mv tips :
  chain_inv s →
  chain_inv (set_db (cf_set proposer_node_vote_cf mv (db s)) (set_voter_ledger_tips tips s)).
Proof. intros [Hc [] []]. by split; [|split..]. Qed.

Lemma chain_inv_set_leaders s m : chain_inv s → chain_inv (set_db (set_leaders m (db s)) s).
Proof. intros [Hc [] []]. by split; [|split..]. Qed.

Lemma chain_inv_set_order s om t u :
  chain_inv s → chain_inv (set_db (set_orders om (db s)) (set_proposer_ledger_tip t
    (set_unconfirmed_proposers u s))).
Proof. intros [Hc [] []]. by split; [|split..]. Qed.

(** The votes of chains do not depend on leaders and orders. *)
Lemma chain_votes_ext d d' h :
  vlev d' = vlev d → vvotes d' = vvotes d → vparent d' = vparent d →
  chain_votes d' h = chain_votes d h.
Proof.
  intros H1 H2 H3. unfold chain_votes. rewrite H1.
  generalize (Z.to_nat (default 0%Z (vlev d !! h))) as n. intros n. revert h.
  induction n as [|n IH]; intros h; cbn [path_votes]; rewrite H2; [done|].
  rewrite H3. f_equal. destruct (vparent d !! h); [apply IH|done].
Qed.

Lemma votes_inv_ext d d' tips :
  vlev d' = vlev d → vchain d' = vchain d → vvotes d' = vvotes d → vparent d' = vparent d →
  pvotes d' = pvotes d → votes_inv d tips → votes_inv d' tips.
Proof.
  intros H1 H2 H3 H4 H5 [Ht Hn Hv]. split.
  - intros i h Hi. rewrite H1, H2. by apply Ht.
  - by rewrite H5.
  - intros x ch k. rewrite H5, Hv. setoid_rewrite (chain_votes_ext d d'); done.
Qed.

(** The ledger does not depend on votes. *)
Lemma ledger_inv_set_votes s mv tips :
  ledger_inv s →
  ledger_inv (set_db (cf_set proposer_node_vote_cf mv (db s)) (set_voter_ledger_tips tips s)).
Proof.
  intros [Htip Hll Hnext [Hnd Hkn Hun Hlv Hab]]. split; try done. split; try done.
  intros l Hl. destruct (Hlv l Hl) as (ld & o & Hok). exists ld, o.
  apply (level_ok_ext (db s) _ (orders (db s))); try done. lia.
Qed.

(** The transaction blocks the ledger confirms, in order. *)
Definition ledger_transactions (s : BlockChain) : list H256 :=
  mjoin ((λ x, default [] (trefs (db s) !! x)) <$>
    ledger (orders (db s)) (proposer_ledger_tip s)).

Lemma ledger_transactions_split f om om' b t t' :
  (1 ≤ b)%Z → (b ≤ t + 1)%Z → (b ≤ t' + 1)%Z → (∀ l, (l < b)%Z → om' !! l = om !! l) →
  ∃ P : list H256,
    mjoin (f <$> ledger om t) = P ++ mjoin (f <$> orders_at om (range_incl b t)) ∧
    mjoin (f <$> ledger om' t') = P ++ mjoin (f <$> orders_at om' (range_incl b t')).
Proof.
  intros Hb Ht Ht' He. exists (mjoin (f <$> ledger om (b - 1))).
  rewrite (ledger_split om b t), (ledger_split om' b t') by lia.
  rewrite (ledger_ext om om') by (intros; apply He; lia).
  by rewrite !fmap_app, !join_app.
Qed.

(** The distribution accepts the rates that [update_ledger] computes. *)
Definition ledger_accepted (s : BlockChain) : Prop :=
  ∀ fuel s1 r, update_votes fuel s = Done (s1, r) → levels_accepted s1 r.

Lemma update_ledger_ok s :
  full_inv s → ledger_accepted s →
  ∃ n s' out, (∀ fuel, n ≤ fuel → update_ledger fuel s = Done (s', out)) ∧
    full_inv s' ∧ config s' = config s ∧
    (∃ P, ledger_transactions s = P ++ out.2 ∧ ledger_transactions s' = P ++ out.1) ∧
    voter_ledger_tips s' = (voter_best s).*1.
Proof.
  intros [Hci Hvi Htl Hli] Hacc.
  destruct (update_votes_ok s Hci Hvi Htl) as (n1 & r & mv & Huv & Hvi1 & Hr).
  set (s1 := set_db (cf_set proposer_node_vote_cf mv (db s))
    (set_voter_ledger_tips (voter_best s).*1 s)) in *.
  pose proof (chain_inv_set_votes s mv (voter_best s).*1 Hci) as Hci1. fold s1 in Hci1.
  pose proof (ledger_inv_set_votes s mv (voter_best s).*1 Hli) as Hli1. fold s1 in Hli1.
  destruct (update_leaders_ok s1 (voter_best s).*1 Hci1 Hvi1 r (Hacc _ _ _ (Huv n1 (le_n n1))) Hr)
    as (cb & wb & m & a & Hul & Hlo);
    [apply Hli1|].
  assert (∀ l h, m !! l = Some h → plev (db s) !! h = Some l) as Hm.
  { intros l h Hl. destruct (ls_reason _ _ _ _ _ Hlo _ _ Hl) as [Ho|[[_ Hcf]|[_ Hcf]]];
      [by apply (le_leader _ Hli)| |];
      destruct Hcf as (bs & t & dist & st & Hbs & _ & Hin & _), Hci1 as [_ Hp _];
      by apply (pi_tree _ _ _ Hp _ _ Hbs). }
  pose proof (ls_begin _ _ _ _ _ Hlo) as Hbeg. destruct cb as [b|].
  - destruct Hbeg as (Hb & _ & _ & Hlow).
    destruct (update_order_ok s1 b m Hci1 Hli1 Hb Hlow Hm) as (n2 & om & u & t & Huo & Ht & Hnone & Ho & Hom & Hor).
    eexists (n1 `max` n2), _, _. split.
    + intros fuel Hf. unfold update_ledger. rewrite Huv by lia. cbn [mbind outcome_bind].
      rewrite Hul. cbn [mbind outcome_bind]. apply Huo. lia.
    + split; [|split_and!; [done| |done]].
      2: { change (proposer_ledger_tip s1) with (proposer_ledger_tip s) in *.
           change (proposer_best_level s1) with (proposer_best_level s) in *.
           destruct Hor as [[? ?]|(-> & -> & ?)].
           - apply (ledger_transactions_split _ _ _ b); [lia..|done].
           - rewrite !range_incl_nil by lia. exists (ledger_transactions s).
             cbn [snd fst orders_at fmap list_fmap mjoin list_join]. by rewrite !app_nil_r. }
      split; [|by eapply votes_inv_ext; [..|exact Hvi1]|cbn; by rewrite length_fmap|].
      * by apply (chain_inv_set_order (set_db (set_leaders m (db s1)) s1)), chain_inv_set_leaders.
      * split; try done. destruct Ho as [? ? ? Hlv ?]. split; try done.
        intros l Hl. destruct (Hlv l Hl) as (ld & o & Hok). exists ld, o.
        apply (level_ok_ext (set_leaders m (db s1)) _ om); try done. lia.
  - eexists n1, _, _. split.
    + intros fuel Hf. unfold update_ledger. rewrite Huv by lia. cbn [mbind outcome_bind].
      rewrite Hul. done.
    + subst m. replace (set_leaders (leaders (db s1)) (db s1)) with (db s1) by by destruct (db s).
      split; [split; [done|done|cbn; by rewrite length_fmap|done]|].
      split_and!; [done| |done]. exists (ledger_transactions s). by rewrite !app_nil_r.
Qed.
End UpdateLedger.

(** ** Insertion *)

Section Insert.
Context `{Keccak, BincodeHeader, Rlp, PublicKeyCrypto}.

Lemma extends_chain_votes s s' h l ch :
  chain_inv s → extends s s' → vlev (db s) !! h = Some l → vchain (db s) !! h = Some ch →
  chain_votes (db s') h = chain_votes (db s) h.
Proof.
  intros [_ Hp Hv] Hex Hl Hch. unfold chain_votes.
  rewrite (ex_vlev _ _ Hex) by eauto. rewrite Hl. cbn [from_option id].
  remember (Z.to_nat l) as n eqn:Hn. revert h l Hn Hl Hch.
  induction n as [|n IH]; intros h l Hn Hl Hch; cbn [path_votes];
    rewrite (ex_vvotes _ _ Hex) by eauto; [done|].
  rewrite (ex_vparent _ _ Hex) by eauto. f_equal.
  destruct (chain_votes_step _ _ _ Hv _ _ _ Hl Hch) as (p & _ & _ & _ & _ & Hpar & Hpl & Hpc & _);
    [lia|]. rewrite Hpar. apply (IH p (l - 1)%Z); [lia|done..].
Qed.

Lemma extends_votes_inv s s' :
  chain_inv s → extends s s' → votes_inv (db s) (voter_ledger_tips s) →
  votes_inv (db s') (voter_ledger_tips s').
Proof.
  intros Hci Hex [Ht Hn Hv]. rewrite (ex_tips _ _ Hex). split.
  - intros i h Hi. destruct (Ht i h Hi) as (l & Hl & Hc). exists l.
    by rewrite (ex_vlev _ _ Hex), (ex_vchain _ _ Hex) by eauto.
  - by rewrite (ex_pvotes _ _ Hex).
  - intros x ch k. rewrite (ex_pvotes _ _ Hex), Hv.
    apply exist_proper. intros i. apply exist_proper. intros h.
    split; intros (-> & Hi & Hx); destruct (Ht i h Hi) as (l & Hl & Hc);
      rewrite (extends_chain_votes s s' h l (Z.of_nat i)) in *; done.
Qed.

Lemma extends_refers s s' b r :
  extends s s' → is_Some (plev (db s) !! b) → refers (db s') b r ↔ refers (db s) b r.
Proof. intros Hex Hb. unfold refers. by rewrite (ex_prefs _ _ Hex). Qed.

Lemma extends_reach s s' x y :
  chain_inv s → extends s s' → is_Some (plev (db s) !! x) →
  rtc (refers (db s)) x y → rtc (refers (db s')) x y.
Proof.
  intros [_ Hp _] Hex Hx Hr. induction Hr as [x|x z y Hxz Hr IH]; [done|].
  eapply rtc_l; [by apply (extends_refers _ _ _ _ Hex Hx)|]. apply IH.
  destruct Hx as [l Hl]. destruct (pi_block _ _ _ Hp _ _ Hl) as (rs & _ & Hrs & _ & Hlow & _).
  destruct Hxz as (rs' & ? & Hz). assert (rs' = rs) as -> by congruence.
  destruct (Hlow z Hz) as (? & ? & _). eauto.
Qed.

Lemma extends_ledger_inv s s' :
  chain_inv s → extends s s' → ledger_inv s → ledger_inv s'.
Proof.
  intros Hci Hex [Htip Hll Hnext [Hnd Hkn Hun Hlv Hab]].
  pose proof (ex_best _ _ Hex) as Hbest.
  split; rewrite ?(ex_tip _ _ Hex), ?(ex_leaders _ _ Hex), ?(ex_orders _ _ Hex); try done; [lia| |].
  { intros l h Hl. apply (ex_plev _ _ Hex). by apply Hll. }
  split; try done.
  - intros h Hh. destruct (Hkn h Hh) as [l Hl]. exists l. by apply (ex_plev _ _ Hex).
  - intros h. rewrite (ex_unconfirmed _ _ Hex), Hun. split.
    + intros [[[l Hl] ?]|[Hnone Hs]].
      * split; [|done]. exists l. by apply (ex_plev _ _ Hex).
      * split; [done|]. intros Hin. destruct (Hkn h Hin). congruence.
    + intros [Hs Hnin]. destruct (plev (db s) !! h) eqn:E; [left; eauto|by right].
  - intros l Hl. destruct (Hlv l Hl) as (ld & o & [H1' H2' H3' H4' H5']). exists ld, o.
    pose proof (Hll _ _ H2') as Hld.
    assert (∀ b, b ∈ o → is_Some (plev (db s) !! b)) as Hob.
    { intros b Hb. destruct Hci as [_ Hp _].
      destruct (reach_level _ _ _ Hp _ _ _ (H4' b Hb) Hld) as (? & ? & _). eauto. }
    split; rewrite ?(ex_leaders _ _ Hex); try done.
    + intros b Hb. eapply extends_reach; eauto.
    + intros pre b post E r Hr. eapply H5'; [done|].
      apply (extends_refers _ _ _ _ Hex); [|done]. apply Hob. subst. set_solver.
Qed.

Lemma insert_block_full_inv s (b : Block) :
  full_inv s → accepted s b →
  ∃ s', insert_block s b = Done s' ∧ full_inv s' ∧ extends s s'.
Proof.
  intros [Hci Hvi Htl Hli] Hacc. destruct (insert_block_ok s b Hci Hacc) as (s' & Hs & Hci' & Hex).
  exists s'. split_and!; [done| |done]. 
  split; [done|by apply (extends_votes_inv s)| |by apply (extends_ledger_inv s)].
  rewrite (ex_tips _ _ Hex), Htl. destruct Hci as [_ _ Hv], Hci' as [_ _ Hv'].
  rewrite (vi_len _ _ _ Hv), (vi_len _ _ _ Hv'). by rewrite (ex_config _ _ Hex).
Qed.
End Insert.

(** ** Initialisation *)

Lemma genesis_ledger_inv c k s :
  genesis_db c k (db s) → proposer_best_level s = 0%Z → proposer_ledger_tip s = 0%Z →
  unconfirmed_proposers s = ∅ → ledger_inv s.
Proof.
  intros Hg Hbest Htip Hun.
  assert (ledger (orders (db s)) 0 = [proposer_genesis c]) as Hled.
  { unfold ledger. by rewrite (gd_orders _ _ _ Hg). }
  split; rewrite ?Hbest, ?Htip, ?(gd_leaders _ _ _ Hg); [lia| | |].
  - intros l h [<- <-]%lookup_singleton_Some. by rewrite (gd_plev _ _ _ Hg), lookup_singleton_eq.
  - by rewrite lookup_singleton_ne.
  - split; rewrite ?Hled.
    + apply NoDup_singleton.
    + intros h ->%list_elem_of_singleton. by rewrite (gd_plev _ _ _ Hg), lookup_singleton_eq.
    + intros h. rewrite Hun, (gd_plev _ _ _ Hg). split; [set_solver|].
      intros [[l [<- _]%lookup_singleton_Some] ?]. set_solver.
    + intros l Hl. assert (l = 0)%Z as -> by lia. exists (proposer_genesis c), [proposer_genesis c].
      split; rewrite ?(gd_orders _ _ _ Hg), ?(gd_leaders _ _ _ Hg), ?lookup_singleton_eq; try done.
      * intros b ->%list_elem_of_singleton. done.
      * intros pre b post E r (refs & Hrefs & Hin). rewrite (gd_prefs _ _ _ Hg) in Hrefs.
        apply lookup_singleton_Some in Hrefs as [_ <-]. set_solver.
    + intros l. rewrite (gd_orders _ _ _ Hg).
      intros [o [<- _]%lookup_singleton_Some]. lia.
Qed.

Lemma BlockChain_new_full_inv c :
  config_wf c → ∃ s, BlockChain_new c = Done s ∧ full_inv s ∧ config s = c.
Proof.
  intros Hc. destruct (BlockChain_new_ok c Hc) as (s & Hs & Hci & Hg & Hcfg & Hbest & Htip & Hun & Htips & Hvb).
  exists s. split_and!; [done| |done]. pose proof Hci as [_ Hp Hv].
  assert (∀ i h, voter_genesis c !! i = Some h →
    vlev (db s) !! h = Some 0%Z ∧ vchain (db s) !! h = Some (Z.of_nat i) ∧
    chain_votes (db s) h = [(proposer_genesis c, 0%Z)]) as Hgen.
  { intros i h Hi. pose proof (lookup_lt_Some _ _ _ Hi) as Hlt.
    destruct (gd_voter _ _ _ Hg i h Hlt Hi) as (Hl & Hch & _). split_and!; [done..|].
    destruct (chain_votes_genesis _ _ _ Hv _ _ Hl Hch) as (_ & _ & ->). by rewrite Hcfg. }
  assert (∀ x, default [] (pvotes (db s) !! x) =
    if decide (x = proposer_genesis c)
    then (λ i, (Z.of_nat i, 0%Z)) <$> seq 0 (length (voter_genesis c)) else []) as Hpv.
  { intros x. case_decide as E; [subst x; apply (gd_pvotes _ _ _ Hg)|].
    by rewrite (gd_pvotes_other _ _ _ Hg). }
  split; [done| |by rewrite Htips, Hvb, length_fmap|].
  - rewrite Htips. split.
    + intros i h Hi. destruct (Hgen i h Hi) as (? & ? & _). eauto.
    + intros x. rewrite Hpv. case_decide; [|constructor].
      apply NoDup_fmap_2; [intros i j [= ?]; lia|apply NoDup_seq].
    + intros x ch k. unfold vote_in. rewrite Hpv. case_decide as E.
      * subst x. rewrite list_elem_of_fmap. setoid_rewrite elem_of_seq. split.
        -- intros (i & [= -> ->] & Hi).
           destruct (lookup_lt_is_Some_2 (voter_genesis c) i) as [h Hh]; [lia|].
           exists i, h. destruct (Hgen i h Hh) as (_ & _ & ->). set_solver.
        -- intros (i & h & -> & Hi & Hx). destruct (Hgen i h Hi) as (_ & _ & Hcv).
           rewrite Hcv in Hx. apply list_elem_of_singleton in Hx as [= ->].
           exists i. split; [done|]. apply lookup_lt_Some in Hi. lia.
      * split; [set_solver|]. intros (i & h & -> & Hi & Hx).
        destruct (Hgen i h Hi) as (_ & _ & Hcv). rewrite Hcv in Hx. set_solver.
  - by apply (genesis_ledger_inv c (length (voter_genesis c))).
Qed.
