(* ===== verification/Reachable.v ===== *)
(** * The states a node reaches

    The block structure and the ledger as a transition system: insertions of accepted
    blocks and ledger updates, in any order.  The invariants hold in every state that is
    reachable from [BlockChain::new]; the second part adds the lists of blocks that no block
    refers to. *)

From S2P Require Import Prelude Hash Transaction Float Config Block Store Chain Validation Leader.
From S2P Require Import Ledger ChainInv VoteInv LeaderProofs LedgerInv.

(** ** More fuel does not change a result *)

Lemma foldM_mono {A S} (f f' : S → A → Outcome S) s l r :
  (∀ s x r, f s x = Done r → f' s x = Done r) → foldM f s l = Done r → foldM f' s l = Done r.
Proof.
  intros Hf. revert s. induction l as [|x l IH]; intros s; [done|]. cbn [foldM].
  intros H. inv_done. erewrite Hf by done. by apply IH.
Qed.

Section Fuel.
Context `{PoissonDist}.

Lemma level_loop_mono fuel fuel' d st r :
  fuel ≤ fuel' → level_loop fuel d st = Done r → level_loop fuel' d st = Done r.
Proof.
  revert fuel' st. induction fuel as [|fuel IH]; intros [|fuel'] st Hle; try done; [lia|].
  cbn [level_loop]. case_if; [done|]. intros Hr. inv_done. rewrite Hv. cbn. apply IH; [lia|done].
Qed.

Lemma fork_loop_mono fuel fuel' d st r :
  fuel ≤ fuel' → fork_loop fuel d st = Done r → fork_loop fuel' d st = Done r.
Proof.
  revert fuel' st. induction fuel as [|fuel IH]; intros [|fuel'] st Hle; try done; [lia|].
  cbn [fork_loop]. case_decide; [done|]. intros Hr. inv_done. rewrite Hv. cbn. rewrite Hv0.
  cbn. apply IH; [lia|done].
Qed.

Lemma vote_diff_mono fuel fuel' d from to r :
  fuel ≤ fuel' → vote_diff fuel d from to = Done r → vote_diff fuel' d from to = Done r.
Proof.
  intros Hle. unfold vote_diff. intros Hr. inv_done. rewrite Hv, Hv0. cbn.
  erewrite level_loop_mono by done. cbn. by erewrite fork_loop_mono by done.
Qed.

Lemma update_votes_mono fuel fuel' s r :
  fuel ≤ fuel' → update_votes fuel s = Done r → update_votes fuel' s = Done r.
Proof.
  intros Hle. unfold update_votes. intros Hr. apply bind_done in Hr as ([[tips wb] ran] & Hf & Hr).
  apply (foldM_mono _ (update_chain_votes fuel' s)) in Hf; [by rewrite Hf|].
  intros [[t w] a] x r0. unfold update_chain_votes. intros Hu.
  apply bind_done in Hu as (from & H1 & Hu). rewrite H1. cbn.
  apply bind_done in Hu as (vb & H2 & Hu). rewrite H2. cbn.
  apply bind_done in Hu as (ar & H3 & Hu). by erewrite vote_diff_mono by done.
Qed.

Lemma dfs_mono fuel fuel' d u stack order r :
  fuel ≤ fuel' → dfs fuel d u stack order = Done r → dfs fuel' d u stack order = Done r.
Proof.
  revert fuel' stack order. induction fuel as [|fuel IH]; intros [|fuel'] stack order Hle;
    try done; [lia|]. cbn [dfs]. destruct stack as [|top stack]; [done|]. case_decide.
  - intros Hr. inv_done. rewrite Hv. cbn. apply IH; [lia|done].
  - apply IH. lia.
Qed.

Lemma confirm_levels_mono fuel fuel' d st l r :
  fuel ≤ fuel' → confirm_levels fuel d st l = Done r → confirm_levels fuel' d st l = Done r.
Proof.
  revert fuel' st l. induction fuel as [|fuel IH]; intros [|fuel'] st l Hle; try done; [lia|].
  cbn [confirm_levels]. destruct (get_cf _ d l) as [leader|]; [|done].
  intros Hr. apply bind_done in Hr as (o & Ho & Hr).
  apply (dfs_mono _ (S fuel')) in Ho; [|lia]. rewrite Ho. cbn [mbind outcome_bind].
  destruct (take_unconfirmed _ _). apply IH; [lia|done].
Qed.

Lemma update_ledger_mono fuel fuel' s r :
  fuel ≤ fuel' → update_ledger fuel s = Done r → update_ledger fuel' s = Done r.
Proof.
  intros Hle. unfold update_ledger. intros Hr. apply bind_done in Hr as ([s1 ran] & Hu & Hr).
  erewrite update_votes_mono by done. cbn [mbind outcome_bind].
  apply bind_done in Hr as ([s2 cb] & Hl & Hr). rewrite Hl. cbn [mbind outcome_bind].
  destruct cb as [b|]; [|done]. unfold update_order in *.
  apply bind_done in Hr as (st & Hd & Hr). rewrite Hd. cbn [mbind outcome_bind].
  apply bind_done in Hr as ([st' t] & Hc & Hr).
  assert ((if (b <=? u64 (proposer_ledger_tip s2 + 1))%Z
     then confirm_levels fuel' (db s2) st b else Done (st, proposer_ledger_tip s2)) =
    Done (st', t)) as ->; [|done].
  case_if; [|done]. by eapply confirm_levels_mono.
Qed.

(** *** The rates of the Poisson distribution *)

(** When the ledger was updated, the distribution accepted the rates. *)
Lemma update_ledger_accepted fuel s r : update_ledger fuel s = Done r → ledger_accepted s.
Proof.
  unfold update_ledger. intros Hu. apply bind_done in Hu as ([s1 ran] & Hv & Hu).
  apply bind_done in Hu as ([s2 cb] & Hl & _). intros fuel' s1' r' Hv'.
  apply (update_votes_mono _ (fuel `max` fuel')) in Hv, Hv'; [|lia..]. rewrite Hv in Hv'.
  injection Hv' as <- <-. by eapply update_leaders_accepted.
Qed.

(** The distribution accepts the rates: they are positive, for an adversary with a share of the
    mining power and less than [2 ^ 64] voter blocks. *)
Lemma ledger_accepted_ok `{!PoissonLaws} s :
  full_inv s → ratio_ok (config s) → (Z.of_nat (size (vlev (db s))) < 2 ^ 64)%Z →
  ledger_accepted s.
Proof.
  intros [Hci Hvi Htl Hli] Hratio Hsize fuel s1 r Hv l _.
  destruct (update_votes_ok s Hci Hvi Htl) as (n & r' & mv & Huv & Hvi1 & _).
  apply (update_votes_mono _ (fuel `max` n)) in Hv; [|lia]. rewrite Huv in Hv by lia.
  injection Hv as <- <-. eapply rate_accepted_ok; [|exact Hvi1|done|done].
  by apply chain_inv_set_votes.
Qed.
End Fuel.

(** ** The transition system *)

Section Steps.
Context `{Keccak, BincodeHeader, Rlp, PublicKeyCrypto, PoissonDist}.

Inductive step : BlockChain → BlockChain → Prop :=
| step_insert s b s' : accepted s b → insert_block s b = Done s' → step s s'
| step_ledger fuel s s' out : update_ledger fuel s = Done (s', out) → step s s'.

(** The states reachable in a configuration. *)
Definition reachable (c : BlockchainConfig) (s : BlockChain) : Prop :=
  ∃ s0, BlockChain_new c = Done s0 ∧ rtc step s0 s.

Lemma update_ledger_full_inv fuel s s' out :
  full_inv s → update_ledger fuel s = Done (s', out) →
  full_inv s' ∧ config s' = config s.
Proof.
  intros Hinv Hu. pose proof (update_ledger_accepted _ _ _ Hu) as Hacc.
  destruct (update_ledger_ok s Hinv Hacc) as (n & s1 & out1 & Hall & Hi1 & Hc1 & _).
  apply (update_ledger_mono _ (fuel `max` n)) in Hu; [|lia].
  rewrite Hall in Hu by lia. by injection Hu as <- <-.
Qed.

Lemma step_inv s s' :
  full_inv s → step s s' → full_inv s' ∧ config s' = config s.
Proof.
  intros Hinv Hstep. destruct Hstep as [s1 b s2 Ha Hi|fuel s1 s2 out Hu];
    [|exact (update_ledger_full_inv _ _ _ _ Hinv Hu)].
  destruct (insert_block_full_inv s1 b Hinv Ha) as (s3 & Hi3 & Hinv3 & Hex).
  assert (s3 = s2) as -> by congruence. split; [done|apply Hex].
Qed.

Lemma reachable_inv c s :
  config_wf c → reachable c s → full_inv s ∧ config s = c.
Proof.
  intros Hc (s0 & Hs0 & Hr).
  destruct (BlockChain_new_full_inv c Hc) as (s0' & Hs0' & Hi0 & Hc0).
  assert (s0' = s0) as -> by congruence. clear Hs0 Hs0'. subst c.
  induction Hr as [s|s s1 s2 Hstep _ IH]; [done|].
  destruct (step_inv _ _ Hi0 Hstep) as [Hi1 Hc1]. rewrite <- Hc1 in *. by apply IH.
Qed.

(** *** Executions

    An execution as a list of events, run by the functions themselves: a block is inserted
    when it passes the checks, and the ledger is updated with some fuel. *)
Inductive event := EInsert (b : Block) | EUpdate (fuel : nat).

Definition acceptedb (s : BlockChain) (b : Block) : bool :=
  negb (bool_decide (hash b = proposer_genesis (config s))) &&
  bool_decide (parents (db s) !! hash b = None) &&
  match check_data_availability b s with Pass => true | _ => false end &&
  match check_content_semantic b s with Done Pass => true | _ => false end &&
  (proposer_best_level s + 2 <? 2 ^ 64)%Z &&
  forallb (λ best : H256 * Z, best.2 + 1 <? 2 ^ 64)%Z (voter_best s).

Definition run_event (s : BlockChain) (e : event) : Outcome BlockChain :=
  match e with
  | EInsert b => if acceptedb s b then insert_block s b else Panic
  | EUpdate fuel => fst <$> update_ledger fuel s
  end.

Definition run (c : BlockchainConfig) (es : list event) : Outcome BlockChain :=
  s0 ← BlockChain_new c; foldM run_event s0 es.

Lemma acceptedb_ok s b : acceptedb s b = true → accepted s b.
Proof.
  unfold acceptedb. rewrite !andb_true_iff, negb_true_iff, bool_decide_eq_false,
    bool_decide_eq_true, Z.ltb_lt, forallb_forall.
  intros [[[[[Hg Hp] Ha] Hs] Hr] Hv]. split; [| | |done|].
  - intros [?|[? ?]]; congruence.
  - by destruct (check_data_availability b s).
  - left. by destruct (check_content_semantic b s) as [[]|].
  - apply Forall_forall. intros x Hx%list_elem_of_In. by apply Z.ltb_lt, Hv.
Qed.

Lemma run_reachable c es s : run c es = Done s → reachable c s.
Proof.
  unfold run. intros Hr. apply bind_done in Hr as (s0 & Hs0 & Hr). exists s0. split; [done|].
  clear Hs0. revert s0 Hr. induction es as [|e es IH]; intros s0; cbn [foldM].
  { intros [= ->]. apply rtc_refl. }
  intros Hr. apply bind_done in Hr as (s1 & He & Hr). eapply rtc_l; [|by apply IH].
  destruct e as [b|fuel]; cbn [run_event] in He.
  - destruct (acceptedb s0 b) eqn:Ea; [|done]. eapply step_insert; [by apply acceptedb_ok|done].
  - apply fmap_done in He as ([s2 out] & Hu & ->). by eapply step_ledger.
Qed.
End Steps.

(** * Blocks that no block refers to yet

    [unreferred_proposers] and [unreferred_transactions], what a miner puts into its next
    proposer block, are exact in every reachable state: the proposer blocks that no stored
    proposer block has as its parent or reference, and the transaction blocks that no
    stored proposer block refers to. *)

(** ** What the ledger update leaves alone *)

Record same_store (d d' : Database) : Prop := {
  ss_plev : plev d' = plev d;
  ss_vlev : vlev d' = vlev d;
  ss_vchain : vchain d' = vchain d;
  ss_vvoted : vvoted d' = vvoted d;
  ss_ptree : ptree d' = ptree d;
  ss_parents : parents d' = parents d;
  ss_prefs : prefs d' = prefs d;
  ss_trefs : trefs d' = trefs d;
}.

Lemma same_store_refl d : same_store d d.
Proof. by split. Qed.
Lemma same_store_trans d1 d2 d3 : same_store d1 d2 → same_store d2 d3 → same_store d1 d3.
Proof. intros [] []. split; congruence. Qed.

(** A write that touches only votes, leaders and the order. *)
Definition ledger_op (op : WriteOp) : Prop := ∀ d d', op d = Done d' → same_store d d'.

Lemma write_ledger_ops d wb d' : Forall ledger_op wb → write d wb = Done d' → same_store d d'.
Proof.
  intros Hall. revert d. induction Hall as [|op wb Hop _ IH]; intros d Hw.
  - injection Hw as <-. apply same_store_refl.
  - rewrite write_cons in Hw. apply bind_done in Hw as (d1 & H1 & H2).
    eapply same_store_trans; [by apply Hop|by apply IH].
Qed.

Lemma vote_op_ledger x v : ledger_op (merge_cf proposer_node_vote_cf x v).
Proof. intros d d' Hm. apply bind_done in Hm as (y & _ & [= <-]). by split. Qed.
Lemma leader_op_ledger l o :
  ledger_op (match o with
    | None => delete_cf proposer_leader_sequence_cf l
    | Some h => put_cf proposer_leader_sequence_cf l h end).
Proof. destruct o; intros d d' [= <-]; by split. Qed.

Record same_blocks (s s' : BlockChain) : Prop := {
  sb_store : same_store (db s) (db s');
  sb_best : proposer_best_level s' = proposer_best_level s;
  sb_voter_best : voter_best s' = voter_best s;
  sb_transactions : unreferred_transactions s' = unreferred_transactions s;
  sb_proposers : unreferred_proposers s' = unreferred_proposers s;
  sb_config : config s' = config s;
}.

Lemma same_blocks_refl s : same_blocks s s.
Proof. split; [apply same_store_refl|done..]. Qed.
Lemma same_blocks_trans s1 s2 s3 : same_blocks s1 s2 → same_blocks s2 s3 → same_blocks s1 s3.
Proof. intros [H1 ? ? ? ? ?] [H2 ? ? ? ? ?]. split; [by eapply same_store_trans|congruence..]. Qed.

Lemma apply_votes_ledger d ch add vs wb r wb' r' :
  Forall ledger_op wb → foldM (apply_vote d ch add) (wb, r) vs = Done (wb', r') →
  Forall ledger_op wb'.
Proof.
  intros Hwb. apply (foldM_inv _ (λ _ st, Forall ledger_op st.1)); [done|].
  intros _ v [w q] [w' q'] Hw _ Hv. cbn [fst] in *. unfold apply_vote in Hv.
  apply bind_done in Hv as (l & _ & [= <- <-]). apply Forall_app. split; [done|].
  constructor; [apply vote_op_ledger|constructor].
Qed.

Lemma update_votes_same fuel s s' r : update_votes fuel s = Done (s', r) → same_blocks s s'.
Proof.
  unfold update_votes. intros Hu. apply bind_done in Hu as ([[tips wb] r1] & Hf & Hu).
  apply bind_done in Hu as (d & Hw & [= <- <-]).
  assert (Forall ledger_op wb) as Hall.
  { apply (foldM_inv _ (λ _ st, Forall ledger_op st.1.2)) in Hf; [done|constructor|].
    intros _ i [[t1 w1] q1] [[t2 w2] q2] Hw1 _ Hs. cbn [fst snd] in *. unfold update_chain_votes in Hs.
    apply bind_done in Hs as (from & _ & Hs). apply bind_done in Hs as (vb & _ & Hs).
    apply bind_done in Hs as ([added removed] & _ & Hs).
    apply bind_done in Hs as ([w3 q3] & H3 & Hs). apply bind_done in Hs as ([w4 q4] & H4 & [= <- <- <-]).
    eapply apply_votes_ledger; [|exact H4]. by eapply apply_votes_ledger; [|exact H3]. }
  split; cbn; try done. by eapply write_ledger_ops.
Qed.

Section Ledger.
Context `{PoissonDist}.

Lemma update_leaders_same s r s' cb : update_leaders s r = Done (s', cb) → same_blocks s s'.
Proof.
  unfold update_leaders. destruct (widen_to_tip s r) as [start stop]. intros Hu.
  apply bind_done in Hu as ([cb1 wb] & Hf & Hu). apply bind_done in Hu as (d & Hw & [= <- <-]).
  assert (Forall ledger_op wb) as Hall.
  { apply (foldM_inv _ (λ _ st, Forall ledger_op st.2)) in Hf; [done|constructor|].
    intros _ l [c1 w1] [c2 w2] Hw1 _ Hs. cbn [snd] in *. unfold update_leader in Hs.
    apply bind_done in Hs as (n1 & _ & Hs). apply bind_done in Hs as (n2 & _ & Hs).
    case_decide; injection Hs as <- <-; [done|]. apply Forall_app. split; [done|].
    constructor; [apply leader_op_ledger|constructor]. }
  split; cbn; try done. by eapply write_ledger_ops.
Qed.

Lemma confirm_levels_ledger fuel d st l st' t :
  Forall ledger_op (ord_wb st) → confirm_levels fuel d st l = Done (st', t) →
  Forall ledger_op (ord_wb st').
Proof.
  revert st l. induction fuel as [|fuel IH]; intros st l Hw; [done|]. cbn [confirm_levels].
  destruct (get_cf _ d l); [|by intros [= <- <-]]. intros Hc. apply bind_done in Hc as (o & _ & Hc).
  destruct (take_unconfirmed _ _) as [u o']. eapply IH; [|exact Hc]. cbn [ord_wb].
  apply Forall_app. split; [done|]. constructor; [|constructor]. intros d1 d2 [= <-]. by split.
Qed.

Lemma update_order_same fuel s cb s' out : update_order fuel s cb = Done (s', out) → same_blocks s s'.
Proof.
  unfold update_order. intros Hu. apply bind_done in Hu as (st & Hf & Hu).
  apply bind_done in Hu as ([st' t] & Hc & Hu). apply bind_done in Hu as (d & Hw & Hu).
  apply bind_done in Hu as (r & _ & Hu). apply bind_done in Hu as (a & _ & [= <- <-]).
  assert (Forall ledger_op (ord_wb st)) as Hall.
  { apply (foldM_inv _ (λ _ st, Forall ledger_op (ord_wb st))) in Hf; [done|constructor|].
    intros _ l s1 s2 Hw1 _ Hs. unfold deconfirm_level in Hs. apply bind_done in Hs as (o & _ & [= <-]).
    cbn [ord_wb]. apply Forall_app. split; [done|]. constructor; [|constructor].
    intros d1 d2 [= <-]. by split. }
  split; cbn; try done. eapply write_ledger_ops; [|exact Hw]. case_if.
  - by eapply confirm_levels_ledger.
  - by injection Hc as <- <-.
Qed.

Lemma update_ledger_same fuel s s' out : update_ledger fuel s = Done (s', out) → same_blocks s s'.
Proof.
  unfold update_ledger. intros Hu. apply bind_done in Hu as ([s1 r] & H1 & Hu).
  apply bind_done in Hu as ([s2 cb] & H2 & Hu).
  apply update_votes_same in H1. apply update_leaders_same in H2.
  destruct cb as [cb|]; [apply update_order_same in Hu|injection Hu as <- <-];
    eauto using same_blocks_trans.
Qed.
End Ledger.

(** ** The invariant *)

(** A stored transaction block. *)
Definition transaction_block (d : Database) (h : H256) : Prop :=
  is_Some (parents d !! h) ∧ plev d !! h = None ∧ vlev d !! h = None.

(** No list of the map holds [h]. *)
Definition unreferred_in (m : gmap H256 (list H256)) (h : H256) : Prop :=
  ∀ x refs, m !! x = Some refs → h ∉ refs.

Record unref_inv (s : BlockChain) : Prop := {
  ur_proposers h : is_Some (unreferred_proposers s !! h) ↔
    is_Some (plev (db s) !! h) ∧ unreferred_in (prefs (db s)) h;
  ur_transactions h : is_Some (unreferred_transactions s !! h) ↔
    transaction_block (db s) h ∧ unreferred_in (trefs (db s)) h;
  ur_dom x : is_Some (prefs (db s) !! x) ∨ is_Some (trefs (db s) !! x) → is_Some (plev (db s) !! x);
  ur_prefs x refs r : prefs (db s) !! x = Some refs → r ∈ refs → is_Some (plev (db s) !! r);
  ur_trefs x refs r : trefs (db s) !! x = Some refs → r ∈ refs → is_Some (parents (db s) !! r);
}.

Lemma unref_inv_same s s' : same_blocks s s' → unref_inv s → unref_inv s'.
Proof.
  intros [[E1 E2 _ _ _ E3 E4 E5] _ _ E6 E7 _] [Hp Ht Hd Hpr Htr].
  split; unfold transaction_block; rewrite ?E1, ?E2, ?E3, ?E4, ?E5, ?E6, ?E7; done.
Qed.

Lemma unreferred_in_insert m b refs h :
  m !! b = None → unreferred_in (<[b := refs]> m) h ↔ (h ∉ refs) ∧ unreferred_in m h.
Proof.
  intros Hb. unfold unreferred_in. setoid_rewrite lookup_insert_Some. split.
  - intros Hu. split; [by apply (Hu b refs); left|]. intros x l Hx. apply (Hu x). right.
    split; [congruence|done].
  - intros [Hn Hu] x l [[_ <-]|[_ Hx]]; [done|by apply (Hu x)].
Qed.

(** Deleting a list of keys. *)
Lemma lookup_delete_all {A} (l : list H256) (m : gmap H256 A) h :
  is_Some ((foldl (λ m r, delete r m) m l) !! h) ↔ (h ∉ l) ∧ is_Some (m !! h).
Proof.
  revert m. induction l as [|x l IH]; intros m; cbn [foldl]; [set_solver|].
  rewrite IH, not_elem_of_cons. unfold is_Some. setoid_rewrite lookup_delete_Some. naive_solver.
Qed.

Lemma insert_is_Some (m : gmap H256 Z) b x h :
  is_Some ((<[b := x]> m) !! h) ↔ h = b ∨ is_Some (m !! h).
Proof. rewrite lookup_insert_is_Some'. naive_solver. Qed.

Lemma delete_is_Some (m : gmap H256 Z) k h :
  is_Some (delete k m !! h) ↔ h ≠ k ∧ is_Some (m !! h).
Proof. unfold is_Some. setoid_rewrite lookup_delete_Some. naive_solver. Qed.

Section Insert.
Context `{Keccak, BincodeHeader, Rlp, PublicKeyCrypto}.
Context (s : BlockChain) (b : Block).
Hypothesis Hci : chain_inv s.
Hypothesis Hacc : accepted s b.
Hypothesis Hur : unref_inv s.

Lemma fresh_parents : parents (db s) !! hash b = None.
Proof.
  destruct (parents (db s) !! hash b) eqn:E; [|done]. destruct (acc_fresh _ _ Hacc). right. eauto.
Qed.

Lemma fresh_unreferred : unreferred_in (prefs (db s)) (hash b) ∧ unreferred_in (trefs (db s)) (hash b).
Proof.
  split; intros x refs Hx Hin.
  - destruct (ur_prefs s Hur _ _ _ Hx Hin) as [l Hl].
    by rewrite (fresh_proposer s b Hci (acc_fresh _ _ Hacc)) in Hl.
  - destruct (ur_trefs s Hur _ _ _ Hx Hin) as [l Hl]. by rewrite fresh_parents in Hl.
Qed.

Lemma availability_transactions ct :
  content b = CProposer ct → ∀ r, r ∈ transaction_refs ct → is_Some (parents (db s) !! r).
Proof.
  intros Hct r Hr. pose proof (acc_available _ _ Hacc) as Ha.
  unfold check_data_availability in Ha. rewrite Hct in Ha.
  destruct ((if check_proposer_block_exists _ s then [] else _) ++
    proposer_missing_references ct s) as [|? ?] eqn:E; [|done].
  apply app_eq_nil in E as [_ E]. apply app_eq_nil in E as [E _].
  apply (filter_nil_Forall (λ h, check_transaction_block_exists h s)) with (h := r) in E; [|done].
  unfold check_transaction_block_exists, contains_transaction, get_cf in E. cbn in E.
  destruct (parents (db s) !! r); [eauto|done].
Qed.

Lemma fresh_refs : prefs (db s) !! hash b = None ∧ trefs (db s) !! hash b = None.
Proof.
  pose proof (fresh_proposer s b Hci (acc_fresh _ _ Hacc)) as Hn.
  split; apply eq_None_not_Some; intros Hs.
  - destruct (ur_dom s Hur (hash b)) as [? ?]; [by left|congruence].
  - destruct (ur_dom s Hur (hash b)) as [? ?]; [by right|congruence].
Qed.

Lemma transaction_block_insert d' h :
  plev d' = plev (db s) → vlev d' = vlev (db s) →
  parents d' = <[hash b := parent (header b)]> (parents (db s)) →
  transaction_block d' h ↔ h = hash b ∨ transaction_block (db s) h.
Proof.
  intros E1 E2 E3. unfold transaction_block. rewrite E1, E2, E3, lookup_insert_is_Some'.
  pose proof (fresh_proposer s b Hci (acc_fresh _ _ Hacc)) as Hnp.
  pose proof (fresh_voter s b Hci (acc_fresh _ _ Hacc)) as Hnv.
  split; [naive_solver|]. intros [->|(? & ? & ?)]; auto.
Qed.

Lemma transaction_block_other d' h :
  is_Some (plev d' !! hash b) ∨ is_Some (vlev d' !! hash b) →
  (∀ x, x ≠ hash b → plev d' !! x = plev (db s) !! x ∧ vlev d' !! x = vlev (db s) !! x) →
  parents d' = <[hash b := parent (header b)]> (parents (db s)) →
  transaction_block d' h ↔ transaction_block (db s) h.
Proof.
  intros Hs He E3. unfold transaction_block. rewrite E3.
  destruct (decide (h = hash b)) as [->|Hh].
  - rewrite fresh_parents. split; intros (Hx & Hp & Hv).
    + rewrite Hp, Hv in Hs. by destruct Hs as [[? ?]|[? ?]].
    + by destruct Hx.
  - rewrite lookup_insert_ne by done. by destruct (He h Hh) as [-> ->].
Qed.

Lemma insert_transaction_unref ct s' :
  content b = CTransaction ct → insert_block s b = Done s' → unref_inv s'.
Proof.
  intros Hct Hi. unfold insert_block in Hi. rewrite Hct in Hi. injection Hi as <-.
  destruct fresh_unreferred as [_ Hft]. destruct Hur as [Hp Ht Hd Hpr Htr].
  split; cbn [db set_db set_unreferred_transactions unreferred_proposers unreferred_transactions].
  - done.
  - intros h. etrans; [|symmetry; apply and_iff_compat_r, transaction_block_insert; done].
    rewrite insert_is_Some, Ht. split; [|naive_solver]. intros [->|?]; naive_solver.
  - done.
  - done.
  - intros x refs r Hx Hin. cbn. rewrite lookup_insert_is_Some'. right. by eapply Htr.
Qed.

Lemma insert_proposer_unref ct l s' :
  content b = CProposer ct → plev (db s) !! parent (header b) = Some l →
  (0 ≤ l)%Z → (l + 1 < 2 ^ 64)%Z →
  (∀ r, r ∈ proposer_refs ct → is_Some (plev (db s) !! r)) →
  insert_block s b = Done s' → unref_inv s'.
Proof.
  intros Hct Hl H0l Hll Hrefs Hi. rewrite (insert_proposer_eq s b ct l) in Hi by done.
  injection Hi as <-. destruct fresh_unreferred as [Hfp Hft]. destruct fresh_refs as [Hnp Hnt].
  pose proof (fresh_proposer s b Hci (acc_fresh _ _ Hacc)) as Hnb.
  pose proof (availability_transactions ct Hct) as Htx.
  assert (hash b ∉ parent (header b) :: proposer_refs ct) as Hnot.
  { rewrite not_elem_of_cons. split; [congruence|]. intros [? ?]%Hrefs. congruence. }
  destruct Hur as [Hp Ht Hd Hpr Htr].
  split; cbn [db unreferred_proposers unreferred_transactions]; unfold proposer_db; db_simpl.
  - intros h. rewrite unreferred_in_insert, not_elem_of_cons by done.
    rewrite delete_is_Some, lookup_delete_all, insert_is_Some, Hp, lookup_insert_is_Some'.
    split; [|naive_solver]. intros (Hne & Hnr & [->|?]); naive_solver.
  - intros h. etrans; [|symmetry; apply and_iff_compat_r, transaction_block_other].
    + rewrite lookup_delete_all, Ht, unreferred_in_insert by done. tauto.
    + left. db_simpl. rewrite lookup_insert_eq. eauto.
    + intros x Hx. db_simpl. by rewrite lookup_insert_ne.
    + done.
  - intros x. rewrite !lookup_insert_is_Some'. specialize (Hd x). tauto.
  - intros x refs r Hx Hr. rewrite lookup_insert_is_Some'. right.
    apply lookup_insert_Some in Hx as [[_ <-]|[_ Hx]]; [|by eapply Hpr].
    apply elem_of_cons in Hr as [->|Hr]; eauto.
  - intros x refs r Hx Hr. rewrite lookup_insert_is_Some'. right.
    apply lookup_insert_Some in Hx as [[_ <-]|[_ Hx]]; [by apply Htx|by eapply Htr].
Qed.

Lemma insert_voter_unref ct l ch v bh bl s' :
  content b = CVoter ct → vlev (db s) !! voter_parent ct = Some l →
  vchain (db s) !! voter_parent ct = Some ch →
  plev (db s) !! parent (header b) = Some v →
  voter_best s !! Z.to_nat ch = Some (bh, bl) →
  (0 ≤ l)%Z → (l + 1 < 2 ^ 64)%Z →
  insert_block s b = Done s' → unref_inv s'.
Proof.
  intros Hct Hl Hch Hv Hb H0l Hll Hi.
  destruct (insert_voter_eq s b ct l ch v bh bl) as [counts Heq]; [done..|].
  rewrite Heq in Hi. injection Hi as <-. destruct Hur as [Hp Ht Hd Hpr Htr].
  split; cbn [db unreferred_proposers unreferred_transactions]; unfold voter_db; db_simpl; try done.
  - intros h. etrans; [apply Ht|]. apply and_iff_compat_r. symmetry. apply transaction_block_other.
    + right. db_simpl. rewrite lookup_insert_eq. eauto.
    + intros x Hx. db_simpl. by rewrite lookup_insert_ne.
    + done.
  - intros x refs r Hx Hr. rewrite lookup_insert_is_Some'. right. by eapply Htr.
Qed.

Lemma insert_block_unref s' : insert_block s b = Done s' → unref_inv s'.
Proof.
  intros Hi. pose proof Hci as [_ Hp Hv].
  pose proof (acc_room _ _ Hacc) as Hroom. pose proof (acc_voter_room _ _ Hacc) as Hvroom.
  destruct (availability_pass _ _ (acc_available _ _ Hacc)) as [[l Hl] Hav].
  pose proof (pi_range _ _ _ Hp _ _ Hl) as Hlr.
  destruct (content b) as [ct|ct|ct] eqn:Hct.
  - by eapply insert_transaction_unref.
  - eapply insert_proposer_unref; [done..|lia|lia|done|done].
  - destruct Hav as [[k Hk] _].
    destruct (vi_block _ _ _ Hv _ _ Hk) as (ch & _ & _ & Hch & _).
    destruct (vi_chain _ _ _ Hv _ _ _ Hk Hch) as (_ & bh & bl & Hb & Hkr).
    rewrite Forall_lookup in Hvroom. pose proof (Hvroom _ _ Hb) as Hbl. cbn in Hbl.
    eapply insert_voter_unref; [done..|lia|lia|done].
Qed.
End Insert.

(** ** Reachable states *)

Section Reachable.
Context `{Keccak, BincodeHeader, Rlp, PublicKeyCrypto, PoissonDist}.

Lemma BlockChain_new_unref c s :
  config_wf c → BlockChain_new c = Done s → unref_inv s.
Proof.
  intros Hc Hs. destruct (BlockChain_new_ok c Hc) as (s0 & Hs0 & Hci & Hg & _).
  assert (s0 = s) as -> by congruence.
  assert (unreferred_proposers s = {[proposer_genesis c := 0%Z]} ∧
    unreferred_transactions s = ∅) as [Eup Eut].
  { unfold BlockChain_new in Hs. apply bind_done in Hs as ([[wb best] tips] & _ & Hs).
    apply bind_done in Hs as (d & _ & [= <-]). done. }
  pose proof Hg as [Eplev _ Eprefs Etrefs _ _ Hgv _ _ Hpar _ _].
  split; rewrite ?Eup, ?Eut, ?Eplev, ?Eprefs, ?Etrefs.
  - intros h. rewrite !lookup_singleton_is_Some. split; [|tauto]. intros ->. split; [done|].
    intros x refs [_ <-]%lookup_singleton_Some. set_solver.
  - intros h. rewrite lookup_empty. split; [by intros [? ?]|].
    intros [(Hs1 & _ & Hs2) _]. destruct (Hpar h Hs1) as (i & Hi & Hh).
    destruct (Hgv i h Hi Hh) as (Hx & _). congruence.
  - intros x. rewrite !lookup_singleton_is_Some. tauto.
  - intros x refs r [_ <-]%lookup_singleton_Some. set_solver.
  - intros x refs r [_ <-]%lookup_singleton_Some. set_solver.
Qed.

Lemma reachable_unref c s :
  config_wf c → reachable c s → unref_inv s.
Proof.
  intros Hc (s0 & Hs0 & Hr).
  destruct (BlockChain_new_full_inv c Hc) as (s0' & Hs0' & Hi0 & Hc0).
  assert (s0' = s0) as -> by congruence.
  pose proof (BlockChain_new_unref c s0 Hc Hs0) as Hu0. clear Hs0 Hs0'. subst c.
  induction Hr as [s|s s1 s2 Hstep _ IH]; [done|].
  destruct (step_inv _ _ Hi0 Hstep) as [Hi1 Hc1]. rewrite <- Hc1 in *. apply IH; try done.
  destruct Hstep as [s b s1 Hacc Hins|fuel s s1 out Hup].
  - by eapply (insert_block_unref s b); [apply Hi0|..].
  - by eapply unref_inv_same; [by eapply update_ledger_same|].
Qed.
End Reachable.
