(* ===== verification/ChainExample.v ===== *)
(** * A concrete execution of the blockchain

    A stand-in for the Poisson distribution, a configuration
    with three voter chains, and an execution that inserts three proposer blocks and six
    voter blocks and updates the ledger twice.  The theorems on reachable states are
    evaluated on it. *)

From S2P Require Import Prelude Hash Float Config Transaction Block Store Chain Validation Leader.
From S2P Require Import Ledger ChainInv VoteInv LeaderProofs LedgerInv Reachable.

(** A distribution that puts all its mass on zero, and accepts the rates that are positive. *)
Definition example_poisson : PoissonDist := {|
  poisson := unit;
  poisson_new rate := if f64_lt (f64_of_f32 (f32_of_Z 0)) rate then Some tt else None;
  poisson_cdf _ _ := f64_of_f32 (f32_of_Z 1);
  poisson_pmf _ _ := f64_of_f32 (f32_of_Z 0);
|}.

Definition example_poisson_laws : @PoissonLaws example_poisson.
Proof. split; intros rate E; cbn in *; by rewrite E. Defined.

#[local] Existing Instances example_keccak example_rlp example_crypto example_bincode
  example_poisson.

(** Any configuration [BlockchainConfig::new] builds for at most 65533 voter chains has
    distinct genesis blocks. *)
Lemma new_config_wf `{F32Ln} chains tx_size tx_throughput pr vr adv eps :
  (0 ≤ chains ≤ 65533)%Z →
  config_wf (BlockchainConfig_new chains tx_size tx_throughput pr vr adv eps).
Proof.
  intros Hc. split; cbn [voter_chains voter_genesis proposer_genesis BlockchainConfig_new];
    [lia|apply length_genesis_hashes; lia|by apply genesis_hashes_NoDup].
Qed.

Definition example_chain_config : BlockchainConfig :=
  BlockchainConfig_new (H := λ _, f32_of_Z 0) 3 64000 1000
    (f32_lit 1 10) (f32_lit 1 10) (f32_lit 2 5) (f32_of_Z 1).

Lemma example_chain_config_wf : config_wf example_chain_config.
Proof. apply new_config_wf. lia. Qed.

Lemma example_ratio_ok : ratio_ok example_chain_config.
Proof. by vm_compute. Qed.

(** Two proposer blocks on the genesis, a third that refers to both, and two voter blocks
    on each of the three voter chains. *)
Definition example_block (parent : H256) (nonce : Z) (c : Content) : Block :=
  Block_new parent 0 nonce (hash c) [] c [] DEFAULT_DIFFICULTY.

Definition example_proposer : Block :=
  example_block (proposer_genesis example_chain_config) 1
    (CProposer (mkProposerContent [] [])).
Definition example_uncle : Block :=
  example_block (proposer_genesis example_chain_config) 2
    (CProposer (mkProposerContent [] [])).
Definition example_child : Block :=
  example_block (hash example_proposer) 3
    (CProposer (mkProposerContent [] [hash example_uncle])).
Definition example_voter (i : Z) : Block :=
  example_block (hash example_proposer) (10 + i)
    (CVoter (mkVoterContent i (genesis_hash (i + 2)) [hash example_proposer])).
Definition example_voter_child (i : Z) : Block :=
  example_block (hash example_child) (20 + i)
    (CVoter (mkVoterContent i (hash (example_voter i)) [hash example_child])).

Definition example_events_1 : list event :=
  (EInsert <$> [example_proposer; example_uncle; example_child;
    example_voter 0; example_voter 1; example_voter 2]) ++
  [EUpdate 100] ++ (EInsert <$> [example_voter_child 0; example_voter_child 1]).
Definition example_events : list event :=
  example_events_1 ++ [EInsert (example_voter_child 2); EUpdate 100].

Definition run_state (c : BlockchainConfig) (es : list event) : BlockChain :=
  match run c es with Done s => s | Panic => open c end.

(** The state before the last voter block, and the state at the end. *)
Definition example_state_1 : BlockChain := run_state example_chain_config example_events_1.
Definition example_state : BlockChain := run_state example_chain_config example_events.

Lemma run_state_reachable c es :
  match run c es with Done _ => True | Panic => False end → reachable c (run_state c es).
Proof.
  unfold run_state. destruct (run c es) as [s|] eqn:Hr; [|done]. intros _.
  by apply (run_reachable c es).
Qed.

Lemma example_state_1_reachable : reachable example_chain_config example_state_1.
Proof. apply run_state_reachable. vm_compute. exact I. Qed.
Lemma example_state_reachable : reachable example_chain_config example_state.
Proof. apply run_state_reachable. vm_compute. exact I. Qed.

(** The ledger at the end. *)
Lemma example_state_ledger :
  proposer_ledger_tip example_state = 2%Z ∧
  ledger (orders (db example_state)) 2 =
    [proposer_genesis example_chain_config; hash example_proposer; hash example_uncle;
     hash example_child].
Proof. vm_compute. split; reflexivity. Qed.
