(* ===== verification/ChainTheorems.v ===== *)
(** * Properties of the blockchain

    What the node can rely on in every reachable state: insertions and ledger updates do
    not panic, the ledger is a duplicate-free linear extension of the references, votes
    are counted once, and the queries of the miner return what validation accepts. *)

From S2P Require Import Prelude Hash Float Config Transaction Block Store Chain Validation Leader.
From S2P Require Import Ledger ChainInv VoteInv LeaderProofs LedgerInv Reachable ChainExample.

(** ** Choosing votes *)

Section BestVote.
Context (s : BlockChain).

Definition vote_count (h : H256) : Z :=
  default 0%Z (get_cf proposer_vote_count_cf (db s) h).

(** [h] has the most votes among [bs], and the lowest hash of those that have as many. *)
Definition most_voted (bs : list H256) (h : H256) : Prop :=
  h ∈ bs ∧ ∀ b, b ∈ bs → (vote_count b < vote_count h)%Z ∨
    (vote_count b = vote_count h ∧ H256_le h b).

Lemma best_vote_snoc bs b :
  best_vote s (bs ++ [b]) =
  match best_vote s bs with
  | Some (h, n) => if (n <? vote_count b)%Z then Some (b, vote_count b) else Some (h, n)
  | None => Some (b, vote_count b)
  end.
Proof.
  unfold best_vote at 1. rewrite foldl_app. fold (best_vote s bs).
  cbn. destruct (best_vote s bs) as [[h n]|]; done.
Qed.

Lemma best_vote_ok bs :
  Sorted H256_le bs → bs ≠ [] →
  ∃ h, best_vote s bs = Some (h, vote_count h) ∧ most_voted bs h.
Proof.
  intros Hs%Sorted_StronglySorted; [|apply H256_le_total_order].
  induction bs as [|b bs IH] using rev_ind; [done|]. intros _. rewrite best_vote_snoc.
  apply StronglySorted_app in Hs as (Hle & Hs & _).
  destruct (decide (bs = [])) as [->|Hne].
  { exists b. split; [done|]. split; [set_solver|]. intros x ->%list_elem_of_singleton.
    right. split; [done|]. apply H256_le_total_order. }
  destruct (IH Hs Hne) as (h & -> & Hin & Hmost).
  destruct (Z.ltb_spec (vote_count h) (vote_count b)) as [Hlt|Hge].
  - exists b. split; [done|]. split; [set_solver|].
    intros x [Hx| ->%list_elem_of_singleton]%elem_of_app.
    + left. destruct (Hmost x Hx) as [?|[? _]]; lia.
    + right. split; [done|]. apply H256_le_total_order.
  - exists h. split; [done|]. split; [set_solver|].
    intros x [Hx| ->%list_elem_of_singleton]%elem_of_app; [by apply Hmost|].
    destruct (decide (vote_count b = vote_count h)); [right|left; lia].
    split; [done|]. apply Hle; [done|left].
Qed.
End BestVote.

(** ** Lemmas on reachable states *)

Lemma H256_sort_perm l : H256_sort l ≡ₚ l.
Proof. apply merge_sort_Permutation. Qed.
Lemma H256_sort_sorted l : Sorted H256_le (H256_sort l).
Proof. apply Sorted_merge_sort. apply _. Qed.

Section Queries.
Context (s : BlockChain).
Hypothesis Hinv : full_inv s.

Lemma unvoted_proposer_ok tip p v v' :
  vvoted (db s) !! tip = Some v' → plev (db s) !! p = Some v → (0 ≤ v')%Z →
  ∃ vs, unvoted_proposer s tip p = Done vs ∧
    Forall2 (λ x l, plev (db s) !! x = Some l ∧
      ∃ bs, ptree (db s) !! l = Some bs ∧ most_voted s bs x) vs (range_incl (u64 (v' + 1)) v).
Proof.
  intros Hv' Hv H0. destruct Hinv as [[_ Hp _] _ _ _].
  pose proof (pi_range _ _ _ Hp _ _ Hv) as Hvr.
  unfold unvoted_proposer, get_cf.
  cbn [cf_get voter_node_voted_level_cf proposer_node_level_cf proposer_tree_level_cf].
  rewrite Hv', Hv. cbn [unwrap mbind outcome_bind].
  assert (0 ≤ u64 (v' + 1))%Z as Hlow by (apply wrap_bound; lia).
  assert (∀ l, l ∈ range_incl (u64 (v' + 1)) v → (0 ≤ l ≤ proposer_best_level s)%Z) as Hr.
  { intros l Hl%elem_of_range_incl. lia. }
  clear Hlow. induction (range_incl (u64 (v' + 1)) v) as [|l ls IH]; [by exists []|].
  destruct IH as (vs & Hvs & Hf); [intros; apply Hr; by right|].
  destruct (pi_levels _ _ _ Hp l) as [bs Hbs]; [apply Hr; left|].
  destruct (pi_tree _ _ _ Hp _ _ Hbs) as (Hne & _ & Hmem).
  destruct (best_vote_ok s (H256_sort bs)) as (h & Hbest & Hin & Hmost).
  { apply H256_sort_sorted. }
  { intros E. apply Hne, Permutation_nil. by rewrite <- E, H256_sort_perm. }
  exists (h :: vs). cbn [mapO]. rewrite Hbs. cbn [unwrap mbind outcome_bind]. rewrite Hbest.
  cbn [unwrap mbind outcome_bind fst]. rewrite Hvs. split; [done|].
  rewrite H256_sort_perm in Hin. constructor; [|done].
  split; [by apply Hmem|]. exists bs. split; [done|]. split; [done|].
  intros b Hb. apply Hmost. by rewrite H256_sort_perm.
Qed.

Lemma vote_levels_ok_Forall2 start vs :
  (0 ≤ start)%Z → (start + Z.of_nat (length vs) < 2 ^ 64)%Z →
  Forall2 (λ x lx, plev (db s) !! x = Some lx) vs
    (range_incl (start + 1) (start + Z.of_nat (length vs))) →
  vote_levels_ok s start vs = Done true.
Proof.
  revert start. induction vs as [|x vs IH]; intros start H0 Hb Hf; [done|].
  cbn [length] in *. rewrite range_incl_cons in Hf by lia.
  apply Forall2_cons in Hf as [Hx Hf]. cbn [vote_levels_ok].
  unfold proposer_level, get_cf. cbn [cf_get proposer_node_level_cf].
  rewrite Hx. cbn [unwrap mbind outcome_bind].
  rewrite u64_small by lia. rewrite Z.eqb_refl. apply IH; [lia..|].
  by replace (start + 1 + Z.of_nat (length vs))%Z
    with (start + Z.of_nat (S (length vs)))%Z by lia.
Qed.

(** The ledger as one list: what a block refers to comes before it. *)
Lemma ledger_topological pre b post :
  ledger (orders (db s)) (proposer_ledger_tip s) = pre ++ b :: post →
  ∀ r, refers (db s) b r → r ∈ pre.
Proof.
  intros HL r Hr. destruct Hinv as [_ _ _ [Htip Hll _ [Hnd _ _ Hlv _]]].
  assert (b ∈ ledger (orders (db s)) (proposer_ledger_tip s)) as Hb
    by (rewrite HL; set_solver).
  unfold ledger in Hb. apply list_elem_of_join in Hb as (o & Hbo & Ho).
  apply list_elem_of_fmap in Ho as (l & -> & Hl). apply elem_of_range_incl in Hl.
  destruct (Hlv l Hl) as (ld & o & [Hol _ _ _ Hbef]). rewrite Hol in Hbo. cbn in Hbo.
  apply list_elem_of_split in Hbo as (p1 & p2 & ->).
  pose proof (Hbef p1 b p2 eq_refl r Hr) as Hin.
  rewrite (ledger_split _ (l + 1)) in HL by lia.
  replace (l + 1 - 1)%Z with l in HL by lia.
  rewrite (ledger_snoc _ l _ ltac:(lia) Hol) in HL.
  rewrite <- !app_assoc in HL. cbn in HL. rewrite app_assoc in HL.
  rewrite (ledger_split _ (l + 1)) in Hnd by lia. replace (l + 1 - 1)%Z with l in Hnd by lia.
  rewrite (ledger_snoc _ l _ ltac:(lia) Hol), <- !app_assoc in Hnd. cbn in Hnd.
  rewrite app_assoc in Hnd.
  assert (pre = ledger (orders (db s)) (l - 1) ++ p1) as ->; [|done].
  eapply NoDup_app_cons_inj; [exact Hnd|done].
Qed.
End Queries.

(** *** The tips a miner builds on *)

Section Tips.
Context (s : BlockChain).
Hypothesis Hinv : chain_inv s.

Lemma best_proposer_ok :
  ∃ p, best_proposer s = Done p ∧ plev (db s) !! p = Some (proposer_best_level s).
Proof.
  destruct Hinv as [_ Hp _].
  pose proof (pi_best _ _ _ Hp).
  destruct (pi_levels _ _ _ Hp (proposer_best_level s)) as [bs Hbs]; [lia|].
  destruct (pi_tree _ _ _ Hp _ _ Hbs) as (Hne & _ & Hmem).
  destruct bs as [|p bs]; [done|]. exists p. unfold best_proposer, get_cf.
  cbn [cf_get proposer_tree_level_cf]. rewrite Hbs. split; [done|]. apply Hmem. left.
Qed.

Lemma best_voter_ok i :
  (0 ≤ i < voter_chains (config s))%Z →
  ∃ tip l, best_voter s i = Done tip ∧ vlev (db s) !! tip = Some l ∧
    vchain (db s) !! tip = Some i.
Proof.
  intros Hi. destruct Hinv as [_ _ Hv].
  destruct (lookup_lt_is_Some_2 (voter_best s) (Z.to_nat i)) as [[tip l] Htip].
  { rewrite (vi_len _ _ _ Hv). lia. }
  destruct (vi_best _ _ _ Hv _ _ _ Htip) as (Hl & Hch & _). exists tip, l.
  unfold best_voter. rewrite Htip. rewrite Z2Nat.id in Hch by lia. done.
Qed.

Lemma voted_level_bound n h v :
  vlev (db s) !! h = Some (Z.of_nat n) → vvoted (db s) !! h = Some v →
  (0 ≤ v ≤ proposer_best_level s)%Z.
Proof.
  destruct Hinv as [_ Hp Hv]. revert h v. induction n as [|n IH]; intros h v Hl Hvo;
    destruct (vi_block _ _ _ Hv _ _ Hl) as (ch & v1 & vs & _ & Hv1 & _ & Hok);
    rewrite Hvo in Hv1; injection Hv1 as <-;
    destruct Hok as [(? & _ & -> & _)|(Hpos & q & v' & _ & Hq & _ & Hq' & Hr & Hf)]; try lia.
  - pose proof (pi_best _ _ _ Hp). lia.
  - replace (Z.of_nat (S n) - 1)%Z with (Z.of_nat n) in Hq by lia.
    pose proof (IH q v' Hq Hq') as Hb. destruct (decide (v' = v)) as [->|]; [done|].
    apply Forall2_length in Hf as Hlen. rewrite length_range_incl in Hlen.
    destruct (lookup_lt_is_Some_2 (range_incl (v' + 1) v) (length vs - 1)) as [x Hx].
    { rewrite length_range_incl. lia. }
    destruct (Forall2_lookup_r _ _ _ _ _ Hf Hx) as (y & _ & Hy).
    apply lookup_seqZ in Hx as [-> _]. pose proof (pi_range _ _ _ Hp _ _ Hy). lia.
Qed.
End Tips.

(** A voter content that votes for every level above those its parent votes for. *)
Lemma voter_content_valid `{Keccak, Rlp, PublicKeyCrypto} s (b : Block) ct lp l v :
  full_inv s →
  content b = CVoter ct → plev (db s) !! parent (header b) = Some lp →
  vlev (db s) !! voter_parent ct = Some l →
  vchain (db s) !! voter_parent ct = Some (chain_number ct) →
  vvoted (db s) !! voter_parent ct = Some v → (0 ≤ v ≤ lp)%Z →
  Forall2 (λ x l, plev (db s) !! x = Some l) (votes ct) (range_incl (v + 1) lp) →
  check_data_availability b s = Pass ∧ check_content_semantic b s = Done Pass.
Proof.
  intros Hf Hct Hpl Hl Hch Hv Hvr Hlev.
  pose proof (pi_range _ _ _ (ci_proposer _ (fi_chain _ Hf)) _ _ Hpl) as Hlr.
  pose proof (pi_best _ _ _ (ci_proposer _ (fi_chain _ Hf))) as Hbl.
  assert (Z.of_nat (length (votes ct)) = lp - v)%Z as Hlen.
  { rewrite (Forall2_length _ _ _ Hlev), length_range_incl. lia. }
  split.
  - unfold check_data_availability, voter_missing_references. rewrite Hct.
    unfold check_proposer_block_exists, check_voter_block_exists.
    rewrite (proj2 (contains_proposer_true s (parent (header b)))) by eauto.
    rewrite (proj2 (contains_voter_true s (voter_parent ct))) by eauto.
    rewrite filter_none; [done|]. intros x Hx. apply list_elem_of_lookup in Hx as [j Hj].
    destruct (Forall2_lookup_l _ _ _ _ _ Hlev Hj) as (k & _ & Hk).
    by rewrite (proj2 (contains_proposer_true s x)) by eauto.
  - unfold check_content_semantic, check_chain_number, voter_chain_number, get_cf.
    rewrite Hct. cbn [cf_get voter_node_chain_cf].
    rewrite Hch. cbn [unwrap mbind outcome_bind]. rewrite Z.eqb_refl.
    unfold check_levels_voted, deepest_voted_level, proposer_level, get_cf.
    cbn [cf_get voter_node_voted_level_cf proposer_node_level_cf].
    rewrite Hv, Hpl. cbn [unwrap mbind outcome_bind].
    rewrite (proj2 (Z.ltb_ge _ _)), Hlen, Z.eqb_refl by lia.
    rewrite vote_levels_ok_Forall2; [done|lia|lia|].
    by replace (v + Z.of_nat (length (votes ct)))%Z with lp by lia.
Qed.

Lemma mined_votes_ok `{Keccak, Rlp, PublicKeyCrypto} s :
  full_inv s → ∀ i tip p l,
  vlev (db s) !! tip = Some l → vchain (db s) !! tip = Some i →
  plev (db s) !! p = Some (proposer_best_level s) →
  ∃ vs v, unvoted_proposer s tip p = Done vs ∧ vvoted (db s) !! tip = Some v ∧
    Forall2 (λ x l, ∃ bs, ptree (db s) !! l = Some bs ∧ most_voted s bs x) vs
      (range_incl (v + 1) (proposer_best_level s)) ∧
    ∀ b : Block, parent (header b) = p → content b = CVoter (mkVoterContent i tip vs) →
      check_data_availability b s = Pass ∧ check_content_semantic b s = Done Pass.
Proof.
  intros Hf i tip p l Hl Hch Hpl. pose proof (fi_chain _ Hf) as Hci. pose proof Hci as [_ Hp Hv].
  destruct (vi_block _ _ _ Hv _ _ Hl) as (_ & v' & _ & _ & Hv' & _ & _).
  destruct (vi_chain _ _ _ Hv _ _ _ Hl Hch) as (_ & bh & bl & _ & Hl0).
  pose proof (pi_best _ _ _ Hp) as Hb.
  assert (0 ≤ v' ≤ proposer_best_level s)%Z as Hvr.
  { apply (voted_level_bound s Hci (Z.to_nat l) tip); [rewrite Z2Nat.id by lia|]; done. }
  destruct (unvoted_proposer_ok s Hf tip p _ _ Hv' Hpl) as (vs & Hvs & Hall); [lia|].
  rewrite u64_small in Hall by lia. exists vs, v'. split_and!; [done..| |].
  { eapply Forall2_impl; [exact Hall|]. by intros x k [_ ?]. }
  intros b Hpar Hct. subst p. eapply (voter_content_valid s b); try done.
  eapply Forall2_impl; [exact Hall|]. by intros x k [? _].
Qed.

Lemma ledger_query_ok s :
  full_inv s → ∀ limit, (0 ≤ limit)%Z →
  ∃ r, proposer_transaction_in_ledger s limit = Done r ∧
    r.*1 = orders_at (orders (db s))
      (range_incl (Z.max 0 (proposer_ledger_tip s - limit)) (proposer_ledger_tip s)) ∧
    (∀ h txs, (h, txs) ∈ r → trefs (db s) !! h = Some txs) ∧
    ((proposer_ledger_tip s ≤ limit)%Z → mjoin r.*2 = ledger_transactions s).
Proof.
  intros [[_ Hp _] _ _ [Htip _ _ Ho]] limit Hlim. unfold proposer_transaction_in_ledger.
  replace (if (limit <? proposer_ledger_tip s)%Z then _ else _)
    with (Z.max 0 (proposer_ledger_tip s - limit)) by (case_if; lia).
  set (bot := Z.max 0 _). assert (0 ≤ bot)%Z as Hbot by lia.
  destruct (mapO_total (λ level, unwrap (get_cf proposer_ledger_order_cf (db s) level))
    (λ level o, orders (db s) !! level = Some o) (range_incl bot (proposer_ledger_tip s)))
    as (os & Hos & Hall).
  { intros l Hl%elem_of_range_incl. destruct (oi_level _ _ _ _ Ho l) as (? & o & [? _ _ _ _]); [lia|].
    exists o. by rewrite unwrap_done. }
  rewrite Hos. cbn [mbind outcome_bind].
  assert (mjoin os = orders_at (orders (db s)) (range_incl bot (proposer_ledger_tip s))) as Hjoin.
  { clear Hos. unfold orders_at. induction Hall as [|l o ls os Hl _ IH]; [done|].
    cbn. rewrite Hl. cbn. f_equal. exact IH. }
  destruct (mapO_total (λ hash, blocks ← unwrap (get_cf transaction_ref_neighbor_cf (db s) hash);
      Done (hash, blocks)) (λ h r, r.1 = h ∧ trefs (db s) !! h = Some r.2) (mjoin os))
    as (r & Hr & Hrall).
  { intros h Hh. rewrite Hjoin in Hh. apply (orders_at_known _ _ _ _ _ _ Ho) in Hh as [l Hl];
      [|intros ? ?%elem_of_range_incl; lia].
    destruct (pi_block _ _ _ Hp _ _ Hl) as (_ & txs & _ & Ht & _).
    exists (h, txs). unfold get_cf. cbn [cf_get transaction_ref_neighbor_cf]. by rewrite Ht. }
  exists r. split; [done|]. rewrite <- Hjoin. split_and!.
  - clear -Hrall. induction Hrall as [|h x hs r [Hx _] _ IH]; [done|]. cbn. by f_equal.
  - intros h txs Hin. apply list_elem_of_lookup in Hin as [i Hi].
    destruct (Forall2_lookup_r _ _ _ _ _ Hrall Hi) as (h' & _ & <- & ?). done.
  - intros Hle. unfold ledger_transactions, ledger.
    assert (bot = 0)%Z as Hb0 by lia. rewrite Hb0 in Hjoin. unfold orders_at in Hjoin.
    rewrite <- Hjoin. clear -Hrall.
    induction Hrall as [|h x hs r [_ Hx] _ IH]; [done|].
    cbn. rewrite Hx. cbn. f_equal. exact IH.
Qed.

Lemma elem_of_sorted_keys `{HashOrder} (m : gmap H256 Z) h :
  h ∈ (merge_sort by_timestamp (hash_iter m)).*1 ↔ is_Some (m !! h).
Proof.
  rewrite (list_elem_of_fmap fst). setoid_rewrite merge_sort_Permutation.
  setoid_rewrite hash_iter_perm. split.
  - intros ([k v] & -> & Hk%elem_of_map_to_list). eauto.
  - intros [v Hv]. exists (h, v). split; [done|]. by apply elem_of_map_to_list.
Qed.

Lemma sorted_keys_NoDup `{HashOrder} (m : gmap H256 Z) :
  NoDup (merge_sort by_timestamp (hash_iter m)).*1.
Proof.
  rewrite merge_sort_Permutation, hash_iter_perm. apply NoDup_fst_map_to_list.
Qed.

(** ** Properties *)

(** [BlockChain::new] on a configuration from [BlockchainConfig::new] does not panic; the
    state it returns satisfies the invariant of the chain, of the votes and of the ledger,
    and its ledger is the proposer genesis block alone. *)
Theorem new_chain_initialised `{F32Ln} chains tx_size tx_throughput pr vr adv eps :
  (0 ≤ chains ≤ 65533)%Z →
  let c := BlockchainConfig_new chains tx_size tx_throughput pr vr adv eps in
  ∃ s, BlockChain_new c = Done s ∧ full_inv s ∧ config s = c ∧
    proposer_ledger_tip s = 0%Z ∧
    ledger (orders (db s)) 0 = [proposer_genesis c].
Proof.
  intros Hc c. assert (config_wf c) as Hwf by by apply new_config_wf.
  destruct (BlockChain_new_full_inv c Hwf) as (s & Hs & Hi & Hcf).
  destruct (BlockChain_new_ok c Hwf) as (s0 & Hs0 & _ & Hg & _ & _ & Htip & _).
  assert (s0 = s) as -> by congruence.
  exists s. split_and!; try done. unfold ledger. by rewrite (gd_orders _ _ _ Hg).
Qed.

Section Claims.
Context `{Keccak, BincodeHeader, Rlp, PublicKeyCrypto, PoissonDist}.
Context (c : BlockchainConfig) (s : BlockChain).
Hypothesis Hwf : config_wf c.
Hypothesis Hreach : reachable c s.

(** C3: Inserting a block that passes the checks never panics: the result is again a
    reachable state with the whole invariant, and all that was stored about the blocks
    already there, the votes and the ledger are as they were. *)
Theorem insert_block_safe (b : Block) :
  accepted s b →
  ∃ s', insert_block s b = Done s' ∧ reachable c s' ∧ full_inv s' ∧ extends s s'.
Proof.
  intros Hacc. destruct (reachable_inv c s Hwf Hreach) as [Hi _].
  destruct (insert_block_full_inv s b Hi Hacc) as (s' & Hs' & Hi' & Hex).
  exists s'. split_and!; [done| |done..]. destruct Hreach as (s0 & Hs0 & Hr).
  exists s0. split; [done|]. eapply rtc_r; [done|]. by apply (step_insert s b).
Qed.

(** C2: [update_ledger] returns: with enough fuel every loop ends, no [unwrap] fails and
    the "number of votes exceed number of voters" panic is not reached.  In particular
    [Poisson::new], which gives an error for a rate that is NaN or not positive, gets a positive
    rate in every single precision rounding; this is for an adversary with a share of the mining
    power between [2 ^ -64] and one, and a store of less than [2 ^ 64] voter blocks.  The
    invariant holds again, the votes up to the best block of every voter chain are counted, and
    the two lists of transaction blocks it returns turn the old ledger into the new one. *)
Theorem update_ledger_safe `{!PoissonLaws} :
  ratio_ok c → (Z.of_nat (size (vlev (db s))) < 2 ^ 64)%Z →
  ∃ n s' added removed,
    (∀ fuel, n ≤ fuel → update_ledger fuel s = Done (s', (added, removed))) ∧
    full_inv s' ∧ voter_ledger_tips s' = (voter_best s).*1 ∧
    ∃ kept, ledger_transactions s = kept ++ removed ∧ ledger_transactions s' = kept ++ added.
Proof.
  intros Hratio Hsize. destruct (reachable_inv c s Hwf Hreach) as [Hi Hc].
  destruct (update_ledger_ok s Hi) as (n & s' & [added removed] & ? & ? & _ & ? & ?);
    [by apply ledger_accepted_ok; [|rewrite Hc|]|].
  by exists n, s', added, removed.
Qed.

(** C1: The ledger of a reachable state orders the confirmed proposer blocks: none occurs
    twice, every block comes after its parent and after every block it refers to, and the
    blocks in [unconfirmed_proposers] are exactly the inserted blocks it does not hold. *)
Theorem ledger_linear_extension :
  let L := ledger (orders (db s)) (proposer_ledger_tip s) in
  NoDup L ∧
  (∀ pre b post, L = pre ++ b :: post → ∀ r, refers (db s) b r → r ∈ pre) ∧
  (∀ h, h ∈ unconfirmed_proposers s ↔ is_Some (plev (db s) !! h) ∧ h ∉ L).
Proof.
  destruct (reachable_inv c s Hwf Hreach) as [Hi _].
  pose proof (le_order _ (fi_ledger _ Hi)) as Ho. split_and!; [apply Ho| |apply Ho].
  intros pre b post. by apply ledger_topological.
Qed.

(** C5: [proposer_leaders] does not panic: it returns one leader for every level of the
    ledger, a block of that level, which is the last block the level adds to the ledger
    and from which all blocks the level adds can be reached. *)
Theorem leaders_close_levels :
  ∃ ls, proposer_leaders s = Done ls ∧
    Forall2 (λ l h, plev (db s) !! h = Some l ∧
      ∃ order, orders (db s) !! l = Some order ∧ last order = Some h ∧
        ∀ b, b ∈ order → rtc (refers (db s)) h b)
      (range_incl 0 (proposer_ledger_tip s)) ls.
Proof.
  destruct (reachable_inv c s Hwf Hreach) as [[_ _ _ [_ Hll _ Ho]] _].
  apply mapO_total. intros l Hl%elem_of_range_incl.
  destruct (oi_level _ _ _ _ Ho l Hl) as (h & o & [? Hlead ? ? _]).
  exists h. unfold get_cf. cbn [cf_get proposer_leader_sequence_cf]. rewrite Hlead.
  split; [done|]. split; [by apply Hll|]. by exists o.
Qed.

(** C4: A vote [(chain, level)] is recorded for a proposer block exactly when the chain up to
    the ledger tip of that voter chain casts it, in a voter block of that level; and the
    blocks of one proposer level have at most one vote of each voter chain together, so
    that their number of votes never exceeds the number of voter chains. *)
Theorem votes_counted_once :
  (∀ x ch k, vote_in (pvotes (db s)) x ch k ↔
    ∃ i tip, ch = Z.of_nat i ∧ voter_ledger_tips s !! i = Some tip ∧
      (x, k) ∈ chain_votes (db s) tip) ∧
  (∀ level bs, ptree (db s) !! level = Some bs →
    NoDup (level_votes s bs).*1 ∧
    ∃ t, tally s bs = Done t ∧ total_vote_count t = Z.of_nat (length (level_votes s bs)) ∧
      (total_vote_count t ≤ voter_chains (config s))%Z).
Proof.
  destruct (reachable_inv c s Hwf Hreach) as [[Hci Hvi _ _] _].
  split; [apply Hvi|]. intros level bs Hbs.
  pose proof Hci as [_ Hp _]. destruct (pi_tree _ _ _ Hp _ _ Hbs) as (_ & Hnd & Hmem).
  assert (∀ b, b ∈ bs → plev (db s) !! b = Some level) as Hl by (intros b; apply Hmem).
  split; [by eapply level_votes_NoDup|].
  destruct (tally_ok s _ Hci Hvi bs level Hnd Hl) as (t & ? & ? & _ & ? & _). eauto.
Qed.


(** C7: [vote_diff] between two blocks of one voter chain returns, and computes the
    difference of their votes: both chains extend the votes of a common ancestor, one by
    the votes added, the other by the votes removed. *)
Theorem vote_diff_exact from to lf lt ch :
  vlev (db s) !! from = Some lf → vchain (db s) !! from = Some ch →
  vlev (db s) !! to = Some lt → vchain (db s) !! to = Some ch →
  ∃ n added removed fork,
    (∀ fuel, n ≤ fuel → vote_diff fuel (db s) from to = Done (added, removed)) ∧
    is_Some (vlev (db s) !! fork) ∧ vchain (db s) !! fork = Some ch ∧
    chain_votes (db s) to = added ++ chain_votes (db s) fork ∧
    chain_votes (db s) from = removed ++ chain_votes (db s) fork.
Proof.
  intros Hf Hfc Ht Htc. destruct (reachable_inv c s Hwf Hreach) as [[[? ? Hv] _ _ _] _].
  destruct (vote_diff_ok _ _ _ Hv from to lf lt ch Hf Hfc Ht Htc)
    as (n & added & removed & fork & ? & [l Hl] & ? & ? & ?).
  exists n, added, removed, fork. split_and!; eauto.
Qed.

(** C8: What a miner votes is accepted: [best_proposer], [best_voter] and
    [unvoted_proposer] do not panic on any voter chain, the votes are the most voted
    blocks of the levels the chain has not voted on, with ties broken by the lowest hash,
    and a voter block with these parents and votes passes the availability check and the
    content check. *)
Theorem mined_votes_valid i :
  (0 ≤ i < voter_chains c)%Z →
  ∃ p tip vs v, best_proposer s = Done p ∧ best_voter s i = Done tip ∧
    unvoted_proposer s tip p = Done vs ∧ vvoted (db s) !! tip = Some v ∧
    Forall2 (λ x l, ∃ bs, ptree (db s) !! l = Some bs ∧ most_voted s bs x) vs
      (range_incl (v + 1) (proposer_best_level s)) ∧
    ∀ b : Block, parent (header b) = p → content b = CVoter (mkVoterContent i tip vs) →
      check_data_availability b s = Pass ∧ check_content_semantic b s = Done Pass.
Proof.
  intros Hi. destruct (reachable_inv c s Hwf Hreach) as [Hf Hc]. pose proof (fi_chain _ Hf) as Hci.
  destruct (best_proposer_ok s Hci) as (p & Hp & Hpl).
  destruct (best_voter_ok s Hci i) as (tip & l & Htip & Hl & Hch); [by rewrite Hc|].
  destruct (mined_votes_ok s Hf i tip p l Hl Hch Hpl) as (vs & v & Hvs & Hv & Hmost & Hval).
  exists p, tip, vs, v. by split_and!.
Qed.

(** [proposer_transaction_in_ledger] does not panic; it returns the proposer blocks of
    the last [limit + 1] levels of the ledger in ledger order, each with the transaction
    blocks it refers to; with a limit above the ledger tip these are all the transaction
    blocks of the ledger. *)
Theorem ledger_query_complete limit :
  (0 ≤ limit)%Z →
  ∃ r, proposer_transaction_in_ledger s limit = Done r ∧
    r.*1 = orders_at (orders (db s))
      (range_incl (Z.max 0 (proposer_ledger_tip s - limit)) (proposer_ledger_tip s)) ∧
    (∀ h txs, (h, txs) ∈ r → trefs (db s) !! h = Some txs) ∧
    ((proposer_ledger_tip s ≤ limit)%Z → mjoin r.*2 = ledger_transactions s).
Proof.
  intros Hlim. destruct (reachable_inv c s Hwf Hreach) as [Hf _].
  apply (ledger_query_ok s Hf limit Hlim).
Qed.

(** [unreferred_proposers] and [unreferred_transactions], whatever the iteration order of
    the hash tables, list each block once, and exactly the proposer blocks that are neither
    the parent nor a reference of a stored proposer block, and the transaction blocks that
    no stored proposer block refers to. *)
Theorem unreferred_lists_exact `{HashOrder} :
  NoDup (unreferred_proposers_list s) ∧ NoDup (unreferred_transactions_list s) ∧
  (∀ h, h ∈ unreferred_proposers_list s ↔
    is_Some (plev (db s) !! h) ∧ unreferred_in (prefs (db s)) h) ∧
  (∀ h, h ∈ unreferred_transactions_list s ↔
    transaction_block (db s) h ∧ unreferred_in (trefs (db s)) h).
Proof.
  pose proof (reachable_unref c s Hwf Hreach) as Hu. split_and!.
  - apply sorted_keys_NoDup.
  - apply sorted_keys_NoDup.
  - intros h. unfold unreferred_proposers_list.
    rewrite elem_of_sorted_keys. apply (ur_proposers s Hu).
  - intros h. unfold unreferred_transactions_list.
    rewrite elem_of_sorted_keys. apply (ur_transactions s Hu).
Qed.
End Claims.

(** ** Evaluation on the example *)

Section Witnesses.
#[local] Existing Instances example_keccak example_rlp example_crypto example_bincode
  example_poisson.
Abbreviation ec := example_chain_config.
Abbreviation es := example_state.
Abbreviation ewf := example_chain_config_wf.
Abbreviation ereach := example_state_reachable.

Lemma new_chain_initialised_witness :
  ∃ s, BlockChain_new ec = Done s ∧ full_inv s ∧ config s = ec ∧
    proposer_ledger_tip s = 0%Z ∧ ledger (orders (db s)) 0 = [proposer_genesis ec].
Proof.
  apply (new_chain_initialised (H := λ _, f32_of_Z 0) 3 64000 1000). lia.
Defined.

Lemma insert_block_safe_witness :
  ∃ s', insert_block example_state_1 (example_voter_child 2) = Done s' ∧ reachable ec s' ∧
    full_inv s' ∧ extends example_state_1 s'.
Proof.
  apply (insert_block_safe ec example_state_1 ewf example_state_1_reachable).
  apply acceptedb_ok. vm_compute. reflexivity.
Defined.

Lemma update_ledger_safe_witness :
  ∃ n s' added removed,
    (∀ fuel, n ≤ fuel → update_ledger fuel example_state_1 = Done (s', (added, removed))) ∧
    full_inv s' ∧ voter_ledger_tips s' = (voter_best example_state_1).*1 ∧
    ∃ kept, ledger_transactions example_state_1 = kept ++ removed ∧
      ledger_transactions s' = kept ++ added.
Proof.
  apply (update_ledger_safe ec example_state_1 ewf example_state_1_reachable
    (H4 := example_poisson_laws) example_ratio_ok).
  vm_compute. reflexivity.
Defined.

Lemma ledger_linear_extension_witness :
  NoDup [proposer_genesis ec; hash example_proposer; hash example_uncle; hash example_child] ∧
  ∀ r, refers (db es) (hash example_child) r →
    r ∈ [proposer_genesis ec; hash example_proposer; hash example_uncle].
Proof.
  destruct (ledger_linear_extension ec es ewf ereach) as (Hnd & Hbefore & _).
  destruct example_state_ledger as [Htip HL]. rewrite Htip, HL in Hnd, Hbefore.
  split; [exact Hnd|]. apply (Hbefore _ _ []). reflexivity.
Defined.

Lemma leaders_close_levels_witness :
  ∃ ls, proposer_leaders es = Done ls ∧
    Forall2 (λ l h, plev (db es) !! h = Some l ∧
      ∃ order, orders (db es) !! l = Some order ∧ last order = Some h ∧
        ∀ b, b ∈ order → rtc (refers (db es)) h b)
      (range_incl 0 (proposer_ledger_tip es)) ls.
Proof. apply (leaders_close_levels ec es ewf ereach). Defined.

Lemma votes_counted_once_witness :
  ∃ t, tally es [hash example_proposer; hash example_uncle] = Done t ∧
    total_vote_count t = 3%Z.
Proof.
  destruct (votes_counted_once ec es ewf ereach) as [_ Hlevel].
  destruct (Hlevel 1%Z [hash example_proposer; hash example_uncle]) as (_ & t & Ht & Hc & _);
    [vm_compute; reflexivity|].
  exists t. split; [exact Ht|]. rewrite Hc. vm_compute. reflexivity.
Defined.


Lemma vote_diff_exact_witness :
  ∃ n added removed fork,
    (∀ fuel, n ≤ fuel → vote_diff fuel (db es) (genesis_hash 2)
      (hash (example_voter_child 0)) = Done (added, removed)) ∧
    is_Some (vlev (db es) !! fork) ∧ vchain (db es) !! fork = Some 0%Z ∧
    chain_votes (db es) (hash (example_voter_child 0)) =
      added ++ chain_votes (db es) fork ∧
    chain_votes (db es) (genesis_hash 2) = removed ++ chain_votes (db es) fork.
Proof.
  apply (vote_diff_exact ec es ewf ereach _ _ 0 2); vm_compute; reflexivity.
Defined.

Lemma mined_votes_valid_witness :
  ∃ p tip vs v, best_proposer es = Done p ∧ best_voter es 1 = Done tip ∧
    unvoted_proposer es tip p = Done vs ∧ vvoted (db es) !! tip = Some v ∧
    Forall2 (λ x l, ∃ bs, ptree (db es) !! l = Some bs ∧ most_voted es bs x) vs
      (range_incl (v + 1) (proposer_best_level es)) ∧
    ∀ b : Block, parent (header b) = p → content b = CVoter (mkVoterContent 1 tip vs) →
      check_data_availability b es = Pass ∧ check_content_semantic b es = Done Pass.
Proof.
  apply (mined_votes_valid ec es ewf ereach 1). vm_compute. split; [discriminate|reflexivity].
Defined.

Lemma unreferred_lists_exact_witness :
  NoDup [hash example_child] ∧
  ∀ h, h ∈ [hash example_child] ↔ is_Some (plev (db es) !! h) ∧ unreferred_in (prefs (db es)) h.
Proof.
  destruct (unreferred_lists_exact ec es ewf ereach (H4 := example_hash_order))
    as (Hn & _ & Hp & _).
  assert (unreferred_proposers_list (H := example_hash_order) es = [hash example_child]) as E.
  { apply (inj (fmap h256_bytes)). vm_compute. reflexivity. }
  rewrite E in Hp. rewrite E in Hn. split; [exact Hn|exact Hp].
Defined.

Lemma ledger_query_complete_witness :
  ∃ r, proposer_transaction_in_ledger es 1 = Done r ∧
    r.*1 = [hash example_proposer; hash example_uncle; hash example_child].
Proof.
  destruct (ledger_query_complete ec es ewf ereach 1) as (r & Hr & Hfst & _); [lia|].
  exists r. split; [exact Hr|]. rewrite Hfst. vm_compute. reflexivity.
Defined.
End Witnesses.
