(* ===== verification/MinerTheorems.v ===== *)
(** * Properties of the miner

    A turn of the miner never panics; the Merkle tree is always the tree over the
    contents, although it is updated leaf by leaf; and what it mines passes every check of
    [Validation], except that the signatures of pending transactions are not looked at. *)

From S2P Require Import Prelude Hash Merkle Float Transaction Mempool Config Block BlockDb Store.
From S2P Require Import Chain Miner Validation Leader Ledger ChainInv VoteInv ValidationTheorems.
From S2P Require Import LeaderProofs LedgerInv Reachable ChainTheorems.

(** ** The contents *)

(** A voter content of chain [i], and one whose votes go up to level [lp]. *)
Definition voter_parent_ok (s : BlockChain) (i : Z) (v : VoterContent) : Prop :=
  chain_number v = i ∧ is_Some (vlev (db s) !! voter_parent v) ∧
  vchain (db s) !! voter_parent v = Some i.
Definition votes_ok (s : BlockChain) (lp : Z) (v : VoterContent) : Prop :=
  ∃ v', vvoted (db s) !! voter_parent v = Some v' ∧ (0 ≤ v' ≤ lp)%Z ∧
    Forall2 (λ x l, plev (db s) !! x = Some l) (votes v) (range_incl (v' + 1) lp).

(** A proposer content: its transaction blocks are stored, and its proposer blocks are
    not above level [lp]. *)
Definition transaction_refs_ok (s : BlockChain) (p : ProposerContent) : Prop :=
  ∀ t, t ∈ transaction_refs p → is_Some (parents (db s) !! t).
Definition proposer_refs_ok (s : BlockChain) (lp : Z) (p : ProposerContent) : Prop :=
  ∀ r, r ∈ proposer_refs p → ∃ l, plev (db s) !! r = Some l ∧ (l ≤ lp)%Z.

(** The contents for a parent at level [lp].  While they are updated the references are
    out of date if [stale], and the votes of the chains that are not [fresh]. *)
Definition contents_ok (s : BlockChain) (lp : Z) (stale : bool) (fresh : Z → Prop)
    (cs : list Content) : Prop :=
  ∃ p t vs, cs = CProposer p :: CTransaction t :: (CVoter <$> vs) ∧
    length vs = Z.to_nat (voter_chains (config s)) ∧
    transaction_refs_ok s p ∧ (stale = false → proposer_refs_ok s lp p) ∧
    ∀ i v, vs !! i = Some v →
      voter_parent_ok s (Z.of_nat i) v ∧ (fresh (Z.of_nat i) → votes_ok s lp v).

(** The ids where two lists of contents differ are in the set. *)
Definition tracked (cs0 : list Content) (acc : list Content * gset Z) : Prop :=
  length acc.1 = length cs0 ∧ (∀ i, acc.1 !! i ≠ cs0 !! i → Z.of_nat i ∈ acc.2) ∧
  ∀ id, id ∈ acc.2 → (0 ≤ id < Z.of_nat (length cs0))%Z.

Lemma tracked_refl cs : tracked cs (cs, ∅).
Proof. split_and!; [done|by intros i Hi|set_solver]. Qed.

Lemma tracked_insert cs0 cs touched i x y :
  cs !! i = Some y → tracked cs0 (cs, touched) →
  tracked cs0 (<[i := x]> cs, {[Z.of_nat i]} ∪ touched).
Proof.
  intros Hi%lookup_lt_Some (Hl & Ht & Hr). cbn in *. split_and!; cbn; [by rewrite length_insert| |].
  - intros j Hj. destruct (decide (i = j)) as [->|Hne]; [set_solver|].
    rewrite list_lookup_insert_ne in Hj by done. apply Ht in Hj. set_solver.
  - intros id [->%elem_of_singleton|Hid]%elem_of_union; [lia|by apply Hr].
Qed.

Lemma existsb_zip_eq {A} `{EqDecision A} (l k : list A) :
  length l = length k →
  existsb (λ x, negb (bool_decide (x.1 = x.2))) (zip l k) = false → l = k.
Proof.
  revert k. induction l as [|x l IH]; intros [|y k]; try done. cbn.
  intros [= Hl] [Hx Ht]%orb_false_iff. case_bool_decide; [|done]. subst. f_equal. by apply IH.
Qed.

Lemma contents_ok_weaken s lp (fresh fresh' : Z → Prop) stale cs :
  (∀ i, (0 ≤ i < voter_chains (config s))%Z → fresh' i → fresh i) →
  contents_ok s lp stale fresh cs → contents_ok s lp stale fresh' cs.
Proof.
  intros Himp (p & t & vs & -> & Hlen & Htr & Hpr & Hall). exists p, t, vs.
  split_and!; try done. intros i v Hv. destruct (Hall i v Hv) as [? Hvo]. split; [done|].
  intros Hf. apply Hvo, Himp; [|done]. apply lookup_lt_Some in Hv. lia.
Qed.

Section Contents.
Context `{HashOrder} (s : BlockChain).
Hypothesis Hf : full_inv s.
Hypothesis Hur : unref_inv s.
Hypothesis Hch : (voter_chains (config s) ≤ 65533)%Z.

Lemma chain_id_eq i : (0 ≤ i < voter_chains (config s))%Z → chain_id i = S (S (Z.to_nat i)).
Proof.
  intros Hi. unfold chain_id, FIRST_VOTER_INDEX, u16. rewrite wrap_small by lia. lia.
Qed.

(** The content of a voter chain, and what the contents are after it is replaced. *)
Lemma contents_ok_lookup lp stale fresh cs i :
  contents_ok s lp stale fresh cs → (0 ≤ i < voter_chains (config s))%Z →
  ∃ v, cs !! chain_id i = Some (CVoter v) ∧ voter_parent_ok s i v ∧
    (fresh i → votes_ok s lp v).
Proof.
  intros (p & t & vs & -> & Hlen & _ & _ & Hall) Hi. rewrite chain_id_eq by done.
  destruct (lookup_lt_is_Some_2 vs (Z.to_nat i)) as [v Hv]; [lia|]. exists v.
  destruct (Hall _ _ Hv) as [Hp Hvo]. rewrite Z2Nat.id in * by lia.
  split; [|done]. change ((CVoter <$> vs) !! Z.to_nat i = Some (CVoter v)).
  by rewrite list_lookup_fmap, Hv.
Qed.

Lemma contents_ok_voter lp stale fresh (fresh' : Z → Prop) cs i v :
  contents_ok s lp stale fresh cs → (0 ≤ i < voter_chains (config s))%Z →
  voter_parent_ok s i v → (fresh' i → votes_ok s lp v) →
  (∀ j, j ≠ i → fresh' j → fresh j) →
  contents_ok s lp stale fresh' (<[chain_id i := CVoter v]> cs).
Proof.
  intros (p & t & vs & -> & Hlen & Htr & Hpr & Hall) Hi Hv Hvo Himp.
  rewrite chain_id_eq by done. exists p, t, (<[Z.to_nat i := v]> vs). cbn.
  rewrite list_fmap_insert. split_and!; try done; [by rewrite length_insert|].
  intros j w Hj. destruct (decide (Z.to_nat i = j)) as [<-|Hne].
  - rewrite list_lookup_insert_eq in Hj by lia. injection Hj as <-. by rewrite Z2Nat.id by lia.
  - rewrite list_lookup_insert_ne in Hj by done. destruct (Hall _ _ Hj) as [? Hw].
    split; [done|]. intros Hf'. apply Hw, Himp; [lia|done].
Qed.

Lemma update_voter_parent_ok cs0 lp cs touched i :
  (0 ≤ i < voter_chains (config s))%Z →
  contents_ok s lp false (λ _, False) cs → tracked cs0 (cs, touched) →
  ∃ cs' touched', update_voter_parent s (cs, touched) i = Done (cs', touched') ∧
    contents_ok s lp false (λ _, False) cs' ∧ tracked cs0 (cs', touched').
Proof.
  intros Hi Hok Htr. destruct (best_voter_ok s (fi_chain _ Hf) i Hi) as (tip & l & Htip & Hl & Hc).
  destruct (contents_ok_lookup _ _ _ _ _ Hok Hi) as (v & Hv & (Hn & _ & _) & _).
  unfold update_voter_parent. rewrite Htip, Hv. cbn [mbind outcome_bind unwrap].
  case_decide; [by eexists _, _|]. eexists _, _. split; [reflexivity|].
  split; [|by eapply tracked_insert]. eapply contents_ok_voter; [done|done| |done..].
  split_and!; cbn; [done|eauto|done].
Qed.

Lemma update_voter_parents_ok lp cs chains :
  Forall (λ i, 0 ≤ i < voter_chains (config s))%Z chains →
  contents_ok s lp false (λ _, True) cs →
  ∃ cs' touched', foldM (update_voter_parent s) (cs, ∅) chains = Done (cs', touched') ∧
    contents_ok s lp false (λ _, chains = []) cs' ∧ tracked cs (cs', touched').
Proof.
  intros Hall Hok. destruct chains as [|i chains].
  { exists cs, ∅. split; [done|]. split; [by eapply contents_ok_weaken; [|exact Hok]|apply tracked_refl]. }
  destruct (foldM_total (update_voter_parent s)
    (λ acc, contents_ok s lp false (λ _, False) acc.1 ∧ tracked cs acc) (cs, ∅) (i :: chains))
    as ([cs' touched'] & Hd & Hok' & Htr').
  - split; [by eapply contents_ok_weaken; [|exact Hok]|apply tracked_refl].
  - intros [cs1 t1] j [H1 H2] Hj. rewrite Forall_forall in Hall.
    destruct (update_voter_parent_ok cs lp cs1 t1 j (Hall _ Hj) H1 H2) as (cs2 & t2 & ? & ? & ?).
    by exists (cs2, t2).
  - exists cs', touched'. split_and!; [done| |done]. by eapply contents_ok_weaken; [|exact Hok'].
Qed.

(** Lines 266-296. *)
Lemma update_transactions_ok cs0 c pool lp fresh cs touched :
  pool_inv pool → contents_ok s lp false fresh cs → tracked cs0 (cs, touched) →
  ∃ cs' touched', update_transactions c pool (cs, touched) = Done (cs', touched') ∧
    contents_ok s lp false fresh cs' ∧ tracked cs0 (cs', touched').
Proof.
  intros Hpool (p & t & vs & -> & Hrest) Htr. unfold update_transactions.
  rewrite get_transactions_queue by done. eexists _, _. split; [reflexivity|].
  split; [by eexists p, _, vs|]. by eapply (tracked_insert _ _ _ 1).
Qed.

Lemma unreferred_transactions_stored t :
  t ∈ unreferred_transactions_list s → is_Some (parents (db s) !! t).
Proof.
  intros Ht. apply elem_of_sorted_keys, (ur_transactions s Hur) in Ht as [[? _] _]. done.
Qed.

Lemma taken_transactions_stored n p :
  transaction_refs p = take n (unreferred_transactions_list s) → transaction_refs_ok s p.
Proof.
  intros Hp x. rewrite Hp. intros (i & Hi & _)%elem_of_take.
  apply unreferred_transactions_stored. by eapply list_elem_of_lookup_2.
Qed.

Lemma contents_ok_proposer lp stale fresh cs :
  contents_ok s lp stale fresh cs →
  ∃ p, cs !! Z.to_nat PROPOSER_INDEX = Some (CProposer p) ∧
    (stale = false → proposer_refs_ok s lp p) ∧
    ∀ p' stale', transaction_refs_ok s p' → (stale' = false → proposer_refs_ok s lp p') →
      contents_ok s lp stale' fresh (<[Z.to_nat PROPOSER_INDEX := CProposer p']> cs).
Proof.
  intros (p & t & vs & -> & Hlen & _ & Hpr & Hall). exists p. split_and!; [done..|].
  intros p' st' H1 H2. by exists p', t, vs.
Qed.

Lemma append_transaction_refs_ok cs0 c lp fresh cs touched :
  contents_ok s lp false fresh cs → tracked cs0 (cs, touched) →
  ∃ cs' touched', append_transaction_refs c s (cs, touched) = Done (cs', touched') ∧
    contents_ok s lp false fresh cs' ∧ tracked cs0 (cs', touched').
Proof.
  intros Hok Htr. destruct (contents_ok_proposer _ _ _ _ Hok) as (p & Hp & Hpr & Hset).
  unfold append_transaction_refs. rewrite Hp. cbn [unwrap mbind outcome_bind].
  case_match; [|by eexists _, _]. eexists _, _. split; [reflexivity|].
  split; [|by eapply (tracked_insert _ _ _ 0)]. apply Hset; [|done].
  by eapply taken_transactions_stored.
Qed.

(** Lines 303-337.  The references are those for the best level. *)
Lemma refresh_refs_ok cs0 c parent stale fresh cs touched :
  contents_ok s (proposer_best_level s) stale fresh cs → tracked cs0 (cs, touched) →
  ∃ cs' touched', refresh_refs c s parent (cs, touched) = Done (cs', touched') ∧
    contents_ok s (proposer_best_level s) false fresh cs' ∧ tracked cs0 (cs', touched').
Proof.
  intros Hok Htr. destruct (contents_ok_proposer _ _ _ _ Hok) as (p & Hp & _ & Hset).
  unfold refresh_refs. rewrite Hp. cbn [unwrap mbind outcome_bind].
  eexists _, _. split; [reflexivity|]. split; [|by eapply (tracked_insert _ _ _ 0)].
  apply Hset; [by eapply taken_transactions_stored|]. intros _ r [_ Hr]%list_elem_of_filter.
  apply elem_of_sorted_keys, (ur_proposers s Hur) in Hr as [[l Hl] _]. exists l.
  split; [done|]. by apply (pi_range _ _ _ (ci_proposer _ (fi_chain _ Hf)) _ _ Hl).
Qed.

(** Nothing is fresh for another level. *)
Lemma contents_ok_level lp lp' stale fresh cs :
  contents_ok s lp stale fresh cs → contents_ok s lp' true (λ _, False) cs.
Proof.
  intros (p & t & vs & -> & Hlen & Htr & _ & Hall). exists p, t, vs. split_and!; try done.
  intros i v Hv. by destruct (Hall i v Hv).
Qed.

Lemma parent_loop_ok cs0 c np parent lp fresh cs touched :
  plev (db s) !! parent = Some lp → (np = true → lp = proposer_best_level s) →
  contents_ok s lp np fresh cs → tracked cs0 (cs, touched) →
  ∃ np' parent' cs' touched',
    parent_loop 2 c s np parent (cs, touched) = Done (np', parent', (cs', touched')) ∧
    plev (db s) !! parent' = Some (proposer_best_level s) ∧
    best_proposer s = Done parent' ∧ tracked cs0 (cs', touched') ∧ (np' = false → np = false) ∧
    contents_ok s (proposer_best_level s) false (λ i, np' = false ∧ fresh i) cs'.
Proof.
  intros Hl Hnp Hok Htr. destruct (best_proposer_ok s (fi_chain _ Hf)) as (best & Hbest & Hbl).
  assert (∃ cs1 t1, (if np then refresh_refs c s parent (cs, touched) else Done (cs, touched)) =
    Done (cs1, t1) ∧ tracked cs0 (cs1, t1) ∧
    contents_ok s lp false (λ i, np = false ∧ fresh i) cs1) as (cs1 & t1 & H1 & Ht1 & Hok1).
  { destruct np; cycle 1.
    { exists cs, touched. split_and!; [done..|]. by eapply contents_ok_weaken; [|exact Hok]; [intros ? ? []]. }
    rewrite Hnp in * by done.
    destruct (refresh_refs_ok cs0 c parent true fresh cs touched) as (cs1 & t1 & ? & Hok1 & ?); [done..|].
    exists cs1, t1. split_and!; [done..|]. by eapply contents_ok_weaken; [|exact Hok1]; [intros ? ? []]. }
  cbn [parent_loop]. rewrite H1, Hbest. cbn [mbind outcome_bind].
  case_decide as Hpb.
  { subst. assert (lp = proposer_best_level s) as -> by congruence.
    by eexists _, _, _, _. }
  destruct (refresh_refs_ok cs0 c best true (λ _, False) cs1 t1) as (cs2 & t2 & H2 & Hok2 & Ht2);
    [by eapply contents_ok_level|done|].
  rewrite H2. cbn [mbind outcome_bind]. rewrite decide_True by done.
  eexists _, _, _, _. split_and!; [done..|]. by eapply contents_ok_weaken; [|exact Hok2]; [intros ? ? []].
Qed.

(** Lines 339-380. *)
Lemma unvoted_votes_ok v parent l :
  vlev (db s) !! voter_parent v = Some l →
  plev (db s) !! parent = Some (proposer_best_level s) →
  ∃ vs, unvoted_proposer s (voter_parent v) parent = Done vs ∧
    votes_ok s (proposer_best_level s) (mkVoterContent (chain_number v) (voter_parent v) vs).
Proof.
  intros Hl Hpar. pose proof (fi_chain _ Hf) as Hci. pose proof Hci as [_ Hp Hv].
  destruct (vi_block _ _ _ Hv _ _ Hl) as (ch & v' & _ & Hc & Hv' & _ & _).
  destruct (vi_chain _ _ _ Hv _ _ _ Hl Hc) as (_ & bh & bl & _ & Hl0).
  pose proof (pi_best _ _ _ Hp) as Hb.
  assert (0 ≤ v' ≤ proposer_best_level s)%Z as Hvr.
  { apply (voted_level_bound s Hci (Z.to_nat l) (voter_parent v)); [rewrite Z2Nat.id by lia|]; done. }
  destruct (unvoted_proposer_ok s Hf (voter_parent v) parent _ _ Hv' Hpar) as (vs & Hvs & Hall); [lia|].
  rewrite u64_small in Hall by lia. exists vs. split; [done|]. exists v'. split_and!; [done|lia..|].
  eapply Forall2_impl; [exact Hall|]. by intros x k [? _].
Qed.

Lemma update_chain_content_ok cs0 parent always fresh cs touched i :
  (0 ≤ i < voter_chains (config s))%Z →
  plev (db s) !! parent = Some (proposer_best_level s) →
  contents_ok s (proposer_best_level s) false fresh cs → tracked cs0 (cs, touched) →
  ∃ cs' touched', update_chain_content s parent always (cs, touched) i = Done (cs', touched') ∧
    contents_ok s (proposer_best_level s) false (λ j, j = i ∨ fresh j) cs' ∧
    tracked cs0 (cs', touched').
Proof.
  intros Hi Hpar Hok Htr.
  destruct (contents_ok_lookup _ _ _ _ _ Hok Hi) as (v & Hv & (Hn & [l Hl] & Hc) & Hfr).
  destruct (unvoted_votes_ok v parent l) as (vs & Hvs & Hvok); [done..|].
  unfold update_chain_content. rewrite Hv. cbn [mbind outcome_bind unwrap].
  rewrite Hvs. cbn [mbind outcome_bind]. case_match eqn:Hif; cycle 1.
  - exists cs, touched. split_and!; [done| |done].
    apply orb_false_iff in Hif as [[_ Hlen]%orb_false_iff Hex].
    apply existsb_zip_eq in Hex; [|by apply Nat.eqb_eq, negb_false_iff].
    rewrite <- (list_insert_id cs (chain_id i) (CVoter v)) by done.
    eapply contents_ok_voter; [done..|by split_and!; eauto| |by intros ? ? [|]].
    intros _. rewrite Hex in Hvok. by destruct v.
  - eexists _, _. split_and!; [reflexivity| |by eapply tracked_insert].
    eapply contents_ok_voter; [done..|by split_and!; eauto|done|by intros ? ? [|]].
Qed.

Lemma update_votes_fold_ok cs0 parent always chains fresh cs touched :
  Forall (λ i, 0 ≤ i < voter_chains (config s))%Z chains →
  plev (db s) !! parent = Some (proposer_best_level s) →
  contents_ok s (proposer_best_level s) false fresh cs → tracked cs0 (cs, touched) →
  ∃ cs' touched',
    foldM (update_chain_content s parent always) (cs, touched) chains = Done (cs', touched') ∧
    contents_ok s (proposer_best_level s) false (λ j, j ∈ chains ∨ fresh j) cs' ∧
    tracked cs0 (cs', touched').
Proof.
  intros Hall Hpar. revert fresh cs touched.
  induction Hall as [|i chains Hi _ IH]; intros fresh cs touched Hok Htr.
  { exists cs, touched. split_and!; [done| |done].
    eapply contents_ok_weaken; [|exact Hok]. set_solver. }
  destruct (update_chain_content_ok cs0 parent always fresh cs touched i)
    as (cs1 & t1 & H1 & Hok1 & Ht1); [done..|].
  destruct (IH _ _ _ Hok1 Ht1) as (cs2 & t2 & H2 & Hok2 & Ht2).
  exists cs2, t2. cbn [foldM]. rewrite H1. cbn [mbind outcome_bind]. split_and!; [done| |done].
  eapply contents_ok_weaken; [|exact Hok2]. set_solver.
Qed.

Lemma update_all_votes_ok cs0 parent np new_voter cs touched :
  plev (db s) !! parent = Some (proposer_best_level s) →
  contents_ok s (proposer_best_level s) false (λ _, np = false ∧ new_voter = ∅) cs →
  tracked cs0 (cs, touched) →
  ∃ cs' touched',
    update_all_votes (config s) s parent np new_voter (cs, touched) = Done (cs', touched') ∧
    contents_ok s (proposer_best_level s) false (λ _, True) cs' ∧ tracked cs0 (cs', touched').
Proof.
  intros Hpar Hok Htr. unfold update_all_votes.
  destruct (np || negb (bool_decide (new_voter = ∅))) eqn:Hif; cycle 1.
  { exists cs, touched. split_and!; [done| |done].
    apply orb_false_iff in Hif as [-> Hb%negb_false_iff%bool_decide_eq_true].
    by eapply contents_ok_weaken; [|exact Hok]. }
  destruct (update_votes_fold_ok cs0 parent np (range 0 (voter_chains (config s)))
    _ _ _ ltac:(apply Forall_forall; intros i Hi%elem_of_seqZ; lia) Hpar Hok Htr)
    as (cs1 & t1 & H1 & Hok1 & Ht1).
  exists cs1, t1. split_and!; [done| |done]. eapply contents_ok_weaken; [|exact Hok1].
  intros i Hi _. left. apply elem_of_seqZ. lia.
Qed.
End Contents.

(** ** The tree *)

Section Tree.
Context `{Keccak, BincodeHeader}.

Lemma update_leaf_ok cs l id :
  length l = length cs → (0 ≤ id < Z.of_nat (length cs))%Z →
  update_leaf cs (ref_tree l) id =
    Done (ref_tree (<[Z.to_nat id := default h256_default ((hash <$> cs) !! Z.to_nat id)]> l)).
Proof.
  intros Hl Hid. unfold update_leaf.
  destruct (lookup_lt_is_Some_2 cs (Z.to_nat id)) as [c Hc]; [lia|].
  rewrite Hc, list_lookup_fmap, Hc. cbn [unwrap mbind outcome_bind fmap option_fmap option_map default].
  rewrite merkle_update_ref. rewrite (proj2 (Nat.ltb_lt _ _)) by lia. done.
Qed.

(** Updating the touched leaves, in any order, gives the tree of the new contents. *)
Lemma update_leaves_ok cs ids l :
  length l = length cs → Forall (λ id, 0 ≤ id < Z.of_nat (length cs))%Z ids →
  (∀ j, l !! j ≠ (hash <$> cs) !! j → Z.of_nat j ∈ ids) →
  foldM (update_leaf cs) (ref_tree l) ids = Done (ref_tree (hash <$> cs)).
Proof.
  intros Hl Hall. revert l Hl. induction Hall as [|id ids Hid _ IH]; intros l Hl Hd.
  - cbn. do 2 f_equal. apply list_eq. intros j.
    destruct (decide (l !! j = (hash <$> cs) !! j)) as [|Hn]; [done|]. by apply Hd in Hn; inversion Hn.
  - cbn [foldM]. rewrite update_leaf_ok by done. cbn [mbind outcome_bind].
    apply IH; [by rewrite length_insert|]. intros j Hj.
    destruct (decide (Z.to_nat id = j)) as [<-|Hne].
    + rewrite list_lookup_insert_eq in Hj by lia.
      destruct (lookup_lt_is_Some_2 (hash <$> cs) (Z.to_nat id)) as [x Hx]; [rewrite length_fmap; lia|].
      by rewrite Hx in Hj.
    + rewrite list_lookup_insert_ne in Hj by done. apply Hd in Hj.
      apply elem_of_cons in Hj as [<-|?]; [by rewrite Nat2Z.id in Hne|done].
Qed.
End Tree.

(** ** A turn *)

(** The miner against a chain: its contents fit its parent, and its tree its contents. *)
Record miner_inv `{Keccak, BincodeHeader} (s : BlockChain) (m : Miner) : Prop := {
  mv_contents : ∃ lp, plev (db s) !! parent (mi_header m) = Some lp ∧
    contents_ok s lp false (λ _, True) (mi_contents m);
  mv_tree : mi_tree m = ref_tree (hash <$> mi_contents m);
}.

(** A signal names a voter chain there is. *)
Definition signal_ok (c : BlockchainConfig) (sig : ContextUpdateSignal) : Prop :=
  match sig with NewVoterBlock chain => (0 ≤ chain < voter_chains c)%Z | _ => True end.

Lemma collect_signals_ok c sigs :
  Forall (signal_ok c) sigs →
  ∀ i, i ∈ new_voter_block (collect_signals sigs) → (0 ≤ i < voter_chains c)%Z.
Proof.
  unfold collect_signals. intros Hall.
  assert (∀ i, i ∈ new_voter_block (mkUpdates false ∅ false) → (0 ≤ i < voter_chains c)%Z) as H0
    by (cbn; set_solver).
  revert H0. generalize (mkUpdates false ∅ false).
  induction Hall as [|sig sigs Hs _ IH]; intros u Hu; [done|]. cbn [foldl]. apply IH.
  destruct sig; cbn in *; [done| |done]. intros i [->%elem_of_singleton|?]%elem_of_union; auto.
Qed.

Section Turn.
Context `{Keccak, BincodeHeader, BincodeBlock, !BincodeBlockLaws, HashOrder}.
Context (node : Node) (m : Miner).
Let s := node_chain node.
Hypothesis Hf : full_inv s.
Hypothesis Hur : unref_inv s.
Hypothesis Hch : (voter_chains (config s) ≤ 65533)%Z.
Hypothesis Hpool : pool_inv (node_mempool node).
Hypothesis Hdb : blockdb_inv (node_blockdb node).
Hypothesis Hm : miner_inv s m.

Lemma get_difficulty_ok h : ∃ d, get_difficulty (node_blockdb node) h = Done d.
Proof.
  unfold get_difficulty, blockdb_get.
  destruct (block_cf (node_blockdb node) !! h) as [raw|] eqn:E; [|by eexists].
  destruct (bd_decodes _ Hdb _ _ E) as [b Hb]. rewrite Hb. by eexists.
Qed.

Lemma update_tree_ok np cs touched :
  tracked (mi_contents m) (cs, touched) →
  update_tree np cs touched (mi_tree m) = Done (ref_tree (hash <$> cs)).
Proof.
  intros (Hl & Ht & Hr). cbn in *. unfold update_tree. destruct np; [apply merkle_new_ref|].
  rewrite (mv_tree _ _ Hm). apply update_leaves_ok; [by rewrite length_fmap| |].
  - apply Forall_forall. intros id Hid%elem_of_btree_set_list. rewrite Hl. by apply Hr.
  - intros j Hj. apply elem_of_btree_set_list, Ht. intros E. apply Hj.
    by rewrite !list_lookup_fmap, E.
Qed.

(** Lines 298-301. *)
Lemma choose_parent_ok np lp (P : Prop) cs :
  plev (db s) !! parent (mi_header m) = Some lp → contents_ok s lp false (λ _, P) cs →
  ∃ p lp1, (if np : bool then best_proposer s else Done (parent (mi_header m))) = Done p ∧
    plev (db s) !! p = Some lp1 ∧ (np = true → lp1 = proposer_best_level s) ∧
    contents_ok s lp1 np (λ _, np = false ∧ P) cs.
Proof.
  intros Hlp Hok. destruct np; cycle 1.
  { eexists _, _. split_and!; [done..|]. eapply contents_ok_weaken; [|exact Hok]. by intros ? ? []. }
  destruct (best_proposer_ok s (fi_chain _ Hf)) as (p & -> & Hp). exists p, (proposer_best_level s).
  split_and!; [done..|]. by eapply contents_ok_weaken; [|by eapply contents_ok_level]; [intros ? ? []].
Qed.

(** The header after the contents are brought up to date. *)
Lemma refresh_context_ok sigs :
  Forall (signal_ok (config s)) sigs →
  ∃ m', refresh_context (config s) node sigs m = Done m' ∧ miner_inv s m' ∧
    operating_state m' = operating_state m ∧
    best_proposer s = Done (parent (mi_header m')) ∧
    content_merkle_root (mi_header m') = merkle_root (mi_tree m').
Proof.
  intros Hsig. destruct Hm as [(lp & Hlp & Hok) _]. unfold refresh_context. fold s.
  set (u := collect_signals sigs). pose proof (collect_signals_ok _ _ Hsig) as Hu. fold u in Hu.
  destruct (update_voter_parents_ok s Hf Hch lp _ (btree_set_list (new_voter_block u))
    ltac:(apply Forall_forall; intros i Hi%elem_of_btree_set_list; by apply Hu) Hok)
    as (cs1 & t1 & -> & Hok1 & Ht1). cbn [mbind outcome_bind].
  assert (∃ cs2 t2, (if new_transaction_block u
    then update_transactions (config s) (node_mempool node) (cs1, t1) else Done (cs1, t1)) =
    Done (cs2, t2) ∧ contents_ok s lp false (λ _, btree_set_list (new_voter_block u) = []) cs2 ∧
    tracked (mi_contents m) (cs2, t2)) as (cs2 & t2 & -> & Hok2 & Ht2).
  { destruct (new_transaction_block u); [by eapply update_transactions_ok|by eexists _, _]. }
  cbn [mbind outcome_bind].
  assert (∃ cs3 t3, (if new_transaction_block u && negb (new_proposer_block u)
    then append_transaction_refs (config s) s (cs2, t2) else Done (cs2, t2)) =
    Done (cs3, t3) ∧ contents_ok s lp false (λ _, btree_set_list (new_voter_block u) = []) cs3 ∧
    tracked (mi_contents m) (cs3, t3)) as (cs3 & t3 & -> & Hok3 & Ht3).
  { case_match; [by eapply append_transaction_refs_ok|by eexists _, _]. }
  cbn [mbind outcome_bind].
  set (np := new_proposer_block u).
  destruct (choose_parent_ok np lp _ cs3 Hlp Hok3) as (p & lp1 & -> & Hp & Hnp & Hok4).
  cbn [mbind outcome_bind].
  destruct (parent_loop_ok s Hf Hur (mi_contents m) (config s) np p lp1 _ cs3 t3 Hp Hnp Hok4 Ht3)
    as (np' & p' & cs5 & t5 & -> & Hp' & Hbest & Ht5 & Himp & Hok5). cbn [mbind outcome_bind].
  destruct (update_all_votes_ok s Hf Hur Hch (mi_contents m) p' np' (new_voter_block u) cs5 t5 Hp')
    as (cs6 & t6 & -> & Hok6 & Ht6); [|done|].
  { eapply contents_ok_weaken; [|exact Hok5]. intros i _ [Hn He]. split_and!; [done|auto|].
    apply elem_of_nil_inv. intros x Hx%elem_of_btree_set_list. rewrite He in Hx. set_solver. }
  cbn [mbind outcome_bind]. destruct (get_difficulty_ok p') as [d ->]. cbn [mbind outcome_bind].
  rewrite update_tree_ok by done. eexists. split_and!; [reflexivity| |done..].
  split; [by eexists|done].
Qed.
End Turn.

(** ** The mined block *)

Section Mined.
Context `{Keccak, BincodeHeader, BigUint, Rlp, PublicKeyCrypto}.
Context (s : BlockChain).
Hypothesis Hf : full_inv s.

Lemma ref_levels_pass lp refs :
  (∀ r, r ∈ refs → ∃ l, plev (db s) !! r = Some l ∧ (l ≤ lp)%Z) →
  ref_levels_ok s lp refs = Done true.
Proof.
  induction refs as [|r refs IH]; intros Hr; [done|]. cbn [ref_levels_ok].
  destruct (Hr r) as (l & Hl & Hle); [left|]. unfold proposer_level, get_cf.
  cbn [cf_get proposer_node_level_cf]. rewrite Hl. cbn [unwrap mbind outcome_bind].
  rewrite (proj2 (Z.ltb_ge _ _)) by lia. apply IH. intros x Hx. apply Hr. by right.
Qed.

Lemma proposer_content_valid (b : Block) ct lp :
  content b = CProposer ct → plev (db s) !! parent (header b) = Some lp →
  transaction_refs_ok s ct → proposer_refs_ok s lp ct →
  check_data_availability b s = Pass ∧ check_content_semantic b s = Done Pass.
Proof.
  intros Hct Hlp Ht Hr. split.
  - unfold check_data_availability, proposer_missing_references. rewrite Hct.
    unfold check_proposer_block_exists, check_transaction_block_exists.
    rewrite (proj2 (contains_proposer_true s (parent (header b)))) by eauto.
    rewrite !filter_none; [done|..].
    + intros x (l & Hx & _)%Hr. by rewrite (proj2 (contains_proposer_true s x)) by eauto.
    + intros x [l Hx]%Ht. unfold contains_transaction, get_cf. cbn [cf_get parent_neighbor_cf].
      by rewrite Hx.
  - unfold check_content_semantic, check_ref_proposer_level, proposer_level, get_cf.
    rewrite Hct. cbn [cf_get proposer_node_level_cf]. rewrite Hlp. cbn [unwrap mbind outcome_bind].
    by rewrite ref_levels_pass.
Qed.

Lemma mined_content_valid (b : Block) lp cs id :
  plev (db s) !! parent (header b) = Some lp → contents_ok s lp false (λ _, True) cs →
  cs !! id = Some (content b) →
  check_data_availability b s = Pass ∧
  check_content_semantic b s =
    Done (match content b with
          | CTransaction t => if check_signature_batch (transactions t) then Pass else WrongSignature
          | _ => Pass end).
Proof.
  intros Hlp (p & t & vs & -> & Hlen & Htr & Hpr & Hall) Hid. destruct id as [|[|id]].
  - injection Hid as Hct. symmetry in Hct. rewrite Hct. eapply proposer_content_valid; eauto.
  - injection Hid as Hct. unfold check_content_semantic, check_data_availability. rewrite <- Hct.
    unfold check_proposer_block_exists.
    by rewrite (proj2 (contains_proposer_true s (parent (header b)))) by eauto.
  - change ((CVoter <$> vs) !! id = Some (content b)) in Hid.
    apply list_lookup_fmap_Some in Hid as (v & Hct & Hv). rewrite Hct.
    destruct (Hall _ _ Hv) as [(Hn & [l Hl] & Hch) (v' & Hv' & Hr & Hfa)]; [done|].
    rewrite <- Hn in Hch. by eapply voter_content_valid.
Qed.

(** The id of a content is its place in the list. *)
Lemma content_id_ok lp cs id x :
  contents_ok s lp false (λ _, True) cs → (0 ≤ id < voter_chains (config s) + 2)%Z →
  (voter_chains (config s) ≤ 65533)%Z → cs !! Z.to_nat id = Some x →
  match x with
  | CProposer _ => PROPOSER_INDEX
  | CTransaction _ => TRANSACTION_INDEX
  | CVoter v => u16 (chain_number v + FIRST_VOTER_INDEX)
  end = id.
Proof.
  intros (p & t & vs & -> & Hlen & _ & _ & Hall) Hid Hc Hx.
  destruct (Z.to_nat id) as [|[|k]] eqn:Ek.
  - injection Hx as <-. unfold PROPOSER_INDEX. lia.
  - injection Hx as <-. unfold TRANSACTION_INDEX. lia.
  - change ((CVoter <$> vs) !! k = Some x) in Hx.
    apply list_lookup_fmap_Some in Hx as (v & -> & Hv).
    destruct (Hall _ _ Hv) as [(Hn & _ & _) _]. rewrite Hn. unfold FIRST_VOTER_INDEX, u16.
    rewrite wrap_small; lia.
Qed.

Lemma produce_block_ok m :
  sortition_wf (config s) → miner_inv s m →
  content_merkle_root (mi_header m) = merkle_root (mi_tree m) →
  H256_ltb (hash (mi_header m)) (difficulty (mi_header m)) = true →
  ∃ b : Block, produce_block (config s) m (hash (mi_header m)) = Done b ∧
    header b = mi_header m ∧ content b ∈ mi_contents m ∧
    check_pow_sortition_id b (config s) = Done Pass ∧
    check_sortition_proof b (config s) = Done Pass ∧
    check_data_availability b s = Pass ∧
    check_content_semantic b s =
      Done (match content b with
            | CTransaction t => if check_signature_batch (transactions t) then Pass else WrongSignature
            | _ => Pass end).
Proof.
  intros Hwf [(lp & Hlp & Hok) Htree] Hroot Hlt. pose proof (wf_chains _ Hwf) as Hc.
  rewrite H256_ltb_Z in Hlt.
  destruct (proj2 (sortition_spec_pow _ _ _ Hwf (proj1 (h256_Z_bound _))) Hlt) as [id Hid].
  pose proof (sortition_spec_range _ _ _ id (proj1 Hc) Hid) as Hr.
  assert (length (mi_contents m) = S (S (Z.to_nat (voter_chains (config s))))) as Hlen.
  { destruct Hok as (p & t & vs & -> & Hl & _). cbn. by rewrite length_fmap, Hl. }
  destruct (lookup_lt_is_Some_2 (mi_contents m) (Z.to_nat id)) as [x Hx]; [lia|].
  destruct (merkle_proof_leaf (hash <$> mi_contents m) (Z.to_nat id) (hash x)) as [Hproof Hver].
  { by rewrite list_lookup_fmap, Hx. }
  rewrite length_fmap, Hlen in Hver.
  pose proof (content_id_ok _ _ _ _ Hok Hr ltac:(lia) Hx) as Hcid.
  exists (from_header (mi_header m) x (ref_path (Z.to_nat id) (hash <$> mi_contents m))).
  unfold produce_block, check_pow_sortition_id, check_sortition_proof.
  change (hash (from_header (mi_header m) x _)) with (hash (mi_header m)).
  change (header (from_header (mi_header m) x _)) with (mi_header m).
  cbn [content sortition_proof from_header].
  rewrite sortition_hash_spec, Hid by done. cbn [unwrap mbind outcome_bind].
  rewrite Hcid, Z.eqb_refl, Hroot, Htree, Hproof, Hx. cbn [unwrap mbind outcome_bind].
  replace (Z.to_nat (u16 (voter_chains (config s) + FIRST_VOTER_INDEX)))
    with (S (S (Z.to_nat (voter_chains (config s))))).
  2: { unfold u16, FIRST_VOTER_INDEX. rewrite wrap_small; lia. }
  rewrite Hver. cbn [mbind outcome_bind]. split_and!; try done.
  1: by eapply list_elem_of_lookup_2.
  all: by eapply (mined_content_valid (from_header (mi_header m) x _)).
Qed.
End Mined.
