(* ===== verification/Worker.v ===== *)
(** * The network worker and the ledger manager

    [src/src/network/worker.rs], [src/src/network/message.rs] and
    [src/src/ledger_manager/mod.rs].  A worker takes one message of a peer, and returns the
    new state of the node with the messages it sends.  Decoding a message is bincode's. *)

From Stdlib Require String.
From S2P Require Import Prelude Hash Float Transaction Mempool Config Block Buffer BlockDb Store.
From S2P Require Import Chain Miner Validation Leader Ledger.

Inductive Message :=
| Ping (nonce : String.string)
| Pong (nonce : String.string)
| NewBlockHashes (hashes : list H256)
| GetBlocks (hashes : list H256)
| Blocks (encoded_blocks : list (list byte))
| NewTransactionHashes (hashes : list H256)
| GetTransactions (hashes : list H256)
| Transactions (transactions : list Transaction)
| Bootstrap (after : H256).

(** What a worker sends: to the peer, to all peers, and to the miner. *)
Inductive Output :=
| Write (m : Message)
| Broadcast (m : Message)
| Notify (sig : ContextUpdateSignal).

(** bincode on messages. *)
Class BincodeMessage := { decode_message : list byte → option Message }.

(** The part of [Context] that changes. *)
Record Shared := mkShared {
  sh_node : Node;
  sh_buffer : BlockBuffer;
  recent_blocks : gset H256;
  requested_blocks : gset H256;
}.

Definition set_requested (r : gset H256) (sh : Shared) : Shared :=
  mkShared (sh_node sh) (sh_buffer sh) (recent_blocks sh) r.
Definition set_recent (r : gset H256) (sh : Shared) : Shared :=
  mkShared (sh_node sh) (sh_buffer sh) r (requested_blocks sh).
Definition set_mempool (p : MemoryPool) (sh : Shared) : Shared :=
  mkShared (mkNode (node_chain (sh_node sh)) p (node_blockdb (sh_node sh)))
    (sh_buffer sh) (recent_blocks sh) (requested_blocks sh).
Definition set_blockdb (db : BlockDatabase) (sh : Shared) : Shared :=
  mkShared (mkNode (node_chain (sh_node sh)) (node_mempool (sh_node sh)) db)
    (sh_buffer sh) (recent_blocks sh) (requested_blocks sh).

(** [worker::new]. *)
Definition worker_new (node : Node) : Shared := mkShared node BlockBuffer_new ∅ ∅.

(** [Vec::dedup]. *)
Fixpoint dedup (l : list H256) : list H256 :=
  match l with
  | x :: ((y :: _) as l') => if decide (x = y) then dedup l' else x :: dedup l'
  | _ => l
  end.

Section Worker.
Context `{Keccak, BincodeHeader, BincodeBlock, BigUint, HashOrder, Rlp, PublicKeyCrypto}.
Context (config : BlockchainConfig).

(** Taking in a block, in the pieces that other workers can come between: it is registered
    as being processed unless another worker has it, looked up in the database, stored,
    and released. *)
Definition register (h : H256) (sh : Shared) : option Shared :=
  if decide (h ∈ recent_blocks sh) then None
  else Some (set_recent ({[h]} ∪ recent_blocks sh) sh).
Definition is_stored (h : H256) (sh : Shared) : bool :=
  blockdb_contains (node_blockdb (sh_node sh)) h.
Definition store_block (h : H256) (encoded_block : list byte) (sh : Shared) : Shared :=
  set_blockdb (blockdb_insert_encoded (node_blockdb (sh_node sh)) h encoded_block).1 sh.
Definition release (h : H256) (sh : Shared) : Shared :=
  set_recent (set_remove h (recent_blocks sh)) sh.

(** Lines 166-222: take in one encoded block, unless its proof of work fails, it is being
    processed, or it is in the database. *)
Definition admit_block (acc : Shared * list Block) (encoded_block : list byte) :
    Outcome (Shared * list Block) :=
  let '(sh, blocks) := acc in
  block ← unwrap (deserialize encoded_block);
  let h := hash block in
  let sh := set_requested (set_remove h (requested_blocks sh)) sh in
  pow_check ← check_pow_sortition_id block config;
  match pow_check with
  | Pass =>
      match register h sh with
      | None => Done (sh, blocks)
      | Some sh =>
          if is_stored h sh then Done (release h sh, blocks)
          else Done (release h (store_block h encoded_block sh), blocks ++ [block])
      end
  | _ => Done (sh, blocks)
  end.

(** What becomes of a block: it waits, it is dropped, or it is inserted. *)
Inductive Processed :=
| Waits (missing : list H256)
| Dropped (reason : BlockResult)
| Inserted (sig : ContextUpdateSignal) (resolved : list Block).

(** Lines 241-315: the body of the loop over [to_process]. *)
Definition process_block (sh : Shared) (block : Block) : Outcome (Shared * Processed) :=
  let node := sh_node sh in
  match check_data_availability block (node_chain node) with
  | Pass =>
      sortition_proof ← check_sortition_proof block config;
      match sortition_proof with
      | Pass =>
          content_semantic ← check_content_semantic block (node_chain node);
          match content_semantic with
          | Pass =>
              '(pool, chain) ← new_validated_block block (node_mempool node) (node_chain node);
              '(buffer, resolved_by_current) ← satisfy (sh_buffer sh) (hash block);
              Done (mkShared (mkNode chain pool (node_blockdb node)) buffer
                      (recent_blocks sh) (requested_blocks sh),
                    Inserted (context_signal (content block)) resolved_by_current)
          | r => Done (sh, Dropped r)
          end
      | r => Done (sh, Dropped r)
      end
  | MissingReferences r =>
      Done (mkShared node (buffer_insert (sh_buffer sh) block r)
              (recent_blocks sh) (requested_blocks sh), Waits r)
  | _ => Panic
  end.

(** The vectors [to_request] and [context_update_sig]. *)
Record Pending := mkPending {
  to_request : list H256;
  context_update_sig : list ContextUpdateSignal;
}.

(** The loop; [to_process] has its last element first. *)
Fixpoint process_blocks (fuel : nat) (sh : Shared) (to_process : list Block) (p : Pending) :
    Outcome (Shared * Pending) :=
  match to_process with
  | [] => Done (sh, p)
  | block :: to_process =>
      match fuel with
      | O => Panic
      | S fuel =>
          '(sh, r) ← process_block sh block;
          match r with
          | Waits missing =>
              process_blocks fuel sh to_process
                (mkPending (to_request p ++ missing) (context_update_sig p))
          | Dropped _ => process_blocks fuel sh to_process p
          | Inserted sig resolved =>
              process_blocks fuel sh (rev resolved ++ to_process)
                (mkPending (to_request p) (context_update_sig p ++ [sig]))
          end
      end
  end.

Definition handle_blocks (fuel : nat) (sh : Shared) (encoded_blocks : list (list byte)) :
    Outcome (Shared * list Output) :=
  '(sh, blocks) ← foldM admit_block (sh, []) encoded_blocks;
  match blocks with
  | [] => Done (sh, [])
  | _ =>
      '(sh, p) ← process_blocks fuel sh (rev blocks) (mkPending [] []);
      Done (sh, [Broadcast (NewBlockHashes (hash <$> blocks))] ++
                (Notify <$> context_update_sig p) ++
                match to_request p with
                | [] => []
                | _ => [Write (GetBlocks (dedup (H256_sort (to_request p))))]
                end)
  end.

(** The body of [worker_loop] on a decoded message. *)
Definition handle_message (fuel : nat) (sh : Shared) (msg : Message) :
    Outcome (Shared * list Output) :=
  let mempool := node_mempool (sh_node sh) in
  let blockdb := node_blockdb (sh_node sh) in
  match msg with
  | Ping nonce => Done (sh, [Write (Pong nonce)])
  | Pong _ => Done (sh, [])
  | NewTransactionHashes hashes =>
      let hashes_to_request := filter (λ h, pool_contains mempool h = false) hashes in
      Done (sh, match hashes_to_request with
                | [] => [] | _ => [Write (GetTransactions hashes_to_request)] end)
  | GetTransactions hashes =>
      Done (sh, [Write (Transactions
        (omap (λ h, entry_transaction <$> pool_get mempool h) hashes))])
  | Transactions transactions =>
      Done (set_mempool (foldl (λ p tx, new_transaction tx p) mempool transactions) sh, [])
  | NewBlockHashes hashes =>
      let hashes_to_request := filter (λ h,
        blockdb_contains blockdb h = false ∧ h ∉ requested_blocks sh) hashes in
      let sh := set_requested (foldl (λ r h, {[h]} ∪ r) (requested_blocks sh)
                                 hashes_to_request) sh in
      Done (sh, match hashes_to_request with
                | [] => [] | _ => [Write (GetBlocks hashes_to_request)] end)
  | GetBlocks hashes =>
      Done (sh, [Write (Blocks (omap (blockdb_get_encoded blockdb) hashes))])
  | Blocks encoded_blocks => handle_blocks fuel sh encoded_blocks
  | Bootstrap _ => Done (sh, [])
  end.

(** One turn of [worker_loop]. *)
Definition worker_turn `{BincodeMessage} (fuel : nat) (sh : Shared) (msg : list byte) :
    Outcome (Shared * list Output) :=
  msg ← unwrap (decode_message msg);
  handle_message fuel sh msg.
End Worker.

(** ** The ledger manager *)

Section LedgerManager.
Context `{PoissonDist, BincodeBlock}.

(** [update_transaction_sequence]: the transactions it sends to execution. *)
Definition update_transaction_sequence (fuel : nat) (blockdb : BlockDatabase)
    (chain : BlockChain) : Outcome (BlockChain * list (list Transaction)) :=
  '(chain, diff) ← update_ledger fuel chain;
  sent ← foldM (λ sent h,
      block ← blockdb_get blockdb h;
      block ← unwrap block;
      if decide (extra_content (header block) = LAZY_ANNOTATION) then Done sent
      else match content block with
           | CTransaction data => Done (sent ++ [transactions data])
           | _ => Panic
           end) [] diff.1;
  Done (chain, sent).
End LedgerManager.
