(* ===== verification/Peer.v ===== *)
(** * Message framing on a connection

    [src/src/network/peer.rs]: a message is sent as its length, four bytes in big endian
    order, followed by its bytes.  [ReadContext] takes messages from the socket, whatever
    the portions in which the bytes arrive; [WriteContext] puts the messages of a queue on
    the socket, whatever the portions the socket accepts.

    The buffered reader and writer of the standard library are modelled by what a call can
    return.  The bytes that arrive, and how much the socket takes, are given as a list of
    events; when the list is used up the socket blocks. *)

From S2P Require Import Prelude Hash.

(** [std::io::Result]; [WouldBlock] is the error kind the callers tell apart. *)
Inductive IoResult (A : Type) :=
| IoOk (a : A)
| WouldBlock
| IoErr.
Arguments IoOk {A} a.
Arguments WouldBlock {A}.
Arguments IoErr {A}.

(** ** Reading *)

(** The outcome of a read from the socket; [Data []] is the end of the stream. *)
Inductive SocketEvent :=
| Data (bs : list byte)
| Blocked
| Broken.

(** [BufReader<TcpStream>]. *)
Record Reader := mkReader {
  buffered : list byte;
  arriving : list SocketEvent;
}.

(** [BufReader::read] into a buffer of [n] bytes: it reads from the socket only when its own
    buffer is empty, also when [n] is zero. *)
Definition reader_read (n : nat) (r : Reader) : IoResult (list byte) * Reader :=
  match buffered r with
  | [] =>
      match arriving r with
      | [] => (WouldBlock, r)
      | Data bs :: evs => (IoOk (take n bs), mkReader (drop n bs) evs)
      | Blocked :: evs => (WouldBlock, mkReader [] evs)
      | Broken :: evs => (IoErr, mkReader [] evs)
      end
  | bs => (IoOk (take n bs), mkReader (drop n bs) (arriving r))
  end.

Inductive DecodeState := DecodeLength | DecodePayload.

Inductive ReadResult :=
| Continue
| ReadMessage (m : list byte)
| ReadEOF.

Record ReadContext := mkReadContext {
  reader : Reader;
  buffer : list byte;
  msg_length : nat;
  read_length : nat;
  decode_state : DecodeState;
}.

Definition read_context_new (r : Reader) : ReadContext :=
  mkReadContext r (replicate 4 "000"%byte) 4 0 DecodeLength.

(** The bytes [bs] were read: move the cursor, and process the buffer when it is filled. *)
Definition advance (self : ReadContext) (bs : list byte) : Outcome (ReadResult * ReadContext) :=
  let buffer := take (read_length self) (buffer self) ++ bs ++
                drop (read_length self + length bs) (buffer self) in
  let read_length := read_length self + length bs in
  if read_length =? msg_length self then
    match decode_state self with
    | DecodeLength =>
        if length buffer <? 4 then Panic
        else
          let message_length := from_be_bytes (take 4 buffer) in
          let msg_length := Z.to_nat message_length in
          let buffer := if length buffer <? msg_length
                        then resize msg_length "000"%byte buffer else buffer in
          Done (Continue, mkReadContext (reader self) buffer msg_length 0 DecodePayload)
    | DecodePayload =>
        let new_payload := take (msg_length self) buffer in
        Done (ReadMessage new_payload, mkReadContext (reader self) buffer 4 0 DecodeLength)
    end
  else Done (Continue, mkReadContext (reader self) buffer (msg_length self) read_length
                         (decode_state self)).

Definition set_reader (r : Reader) (c : ReadContext) : ReadContext :=
  mkReadContext r (buffer c) (msg_length c) (read_length c) (decode_state c).

(** [ReadContext::read]; the slice of the buffer panics when it is out of range. *)
Definition read (self : ReadContext) : Outcome (IoResult ReadResult * ReadContext) :=
  if (msg_length self <? read_length self) || (length (buffer self) <? msg_length self)
  then Panic
  else
    let '(bytes_read, reader) :=
      reader_read (msg_length self - read_length self) (reader self) in
    let self := set_reader reader self in
    match bytes_read with
    | IoOk [] => Done (IoOk ReadEOF, self)
    | IoOk bs => '(r, self) ← advance self bs; Done (IoOk r, self)
    | WouldBlock => Done (WouldBlock, self)
    | IoErr => Done (IoErr, self)
    end.

(** ** Writing *)

(** The outcome of a call on the socket: it takes at most [n] bytes, or it has no room, or
    it fails. *)
Inductive WriteEvent :=
| Accepts (n : nat)
| Full
| Failed.

(** [BufWriter<TcpStream>]: the bytes it has taken, those of them that are known to be on the
    socket, and the outcomes of the calls to come. *)
Record Writer := mkWriter {
  accepted_bytes : list byte;
  flushed_bytes : list byte;
  outcomes : list WriteEvent;
}.

Definition writer_write (bs : list byte) (w : Writer) : IoResult nat * Writer :=
  match outcomes w with
  | [] => (WouldBlock, w)
  | Accepts n :: evs =>
      (IoOk (length (take n bs)),
       mkWriter (accepted_bytes w ++ take n bs) (flushed_bytes w) evs)
  | Full :: evs => (WouldBlock, mkWriter (accepted_bytes w) (flushed_bytes w) evs)
  | Failed :: evs => (IoErr, mkWriter (accepted_bytes w) (flushed_bytes w) evs)
  end.

Definition writer_flush (w : Writer) : IoResult unit * Writer :=
  match outcomes w with
  | [] => (WouldBlock, w)
  | Accepts _ :: evs => (IoOk tt, mkWriter (accepted_bytes w) (accepted_bytes w) evs)
  | Full :: evs => (WouldBlock, mkWriter (accepted_bytes w) (flushed_bytes w) evs)
  | Failed :: evs => (IoErr, mkWriter (accepted_bytes w) (flushed_bytes w) evs)
  end.

(** The queue of messages to send; it is disconnected when all its senders are dropped. *)
Record Queue := mkQueue {
  waiting : list (list byte);
  connected : bool;
}.

Inductive WriteResult := Complete | WriteEOF | ChanClosed.
Inductive WriteState := WriteLength | WritePayload.

Record WriteContext := mkWriteContext {
  writer : Writer;
  queue : Queue;
  len_buffer : list byte;
  msg_buffer : list byte;
  write_length : nat;
  written_length : nat;
  write_state : WriteState;
}.

Definition write_context_new (w : Writer) : WriteContext :=
  mkWriteContext w (mkQueue [] true) (replicate 4 "000"%byte) [] 0 0 WritePayload.

(** Send the bytes [bs], the rest of the length or of the payload: the next context, and the
    result if [write] returns. *)
Definition write_part (self : WriteContext) (bs : list byte) :
    WriteContext * option (IoResult WriteResult) :=
  let 'mkWriteContext w q lb mb ml wl st := self in
  let '(written, w) := writer_write bs w in
  let self := mkWriteContext w q lb mb ml wl st in
  match written with
  | IoOk 0 => (self, Some (IoOk WriteEOF))
  | IoOk written => (mkWriteContext w q lb mb ml (wl + written) st, None)
  | WouldBlock => (self, Some WouldBlock)
  | IoErr => (self, Some IoErr)
  end.

(** Flush, and take the next message from the queue. *)
Definition next_message (self : WriteContext) : WriteContext * option (IoResult WriteResult) :=
  let 'mkWriteContext w q lb mb ml wl st := self in
  let '(flushed, w) := writer_flush w in
  let self := mkWriteContext w q lb mb ml wl st in
  match flushed with
  | IoOk _ =>
      match waiting q with
      | [] => (self, Some (IoOk (if connected q then Complete else ChanClosed)))
      | msg :: rest =>
          let ml := length msg in
          let lb := to_be_bytes 4 (u32 (Z.of_nat ml)) ++ drop 4 lb in
          (mkWriteContext w (mkQueue rest (connected q)) lb msg ml 0 WriteLength, None)
      end
  | WouldBlock => (self, Some WouldBlock)
  | IoErr => (self, Some IoErr)
  end.

(** One turn of the loop of [write]. *)
Definition write_turn (self : WriteContext) :
    Outcome (WriteContext * option (IoResult WriteResult)) :=
  let 'mkWriteContext w q lb mb ml wl st := self in
  match st with
  | WriteLength =>
      if wl =? 4 then Done (mkWriteContext w q lb mb ml 0 WritePayload, None)
      else if (4 <? wl) || (length lb <? 4) then Panic
      else Done (write_part self (take (4 - wl) (drop wl lb)))
  | WritePayload =>
      if wl =? ml then Done (next_message self)
      else if (ml <? wl) || (length mb <? ml) then Panic
      else Done (write_part self (take (ml - wl) (drop wl mb)))
  end.

Fixpoint write (fuel : nat) (self : WriteContext) :
    Outcome (IoResult WriteResult * WriteContext) :=
  match fuel with
  | O => Panic
  | S fuel =>
      '(self, ret) ← write_turn self;
      match ret with
      | Some r => Done (r, self)
      | None => write fuel self
      end
  end.

(** [Handle::write] on the encoded message.  The senders of the queue are the handles; a
    message for a queue whose receiver is gone is lost with a warning. *)
Definition handle_write (msg : list byte) (self : WriteContext) : WriteContext :=
  mkWriteContext (writer self) (mkQueue (waiting (queue self) ++ [msg]) (connected (queue self)))
    (len_buffer self) (msg_buffer self) (write_length self) (written_length self)
    (write_state self).

(** ** Peers *)

Inductive Direction := Incoming | Outgoing.

(** [peer::Context], without the address and the streams; [writer] has its queue. *)
Record PeerContext := mkPeer {
  peer_reader : ReadContext;
  peer_writer : WriteContext;
  direction : Direction;
}.

(** [peer::new] on a stream, given by what will arrive on it and what it will take. *)
Definition peer_new (evs : list SocketEvent) (outs : list WriteEvent) (d : Direction) :
    PeerContext :=
  mkPeer (read_context_new (mkReader [] evs)) (write_context_new (mkWriter [] [] outs)) d.

(** ** What the reader promises

    The reference is an automaton that takes the bytes one by one: it has part of a length,
    or part of a message, or it has given up, because a message of length zero was announced
    and a byte follows. *)
Inductive Decoder :=
| Header (bs : list byte)
| Body (n : nat) (bs : list byte)
| Dropped.

Definition feed (d : Decoder) (b : byte) : Decoder * list (list byte) :=
  match d with
  | Header bs =>
      let bs := bs ++ [b] in
      if length bs =? 4 then (Body (Z.to_nat (from_be_bytes bs)) [], []) else (Header bs, [])
  | Body n bs =>
      if n =? 0 then (Dropped, [])
      else
        let bs := bs ++ [b] in
        if length bs =? n then (Header [], [bs]) else (Body n bs, [])
  | Dropped => (Dropped, [])
  end.

Fixpoint feed_all (d : Decoder) (bs : list byte) : Decoder * list (list byte) :=
  match bs with
  | [] => (d, [])
  | b :: bs =>
      let '(d, out) := feed d b in
      let '(d, out') := feed_all d bs in (d, out ++ out')
  end.

(** The bytes of a message on the wire. *)
Definition frame (m : list byte) : list byte :=
  to_be_bytes 4 (u32 (Z.of_nat (length m))) ++ m.
Definition frames (ms : list (list byte)) : list byte := mjoin (frame <$> ms).

(** The messages a frame carries: not empty, and of a length that fits in four bytes. *)
Definition sendable (m : list byte) : Prop :=
  m ≠ [] ∧ (Z.of_nat (length m) < 2 ^ 32)%Z.

Lemma feed_all_app d bs1 bs2 d1 out1 d2 out2 :
  feed_all d bs1 = (d1, out1) → feed_all d1 bs2 = (d2, out2) →
  feed_all d (bs1 ++ bs2) = (d2, out1 ++ out2).
Proof.
  revert d out1. induction bs1 as [|b bs1 IH]; intros d out1 E1 E2; cbn in *.
  - by simplify_eq.
  - destruct (feed d b) as [d' o]. destruct (feed_all d' bs1) as [d'' o'] eqn:E.
    simplify_eq. by rewrite (IH d' o' E E2), app_assoc.
Qed.

Lemma feed_all_dropped bs : feed_all Dropped bs = (Dropped, []).
Proof. induction bs as [|b bs IH]; cbn; [done|]. by rewrite IH. Qed.

Lemma feed_header bs h :
  length h + length bs < 4 → feed_all (Header h) bs = (Header (h ++ bs), []).
Proof.
  revert h. induction bs as [|b bs IH]; intros h Hl; cbn in *; [by rewrite app_nil_r|].
  rewrite length_app. cbn. destruct (Nat.eqb_spec (length h + 1) 4); [lia|].
  rewrite IH by (rewrite length_app; cbn; lia). by rewrite <- app_assoc.
Qed.

Lemma feed_header_full bs h :
  bs ≠ [] → length h + length bs = 4 →
  feed_all (Header h) bs = (Body (Z.to_nat (from_be_bytes (h ++ bs))) [], []).
Proof.
  intros Hne Hl. destruct bs as [|b bs _] using rev_ind; [done|].
  rewrite length_app in Hl. cbn in Hl.
  eapply (feed_all_app _ bs [b] _ [] _ []); [apply feed_header; lia|].
  cbn. rewrite !length_app. cbn. destruct (Nat.eqb_spec (length h + length bs + 1) 4); [|lia].
  by rewrite <- app_assoc.
Qed.

Lemma feed_body n bs p :
  length p + length bs < n → feed_all (Body n p) bs = (Body n (p ++ bs), []).
Proof.
  revert p. induction bs as [|b bs IH]; intros p Hl; cbn in *; [by rewrite app_nil_r|].
  destruct (Nat.eqb_spec n 0); [lia|]. rewrite length_app. cbn.
  destruct (Nat.eqb_spec (length p + 1) n); [lia|].
  rewrite IH by (rewrite length_app; cbn; lia). by rewrite <- app_assoc.
Qed.

Lemma feed_body_full n bs p :
  bs ≠ [] → length p + length bs = n → feed_all (Body n p) bs = (Header [], [p ++ bs]).
Proof.
  intros Hne Hl. destruct bs as [|b bs _] using rev_ind; [done|].
  rewrite length_app in Hl. cbn in Hl.
  eapply (feed_all_app _ bs [b] _ [] _ [_]); [apply feed_body; lia|].
  cbn. destruct (Nat.eqb_spec n 0); [lia|]. rewrite !length_app. cbn.
  destruct (Nat.eqb_spec (length p + length bs + 1) n); [|lia].
  by rewrite <- app_assoc.
Qed.

Lemma feed_frame m : sendable m → feed_all (Header []) (frame m) = (Header [], [m]).
Proof.
  intros [Hne Hl]. unfold frame. rewrite u32_small by lia.
  eapply (feed_all_app _ _ _ _ [] _ [_]).
  - apply feed_header_full; [|by rewrite length_to_be_bytes].
    intros E. by apply (f_equal length) in E.
  - cbn [app]. rewrite from_to_be_bytes, Z.mod_small by lia. rewrite Nat2Z.id.
    by apply feed_body_full.
Qed.

(** The automaton takes a sequence of frames apart into the messages. *)
Lemma feed_frames ms :
  Forall sendable ms → feed_all (Header []) (frames ms) = (Header [], ms).
Proof.
  induction 1 as [|m ms Hm Hms IH]; [done|]. unfold frames. cbn.
  exact (feed_all_app _ _ _ _ [m] _ ms (feed_frame m Hm) IH).
Qed.

(** The reader's state as a state of the automaton. *)
Definition decoder (c : ReadContext) : Decoder :=
  match decode_state c with
  | DecodeLength => Header (take (read_length c) (buffer c))
  | DecodePayload => Body (msg_length c) (take (read_length c) (buffer c))
  end.

Record read_inv (c : ReadContext) : Prop := {
  ri_buffer : msg_length c ≤ length (buffer c);
  ri_four : 4 ≤ length (buffer c);
  ri_bound : (Z.of_nat (length (buffer c)) < 2 ^ 32)%Z;
  ri_cursor : read_length c < msg_length c ∨
    (msg_length c = 0 ∧ read_length c = 0 ∧ decode_state c = DecodePayload);
  ri_state : decode_state c = DecodeLength → msg_length c = 4;
}.

Lemma read_inv_new r : read_inv (read_context_new r).
Proof. split; cbn; auto; lia. Qed.

(** The bytes a reader has still to deliver, and a bound on the number of reads. *)
Definition event_data (e : SocketEvent) : list byte :=
  match e with Data bs => bs | _ => [] end.
Definition incoming (r : Reader) : list byte := buffered r ++ mjoin (event_data <$> arriving r).
Definition reads_left (r : Reader) : nat := length (incoming r) + length (arriving r).

Lemma reader_read_spec n r :
  let '(res, r') := reader_read n r in
  arriving r' `suffix_of` arriving r ∧
  match res with
  | IoOk [] => (n = 0 ∧ incoming r ≠ []) ∨ Data [] ∈ arriving r
  | IoOk bs => length bs ≤ n ∧ incoming r = bs ++ incoming r' ∧ reads_left r' < reads_left r
  | WouldBlock => (r' = r ∧ incoming r = []) ∨ Blocked ∈ arriving r
  | IoErr => Broken ∈ arriving r
  end.
Proof.
  assert (∀ bs evs, bs ≠ [] →
    match take n bs with
    | [] => n = 0
    | bs' => length bs' ≤ n ∧ incoming (mkReader bs evs) = bs' ++ incoming (mkReader (drop n bs) evs) ∧
        length (incoming (mkReader (drop n bs) evs)) < length (incoming (mkReader bs evs))
    end) as Htake.
  { intros bs evs Hne. destruct (take n bs) as [|b l] eqn:E.
    - destruct n; [done|]. by destruct bs.
    - rewrite <- E. split; [rewrite length_take; lia|].
      unfold incoming. cbn [buffered arriving]. rewrite app_assoc, take_drop. split; [done|].
      rewrite !length_app, length_drop. apply (f_equal length) in E.
      rewrite length_take in E. cbn in E. lia. }
  unfold reader_read, reads_left. destruct r as [[|b buf] evs]; cbn [buffered arriving].
  - destruct evs as [|[bs| |] evs]; cbn [arriving length].
    + split; [done|]. by left.
    + split; [by exists [Data bs]|]. destruct bs as [|b bs].
      { rewrite take_nil. right. apply list_elem_of_here. }
      change (incoming (mkReader [] (Data (b :: bs) :: evs)))
        with (incoming (mkReader (b :: bs) evs)).
      specialize (Htake (b :: bs) evs).
      destruct (take n (b :: bs)); [left; split; [by apply Htake|done]|].
      destruct Htake as (? & E & ?); [done|]. split_and!; [done..|lia].
    + split; [by exists [Blocked]|]. right. apply list_elem_of_here.
    + split; [by exists [Broken]|]. apply list_elem_of_here.
  - split; [done|]. specialize (Htake (b :: buf) evs).
    destruct (take n (b :: buf)); [left; split; [by apply Htake|done]|].
    destruct Htake as (? & E & ?); [done|]. split_and!; [done..|lia].
Qed.

(** Bytes copied into a slice of the buffer. *)
Definition fill (rl : nat) (bs buf : list byte) : list byte :=
  take rl buf ++ bs ++ drop (rl + length bs) buf.

Lemma length_fill rl bs buf : rl + length bs ≤ length buf → length (fill rl bs buf) = length buf.
Proof. intros. unfold fill. rewrite !length_app, length_take, length_drop. lia. Qed.

Lemma take_fill rl bs buf :
  rl + length bs ≤ length buf → take (rl + length bs) (fill rl bs buf) = take rl buf ++ bs.
Proof.
  intros. unfold fill. rewrite app_assoc. apply take_app_length'.
  rewrite length_app, length_take. lia.
Qed.

(** The buffer after the length of a message is known. *)
Lemma read_inv_header r buf n :
  4 ≤ length buf → (Z.of_nat (length buf) < 2 ^ 32)%Z → (0 ≤ n < 2 ^ 32)%Z →
  let m := Z.to_nat n in
  read_inv (mkReadContext r (if length buf <? m then resize m "000"%byte buf else buf) m 0
              DecodePayload).
Proof.
  intros H4 Hb Hn m. subst m. set (m := Z.to_nat n).
  destruct (Nat.ltb_spec (length buf) m); split; cbn; rewrite ?length_resize; try done;
    try lia; destruct (decide (m = 0)); auto with lia.
Qed.

(** Bytes that fit in the slice move the automaton. *)
Lemma advance_ok c bs :
  read_inv c → bs ≠ [] → read_length c + length bs ≤ msg_length c →
  ∃ res c', advance c bs = Done (res, c') ∧ read_inv c' ∧ reader c' = reader c ∧
    match res with
    | Continue => feed_all (decoder c) bs = (decoder c', [])
    | ReadMessage m => feed_all (decoder c) bs = (decoder c', [m])
    | ReadEOF => False
    end.
Proof.
  intros [H1 H2 H3 H4 H5] Hne Hl. destruct c as [r buf ml rl st]; cbn in *.
  assert (0 < length bs) by (destruct bs; cbn in *; [done|lia]).
  pose proof (length_fill rl bs buf ltac:(lia)) as Hf.
  pose proof (take_fill rl bs buf ltac:(lia)) as Ht.
  assert (length (take rl buf) = rl) as Hrl by (rewrite length_take; lia).
  unfold advance, decoder. cbn [decode_state buffer read_length msg_length reader].
  fold (fill rl bs buf). destruct (Nat.eqb_spec (rl + length bs) ml) as [Hfull|Hfull].
  - rewrite Hfull in Ht. destruct st.
    + rewrite (H5 eq_refl) in *. rewrite (proj2 (Nat.ltb_ge _ _)) by lia. rewrite Ht.
      eexists _, _. split; [done|]. split; [|split; [done|]].
      * apply read_inv_header; [lia..|]. pose proof (from_be_bytes_bound (take rl buf ++ bs)).
        by rewrite length_app, Hrl, Hfull in *.
      * cbn. rewrite take_0. apply feed_header_full; [done|lia].
    + rewrite Ht. eexists _, _. split; [done|]. split; [|split; [done|]].
      * split; cbn; auto; lia.
      * cbn. apply feed_body_full; [done|lia].
  - eexists _, _. split; [done|]. split; [|split; [done|]].
    + split; cbn; auto; lia.
    + cbn. destruct st; rewrite Ht; [apply feed_header|apply feed_body]; [|lia].
      rewrite (H5 eq_refl) in *. lia.
Qed.

Lemma read_inv_set_reader r c : read_inv c → read_inv (set_reader r c).
Proof. by intros []. Qed.

(** [read] as a step of the automaton on the bytes it takes from the socket. *)
Lemma read_ok c :
  read_inv c →
  ∃ res c', read c = Done (res, c') ∧ read_inv c' ∧
    arriving (reader c') `suffix_of` arriving (reader c) ∧
    let step out := ∃ bs, incoming (reader c) = bs ++ incoming (reader c') ∧
      feed_all (decoder c) bs = (decoder c', out) ∧
      reads_left (reader c') < reads_left (reader c) in
    match res with
    | IoOk Continue => step []
    | IoOk (ReadMessage m) => step [m]
    | IoOk ReadEOF =>
        (decoder c = Body 0 [] ∧ incoming (reader c) ≠ []) ∨ Data [] ∈ arriving (reader c)
    | WouldBlock => decoder c' = decoder c ∧
        ((reader c' = reader c ∧ incoming (reader c) = []) ∨ Blocked ∈ arriving (reader c))
    | IoErr => Broken ∈ arriving (reader c)
    end.
Proof.
  intros Hc. pose proof Hc as [H1 H2 H3 H4 H5]. unfold read.
  rewrite (proj2 (Nat.ltb_ge _ _)) by lia. rewrite (proj2 (Nat.ltb_ge _ _)) by lia. cbn [orb].
  pose proof (reader_read_spec (msg_length c - read_length c) (reader c)) as Hr.
  destruct (reader_read _ (reader c)) as [res r']. destruct Hr as [Hsuf Hr].
  pose proof (read_inv_set_reader r' c Hc) as Hc'. destruct res as [[|b bs]| |].
  - eexists _, _. do 3 (split; [done|]). destruct Hr as [[Hn Hi]|]; [left|by right].
    split; [|done]. unfold decoder. destruct H4 as [|(-> & -> & ->)]; [lia|done].
  - set (l := b :: bs) in *. assert (l ≠ []) as Hne by done. clearbody l.
    destruct Hr as (Hl & Hi & Hlt).
    destruct (advance_ok (set_reader r' c) l Hc' Hne) as (res & c' & -> & Hc'' & Hr & Hres);
      [cbn; lia|]. cbn in Hr. eexists _, _. split; [done|]. split; [done|]. rewrite Hr.
    split; [done|]. destruct res; [by exists l..|done].
  - eexists _, _. by repeat (split; [done|]).
  - eexists _, _. by repeat (split; [done|]).
Qed.

(** ** What the writer promises *)

#[local] Arguments to_be_bytes : simpl never.

(** The rest of the frame that is being sent. *)
Definition remaining (c : WriteContext) : list byte :=
  match write_state c with
  | WriteLength => drop (written_length c) (len_buffer c) ++ msg_buffer c
  | WritePayload => drop (written_length c) (msg_buffer c)
  end.

(** [all] are the messages that were queued since the connection was made: those taken from
    the queue are on the wire, but for the rest of the last frame. *)
Record write_inv (all : list (list byte)) (c : WriteContext) : Prop := {
  wi_len : length (len_buffer c) = 4;
  wi_msg : write_length c = length (msg_buffer c);
  wi_cursor : written_length c ≤
    match write_state c with WriteLength => 4 | WritePayload => write_length c end;
  wi_bytes : ∃ done, all = done ++ waiting (queue c) ∧
    accepted_bytes (writer c) ++ remaining c = frames done;
  wi_flushed : flushed_bytes (writer c) `prefix_of` accepted_bytes (writer c);
}.

Definition turns_left (c : WriteContext) : nat :=
  2 * length (outcomes (writer c)) + match write_state c with WriteLength => 1 | _ => 0 end.

Lemma write_inv_new evs : write_inv [] (write_context_new (mkWriter [] [] evs)).
Proof. split; cbn; [done..| |done]. by exists []. Qed.

Lemma handle_write_inv all m c : write_inv all c → write_inv (all ++ [m]) (handle_write m c).
Proof.
  intros [H1 H2 H3 (d & -> & Hb) H5]. split; cbn; [done..| |done].
  exists d. by rewrite app_assoc.
Qed.

Lemma frames_snoc ms m : frames (ms ++ [m]) = frames ms ++ frame m.
Proof. unfold frames. rewrite fmap_app, join_app. cbn. by rewrite app_nil_r. Qed.

Lemma prefix_frames ms ms' : ms `prefix_of` ms' → frames ms `prefix_of` frames ms'.
Proof.
  intros [k ->]. unfold frames. rewrite fmap_app, join_app. apply prefix_app_r. done.
Qed.

(** A write of part of a slice. *)
Lemma writer_write_spec bs w :
  let '(res, w') := writer_write bs w in
  flushed_bytes w' = flushed_bytes w ∧
  match res with
  | IoOk n => n ≤ length bs ∧ accepted_bytes w' = accepted_bytes w ++ take n bs ∧
      length (outcomes w') < length (outcomes w)
  | _ => accepted_bytes w' = accepted_bytes w
  end.
Proof.
  unfold writer_write. destruct (outcomes w) as [|[n| |] evs]; cbn; [done| |done..].
  rewrite length_take. split_and!; [done|lia| |lia]. f_equal.
  destruct (decide (n ≤ length bs)); [by rewrite Nat.min_l by lia|].
  by rewrite Nat.min_r, !take_ge by lia.
Qed.

Lemma writer_flush_spec w :
  let '(res, w') := writer_flush w in
  accepted_bytes w' = accepted_bytes w ∧
  match res with
  | IoOk _ => flushed_bytes w' = accepted_bytes w ∧ length (outcomes w') < length (outcomes w)
  | _ => flushed_bytes w' = flushed_bytes w
  end.
Proof. unfold writer_flush. by destruct (outcomes w) as [|[n| |] evs]; cbn; auto. Qed.

(** Sending [n] bytes of the current part of the frame keeps the invariant. *)
Lemma write_inv_sent all w w' q lb mb ml wl st n :
  write_inv all (mkWriteContext w q lb mb ml wl st) →
  let part := match st with WriteLength => lb | WritePayload => mb end in
  wl + n ≤ length part →
  flushed_bytes w' = flushed_bytes w →
  accepted_bytes w' = accepted_bytes w ++ take n (take (length part - wl) (drop wl part)) →
  write_inv all (mkWriteContext w' q lb mb ml (wl + n) st).
Proof.
  intros [H1 H2 H3 (d & Hd & Hb) H5] part Hn Hf Ha. cbn in *.
  rewrite take_ge with (n := length part - wl) in Ha by (rewrite length_drop; lia).
  assert (take n (drop wl part) ++ drop (wl + n) part = drop wl part) as Hpart.
  { rewrite <- drop_drop. apply take_drop. }
  split; cbn; [done..| | |].
  - destruct st; subst part; lia.
  - exists d. split; [done|]. rewrite <- Hb, Ha. unfold remaining. cbn.
    destruct st; subst part; rewrite <- app_assoc; f_equal; [|done].
    by rewrite app_assoc, Hpart.
  - rewrite Hf, Ha. by apply prefix_app_r.
Qed.

Definition write_done (c : WriteContext) : Prop :=
  waiting (queue c) = [] ∧ remaining c = [] ∧
  flushed_bytes (writer c) = accepted_bytes (writer c).

(** What a turn keeps, and what it reaches. *)
Definition turn_ok (all : list (list byte)) (c c' : WriteContext)
    (ret : option (IoResult WriteResult)) : Prop :=
  write_inv all c' ∧ connected (queue c') = connected (queue c) ∧
  match ret with
  | None => turns_left c' < turns_left c
  | Some (IoOk Complete) => connected (queue c) = true ∧ write_done c'
  | Some (IoOk ChanClosed) => connected (queue c) = false ∧ write_done c'
  | Some _ => True
  end.

Lemma write_part_ok all c :
  write_inv all c →
  let part := match write_state c with
              | WriteLength => len_buffer c | WritePayload => msg_buffer c end in
  let '(c', ret) := write_part c (take (length part - written_length c)
                                    (drop (written_length c) part)) in
  written_length c < length part → turn_ok all c c' ret.
Proof.
  intros Hc part. destruct c as [w q lb mb ml wl st]; cbn in part |- *.
  pose proof (writer_write_spec (take (length part - wl) (drop wl part)) w) as Hw.
  destruct (writer_write _ w) as [res w']. destruct Hw as [Hf Hw].
  assert (accepted_bytes w' = accepted_bytes w → wl < length part →
    write_inv all (mkWriteContext w' q lb mb ml wl st)) as Hsame.
  { intros Ha Hlt. rewrite <- (Nat.add_0_r wl). subst part.
    eapply write_inv_sent; [done|lia|done|]. by rewrite take_0, app_nil_r. }
  destruct res as [[|n]| |]; intros Hlt.
  - destruct Hw as (_ & Ha & _). rewrite take_0, app_nil_r in Ha.
    split; [by apply Hsame|done].
  - destruct Hw as (Hn & Ha & Hlt'). rewrite length_take, length_drop in Hn.
    split; [|split; [done|cbn in *; lia]].
    eapply write_inv_sent; [done|subst part; lia|done|done].
  - by split; [apply Hsame|].
  - by split; [apply Hsame|].
Qed.

Lemma next_message_ok all c :
  write_inv all c → write_state c = WritePayload → written_length c = write_length c →
  let '(c', ret) := next_message c in turn_ok all c c' ret.
Proof.
  intros [H1 H2 H3 (d & Hd & Hb) H5] Hst Hwl. destruct c as [w q lb mb ml wl st]; cbn in *.
  subst st. unfold remaining in Hb. cbn in Hb. rewrite drop_ge, app_nil_r in Hb by lia.
  assert (remaining (mkWriteContext w q lb mb ml wl WritePayload) = []) as Hrem.
  { unfold remaining. cbn. apply drop_ge. lia. }
  pose proof (writer_flush_spec w) as Hw. destruct (writer_flush w) as [res w'].
  destruct Hw as [Ha Hw]. destruct res as [u| |].
  - destruct Hw as [Hf Hlt]. destruct (waiting q) as [|m rest] eqn:Eq.
    + assert (write_done (mkWriteContext w' q lb mb ml wl WritePayload)) as Hdone.
      { split_and!; cbn; [done|done|congruence]. }
      split; [|split; [done|cbn; by destruct (connected q)]].
      split; cbn; [done..| |by rewrite Ha, Hf].
      exists d. split; [by rewrite Eq|]. unfold remaining in *. cbn in *.
      by rewrite Hrem, Ha, Hb, app_nil_r.
    + split; [|split; [done|cbn in *; lia]].
      split; cbn [len_buffer msg_buffer write_length written_length write_state writer queue
        waiting]; [|done|lia| |by rewrite Ha, Hf].
      * rewrite length_app, length_drop, length_to_be_bytes. lia.
      * exists (d ++ [m]). split; [by rewrite <- app_assoc|]. rewrite frames_snoc, Ha, Hb.
        unfold remaining. cbn [written_length write_state len_buffer msg_buffer].
        by rewrite drop_0, (drop_ge lb), app_nil_r by lia.
  - split; [|done]. split; cbn; [done..| |by rewrite Ha, Hw]. exists d. split; [done|].
    unfold remaining in *. cbn in *. by rewrite Hrem, Ha, Hb, app_nil_r.
  - split; [|done]. split; cbn; [done..| |by rewrite Ha, Hw]. exists d. split; [done|].
    unfold remaining in *. cbn in *. by rewrite Hrem, Ha, Hb, app_nil_r.
Qed.

Lemma write_turn_ok all c :
  write_inv all c → ∃ c' ret, write_turn c = Done (c', ret) ∧ turn_ok all c c' ret.
Proof.
  intros Hc. pose proof Hc as [H1 H2 H3 H4 H5].
  pose proof (write_part_ok all c Hc) as Hpart. pose proof (next_message_ok all c Hc) as Hnext.
  destruct c as [w q lb mb ml wl st]; cbn [write_turn write_state len_buffer msg_buffer
    written_length write_length] in *. destruct st.
  - destruct (Nat.eqb_spec wl 4) as [->|Hne].
    + eexists _, _. split; [done|]. split; [|split; [done|cbn; lia]].
      split; cbn; [done..|lia| |done]. destruct H4 as (d & Hd & Hb). exists d.
      split; [done|]. rewrite <- Hb. unfold remaining. cbn. by rewrite drop_0, (drop_ge lb) by lia.
    + rewrite (proj2 (Nat.ltb_ge _ _)), (proj2 (Nat.ltb_ge _ _)) by lia. cbn [orb].
      rewrite H1 in Hpart. destruct (write_part _ _) as [c' ret].
      eexists _, _. split; [done|]. apply Hpart. lia.
  - destruct (Nat.eqb_spec wl ml) as [->|Hne].
    + specialize (Hnext eq_refl eq_refl). destruct (next_message _) as [c' ret].
      by eexists _, _.
    + rewrite (proj2 (Nat.ltb_ge _ _)), (proj2 (Nat.ltb_ge _ _)) by lia. cbn [orb].
      rewrite <- H2 in Hpart. destruct (write_part _ _) as [c' ret].
      eexists _, _. split; [done|]. apply Hpart. lia.
Qed.

(** [write] returns, and keeps the invariant. *)
Lemma write_ok all c fuel :
  write_inv all c → turns_left c < fuel →
  ∃ r c', write fuel c = Done (r, c') ∧ write_inv all c' ∧
    connected (queue c') = connected (queue c) ∧
    match r with
    | IoOk Complete => connected (queue c) = true ∧ write_done c'
    | IoOk ChanClosed => connected (queue c) = false ∧ write_done c'
    | _ => True
    end.
Proof.
  revert c. induction fuel as [|fuel IH]; intros c Hc Hlt; [lia|]. cbn.
  destruct (write_turn_ok all c Hc) as (c' & ret & -> & Hc' & Hq & Hret). cbn.
  destruct ret as [r|]; [by eexists _, _|].
  destruct (IH c' Hc') as (r & c'' & -> & Hc'' & Hq' & Hr); [lia|].
  eexists _, _. split; [done|]. split; [done|]. rewrite <- Hq. done.
Qed.

(** When everything queued is written, the wire has exactly the frames of the messages. *)
Lemma write_done_frames all c :
  write_inv all c → write_done c → flushed_bytes (writer c) = frames all.
Proof.
  intros [H1 H2 H3 (d & -> & Hb) H5] (Hq & Hr & Hf).
  by rewrite Hf, Hq, app_nil_r, <- Hb, Hr, app_nil_r.
Qed.

Lemma write_inv_prefix all c :
  write_inv all c → flushed_bytes (writer c) `prefix_of` frames all.
Proof.
  intros [H1 H2 H3 (d & -> & Hb) H5].
  trans (frames d); [|apply prefix_frames; by apply prefix_app_r].
  trans (accepted_bytes (writer c)); [done|]. rewrite <- Hb. by apply prefix_app_r.
Qed.
