(* ===== verification/Server.v ===== *)
(** * The peer-to-peer server

    [src/src/network/server.rs]: the table of connections, the control signals, and the event
    loop.  The table is a slab, a container of the [slab] crate that chooses the key of a new
    entry; the choice is a parameter.  The poll of [mio] is an argument of the handlers: the
    events it reports, and whether its (re)registrations succeed.  So are the two channels the
    server sends on: whether the workers, and a thread that asked for a connection, still have
    their receiving ends. *)

From S2P Require Import Prelude Hash Worker Peer.

Definition MAX_INCOMING_CLIENT : nat := 256.

(** [slab::Slab]: the key of [vacant_entry] is the key of an entry that is not in use. *)
Class Slab := { vacant_key : gmap nat PeerContext → nat }.
Class SlabLaws `{Slab} := { vacant_key_fresh m : m !! vacant_key m = None }.

(** [bincode::serialize] on messages. *)
Class EncodeMessage := { encode_message : Message → list byte }.

(** [server::Context], the part that changes. *)
Record Server := mkServer {
  peers : gmap nat PeerContext;
  peer_list : list nat;
}.

Definition server_new : Server := mkServer ∅ [].

(** A TCP stream: what will arrive on it, and what it will take. *)
Definition Stream : Type := list SocketEvent * list WriteEvent.

Definition set_peer (id : nat) (p : PeerContext) (s : Server) : Server :=
  mkServer (<[id := p]> (peers s)) (peer_list s).

(** [Vec::swap_remove]. *)
Definition swap_remove (index : nat) (l : list nat) : Outcome (list nat) :=
  x ← unwrap (last l);
  if index <? length l then Done (take (length l - 1) (<[index := x]> l)) else Panic.

(** The removal of a connection, which the handlers repeat at each place. *)
Definition remove_peer (id : nat) (self : Server) : Outcome Server :=
  _ ← unwrap (peers self !! id);
  index ← unwrap (fst <$> list_find (λ x, x = id) (peer_list self));
  l ← swap_remove index (peer_list self);
  Done (mkServer (delete id (peers self)) l).

(** [waiting] tells whether the thread that asks for a connection still has the receiving end of
    [result_chan]. *)
Inductive ControlSignal :=
| ConnectNewPeer (stream : option Stream) (waiting : bool)
| BroadcastMessage (msg : Message).

(** [mio::Token]s of the two special events. *)
Definition INCOMING : Z := 2 ^ 64 - 2.
Definition CONTROL : Z := 2 ^ 64 - 3.

(** An event of the poll.  A [CONTROL] event comes with the signals in the channel, an
    [INCOMING] event with the connections to accept and whether the listener failed after
    them; any other token with the readiness of the socket. *)
Inductive Event :=
| ControlReadable (reqs : list ControlSignal)
| ListenerReadable (streams : list Stream) (failed : bool)
| TokenReady (token_id : Z) (is_readable is_writable : bool).

Section Server.
Context `{Slab} `{EncodeMessage}.

(** [Context::register]; [io] tells whether the poll accepts the registrations. *)
Definition register (stream : Stream) (d : Direction) (io : bool) (self : Server) :
    Server * Result nat () :=
  let key := vacant_key (peers self) in
  if MAX_INCOMING_CLIENT <=? key then (self, Err tt)
  else if negb io then (self, Err tt)
  else (mkServer (<[key := peer_new stream.1 stream.2 d]> (peers self))
          (peer_list self ++ [key]), Ok key).

(** [Context::connect]; [None] stands for an address that cannot be reached. *)
Definition connect (stream : option Stream) (io : bool) (self : Server) :
    Server * Result nat () :=
  match stream with
  | None => (self, Err tt)
  | Some stream => register stream Outgoing io self
  end.

(** [Context::accept]. *)
Definition accept (io : bool) (self : Server) (stream : Stream) : Server :=
  (register stream Incoming io self).1.

Definition process_control (io : bool) (self : Server) (req : ControlSignal) : Outcome Server :=
  match req with
  | ConnectNewPeer stream waiting =>
      let '(self, handle) := connect stream io self in
      if waiting then Done self else Panic
  | BroadcastMessage msg =>
      foldM (λ self id,
        peer ← unwrap (peers self !! id);
        Done (set_peer id (mkPeer (peer_reader peer)
                (handle_write (encode_message msg) (peer_writer peer)) (direction peer)) self))
        self (peer_list self)
  end.

(** [Context::register_write_interest]; the result tells whether it succeeds. *)
Definition register_write_interest (io : bool) (id : nat) (self : Server) : Outcome bool :=
  _ ← unwrap (peers self !! id);
  Done io.

(** The loop of [process_readable]: the reader, the messages it sends, and whether the
    connection is to be removed.  [workers] tells whether there are workers to send to: the
    result of [new_msg_chan.send] is unwrapped. *)
Fixpoint read_loop (workers : bool) (fuel : nat) (c : ReadContext) :
    Outcome (ReadContext * list (list byte) * bool) :=
  match fuel with
  | O => Panic
  | S fuel =>
      '(res, c) ← read c;
      match res with
      | IoOk ReadEOF => Done (c, [], true)
      | IoOk Continue => read_loop workers fuel c
      | IoOk (ReadMessage m) =>
          if workers then
            '(c, out, dropped) ← read_loop workers fuel c;
            Done (c, m :: out, dropped)
          else Panic
      | WouldBlock => Done (c, [], false)
      | IoErr => Done (c, [], true)
      end
  end.

(** [Context::process_readable], with the messages for the workers. *)
Definition process_readable (workers : bool) (fuel : nat) (id : nat) (self : Server) :
    Outcome (Server * list (list byte * nat)) :=
  peer ← unwrap (peers self !! id);
  '(c, out, dropped) ← read_loop workers fuel (peer_reader peer);
  let self := set_peer id (mkPeer c (peer_writer peer) (direction peer)) self in
  self ← (if (dropped : bool) then remove_peer id self else Done self);
  Done (self, (λ m : list byte, (m, id)) <$> (out : list (list byte))).

(** [Context::process_writable]; an error of the poll is passed on. *)
Definition process_writable (fuel : nat) (io : bool) (id : nat) (self : Server) :
    Outcome (Result Server ()) :=
  peer ← unwrap (peers self !! id);
  '(res, c) ← write fuel (peer_writer peer);
  let self := set_peer id (mkPeer (peer_reader peer) c (direction peer)) self in
  match res with
  | IoOk Complete | IoOk ChanClosed => Done (if io then Ok self else Err tt)
  | IoOk WriteEOF => self ← remove_peer id self; Done (Ok self)
  | WouldBlock => Done (Ok self)
  | IoErr => self ← remove_peer id self; Done (Ok self)
  end.

(** One event of the loop of [Context::listen]: the new state, the messages for the workers,
    and whether [listen] returns an error. *)
Definition handle_event (fuel : nat) (io workers : bool) (self : Server) (event : Event) :
    Outcome (Server * list (list byte * nat) * bool) :=
  match event with
  | ControlReadable reqs =>
      self ← foldM (process_control io) self reqs;
      Done (self, [], false)
  | ListenerReadable streams failed =>
      Done (foldl (accept io) self streams, [], failed)
  | TokenReady token_id is_readable is_writable =>
      let id := Z.to_nat (Z.shiftr token_id 1) in
      if (Z.land token_id 1 =? 0)%Z then
        '(self, out) ← (if is_readable && bool_decide (is_Some (peers self !! id))
                        then process_readable workers fuel id self else Done (self, []));
        self ← (if is_writable && bool_decide (is_Some (peers self !! id))
                then r ← process_writable fuel io id self; expect r else Done self);
        Done (self, out, false)
      else
        ok ← register_write_interest io id self;
        Done (self, [], negb ok)
  end.

(** The events of one call of [poll]. *)
Fixpoint handle_events (fuel : nat) (io workers : bool) (self : Server) (events : list Event) :
    Outcome (Server * list (list byte * nat) * bool) :=
  match events with
  | [] => Done (self, [], false)
  | event :: events =>
      '(self, out, stop) ← handle_event fuel io workers self event;
      if (stop : bool) then Done (self, out, true)
      else
        '(self, out', stop) ← handle_events fuel io workers self events;
        Done (self, out ++ out', stop)
  end.
End Server.

(** ** A stream of frames *)

(** The socket has data, and is neither closed nor broken. *)
Definition chunks (evs : list SocketEvent) : Prop :=
  Forall (λ e, ∃ bs, e = Data bs ∧ bs ≠ []) evs.

Lemma chunks_suffix evs evs' : evs' `suffix_of` evs → chunks evs → chunks evs'.
Proof. intros [k ->]. unfold chunks. rewrite Forall_app. naive_solver. Qed.

Lemma chunks_elem e evs : chunks evs → e ∈ evs → ∃ bs, e = Data bs ∧ bs ≠ [].
Proof. intros Hc He. exact (proj1 (Forall_forall _ _) Hc e He). Qed.

(** The loop ends.  On data it is the automaton: it yields the messages of the bytes, and it
    drops the connection exactly if the automaton gives up. *)
Lemma read_loop_ok fuel c :
  read_inv c → reads_left (reader c) < fuel →
  ∃ c' out dropped, read_loop true fuel c = Done (c', out, dropped) ∧ read_inv c' ∧
    (chunks (arriving (reader c)) → chunks (arriving (reader c')) ∧
       feed_all (decoder c) (incoming (reader c)) =
         (if (dropped : bool) then Dropped else decoder c', out) ∧
       (dropped = false → incoming (reader c') = [])).
Proof.
  revert c. induction fuel as [|fuel IH]; intros c Hc Hf; [lia|]. cbn [read_loop].
  destruct (read_ok c Hc) as (res & c1 & -> & Hc1 & Hsuf & Hres). cbn.
  assert (∀ out1, (∃ bs, incoming (reader c) = bs ++ incoming (reader c1) ∧
      feed_all (decoder c) bs = (decoder c1, out1) ∧
      reads_left (reader c1) < reads_left (reader c)) →
    ∃ c' out dropped, read_loop true fuel c1 = Done (c', out, dropped) ∧ read_inv c' ∧
    (chunks (arriving (reader c)) → chunks (arriving (reader c')) ∧
       feed_all (decoder c) (incoming (reader c)) =
         (if (dropped : bool) then Dropped else decoder c', out1 ++ out) ∧
       (dropped = false → incoming (reader c') = []))) as Hstep.
  { intros out1 (bs & Hi & Hfeed & Hlt).
    destruct (IH c1 Hc1) as (c' & out & dropped & -> & Hc' & H); [lia|].
    eexists _, _, _. split; [done|]. split; [done|]. intros Hch.
    destruct H as (Hch' & Hfeed' & Hend); [by eapply chunks_suffix|].
    split; [done|]. split; [|done]. rewrite Hi. by eapply feed_all_app. }
  destruct res as [[|m|]| |].
  - exact (Hstep [] Hres).
  - destruct (Hstep [m] Hres) as (c' & out & dropped & -> & H). by eexists _, _, _.
  - eexists _, _, _. split; [done|]. split; [done|]. intros Hch.
    split; [by eapply chunks_suffix|]. split; [|done].
    destruct Hres as [[-> Hi]|Hin]; [|by destruct (chunks_elem _ _ Hch Hin) as (? & [= <-] & ?)].
    destruct (incoming (reader c)) as [|b l]; [done|]. cbn. by rewrite feed_all_dropped.
  - destruct Hres as [Hd Hr]. eexists _, _, _. split; [done|]. split; [done|]. intros Hch.
    destruct Hr as [[Hr Hi]|Hin]; [|by destruct (chunks_elem _ _ Hch Hin) as (? & ? & ?)].
    rewrite Hd, Hr, Hi. done.
  - eexists _, _, _. split; [done|]. split; [done|]. intros Hch.
    by destruct (chunks_elem _ _ Hch Hres) as (? & ? & ?).
Qed.

(** More fuel does not change a result. *)
Lemma read_loop_mono fuel fuel' c x :
  read_loop true fuel c = Done x → fuel ≤ fuel' → read_loop true fuel' c = Done x.
Proof.
  revert fuel' c x. induction fuel as [|fuel IH]; intros [|fuel'] c x E Hle; [done..|lia|].
  cbn in *. destruct (read c) as [[res c1]|]; [|done]. cbn in *.
  destruct res as [[|m|]| |]; try done; [apply IH; [done|lia]|].
  destruct (read_loop true fuel c1) as [y|] eqn:E'; [|done]. by rewrite (IH fuel' c1 y) by (done || lia).
Qed.

Lemma write_mono fuel fuel' c x :
  write fuel c = Done x → fuel ≤ fuel' → write fuel' c = Done x.
Proof.
  revert fuel' c. induction fuel as [|fuel IH]; intros [|fuel'] c E Hle; [done..|lia|].
  cbn in *. destruct (write_turn c) as [[c1 [r|]]|]; try done. apply IH; [done|lia].
Qed.

(** The operations on the sending side: a message is queued, or the socket becomes writable
    and takes some bytes. *)
Inductive SendOp :=
| Queued (m : list byte)
| Writable (outs : list WriteEvent).

Definition queued (ops : list SendOp) : list (list byte) :=
  omap (λ op, match op with Queued m => Some m | _ => None end) ops.

Definition set_outcomes (outs : list WriteEvent) (c : WriteContext) : WriteContext :=
  mkWriteContext (mkWriter (accepted_bytes (writer c)) (flushed_bytes (writer c)) outs)
    (queue c) (len_buffer c) (msg_buffer c) (write_length c) (written_length c) (write_state c).

Definition send_op (fuel : nat) (c : WriteContext) (op : SendOp) : Outcome WriteContext :=
  match op with
  | Queued m => Done (handle_write m c)
  | Writable outs => '(_, c) ← write fuel (set_outcomes outs c); Done c
  end.

(** The receiving side: each time the socket becomes readable, a list of portions has
    arrived.  The result has the messages, which go to the workers, and whether the connection was
    dropped. *)
Fixpoint receive (fuel : nat) (c : ReadContext) (batches : list (list (list byte))) :
    Outcome (ReadContext * list (list byte) * bool) :=
  match batches with
  | [] => Done (c, [], false)
  | batch :: batches =>
      let r := mkReader (buffered (reader c)) (arriving (reader c) ++ (Data <$> batch)) in
      '(c, out, dropped) ← read_loop true fuel (set_reader r c);
      if (dropped : bool) then Done (c, out, true)
      else
        '(c, out', dropped) ← receive fuel c batches;
        Done (c, out ++ out', dropped)
  end.

Lemma send_mono fuel fuel' c ops x :
  foldM (send_op fuel) c ops = Done x → fuel ≤ fuel' → foldM (send_op fuel') c ops = Done x.
Proof.
  revert c. induction ops as [|[m|outs] ops IH]; intros c E Hle; cbn in *; [done|by apply IH|].
  destruct (write fuel (set_outcomes outs c)) as [y|] eqn:E'; [|done].
  rewrite (write_mono _ fuel' _ _ E' Hle). destruct y. by apply IH.
Qed.

Lemma receive_mono fuel fuel' c batches x :
  receive fuel c batches = Done x → fuel ≤ fuel' → receive fuel' c batches = Done x.
Proof.
  revert c x. induction batches as [|batch batches IH]; intros c x E Hle; cbn in *; [done|].
  set (c0 := set_reader _ c) in *. destruct (read_loop true fuel c0) as [y|] eqn:E'; [|done].
  rewrite (read_loop_mono _ fuel' _ _ E' Hle). destruct y as [[c1 out] []]; [done|]. cbn in *.
  destruct (receive fuel c1 batches) as [y|] eqn:E2; [|done]. by rewrite (IH c1 y).
Qed.

Lemma write_inv_set_outcomes all outs c : write_inv all c → write_inv all (set_outcomes outs c).
Proof. by intros []. Qed.

(** The number of turns of [write] that is enough for the operations. *)
Definition send_fuel (ops : list SendOp) : nat :=
  sum_list_with (λ op, match op with Writable outs => 2 * length outs + 2 | _ => 0 end) ops.

Lemma send_ok fuel ops all c :
  write_inv all c → send_fuel ops ≤ fuel →
  ∃ c', foldM (send_op fuel) c ops = Done c' ∧ write_inv (all ++ queued ops) c'.
Proof.
  unfold send_fuel. revert all c.
  induction ops as [|[m|outs] ops IH]; intros all c Hc Hf; cbn in *.
  - exists c. by rewrite app_nil_r.
  - destruct (IH (all ++ [m]) (handle_write m c)) as (c' & -> & Hc'); [|done|].
    + by apply handle_write_inv.
    + exists c'. by rewrite <- app_assoc in Hc'.
  - destruct (write_ok all (set_outcomes outs c) fuel) as (r & c1 & -> & Hc1 & _).
    + by apply write_inv_set_outcomes.
    + unfold turns_left. cbn. destruct (write_state c); lia.
    + cbn. apply IH; [done|lia].
Qed.

Definition receive_fuel (batches : list (list (list byte))) : nat :=
  S (sum_list_with (λ batch, length (mjoin batch) + length batch) batches).

Lemma incoming_arrive r batch :
  incoming (mkReader (buffered r) (arriving r ++ (Data <$> batch))) = incoming r ++ mjoin batch.
Proof.
  unfold incoming. cbn [buffered arriving]. rewrite fmap_app, join_app, app_assoc. f_equal.
  rewrite <- list_fmap_compose. f_equal. apply list_fmap_id.
Qed.

Lemma chunks_arrive evs batch :
  chunks evs → Forall (.≠ []) batch → chunks (evs ++ (Data <$> batch)).
Proof.
  intros Hc Hb. apply Forall_app. split; [done|]. apply Forall_fmap.
  eapply Forall_impl; [exact Hb|]. intros bs Hne. by exists bs.
Qed.

Lemma chunks_nil r : chunks (arriving r) → incoming r = [] → arriving r = [].
Proof.
  intros Hc Hi. unfold incoming in Hi. destruct (arriving r) as [|e evs]; [done|].
  apply Forall_cons in Hc as [(bs & -> & Hne) _]. apply app_nil in Hi as [_ Hi]. cbn in Hi.
  by apply app_nil in Hi as [-> _].
Qed.

(** Receiving in portions is the automaton on all the bytes. *)
Lemma receive_ok fuel c batches :
  read_inv c → chunks (arriving (reader c)) → incoming (reader c) = [] →
  Forall (Forall (.≠ [])) batches → receive_fuel batches ≤ fuel →
  ∃ c' out dropped, receive fuel c batches = Done (c', out, dropped) ∧
    feed_all (decoder c) (mjoin (mjoin <$> batches)) =
      (if (dropped : bool) then Dropped else decoder c', out).
Proof.
  unfold receive_fuel. intros Hc Hch Hi Hb. revert c Hc Hch Hi.
  induction Hb as [|batch batches Hb Hbs IH]; intros c Hc Hch Hi Hf.
  { by exists c, [], false. }
  cbn in Hf |- *. pose proof (chunks_nil _ Hch Hi) as Hnil.
  set (r := mkReader _ _). assert (incoming r = mjoin batch) as Hr.
  { subst r. by rewrite incoming_arrive, Hi. }
  destruct (read_loop_ok fuel (set_reader r c)) as (c1 & out & dropped & -> & Hc1 & H).
  - by apply read_inv_set_reader.
  - cbn [set_reader reader]. unfold reads_left. rewrite Hr. subst r. cbn [arriving].
    rewrite Hnil. cbn [app]. rewrite length_fmap. lia.
  - destruct H as (Hch1 & Hfeed & Hend); [by apply chunks_arrive|].
    change (decoder (set_reader r c)) with (decoder c) in Hfeed.
    change (reader (set_reader r c)) with r in Hfeed. rewrite Hr in Hfeed. cbn. destruct dropped.
    + exists c1, out, true. split; [done|]. rewrite <- (app_nil_r out).
      eapply feed_all_app; [done|apply feed_all_dropped].
    + destruct (IH c1 Hc1 Hch1 (Hend eq_refl)) as (c2 & out2 & dropped & -> & Hfeed2); [lia|].
      cbn. eexists _, _, _. split; [done|]. by eapply feed_all_app.
Qed.

(** A prefix of the frames of sendable messages does not confuse the automaton. *)
Lemma feed_prefix ms bs d out :
  Forall sendable ms → bs `prefix_of` frames ms → feed_all (Header []) bs = (d, out) →
  d ≠ Dropped ∧ out `prefix_of` ms ∧ (bs = frames ms → d = Header [] ∧ out = ms).
Proof.
  intros Hms [k Hk] E. pose proof (feed_frames ms Hms) as Hall.
  destruct (feed_all d k) as [d' out'] eqn:E'.
  pose proof (feed_all_app _ _ _ _ _ _ _ E E') as Happ.
  rewrite <- Hk, Hall in Happ. injection Happ as Hd' Hms'. split_and!.
  - intros ->. rewrite feed_all_dropped in E'. by simplify_eq.
  - rewrite Hms'. by apply prefix_app_r.
  - intros ->. rewrite Hall in E. by simplify_eq.
Qed.

(** C35: Whatever portions of bytes the sending socket accepts, and whatever portions arrive,
    messages that are not empty and shorter than 2^32 bytes go through a connection
    unchanged.  The calls of [write] and [read] return and do not panic, the receiver never
    drops the connection, the messages it yields so far are a prefix of those queued, in
    order, and when all bytes have arrived after the queue was drained they are all of them. *)
Theorem stream_roundtrip (ops : list SendOp) (batches : list (list (list byte))) :
  Forall sendable (queued ops) → Forall (Forall (.≠ [])) batches →
  let bytes := mjoin (mjoin <$> batches) in
  ∃ sender, (∀ fuel, send_fuel ops ≤ fuel →
      foldM (send_op fuel) (write_context_new (mkWriter [] [] [])) ops = Done sender) ∧
    (bytes `prefix_of` flushed_bytes (writer sender) →
     ∃ receiver out, (∀ fuel, receive_fuel batches ≤ fuel →
         receive fuel (read_context_new (mkReader [] [])) batches = Done (receiver, out, false)) ∧
       out `prefix_of` queued ops ∧
       (write_done sender → bytes = flushed_bytes (writer sender) → out = queued ops)).
Proof.
  intros Hms Hb bytes.
  destruct (send_ok (send_fuel ops) ops [] _ (write_inv_new []) ltac:(done))
    as (sender & Hs & Hinv). cbn in Hinv.
  exists sender. split; [intros fuel Hf; by eapply send_mono|]. intros Hpre.
  destruct (receive_ok (receive_fuel batches) (read_context_new (mkReader [] [])) batches)
    as (receiver & out & dropped & Hr & Hfeed); [apply read_inv_new|constructor|done..|].
  destruct (feed_prefix (queued ops) bytes _ _ Hms ltac:(by etrans; [|apply write_inv_prefix])
    Hfeed) as (Hd & Hout & Hfull).
  destruct dropped; [done|]. exists receiver, out.
  split; [intros fuel Hf; by eapply receive_mono|]. split; [done|].
  intros Hdone Hbytes. apply Hfull. by rewrite Hbytes, (write_done_frames _ _ Hinv Hdone).
Qed.

Lemma stream_roundtrip_witness :
  let ops := [Queued ["001"%byte; "002"%byte]; Writable [Accepts 9; Accepts 3; Full];
              Queued ["003"%byte]; Writable (replicate 9 (Accepts 2))] in
  let batches := [[["000"; "000"]; ["000"; "002"; "001"]]; [["002"; "000"; "000"]];
                  [["000"; "001"; "003"]]]%byte in
  ∃ receiver, receive 20 (read_context_new (mkReader [] [])) batches =
    Done (receiver, [["001"%byte; "002"%byte]; ["003"%byte]], false).
Proof.
  intros ops batches. destruct (stream_roundtrip ops batches) as (sender & Hs & H).
  - repeat (constructor; [by split|]). constructor.
  - repeat (constructor; [by repeat constructor|]). constructor.
  - specialize (Hs 40 ltac:(vm_compute; lia)). vm_compute in Hs. injection Hs as <-.
    destruct H as (receiver & out & Hr & _ & Hout); [by exists []|].
    exists receiver. rewrite (Hr 20) by (vm_compute; lia). by rewrite Hout.
Defined.

(** ** The table of connections *)

Section Table.
Context {slab : Slab} {slab_laws : SlabLaws} {enc : EncodeMessage}.

Record peer_inv (id : nat) (p : PeerContext) : Prop := {
  pi_key : id < MAX_INCOMING_CLIENT;
  pi_read : read_inv (peer_reader p);
  pi_write : ∃ all, write_inv all (peer_writer p);
  pi_connected : connected (queue (peer_writer p)) = true;
}.

Record server_inv (s : Server) : Prop := {
  si_nodup : NoDup (peer_list s);
  si_list id : id ∈ peer_list s ↔ is_Some (peers s !! id);
  si_peers id p : peers s !! id = Some p → peer_inv id p;
}.

Lemma server_inv_new : server_inv server_new.
Proof.
  split; cbn; [constructor| |by intros ??]. intros id. rewrite lookup_empty.
  split; [by intros ?%elem_of_nil|by intros [? ?]].
Qed.

Lemma peer_inv_new id evs outs d :
  id < MAX_INCOMING_CLIENT → peer_inv id (peer_new evs outs d).
Proof.
  intros Hid. split; [done|apply read_inv_new| |done]. exists []. apply write_inv_new.
Qed.

Lemma server_inv_set_peer id p s :
  server_inv s → is_Some (peers s !! id) → peer_inv id p → server_inv (set_peer id p s).
Proof.
  intros [H1 H2 H3] Hid Hp. split; cbn; [done| |].
  - intros id'. rewrite H2. destruct (decide (id = id')) as [->|Hne].
    + by rewrite lookup_insert_eq.
    + by rewrite lookup_insert_ne.
  - intros id' p'. destruct (decide (id = id')) as [->|Hne].
    + rewrite lookup_insert_eq. by intros [= <-].
    + rewrite lookup_insert_ne by done. apply H3.
Qed.

Lemma server_register_inv stream d io s : server_inv s → server_inv (register stream d io s).1.
Proof.
  intros Hs. pose proof Hs as [H1 H2 H3]. unfold register.
  pose proof (vacant_key_fresh (peers s)) as Hf. set (k := vacant_key (peers s)) in *.
  destruct (Nat.leb_spec MAX_INCOMING_CLIENT k) as [|Hk]; [done|]. destruct io; [|done]. cbn.
  split; cbn.
  - apply NoDup_app. split_and!; [done| |apply NoDup_singleton].
    intros x Hx ->%list_elem_of_singleton. apply H2 in Hx as [p Hp]. congruence.
  - intros id. rewrite elem_of_app, list_elem_of_singleton, H2.
    destruct (decide (k = id)) as [<-|Hne].
    + rewrite lookup_insert_eq. split; [by eauto|by right].
    + rewrite lookup_insert_ne by done. split; [by intros [|<-]|by left].
  - intros id p. destruct (decide (k = id)) as [<-|Hne].
    + rewrite lookup_insert_eq. intros [= <-]. by apply peer_inv_new.
    + rewrite lookup_insert_ne by done. apply H3.
Qed.

Lemma swap_remove_ok l i x :
  l !! i = Some x → ∃ l', swap_remove i l = Done l' ∧ l ≡ₚ x :: l'.
Proof.
  intros Hi. pose proof (lookup_lt_Some _ _ _ Hi) as Hlt. unfold swap_remove.
  destruct l as [|y l _] using rev_ind; [done|]. rewrite last_snoc.
  cbn [unwrap mbind outcome_bind]. rewrite (proj2 (Nat.ltb_lt _ _)) by done. eexists. split; [done|].
  rewrite length_app in *. cbn in *. replace (length l + 1 - 1) with (length l) by lia.
  destruct (decide (i = length l)) as [->|Hne].
  - rewrite insert_app_r_alt, Nat.sub_diag by lia. cbn. rewrite take_app_length.
    rewrite list_lookup_middle in Hi by done. simplify_eq. by rewrite Permutation_app_comm.
  - rewrite insert_app_l by lia. rewrite lookup_app_l in Hi by lia.
    rewrite take_app_length' by (by rewrite length_insert).
    rewrite Permutation_app_comm. cbn.
    rewrite <- (take_drop_middle l i x Hi) at 1.
    rewrite insert_take_drop by lia. by rewrite <- !Permutation_middle, Permutation_swap.
Qed.

Lemma remove_peer_ok id s :
  server_inv s → is_Some (peers s !! id) →
  ∃ s', remove_peer id s = Done s' ∧ server_inv s' ∧ peers s' = delete id (peers s).
Proof.
  intros [H1 H2 H3] [p Hp]. unfold remove_peer. rewrite Hp. cbn.
  destruct (list_find_elem_of (λ x, x = id) (peer_list s) id) as [[i x] Hfind];
    [by apply H2; eauto|done|]. rewrite Hfind. cbn.
  apply list_find_Some in Hfind as (Hi & -> & _).
  destruct (swap_remove_ok _ _ _ Hi) as (l & -> & Hperm). cbn.
  eexists. split; [done|]. split; [|done]. rewrite Hperm in H1. apply NoDup_cons in H1 as [Hn Hnd].
  split; cbn; [done| |].
  - intros id'. specialize (H2 id'). rewrite Hperm, elem_of_cons in H2.
    destruct (decide (id = id')) as [->|Hne].
    + rewrite lookup_delete_eq. split; [by intros ?|by intros [? ?]].
    + rewrite lookup_delete_ne by done. rewrite <- H2. naive_solver.
  - intros id' p'. rewrite lookup_delete_Some. intros [_ ?]. by apply H3.
Qed.

Lemma process_readable_ok id s :
  server_inv s → is_Some (peers s !! id) →
  ∃ n s' out, (∀ fuel, n ≤ fuel → process_readable true fuel id s = Done (s', out)) ∧ server_inv s'.
Proof.
  intros Hs [p Hp]. pose proof (si_peers s Hs id p Hp) as [P1 P2 P3 P4].
  destruct (read_loop_ok (S (reads_left (reader (peer_reader p)))) (peer_reader p) P2)
    as (c & out & dropped & Hr & Hc & _); [lia|].
  set (s1 := set_peer id (mkPeer c (peer_writer p) (direction p)) s).
  assert (server_inv s1) as Hs1 by (apply server_inv_set_peer; [done|by eexists|by split]).
  assert (∃ s', (if dropped then remove_peer id s1 else Done s1) = Done s' ∧ server_inv s')
    as (s' & Hs' & Hinv).
  { destruct dropped; [|by eexists].
    destruct (remove_peer_ok id s1 Hs1) as (s' & ? & ? & _); [|by eexists].
    cbn. by rewrite lookup_insert_eq. }
  eexists _, s', _. split; [|done]. intros fuel Hf. unfold process_readable. rewrite Hp. cbn.
  rewrite (read_loop_mono _ fuel _ _ Hr Hf). cbn. fold s1. by rewrite Hs'.
Qed.

Lemma process_writable_ok id s :
  server_inv s → is_Some (peers s !! id) →
  ∃ n s', (∀ fuel, n ≤ fuel → process_writable fuel true id s = Done (Ok s')) ∧ server_inv s'.
Proof.
  intros Hs [p Hp]. pose proof (si_peers s Hs id p Hp) as [P1 P2 [all P3] P4].
  destruct (write_ok all (peer_writer p) (S (turns_left (peer_writer p))) P3)
    as (r & c & Hw & Hc & Hq & _); [lia|].
  set (s1 := set_peer id (mkPeer (peer_reader p) c (direction p)) s).
  assert (server_inv s1) as Hs1.
  { apply server_inv_set_peer; [done|by eexists|]. split; cbn; [done..|by eexists|congruence]. }
  destruct (remove_peer_ok id s1 Hs1) as (s2 & Hrm & Hs2 & _);
    [cbn; by rewrite lookup_insert_eq|].
  assert (∃ s', server_inv s' ∧ ∀ fuel, S (turns_left (peer_writer p)) ≤ fuel →
    process_writable fuel true id s = Done (Ok s')) as (s' & ? & ?); [|by eexists _, _].
  destruct r as [[| |]| |]; [exists s1|exists s2|exists s1|exists s1|exists s2];
    (split; [done|]); intros fuel Hf; unfold process_writable; rewrite Hp; cbn;
    rewrite (write_mono _ fuel _ _ Hw Hf); cbn; fold s1; rewrite ?Hrm; done.
Qed.

Definition with_message (msg : Message) (p : PeerContext) : PeerContext :=
  mkPeer (peer_reader p) (handle_write (encode_message msg) (peer_writer p)) (direction p).

Lemma peer_inv_with_message id msg p : peer_inv id p → peer_inv id (with_message msg p).
Proof.
  intros [P1 P2 [all P3] P4]. split; cbn; [done..| |done].
  eexists. by apply handle_write_inv.
Qed.

(** The loop of a broadcast over a list of connections. *)
Lemma broadcast_ok msg s l :
  NoDup l → Forall (λ id, is_Some (peers s !! id)) l →
  ∃ s', foldM (λ self id, peer ← unwrap (peers self !! id);
      Done (set_peer id (with_message msg peer) self)) s l = Done s' ∧
    peer_list s' = peer_list s ∧
    ∀ id, peers s' !! id = if decide (id ∈ l) then with_message msg <$> peers s !! id
                           else peers s !! id.
Proof.
  intros Hnd. revert s. induction Hnd as [|x l Hx Hnd IH]; intros s Hl.
  { exists s. split_and!; [done..|]. intros id. by rewrite decide_False by apply not_elem_of_nil. }
  apply Forall_cons in Hl as [[p Hp] Hl]. cbn. rewrite Hp. cbn.
  destruct (IH (set_peer x (with_message msg p) s)) as (s' & -> & Hlist & Hs').
  { eapply Forall_impl; [exact Hl|]. intros id Hid. cbn.
    destruct (decide (x = id)) as [->|]; [by rewrite lookup_insert_eq|by rewrite lookup_insert_ne]. }
  exists s'. split_and!; [done..|]. intros id. rewrite Hs'. cbn.
  destruct (decide (x = id)) as [<-|Hne].
  - rewrite lookup_insert_eq, (decide_False (P := x ∈ l)), (decide_True (P := x ∈ x :: l)), Hp;
      [done|apply list_elem_of_here|done].
  - rewrite lookup_insert_ne by done.
    destruct (decide (id ∈ l)), (decide (id ∈ x :: l)) as [Hin|Hin]; try done.
    + exfalso. apply Hin. by right.
    + apply elem_of_cons in Hin. naive_solver.
Qed.

Definition control_ok (req : ControlSignal) : Prop :=
  match req with ConnectNewPeer _ waiting => waiting = true | BroadcastMessage _ => True end.

Lemma process_control_ok io req s :
  server_inv s → control_ok req → ∃ s', process_control io s req = Done s' ∧ server_inv s'.
Proof.
  intros Hs Hw. destruct req as [stream waiting|msg].
  - cbn in Hw |- *. subst waiting. destruct (connect stream io s) as [s' r] eqn:E. exists s'. split; [done|].
    destruct stream as [stream|]; [|by simplify_eq/=].
    pose proof (server_register_inv stream Outgoing io s Hs) as Hr. cbn in E. by rewrite E in Hr.
  - destruct (broadcast_ok msg s (peer_list s)) as (s' & Hb & Hl & Hp).
    + apply (si_nodup s Hs).
    + apply Forall_forall. intros id Hid. by apply (si_list s Hs).
    + exists s'. split; [exact Hb|]. split; rewrite ?Hl.
      * apply (si_nodup s Hs).
      * intros id. rewrite (si_list s Hs), Hp. case_decide; [by rewrite fmap_is_Some|done].
      * intros id p. rewrite Hp. case_decide; [|apply (si_peers s Hs)].
        intros (q & Hq & ->)%fmap_Some. apply peer_inv_with_message. by apply (si_peers s Hs).
Qed.

(** The token of an event leads back to the connection it was registered for. *)
Lemma token_socket id : Z.to_nat (Z.shiftr (Z.of_nat (id * 2)) 1) = id ∧
  (Z.land (Z.of_nat (id * 2)) 1 =? 0)%Z = true.
Proof.
  rewrite Z.shiftr_div_pow2, (Z.land_ones _ 1) by lia. change (2 ^ 1)%Z with 2%Z.
  rewrite Nat2Z.inj_mul, Z.div_mul, Z.mod_mul by lia. split; [lia|done].
Qed.

Lemma token_writer id : Z.to_nat (Z.shiftr (Z.of_nat (id * 2 + 1)) 1) = id ∧
  (Z.land (Z.of_nat (id * 2 + 1)) 1 =? 0)%Z = false.
Proof.
  rewrite Z.shiftr_div_pow2, (Z.land_ones _ 1) by lia. change (2 ^ 1)%Z with 2%Z.
  replace (Z.of_nat (id * 2 + 1)) with (1 + Z.of_nat id * 2)%Z by lia.
  rewrite Z.div_add, Z.mod_add by lia. change (1 / 2)%Z with 0%Z. split; [lia|done].
Qed.

(** Between two polls bytes arrive on a connection, or it takes bytes again. *)
Definition socket_ready (id : nat) (evs : list SocketEvent) (outs : list WriteEvent)
    (s : Server) : Server :=
  match peers s !! id with
  | None => s
  | Some p =>
      let r := reader (peer_reader p) in
      set_peer id (mkPeer (set_reader (mkReader (buffered r) (arriving r ++ evs)) (peer_reader p))
        (set_outcomes outs (peer_writer p)) (direction p)) s
  end.

Inductive server_reachable : Server → Prop :=
| reach_new : server_reachable server_new
| reach_event fuel io workers s e s' out stop :
    server_reachable s → handle_event fuel io workers s e = Done (s', out, stop) → server_reachable s'
| reach_socket id evs outs s :
    server_reachable s → server_reachable (socket_ready id evs outs s).

Lemma socket_ready_inv id evs outs s : server_inv s → server_inv (socket_ready id evs outs s).
Proof.
  intros Hs. unfold socket_ready. destruct (peers s !! id) as [p|] eqn:Hp; [|done].
  destruct (si_peers s Hs id p Hp) as [P1 P2 [all P3] P4].
  apply server_inv_set_peer; [done|by eexists|]. split; cbn; [done| | |done].
  - by apply read_inv_set_reader.
  - exists all. by apply write_inv_set_outcomes.
Qed.

(** An event that does not come from a connection that was removed, and requests of threads that
    wait for the answer. *)
Definition event_ok (s : Server) (e : Event) : Prop :=
  match e with
  | ControlReadable reqs => Forall control_ok reqs
  | ListenerReadable _ _ => True
  | TokenReady token_id _ _ =>
      (Z.land token_id 1 =? 0)%Z = false → is_Some (peers s !! Z.to_nat (Z.shiftr token_id 1))
  end.

Lemma handle_event_ok s e :
  server_inv s → event_ok s e →
  ∃ n s' out stop, (∀ fuel, n ≤ fuel → handle_event fuel true true s e = Done (s', out, stop)) ∧
    server_inv s'.
Proof.
  intros Hs He. destruct e as [reqs|streams failed|tok rd wr].
  - destruct (foldM_total (process_control true) server_inv s reqs) as (s' & Hf & Hs').
    + done.
    + intros s1 req Hs1 Hreq. apply process_control_ok; [done|].
      exact (proj1 (Forall_forall _ _) He req Hreq).
    + exists 0, s', [], false. split; [|done]. intros fuel _. cbn. by rewrite Hf.
  - exists 0, (foldl (accept true) s streams), [], failed. split; [done|].
    clear He. revert s Hs. induction streams as [|x l IH]; intros s Hs; cbn; [done|].
    apply IH. by apply server_register_inv.
  - cbn in He |- *. set (id := Z.to_nat (Z.shiftr tok 1)) in *.
    destruct (Z.land tok 1 =? 0)%Z; cycle 1.
    { exists 0, s, [], false. split; [|done]. intros fuel _. unfold register_write_interest.
      by destruct (He eq_refl) as [p ->]. }
    assert (∃ n s1 out, (∀ fuel, n ≤ fuel →
      (if rd && bool_decide (is_Some (peers s !! id)) then process_readable true fuel id s
       else Done (s, [])) = Done (s1, out)) ∧ server_inv s1) as (n1 & s1 & out & Hr & Hs1).
    { destruct rd; [|by exists 0, s, []]. cbn. case_bool_decide; [|by exists 0, s, []].
      by apply process_readable_ok. }
    assert (∃ n s2, (∀ fuel, n ≤ fuel →
      (if wr && bool_decide (is_Some (peers s1 !! id))
       then r ← process_writable fuel true id s1; expect r else Done s1) = Done s2) ∧
      server_inv s2) as (n2 & s2 & Hw & Hs2).
    { destruct wr; [|by exists 0, s1]. cbn.
      destruct (bool_decide_reflect (is_Some (peers s1 !! id))) as [Hid|]; [|by exists 0, s1].
      destruct (process_writable_ok id s1 Hs1 Hid) as (n & s2 & Hw & ?).
      exists n, s2. split; [|done]. intros fuel Hf. by rewrite Hw. }
    exists (n1 + n2), s2, out, false. split; [|done]. intros fuel Hf.
    rewrite Hr by lia. cbn. by rewrite Hw by lia.
Qed.

(** Without workers the first message panics, and the rest is the same. *)
Definition if_silent {A M} (r : Outcome (A * list M)) : Outcome (A * list M) :=
  match r with Done (x, []) => Done (x, []) | _ => Panic end.

Lemma read_loop_silent fuel c :
  read_loop false fuel c =
    match read_loop true fuel c with Done (c', [], dropped) => Done (c', [], dropped) | _ => Panic end.
Proof.
  revert c. induction fuel as [|fuel IH]; intros c; cbn; [done|].
  destruct (read c) as [[res c1]|]; [|done]. cbn. destruct res as [[|m|]| |]; try done.
  by destruct (read_loop true fuel c1) as [[[c2 out] dropped]|].
Qed.

Lemma process_readable_silent fuel id s :
  process_readable false fuel id s = if_silent (process_readable true fuel id s).
Proof.
  unfold process_readable. destruct (peers s !! id) as [p|]; [|done].
  cbn [unwrap mbind outcome_bind]. rewrite read_loop_silent.
  destruct (read_loop true fuel (peer_reader p)) as [[[c [|m out]] dropped]|]; try done; cbn;
    by destruct (if dropped then _ else _).
Qed.

Lemma handle_event_silent fuel io s e :
  handle_event fuel io false s e =
    match handle_event fuel io true s e with Done (s', [], stop) => Done (s', [], stop) | _ => Panic end.
Proof.
  destruct e as [reqs|streams failed|tok rd wr]; cbn; [by destruct (foldM _ _ _)|done|].
  destruct (Z.land tok 1 =? 0)%Z; cycle 1.
  { by destruct (register_write_interest io _ s). }
  set (id := Z.to_nat _). destruct (rd && _); cbn; cycle 1.
  { by destruct (if wr && _ then _ else _). }
  rewrite process_readable_silent.
  destruct (process_readable true fuel id s) as [[s1 [|m out]]|]; try done; cbn;
    by destruct (if wr && _ then _ else _).
Qed.

(** What is not handled. *)
Lemma handle_event_panics fuel io workers s e :
  ¬ event_ok s e → handle_event fuel io workers s e = Panic.
Proof.
  intros Hn. destruct e as [reqs|streams failed|tok rd wr]; cbn in Hn |- *; [|done|].
  - apply not_Forall_Exists, Exists_exists in Hn as (req & Hin & Hreq);
      [|intros []; cbn; apply _].
    rewrite (foldM_panics _ req); [done| |done]. intros s1. destruct req as [stream [|]|msg]; cbn in Hreq |- *;
      [by destruct Hreq|by destruct (connect stream io s1)|by destruct Hreq].
  - destruct (Z.land tok 1 =? 0)%Z; [by destruct Hn|]. unfold register_write_interest.
    destruct (peers s !! _) as [p|]; [|done]. destruct Hn. by intros _.
Qed.

(** The handlers keep the invariant also when the poll fails. *)
Lemma process_readable_inv workers fuel id s s' out :
  server_inv s → process_readable workers fuel id s = Done (s', out) → server_inv s'.
Proof.
  intros Hs E0. assert (process_readable true fuel id s = Done (s', out)) as E.
  { destruct workers; [done|]. rewrite process_readable_silent in E0.
    by destruct (process_readable true fuel id s) as [[? []]|]. }
  assert (is_Some (peers s !! id)) as Hid.
  { unfold process_readable in E. by destruct (peers s !! id). }
  destruct (process_readable_ok id s Hs Hid) as (n & s2 & out2 & Hr & Hs2).
  assert (process_readable true (n + fuel) id s = Done (s', out)) as E'.
  { unfold process_readable in E |- *. destruct Hid as [p Hp]. rewrite Hp in E |- *. cbn in *.
    destruct (read_loop true fuel _) as [y|] eqn:Er; [|done].
    by rewrite (read_loop_mono _ (n + fuel) _ _ Er) by lia. }
  rewrite Hr in E' by lia. by simplify_eq.
Qed.

Lemma process_writable_inv fuel io id s s' :
  server_inv s → process_writable fuel io id s = Done (Ok s') → server_inv s'.
Proof.
  intros Hs E. assert (is_Some (peers s !! id)) as Hid.
  { unfold process_writable in E. by destruct (peers s !! id). }
  destruct (process_writable_ok id s Hs Hid) as (n & s2 & Hr & Hs2).
  assert (process_writable (n + fuel) true id s = Done (Ok s')) as E'.
  { unfold process_writable in E |- *. destruct Hid as [p Hp]. rewrite Hp in E |- *. cbn in *.
    destruct (write fuel _) as [y|] eqn:Er; [|done].
    rewrite (write_mono _ (n + fuel) _ _ Er) by lia.
    destruct y as [[[]| |] c]; cbn in *; by destruct io. }
  rewrite Hr in E' by lia. by simplify_eq.
Qed.

Lemma handle_event_inv fuel io workers s e s' out stop :
  server_inv s → handle_event fuel io workers s e = Done (s', out, stop) → server_inv s'.
Proof.
  intros Hs E. destruct e as [reqs|streams failed|tok rd wr]; cbn in E.
  - destruct (foldM (process_control io) s reqs) as [s2|] eqn:Hf; [|done]. simplify_eq/=.
    apply (foldM_inv _ (λ _, server_inv)) in Hf; [done..|]. intros pre req s1 s2 Hs1 _ Hreq.
    destruct (process_control_ok io req s1 Hs1) as (s3 & E3 & Hs3); [|congruence].
    destruct req as [stream [|]|msg]; [done| |done]. cbn in Hreq. by destruct (connect stream io s1).
  - simplify_eq. clear -Hs slab_laws. revert s Hs.
    induction streams as [|x l IH]; intros s Hs; cbn; [done|]. apply IH. by apply server_register_inv.
  - set (id := Z.to_nat (Z.shiftr tok 1)) in *. destruct (Z.land tok 1 =? 0)%Z; cycle 1.
    { destruct (register_write_interest io id s); by simplify_eq/=. }
    apply bind_done in E as ([s1 out1] & E1 & E).
    assert (server_inv s1) as Hs1.
    { destruct (rd && _); [by eapply process_readable_inv|by simplify_eq]. }
    cbn in E. apply bind_done in E as (s2 & E2 & E). simplify_eq.
    destruct (wr && _); [|by simplify_eq].
    apply bind_done in E2 as (r & E2 & E3). destruct r; [|done]. cbn in E3. simplify_eq.
    by eapply process_writable_inv.
Qed.

Lemma server_reachable_inv s : server_reachable s → server_inv s.
Proof.
  induction 1; [apply server_inv_new|by eapply handle_event_inv|by apply socket_ready_inv].
Qed.

(** C36: In every state of the server, whatever arrived on its connections and however the
    poll behaved, [peer_list] has exactly the keys of the table of connections, each once, at
    most 256 of them, all below 256, so that the tokens of the connections differ from each
    other and from [INCOMING] and [CONTROL].  When the poll works and there are workers to send
    messages to, an event is handled without a panic exactly when it is not the write event of a
    connection that was removed and has no request for a connection of a thread that has dropped
    the receiving end of the answer: each read and write loop ends, and the removals find their
    entries.  When the workers are gone, the same events are handled but for those in which a
    whole message arrives, which panic. *)
Theorem server_table_consistent (s : Server) :
  server_reachable s →
  (NoDup (peer_list s) ∧ length (peer_list s) ≤ MAX_INCOMING_CLIENT ∧
   ∀ id, id ∈ peer_list s ↔ is_Some (peers s !! id)) ∧
  (∀ id, is_Some (peers s !! id) → (Z.of_nat (id * 2 + 1) < CONTROL < INCOMING)%Z ∧
    Z.to_nat (Z.shiftr (Z.of_nat (id * 2)) 1) = id ∧
    Z.to_nat (Z.shiftr (Z.of_nat (id * 2 + 1)) 1) = id) ∧
  (∀ e, event_ok s e →
    ∃ n s' out stop, ∀ fuel, n ≤ fuel →
      handle_event fuel true true s e = Done (s', out, stop) ∧
      handle_event fuel true false s e = if decide (out = []) then Done (s', out, stop) else Panic) ∧
  (∀ e fuel io workers, ¬ event_ok s e → handle_event fuel io workers s e = Panic).
Proof.
  intros Hs%server_reachable_inv. pose proof Hs as [H1 H2 H3].
  assert (∀ id, is_Some (peers s !! id) → id < MAX_INCOMING_CLIENT) as Hkey.
  { intros id [p Hp]. by apply (H3 id p). }
  split_and!; [done| |done| | |].
  - rewrite <- (length_seq MAX_INCOMING_CLIENT 0). apply submseteq_length, NoDup_submseteq; [done|].
    intros id Hid%H2%Hkey. apply elem_of_seq. lia.
  - intros id Hid%Hkey. unfold MAX_INCOMING_CLIENT, CONTROL, INCOMING in *.
    split; [lia|]. split; [apply token_socket|apply token_writer].
  - intros e He. destruct (handle_event_ok s e Hs He) as (n & s' & out & stop & Hh & _).
    exists n, s', out, stop. intros fuel Hf. rewrite handle_event_silent, Hh by done.
    split; [done|]. by destruct out.
  - intros e fuel io workers. apply handle_event_panics.
Qed.

(** A broadcast does not panic, and puts the encoded message once at the end of the
    queue of every connection; nothing else changes. *)
Theorem broadcast_once (s : Server) (io : bool) (msg : Message) :
  server_reachable s →
  ∃ s', process_control io s (BroadcastMessage msg) = Done s' ∧
    peer_list s' = peer_list s ∧
    ∀ id, peers s' !! id =
      (λ p, mkPeer (peer_reader p) (handle_write (encode_message msg) (peer_writer p))
              (direction p)) <$> peers s !! id.
Proof.
  intros [H1 H2 H3]%server_reachable_inv.
  destruct (broadcast_ok msg s (peer_list s)) as (s' & Hb & Hl & Hp);
    [done|apply Forall_forall; intros id Hid; by apply H2|].
  exists s'. split_and!; [done..|]. intros id. rewrite Hp. case_decide as Hid; [done|].
  rewrite H2 in Hid. by destruct (peers s !! id); [destruct Hid; eexists|].
Qed.

(** The end of the stream. *)
Lemma read_closed c :
  read_inv c → reader c = mkReader [] [Data []] →
  read c = Done (IoOk ReadEOF, set_reader (mkReader [] []) c).
Proof.
  intros [R1 R2 R3 R4 R5] Hr. unfold read.
  rewrite (proj2 (Nat.ltb_ge _ _)), (proj2 (Nat.ltb_ge _ _)) by lia.
  cbn [orb]. rewrite Hr. unfold reader_read. cbn [buffered arriving].
  by rewrite take_nil, drop_nil.
Qed.

(** A connection that its peer closes while a message for it is queued stops the server:
    when one poll reports both, the first event removes the connection and the second one
    indexes the table with its key. *)
Theorem stale_write_event_panics (s : Server) (id : nat) (p : PeerContext) :
  server_reachable s → peers s !! id = Some p →
  reader (peer_reader p) = mkReader [] [Data []] →
  ∃ n, ∀ fuel io, n ≤ fuel →
    handle_events fuel io true s
      [TokenReady (Z.of_nat (id * 2)) true false; TokenReady (Z.of_nat (id * 2 + 1)) true false]
    = Panic.
Proof.
  intros Hs%server_reachable_inv Hp Hr. destruct (si_peers s Hs id p Hp) as [_ Hc _ _].
  destruct (process_readable_ok id s Hs ltac:(by eexists)) as (n & s' & out & Hread & Hs').
  exists (S n). intros fuel io Hf. unfold handle_events, handle_event.
  destruct (token_socket id) as [-> ->]. destruct (token_writer id) as [-> ->].
  rewrite bool_decide_eq_true_2 by (by eexists). cbn [andb]. rewrite Hread by lia. cbn.
  assert (peers s' !! id = None) as Hnone.
  { specialize (Hread (S n) ltac:(lia)). unfold process_readable in Hread. rewrite Hp in Hread.
    cbn [unwrap mbind outcome_bind read_loop] in Hread.
    rewrite (read_closed _ Hc Hr) in Hread. cbn in Hread. set (s1 := set_peer _ _ s) in Hread.
    destruct (remove_peer_ok id s1) as (s2 & E2 & _ & Hpeers).
    - apply server_inv_set_peer; [done|by eexists|]. destruct (si_peers s Hs id p Hp).
      split; cbn; [done|by apply read_inv_set_reader|done..].
    - cbn. by rewrite lookup_insert_eq.
    - rewrite E2 in Hread. cbn in Hread. simplify_eq. rewrite Hpeers. apply lookup_delete_eq. }
  unfold register_write_interest. by rewrite Hnone.
Qed.
End Table.

(** ** Examples *)

Section Examples.
Definition example_slab : Slab := {| vacant_key m := fresh (map_to_list m).*1 |}.
#[local] Existing Instance example_slab.

Lemma example_slab_laws : SlabLaws.
Proof.
  split. intros m. apply eq_None_not_Some. intros [p Hp].
  apply (infinite_is_fresh (map_to_list m).*1), list_elem_of_fmap.
  exists (vacant_key m, p). split; [done|]. by apply elem_of_map_to_list.
Qed.

Definition example_encode : EncodeMessage := {| encode_message _ := ["001"%byte] |}.
#[local] Existing Instance example_encode.

(** A server with two connections; the first one is closed by its peer. *)
Definition example_server : Server :=
  foldl (accept true) server_new [([Data []], [Accepts 9; Accepts 9]); ([], [])].

Lemma example_server_reachable : server_reachable example_server.
Proof.
  eapply (reach_event 1 true true server_new (ListenerReadable [([Data []], [Accepts 9; Accepts 9]);
    ([], [])] false)); [apply reach_new|reflexivity].
Qed.

Lemma server_table_consistent_witness :
  length (peer_list example_server) ≤ MAX_INCOMING_CLIENT ∧
  ∃ n s' out stop, ∀ fuel, n ≤ fuel →
    handle_event fuel true true example_server (TokenReady 0 true true) = Done (s', out, stop).
Proof.
  destruct (server_table_consistent (slab_laws := example_slab_laws) example_server
    example_server_reachable) as ((_ & Hl & _) & _ & He & _).
  split; [exact Hl|]. destruct (He (TokenReady 0 true true)) as (n & s' & out & stop & Hh); [done|].
  exists n, s', out, stop. intros fuel Hf. exact (proj1 (Hh fuel Hf)).
Defined.

Lemma broadcast_once_witness :
  ∃ s', process_control true example_server (BroadcastMessage (GetBlocks [])) = Done s' ∧
    peer_list s' = [0; 1].
Proof.
  destruct (broadcast_once (slab_laws := example_slab_laws) example_server true (GetBlocks [])
    example_server_reachable) as (s' & Hs & Hl & _).
  exists s'. split; [exact Hs|]. rewrite Hl. vm_compute. reflexivity.
Defined.

Lemma stale_write_event_panics_witness :
  ∃ n, ∀ fuel io, n ≤ fuel →
    handle_events fuel io true example_server [TokenReady 0 true false; TokenReady 1 true false] = Panic.
Proof.
  apply (stale_write_event_panics (slab_laws := example_slab_laws) example_server 0
    (peer_new [Data []] [Accepts 9; Accepts 9] Incoming) example_server_reachable); reflexivity.
Defined.
End Examples.
