(* ===== verification/KeyValue.v ===== *)
(** * Key-value stores

    What the state database uses of the [kvdb] crate: columns of byte strings under byte
    strings, and batches of writes that are applied in order; and the little-endian encoding
    of integers, which its keys and values use.  Errors of the disk are not modelled. *)

From S2P Require Import Prelude Hash.

Abbreviation KeyValueDB := (gmap (Z * list byte) (list byte)).

Inductive DBOp :=
| DBInsert (col : Z) (key value : list byte)
| DBDelete (col : Z) (key : list byte).
Definition DBTransaction := list DBOp.

Definition kv_get (db : KeyValueDB) (col : Z) (key : list byte) : option (list byte) :=
  db !! (col, key).

Definition kv_apply (db : KeyValueDB) (op : DBOp) : KeyValueDB :=
  match op with
  | DBInsert col key value => <[(col, key) := value]> db
  | DBDelete col key => delete (col, key) db
  end.

Definition kv_write (batch : DBTransaction) (db : KeyValueDB) : KeyValueDB :=
  foldl kv_apply db batch.

Definition kv_put (col : Z) (key value : list byte) (batch : DBTransaction) : DBTransaction :=
  batch ++ [DBInsert col key value].
Definition kv_delete (col : Z) (key : list byte) (batch : DBTransaction) : DBTransaction :=
  batch ++ [DBDelete col key].

(** The column an operation writes to. *)
Definition op_col (op : DBOp) : Z :=
  match op with DBInsert col _ _ | DBDelete col _ => col end.

Lemma kv_write_app b1 b2 db : kv_write (b1 ++ b2) db = kv_write b2 (kv_write b1 db).
Proof. apply foldl_app. Qed.

(** Writes to other columns do not change a column. *)
Lemma kv_write_col batch db col key :
  Forall (λ op, op_col op ≠ col) batch → kv_get (kv_write batch db) col key = kv_get db col key.
Proof.
  intros Hb. revert db. unfold kv_write. induction Hb as [|op batch Hop Hb IH]; intros db; [done|]. cbn [foldl].
  rewrite IH. destruct op as [c k v|c k]; cbn in Hop; unfold kv_get, kv_apply.
  - by rewrite lookup_insert_ne by congruence.
  - by rewrite lookup_delete_ne by congruence.
Qed.

(** ** Little-endian integers *)

Definition to_le_bytes (n : nat) (z : Z) : list byte := reverse (to_be_bytes n z).
Definition from_le_bytes (bs : list byte) : Z := from_be_bytes (reverse bs).

Lemma length_to_le_bytes n z : length (to_le_bytes n z) = n.
Proof. unfold to_le_bytes. by rewrite length_reverse, length_to_be_bytes. Qed.

Lemma from_to_le_bytes n z :
  (0 ≤ z < 256 ^ Z.of_nat n)%Z → from_le_bytes (to_le_bytes n z) = z.
Proof.
  intros Hz. unfold from_le_bytes, to_le_bytes. rewrite reverse_involutive, from_to_be_bytes.
  by apply Z.mod_small.
Qed.

Lemma to_le_bytes_inj n z1 z2 :
  (0 ≤ z1 < 256 ^ Z.of_nat n)%Z → (0 ≤ z2 < 256 ^ Z.of_nat n)%Z →
  to_le_bytes n z1 = to_le_bytes n z2 → z1 = z2.
Proof. intros H1 H2 E. by rewrite <- (from_to_le_bytes n z1), E, from_to_le_bytes. Qed.
