(* ===== verification/Bloom.v ===== *)
(** * The filter of account addresses

    [src/parity-ethereum/util/bloom/src/lib.rs]: a bit vector with a journal of the words that
    changed, and a Bloom filter on it.  The hash function of the [siphasher] crate is a
    parameter, and so is [optimal_k_num], which computes the number of hash functions with
    the 64-bit logarithm of the platform. *)

From S2P Require Import Prelude.

(** The hash of an item, a 64-bit number. *)
Class SipHash (T : Type) := sip_hash : T → Z.

(** ** [BitVecJournal] *)

Record BitVecJournal := mkBitVec {
  elems : list Z;
  journal : gset nat;
}.

Definition bitvec_new (size : nat) : BitVecJournal :=
  let extra := if 0 <? size mod 64 then 1 else 0 in
  mkBitVec (replicate (size / 64 + extra) 0%Z) ∅.

Definition bitvec_from_parts (parts : list Z) : BitVecJournal := mkBitVec parts ∅.

Definition bitvec_set (index : nat) (self : BitVecJournal) : Outcome BitVecJournal :=
  let e_index := index / 64 in
  let bit_index := index mod 64 in
  val ← unwrap (elems self !! e_index);
  Done (mkBitVec (<[e_index := Z.lor val (Z.shiftl 1 (Z.of_nat bit_index))]> (elems self))
          ({[e_index]} ∪ journal self)).

Definition bitvec_get (index : nat) (self : BitVecJournal) : Outcome bool :=
  let e_index := index / 64 in
  let bit_index := index mod 64 in
  val ← unwrap (elems self !! e_index);
  Done (negb (Z.land val (Z.shiftl 1 (Z.of_nat bit_index)) =? 0)%Z).

(** The journal is emptied; its entries come in the order of the hash table. *)
Definition bitvec_drain `{HashOrder} (self : BitVecJournal) :
    Outcome (list (nat * Z) * BitVecJournal) :=
  entries ← mapO (λ idx, v ← unwrap (elems self !! idx); Done (idx, v))
              (hash_set_iter (journal self));
  Done (entries, mkBitVec (elems self) ∅).

(** ** [Bloom] *)

Record Bloom := mkBloom {
  bitmap : BitVecJournal;
  bitmap_bits : Z;
  k_num : Z;
}.

Definition bloom_new (optimal_k_num : Z → nat → Z) (bitmap_size items_count : nat) :
    Outcome Bloom :=
  if (0 <? bitmap_size) && (0 <? items_count) then
    let bitmap_bits := (Z.of_nat bitmap_size * 8)%Z in
    let k_num := optimal_k_num bitmap_bits items_count in
    let bitmap := bitvec_new (Z.to_nat bitmap_bits) in
    Done (mkBloom bitmap bitmap_bits k_num)
  else Panic.

Definition bloom_from_parts (parts : list Z) (k : Z) : Bloom :=
  let bitmap_size := length parts * 8 in
  mkBloom (bitvec_from_parts parts) (Z.of_nat bitmap_size * 8) k.

Definition bloom_hash (base_hash k_i : Z) : Z :=
  if (k_i <? 2)%Z then base_hash
  else u64 (base_hash + u64 (k_i * base_hash) `mod` 0xffffffffffffffc5)%Z.

Section Bloom.
Context {T : Type} `{SipHash T}.

Definition bit_offset (self : Bloom) (base_hash k_i : Z) : nat :=
  Z.to_nat (bloom_hash base_hash k_i `mod` bitmap_bits self).

Definition bloom_set (item : T) (self : Bloom) : Outcome Bloom :=
  let base_hash := sip_hash item in
  foldM (λ self k_i,
    b ← bitvec_set (bit_offset self base_hash k_i) (bitmap self);
    Done (mkBloom b (bitmap_bits self) (k_num self))) self (range 0 (k_num self)).

(** The loop of [check], which returns at the first bit that is not set. *)
Fixpoint check_bits (self : Bloom) (base_hash : Z) (ks : list Z) : Outcome bool :=
  match ks with
  | [] => Done true
  | k_i :: ks =>
      b ← bitvec_get (bit_offset self base_hash k_i) (bitmap self);
      if (b : bool) then check_bits self base_hash ks else Done false
  end.

Definition bloom_check (item : T) (self : Bloom) : Outcome bool :=
  check_bits self (sip_hash item) (range 0 (k_num self)).

(** [BloomJournal]: the number of hash functions and the words that changed. *)
Definition drain_journal `{HashOrder} (self : Bloom) : Outcome (Z * list (nat * Z) * Bloom) :=
  '(entries, b) ← bitvec_drain (bitmap self);
  Done (k_num self, entries, mkBloom b (bitmap_bits self) (k_num self)).

(** ** No false negatives *)

(** All offsets are inside the bit vector. *)
Definition bloom_ok (b : Bloom) : Prop :=
  (0 < bitmap_bits b ≤ 64 * Z.of_nat (length (elems (bitmap b))))%Z.

Lemma bloom_ok_new f size items b : bloom_new f size items = Done b → bloom_ok b.
Proof.
  unfold bloom_new. destruct (Nat.ltb_spec 0 size); [|done]. destruct (0 <? items); [|done].
  intros [= <-]. unfold bloom_ok. cbn [bitmap bitmap_bits bitvec_new elems].
  replace (Z.to_nat (Z.of_nat size * 8)) with (size * 8) by lia.
  rewrite length_replicate. pose proof (Nat.div_mod_eq (size * 8) 64).
  pose proof (Nat.mod_upper_bound (size * 8) 64).
  destruct (Nat.ltb_spec 0 ((size * 8) mod 64)); lia.
Qed.

Lemma bloom_ok_from_parts parts k : parts ≠ [] → bloom_ok (bloom_from_parts parts k).
Proof. intros Hp. unfold bloom_ok. destruct parts; [done|]. cbn. lia. Qed.

(** Whether a bit is set; false outside the vector. *)
Definition bit (i : nat) (l : list Z) : bool :=
  Z.testbit (default 0%Z (l !! (i / 64))) (Z.of_nat (i mod 64)).

Lemma land_bit z i : (0 ≤ i)%Z → negb (Z.land z (Z.shiftl 1 i) =? 0)%Z = Z.testbit z i.
Proof.
  intros Hi. rewrite Z.shiftl_1_l. destruct (Z.testbit z i) eqn:E.
  - destruct (Z.eqb_spec (Z.land z (2 ^ i)) 0) as [Hz|]; [|done].
    apply (f_equal (λ z, Z.testbit z i)) in Hz.
    by rewrite Z.land_spec, Z.pow2_bits_true, E, Z.testbit_0_l in Hz by done.
  - destruct (Z.eqb_spec (Z.land z (2 ^ i)) 0) as [|Hz]; [done|]. destruct Hz.
    apply Z.bits_inj'. intros n Hn. rewrite Z.land_spec, Z.testbit_0_l.
    destruct (decide (n = i)) as [->|Hne]; [by rewrite E|].
    by rewrite Z.pow2_bits_false, andb_false_r by done.
Qed.

Lemma bitvec_get_ok i b :
  i / 64 < length (elems b) → bitvec_get i b = Done (bit i (elems b)).
Proof.
  intros Hi. unfold bitvec_get, bit. destruct (lookup_lt_is_Some_2 _ _ Hi) as [v Hv].
  rewrite Hv. cbn [unwrap mbind outcome_bind from_option id]. by rewrite land_bit by lia.
Qed.

Lemma bitvec_set_ok i b :
  i / 64 < length (elems b) →
  ∃ b', bitvec_set i b = Done b' ∧ length (elems b') = length (elems b) ∧
    (∀ j, bit j (elems b') = bit j (elems b) || bool_decide (j = i)) ∧
    journal b' = {[i / 64]} ∪ journal b ∧
    (∀ e, e ≠ i / 64 → elems b' !! e = elems b !! e).
Proof.
  intros Hi. unfold bitvec_set. destruct (lookup_lt_is_Some_2 _ _ Hi) as [v Hv]. rewrite Hv.
  eexists. split; [done|]. cbn [elems journal]. split; [by rewrite length_insert|].
  split; [|split; [done|intros e He; by rewrite list_lookup_insert_ne]].
  intros j. unfold bit. destruct (decide (j / 64 = i / 64)) as [E|E].
  - rewrite E, list_lookup_insert_eq, Hv by done. cbn [from_option id].
    rewrite Z.lor_spec, Z.shiftl_1_l. f_equal.
    pose proof (Nat.div_mod_eq j 64). pose proof (Nat.div_mod_eq i 64).
    destruct (decide (j = i)) as [->|Hne].
    + rewrite Z.pow2_bits_true by lia. by rewrite bool_decide_eq_true_2.
    + rewrite Z.pow2_bits_false by lia. by rewrite bool_decide_eq_false_2.
  - rewrite list_lookup_insert_ne by done. rewrite bool_decide_eq_false_2, orb_false_r; [done|].
    by intros ->.
Qed.

(** The bits of an item. *)
Definition item_bits (b : Bloom) (item : T) : list nat :=
  bit_offset b (sip_hash item) <$> range 0 (k_num b).

Lemma bit_offset_bound b base k_i : bloom_ok b → bit_offset b base k_i / 64 < length (elems (bitmap b)).
Proof.
  intros Hb. unfold bloom_ok, bit_offset in *.
  pose proof (Z.mod_pos_bound (bloom_hash base k_i) (bitmap_bits b)).
  apply Nat.Div0.div_lt_upper_bound. lia.
Qed.

(** [set] sets the bits of the item, and no other ones. *)
Lemma bloom_set_ok b item :
  bloom_ok b →
  ∃ b', bloom_set item b = Done b' ∧ bloom_ok b' ∧
    bitmap_bits b' = bitmap_bits b ∧ k_num b' = k_num b ∧
    ∀ j, bit j (elems (bitmap b')) = bit j (elems (bitmap b)) || bool_decide (j ∈ item_bits b item).
Proof.
  intros Hb. unfold bloom_set, item_bits. generalize (range 0 (k_num b)). intros ks.
  revert b Hb. induction ks as [|k ks IH]; intros b Hb; cbn.
  { exists b. split_and!; try done. intros j.
    by rewrite bool_decide_eq_false_2, orb_false_r by apply not_elem_of_nil. }
  destruct (bitvec_set_ok (bit_offset b (sip_hash item) k) (bitmap b)) as (v & -> & Hl & Hj & _);
    [by apply bit_offset_bound|]. cbn.
  destruct (IH (mkBloom v (bitmap_bits b) (k_num b))) as (b' & -> & Hb' & H1 & H2 & Hj').
  { unfold bloom_ok in *. cbn. by rewrite Hl. }
  exists b'. split_and!; try done. intros j. rewrite Hj', Hj. cbn. rewrite <- orb_assoc. f_equal.
  rewrite <- bool_decide_or. apply bool_decide_ext. by rewrite elem_of_cons.
Qed.

Lemma bloom_check_ok b item :
  bloom_ok b →
  bloom_check item b = Done (forallb (λ i, bit i (elems (bitmap b))) (item_bits b item)).
Proof.
  intros Hb. unfold bloom_check, item_bits. generalize (range 0 (k_num b)). intros ks.
  induction ks as [|k ks IH]; cbn; [done|].
  rewrite bitvec_get_ok by by apply bit_offset_bound. cbn.
  destruct (bit (bit_offset b (sip_hash item) k) (elems (bitmap b))); [done|done].
Qed.

Lemma bloom_set_check b b' item other :
  bloom_ok b → bloom_set item b = Done b' →
  bloom_check item b' = Done true ∧
  (bloom_check other b = Done true → bloom_check other b' = Done true).
Proof.
  intros Hb E. destruct (bloom_set_ok b item Hb) as (b1 & E1 & Hb1 & Hbits & Hk & Hj).
  rewrite E in E1. injection E1 as <-. rewrite !bloom_check_ok by done.
  assert (∀ x, item_bits b' x = item_bits b x) as Hi.
  { intros x. unfold item_bits, bit_offset. by rewrite Hbits, Hk. }
  rewrite !Hi. split.
  - f_equal. apply forallb_forall. intros j Hin. rewrite Hj.
    rewrite bool_decide_eq_true_2 by by apply list_elem_of_In. apply orb_true_r.
  - intros [= Ho]. f_equal. apply forallb_forall. intros j Hin. rewrite Hj.
    by rewrite (proj1 (forallb_forall _ _) Ho j Hin).
Qed.

(** The filter has no false negatives: whatever addresses are noted, in any order, the
    calls do not panic and every one of them is found afterwards. *)
Theorem bloom_no_false_negatives (b : Bloom) (items : list T) :
  bloom_ok b →
  ∃ b', foldM (λ b item, bloom_set item b) b items = Done b' ∧ bloom_ok b' ∧
    (∀ item, item ∈ items → bloom_check item b' = Done true) ∧
    (∀ item, bloom_check item b = Done true → bloom_check item b' = Done true).
Proof.
  revert b. induction items as [|x items IH]; intros b Hb; cbn.
  { exists b. split_and!; try done. by intros item ?%elem_of_nil. }
  destruct (bloom_set_ok b x Hb) as (b1 & E1 & Hb1 & _). rewrite E1. cbn.
  destruct (IH b1 Hb1) as (b' & -> & Hb' & Hin & Hmono).
  assert (∀ item, bloom_check item b = Done true → bloom_check item b' = Done true) as Hm.
  { intros item Hc. apply Hmono. by apply (proj2 (bloom_set_check b b1 x item Hb E1)). }
  exists b'. split_and!; try done. intros item [->|Hi]%elem_of_cons; [|by apply Hin].
  apply Hmono. exact (proj1 (bloom_set_check b b1 x x Hb E1)).
Qed.
End Bloom.
