(* ===== verification/Account.v ===== *)
(** * Accounts

    [src/parity-ethereum/ethcore/account-state/src/account.rs] and
    [src/parity-ethereum/ethcore/types/src/basic_account.rs]: one account with the changes to
    its code and storage that are not yet in the database.

    The tries and the hash database come from the [trie-db] and [hash-db] crates, the caches
    from [lru-cache]: they are parameters.  A lookup in a trie takes the address and not its
    hash, so [address_hash], which caches that hash, is left out. *)

From S2P Require Import Prelude Hash Transaction.

Section Constants.
Context `{Keccak}.

(** The hash of the empty string, and of the RLP encoding of it. *)
Definition KECCAK_EMPTY : H256 := keccak [].
Definition KECCAK_NULL_RLP : H256 := keccak ["128"%byte].
End Constants.

(** [BasicAccount]: what the state trie has of an account. *)
Record BasicAccount := mkBasic {
  basic_nonce : Z;
  basic_balance : Z;
  basic_storage_root : H256;
  basic_code_hash : H256;
  basic_code_version : Z;
}.

(** [TrieError], as far as the code makes them. *)
Inductive TrieError :=
| InvalidStateRoot (root : H256)
| IncompleteDatabase (a : Address)
| NonceOverflow (a : Address)
| TrieFailure.

(** ** The libraries *)

(** [lru_cache::LruCache<K, V>]; [lru_get] is [get_mut], which notes the use of the key. *)
Class LruCache (K V : Type) := {
  lru : Type;
  lru_new : nat → lru;
  lru_get : lru → K → option V * lru;
  lru_insert : lru → K → V → lru;
  lru_remove : lru → K → lru;
  lru_clear : lru → lru;
  lru_list : lru → list (K * V);
}.
Arguments lru K V {_}.

(** A cache has at most what was inserted last under each key; a lookup finds what it has. *)
Class LruLaws (K V : Type) `{Countable K} `{!LruCache K V} := {
  lru_entries : lru K V → gmap K V;
  lru_entries_new n : lru_entries (lru_new n) = ∅;
  lru_entries_get c k : (lru_get c k).1 = lru_entries c !! k;
  lru_entries_touch c k : lru_entries (lru_get c k).2 = lru_entries c;
  lru_entries_insert c k v : lru_entries (lru_insert c k v) ⊆ <[k := v]> (lru_entries c);
  lru_entries_remove c k : lru_entries (lru_remove c k) = delete k (lru_entries c);
  lru_entries_clear c : lru_entries (lru_clear c) = ∅;
  lru_entries_list c k v : (k, v) ∈ lru_list c → lru_entries c !! k = Some v;
}.

(** A cache that never evicts. *)
Definition example_lru (K V : Type) `{Countable K} : LruCache K V := {|
  lru := gmap K V;
  lru_new _ := ∅;
  lru_get c k := (c !! k, c);
  lru_insert c k v := <[k := v]> c;
  lru_remove c k := delete k c;
  lru_clear _ := ∅;
  lru_list c := map_to_list c;
|}.

Lemma example_lru_laws (K V : Type) `{Countable K} :
  LruLaws K V (LruCache0 := example_lru K V).
Proof.
  refine {| lru_entries (c : lru K V (LruCache := example_lru K V)) := c |}; try done.
  intros c k v Hin. by apply elem_of_map_to_list in Hin.
Defined.

(** The hash database and the tries in it.  [storage_lookup] opens the storage trie of an
    account and decodes the value of a key, zero if there is none; [account_lookup] does the
    same on the state trie. *)
Class TrieDatabase := {
  hash_db : Type;
  account_lookup : hash_db → H256 → Address → Result (option BasicAccount) TrieError;
  storage_lookup : hash_db → Address → H256 → H256 → Result Z TrieError;
  code_lookup : hash_db → Address → H256 → option (list byte);
  code_emplace : hash_db → Address → H256 → list byte → hash_db;
  storage_open : hash_db → Address → H256 → Result unit TrieError;
  storage_insert : hash_db → Address → H256 → H256 → Z → Result (hash_db * H256) TrieError;
  storage_remove : hash_db → Address → H256 → H256 → Result (hash_db * H256) TrieError;
  account_open : hash_db → H256 → Result unit TrieError;
  account_insert : hash_db → H256 → Address → BasicAccount → Result (hash_db * H256) TrieError;
  account_remove : hash_db → H256 → Address → Result (hash_db * H256) TrieError;
  root_contained : hash_db → H256 → bool;
}.

(** ** Data *)

Definition STORAGE_CACHE_ITEMS : nat := 8 * 1024.

Inductive Filth := CodeClean | CodeDirty.

Definition U256_MAX : Z := 2 ^ 256 - 1.
Definition saturating_add (a b : Z) : Z := Z.min (a + b) U256_MAX.

#[global] Instance filth_eq_dec : EqDecision Filth.
Proof. solve_decision. Defined.

Section Account.
Context `{Keccak} `{LruCache H256 H256} `{TrieDatabase}.

Record Account := mkAccount {
  acc_balance : Z;
  acc_nonce : Z;
  acc_storage_root : H256;
  storage_cache : lru H256 H256;
  original_storage_cache : option (H256 * lru H256 H256);
  storage_changes : gmap H256 H256;
  acc_code_hash : H256;
  acc_code_size : option nat;
  code_cache : list byte;
  acc_code_version : Z;
  code_filth : Filth;
}.

Definition empty_storage_cache : lru H256 H256 := lru_new STORAGE_CACHE_ITEMS.

(** [From<BasicAccount>], and [from_rlp] on decoded bytes. *)
Definition from_basic (basic : BasicAccount) : Account :=
  mkAccount (basic_balance basic) (basic_nonce basic) (basic_storage_root basic)
    empty_storage_cache None ∅ (basic_code_hash basic) None [] (basic_code_version basic)
    CodeClean.

Definition new_basic (balance nonce : Z) : Account :=
  mkAccount balance nonce KECCAK_NULL_RLP empty_storage_cache None ∅ KECCAK_EMPTY (Some 0) [] 0
    CodeClean.

Definition account_new_contract (balance nonce version : Z) (original_storage_root : H256) :
    Account :=
  mkAccount balance nonce KECCAK_NULL_RLP empty_storage_cache
    (if decide (original_storage_root = KECCAK_NULL_RLP) then None
     else Some (original_storage_root, empty_storage_cache))
    ∅ KECCAK_EMPTY None [] version CodeClean.

Definition account_init_code (code : list byte) (self : Account) : Account :=
  mkAccount (acc_balance self) (acc_nonce self) (acc_storage_root self) (storage_cache self)
    (original_storage_cache self) (storage_changes self) (keccak code) (Some (length code)) code
    (acc_code_version self) CodeDirty.

Definition account_reset_code (code : list byte) (self : Account) : Account :=
  account_init_code code self.

Definition reset_code_and_storage (code : list byte) (storage : gmap H256 H256)
    (self : Account) : Account :=
  mkAccount (acc_balance self) (acc_nonce self) KECCAK_NULL_RLP empty_storage_cache
    (if decide (acc_storage_root self = KECCAK_NULL_RLP) then original_storage_cache self
     else Some (acc_storage_root self, empty_storage_cache))
    storage (keccak code) (Some (length code)) code (acc_code_version self) CodeDirty.

Definition set_storage_changes (m : gmap H256 H256) (self : Account) : Account :=
  mkAccount (acc_balance self) (acc_nonce self) (acc_storage_root self) (storage_cache self)
    (original_storage_cache self) m (acc_code_hash self) (acc_code_size self) (code_cache self)
    (acc_code_version self) (code_filth self).
Definition set_storage_cache (c : lru H256 H256) (self : Account) : Account :=
  mkAccount (acc_balance self) (acc_nonce self) (acc_storage_root self) c
    (original_storage_cache self) (storage_changes self) (acc_code_hash self)
    (acc_code_size self) (code_cache self) (acc_code_version self) (code_filth self).
Definition set_original (o : option (H256 * lru H256 H256)) (self : Account) : Account :=
  mkAccount (acc_balance self) (acc_nonce self) (acc_storage_root self) (storage_cache self)
    o (storage_changes self) (acc_code_hash self) (acc_code_size self) (code_cache self)
    (acc_code_version self) (code_filth self).
Definition set_code (size : option nat) (code : list byte) (f : Filth) (self : Account) :
    Account :=
  mkAccount (acc_balance self) (acc_nonce self) (acc_storage_root self) (storage_cache self)
    (original_storage_cache self) (storage_changes self) (acc_code_hash self) size code
    (acc_code_version self) f.
Definition set_balance (balance : Z) (self : Account) : Account :=
  mkAccount balance (acc_nonce self) (acc_storage_root self) (storage_cache self)
    (original_storage_cache self) (storage_changes self) (acc_code_hash self)
    (acc_code_size self) (code_cache self) (acc_code_version self) (code_filth self).
Definition set_nonce (nonce : Z) (self : Account) : Account :=
  mkAccount (acc_balance self) nonce (acc_storage_root self) (storage_cache self)
    (original_storage_cache self) (storage_changes self) (acc_code_hash self)
    (acc_code_size self) (code_cache self) (acc_code_version self) (code_filth self).
Definition set_storage_root (root : H256) (self : Account) : Account :=
  mkAccount (acc_balance self) (acc_nonce self) root (storage_cache self)
    (original_storage_cache self) (storage_changes self) (acc_code_hash self)
    (acc_code_size self) (code_cache self) (acc_code_version self) (code_filth self).

(** ** Storage *)

Definition account_set_storage (key value : H256) (self : Account) : Account :=
  set_storage_changes (<[key := value]> (storage_changes self)) self.

(** The lookups take [&self] and note the use of a key in a cache behind a [RefCell]: they
    return the account with the cache they leave. *)
Definition cached_moved_original_storage_at (key : H256) (self : Account) :
    option H256 * Account :=
  if decide (acc_storage_root self = KECCAK_NULL_RLP) then (Some h256_default, self)
  else
    let '(value, c) := lru_get (storage_cache self) key in
    (value, set_storage_cache c self).

Definition cached_storage_at (key : H256) (self : Account) : option H256 * Account :=
  match storage_changes self !! key with
  | Some value => (Some value, self)
  | None => cached_moved_original_storage_at key self
  end.

Definition cached_original_storage_at (key : H256) (self : Account) : option H256 * Account :=
  match original_storage_cache self with
  | Some (root, c) =>
      let '(value, c) := lru_get c key in
      (value, set_original (Some (root, c)) self)
  | None => cached_moved_original_storage_at key self
  end.

Definition get_and_cache_storage (db : hash_db) (a : Address) (root : H256) (c : lru H256 H256)
    (key : H256) : Result (H256 * lru H256 H256) TrieError :=
  try_bind (storage_lookup db a root key) (λ item,
    let value := h256 item in
    Ok (value, lru_insert c key value)).

Definition account_storage_at (db : hash_db) (a : Address) (key : H256) (self : Account) :
    Result (H256 * Account) TrieError :=
  let '(value, self) := cached_storage_at key self in
  match value with
  | Some value => Ok (value, self)
  | None =>
      try_bind (get_and_cache_storage db a (acc_storage_root self) (storage_cache self) key)
        (λ '(value, c), Ok (value, set_storage_cache c self))
  end.

Definition account_original_storage_at (db : hash_db) (a : Address) (key : H256)
    (self : Account) : Result (H256 * Account) TrieError :=
  let '(value, self) := cached_original_storage_at key self in
  match value with
  | Some value => Ok (value, self)
  | None =>
      match original_storage_cache self with
      | Some (root, c) =>
          try_bind (get_and_cache_storage db a root c key)
            (λ '(value, c), Ok (value, set_original (Some (root, c)) self))
      | None =>
          try_bind (get_and_cache_storage db a (acc_storage_root self) (storage_cache self) key)
            (λ '(value, c), Ok (value, set_storage_cache c self))
      end
  end.

Definition storage_is_clean (self : Account) : bool := bool_decide (storage_changes self = ∅).

Definition account_storage_root (self : Account) : option H256 :=
  if storage_is_clean self then Some (acc_storage_root self) else None.

Definition account_original_storage_root (self : Account) : H256 :=
  match original_storage_cache self with
  | Some (root, _) => root
  | None => acc_storage_root self
  end.

Definition account_base_storage_root_unchanged (self : Account) : bool :=
  match original_storage_cache self with Some _ => false | None => true end.

(** ** Code *)

Definition account_code (self : Account) : option (list byte) :=
  if bool_decide (acc_code_hash self ≠ KECCAK_EMPTY) && bool_decide (code_cache self = [])
  then None else Some (code_cache self).

Definition is_cached (self : Account) : bool :=
  bool_decide (code_cache self ≠ []) ||
  (bool_decide (code_cache self = []) && bool_decide (acc_code_hash self = KECCAK_EMPTY)).

Definition cache_code (db : hash_db) (a : Address) (self : Account) :
    option (list byte) * Account :=
  if is_cached self then (Some (code_cache self), self)
  else match code_lookup db a (acc_code_hash self) with
       | Some x => (Some x, set_code (Some (length x)) x (code_filth self) self)
       | None => (None, self)
       end.

Definition cache_given_code (code : list byte) (self : Account) : Account :=
  set_code (Some (length code)) code (code_filth self) self.

Definition cache_code_size (db : hash_db) (a : Address) (self : Account) : bool * Account :=
  match acc_code_size self with
  | Some _ => (true, self)
  | None =>
      if decide (acc_code_hash self = KECCAK_EMPTY)
      then (true, set_code (Some 0) (code_cache self) (code_filth self) self)
      else match code_lookup db a (acc_code_hash self) with
           | Some x => (true, set_code (Some (length x)) (code_cache self) (code_filth self) self)
           | None => (false, self)
           end
  end.

(** ** Balance and nonce *)

Definition is_null (self : Account) : bool :=
  (acc_balance self =? 0)%Z && (acc_nonce self =? 0)%Z &&
  bool_decide (acc_code_hash self = KECCAK_EMPTY).

Definition is_basic (self : Account) : bool := bool_decide (acc_code_hash self = KECCAK_EMPTY).

(** [Account::is_empty], with its assertion. *)
Definition is_empty (self : Account) : Outcome bool :=
  if storage_is_clean self
  then Done (is_null self && bool_decide (acc_storage_root self = KECCAK_NULL_RLP))
  else Panic.

Definition account_inc_nonce (self : Account) : Account :=
  set_nonce (saturating_add (acc_nonce self) 1) self.
Definition account_add_balance (x : Z) (self : Account) : Account :=
  set_balance (saturating_add (acc_balance self) x) self.
Definition account_sub_balance (x : Z) (self : Account) : Outcome Account :=
  if (x <=? acc_balance self)%Z then Done (set_balance (acc_balance self - x) self) else Panic.

(** ** Commit *)

(** The changes are drained in the order of the hash table. *)
Fixpoint commit_changes (db : hash_db) (a : Address) (root : H256) (c : lru H256 H256)
    (changes : list (H256 * H256)) : Result (hash_db * H256 * lru H256 H256) TrieError :=
  match changes with
  | [] => Ok (db, root, c)
  | (k, v) :: changes =>
      try_bind (if (h256_Z v =? 0)%Z then storage_remove db a root k
                else storage_insert db a root k (h256_Z v)) (λ '(db, root),
        commit_changes db a root (lru_insert c k v) changes)
  end.

Definition commit_storage `{HashOrder} (db : hash_db) (a : Address) (self : Account) :
    Result (hash_db * Account) TrieError :=
  try_bind (storage_open db a (acc_storage_root self)) (λ _,
    try_bind (commit_changes db a (acc_storage_root self) (storage_cache self)
                (hash_iter (storage_changes self))) (λ '(db, root, c),
      Ok (db, set_original None (set_storage_changes ∅
                (set_storage_cache c (set_storage_root root self)))))).

Definition commit_code (db : hash_db) (a : Address) (self : Account) : hash_db * Account :=
  match code_filth self, code_cache self with
  | CodeDirty, [] => (db, set_code (Some 0) [] CodeClean self)
  | CodeDirty, code =>
      (code_emplace db a (acc_code_hash self) code,
       set_code (Some (length code)) code CodeClean self)
  | CodeClean, _ => (db, self)
  end.

(** [Account::rlp], before the encoding. *)
Definition to_basic (self : Account) : BasicAccount :=
  mkBasic (acc_nonce self) (acc_balance self) (acc_storage_root self) (acc_code_hash self)
    (acc_code_version self).

(** ** Copies *)

Definition clone_basic (self : Account) : Account :=
  mkAccount (acc_balance self) (acc_nonce self) (acc_storage_root self) empty_storage_cache
    ((λ o, (o.1, empty_storage_cache)) <$> original_storage_cache self) ∅ (acc_code_hash self)
    (acc_code_size self) (code_cache self) (acc_code_version self) (code_filth self).

Definition clone_dirty (self : Account) : Account :=
  set_storage_changes (storage_changes self) (clone_basic self).

(** [overwrite_with], which keeps the storage cache when the root stays. *)
Definition account_overwrite_with (other self : Account) : Account :=
  mkAccount (acc_balance other) (acc_nonce other) (acc_storage_root other)
    (if decide (acc_storage_root self = acc_storage_root other)
     then foldl (λ c kv, lru_insert c kv.1 kv.2) (storage_cache self)
            (lru_list (storage_cache other))
     else storage_cache other)
    (original_storage_cache other) (storage_changes other) (acc_code_hash other)
    (acc_code_size other) (code_cache other) (acc_code_version other) (code_filth other).
End Account.
