(* ===== verification/State.v ===== *)
(** * The state of all accounts

    [src/parity-ethereum/ethcore/account-state/src/state.rs]: a cache of accounts over the
    state trie, with nested checkpoints that can be reverted or merged.

    An operation is a function from the state to the state it leaves and its result; the
    result is an error when a trie lookup fails, and the operation panics when an assertion
    of the source does.  The queries take [&self] but fill the cache behind a [RefCell], so
    they change the state too. *)

From S2P Require Import Prelude Hash Transaction Account.

Inductive AccountState := CleanFresh | CleanCached | Dirty | Committed.
#[global] Instance account_state_eq_dec : EqDecision AccountState.
Proof. solve_decision. Defined.

(** [RequireCache] and [CleanupMode]; the set of touched addresses is passed along. *)
Inductive RequireCache := RequireNone | RequireCodeSize | RequireCode.
Inductive CleanupMode :=
| ForceCreate
| NoEmpty
| TrackTouched (touched : gset Address).

(** ** The backend

    The trait [Backend] of [account-state/src/backend.rs]: a database, a cache of accounts
    shared with others, a cache of code, and a filter for accounts that do not exist. *)
Class Backend `{LruCache H256 H256} `{TrieDatabase} (B : Type) := {
  as_hash_db : B → hash_db;
  set_hash_db : hash_db → B → B;
  get_cached_account : Address → B → option (option Account) * B;
  get_cached : Address → B → option (option Account) * B;
  put_cached : Address → option Account → B → B;
  get_cached_code : H256 → B → option (list byte) * B;
  backend_cache_code : H256 → list byte → B → B;
  note_non_null_account : Address → B → Outcome B;
  is_known_null : B → Address → Outcome bool;
}.

Section State.
Context `{Keccak} `{LruCache H256 H256} `{TrieDatabase} `{HashOrder}.

Record AccountEntry := mkEntry {
  entry_account : option Account;
  old_balance : option Z;
  entry_state : AccountState;
}.

Definition is_dirty (e : AccountEntry) : bool := bool_decide (entry_state e = Dirty).

Definition exists_and_is_null (e : AccountEntry) : bool :=
  match entry_account e with Some a => is_null a | None => false end.

Definition entry_clone_dirty (e : AccountEntry) : AccountEntry :=
  mkEntry (clone_dirty <$> entry_account e) (old_balance e) (entry_state e).

Definition clone_if_dirty (e : AccountEntry) : option AccountEntry :=
  if is_dirty e then Some (entry_clone_dirty e) else None.

Definition new_dirty (account : option Account) : AccountEntry :=
  mkEntry account (acc_balance <$> account) Dirty.
Definition new_clean (account : option Account) : AccountEntry :=
  mkEntry account (acc_balance <$> account) CleanFresh.
Definition new_clean_cached (account : option Account) : AccountEntry :=
  mkEntry account (acc_balance <$> account) CleanCached.

Definition entry_overwrite_with (other self : AccountEntry) : AccountEntry :=
  mkEntry
    (match entry_account other, entry_account self with
     | Some acc, Some ours => Some (account_overwrite_with acc ours)
     | Some acc, None => Some acc
     | None, _ => None
     end) (old_balance self) (entry_state other).

Context {B : Type} `{!Backend B}.

(** The last checkpoint is the head of the list. *)
Record State := mkState {
  st_db : B;
  st_root : H256;
  cache : gmap Address AccountEntry;
  checkpoints : list (gmap Address (option AccountEntry));
  account_start_nonce : Z;
}.

Definition set_db (db : B) (s : State) : State :=
  mkState db (st_root s) (cache s) (checkpoints s) (account_start_nonce s).
Definition set_root (root : H256) (s : State) : State :=
  mkState (st_db s) root (cache s) (checkpoints s) (account_start_nonce s).
Definition set_cache (c : gmap Address AccountEntry) (s : State) : State :=
  mkState (st_db s) (st_root s) c (checkpoints s) (account_start_nonce s).
Definition set_checkpoints (l : list (gmap Address (option AccountEntry))) (s : State) : State :=
  mkState (st_db s) (st_root s) (cache s) l (account_start_nonce s).

(** An operation on the state that may fail. *)
Definition SM (A : Type) : Type := State → Outcome (State * Result A TrieError).

#[export] Instance sm_ret : MRet SM := λ A a s, Done (s, Ok a).
#[export] Instance sm_bind : MBind SM := λ A B f m s,
  '(s, r) ← m s;
  match r with Ok a => f a s | Err e => Done (s, Err e) end.

Definition sm_state {A} (f : State → Outcome (State * Result A TrieError)) : SM A := f.
Definition sm_get : SM State := λ s, Done (s, Ok s).
Definition sm_set (s : State) : SM () := λ _, Done (s, Ok tt).
Definition sm_err {A} (e : TrieError) : SM A := λ s, Done (s, Err e).
Definition sm_lift {A} (r : Result A TrieError) : SM A := λ s, Done (s, r).
Definition sm_done {A} (o : Outcome A) : SM A := λ s, a ← o; Done (s, Ok a).

(** [State::from_existing]. *)
Definition from_existing (db : B) (root : H256) (account_start_nonce : Z) :
    Result State TrieError :=
  if root_contained (as_hash_db db) root
  then Ok (mkState db root ∅ [] account_start_nonce)
  else Err (InvalidStateRoot root).

(** ** Checkpoints *)

Definition checkpoint (self : State) : State * nat :=
  (set_checkpoints (∅ :: checkpoints self) self, length (checkpoints self)).

Definition discard_checkpoint (self : State) : State :=
  match checkpoints self with
  | [] => self
  | [_] => set_checkpoints [] self
  | checkpoint :: prev :: rest =>
      let prev :=
        if decide (prev = ∅) then checkpoint
        else foldl (λ prev kv, match prev !! kv.1 with
                               | Some _ => prev
                               | None => <[kv.1 := kv.2]> prev
                               end) prev (hash_iter checkpoint) in
      set_checkpoints (prev :: rest) self
  end.

(** One entry of the checkpoint goes back into the cache. *)
Definition revert_entry (c : gmap Address AccountEntry)
    (kv : Address * option AccountEntry) : gmap Address AccountEntry :=
  let '(k, v) := kv in
  match v with
  | Some v =>
      match c !! k with
      | Some e => <[k := entry_overwrite_with v e]> c
      | None => <[k := v]> c
      end
  | None =>
      match c !! k with
      | Some e => if is_dirty e then delete k c else c
      | None => c
      end
  end.

Definition revert_to_checkpoint (self : State) : State :=
  match checkpoints self with
  | [] => self
  | checkpoint :: rest =>
      set_cache (foldl revert_entry (cache self) (hash_iter checkpoint))
        (set_checkpoints rest self)
  end.

(** [checkpoint.entry(address).or_insert(old_value)] on the last checkpoint. *)
Definition note (a : Address) (old : option AccountEntry)
    (l : list (gmap Address (option AccountEntry))) :
    list (gmap Address (option AccountEntry)) :=
  match l with
  | [] => []
  | checkpoint :: rest =>
      match checkpoint !! a with
      | Some _ => checkpoint :: rest
      | None => <[a := old]> checkpoint :: rest
      end
  end.

Definition insert_cache (a : Address) (account : AccountEntry) (self : State) : State :=
  let old_value := cache self !! a in
  let self := set_cache (<[a := account]> (cache self)) self in
  if is_dirty account then set_checkpoints (note a old_value (checkpoints self)) self else self.

Definition note_cache (a : Address) (self : State) : State :=
  set_checkpoints (note a (entry_clone_dirty <$> cache self !! a) (checkpoints self)) self.

(** ** Access through the cache *)

Definition update_account_cache (require : RequireCache) (a : Address) (account : Account)
    (db : B) : bool * Account * B :=
  match require with
  | RequireNone => (true, account, db)
  | _ =>
      if is_cached account then (true, account, db)
      else
        let hash := acc_code_hash account in
        let '(code, db) := get_cached_code hash db in
        match code with
        | Some code => (true, cache_given_code code account, db)
        | None =>
            match require with
            | RequireCode =>
                let '(code, account) := cache_code (as_hash_db db) a account in
                match code with
                | Some code => (true, account, backend_cache_code hash code db)
                | None => (false, account, db)
                end
            | _ =>
                let '(ok, account) := cache_code_size (as_hash_db db) a account in
                (ok, account, db)
            end
        end
  end.

(** Write an account back to its entry. *)
Definition put_account (a : Address) (account : Account) (self : State) : State :=
  match cache self !! a with
  | Some e => set_cache (<[a := mkEntry (Some account) (old_balance e) (entry_state e)]>
                           (cache self)) self
  | None => self
  end.

Definition ensure_cached {U} (a : Address) (require : RequireCache) (check_null : bool)
    (f : option Account → U) : SM U := λ self,
  match cache self !! a with
  | Some e =>
      match entry_account e with
      | Some account =>
          let '(ok, account, db) := update_account_cache require a account (st_db self) in
          let self := put_account a account (set_db db self) in
          Done (self, if (ok : bool) then Ok (f (Some account)) else Err (IncompleteDatabase a))
      | None => Done (self, Ok (f None))
      end
  | None =>
      let '(cached, db) := get_cached a (st_db self) in
      let self := set_db db self in
      match cached with
      | Some (Some account) =>
          let '(ok, account, db) := update_account_cache require a account (st_db self) in
          let self := set_db (put_cached a (Some account) db) self in
          Done (self, if (ok : bool) then Ok (f (Some account)) else Err (IncompleteDatabase a))
      | Some None => Done (self, Ok (f None))
      | None =>
          known ← (if check_null then is_known_null (st_db self) a else Done false);
          if (known : bool) then Done (self, Ok (f None))
          else match account_lookup (as_hash_db (st_db self)) (st_root self) a with
               | Err e => Done (self, Err e)
               | Ok None => Done (insert_cache a (new_clean None) self, Ok (f None))
               | Ok (Some basic) =>
                   let '(ok, account, db) :=
                     update_account_cache require a (from_basic basic) (st_db self) in
                   let self := set_db db self in
                   if (ok : bool)
                   then Done (insert_cache a (new_clean (Some account)) self,
                              Ok (f (Some account)))
                   else Done (self, Err (IncompleteDatabase a))
               end
      end
  end.

(** The first part of [require_or_from]: the entry is in the cache. *)
Definition load_entry (a : Address) : SM () := λ self,
  match cache self !! a with
  | Some _ => Done (self, Ok tt)
  | None =>
      let '(cached, db) := get_cached_account a (st_db self) in
      let self := set_db db self in
      match cached with
      | Some acc => Done (insert_cache a (new_clean_cached acc) self, Ok tt)
      | None =>
          known ← is_known_null (st_db self) a;
          if (known : bool)
          then Done (insert_cache a (new_clean None) self, Ok tt)
          else match account_lookup (as_hash_db (st_db self)) (st_root self) a with
               | Err e => Done (self, Err e)
               | Ok basic =>
                   Done (insert_cache a (new_clean (from_basic <$> basic)) self, Ok tt)
               end
      end
  end.

(** [State::require_or_from] returns a reference to the account in the cache; here it returns
    the account, and [put_account] writes a change of it.  [not_default] does nothing at all
    the places it is given. *)
Definition require_or_from (a : Address) (require_code : bool) (default : Account) :
    SM Account :=
  _ ← load_entry a;
  sm_state (λ self,
    let self := note_cache a self in
    match cache self !! a with
    | None => Panic
    | Some entry =>
        let account := match entry_account entry with Some acc => acc | None => default end in
        let self := set_cache (<[a := mkEntry (Some account) (old_balance entry) Dirty]>
                                 (cache self)) self in
        if require_code then
          let '(ok, account, db) := update_account_cache RequireCode a account (st_db self) in
          let self := put_account a account (set_db db self) in
          Done (self, if (ok : bool) then Ok account else Err (IncompleteDatabase a))
        else Done (self, Ok account)
    end).

Definition require (a : Address) (require_code : bool) : SM Account := λ self,
  require_or_from a require_code (new_basic 0 (account_start_nonce self)) self.

(** Change a required account. *)
Definition update_account (a : Address) (f : Account → Outcome Account) (account : Account) :
    SM () := λ self,
  account ← f account;
  Done (put_account a account self, Ok tt).

(** ** Queries *)

Definition exists_account (a : Address) : SM bool :=
  ensure_cached a RequireNone false (λ acc, bool_decide (is_Some acc)).

Definition exists_and_not_null (a : Address) : SM bool :=
  ensure_cached a RequireNone false
    (λ acc, match acc with Some acc => negb (is_null acc) | None => false end).

Definition exists_and_has_code_or_nonce (a : Address) : SM bool := λ self,
  ensure_cached a RequireCodeSize false
    (λ acc, match acc with
            | Some acc => bool_decide (acc_code_hash acc ≠ KECCAK_EMPTY) ||
                          bool_decide (acc_nonce acc ≠ account_start_nonce self)
            | None => false
            end) self.

Definition balance (a : Address) : SM Z :=
  ensure_cached a RequireNone true
    (λ acc, match acc with Some acc => acc_balance acc | None => 0%Z end).

Definition nonce (a : Address) : SM Z := λ self,
  ensure_cached a RequireNone true
    (λ acc, match acc with Some acc => acc_nonce acc | None => account_start_nonce self end)
    self.

Definition is_base_storage_root_unchanged (a : Address) : SM bool :=
  r ← ensure_cached a RequireNone true (fmap account_base_storage_root_unchanged);
  mret (default true r).

Definition storage_root (a : Address) : SM (option H256) :=
  ensure_cached a RequireNone true (λ acc, acc ≫= account_storage_root).

Definition original_storage_root (a : Address) : SM H256 :=
  r ← ensure_cached a RequireNone true (fmap account_original_storage_root);
  mret (default KECCAK_NULL_RLP r).

Definition code (a : Address) : SM (option (list byte)) :=
  ensure_cached a RequireCode true (λ acc, acc ≫= account_code).

Definition code_hash (a : Address) : SM (option H256) :=
  ensure_cached a RequireNone true (fmap acc_code_hash).

Definition code_version (a : Address) : SM Z :=
  ensure_cached a RequireNone true (λ acc, default 0%Z (acc_code_version <$> acc)).

Definition code_size (a : Address) : SM (option nat) :=
  ensure_cached a RequireCodeSize true (λ acc, acc ≫= acc_code_size).

(** [storage_at_inner], with its two closures. *)
Definition storage_at_inner (a : Address) (key : H256)
    (f_cached_at : H256 → Account → option H256 * Account)
    (f_at : hash_db → Address → H256 → Account → Result (H256 * Account) TrieError) :
    SM H256 := λ self,
  let db := as_hash_db (st_db self) in
  let global self local :=
    let '(cached, cdb) := get_cached a (st_db self) in
    let self := set_db cdb self in
    match cached with
    | Some None => Done (self, Ok h256_default)
    | Some (Some acc) =>
        match f_at db a key acc with
        | Ok (v, acc) => Done (set_db (put_cached a (Some acc) (st_db self)) self, Ok v)
        | Err e => Done (self, Err e)
        end
    | None =>
        match local with
        | Some account =>
            match f_at db a key account with
            | Ok (v, account) => Done (put_account a account self, Ok v)
            | Err e => Done (self, Err e)
            end
        | None =>
            known ← is_known_null (st_db self) a;
            if (known : bool) then Done (self, Ok h256_default)
            else
              _ ← expect (account_open db (st_root self));
              match account_lookup db (st_root self) a with
              | Err e => Done (self, Err e)
              | Ok None => Done (insert_cache a (new_clean None) self, Ok h256_default)
              | Ok (Some basic) =>
                  match f_at db a key (from_basic basic) with
                  | Ok (v, acc) => Done (insert_cache a (new_clean (Some acc)) self, Ok v)
                  | Err e =>
                      Done (insert_cache a (new_clean (Some (from_basic basic))) self, Err e)
                  end
              end
        end
    end in
  match cache self !! a with
  | Some e =>
      match entry_account e with
      | Some account =>
          let '(v, account) := f_cached_at key account in
          let self := put_account a account self in
          match v with
          | Some v => Done (self, Ok v)
          | None => global self (Some account)
          end
      | None => Done (self, Ok h256_default)
      end
  | None => global self None
  end.

Definition storage_at (a : Address) (key : H256) : SM H256 :=
  storage_at_inner a key cached_storage_at account_storage_at.
Definition original_storage_at (a : Address) (key : H256) : SM H256 :=
  storage_at_inner a key cached_original_storage_at account_original_storage_at.

(** ** Storage at a checkpoint

    The loop of [checkpoint_storage_at] goes from the oldest checkpoint to the last one, the
    head of the list: [n] checkpoints are left.  A lookup notes the use of a key in the cache of
    the account in the checkpoint. *)
Inductive ReturnKind := OriginalAt | SameAsNext.

Definition put_checkpoint_account (n : nat) (a : Address) (account : Account) (self : State) :
    State :=
  set_checkpoints
    (alter (alter (fmap (λ e, mkEntry (Some account) (old_balance e) (entry_state e))) a) n
       (checkpoints self)) self.

Fixpoint checkpoint_loop (a : Address) (key : H256) (n : nat) (kind : option ReturnKind) :
    SM (H256 + option ReturnKind) := λ self,
  match n with
  | O => Done (self, Ok (inr kind))
  | S n =>
      match checkpoints self !! n ≫= lookup a with
      | Some (Some (mkEntry (Some account) _ _)) =>
          let '(value, account) := cached_storage_at key account in
          let self := put_checkpoint_account n a account self in
          match value with
          | Some value => Done (self, Ok (inl value))
          | None =>
              (root ← original_storage_root a;
               mret (if decide (acc_storage_root account = root) then inr (Some OriginalAt)
                     else inl h256_default)) self
          end
      | Some (Some (mkEntry None _ _)) => Done (self, Ok (inl h256_default))
      | Some None => Done (self, Ok (inr (Some OriginalAt)))
      | None => checkpoint_loop a key n (Some SameAsNext) self
      end
  end.

Definition checkpoint_storage_at (start_checkpoint_index : nat) (a : Address) (key : H256) :
    SM (option H256) := λ self,
  if (length (checkpoints self) <=? start_checkpoint_index)%nat then Done (self, Ok None)
  else
    (r ← checkpoint_loop a key (length (checkpoints self) - start_checkpoint_index) None;
     match r with
     | inl value => mret (Some value)
     | inr kind =>
         kind ← sm_done (unwrap kind);
         value ← (match kind with
                  | SameAsNext => storage_at a key
                  | OriginalAt => original_storage_at a key
                  end);
         mret (Some value)
     end) self.

(** ** Changes *)

Definition new_contract (contract : Address) (balance nonce_offset version : Z) : SM () :=
  original_storage_root ← original_storage_root contract;
  sm_state (λ self,
    let nonce := (account_start_nonce self + nonce_offset)%Z in
    if (2 ^ 256 <=? nonce)%Z then Done (self, Err (NonceOverflow contract))
    else Done (insert_cache contract (new_dirty (Some
           (account_new_contract balance nonce version original_storage_root))) self, Ok tt)).

Definition kill_account (a : Address) (self : State) : State :=
  insert_cache a (new_dirty None) self.

Definition touch (a : Address) : SM () := _ ← require a false; mret tt.

Definition add_balance (a : Address) (incr : Z) (mode : CleanupMode) : SM CleanupMode :=
  force ← (if bool_decide (incr ≠ 0%Z) then mret true
           else match mode with
                | ForceCreate => b ← exists_account a; mret (negb b)
                | _ => mret false
                end);
  if (force : bool) then
    account ← require a false;
    _ ← update_account a (λ acc, Done (account_add_balance incr acc)) account;
    mret mode
  else match mode with
       | TrackTouched set =>
           b ← exists_account a;
           if (b : bool) then _ ← touch a; mret (TrackTouched ({[a]} ∪ set)) else mret mode
       | _ => mret mode
       end.

Definition sub_balance (a : Address) (decr : Z) (mode : CleanupMode) : SM CleanupMode :=
  change ← (if bool_decide (decr ≠ 0%Z) then mret true
            else b ← exists_account a; mret (negb b));
  _ ← (if (change : bool) then
         account ← require a false;
         update_account a (account_sub_balance decr) account
       else mret tt);
  mret (match mode with TrackTouched set => TrackTouched ({[a]} ∪ set) | _ => mode end).

Definition transfer_balance (from to : Address) (by' : Z) (mode : CleanupMode) :
    SM CleanupMode :=
  mode ← sub_balance from by' mode;
  add_balance to by' mode.

Definition inc_nonce (a : Address) : SM () :=
  account ← require a false;
  update_account a (λ acc, Done (account_inc_nonce acc)) account.

Definition set_storage (a : Address) (key value : H256) : SM () :=
  v ← storage_at a key;
  if decide (v = value) then mret tt
  else
    account ← require a false;
    update_account a (λ acc, Done (account_set_storage key value acc)) account.

Definition init_code (a : Address) (code : list byte) : SM () := λ self,
  (account ← require_or_from a true
     (account_new_contract 0 (account_start_nonce self) 0 KECCAK_NULL_RLP);
   update_account a (λ acc, Done (account_init_code code acc)) account) self.

Definition reset_code (a : Address) (code : list byte) : SM () := λ self,
  (account ← require_or_from a true
     (account_new_contract 0 (account_start_nonce self) 0 KECCAK_NULL_RLP);
   update_account a (λ acc, Done (account_reset_code code acc)) account) self.

Definition patch_account (a : Address) (code : list byte) (storage : gmap H256 H256) : SM () :=
  account ← require a false;
  update_account a (λ acc, Done (reset_code_and_storage code storage acc)) account.

(** ** Garbage, commit and clear *)

Definition to_kill (touched : gset Address) (remove_empty_touched : bool)
    (min_balance : option Z) (kill_contracts : bool) (kv : Address * AccountEntry) : bool :=
  let '(a, e) := kv in
  bool_decide (a ∈ touched) &&
  ((remove_empty_touched && exists_and_is_null e) ||
   match min_balance, entry_account e with
   | Some b, Some account =>
       (is_basic account || kill_contracts) && (acc_balance account <? b)%Z &&
       match old_balance e with Some old => (acc_balance account <? old)%Z | None => false end
   | _, _ => false
   end).

Definition kill_garbage (touched : gset Address) (remove_empty_touched : bool)
    (min_balance : option Z) (kill_contracts : bool) (self : State) : State :=
  let kill := list_to_set (C := gset Address) (fst <$> filter (λ kv,
    to_kill touched remove_empty_touched min_balance kill_contracts kv = true)
    (hash_iter (cache self))) in
  foldl (λ self a, kill_account a self) self (hash_set_iter kill).

(** The first loop of [commit] on one dirty entry. *)
Definition commit_account (a : Address) : SM () := λ self,
  match cache self !! a with
  | Some (mkEntry (Some account) old st) =>
      match commit_storage (as_hash_db (st_db self)) a account with
      | Err e => Done (self, Err e)
      | Ok (db, account) =>
          let '(db, account) := commit_code db a account in
          let self := put_account a account (set_db (set_hash_db db (st_db self)) self) in
          empty ← is_empty account;
          if (empty : bool) then Done (self, Ok tt)
          else
            db ← note_non_null_account a (st_db self);
            Done (set_db db self, Ok tt)
      end
  | _ => Done (self, Ok tt)
  end.

(** The second loop of [commit] on one dirty entry. *)
Definition commit_entry (a : Address) : SM () := λ self,
  match cache self !! a with
  | Some (mkEntry account old _) =>
      let self := set_cache (<[a := mkEntry account old Committed]> (cache self)) self in
      let db := as_hash_db (st_db self) in
      match (match account with
             | Some account => account_insert db (st_root self) a (to_basic account)
             | None => account_remove db (st_root self) a
             end) with
      | Ok (db, root) =>
          Done (set_root root (set_db (set_hash_db db (st_db self)) self), Ok tt)
      | Err e => Done (self, Err e)
      end
  | None => Done (self, Ok tt)
  end.

Fixpoint sm_iter (f : Address → SM ()) (l : list Address) : SM () :=
  match l with
  | [] => mret tt
  | a :: l => _ ← f a; sm_iter f l
  end.

Definition commit : SM () := λ self,
  if decide (checkpoints self = []) then
    let dirty := fst <$> filter (λ kv, is_dirty kv.2 = true) (hash_iter (cache self)) in
    (_ ← sm_iter commit_account dirty;
     self ← sm_get;
     _ ← sm_lift (account_open (as_hash_db (st_db self)) (st_root self));
     sm_iter commit_entry dirty) self
  else Panic.

Definition clear (self : State) : Outcome State :=
  if decide (checkpoints self = []) then Done (set_cache ∅ self) else Panic.
End State.
