(* ===== verification/World.v ===== *)
(** * What the state promises

    The accounts as their users see them, without caches: a world assigns to an address the
    balance, nonce, code hash, storage and storage root of its account, if there is one.  The state with
    its checkpoints stands for the current world and a stack of saved worlds: a checkpoint
    saves the current world, reverting brings the last saved one back, and discarding drops
    it.  This file defines the worlds, the world a state stands for, and the invariant under
    which the caches of [State.v] agree with the database. *)

From S2P Require Import Prelude Hash Transaction Account State.

(** ** Worlds *)

Record View := mkView {
  v_balance : Z;
  v_nonce : Z;
  v_code_hash : H256;
  v_code_version : Z;
  v_storage : H256 → H256;
  v_original : H256 → H256;
  v_root : H256;
}.

(** Two views are the same when they agree on every key of the storage. *)
Record view_eq (v w : View) : Prop := {
  ve_balance : v_balance v = v_balance w;
  ve_nonce : v_nonce v = v_nonce w;
  ve_code_hash : v_code_hash v = v_code_hash w;
  ve_code_version : v_code_version v = v_code_version w;
  ve_storage k : v_storage v k = v_storage w k;
  ve_original k : v_original v k = v_original w k;
  ve_root : v_root v = v_root w;
}.
#[global] Instance view_equiv : Equiv View := view_eq.
#[global] Instance view_equivalence : Equivalence (≡@{View}).
Proof.
  split; [by intros v|intros v w []|intros u v w [] []]; split; intros; congruence.
Qed.

Definition World : Type := Address → option View.
Definition world_eq (w1 w2 : World) : Prop := ∀ a, w1 a ≡ w2 a.
#[global] Instance world_equiv : Equiv World := world_eq.
#[global] Instance world_equivalence : Equivalence (≡@{World}).
Proof.
  split; [by intros w a|intros w1 w2 Hw a; by symmetry|].
  intros w1 w2 w3 H1 H2 a. by trans (w2 a).
Qed.

Definition wset (a : Address) (v : option View) (w : World) : World :=
  λ b, if decide (b = a) then v else w b.

#[global] Instance wset_proper a : Proper ((≡) ==> (≡) ==> (≡@{World})) (wset a).
Proof. intros v v' Hv w w' Hw b. unfold wset. case_decide; [done|apply Hw]. Qed.

Lemma wset_same a v w : w a ≡ v → wset a v w ≡ w.
Proof. intros Hv b. unfold wset. case_decide as E; [by subst|done]. Qed.

(** ** The world of a state *)

Section World.
Context `{Keccak} `{LruCache H256 H256} `{!LruLaws H256 H256} `{TrieDatabase}.

(** The value of a key in a storage trie. *)
Definition stored (d : hash_db) (a : Address) (root key : H256) : H256 :=
  match storage_lookup d a root key with Ok z => h256 z | Err _ => h256_default end.

Definition base_storage (d : hash_db) (a : Address) (acc : Account) (key : H256) : H256 :=
  if decide (acc_storage_root acc = KECCAK_NULL_RLP) then h256_default
  else stored d a (acc_storage_root acc) key.

Definition view (d : hash_db) (a : Address) (acc : Account) : View :=
  mkView (acc_balance acc) (acc_nonce acc) (acc_code_hash acc) (acc_code_version acc)
    (λ key, match storage_changes acc !! key with
            | Some v => v
            | None => base_storage d a acc key
            end)
    (λ key, match original_storage_cache acc with
            | Some (root, _) => stored d a root key
            | None => base_storage d a acc key
            end)
    (acc_storage_root acc).

(** A storage trie without missing nodes. *)
Definition complete_root (d : hash_db) (a : Address) (root : H256) : Prop :=
  ∀ key, ∃ z, storage_lookup d a root key = Ok z.

(** The caches of an account agree with the database. *)
Record acc_ok (d : hash_db) (a : Address) (acc : Account) : Prop := {
  ao_root : acc_storage_root acc ≠ KECCAK_NULL_RLP → complete_root d a (acc_storage_root acc);
  ao_cache key v : lru_entries (storage_cache acc) !! key = Some v →
    acc_storage_root acc ≠ KECCAK_NULL_RLP → v = stored d a (acc_storage_root acc) key;
  ao_original root c : original_storage_cache acc = Some (root, c) →
    root ≠ KECCAK_NULL_RLP ∧ complete_root d a root ∧
    ∀ key v, lru_entries c !! key = Some v → v = stored d a root key;
  ao_code : if is_cached acc then keccak (code_cache acc) = acc_code_hash acc
            else code_filth acc = CodeClean;
  ao_clean : code_filth acc = CodeClean → acc_code_hash acc = KECCAK_EMPTY ∨
    ∃ code, code_lookup d a (acc_code_hash acc) = Some code ∧ keccak code = acc_code_hash acc;
}.

Definition db_account (d : hash_db) (root : H256) (a : Address) : option Account :=
  match account_lookup d root a with Ok (Some b) => Some (from_basic b) | _ => None end.

Definition db_world (d : hash_db) (root : H256) : World := λ a, view d a <$> db_account d root a.

(** The state trie is complete, and the filter knows its accounts. *)
Record db_ok (d : hash_db) (root : H256) (known_null : Address → Outcome bool) : Prop := {
  do_open : account_open d root = Ok tt;
  do_lookup a : ∃ r, account_lookup d root a = Ok r;
  do_account a b : account_lookup d root a = Ok (Some b) → acc_ok d a (from_basic b);
  do_known a : known_null a = Done true → account_lookup d root a = Ok None;
}.

Definition entry_view (d : hash_db) (a : Address) (e : AccountEntry) : option View :=
  view d a <$> entry_account e.

(** Entries that are not dirty are as the database has them. *)
Record entry_ok (d : hash_db) (root : H256) (a : Address) (e : AccountEntry) : Prop := {
  eo_account acc : entry_account e = Some acc → acc_ok d a acc;
  eo_clean : is_dirty e = false → entry_view d a e ≡ db_world d root a;
}.

(** The world before the changes whose old values are in a checkpoint. *)
Definition undo (d : hash_db) (root : H256) (m : gmap Address (option AccountEntry))
    (w : World) : World := λ a,
  match m !! a with
  | Some (Some e) => entry_view d a e
  | Some None => db_world d root a
  | None => w a
  end.

Fixpoint saved_worlds (d : hash_db) (root : H256)
    (l : list (gmap Address (option AccountEntry))) (w : World) : list World :=
  match l with
  | [] => []
  | m :: l => let w := undo d root m w in w :: saved_worlds d root l w
  end.

#[global] Instance undo_proper d root m : Proper ((≡) ==> (≡@{World})) (undo d root m).
Proof. intros w w' Hw a. unfold undo. destruct (m !! a) as [[e|]|]; [done..|apply Hw]. Qed.

Lemma saved_worlds_proper d root l w w' :
  w ≡ w' → Forall2 (≡@{World}) (saved_worlds d root l w) (saved_worlds d root l w').
Proof.
  revert w w'. induction l as [|m l IH]; intros w w' Hw; constructor.
  - by apply undo_proper.
  - apply IH. by apply undo_proper.
Qed.

Context `{HashOrder} {B : Type} `{!Backend B}.

(** The changes that writing tries makes to the database. *)
Class DbStep := db_step : hash_db → hash_db → Prop.

Definition same_backend (b b' : B) : Prop :=
  as_hash_db b' = as_hash_db b ∧ ∀ a, is_known_null b' a = is_known_null b a.

(** What a backend promises: the shared cache of accounts is not in use, and the code it has
    under a hash has that hash. *)
Class BackendLaws `{!DbStep} := {
  backend_ok : B → Prop;
  backend_uncached b a : backend_ok b → get_cached a b = (None, b) ∧ get_cached_account a b = (None, b);
  backend_code_get b h code b' : backend_ok b → get_cached_code h b = (code, b') →
    backend_ok b' ∧ same_backend b b' ∧ ∀ c, code = Some c → keccak c = h;
  backend_code_put b h c : backend_ok b → keccak c = h →
    backend_ok (backend_cache_code h c b) ∧ same_backend b (backend_cache_code h c b);
  backend_set_db b d : backend_ok b → db_step (as_hash_db b) d →
    backend_ok (set_hash_db d b) ∧ as_hash_db (set_hash_db d b) = d ∧
    ∀ a, is_known_null (set_hash_db d b) a = is_known_null b a;
  backend_known b a : backend_ok b → ∃ x, is_known_null b a = Done x;
  backend_note b a : backend_ok b →
    ∃ b', note_non_null_account a b = Done b' ∧ backend_ok b' ∧ as_hash_db b' = as_hash_db b ∧
      ∀ a', is_known_null b' a' = Done true → a' ≠ a ∧ is_known_null b a' = Done true;
}.

Abbreviation d_of s := (as_hash_db (st_db s)).

(** The current world of a state, and the worlds its checkpoints have saved. *)
Definition world (s : State) : World := λ a,
  match cache s !! a with
  | Some e => entry_view (d_of s) a e
  | None => db_world (d_of s) (st_root s) a
  end.

Definition saved (s : State) : list World :=
  saved_worlds (d_of s) (st_root s) (checkpoints s) (world s).
End World.
