(* ===== verification/StateInv.v ===== *)
(** * The caches of the state are transparent

    The operations on accounts, and the steps from which the operations of [State.v] are
    made, as steps between worlds: a step either keeps the current and all saved worlds, or
    changes the current world at one address and keeps the saved ones. *)

From S2P Require Import Prelude Hash Transaction Account State World.

Section AccountFacts.
Context `{Keccak} `{LruCache H256 H256} `{!LruLaws H256 H256} `{TrieDatabase}.
Variables (d : hash_db) (a : Address).

Lemma lru_empty key : lru_entries empty_storage_cache !! key = None.
Proof. unfold empty_storage_cache. by rewrite lru_entries_new, lookup_empty. Qed.

Lemma acc_ok_new_basic balance nonce : acc_ok d a (new_basic balance nonce).
Proof.
  split; cbn; [done|intros ??; by rewrite lru_empty|done| |by left].
  unfold is_cached. cbn. by rewrite !bool_decide_eq_true_2.
Qed.

(** A change of fields other than the caches. *)
Lemma acc_ok_fields acc acc' :
  acc_ok d a acc → acc_storage_root acc' = acc_storage_root acc →
  storage_cache acc' = storage_cache acc →
  original_storage_cache acc' = original_storage_cache acc →
  acc_code_hash acc' = acc_code_hash acc → code_cache acc' = code_cache acc →
  code_filth acc' = code_filth acc → acc_ok d a acc'.
Proof.
  intros [A1 A2 A3 A4 A5] Hr Hs Ho Hc Hcc Hf. split; rewrite ?Hr, ?Hs, ?Ho; [done..| |by rewrite Hc, Hf].
  assert (is_cached acc' = is_cached acc) as ->; [|by rewrite Hc, Hcc, Hf].
  unfold is_cached. by rewrite Hc, Hcc.
Qed.

Lemma acc_ok_set_storage_cache acc c :
  acc_ok d a acc →
  (∀ key v, lru_entries c !! key = Some v → acc_storage_root acc ≠ KECCAK_NULL_RLP →
    v = stored d a (acc_storage_root acc) key) →
  acc_ok d a (set_storage_cache c acc).
Proof. intros [A1 A2 A3 A4 A5] Hc. by split. Qed.

Lemma acc_ok_set_original acc root c :
  acc_ok d a acc → root ≠ KECCAK_NULL_RLP → complete_root d a root →
  (∀ key v, lru_entries c !! key = Some v → v = stored d a root key) →
  acc_ok d a (set_original (Some (root, c)) acc).
Proof. intros [A1 A2 A3 A4 A5] Hn Hr Hc. split; try done. by intros ?? [= <- <-]. Qed.

Lemma lru_insert_stored (P : H256 → H256 → Prop) c k v :
  (∀ key w, lru_entries c !! key = Some w → P key w) → P k v →
  ∀ key w, lru_entries (lru_insert c k v) !! key = Some w → P key w.
Proof.
  intros Hc Hv key w Hw. pose proof (lookup_weaken _ _ _ _ Hw (lru_entries_insert c k v)) as Hi.
  apply lookup_insert_Some in Hi as [[<- <-]|[_ Hi]]; [done|by apply Hc].
Qed.

Lemma view_set_storage_cache c acc : view d a (set_storage_cache c acc) ≡ view d a acc.
Proof. done. Qed.

Lemma view_set_original root c c' acc :
  original_storage_cache acc = Some (root, c) →
  view d a (set_original (Some (root, c')) acc) ≡ view d a acc.
Proof. intros E. split; try done. intros key. cbn. by rewrite E. Qed.

Lemma cached_moved_ok key acc :
  acc_ok d a acc →
  let '(r, acc') := cached_moved_original_storage_at key acc in
  acc_ok d a acc' ∧ view d a acc' ≡ view d a acc ∧
  storage_changes acc' = storage_changes acc ∧
  original_storage_cache acc' = original_storage_cache acc ∧
  acc_storage_root acc' = acc_storage_root acc ∧
  match r with
  | Some v => v = base_storage d a acc key
  | None => acc_storage_root acc ≠ KECCAK_NULL_RLP
  end.
Proof.
  intros Ha. unfold cached_moved_original_storage_at, base_storage. case_decide as E; [done|].
  pose proof (lru_entries_get (storage_cache acc) key) as Hg.
  pose proof (lru_entries_touch (storage_cache acc) key) as Ht.
  destruct (lru_get _ key) as [r c]. cbn in *. split; [|do 4 (split; [done|])].
  - apply acc_ok_set_storage_cache; [done|]. rewrite Ht. apply Ha.
  - destruct r as [v|]; [|done]. apply (ao_cache _ _ _ Ha); [done|done].
Qed.

Lemma cached_storage_at_ok key acc :
  acc_ok d a acc →
  let '(r, acc') := cached_storage_at key acc in
  acc_ok d a acc' ∧ view d a acc' ≡ view d a acc ∧
  match r with
  | Some v => v = v_storage (view d a acc) key
  | None => storage_changes acc' !! key = None ∧
      acc_storage_root acc' = acc_storage_root acc ∧ acc_storage_root acc ≠ KECCAK_NULL_RLP
  end.
Proof.
  intros Ha. unfold cached_storage_at. cbn.
  destruct (storage_changes acc !! key) as [v|] eqn:E; [done|].
  pose proof (cached_moved_ok key acc Ha) as Hm.
  destruct (cached_moved_original_storage_at key acc) as [[v|] acc'];
    destruct Hm as (? & ? & Hch & _ & ? & ?); [done|].
  do 2 (split; [done|]). by rewrite Hch.
Qed.

Lemma cached_original_storage_at_ok key acc :
  acc_ok d a acc →
  let '(r, acc') := cached_original_storage_at key acc in
  acc_ok d a acc' ∧ view d a acc' ≡ view d a acc ∧
  match r with
  | Some v => v = v_original (view d a acc) key
  | None =>
      match original_storage_cache acc with
      | Some (root, _) => ∃ c, original_storage_cache acc' = Some (root, c)
      | None => original_storage_cache acc' = None ∧
          acc_storage_root acc' = acc_storage_root acc ∧ acc_storage_root acc ≠ KECCAK_NULL_RLP
      end
  end.
Proof.
  intros Ha. unfold cached_original_storage_at.
  destruct (original_storage_cache acc) as [[root c]|] eqn:E.
  - destruct (ao_original _ _ _ Ha root c E) as (Hn & Hr & Hc).
    pose proof (lru_entries_get c key) as Hg. pose proof (lru_entries_touch c key) as Ht.
    destruct (lru_get c key) as [r c']. cbn in *. split; [|split].
    + apply acc_ok_set_original; [done..|]. by rewrite Ht.
    + by eapply view_set_original.
    + destruct r as [v|]; [|by eexists]. cbn. rewrite E. by apply Hc.
  - pose proof (cached_moved_ok key acc Ha) as Hm.
    destruct (cached_moved_original_storage_at key acc) as [[v|] acc'];
      destruct Hm as (? & ? & _ & Ho & ? & ?).
    + do 2 (split; [done|]). cbn. by rewrite E.
    + do 2 (split; [done|]). by rewrite Ho.
Qed.

Lemma get_and_cache_storage_ok root c key :
  complete_root d a root →
  get_and_cache_storage d a root c key =
    Ok (stored d a root key, lru_insert c key (stored d a root key)).
Proof.
  intros Hr. unfold get_and_cache_storage, stored. by destruct (Hr key) as [z ->].
Qed.

Lemma account_storage_at_ok key acc :
  acc_ok d a acc →
  ∃ acc', account_storage_at d a key acc = Ok (v_storage (view d a acc) key, acc') ∧
    acc_ok d a acc' ∧ view d a acc' ≡ view d a acc.
Proof.
  intros Ha. unfold account_storage_at. pose proof (cached_storage_at_ok key acc Ha) as Hc.
  destruct (cached_storage_at key acc) as [[v|] acc']; destruct Hc as (Ha' & Hv & Hr).
  { exists acc'. by rewrite Hr. }
  destruct Hr as (Hch & Hroot & Hne). rewrite get_and_cache_storage_ok by
    (apply (ao_root _ _ _ Ha'); congruence). cbn [try_bind].
  eexists. split; [do 2 f_equal|split; [|done]].
  - rewrite <- (ve_storage _ _ Hv key). cbn. rewrite Hch. unfold base_storage.
    rewrite decide_False by congruence. done.
  - apply acc_ok_set_storage_cache; [done|]. intros k v Hk _. revert k v Hk.
    apply (lru_insert_stored (λ k v, v = stored d a (acc_storage_root acc') k)); [|done].
    intros k v Hk. apply (ao_cache _ _ _ Ha'); [done|congruence].
Qed.

Lemma account_original_storage_at_ok key acc :
  acc_ok d a acc →
  ∃ acc', account_original_storage_at d a key acc = Ok (v_original (view d a acc) key, acc') ∧
    acc_ok d a acc' ∧ view d a acc' ≡ view d a acc.
Proof.
  intros Ha. unfold account_original_storage_at.
  pose proof (cached_original_storage_at_ok key acc Ha) as Hc.
  destruct (cached_original_storage_at key acc) as [[v|] acc']; destruct Hc as (Ha' & Hv & Hr).
  { exists acc'. by rewrite Hr. }
  rewrite <- (ve_original _ _ Hv key).
  destruct (original_storage_cache acc) as [[root c0]|] eqn:E.
  - destruct Hr as [c Ho]. rewrite Ho. destruct (ao_original _ _ _ Ha' root c Ho) as (Hn & Hcr & Hen).
    rewrite get_and_cache_storage_ok by done. cbn [try_bind]. eexists.
    split; [|split].
    + cbn. by rewrite Ho.
    + apply acc_ok_set_original; [done..|].
      by apply (lru_insert_stored (λ k v, v = stored d a root k)).
    + rewrite <- Hv. by eapply view_set_original.
  - destruct Hr as (Ho & Hroot & Hne). rewrite Ho.
    rewrite get_and_cache_storage_ok by (apply (ao_root _ _ _ Ha'); congruence).
    cbn [try_bind]. eexists. split; [|split].
    + cbn. rewrite Ho. unfold base_storage. by rewrite decide_False by congruence.
    + apply acc_ok_set_storage_cache; [done|]. intros k v Hk _. revert k v Hk.
      apply (lru_insert_stored (λ k v, v = stored d a (acc_storage_root acc') k)); [|done].
      intros k v Hk. apply (ao_cache _ _ _ Ha'); [done|congruence].
    + done.
Qed.

(** ** Copies *)

Lemma clone_dirty_ok acc :
  acc_ok d a acc → acc_ok d a (clone_dirty acc) ∧ view d a (clone_dirty acc) ≡ view d a acc.
Proof.
  intros [A1 A2 A3 A4 A5]. split.
  - split; cbn; [done|intros ??; by rewrite lru_empty| |done..].
    intros root c E. destruct (original_storage_cache acc) as [[r c0]|]; [|done].
    cbn in E. simplify_eq. destruct (A3 root c0 eq_refl) as (? & ? & _).
    split_and!; [done..|]. intros ??. by rewrite lru_empty.
  - split; try done. intros key. cbn. by destruct (original_storage_cache acc) as [[r c0]|].
Qed.

Lemma overwrite_with_ok other self :
  acc_ok d a other → acc_ok d a self →
  acc_ok d a (account_overwrite_with other self) ∧
  view d a (account_overwrite_with other self) ≡ view d a other.
Proof.
  intros [A1 A2 A3 A4 A5] [B1 B2 _ _ _]. split; [|done]. split; cbn; [done| |done..].
  intros key v. case_decide as E; [|by apply A2]. intros Hk Hne. revert key v Hk.
  assert (∀ l c, (∀ kv, kv ∈ l → lru_entries (storage_cache other) !! kv.1 = Some kv.2) →
    (∀ key v, lru_entries c !! key = Some v → v = stored d a (acc_storage_root other) key) →
    ∀ key v, lru_entries (foldl (λ c kv, lru_insert c kv.1 kv.2) c l) !! key = Some v →
      v = stored d a (acc_storage_root other) key) as Hfold.
  { induction l as [|[k v] l IH]; intros c Hl Hc; cbn; [done|].
    apply IH; [intros; apply Hl; by right|].
    apply (lru_insert_stored (λ k v, v = stored d a (acc_storage_root other) k)); [done|].
    apply A2; [apply (Hl (k, v)); left|done]. }
  apply Hfold.
  - intros [k v] Hin. by apply lru_entries_list.
  - intros key v Hk. rewrite <- E in *. by apply B2.
Qed.

(** ** Changes *)

Lemma is_cached_hash acc : acc_ok d a acc → is_cached acc = true →
  keccak (code_cache acc) = acc_code_hash acc.
Proof. intros [_ _ _ A4 _] E. by rewrite E in A4. Qed.

Lemma uncached_code acc : acc_ok d a acc → is_cached acc = false →
  ∃ code, code_lookup d a (acc_code_hash acc) = Some code ∧ keccak code = acc_code_hash acc.
Proof.
  intros [_ _ _ A4 A5] E. rewrite E in A4. destruct (A5 A4) as [He|]; [|done].
  unfold is_cached in E. rewrite He in E. destruct (code_cache acc); [|done].
  apply orb_false_iff in E as [_ E]. by rewrite !bool_decide_eq_true_2 in E.
Qed.

(** Code with the right hash can be put in the cache. *)
Lemma acc_ok_set_code acc size code :
  acc_ok d a acc → keccak code = acc_code_hash acc →
  let acc' := set_code size code (code_filth acc) acc in
  acc_ok d a acc' ∧ view d a acc' ≡ view d a acc ∧ is_cached acc' = true.
Proof.
  intros [A1 A2 A3 A4 A5] Hk acc'. assert (is_cached acc' = true) as Hc.
  { unfold is_cached. cbn. destruct code; cbn; [|done].
    by rewrite !bool_decide_eq_true_2. }
  split_and!; [split; try done|done|done]. by rewrite Hc.
Qed.

Lemma account_init_code_ok code acc :
  acc_ok d a acc → acc_ok d a (account_init_code code acc).
Proof.
  intros [A1 A2 A3 A4 A5]. split; try done.
  assert (is_cached (account_init_code code acc) = true) as ->; [|done].
  unfold is_cached. cbn. destruct code; cbn; [|done]. by rewrite !bool_decide_eq_true_2.
Qed.

Lemma account_new_contract_ok balance nonce version root :
  (root ≠ KECCAK_NULL_RLP → complete_root d a root) →
  acc_ok d a (account_new_contract balance nonce version root).
Proof.
  intros Hr. split; cbn; [done|intros ??; by rewrite lru_empty| | |by left].
  - intros root' c. case_decide; [done|]. intros [= <- <-]. split_and!; [done|by apply Hr|].
    intros ??. by rewrite lru_empty.
  - unfold is_cached. cbn. by rewrite !bool_decide_eq_true_2.
Qed.

Lemma original_root_complete acc :
  acc_ok d a acc → account_original_storage_root acc ≠ KECCAK_NULL_RLP →
  complete_root d a (account_original_storage_root acc).
Proof.
  intros [A1 A2 A3 A4 A5]. unfold account_original_storage_root.
  destruct (original_storage_cache acc) as [[r c]|]; [|done]. intros _. by eapply A3.
Qed.
End AccountFacts.

(** ** Steps of the state *)

Section Steps.
Context `{Keccak} `{LruCache H256 H256} `{!LruLaws H256 H256} `{TrieDatabase} `{HashOrder}.
Context {B : Type} `{!Backend B} `{!DbStep} `{!BackendLaws}.
Abbreviation d_of s := (as_hash_db (st_db s)).

Record state_ok (s : State) : Prop := {
  so_backend : backend_ok (st_db s);
  so_db : db_ok (d_of s) (st_root s) (is_known_null (st_db s));
  so_cache a e : cache s !! a = Some e → entry_ok (d_of s) (st_root s) a e;
  so_saved m a e : m ∈ checkpoints s → m !! a = Some (Some e) →
    entry_ok (d_of s) (st_root s) a e;
}.

Lemma update_account_cache_ok require a acc b :
  backend_ok b → acc_ok (as_hash_db b) a acc →
  let '(ok, acc', b') := update_account_cache require a acc b in
  ok = true ∧ acc_ok (as_hash_db b) a acc' ∧ view (as_hash_db b) a acc' ≡ view (as_hash_db b) a acc ∧
  backend_ok b' ∧ same_backend b b' ∧ (require = RequireCode → is_cached acc' = true).
Proof.
  intros Hb Ha. unfold update_account_cache.
  assert (same_backend b b) as Hrefl by done.
  destruct (is_cached acc) eqn:Ec; [by destruct require|].
  destruct (get_cached_code (acc_code_hash acc) b) as [code b1] eqn:Eg.
  destruct (backend_code_get b _ _ _ Hb Eg) as (Hb1 & Hs1 & Hcode).
  destruct (uncached_code _ a acc Ha Ec) as (c & Hc & Hk).
  destruct code as [code|].
  { destruct (acc_ok_set_code _ a acc (Some (length code)) code Ha
      (Hcode _ eq_refl)) as (? & ? & ?). by destruct require. }
  destruct Hs1 as [Hd1 Hn1]. destruct require; [done| |].
  - unfold cache_code_size. rewrite Hd1.
    destruct (acc_code_size acc); [done|]. case_decide as E.
    + split_and!; try done. eapply acc_ok_fields; done.
    + rewrite Hc. split_and!; try done. eapply acc_ok_fields; done.
  - unfold cache_code. rewrite Ec, Hd1, Hc.
    destruct (acc_ok_set_code _ a acc (Some (length c)) c Ha Hk) as (? & ? & ?).
    destruct (backend_code_put b1 (acc_code_hash acc) c Hb1 Hk) as (? & Hd2 & Hn2).
    split_and!; try done. split; [congruence|]. intros a'. by rewrite Hn2.
Qed.

(** ** Steps that keep all worlds *)

Record same_base (s s' : State) : Prop := {
  sb_db : d_of s' = d_of s;
  sb_root : st_root s' = st_root s;
  sb_nonce : account_start_nonce s' = account_start_nonce s;
}.

(** [keeps s w s']: the step to [s'] makes [w] the current world, and keeps the saved
    worlds. *)
Record keeps (s : State) (w : World) (s' : State) : Prop := {
  ke_ok : state_ok s';
  ke_base : same_base s s';
  ke_world : world s' ≡ w;
  ke_saved : Forall2 (≡@{World}) (saved s') (saved s);
}.

#[global] Instance forall2_world_equivalence : Equivalence (Forall2 (≡@{World})).
Proof. apply _. Qed.

Lemma keeps_refl s : state_ok s → keeps s (world s) s.
Proof. intros Hs. by split. Qed.

Lemma keeps_trans s w s' w' s'' : keeps s w s' → keeps s' w' s'' → keeps s w' s''.
Proof.
  intros [_ [B1 B2 B3] _ S1] [O2 [C1 C2 C3] W2 S2]. split; [done|split; congruence|done|].
  by trans (saved s').
Qed.

Lemma keeps_world s w w' s' : keeps s w s' → w ≡ w' → keeps s w' s'.
Proof. intros [O1 B1 W1 S1] Hw. split; [done..| |done]. by trans w. Qed.

(** The cache may change in any way that keeps the current world. *)
Lemma keeps_cache s s' :
  state_ok s → backend_ok (st_db s') → same_backend (st_db s) (st_db s') →
  st_root s' = st_root s → account_start_nonce s' = account_start_nonce s →
  checkpoints s' = checkpoints s →
  (∀ a e, cache s' !! a = Some e → entry_ok (d_of s) (st_root s) a e) →
  world s' ≡ world s → keeps s (world s) s'.
Proof.
  intros [O1 O2 O3 O4] Hb [Hd Hn] Hr Hno Hch Hc Hw.
  split; [split; rewrite ?Hd, ?Hr, ?Hch; try done|by split|done|].
  - destruct O2 as [D1 D2 D3 D4]. split; try done. intros a. rewrite Hn. apply D4.
  - unfold saved. rewrite Hd, Hr, Hch. by apply saved_worlds_proper.
Qed.

Lemma world_cache s a e : cache s !! a = Some e → world s a = entry_view (d_of s) a e.
Proof. unfold world. by intros ->. Qed.

(** An account in the cache is replaced by one with the same view. *)
Lemma keeps_put s a e acc b :
  state_ok s → cache s !! a = Some e →
  acc_ok (d_of s) a acc → Some (view (d_of s) a acc) ≡ entry_view (d_of s) a e →
  backend_ok b → same_backend (st_db s) b →
  keeps s (world s) (put_account a acc (set_db b s)).
Proof.
  intros Hs He Ha Hv Hb Hsame. unfold put_account. cbn. rewrite He. destruct Hsame as [Hd Hn].
  apply keeps_cache; cbn; [done..| |].
  - intros a' e'. destruct (decide (a = a')) as [<-|Hne].
    + rewrite lookup_insert_eq. intros [= <-]. pose proof (so_cache s Hs a e He) as [E1 E2].
      split; cbn; [by intros ? [= <-]|]. intros Hcl. unfold entry_view. cbn. rewrite Hv.
      by apply E2.
    + rewrite lookup_insert_ne by done. apply (so_cache s Hs).
  - intros a'. unfold world. cbn. rewrite Hd. destruct (decide (a = a')) as [<-|Hne].
    + by rewrite lookup_insert_eq, He.
    + by rewrite lookup_insert_ne.
Qed.

(** A clean entry is read from the database. *)
Lemma keeps_insert_clean s a e b :
  state_ok s → cache s !! a = None → is_dirty e = false →
  (∀ acc, entry_account e = Some acc → acc_ok (d_of s) a acc) →
  entry_view (d_of s) a e ≡ db_world (d_of s) (st_root s) a →
  backend_ok b → same_backend (st_db s) b →
  keeps s (world s) (insert_cache a e (set_db b s)).
Proof.
  intros Hs He Hcl Ha Hv Hb [Hd Hn]. unfold insert_cache. cbn. rewrite Hcl.
  apply keeps_cache; cbn; [done..| |].
  - intros a' e'. destruct (decide (a = a')) as [<-|Hne].
    + rewrite lookup_insert_eq. by intros [= <-].
    + rewrite lookup_insert_ne by done. apply (so_cache s Hs).
  - intros a'. unfold world. cbn. rewrite Hd. destruct (decide (a = a')) as [<-|Hne].
    + by rewrite lookup_insert_eq, He.
    + by rewrite lookup_insert_ne.
Qed.

Lemma set_db_same (s : State (B := B)) : set_db (st_db s) s = s.
Proof. by destruct s. Qed.

Lemma keeps_insert_clean' s a e :
  state_ok s → cache s !! a = None → is_dirty e = false →
  (∀ acc, entry_account e = Some acc → acc_ok (d_of s) a acc) →
  entry_view (d_of s) a e ≡ db_world (d_of s) (st_root s) a →
  keeps s (world s) (insert_cache a e s).
Proof.
  intros Hs ????. pose proof (keeps_insert_clean s a e (st_db s)) as Hk.
  rewrite set_db_same in Hk. apply Hk; try done. apply (so_backend s Hs).
Qed.

(** [ensure_cached] evaluates its function on an account with the view of the world. *)
Lemma ensure_cached_ok {U} a require check_null (f : option Account → U) s :
  state_ok s →
  ∃ s' acc, ensure_cached a require check_null f s = Done (s', Ok (f acc)) ∧
    keeps s (world s) s' ∧ view (d_of s) a <$> acc ≡ world s a ∧
    ∀ acc', acc = Some acc' → acc_ok (d_of s) a acc' ∧
      (require = RequireCode → is_cached acc' = true).
Proof.
  intros Hs. unfold ensure_cached. destruct (cache s !! a) as [e|] eqn:He.
  - destruct (entry_account e) as [acc|] eqn:Eacc.
    + pose proof (update_account_cache_ok require a acc (st_db s) (so_backend s Hs)
        (eo_account _ _ _ _ (so_cache s Hs a e He) acc Eacc)) as Hu.
      destruct (update_account_cache require a acc (st_db s)) as [[ok acc'] b].
      destruct Hu as (-> & Ha & Hv & Hb & Hsame & Hcode).
      assert (Some (view (d_of s) a acc') ≡ entry_view (d_of s) a e) as Hve.
      { unfold entry_view. rewrite Eacc. cbn. by constructor. }
      eexists _, (Some acc'). split; [done|]. split; [by eapply keeps_put|].
      split; [cbn; by rewrite (world_cache s a e He)|]. by intros ? [= <-].
    + eexists _, None. split; [done|]. split; [by apply keeps_refl|]. split; [|done].
      rewrite (world_cache s a e He). unfold entry_view. by rewrite Eacc.
  - destruct (backend_uncached (st_db s) a (so_backend s Hs)) as [-> _].
    cbv zeta. rewrite set_db_same.
    pose proof (so_db s Hs) as Hdb. assert (world s a = db_world (d_of s) (st_root s) a) as Hw.
    { unfold world. by rewrite He. }
    assert (∀ b, account_lookup (d_of s) (st_root s) a = Ok b →
      db_world (d_of s) (st_root s) a = view (d_of s) a <$> (from_basic <$> b)) as Hdw.
    { intros b E. unfold db_world, db_account. rewrite E. by destruct b. }
    assert (∃ x, (if check_null then is_known_null (st_db s) a else Done false) = Done x ∧
      (x = true → is_known_null (st_db s) a = Done true)) as (x & -> & Hx).
    { destruct (backend_known (st_db s) a (so_backend s Hs)) as [x Hx].
      destruct check_null; [exists x|by exists false]. split; [done|by intros ->]. }
    cbn [mbind outcome_bind]. destruct x.
    + eexists _, None. split; [done|]. split; [by apply keeps_refl|]. split; [|done].
      rewrite Hw, (Hdw None); [done|]. apply (do_known _ _ _ Hdb). by apply Hx.
    + destruct (do_lookup _ _ _ Hdb a) as [[basic|] E]; rewrite E.
      * pose proof (update_account_cache_ok require a (from_basic basic) (st_db s)
          (so_backend s Hs) (do_account _ _ _ Hdb a basic E)) as Hu.
        destruct (update_account_cache require a _ (st_db s)) as [[ok acc'] b].
        destruct Hu as (-> & Ha & Hv & Hb & Hsame & Hcode).
        eexists _, (Some acc'). split; [done|]. split; [|split; [|by intros ? [= <-]]].
        -- apply keeps_insert_clean; try done; [by intros ? [= <-]|].
           rewrite (Hdw _ E). cbn. by constructor.
        -- rewrite Hw, (Hdw _ E). cbn. by constructor.
      * eexists _, None. split; [done|]. split; [|split; [|done]].
        -- apply keeps_insert_clean'; try done. by rewrite (Hdw _ E).
        -- by rewrite Hw, (Hdw _ E).
Qed.

Lemma put_put (s : State (B := B)) a acc1 acc2 :
  put_account a acc2 (put_account a acc1 s) = put_account a acc2 s.
Proof.
  unfold put_account. destruct (cache s !! a) as [e|] eqn:He; [|by rewrite He].
  cbn. rewrite lookup_insert_eq. cbn. by rewrite insert_insert_eq.
Qed.

(** The two storage queries, by what they look up. *)
Lemma storage_at_inner_ok (val : View → H256 → H256) f_cached_at f_at a key s :
  (∀ v w k, v ≡ w → val v k = val w k) →
  (∀ d acc, acc_ok d a acc → let '(r, acc') := f_cached_at key acc in
    acc_ok d a acc' ∧ view d a acc' ≡ view d a acc ∧
    ∀ v, r = Some v → v = val (view d a acc) key) →
  (∀ d acc, acc_ok d a acc → ∃ acc', f_at d a key acc = Ok (val (view d a acc) key, acc') ∧
    acc_ok d a acc' ∧ view d a acc' ≡ view d a acc) →
  state_ok s →
  ∃ s', storage_at_inner a key f_cached_at f_at s =
      Done (s', Ok (match world s a with Some v => val v key | None => h256_default end)) ∧
    keeps s (world s) s'.
Proof.
  intros Hval Hcached Hat Hs. unfold storage_at_inner.
  destruct (backend_uncached (st_db s) a (so_backend s Hs)) as [Hun _].
  destruct (cache s !! a) as [e|] eqn:He.
  - rewrite (world_cache s a e He). unfold entry_view.
    destruct (entry_account e) as [acc|] eqn:Eacc; cycle 1.
    { exists s. split; [done|by apply keeps_refl]. }
    pose proof (eo_account _ _ _ _ (so_cache s Hs a e He) acc Eacc) as Ha.
    pose proof (Hcached _ acc Ha) as Hc. destruct (f_cached_at key acc) as [r acc'].
    destruct Hc as (Ha' & Hv' & Hr). cbn [fmap option_fmap option_map].
    assert (∀ acc2, acc_ok (d_of s) a acc2 → view (d_of s) a acc2 ≡ view (d_of s) a acc →
      keeps s (world s) (put_account a acc2 s)) as Hput.
    { intros acc2 Ha2 Hv2. pose proof (keeps_put s a e acc2 (st_db s)) as Hk.
      rewrite set_db_same in Hk. apply Hk; try done; [|apply (so_backend s Hs)].
      unfold entry_view. rewrite Eacc. cbn. by constructor. }
    assert (st_db (put_account a acc' s) = st_db s) as Hdb.
    { unfold put_account. by rewrite He. }
    destruct r as [v|].
    + exists (put_account a acc' s). rewrite <- (Hr v eq_refl). split; [done|by apply Hput].
    + rewrite Hdb, Hun. cbv zeta.
      replace (set_db (st_db s) (put_account a acc' s)) with (put_account a acc' s)
        by by rewrite <- Hdb, set_db_same.
      destruct (Hat _ acc' Ha') as (acc2 & -> & Ha2 & Hv2).
      rewrite (Hval _ _ key Hv'). eexists. split; [done|]. rewrite put_put.
      apply Hput; [done|]. by rewrite Hv2.
  - assert (world s a = db_world (d_of s) (st_root s) a) as -> by (unfold world; by rewrite He).
    rewrite Hun. cbv zeta. rewrite set_db_same. pose proof (so_db s Hs) as Hdb. unfold db_world, db_account.
    destruct (backend_known (st_db s) a (so_backend s Hs)) as [[] Hx]; rewrite Hx;
      cbn [mbind outcome_bind].
    + rewrite (do_known _ _ _ Hdb a) by done. exists s. split; [done|by apply keeps_refl].
    + rewrite (do_open _ _ _ Hdb). cbn [expect mbind outcome_bind].
      destruct (do_lookup _ _ _ Hdb a) as [[basic|] E]; rewrite E; cbn [fmap option_fmap option_map].
      * destruct (Hat _ _ (do_account _ _ _ Hdb a basic E)) as (acc2 & -> & Ha2 & Hv2).
        eexists. split; [done|]. apply keeps_insert_clean'; try done; [by intros ? [= <-]|].
        unfold entry_view, db_world, db_account. cbn. rewrite E. cbn. by constructor.
      * eexists. split; [done|]. apply keeps_insert_clean'; try done.
        unfold entry_view, db_world, db_account. cbn. by rewrite E.
Qed.

Lemma storage_at_ok a key s :
  state_ok s →
  ∃ s', storage_at a key s =
      Done (s', Ok (match world s a with Some v => v_storage v key | None => h256_default end)) ∧
    keeps s (world s) s'.
Proof.
  apply storage_at_inner_ok.
  - intros v w k Hv. apply (ve_storage _ _ Hv).
  - intros d acc Ha. pose proof (cached_storage_at_ok d a key acc Ha) as Hc.
    destruct (cached_storage_at key acc) as [r acc']. destruct Hc as (? & ? & Hr).
    split_and!; [done..|]. by intros v ->.
  - intros. by apply account_storage_at_ok.
Qed.

Lemma original_storage_at_ok a key s :
  state_ok s →
  ∃ s', original_storage_at a key s =
      Done (s', Ok (match world s a with Some v => v_original v key | None => h256_default end)) ∧
    keeps s (world s) s'.
Proof.
  apply storage_at_inner_ok.
  - intros v w k Hv. apply (ve_original _ _ Hv).
  - intros d acc Ha. pose proof (cached_original_storage_at_ok d a key acc Ha) as Hc.
    destruct (cached_original_storage_at key acc) as [r acc']. destruct Hc as (? & ? & Hr).
    split_and!; [done..|]. by intros v ->.
  - intros. by apply account_original_storage_at_ok.
Qed.
End Steps.
