(* ===== verification/StateSteps.v ===== *)
(** * Changes of the state

    A change first notes the old entry in the last checkpoint: after that the entry may be
    replaced without an effect on the saved worlds.  Reverting and discarding checkpoints are
    the operations of a stack of worlds. *)

From S2P Require Import Prelude Hash Transaction Account State World StateInv.

Section Changes.
Context `{Keccak} `{LruCache H256 H256} `{!LruLaws H256 H256} `{TrieDatabase} `{HashOrder}.
Context {B : Type} `{!Backend B} `{!DbStep} `{!BackendLaws}.
Abbreviation d_of s := (as_hash_db (st_db s)).
Implicit Types s : State (B := B).

(** The last checkpoint has the old value of the entry. *)
Definition noted (a : Address) (s : State (B := B)) : Prop :=
  match checkpoints s with [] => True | m :: _ => is_Some (m !! a) end.

(** The world an entry of a checkpoint stands for. *)
Definition noted_view (d : hash_db) (root : H256) (a : Address) (old : option AccountEntry) :
    option View :=
  match old with Some e => entry_view d a e | None => db_world d root a end.

Lemma undo_note d root a old m w :
  m !! a = None → noted_view d root a old ≡ w a →
  undo d root (<[a := old]> m) w ≡ undo d root m w.
Proof.
  intros Hm Hv a'. unfold undo. destruct (decide (a = a')) as [<-|Hne].
  - rewrite lookup_insert_eq, Hm. by destruct old.
  - by rewrite lookup_insert_ne.
Qed.

(** Noting the old value keeps all worlds. *)
Lemma keeps_note s a old :
  state_ok s → noted_view (d_of s) (st_root s) a old ≡ world s a →
  (∀ e, old = Some e → entry_ok (d_of s) (st_root s) a e) →
  let s' := set_checkpoints (note a old (checkpoints s)) s in
  keeps s (world s) s' ∧ noted a s'.
Proof.
  intros Hs Hv Hold s'. subst s'. unfold noted, note, set_checkpoints. cbn.
  destruct (checkpoints s) as [|m l] eqn:El.
  { split; [|done]. replace (mkState _ _ _ _ _) with s by (destruct s; cbn in *; by subst).
    by apply keeps_refl. }
  destruct (m !! a) as [old'|] eqn:Em; cbn.
  { split; [|by rewrite Em]. replace (mkState _ _ _ _ _) with s by (destruct s; cbn in *; by subst).
    by apply keeps_refl. }
  rewrite lookup_insert_eq. split; [|by eexists]. pose proof Hs as [O1 O2 O3 O4].
  split; [split; cbn; [done..|]|done|done|].
  - intros m' a' e [->|Hin]%elem_of_cons.
    + destruct (decide (a = a')) as [<-|Hne].
      * rewrite lookup_insert_eq. intros [= ->]. by apply Hold.
      * rewrite lookup_insert_ne by done. apply O4. rewrite El. left.
    + apply O4. rewrite El. by right.
  - unfold saved. cbn. rewrite El. cbn.
    pose proof (undo_note (d_of s) (st_root s) a old m (world s) Em Hv) as Hu.
    constructor; [exact Hu|]. by apply saved_worlds_proper.
Qed.

Lemma undo_wset d root m w a v : is_Some (m !! a) → undo d root m (wset a v w) ≡ undo d root m w.
Proof.
  intros [old Hm] a'. unfold undo, wset. case_decide as E; [subst; by rewrite Hm|done].
Qed.

(** After that the entry may change. *)
Lemma keeps_change s a e :
  state_ok s → noted a s → entry_ok (d_of s) (st_root s) a e →
  keeps s (wset a (entry_view (d_of s) a e) (world s)) (set_cache (<[a := e]> (cache s)) s).
Proof.
  intros Hs Hn He. pose proof Hs as [O1 O2 O3 O4].
  assert (world (set_cache (<[a := e]> (cache s)) s) ≡
    wset a (entry_view (d_of s) a e) (world s)) as Hw.
  { intros a'. unfold world, wset. cbn. case_decide as E.
    - subst. by rewrite lookup_insert_eq.
    - by rewrite lookup_insert_ne. }
  split; [split; cbn; [done..| |done]|done|done|].
  - intros a' e'. destruct (decide (a = a')) as [<-|Hne].
    + rewrite lookup_insert_eq. by intros [= <-].
    + rewrite lookup_insert_ne by done. apply O3.
  - unfold saved, noted in *. cbn. destruct (checkpoints s) as [|m l]; [done|]. cbn.
    assert (undo (d_of s) (st_root s) m (world (set_cache (<[a := e]> (cache s)) s)) ≡
      undo (d_of s) (st_root s) m (world s)) as Hu.
    { rewrite Hw. by apply undo_wset. }
    constructor; [exact Hu|]. by apply saved_worlds_proper.
Qed.

(** [insert_cache] with a dirty entry. *)
Lemma insert_dirty_ok s a acc :
  state_ok s → (∀ acc', acc = Some acc' → acc_ok (d_of s) a acc') →
  keeps s (wset a (view (d_of s) a <$> acc) (world s)) (insert_cache a (new_dirty acc) s).
Proof.
  intros Hs Hacc. pose proof (keeps_note s a (cache s !! a) Hs) as Hk.
  destruct Hk as [Hk Hn].
  - unfold noted_view, world. by destruct (cache s !! a).
  - intros e. apply (so_cache s Hs).
  - eapply keeps_trans; [exact Hk|]. set (s1 := set_checkpoints _ s) in *.
    change (insert_cache a (new_dirty acc) s) with
      (set_cache (<[a := new_dirty acc]> (cache s1)) s1).
    apply (keeps_change s1 a (new_dirty acc)); [apply Hk|done|by split].
Qed.

(** ** Required accounts *)

Lemma cache_insert_cache a e s : cache (insert_cache a e s) = <[a := e]> (cache s).
Proof. unfold insert_cache. by destruct (is_dirty e). Qed.

Lemma load_entry_ok a s :
  state_ok s →
  ∃ s', load_entry a s = Done (s', Ok tt) ∧ keeps s (world s) s' ∧ is_Some (cache s' !! a).
Proof.
  intros Hs. unfold load_entry. destruct (cache s !! a) as [e|] eqn:He.
  { exists s. split; [done|]. split; [by apply keeps_refl|by rewrite He]. }
  destruct (backend_uncached (st_db s) a (so_backend s Hs)) as [_ ->].
  cbv zeta. rewrite set_db_same. pose proof (so_db s Hs) as Hdb.
  assert (∀ basic, account_lookup (d_of s) (st_root s) a = Ok basic →
    let s' := insert_cache a (new_clean (from_basic <$> basic)) s in
    keeps s (world s) s' ∧ is_Some (cache s' !! a)) as Hins.
  { intros basic E s'. split.
    - apply keeps_insert_clean'; try done.
      + intros acc Hacc. destruct basic as [b|]; cbn in Hacc; simplify_eq.
        by apply (do_account _ _ _ Hdb).
      + unfold entry_view, db_world, db_account. rewrite E. cbn. by destruct basic.
    - subst s'. by rewrite cache_insert_cache, lookup_insert_eq. }
  destruct (backend_known (st_db s) a (so_backend s Hs)) as [[] Hx]; rewrite Hx;
    cbn [mbind outcome_bind].
  - eexists. split; [done|]. apply (Hins None). by apply (do_known _ _ _ Hdb).
  - destruct (do_lookup _ _ _ Hdb a) as [basic E]. rewrite E. eexists. split; [done|].
    by apply Hins.
Qed.

(** The account is in a dirty entry of which the old value is noted. *)
Definition required (a : Address) (acc : Account) (s : State (B := B)) : Prop :=
  noted a s ∧ acc_ok (d_of s) a acc ∧ ∃ old, cache s !! a = Some (mkEntry (Some acc) old Dirty).

Lemma required_world a acc s : required a acc s → world s a = Some (view (d_of s) a acc).
Proof. intros (_ & _ & old & He). by rewrite (world_cache s a _ He). Qed.

(** A required account may be replaced. *)
Lemma put_required s a acc acc' :
  state_ok s → required a acc s → acc_ok (d_of s) a acc' →
  let s' := put_account a acc' s in
  keeps s (wset a (Some (view (d_of s) a acc')) (world s)) s' ∧ required a acc' s'.
Proof.
  intros Hs (Hn & Ha & old & He) Ha'. unfold put_account. rewrite He. cbn.
  split; [|split_and!; [done..|]].
  - apply (keeps_change s a (mkEntry (Some acc') old Dirty)); [done..|].
    split; cbn; [by intros ? [= <-]|done].
  - exists old. cbn. by rewrite lookup_insert_eq.
Qed.

(** Caching the code of a required account. *)
Lemma put_required_code s a acc acc' b :
  state_ok s → required a acc s → acc_ok (d_of s) a acc' →
  view (d_of s) a acc' ≡ view (d_of s) a acc →
  backend_ok b → same_backend (st_db s) b →
  let s' := put_account a acc' (set_db b s) in keeps s (world s) s' ∧ required a acc' s'.
Proof.
  intros Hs (Hn & Ha & old & He) Ha' Hv Hb [Hd Hk] s'. split.
  - eapply keeps_put; try done. unfold entry_view. cbn. by constructor.
  - subst s'. unfold put_account. cbn. rewrite He. cbn. split_and!.
    + done.
    + cbn. by rewrite Hd.
    + exists old. cbn. by rewrite lookup_insert_eq.
Qed.

Lemma note_cache_ok a s e :
  state_ok s → cache s !! a = Some e →
  keeps s (world s) (note_cache a s) ∧ noted a (note_cache a s).
Proof.
  intros Hs He. pose proof (so_cache s Hs a e He) as [E1 E2].
  assert (entry_view (d_of s) a (entry_clone_dirty e) ≡ entry_view (d_of s) a e) as Hv.
  { unfold entry_view, entry_clone_dirty. cbn. destruct (entry_account e) as [acc|] eqn:Ea; [|done].
    cbn. constructor. apply clone_dirty_ok. by apply E1. }
  unfold note_cache. rewrite He. apply keeps_note; [done| |].
  - by rewrite (world_cache s a e He).
  - intros e' [= <-]. split.
    + cbn. intros acc Hacc. destruct (entry_account e) as [acc0|] eqn:Ea; [|done].
      cbn in Hacc. simplify_eq. apply clone_dirty_ok. by apply E1.
    + intros Hcl. rewrite Hv. by apply E2.
Qed.

(** The entry becomes dirty, with a default account if there was none. *)
Lemma mark_dirty_ok a def s e :
  state_ok s → noted a s → cache s !! a = Some e → acc_ok (d_of s) a def →
  let acc := match entry_account e with Some acc => acc | None => def end in
  let s' := set_cache (<[a := mkEntry (Some acc) (old_balance e) Dirty]> (cache s)) s in
  keeps s (wset a (Some (view (d_of s) a acc)) (world s)) s' ∧ required a acc s' ∧
  view (d_of s) a acc ≡ default (view (d_of s) a def) (world s a).
Proof.
  intros Hs Hn He Hdef acc s'. pose proof (so_cache s Hs a e He) as [E1 _].
  assert (acc_ok (d_of s) a acc) as Ha.
  { subst acc. destruct (entry_account e); [by apply E1|done]. }
  split_and!.
  - apply (keeps_change s a (mkEntry (Some acc) (old_balance e) Dirty)); [done..|].
    split; cbn; [by intros ? [= <-]|done].
  - split_and!; [done..|]. exists (old_balance e). cbn. by rewrite lookup_insert_eq.
  - rewrite (world_cache s a e He). subst acc. unfold entry_view. by destruct (entry_account e).
Qed.

(** [require_or_from] makes the account exist, and dirty. *)
Lemma require_or_from_ok a require_code def s :
  state_ok s → acc_ok (d_of s) a def →
  ∃ s' acc, require_or_from a require_code def s = Done (s', Ok acc) ∧
    keeps s (wset a (Some (view (d_of s) a acc)) (world s)) s' ∧ required a acc s' ∧
    view (d_of s) a acc ≡ default (view (d_of s) a def) (world s a) ∧
    (require_code = true → is_cached acc = true).
Proof.
  intros Hs Hdef. unfold require_or_from, sm_state.
  destruct (load_entry_ok a s Hs) as (s1 & E1 & K1 & [e He]).
  unfold mbind, sm_bind. rewrite E1. cbn [mbind outcome_bind].
  destruct (note_cache_ok a s1 e (ke_ok _ _ _ K1) He) as [K2 N2].
  set (s2 := note_cache a s1) in *. pose proof (keeps_trans _ _ _ _ _ K1 K2) as K12.
  change (cache s2) with (cache s1). rewrite He.
  pose proof (sb_db _ _ (ke_base _ _ _ K12)) as Hd.
  assert (world s2 ≡ world s) as Hw.
  { rewrite (ke_world _ _ _ K2). apply (ke_world _ _ _ K1). }
  destruct (mark_dirty_ok a def s2 e (ke_ok _ _ _ K2) N2 He) as (K3 & R3 & V3);
    [by rewrite Hd|]. change (cache s2) with (cache s1) in *.
  set (acc := match entry_account e with Some acc => acc | None => def end) in *.
  set (s3 := set_cache _ s2) in *. rewrite Hd in K3, V3.
  assert (keeps s (wset a (Some (view (d_of s) a acc)) (world s)) s3) as K13.
  { eapply keeps_world; [by eapply keeps_trans|]. by rewrite Hw. }
  assert (view (d_of s) a acc ≡ default (view (d_of s) a def) (world s a)) as V.
  { rewrite V3. by destruct (Hw a). }
  destruct require_code; [|by exists s3, acc].
  destruct R3 as (N3 & A3 & old & He3).
  pose proof (update_account_cache_ok RequireCode a acc (st_db s3)
    (so_backend _ (ke_ok _ _ _ K3)) A3) as Hu.
  destruct (update_account_cache RequireCode a acc (st_db s3)) as [[ok acc'] b].
  destruct Hu as (-> & Ha' & Hv' & Hb & Hsame & Hcode).
  destruct (put_required_code s3 a acc acc' b (ke_ok _ _ _ K3) ltac:(by split_and!; [..|exists old])
    Ha' Hv' Hb Hsame) as [K4 R4].
  change (d_of s3) with (d_of s2) in Hv'. rewrite Hd in Hv'.
  eexists _, acc'. split; [done|]. split_and!; [|done| |by auto].
  - eapply keeps_world; [by eapply keeps_trans|]. rewrite (ke_world _ _ _ K13).
    by rewrite Hv'.
  - by rewrite Hv'.
Qed.

(** A changed account. *)
Lemma require_update_ok a require_code def f s :
  state_ok s → acc_ok (d_of s) a def →
  (∀ acc, acc_ok (d_of s) a acc → view (d_of s) a acc ≡ default (view (d_of s) a def) (world s a) →
    ∃ acc', f acc = Done acc' ∧ acc_ok (d_of s) a acc') →
  ∃ s' acc acc', (acc ← require_or_from a require_code def; update_account a f acc) s =
      Done (s', Ok tt) ∧ f acc = Done acc' ∧
    view (d_of s) a acc ≡ default (view (d_of s) a def) (world s a) ∧
    keeps s (wset a (Some (view (d_of s) a acc')) (world s)) s'.
Proof.
  intros Hs Hdef Hf.
  destruct (require_or_from_ok a require_code def s Hs Hdef) as (s1 & acc & E1 & K1 & R1 & V1 & _).
  pose proof (sb_db _ _ (ke_base _ _ _ K1)) as Hd.
  destruct (Hf acc) as (acc' & Ef & Ha'); [destruct R1 as (_ & ? & _); by rewrite <- Hd|done|].
  destruct (put_required s1 a acc acc' (ke_ok _ _ _ K1) R1) as [K2 _]; [by rewrite Hd|].
  exists (put_account a acc' s1), acc, acc'. split_and!; [|done..|].
  - unfold mbind, sm_bind. rewrite E1. cbn [mbind outcome_bind]. unfold update_account.
    by rewrite Ef.
  - eapply keeps_world; [by eapply keeps_trans|]. rewrite Hd. intros a'.
    rewrite (wset_proper a _ _ (reflexivity _) _ _ (ke_world _ _ _ K1) a').
    unfold wset. by case_decide.
Qed.

(** ** Checkpoints *)

(** A loop that changes the entry of each key once. *)
Lemma foldl_keys {K V A} `{Countable K} (f : gmap K A → K * V → gmap K A)
    (g : V → option A → option A) (m : gmap K V) (c : gmap K A) a :
  (∀ c k v a, f c (k, v) !! a = if decide (a = k) then g v (c !! k) else c !! a) →
  foldl f c (hash_iter m) !! a = match m !! a with Some v => g v (c !! a) | None => c !! a end.
Proof.
  intros Hf. assert (∀ l c, NoDup l.*1 →
    (∀ v, (a, v) ∈ l → foldl f c l !! a = g v (c !! a)) ∧
    (a ∉ l.*1 → foldl f c l !! a = c !! a)) as Hl.
  { induction l as [|[k v] l IH]; intros c0 Hnd; cbn in *.
    - split; [by intros v ?%elem_of_nil|done].
    - apply NoDup_cons in Hnd as [Hk Hnd]. destruct (IH (f c0 (k, v)) Hnd) as [IH1 IH2].
      rewrite Hf in IH1, IH2. split.
      + intros v' [[= <- <-]|Hin]%elem_of_cons.
        * rewrite IH2 by done. by rewrite decide_True.
        * rewrite (IH1 v') by done. rewrite decide_False; [done|]. intros ->. apply Hk.
          apply list_elem_of_fmap. by exists (k, v').
      + intros Hne. apply not_elem_of_cons in Hne as [Hne Hin]. rewrite IH2 by done.
        by rewrite decide_False. }
  destruct (Hl (hash_iter m) c (hash_iter_nodup m)) as [H1' H2'].
  destruct (m !! a) as [v|] eqn:E.
  - apply H1'. by apply elem_of_hash_iter.
  - apply H2'. intros ([k v] & -> & Hin)%list_elem_of_fmap. apply elem_of_hash_iter in Hin.
    cbn in E. congruence.
Qed.

Lemma undo_empty d root w : undo d root ∅ w ≡ w.
Proof. intros a. unfold undo. by rewrite lookup_empty. Qed.

Lemma checkpoint_ok s :
  state_ok s →
  let s' := (checkpoint s).1 in
  state_ok s' ∧ same_base s s' ∧ world s' ≡ world s ∧
  Forall2 (≡@{World}) (saved s') (world s :: saved s).
Proof.
  intros [O1 O2 O3 O4]. cbn. split_and!; [|done|done|].
  - split; cbn; [done..|]. intros m a e [->|Hin]%elem_of_cons; [by rewrite lookup_empty|by apply O4].
  - unfold saved. cbn. constructor; [apply undo_empty|].
    apply saved_worlds_proper, undo_empty.
Qed.

Lemma discard_lookup (top prev : gmap Address (option AccountEntry)) a :
  (if decide (prev = ∅) then top
   else foldl (λ prev kv, match prev !! kv.1 with
                          | Some _ => prev
                          | None => <[kv.1 := kv.2]> prev
                          end) prev (hash_iter top)) !! a =
  match prev !! a with Some v => Some v | None => top !! a end.
Proof.
  case_decide as E; [by rewrite E, lookup_empty|].
  rewrite (foldl_keys _ (λ v o, match o with Some x => Some x | None => Some v end)).
  - by destruct (top !! a), (prev !! a).
  - intros c k v a'. cbn. destruct (c !! k) eqn:Ek; case_decide; subst; try done.
    + by rewrite lookup_insert_eq.
    + by rewrite lookup_insert_ne.
Qed.

Lemma discard_checkpoint_ok s :
  state_ok s →
  let s' := discard_checkpoint s in
  state_ok s' ∧ same_base s s' ∧ world s' ≡ world s ∧
  Forall2 (≡@{World}) (saved s') (tail (saved s)).
Proof.
  intros Hs. pose proof Hs as [O1 O2 O3 O4]. unfold discard_checkpoint.
  destruct (checkpoints s) as [|top [|prev rest]] eqn:El.
  - split_and!; try done. unfold saved. by rewrite El.
  - split_and!; try done.
    + split; try done. by intros m a e ?%elem_of_nil.
    + unfold saved. cbn. by rewrite El.
  - set (m := if decide (prev = ∅) then _ else _). split_and!; try done.
    + split; try done. cbn. intros m' a e [->|Hin]%elem_of_cons.
      * subst m. rewrite discard_lookup. intros Hm.
        destruct (prev !! a) as [v|] eqn:Ep; simplify_eq.
        -- apply (O4 prev); [|done]. right. left.
        -- apply (O4 top); [|done]. left.
      * apply O4. do 2 right. done.
    + unfold saved. cbn. rewrite El. cbn.
      assert (undo (d_of s) (st_root s) m (world s) ≡
        undo (d_of s) (st_root s) prev (undo (d_of s) (st_root s) top (world s))) as Hu.
      { intros a. unfold undo. subst m. rewrite discard_lookup. by destruct (prev !! a) as [[]|]. }
      constructor; [exact Hu|]. by apply saved_worlds_proper.
Qed.

(** What [revert_entry] does to the entry of its key. *)
Definition revert_at (v o : option AccountEntry) : option AccountEntry :=
  match v, o with
  | Some v, Some e => Some (entry_overwrite_with v e)
  | Some v, None => Some v
  | None, Some e => if is_dirty e then None else Some e
  | None, None => None
  end.

Lemma revert_entry_lookup c k v a :
  revert_entry c (k, v) !! a = if decide (a = k) then revert_at v (c !! k) else c !! a.
Proof.
  unfold revert_entry. destruct v as [v|], (c !! k) as [e|] eqn:E; cbn; case_decide; subst;
    rewrite ?lookup_insert_eq, ?lookup_insert_ne by done; try done; destruct (is_dirty e);
    rewrite ?lookup_delete_eq, ?lookup_delete_ne by done; done.
Qed.

(** An entry after the revert: right, and with the view that was saved. *)
Lemma revert_at_ok d root a v o :
  (∀ e, v = Some e → entry_ok d root a e) → (∀ e, o = Some e → entry_ok d root a e) →
  (∀ e, revert_at v o = Some e → entry_ok d root a e) ∧
  match revert_at v o with Some e => entry_view d a e | None => db_world d root a end ≡
    noted_view d root a v.
Proof.
  intros Hv Ho. destruct v as [v|], o as [e|]; cbn.
  - pose proof (Hv v eq_refl) as [V1 V2]. pose proof (Ho e eq_refl) as [E1 E2].
    assert (entry_view d a (entry_overwrite_with v e) ≡ entry_view d a v) as Hview.
    { unfold entry_view. cbn. destruct (entry_account v) as [x|] eqn:Ex; [|done].
      destruct (entry_account e) as [y|] eqn:Ey; [|done]. cbn. constructor.
      apply overwrite_with_ok; [by apply V1|by apply E1]. }
    split; [|done]. intros e' [= <-]. split.
    + intros acc. cbn. destruct (entry_account v) as [x|] eqn:Ex; [|done].
      destruct (entry_account e) as [y|] eqn:Ey; intros [= <-]; [|by apply V1].
      apply overwrite_with_ok; [by apply V1|by apply E1].
    + intros Hcl. rewrite Hview. by apply V2.
  - split; [|done]. intros e [= <-]. by apply Hv.
  - pose proof (Ho e eq_refl) as [E1 E2]. destruct (is_dirty e) eqn:Ed; [done|].
    split; [intros ? [= <-]; by apply Ho|]. by apply E2.
  - done.
Qed.

Lemma revert_to_checkpoint_ok s w ws :
  state_ok s → saved s = w :: ws →
  let s' := revert_to_checkpoint s in
  state_ok s' ∧ same_base s s' ∧ world s' ≡ w ∧ Forall2 (≡@{World}) (saved s') ws.
Proof.
  intros Hs Hsv. pose proof Hs as [O1 O2 O3 O4]. unfold revert_to_checkpoint, saved in *.
  destruct (checkpoints s) as [|m rest] eqn:El; [done|]. cbn in Hsv. injection Hsv as Hw Hws.
  set (c := foldl revert_entry (cache s) (hash_iter m)).
  assert (∀ a, c !! a = match m !! a with Some v => revert_at v (cache s !! a)
                        | None => cache s !! a end) as Hc.
  { intros a. apply foldl_keys. apply revert_entry_lookup. }
  assert (∀ a v, m !! a = Some v →
    (∀ e, revert_at v (cache s !! a) = Some e → entry_ok (d_of s) (st_root s) a e) ∧
    match revert_at v (cache s !! a) with
    | Some e => entry_view (d_of s) a e | None => db_world (d_of s) (st_root s) a end ≡
    noted_view (d_of s) (st_root s) a v) as Hat.
  { intros a v Hm. apply revert_at_ok; [|intros e He; by apply O3].
    intros e ->. apply (O4 m); [left|done]. }
  assert (world (set_cache c (set_checkpoints rest s)) ≡ w) as Hworld.
  { rewrite <- Hw. intros a. unfold world, undo. cbn. rewrite Hc.
    destruct (m !! a) as [v|] eqn:Em; [|done].
    destruct (Hat a v Em) as [_ Hv]. rewrite Hv. by destruct v. }
  split_and!; [|done|done|].
  - split; cbn; [done..| |].
    + intros a e. rewrite Hc. destruct (m !! a) as [v|] eqn:Em; [|by apply O3].
      apply (Hat a v Em).
    + intros m' a e Hin. apply O4. by right.
  - cbn. rewrite <- Hws, Hw. by apply saved_worlds_proper.
Qed.
End Changes.
