(* ===== verification/StateRefine.v ===== *)
(** * The state refines a stack of worlds

    The queries and changes of [State.v] as one operation each, their effect on the current
    world and the saved ones, and the refinement: every sequence of operations gives the
    answers of the worlds. *)

From S2P Require Import Prelude Hash Transaction Account State World StateInv StateSteps.

Inductive StateOp :=
| OpBalance (a : Address)
| OpNonce (a : Address)
| OpExists (a : Address)
| OpExistsNotNull (a : Address)
| OpHasCodeOrNonce (a : Address)
| OpCodeHash (a : Address)
| OpCodeVersion (a : Address)
| OpCode (a : Address)
| OpStorageAt (a : Address) (key : H256)
| OpOriginalStorageAt (a : Address) (key : H256)
| OpAddBalance (a : Address) (incr : Z) (mode : CleanupMode)
| OpSubBalance (a : Address) (decr : Z) (mode : CleanupMode)
| OpTransferBalance (from to : Address) (by' : Z) (mode : CleanupMode)
| OpIncNonce (a : Address)
| OpSetStorage (a : Address) (key value : H256)
| OpInitCode (a : Address) (code : list byte)
| OpResetCode (a : Address) (code : list byte)
| OpNewContract (a : Address) (balance nonce_offset version : Z)
| OpKillAccount (a : Address)
| OpCheckpoint
| OpDiscard
| OpRevert.

(** What an operation returns; of the code of an account, its hash. *)
Inductive Answer :=
| ANum (z : Z)
| ABool (b : bool)
| AHash (h : option H256)
| AMode (m : CleanupMode)
| ANat (n : nat)
| AUnit.

(** ** The operations on worlds *)

Section Spec.
Context `{Keccak}.
Variable start_nonce : Z.

Definition empty_view : View :=
  mkView 0 start_nonce KECCAK_EMPTY 0 (λ _, h256_default) (λ _, h256_default)
    KECCAK_NULL_RLP.

Definition account_of (v : option View) : View := default empty_view v.

Definition with_balance (b : Z) (v : View) : View :=
  mkView b (v_nonce v) (v_code_hash v) (v_code_version v) (v_storage v) (v_original v)
    (v_root v).
Definition with_nonce (n : Z) (v : View) : View :=
  mkView (v_balance v) n (v_code_hash v) (v_code_version v) (v_storage v) (v_original v)
    (v_root v).
Definition with_code (code : list byte) (v : View) : View :=
  mkView (v_balance v) (v_nonce v) (keccak code) (v_code_version v) (v_storage v) (v_original v)
    (v_root v).
Definition with_storage (key value : H256) (v : View) : View :=
  mkView (v_balance v) (v_nonce v) (v_code_hash v) (v_code_version v)
    (λ k, if decide (k = key) then value else v_storage v k) (v_original v) (v_root v).

Definition view_null (v : View) : bool :=
  (v_balance v =? 0)%Z && (v_nonce v =? 0)%Z && bool_decide (v_code_hash v = KECCAK_EMPTY).

Definition spec_add_balance (a : Address) (incr : Z) (mode : CleanupMode) (w : World) :
    World * CleanupMode :=
  let create := match mode, w a with ForceCreate, None => true | _, _ => false end in
  if bool_decide (incr ≠ 0%Z) || create then
    let v := account_of (w a) in
    (wset a (Some (with_balance (saturating_add (v_balance v) incr) v)) w, mode)
  else (w, match mode, w a with
           | TrackTouched set, Some _ => TrackTouched ({[a]} ∪ set)
           | _, _ => mode
           end).

Definition spec_sub_balance (a : Address) (decr : Z) (mode : CleanupMode) (w : World) :
    Outcome (World * CleanupMode) :=
  let mode := match mode with TrackTouched set => TrackTouched ({[a]} ∪ set) | _ => mode end in
  let create := match w a with None => true | _ => false end in
  if bool_decide (decr ≠ 0%Z) || create then
    let v := account_of (w a) in
    if (decr <=? v_balance v)%Z
    then Done (wset a (Some (with_balance (v_balance v - decr) v)) w, mode)
    else Panic
  else Done (w, mode).

(** The change of the current world by an operation on accounts. *)
Definition spec_world (op : StateOp) (w : World) : Outcome (World * Result Answer TrieError) :=
  match op with
  | OpBalance a => Done (w, Ok (ANum (default 0%Z (v_balance <$> w a))))
  | OpNonce a => Done (w, Ok (ANum (default start_nonce (v_nonce <$> w a))))
  | OpExists a => Done (w, Ok (ABool (bool_decide (is_Some (w a)))))
  | OpExistsNotNull a =>
      Done (w, Ok (ABool (match w a with Some v => negb (view_null v) | None => false end)))
  | OpHasCodeOrNonce a =>
      Done (w, Ok (ABool (match w a with
        | Some v => bool_decide (v_code_hash v ≠ KECCAK_EMPTY) ||
                    bool_decide (v_nonce v ≠ start_nonce)
        | None => false
        end)))
  | OpCodeHash a | OpCode a => Done (w, Ok (AHash (v_code_hash <$> w a)))
  | OpCodeVersion a => Done (w, Ok (ANum (default 0%Z (v_code_version <$> w a))))
  | OpStorageAt a key =>
      Done (w, Ok (AHash (Some (match w a with Some v => v_storage v key
                                | None => h256_default end))))
  | OpOriginalStorageAt a key =>
      Done (w, Ok (AHash (Some (match w a with Some v => v_original v key
                                | None => h256_default end))))
  | OpAddBalance a incr mode =>
      let '(w, mode) := spec_add_balance a incr mode w in Done (w, Ok (AMode mode))
  | OpSubBalance a decr mode =>
      '(w, mode) ← spec_sub_balance a decr mode w; Done (w, Ok (AMode mode))
  | OpTransferBalance from to by' mode =>
      '(w, mode) ← spec_sub_balance from by' mode w;
      let '(w, mode) := spec_add_balance to by' mode w in Done (w, Ok (AMode mode))
  | OpIncNonce a =>
      let v := account_of (w a) in
      Done (wset a (Some (with_nonce (saturating_add (v_nonce v) 1) v)) w, Ok AUnit)
  | OpSetStorage a key value =>
      let v := account_of (w a) in
      if decide (v_storage v key = value) then Done (w, Ok AUnit)
      else Done (wset a (Some (with_storage key value v)) w, Ok AUnit)
  | OpInitCode a code | OpResetCode a code =>
      Done (wset a (Some (with_code code (account_of (w a)))) w, Ok AUnit)
  | OpNewContract a balance nonce_offset version =>
      let nonce := (start_nonce + nonce_offset)%Z in
      if (2 ^ 256 <=? nonce)%Z then Done (w, Err (NonceOverflow a))
      else Done (wset a (Some (mkView balance nonce KECCAK_EMPTY version (λ _, h256_default)
                   (v_original (account_of (w a))) KECCAK_NULL_RLP)) w, Ok AUnit)
  | OpKillAccount a => Done (wset a None w, Ok AUnit)
  | OpCheckpoint | OpDiscard | OpRevert => Done (w, Ok AUnit)
  end.

(** The operations on the current world and the saved ones. *)
Definition spec_op (op : StateOp) (ws : World * list World) :
    Outcome (World * list World * Result Answer TrieError) :=
  let '(w, saved) := ws in
  match op with
  | OpCheckpoint => Done (w, w :: saved, Ok (ANat (length saved)))
  | OpDiscard => Done (w, tail saved, Ok AUnit)
  | OpRevert => match saved with
                | [] => Done (w, [], Ok AUnit)
                | w' :: saved => Done (w', saved, Ok AUnit)
                end
  | _ => '(w, r) ← spec_world op w; Done (w, saved, r)
  end.

(** A sequence of operations; it ends at the first panic, errors are answers like others. *)
Fixpoint spec_ops (ops : list StateOp) (ws : World * list World) :
    Outcome (World * list World * list (Result Answer TrieError)) :=
  match ops with
  | [] => Done (ws, [])
  | op :: ops =>
      '(ws, r) ← spec_op op ws;
      '(ws, rs) ← spec_ops ops ws;
      Done (ws, r :: rs)
  end.
End Spec.

(** ** The operations on states *)

Section Run.
Context `{Keccak} `{LruCache H256 H256} `{TrieDatabase} `{HashOrder}.
Context {B : Type} `{!Backend B}.

Definition run_op (op : StateOp) : SM (B := B) Answer :=
  match op with
  | OpBalance a => z ← balance a; mret (ANum z)
  | OpNonce a => z ← nonce a; mret (ANum z)
  | OpExists a => b ← exists_account a; mret (ABool b)
  | OpExistsNotNull a => b ← exists_and_not_null a; mret (ABool b)
  | OpHasCodeOrNonce a => b ← exists_and_has_code_or_nonce a; mret (ABool b)
  | OpCodeHash a => h ← code_hash a; mret (AHash h)
  | OpCodeVersion a => z ← code_version a; mret (ANum z)
  | OpCode a => c ← code a; mret (AHash (keccak <$> c))
  | OpStorageAt a key => h ← storage_at a key; mret (AHash (Some h))
  | OpOriginalStorageAt a key => h ← original_storage_at a key; mret (AHash (Some h))
  | OpAddBalance a incr mode => m ← add_balance a incr mode; mret (AMode m)
  | OpSubBalance a decr mode => m ← sub_balance a decr mode; mret (AMode m)
  | OpTransferBalance from to by' mode => m ← transfer_balance from to by' mode; mret (AMode m)
  | OpIncNonce a => _ ← inc_nonce a; mret AUnit
  | OpSetStorage a key value => _ ← set_storage a key value; mret AUnit
  | OpInitCode a code => _ ← init_code a code; mret AUnit
  | OpResetCode a code => _ ← reset_code a code; mret AUnit
  | OpNewContract a balance off version => _ ← new_contract a balance off version; mret AUnit
  | OpKillAccount a => λ s, Done (kill_account a s, Ok AUnit)
  | OpCheckpoint => λ s, let '(s, n) := checkpoint s in Done (s, Ok (ANat n))
  | OpDiscard => λ s, Done (discard_checkpoint s, Ok AUnit)
  | OpRevert => λ s, Done (revert_to_checkpoint s, Ok AUnit)
  end.

Fixpoint run_ops (ops : list StateOp) (s : State (B := B)) :
    Outcome (State (B := B) * list (Result Answer TrieError)) :=
  match ops with
  | [] => Done (s, [])
  | op :: ops =>
      '(s, r) ← run_op op s;
      '(s, rs) ← run_ops ops s;
      Done (s, r :: rs)
  end.
End Run.

(** ** Equivalent worlds give equal answers *)

Section Proper.
Context `{Keccak}.
Variable start_nonce : Z.

Lemma account_of_proper v w : v ≡ w → account_of start_nonce v ≡ account_of start_nonce w.
Proof. by intros [x y Hxy|]. Qed.

#[global] Instance with_balance_proper b : Proper ((≡) ==> (≡)) (with_balance b).
Proof. intros v w []. by split. Qed.
#[global] Instance with_nonce_proper n : Proper ((≡) ==> (≡)) (with_nonce n).
Proof. intros v w []. by split. Qed.
#[global] Instance with_code_proper c : Proper ((≡) ==> (≡)) (with_code c).
Proof. intros v w []. by split. Qed.
#[global] Instance with_storage_proper k x : Proper ((≡) ==> (≡)) (with_storage k x).
Proof. intros v w [V1 V2 V3 V4 V5 V6 V7]. split; try done. intros k'. cbn. by rewrite V5. Qed.

Lemma view_null_proper v w : v ≡ w → view_null v = view_null w.
Proof. intros [V1 V2 V3 V4 V5 V6 V7]. unfold view_null. by rewrite V1, V2, V3. Qed.

Lemma spec_add_balance_proper a incr mode w w' :
  w ≡ w' →
  (spec_add_balance start_nonce a incr mode w).1 ≡ (spec_add_balance start_nonce a incr mode w').1 ∧
  (spec_add_balance start_nonce a incr mode w).2 = (spec_add_balance start_nonce a incr mode w').2.
Proof.
  intros Hw. unfold spec_add_balance. pose proof (Hw a) as Ha.
  pose proof (account_of_proper _ _ Ha) as Hv.
  assert (match mode, w a with ForceCreate, None => true | _, _ => false end =
    match mode, w' a with ForceCreate, None => true | _, _ => false end) as -> by
    by destruct Ha, mode.
  case_if; cbn.
  - split; [|done]. by rewrite (ve_balance _ _ Hv), Hv, Hw.
  - split; [done|]. by destruct Ha, mode.
Qed.

Definition outcome_rel {A} (R : A → A → Prop) (o1 o2 : Outcome A) : Prop :=
  match o1, o2 with Done a, Done b => R a b | Panic, Panic => True | _, _ => False end.

Lemma spec_sub_balance_proper a decr mode w w' :
  w ≡ w' → outcome_rel (λ r r', r.1 ≡ r'.1 ∧ r.2 = r'.2)
    (spec_sub_balance start_nonce a decr mode w) (spec_sub_balance start_nonce a decr mode w').
Proof.
  intros Hw. unfold spec_sub_balance. pose proof (Hw a) as Ha.
  pose proof (account_of_proper _ _ Ha) as Hv.
  assert (match w a with None => true | _ => false end =
    match w' a with None => true | _ => false end) as -> by by destruct Ha.
  rewrite (ve_balance _ _ Hv). destruct (bool_decide _ || _); [|by split].
  destruct (decr <=? _)%Z; [|done].
  split; [|done]. cbn. by rewrite Hv, Hw.
Qed.

Lemma spec_world_proper op w w' :
  w ≡ w' → outcome_rel (λ r r', r.1 ≡ r'.1 ∧ r.2 = r'.2)
    (spec_world start_nonce op w) (spec_world start_nonce op w').
Proof.
  intros Hw. destruct op; cbn [spec_world].
  1-10: split; [exact Hw|]; cbn; pose proof (Hw a) as E; revert E; generalize (w a), (w' a);
    intros ? ? [x y Hxy|]; cbn; [|done];
    rewrite ?(ve_balance _ _ Hxy), ?(ve_nonce _ _ Hxy), ?(ve_code_hash _ _ Hxy),
      ?(ve_code_version _ _ Hxy), ?(ve_storage _ _ Hxy), ?(ve_original _ _ Hxy),
      ?(view_null_proper _ _ Hxy); done.
  - pose proof (spec_add_balance_proper a incr mode w w' Hw) as [Hw' Hm].
    destruct (spec_add_balance _ _ _ _ w), (spec_add_balance _ _ _ _ w').
    split; [done|]. cbn in *. by subst.
  - pose proof (spec_sub_balance_proper a decr mode w w' Hw) as Hs.
    destruct (spec_sub_balance _ _ _ _ w) as [[]|], (spec_sub_balance _ _ _ _ w') as [[]|];
      try done. destruct Hs as [? Hm]. cbn in *. by subst.
  - pose proof (spec_sub_balance_proper from by' mode w w' Hw) as Hs.
    destruct (spec_sub_balance _ _ _ _ w) as [[w1 m1]|],
      (spec_sub_balance _ _ _ _ w') as [[w1' m1']|]; try done.
    destruct Hs as [Hw1 Hm]. cbn in *. subst m1'.
    pose proof (spec_add_balance_proper to by' m1 w1 w1' Hw1) as [Hw' Hm].
    destruct (spec_add_balance _ _ _ _ w1), (spec_add_balance _ _ _ _ w1').
    split; [done|]. cbn in *. by subst.
  - pose proof (account_of_proper _ _ (Hw a)) as Hv. split; [|done]. cbn.
    by rewrite (ve_nonce _ _ Hv), Hv, Hw.
  - pose proof (account_of_proper _ _ (Hw a)) as Hv. rewrite (ve_storage _ _ Hv).
    case_decide; split; cbn; try done. by rewrite Hv, Hw.
  - pose proof (account_of_proper _ _ (Hw a)) as Hv. split; [|done]. cbn. by rewrite Hv, Hw.
  - pose proof (account_of_proper _ _ (Hw a)) as Hv. split; [|done]. cbn. by rewrite Hv, Hw.
  - pose proof (account_of_proper _ _ (Hw a)) as Hv. destruct (_ <=? _)%Z; split; try done. cbn.
    apply wset_proper; [|done]. constructor. split; try done. apply (ve_original _ _ Hv).
  - split; [|done]. cbn. by rewrite Hw.
  - by split.
  - by split.
  - by split.
Qed.

Lemma spec_op_proper op w ws w' ws' :
  w ≡ w' → Forall2 (≡@{World}) ws ws' →
  outcome_rel (λ r r', r.1.1 ≡ r'.1.1 ∧ Forall2 (≡@{World}) r.1.2 r'.1.2 ∧ r.2 = r'.2)
    (spec_op start_nonce op (w, ws)) (spec_op start_nonce op (w', ws')).
Proof.
  intros Hw Hws. assert (outcome_rel (λ r r', r.1.1 ≡ r'.1.1 ∧ Forall2 (≡@{World}) r.1.2 r'.1.2 ∧
    r.2 = r'.2) ('(w, r) ← spec_world start_nonce op w; Done (w, ws, r))
    ('(w, r) ← spec_world start_nonce op w'; Done (w, ws', r))) as Hg.
  { pose proof (spec_world_proper op w w' Hw) as Hs.
    destruct (spec_world start_nonce op w) as [[]|], (spec_world start_nonce op w') as [[]|];
      try done. destruct Hs. by split_and!. }
  destruct op; cbn [spec_op]; try exact Hg.
  - split_and!; cbn; [done|by constructor|]. by rewrite (Forall2_length _ _ _ Hws).
  - split_and!; cbn; [done| |done]. by destruct Hws.
  - destruct Hws; by split_and!.
Qed.
End Proper.

(** ** One operation *)

Section Simulation.
Context `{Keccak} `{LruCache H256 H256} `{!LruLaws H256 H256} `{TrieDatabase} `{HashOrder}.
Context {B : Type} `{!Backend B} `{!DbStep} `{!BackendLaws}.
Abbreviation d_of s := (as_hash_db (st_db s)).
Implicit Types s : State (B := B).

(** The operation [m] does on [s] what [o] does on its current world. *)
Definition sim {A} (s : State (B := B)) (o : Outcome (World * Result A TrieError))
    (m : Outcome (State (B := B) * Result A TrieError)) : Prop :=
  match o with
  | Panic => m = Panic
  | Done (w, r) => ∃ s', m = Done (s', r) ∧ keeps s w s'
  end.

Lemma sm_bind_ok {A C} (m : SM (B := B) A) (f : A → SM C) s s' a :
  m s = Done (s', Ok a) → (m ≫= f) s = f a s'.
Proof. intros E. unfold mbind, sm_bind. by rewrite E. Qed.

Lemma sm_bind_panic {A C} (m : SM (B := B) A) (f : A → SM C) s :
  m s = Panic → (m ≫= f) s = Panic.
Proof. intros E. unfold mbind, sm_bind. by rewrite E. Qed.

Lemma sm_bind_assoc {A C D} (m : SM (B := B) A) (f : A → SM C) (g : C → SM D) s :
  ((m ≫= f) ≫= g) s = (m ≫= λ a, f a ≫= g) s.
Proof. unfold mbind, sm_bind. destruct (m s) as [[s' [a|e]]|]; done. Qed.

(** The answer of an operation is part of its result. *)
Lemma sim_answer {A C} (f : A → C) s w a (m : SM A) :
  sim s (Done (w, Ok a)) (m s) →
  sim s (Done (w, Ok (f a))) ((m ≫= λ a, mret (f a)) s).
Proof.
  intros (s' & E & Hk). exists s'. split; [|done]. by rewrite (sm_bind_ok _ _ _ _ _ E).
Qed.

Lemma sim_query {U} a require check_null (f : option Account → U) (g : option View → U) s :
  state_ok s →
  (∀ acc v, view (d_of s) a <$> acc ≡ v → (∀ acc', acc = Some acc' → acc_ok (d_of s) a acc' ∧
    (require = RequireCode → is_cached acc' = true)) → f acc = g v) →
  sim s (Done (world s, Ok (g (world s a)))) (ensure_cached a require check_null f s).
Proof.
  intros Hs Hf. destruct (ensure_cached_ok a require check_null f s Hs)
    as (s' & acc & E & Hk & Hv & Hacc). exists s'. by rewrite E, (Hf acc _ Hv Hacc).
Qed.

(** The function of a query depends on the view only. *)
Lemma view_cases d a acc v :
  view d a <$> acc ≡ v →
  match acc, v with
  | Some acc, Some v => view d a acc ≡ v
  | None, None => True
  | _, _ => False
  end.
Proof. destruct acc, v; intros Hv; inversion Hv; try done. Qed.

Ltac query :=
  let acc := fresh in let v := fresh in let Hv := fresh "Hv" in let Hacc := fresh "Hacc" in
  intros acc v Hv%view_cases Hacc; destruct acc as [acc|], v as [v|]; cbn in *; try done;
  destruct Hv as [V1 V2 V3 V4 V5 V6 V7]; cbn in *.

Lemma sim_balance a s : state_ok s →
  sim s (Done (world s, Ok (default 0%Z (v_balance <$> world s a)))) (balance a s).
Proof.
  intros Hs. apply (sim_query _ _ _ _ (λ v, default 0%Z (v_balance <$> v)) s Hs). query.
  done.
Qed.

Lemma sim_nonce a s : state_ok s →
  sim s (Done (world s, Ok (default (account_start_nonce s) (v_nonce <$> world s a)))) (nonce a s).
Proof.
  intros Hs.
  apply (sim_query _ _ _ _ (λ v, default (account_start_nonce s) (v_nonce <$> v)) s Hs).
  query. done.
Qed.

Lemma sim_exists a s : state_ok s →
  sim s (Done (world s, Ok (bool_decide (is_Some (world s a))))) (exists_account a s).
Proof.
  intros Hs. pose (g v := @bool_decide (is_Some v) (@is_Some_dec View v)).
  apply (sim_query _ _ _ _ g s Hs). unfold g. query.
Qed.

Lemma sim_exists_and_not_null a s : state_ok s →
  sim s (Done (world s, Ok (match world s a with Some v => negb (view_null v) | None => false end)))
    (exists_and_not_null a s).
Proof.
  intros Hs. apply (sim_query _ _ _ _
    (λ v, match v with Some v => negb (view_null v) | None => false end) s Hs). query.
  unfold is_null, view_null. by rewrite V1, V2, V3.
Qed.

Lemma sim_exists_and_has_code_or_nonce a s : state_ok s →
  sim s (Done (world s, Ok (match world s a with
      | Some v => bool_decide (v_code_hash v ≠ KECCAK_EMPTY) ||
                  bool_decide (v_nonce v ≠ account_start_nonce s)
      | None => false
      end))) (exists_and_has_code_or_nonce a s).
Proof.
  intros Hs. apply (sim_query _ _ _ _ (λ v, match v with
      | Some v => bool_decide (v_code_hash v ≠ KECCAK_EMPTY) ||
                  bool_decide (v_nonce v ≠ account_start_nonce s)
      | None => false end) s Hs). query. by rewrite V2, V3.
Qed.

Lemma sim_code_hash a s : state_ok s →
  sim s (Done (world s, Ok (v_code_hash <$> world s a))) (code_hash a s).
Proof.
  intros Hs. apply (sim_query _ _ _ _ (λ v, v_code_hash <$> v) s Hs). query. by rewrite V3.
Qed.

Lemma sim_code_version a s : state_ok s →
  sim s (Done (world s, Ok (default 0%Z (v_code_version <$> world s a)))) (code_version a s).
Proof.
  intros Hs. apply (sim_query _ _ _ _ (λ v, default 0%Z (v_code_version <$> v)) s Hs). query.
  done.
Qed.

(** The code of an account has its code hash. *)
Lemma sim_code a s : state_ok s →
  sim s (Done (world s, Ok (AHash (v_code_hash <$> world s a))))
    ((c ← code a; mret (AHash (keccak <$> c))) s).
Proof.
  intros Hs.
  destruct (ensure_cached_ok a RequireCode true (λ acc, acc ≫= account_code) s Hs)
    as (s' & acc & E & Hk & Hv%view_cases & Hacc). exists s'. split; [|done].
  rewrite (sm_bind_ok (code a) _ _ _ _ E). unfold mret, sm_ret. do 4 f_equal. clear E.
  destruct acc as [acc|], (world s a) as [v|]; try done.
  destruct (Hacc acc eq_refl) as [Ha Hc]. specialize (Hc eq_refl).
  pose proof (is_cached_hash _ _ _ Ha Hc) as Hh. cbn. rewrite <- (ve_code_hash _ _ Hv). cbn.
  unfold account_code. case_if; [|by rewrite <- Hh]. exfalso.
  apply andb_true_iff in Heqb as [E1%bool_decide_eq_true E2%bool_decide_eq_true].
  apply E1. by rewrite <- Hh, E2.
Qed.

(** ** Changes of one account *)

Lemma view_new_basic d a n : view d a (new_basic 0 n) ≡ empty_view n.
Proof.
  split; try done; intros key; cbn; rewrite ?lookup_empty; unfold base_storage; cbn;
    by rewrite decide_True.
Qed.

Lemma view_new_contract d a n : view d a (account_new_contract 0 n 0 KECCAK_NULL_RLP) ≡ empty_view n.
Proof.
  unfold account_new_contract. rewrite decide_True by done.
  split; try done; intros key; cbn; rewrite ?lookup_empty; unfold base_storage; cbn;
    by rewrite decide_True.
Qed.

Lemma default_account_of d a def n v :
  view d a def ≡ empty_view n → default (view d a def) v ≡ account_of n v.
Proof. by destruct v. Qed.

(** A change [f] of the account that is a change [g] of its view. *)
Lemma sim_update a require_code def f (g : View → Outcome View) s :
  state_ok s → acc_ok (d_of s) a def → view (d_of s) a def ≡ empty_view (account_start_nonce s) →
  (∀ acc v, acc_ok (d_of s) a acc → view (d_of s) a acc ≡ v →
    match g v with
    | Panic => f acc = Panic
    | Done v' => ∃ acc', f acc = Done acc' ∧ acc_ok (d_of s) a acc' ∧ view (d_of s) a acc' ≡ v'
    end) →
  sim s (v ← g (account_of (account_start_nonce s) (world s a));
         Done (wset a (Some v) (world s), Ok tt))
    ((acc ← require_or_from a require_code def; update_account a f acc) s).
Proof.
  intros Hs Hdef Hview Hf.
  pose proof (default_account_of _ _ _ _ (world s a) Hview) as Hd.
  destruct (require_or_from_ok a require_code def s Hs Hdef) as (s1 & acc & E1 & K1 & R1 & V1 & _).
  rewrite Hd in V1. pose proof (sb_db _ _ (ke_base _ _ _ K1)) as Hdb.
  assert (acc_ok (d_of s) a acc) as Ha by (destruct R1 as (_ & ? & _); by rewrite <- Hdb).
  pose proof (Hf acc _ Ha V1) as Hfv. rewrite (sm_bind_ok _ _ _ _ _ E1). unfold update_account.
  destruct (g (account_of _ _)) as [v'|]; cbn.
  - destruct Hfv as (acc' & -> & Ha' & Hv'). eexists. split; [done|].
    destruct (put_required s1 a acc acc' (ke_ok _ _ _ K1) R1) as [K2 _]; [by rewrite Hdb|].
    eapply keeps_world; [by eapply keeps_trans|]. rewrite Hdb. intros a'.
    rewrite (wset_proper a _ _ (reflexivity _) _ _ (ke_world _ _ _ K1) a').
    unfold wset. case_decide; [by constructor|done].
  - by rewrite Hfv.
Qed.

(** A simulation may start after a step that keeps the worlds. *)
Lemma sim_after {A} s s1 (o o1 : Outcome (World * Result A TrieError)) m :
  keeps s (world s) s1 → sim s1 o1 m →
  outcome_rel (λ r r', r.1 ≡ r'.1 ∧ r.2 = r'.2) o1 o → sim s o m.
Proof.
  intros K1 Hm Hr. destruct o1 as [[w1 r1]|], o as [[w r]|]; try done.
  destruct Hr as [Hw Hr]. cbn in *. subst r1. destruct Hm as (s' & -> & K2).
  exists s'. split; [done|]. eapply keeps_world; [by eapply keeps_trans|done].
Qed.

Lemma keeps_nonce s w s' : keeps s w s' → account_start_nonce s' = account_start_nonce s.
Proof. intros K. apply (sb_nonce _ _ (ke_base _ _ _ K)). Qed.

Lemma sim_require_update a f (g : View → Outcome View) s :
  state_ok s →
  (∀ acc v, acc_ok (d_of s) a acc → view (d_of s) a acc ≡ v →
    match g v with
    | Panic => f acc = Panic
    | Done v' => ∃ acc', f acc = Done acc' ∧ acc_ok (d_of s) a acc' ∧ view (d_of s) a acc' ≡ v'
    end) →
  sim s (v ← g (account_of (account_start_nonce s) (world s a));
         Done (wset a (Some v) (world s), Ok tt))
    ((acc ← require a false; update_account a f acc) s).
Proof.
  intros Hs Hf. apply (sim_update a false (new_basic 0 (account_start_nonce s)) f g s Hs);
    [apply acc_ok_new_basic|apply view_new_basic|done].
Qed.

Lemma sim_inc_nonce a s : state_ok s →
  let v := account_of (account_start_nonce s) (world s a) in
  sim s (Done (wset a (Some (with_nonce (saturating_add (v_nonce v) 1) v)) (world s), Ok tt))
    (inc_nonce a s).
Proof.
  intros Hs. apply (sim_require_update a _
    (λ v, Done (with_nonce (saturating_add (v_nonce v) 1) v)) s Hs).
  intros acc v Ha [V1 V2 V3 V4 V5 V6 V7]. eexists. split; [done|]. split.
  - by eapply acc_ok_fields.
  - split; try done. cbn in *. by rewrite V2.
Qed.

Lemma update_balance_ok d a acc v b :
  acc_ok d a acc → view d a acc ≡ v →
  acc_ok d a (set_balance b acc) ∧ view d a (set_balance b acc) ≡ with_balance b v.
Proof. intros Ha [V1 V2 V3 V4 V5 V6 V7]. split; [by eapply acc_ok_fields|by split]. Qed.

(** [touch] marks an account that exists as dirty, and keeps its view. *)
Lemma touch_ok a s : state_ok s → is_Some (world s a) →
  ∃ s', touch a s = Done (s', Ok tt) ∧ keeps s (world s) s'.
Proof.
  intros Hs [v Hv]. unfold touch.
  destruct (require_or_from_ok a false (new_basic 0 (account_start_nonce s)) s Hs)
    as (s1 & acc & E1 & K1 & _ & V1 & _); [apply acc_ok_new_basic|].
  exists s1. split; [by rewrite (sm_bind_ok (require a false) _ _ _ _ E1)|].
  eapply keeps_world; [done|]. apply wset_same. rewrite Hv in V1 |- *. cbn in V1.
  by constructor.
Qed.

(** The test whether an account is to be created. *)
Lemma missing_ok a s : state_ok s →
  ∃ s1, ((b ← exists_account a; mret (negb b)) : SM bool) s =
      Done (s1, Ok (match world s a with None => true | _ => false end)) ∧
    keeps s (world s) s1.
Proof.
  intros Hs. destruct (sim_exists a s Hs) as (s1 & E1 & K1). exists s1. split; [|done].
  rewrite (sm_bind_ok _ _ _ _ _ E1). by destruct (world s a).
Qed.

Lemma sim_add_balance a incr mode s : state_ok s →
  let '(w, m) := spec_add_balance (account_start_nonce s) a incr mode (world s) in
  sim s (Done (w, Ok m)) (add_balance a incr mode s).
Proof.
  intros Hs. unfold add_balance.
  set (create := match mode, world s a with ForceCreate, None => true | _, _ => false end).
  assert (∃ s1, ((if bool_decide (incr ≠ 0%Z) then mret true
    else match mode with ForceCreate => b ← exists_account a; mret (negb b) | _ => mret false end)
    : SM bool) s = Done (s1, Ok (bool_decide (incr ≠ 0%Z) || create)) ∧ keeps s (world s) s1)
    as (s1 & E1 & K1).
  { destruct (bool_decide _); [exists s; split; [done|by apply keeps_refl]|]. subst create.
    destruct mode; [by apply missing_ok|exists s..]; (split; [done|by apply keeps_refl]). }
  rewrite (sm_bind_ok _ _ _ _ _ E1). clear E1.
  pose proof (ke_ok _ _ _ K1) as Hs1. unfold spec_add_balance. fold create.
  destruct (bool_decide (incr ≠ 0%Z) || create).
  - pose proof (sim_require_update a (λ acc, Done (account_add_balance incr acc))
      (λ v, Done (with_balance (saturating_add (v_balance v) incr) v)) s1 Hs1) as Hu.
    destruct Hu as (s2 & E2 & K2).
    { intros acc v Ha Hv. eexists. split; [done|]. cbn. rewrite <- (ve_balance _ _ Hv).
      by apply update_balance_ok. }
    exists s2. rewrite <- sm_bind_assoc, (sm_bind_ok _ _ _ _ _ E2). split; [done|].
    eapply keeps_world; [by eapply keeps_trans|]. rewrite (keeps_nonce _ _ _ K1).
    pose proof (account_of_proper (account_start_nonce s) _ _ (ke_world _ _ _ K1 a)) as Hv.
    by rewrite (ve_balance _ _ Hv), Hv, (ke_world _ _ _ K1).
  - destruct mode as [| |set]; [by exists s1..|].
    destruct (sim_exists a s1 Hs1) as (s2 & E2 & K2). rewrite (sm_bind_ok _ _ _ _ _ E2).
    pose proof (keeps_trans _ _ _ _ _ K1 K2) as K12.
    pose proof (keeps_world _ _ _ _ K12 (ke_world _ _ _ K1)) as K13.
    pose proof (ke_world _ _ _ K13 a) as Hwa.
    pose proof (ke_world _ _ _ K1 a) as Hwa1.
    destruct (world s a) as [v|].
    + rewrite bool_decide_eq_true_2 by (inversion Hwa1; by eexists).
      destruct (touch_ok a s2 (ke_ok _ _ _ K2)) as (s3 & E3 & K3); [inversion Hwa; by eexists|].
      exists s3. rewrite (sm_bind_ok _ _ _ _ _ E3). split; [done|].
      eapply keeps_world; [by eapply keeps_trans|]. apply K13.
    + rewrite bool_decide_eq_false_2 by (inversion Hwa1; by intros [? ?]). by exists s2.
Qed.

Lemma sim_sub_balance a decr mode s : state_ok s →
  sim s ('(w, m) ← spec_sub_balance (account_start_nonce s) a decr mode (world s); Done (w, Ok m))
    (sub_balance a decr mode s).
Proof.
  intros Hs. unfold sub_balance, spec_sub_balance.
  set (create := match world s a with None => true | _ => false end).
  assert (∃ s1, ((if bool_decide (decr ≠ 0%Z) then mret true
    else b ← exists_account a; mret (negb b)) : SM bool) s =
    Done (s1, Ok (bool_decide (decr ≠ 0%Z) || create)) ∧ keeps s (world s) s1) as (s1 & E1 & K1).
  { destruct (bool_decide _); [exists s; split; [done|by apply keeps_refl]|].
    by apply missing_ok. }
  rewrite (sm_bind_ok _ _ _ _ _ E1). clear E1. pose proof (ke_ok _ _ _ K1) as Hs1.
  destruct (bool_decide (decr ≠ 0%Z) || create); cycle 1.
  { exists s1. split; [done|]. apply K1. }
  pose proof (account_of_proper (account_start_nonce s) _ _ (ke_world _ _ _ K1 a)) as Hv.
  pose proof (sim_require_update a (account_sub_balance decr)
    (λ v, if (decr <=? v_balance v)%Z then Done (with_balance (v_balance v - decr) v) else Panic)
    s1 Hs1) as Hu.
  rewrite (keeps_nonce _ _ _ K1), (ve_balance _ _ Hv) in Hu.
  destruct (decr <=? _)%Z.
  - destruct Hu as (s2 & E2 & K2).
    { intros acc v Ha Hav. unfold account_sub_balance.
      pose proof (ve_balance _ _ Hav) as Hb. cbn in Hb. rewrite Hb.
      destruct (decr <=? v_balance v)%Z; [|done]. eexists. split; [done|].
      by apply update_balance_ok. }
    exists s2. rewrite (sm_bind_ok _ _ _ _ _ E2). split; [done|].
    eapply keeps_world; [by eapply keeps_trans|]. by rewrite Hv, (ke_world _ _ _ K1).
  - apply (sm_bind_panic _ _ s1), Hu. intros acc v Ha Hav. unfold account_sub_balance.
    pose proof (ve_balance _ _ Hav) as Hb. cbn in Hb. rewrite Hb.
    destruct (decr <=? v_balance v)%Z; [|done]. eexists. split; [done|].
    by apply update_balance_ok.
Qed.

Lemma sim_transfer_balance from to by' mode s : state_ok s →
  sim s ('(w, m) ← spec_sub_balance (account_start_nonce s) from by' mode (world s);
         let '(w, m) := spec_add_balance (account_start_nonce s) to by' m w in Done (w, Ok m))
    (transfer_balance from to by' mode s).
Proof.
  intros Hs. unfold transfer_balance. pose proof (sim_sub_balance from by' mode s Hs) as H1'.
  destruct (spec_sub_balance _ from by' mode (world s)) as [[w1 m1]|]; cbn in *.
  - destruct H1' as (s1 & E1 & K1). rewrite (sm_bind_ok _ _ _ _ _ E1).
    pose proof (sim_add_balance to by' m1 s1 (ke_ok _ _ _ K1)) as H2'.
    pose proof (spec_add_balance_proper (account_start_nonce s1) to by' m1 _ _
      (ke_world _ _ _ K1)) as [Hw Hm]. rewrite (keeps_nonce _ _ _ K1) in *.
    destruct (spec_add_balance _ to by' m1 w1) as [w2 m2].
    destruct (spec_add_balance _ to by' m1 (world s1)) as [w2' m2']. cbn in *. subst m2'.
    destruct H2' as (s2 & E2 & K2). exists s2. split; [done|].
    eapply keeps_world; [by eapply keeps_trans|done].
  - by apply sm_bind_panic.
Qed.

Lemma set_storage_view d a acc v key value :
  acc_ok d a acc → view d a acc ≡ v →
  acc_ok d a (account_set_storage key value acc) ∧
  view d a (account_set_storage key value acc) ≡ with_storage key value v.
Proof.
  intros Ha [V1 V2 V3 V4 V5 V6 V7]. split; [by eapply acc_ok_fields|]. split; try done.
  intros k. cbn in *. specialize (V5 k). cbn in V5. rewrite <- V5. case_decide as E.
  - subst. by rewrite lookup_insert_eq.
  - by rewrite lookup_insert_ne.
Qed.

Lemma sim_set_storage a key value s : state_ok s →
  let v := account_of (account_start_nonce s) (world s a) in
  sim s (if decide (v_storage v key = value) then Done (world s, Ok tt)
         else Done (wset a (Some (with_storage key value v)) (world s), Ok tt))
    (set_storage a key value s).
Proof.
  intros Hs v. unfold set_storage. destruct (storage_at_ok a key s Hs) as (s1 & E1 & K1).
  rewrite (sm_bind_ok _ _ _ _ _ E1).
  assert (match world s a with Some v => v_storage v key | None => h256_default end =
    v_storage v key) as -> by (subst v; by destruct (world s a)).
  case_decide as E; [by exists s1|].
  destruct (sim_require_update a (λ acc, Done (account_set_storage key value acc))
    (λ v, Done (with_storage key value v)) s1 (ke_ok _ _ _ K1)) as (s2 & E2 & K2).
  { intros acc v' Ha Hv. eexists. split; [done|]. by apply set_storage_view. }
  exists s2. split; [done|]. eapply keeps_world; [by eapply keeps_trans|].
  rewrite (keeps_nonce _ _ _ K1).
  pose proof (account_of_proper (account_start_nonce s) _ _ (ke_world _ _ _ K1 a)) as Hv.
  by rewrite Hv, (ke_world _ _ _ K1).
Qed.

Lemma sim_init_code a code s : state_ok s →
  sim s (Done (wset a (Some (with_code code (account_of (account_start_nonce s) (world s a))))
           (world s), Ok tt)) (init_code a code s).
Proof.
  intros Hs. apply (sim_update a true _ _ (λ v, Done (with_code code v)) s Hs).
  - by apply account_new_contract_ok.
  - apply view_new_contract.
  - intros acc v Ha [V1 V2 V3 V4 V5 V6 V7]. eexists. split; [done|].
    split; [by apply account_init_code_ok|by split].
Qed.

(** The original storage of an account, by its root. *)
Lemma original_root_view d a acc key :
  acc_ok d a acc →
  (if decide (account_original_storage_root acc = KECCAK_NULL_RLP) then h256_default
   else stored d a (account_original_storage_root acc) key) = v_original (view d a acc) key.
Proof.
  intros Ha. unfold account_original_storage_root. cbn.
  destruct (original_storage_cache acc) as [[root c]|] eqn:E; [|done].
  destruct (ao_original _ _ _ Ha root c E) as (Hne & _). by rewrite decide_False.
Qed.

Lemma view_contract d a balance nonce version root (orig : H256 → H256) :
  (∀ key, (if decide (root = KECCAK_NULL_RLP) then h256_default else stored d a root key) =
    orig key) →
  view d a (account_new_contract balance nonce version root) ≡
    mkView balance nonce KECCAK_EMPTY version (λ _, h256_default) orig KECCAK_NULL_RLP.
Proof.
  intros Ho. split; try done; intros key; cbn.
  - rewrite lookup_empty. unfold base_storage. cbn. by rewrite decide_True.
  - rewrite <- Ho. case_decide; [|done]. unfold base_storage. cbn. by rewrite decide_True.
Qed.

Lemma sim_new_contract a balance off version s : state_ok s →
  let nonce := (account_start_nonce s + off)%Z in
  sim s (if (2 ^ 256 <=? nonce)%Z then Done (world s, Err (NonceOverflow a))
         else Done (wset a (Some (mkView balance nonce KECCAK_EMPTY version (λ _, h256_default)
                (v_original (account_of (account_start_nonce s) (world s a))) KECCAK_NULL_RLP))
                (world s), Ok tt))
    (new_contract a balance off version s).
Proof.
  intros Hs nonce. unfold new_contract.
  destruct (ensure_cached_ok a RequireNone true (fmap account_original_storage_root) s Hs)
    as (s1 & acc & E1 & K1 & Hv & Hacc).
  set (root := default KECCAK_NULL_RLP (account_original_storage_root <$> acc)).
  assert (original_storage_root a s = Done (s1, Ok root)) as E2.
  { unfold original_storage_root. by rewrite (sm_bind_ok _ _ _ _ _ E1). }
  rewrite (sm_bind_ok _ _ _ _ _ E2). clear E1 E2.
  unfold sm_state. rewrite (keeps_nonce _ _ _ K1). fold nonce.
  destruct (2 ^ 256 <=? nonce)%Z; [by exists s1|].
  pose proof (sb_db _ _ (ke_base _ _ _ K1)) as Hd. eexists. split; [done|].
  eapply keeps_world; [eapply keeps_trans; [done|]; apply insert_dirty_ok; [apply K1|]|].
  - intros acc' [= <-]. rewrite Hd. apply account_new_contract_ok. subst root.
    destruct acc as [acc|]; [|done]. cbn. intros Hne. apply original_root_complete; [|done].
    by apply Hacc.
  - cbn. rewrite Hd, (ke_world _ _ _ K1). apply wset_proper; [|done]. constructor.
    apply view_contract. subst root. apply view_cases in Hv.
    destruct acc as [acc|], (world s a) as [v|]; try done; cbn.
    + intros key. rewrite <- (ve_original _ _ Hv). apply original_root_view. by apply Hacc.
    + intros key. by rewrite decide_True.
Qed.

(** The operations on the current world only. *)
Lemma sim_world op s : state_ok s →
  match op with OpCheckpoint | OpDiscard | OpRevert => False | _ => True end →
  sim s (spec_world (account_start_nonce s) op (world s)) (run_op op s).
Proof.
  intros Hs Hop. destruct op; try done; cbn [spec_world run_op].
  - by apply sim_answer, sim_balance.
  - by apply sim_answer, sim_nonce.
  - by apply sim_answer, sim_exists.
  - by apply sim_answer, sim_exists_and_not_null.
  - by apply sim_answer, sim_exists_and_has_code_or_nonce.
  - by apply sim_answer, sim_code_hash.
  - by apply sim_answer, sim_code_version.
  - by apply sim_code.
  - destruct (storage_at_ok a key s Hs) as (s' & E & K).
    apply (sim_answer (λ h, AHash (Some h)) s (world s)
      (match world s a with Some v => v_storage v key | None => h256_default end)).
    by exists s'.
  - destruct (original_storage_at_ok a key s Hs) as (s' & E & K).
    apply (sim_answer (λ h, AHash (Some h)) s (world s)
      (match world s a with Some v => v_original v key | None => h256_default end)).
    by exists s'.
  - pose proof (sim_add_balance a incr mode s Hs) as Hm.
    destruct (spec_add_balance _ a incr mode (world s)). by apply sim_answer.
  - pose proof (sim_sub_balance a decr mode s Hs) as Hm.
    destruct (spec_sub_balance _ a decr mode (world s)) as [[w m]|]; cbn in *.
    + by apply sim_answer.
    + by apply sm_bind_panic.
  - pose proof (sim_transfer_balance from to by' mode s Hs) as Hm.
    destruct (spec_sub_balance _ from by' mode (world s)) as [[w m]|]; cbn in *.
    + destruct (spec_add_balance _ to by' m w). by apply sim_answer.
    + by apply sm_bind_panic.
  - by apply (sim_answer (λ _ : (), AUnit) s _ tt), sim_inc_nonce.
  - pose proof (sim_set_storage a key value s Hs) as Hm. cbn in Hm.
    destruct (decide _); by apply (sim_answer (λ _ : (), AUnit) s _ tt).
  - by apply (sim_answer (λ _ : (), AUnit) s _ tt), sim_init_code.
  - by apply (sim_answer (λ _ : (), AUnit) s _ tt), sim_init_code.
  - pose proof (sim_new_contract a balance nonce_offset version s Hs) as Hm. cbn in Hm.
    destruct (2 ^ 256 <=? _)%Z; [|by apply (sim_answer (λ _ : (), AUnit) s _ tt)].
    destruct Hm as (s' & E & K). exists s'. split; [|done]. unfold mbind, sm_bind.
    by rewrite E.
  - eexists. split; [done|]. by apply (insert_dirty_ok s a None).
Qed.

(** One operation on the current world and the saved ones. *)
Lemma run_op_ok op s : state_ok s →
  match spec_op (account_start_nonce s) op (world s, saved s) with
  | Panic => run_op op s = Panic
  | Done (w, ws, r) => ∃ s', run_op op s = Done (s', r) ∧ state_ok s' ∧ same_base s s' ∧
      world s' ≡ w ∧ Forall2 (≡@{World}) (saved s') ws
  end.
Proof.
  intros Hs. pose proof (sim_world op s Hs) as Hsim.
  assert (match op with OpCheckpoint | OpDiscard | OpRevert => False | _ => True end →
    match ('(w, r) ← spec_world (account_start_nonce s) op (world s); Done (w, saved s, r)) with
    | Panic => run_op op s = Panic
    | Done (w, ws, r) => ∃ s', run_op op s = Done (s', r) ∧ state_ok s' ∧ same_base s s' ∧
        world s' ≡ w ∧ Forall2 (≡@{World}) (saved s') ws
    end) as Hg.
  { intros Hop. specialize (Hsim Hop).
    destruct (spec_world _ op (world s)) as [[w r]|]; cbn in *; [|done].
    destruct Hsim as (s' & E & [K1 K2 K3 K4]). by exists s'. }
  destruct op; try (by apply Hg); clear Hg Hsim; cbn [spec_op run_op].
  - destruct (checkpoint_ok s Hs) as (C1 & C2 & C3 & C4). eexists. split; [|done].
    cbn. do 4 f_equal. unfold saved. clear. generalize (world s). induction (checkpoints s); cbn; auto.
  - destruct (discard_checkpoint_ok s Hs) as (C1 & C2 & C3 & C4). by eexists.
  - destruct (saved s) as [|w ws] eqn:Es.
    + exists s. split; [|by rewrite Es]. do 2 f_equal. unfold revert_to_checkpoint, saved in *.
      by destruct (checkpoints s).
    + destruct (revert_to_checkpoint_ok s w ws Hs Es) as (C1 & C2 & C3 & C4). by eexists.
Qed.

Lemma run_ops_ok ops s w ws : state_ok s → world s ≡ w → Forall2 (≡@{World}) (saved s) ws →
  match spec_ops (account_start_nonce s) ops (w, ws) with
  | Panic => run_ops ops s = Panic
  | Done (w', ws', rs) => ∃ s', run_ops ops s = Done (s', rs) ∧ state_ok s' ∧ same_base s s' ∧
      world s' ≡ w' ∧ Forall2 (≡@{World}) (saved s') ws'
  end.
Proof.
  revert s w ws. induction ops as [|op ops IH]; intros s w ws Hs Hw Hws;
    cbn [spec_ops run_ops].
  { by exists s. }
  pose proof (run_op_ok op s Hs) as Hop.
  pose proof (spec_op_proper (account_start_nonce s) op _ _ _ _ Hw Hws) as Hp.
  destruct (spec_op _ op (world s, saved s)) as [[[w1 ws1] r1]|],
    (spec_op _ op (w, ws)) as [[[w1' ws1'] r1']|]; try done; [|by rewrite Hop].
  cbn [outcome_rel fst snd] in Hp. cbn [mbind outcome_bind].
  destruct Hp as (Hw1 & Hws1 & ->). destruct Hop as (s1 & -> & Hs1 & Hb1 & W1 & S1).
  specialize (IH s1 w1' ws1' Hs1 ltac:(by rewrite W1) ltac:(by etrans)).
  rewrite (sb_nonce _ _ Hb1) in IH.
  destruct (spec_ops _ ops (w1', ws1')) as [[[w2 ws2] rs]|]; cbn; [|by rewrite IH].
  destruct IH as (s2 & -> & Hs2 & Hb2 & W2 & S2). exists s2. split_and!; try done.
  destruct Hb1, Hb2. split; congruence.
Qed.
End Simulation.
