(* ===== verification/StateCommit.v ===== *)
(** * Committing the state

    [commit] writes the dirty accounts to the tries and [clear] empties the cache: afterwards
    the database alone has the world the state had.  The tries come from the [trie-db] crate:
    [TrieLaws] states what the code relies on. *)

From S2P Require Import Prelude Hash Transaction Account State World StateInv StateSteps.
From S2P Require Import StateRefine.

(** ** Tries *)

Section Frames.
Context `{Keccak} `{TrieDatabase}.

(** The state trie has all its nodes. *)
Definition complete_state (d : hash_db) (root : H256) : Prop :=
  ∀ a, ∃ r, account_lookup d root a = Ok r.

(** A change of the storage trie of one account. *)
Record storage_frame (a : Address) (d d' : hash_db) : Prop := {
  sf_storage b root key : b ≠ a → storage_lookup d' b root key = storage_lookup d b root key;
  sf_code b h : code_lookup d' b h = code_lookup d b h;
  sf_account root b : account_lookup d' root b = account_lookup d root b;
}.

(** The storage and code of the accounts outside [P] stay. *)
Record content_frame (P : Address → Prop) (d d' : hash_db) : Prop := {
  cf_storage b root key : ¬ P b → storage_lookup d' b root key = storage_lookup d b root key;
  cf_code b h : ¬ P b → code_lookup d' b h = code_lookup d b h;
}.

(** A change of the state trie. *)
Definition state_frame : hash_db → hash_db → Prop := content_frame (λ _, False).

(** A change of the storage and code of some accounts. *)
Record accounts_frame (P : Address → Prop) (d d' : hash_db) : Prop := {
  af_content : content_frame P d d';
  af_account root b : account_lookup d' root b = account_lookup d root b;
}.
End Frames.

(** Inserting and removing change one value, and return the root of the new trie; the nodes
    of an account are apart from those of others and of the state trie. *)
Class TrieLaws `{Keccak} `{TrieDatabase} `{!DbStep} := {
  db_step_trans :: Transitive db_step;
  db_step_refl :: Reflexive db_step;
  storage_lookup_empty d a key : storage_lookup d a KECCAK_NULL_RLP key = Ok 0%Z;
  storage_open_complete d a root : complete_root d a root → storage_open d a root = Ok tt;
  storage_insert_ok d a root key z : complete_root d a root → (0 < z < 2 ^ 256)%Z →
    ∃ d' root', storage_insert d a root key z = Ok (d', root') ∧ db_step d d' ∧ storage_frame a d d' ∧
      ∀ k, storage_lookup d' a root' k =
        if decide (k = key) then Ok z else storage_lookup d a root k;
  storage_remove_ok d a root key : complete_root d a root →
    ∃ d' root', storage_remove d a root key = Ok (d', root') ∧ db_step d d' ∧ storage_frame a d d' ∧
      ∀ k, storage_lookup d' a root' k =
        if decide (k = key) then Ok 0%Z else storage_lookup d a root k;
  code_emplace_step d a h code : db_step d (code_emplace d a h code);
  code_emplace_found d a h code : keccak code = h →
    ∃ c, code_lookup (code_emplace d a h code) a h = Some c ∧ keccak c = h;
  code_emplace_code d a h code b : b ≠ a →
    ∀ h', code_lookup (code_emplace d a h code) b h' = code_lookup d b h';
  code_emplace_storage d a h code b root key :
    storage_lookup (code_emplace d a h code) b root key = storage_lookup d b root key;
  code_emplace_account d a h code root b :
    account_lookup (code_emplace d a h code) root b = account_lookup d root b;
  account_open_complete d root : complete_state d root → account_open d root = Ok tt;
  account_insert_ok d root a basic : complete_state d root →
    ∃ d' root', account_insert d root a basic = Ok (d', root') ∧ db_step d d' ∧ state_frame d d' ∧
      ∀ b, account_lookup d' root' b =
        if decide (b = a) then Ok (Some basic) else account_lookup d root b;
  account_remove_ok d root a : complete_state d root →
    ∃ d' root', account_remove d root a = Ok (d', root') ∧ db_step d d' ∧ state_frame d d' ∧
      ∀ b, account_lookup d' root' b =
        if decide (b = a) then Ok None else account_lookup d root b;
}.

(** ** One account *)

(** After a commit the original storage is the current one, with a root of its own. *)
Definition committed (root : H256) (v : View) : View :=
  mkView (v_balance v) (v_nonce v) (v_code_hash v) (v_code_version v) (v_storage v) (v_storage v)
    root.

#[global] Instance committed_proper root : Proper ((≡) ==> (≡)) (committed root).
Proof. intros v w [E1 E2 E3 E4 E5 E6 E7]. by split. Qed.

Section Account.
Context `{Keccak} `{LruCache H256 H256} `{!LruLaws H256 H256} `{TrieDatabase} `{!DbStep} `{!TrieLaws}.
Context `{HashOrder}.

Lemma h256_of_Z (h : H256) : h256 (h256_Z h) = h.
Proof. apply h256_Z_inj, h256_Z_h256, h256_Z_bound. Qed.

Lemma h256_zero : h256 0 = h256_default.
Proof. apply h256_eq. by vm_compute. Qed.

Lemma empty_complete d a : complete_root d a KECCAK_NULL_RLP.
Proof. intros key. rewrite storage_lookup_empty. by eexists. Qed.

Lemma base_stored d a acc key : base_storage d a acc key = stored d a (acc_storage_root acc) key.
Proof.
  unfold base_storage. case_decide as E; [|done]. unfold stored.
  by rewrite E, storage_lookup_empty, h256_zero.
Qed.

Lemma acc_ok_complete d a acc : acc_ok d a acc → complete_root d a (acc_storage_root acc).
Proof.
  intros Ha. destruct (decide (acc_storage_root acc = KECCAK_NULL_RLP)) as [->|Hn].
  - apply empty_complete.
  - by apply (ao_root _ _ _ Ha).
Qed.

#[global] Instance storage_frame_trans a : Transitive (storage_frame a).
Proof.
  intros d1 d2 d3 [F1 F2 F3] [G1 G2 G3]. split; intros.
  - by rewrite G1, F1.
  - by rewrite G2, F2.
  - by rewrite G3, F3.
Qed.

Lemma commit_changes_ok a changes d root c :
  complete_root d a root → NoDup changes.*1 →
  ∃ d' root' c', commit_changes d a root c changes = Ok (d', root', c') ∧ db_step d d' ∧
    storage_frame a d d' ∧
    ∀ k, storage_lookup d' a root' k =
      match list_to_map (M := gmap H256 H256) changes !! k with
      | Some v => Ok (h256_Z v)
      | None => storage_lookup d a root k
      end.
Proof.
  revert d root c. induction changes as [|[k v] changes IH]; intros d root c Hc Hnd; cbn.
  { exists d, root, c. split_and!; [done..|by split|done]. }
  apply NoDup_cons in Hnd as [Hk Hnd].
  assert (∃ d1 root1, (if (h256_Z v =? 0)%Z then storage_remove d a root k
      else storage_insert d a root k (h256_Z v)) = Ok (d1, root1) ∧
      db_step d d1 ∧ storage_frame a d d1 ∧
    ∀ k', storage_lookup d1 a root1 k' =
      if decide (k' = k) then Ok (h256_Z v) else storage_lookup d a root k')
    as (d1 & root1 & E1 & S1 & F1 & L1).
  { destruct (Z.eqb_spec (h256_Z v) 0) as [->|Hz]; [by apply storage_remove_ok|].
    apply storage_insert_ok; [done|]. pose proof (h256_Z_bound v). lia. }
  rewrite E1. cbn [try_bind].
  destruct (IH d1 root1 (lru_insert c k v)) as (d' & root' & c' & E & S & F & L); [|done|].
  { intros k'. rewrite L1. case_decide; [by eexists|apply Hc]. }
  exists d', root', c'. split_and!; [done|by trans d1|by trans d1|]. intros k'. rewrite L, L1.
  destruct (decide (k' = k)) as [->|Hne].
  - rewrite lookup_insert_eq. by rewrite not_elem_of_list_to_map_1.
  - by rewrite lookup_insert_ne.
Qed.

(** The account after its storage is written. *)
Record storage_written (d : hash_db) (a : Address) (acc acc' : Account) (d' : hash_db) : Prop := {
  sw_step : db_step d d';
  sw_frame : storage_frame a d d';
  sw_fields : acc_balance acc' = acc_balance acc ∧ acc_nonce acc' = acc_nonce acc ∧
    acc_code_hash acc' = acc_code_hash acc ∧ acc_code_version acc' = acc_code_version acc ∧
    code_cache acc' = code_cache acc ∧ code_filth acc' = code_filth acc;
  sw_clean : storage_changes acc' = ∅;
  sw_lookup k : storage_lookup d' a (acc_storage_root acc') k =
    match storage_changes acc !! k with
    | Some v => Ok (h256_Z v)
    | None => storage_lookup d a (acc_storage_root acc) k
    end;
}.

Lemma commit_storage_ok d a acc :
  acc_ok d a acc →
  ∃ d' acc', commit_storage d a acc = Ok (d', acc') ∧ storage_written d a acc acc' d'.
Proof.
  intros Ha. unfold commit_storage. pose proof (acc_ok_complete d a acc Ha) as Hc.
  rewrite storage_open_complete by done. cbn [try_bind].
  destruct (commit_changes_ok a (hash_iter (storage_changes acc)) d (acc_storage_root acc)
    (storage_cache acc) Hc (hash_iter_nodup _)) as (d' & root' & c' & -> & S & F & L).
  cbn [try_bind]. eexists _, _. split; [done|]. split; [done..|]. intros k. cbn. rewrite L.
  by rewrite (list_to_map_proper _ (map_to_list (storage_changes acc)) (hash_iter_nodup _)),
    list_to_map_to_list by apply hash_iter_perm.
Qed.

Lemma from_basic_ok d a b :
  complete_root d a (basic_storage_root b) →
  (basic_code_hash b = KECCAK_EMPTY ∨
   ∃ code, code_lookup d a (basic_code_hash b) = Some code ∧ keccak code = basic_code_hash b) →
  acc_ok d a (from_basic b).
Proof.
  intros Hr Hc. split; cbn; [done|intros ??; by rewrite lru_empty|done| |done].
  unfold is_cached. cbn. destruct (decide (basic_code_hash b = KECCAK_EMPTY)) as [->|Hn].
  - by rewrite bool_decide_eq_true_2.
  - by rewrite (bool_decide_eq_false_2 (basic_code_hash b = _)) by done.
Qed.

(** The account as it is read back from the state trie. *)
Definition loaded (d : hash_db) (a : Address) (acc : Account) (v : View) : Prop :=
  acc_ok d a (from_basic (to_basic acc)) ∧ view d a (from_basic (to_basic acc)) ≡
    committed (acc_storage_root acc) v.

(** An account without balance, nonce, code and storage. *)
Definition view_empty (v : View) : Prop :=
  view_null v = true ∧ ∀ k, v_storage v k = h256_default.

Lemma view_frame (P : Address → Prop) d d' a acc :
  content_frame P d d' → ¬ P a → view d' a acc ≡ view d a acc.
Proof.
  intros F Ha. split; try done; intros k; cbn; unfold base_storage, stored.
  - by rewrite (cf_storage _ _ _ F).
  - destruct (original_storage_cache acc) as [[r c]|]; by rewrite (cf_storage _ _ _ F).
Qed.

Lemma acc_ok_frame (P : Address → Prop) d d' a acc :
  content_frame P d d' → ¬ P a → acc_ok d a acc → acc_ok d' a acc.
Proof.
  intros F Ha [A1 A2 A3 A4 A5].
  assert (∀ root, complete_root d a root → complete_root d' a root) as Hc.
  { intros root Hr k. rewrite (cf_storage _ _ _ F) by done. apply Hr. }
  assert (∀ root k, stored d' a root k = stored d a root k) as Hst.
  { intros root k. unfold stored. by rewrite (cf_storage _ _ _ F). }
  split; try done.
  - intros Hr. by apply Hc, A1.
  - intros k v Hk Hr. rewrite Hst. by apply A2.
  - intros root c E. destruct (A3 root c E) as (? & ? & Hk). split_and!; [done|by apply Hc|].
    intros k v Hv. rewrite Hst. by apply Hk.
  - intros Hcl. destruct (A5 Hcl) as [?|(code & Hl & Hk)]; [by left|right].
    exists code. by rewrite (cf_code _ _ _ F).
Qed.

Lemma loaded_frame (P : Address → Prop) d d' a acc v :
  content_frame P d d' → ¬ P a → loaded d a acc v → loaded d' a acc v.
Proof.
  intros F Ha [Hok Hv]. split; [by eapply acc_ok_frame|]. rewrite <- Hv. by eapply view_frame.
Qed.

(** What writing the code of an account does after its storage is written. *)
Lemma commit_code_ok d a acc d1 acc1 :
  acc_ok d a acc → storage_written d a acc acc1 d1 →
  let '(d2, acc2) := commit_code d1 a acc1 in
  db_step d d2 ∧
  to_basic acc2 = to_basic acc1 ∧ storage_changes acc2 = ∅ ∧ accounts_frame (.= a) d d2 ∧
  (∀ root key, storage_lookup d2 a root key = storage_lookup d1 a root key) ∧
  (acc_code_hash acc2 = KECCAK_EMPTY ∨
   ∃ code, code_lookup d2 a (acc_code_hash acc2) = Some code ∧ keccak code = acc_code_hash acc2).
Proof.
  intros Ha [S [F1 F2 F3] (E1 & E2 & E3 & E4 & E5 & E6) Hcl Hl].
  pose proof (ao_code _ _ _ Ha) as Hc. pose proof (ao_clean _ _ _ Ha) as Hcc.
  assert (accounts_frame (.= a) d d1) as F by (split; [split|]; auto).
  unfold commit_code. rewrite E5, E6. unfold is_cached in Hc.
  destruct (code_filth acc); cycle 1.
  - destruct (code_cache acc) as [|x code] eqn:Ecode; cbn in Hc.
    + split_and!; try done. left. cbn. rewrite E3. by destruct (bool_decide_reflect (acc_code_hash acc = KECCAK_EMPTY)).
    + split_and!; try done.
      * trans d1; [done|]. apply code_emplace_step.
      * split; [split|].
        -- intros b root key Hb. rewrite code_emplace_storage. by apply F1.
        -- intros b h Hb. rewrite code_emplace_code by done. apply F2.
        -- intros root b. rewrite code_emplace_account. apply F3.
      * intros root key. apply code_emplace_storage.
      * right. cbn. apply code_emplace_found. by rewrite E3.
  - split_and!; try done. rewrite E3.
    destruct (Hcc eq_refl) as [?|(code & ? & ?)]; [by left|right; exists code; by rewrite F2].
Qed.

Lemma commit_account_written d a acc :
  acc_ok d a acc →
  ∃ d1 acc1, commit_storage d a acc = Ok (d1, acc1) ∧
    let '(d2, acc2) := commit_code d1 a acc1 in
    db_step d d2 ∧ accounts_frame (.= a) d d2 ∧ loaded d2 a acc2 (view d a acc) ∧
    ∃ empty, is_empty acc2 = Done empty ∧ (empty = true → view_empty (view d a acc)).
Proof.
  intros Ha. destruct (commit_storage_ok d a acc Ha) as (d1 & acc1 & E & W).
  exists d1, acc1. split; [done|]. pose proof (commit_code_ok d a acc d1 acc1 Ha W) as Hcode.
  destruct (commit_code d1 a acc1) as [d2 acc2]. destruct Hcode as (Hstep & Eb & Hch & F & Hst & Hcode).
  destruct W as [_ _ (E1 & E2 & E3 & E4 & _ & _) _ Hl].
  pose proof Eb as [= B1 B2 B3 B4 B5].
  assert (∀ k, stored d2 a (acc_storage_root acc2) k = v_storage (view d a acc) k) as Hsv.
  { intros k. unfold stored. rewrite Hst, B3, Hl. cbn.
    destruct (storage_changes acc !! k); [apply h256_of_Z|]. by rewrite base_stored. }
  split_and!; [done|done|split|].
  - apply from_basic_ok; [|done]. intros k. cbn. rewrite Hst, B3, Hl.
    destruct (storage_changes acc !! k); [by eexists|]. apply (acc_ok_complete d a acc Ha).
  - split; cbn; try congruence.
    + intros k. rewrite base_stored. apply Hsv.
    + intros k. rewrite base_stored. apply Hsv.
  - unfold is_empty, storage_is_clean. rewrite Hch, bool_decide_eq_true_2 by done. eexists.
    split; [done|]. unfold is_null, view_empty, view_null. cbn [view v_balance v_nonce v_code_hash].
    rewrite B1, B2, B4, E1, E2, E3. intros [Hn Hr]%andb_true_iff. split; [done|]. intros k.
    apply bool_decide_eq_true in Hr. rewrite <- Hsv. unfold stored.
    by rewrite Hr, storage_lookup_empty, h256_zero.
Qed.
End Account.

(** ** The two loops *)

Section Commit.
Context `{Keccak} `{LruCache H256 H256} `{!LruLaws H256 H256} `{TrieDatabase} `{!DbStep} `{!TrieLaws}.
Context `{HashOrder} {B : Type} `{!Backend B} `{!BackendLaws}.
Abbreviation d_of s := (as_hash_db (st_db s)).

Lemma loaded_proper d a acc v w : v ≡ w → loaded d a acc v → loaded d a acc w.
Proof. intros Hv [? Hl]. split; [done|]. by rewrite Hl, Hv. Qed.

Lemma view_empty_proper v w : v ≡ w → view_empty v → view_empty w.
Proof.
  intros [E1 E2 E3 E4 E5 E6] [Hn Hs]. split; [|intros k; by rewrite <- E5].
  unfold view_null in *. by rewrite <- E1, <- E2, <- E3.
Qed.

(** The storage and code of the accounts in [P] are written. *)
Record written (P : Address → Prop) (s s' : State (B := B)) : Prop := {
  wr_backend : backend_ok (st_db s');
  wr_base : st_root s' = st_root s ∧ checkpoints s' = checkpoints s ∧
    account_start_nonce s' = account_start_nonce s;
  wr_frame : accounts_frame P (d_of s) (d_of s');
  wr_known x : is_known_null (st_db s') x = Done true → is_known_null (st_db s) x = Done true;
  wr_rest a : ¬ P a → cache s' !! a = cache s !! a;
  wr_done a e : P a → cache s !! a = Some e →
    match entry_account e with
    | None => cache s' !! a = Some e
    | Some acc => ∃ acc',
        cache s' !! a = Some (mkEntry (Some acc') (old_balance e) (entry_state e)) ∧
        loaded (d_of s') a acc' (view (d_of s) a acc) ∧
        (¬ view_empty (view (d_of s) a acc) → is_known_null (st_db s') a ≠ Done true)
    end;
}.

Lemma commit_account_ok s a :
  backend_ok (st_db s) →
  (∀ e acc, cache s !! a = Some e → entry_account e = Some acc → acc_ok (d_of s) a acc) →
  ∃ s', commit_account a s = Done (s', Ok tt) ∧ written (.= a) s s'.
Proof.
  intros Hb Hok. unfold commit_account.
  assert ((∀ e, cache s !! a = Some e → entry_account e = None) → written (.= a) s s) as Hsame.
  { intros Hn. split; try done. intros b e -> He. by rewrite (Hn e He). }
  destruct (cache s !! a) as [[[acc|] old st]|] eqn:He.
  2: { exists s. split; [done|]. apply Hsame. intros e E. by simplify_eq. }
  2: { exists s. split; [done|]. by apply Hsame. }
  destruct (commit_account_written (d_of s) a acc (Hok _ acc eq_refl eq_refl)) as (d1 & acc1 & -> & Hw).
  destruct (commit_code d1 a acc1) as [d2 acc2]. destruct Hw as (Hstep & F & Hl & empty & -> & Hempty).
  cbn [mbind outcome_bind]. destruct (backend_set_db (st_db s) d2 Hb Hstep) as (Hb2 & Hd2 & Hk2).
  set (s1 := put_account a acc2 (set_db (set_hash_db d2 (st_db s)) s)).
  assert (cache s1 = <[a := mkEntry (Some acc2) old st]> (cache s)) as Hc1.
  { unfold s1, put_account. cbn. by rewrite He. }
  assert (st_db s1 = set_hash_db d2 (st_db s) ∧ st_root s1 = st_root s ∧
    checkpoints s1 = checkpoints s ∧ account_start_nonce s1 = account_start_nonce s)
    as (Hdb1 & Hbase1).
  { unfold s1, put_account. cbn. by rewrite He. }
  assert (∀ b, backend_ok b → as_hash_db b = d2 →
    (∀ x, is_known_null b x = Done true → is_known_null (st_db s) x = Done true) →
    (¬ view_empty (view (d_of s) a acc) → is_known_null b a ≠ Done true) →
    written (.= a) s (set_db b s1)) as Hgo.
  { intros b Hbo Hd Hkn Hne. split; cbn; rewrite ?Hd; try done.
    - intros b' Hb'. by rewrite Hc1, lookup_insert_ne.
    - intros b' e -> He'. rewrite He in He'. injection He' as <-. exists acc2.
      by rewrite Hc1, lookup_insert_eq. }
  destruct empty.
  - exists s1. split; [done|]. rewrite <- (set_db_same s1). apply Hgo; rewrite Hdb1; try done.
    + intros x. by rewrite Hk2.
    + intros Hne. by destruct Hne, Hempty.
  - rewrite Hdb1. destruct (backend_note _ a Hb2) as (b3 & -> & Hb3 & Hd3 & Hk3).
    eexists. split; [done|]. apply Hgo; [done|by rewrite Hd3, Hd2| |].
    + intros x Hx. apply Hk3 in Hx as [_ Hx]. by rewrite <- Hk2.
    + intros _ Hx. by apply Hk3 in Hx as [? _].
Qed.

Lemma written_cons a l s s1 s' :
  a ∉ l → written (.= a) s s1 → written (.∈ l) s1 s' → written (.∈ a :: l) s s'.
Proof.
  intros Ha [_ (R1 & R2 & R3) F1 K1 C1 D1] [Hb (S1 & S2 & S3) F2 K2 C2 D2].
  split; [done|split_and!; congruence| |auto|..].
  - destruct F1 as [[X1 X2] X3], F2 as [[Y1 Y2] Y3]. split; [split|].
    + intros b root key Hn. rewrite elem_of_cons in Hn. rewrite Y1, X1 by naive_solver. done.
    + intros b h Hn. rewrite elem_of_cons in Hn. rewrite Y2, X2 by naive_solver. done.
    + intros root b. by rewrite Y3, X3.
  - intros b Hn. rewrite elem_of_cons in Hn. rewrite C2, C1 by naive_solver. done.
  - intros b e Hin He. destruct (decide (b = a)) as [->|Hne].
    + specialize (D1 a e eq_refl He). rewrite C2 by done.
      destruct (entry_account e) as [acc|]; [|done]. destruct D1 as (acc' & E & Hl & Hk).
      exists acc'. split_and!; [done|by eapply loaded_frame; [apply F2|..]|].
      intros Hv Hx. by apply (Hk Hv), K2.
    + apply elem_of_cons in Hin as [?|Hin]; [done|]. rewrite <- C1 in He by done.
      specialize (D2 b e Hin He). destruct (entry_account e) as [acc|]; [|done].
      destruct D2 as (acc' & E & Hl & Hk).
      pose proof (view_frame _ _ _ b acc (af_content _ _ _ F1) Hne) as Hv. exists acc'. split_and!; [done| |].
      * by eapply loaded_proper.
      * intros Hx. apply Hk. intros He'. by apply Hx, (view_empty_proper _ _ Hv).
Qed.

Lemma commit_accounts_ok l s :
  NoDup l → backend_ok (st_db s) →
  (∀ a e acc, a ∈ l → cache s !! a = Some e → entry_account e = Some acc →
    acc_ok (d_of s) a acc) →
  ∃ s', sm_iter commit_account l s = Done (s', Ok tt) ∧ written (.∈ l) s s'.
Proof.
  revert s. induction l as [|a l IH]; intros s Hnd Hb Hok.
  { exists s. split; [done|]. split; try done. by intros a e ?%elem_of_nil. }
  apply NoDup_cons in Hnd as [Ha Hnd].
  destruct (commit_account_ok s a Hb) as (s1 & E1 & W1).
  { intros e acc. apply Hok. by left. }
  destruct (IH s1) as (s' & E & W); [done|apply (wr_backend _ _ _ W1)| |].
  { intros b e acc Hin He Hacc. assert (b ≠ a) as Hne by by intros ->.
    rewrite (wr_rest _ _ _ W1) in He by done. eapply acc_ok_frame; [apply (wr_frame _ _ _ W1)|done|].
    eapply Hok; [by right|done..]. }
  exists s'. split; [|by eapply written_cons]. cbn [sm_iter]. by rewrite (sm_bind_ok _ _ _ _ _ E1).
Qed.

(** The state trie has the accounts of the cache at the addresses in [l]. *)
Record inserted (l : list Address) (s s' : State (B := B)) : Prop := {
  in_backend : backend_ok (st_db s');
  in_base : checkpoints s' = checkpoints s ∧ account_start_nonce s' = account_start_nonce s;
  in_frame : state_frame (d_of s) (d_of s');
  in_known x : is_known_null (st_db s') x = is_known_null (st_db s) x;
  in_rest a : a ∉ l → cache s' !! a = cache s !! a;
  in_lookup a : account_lookup (d_of s') (st_root s') a =
    if decide (a ∈ l) then Ok (cache s !! a ≫= λ e, to_basic <$> entry_account e)
    else account_lookup (d_of s) (st_root s) a;
}.

Lemma commit_entry_ok s a :
  backend_ok (st_db s) → complete_state (d_of s) (st_root s) → is_Some (cache s !! a) →
  ∃ s', commit_entry a s = Done (s', Ok tt) ∧ inserted [a] s s'.
Proof.
  intros Hb Hc [[account old st] He]. unfold commit_entry. rewrite He.
  set (s1 := set_cache _ s). cbn [s1 st_db st_root set_cache].
  assert (∃ d' root', match account with
      | Some account => account_insert (d_of s) (st_root s) a (to_basic account)
      | None => account_remove (d_of s) (st_root s) a
      end = Ok (d', root') ∧ db_step (d_of s) d' ∧ state_frame (d_of s) d' ∧
      ∀ b, account_lookup d' root' b = if decide (b = a) then Ok (to_basic <$> account)
                                       else account_lookup (d_of s) (st_root s) b)
    as (d' & root' & -> & Hstep & F & L).
  { destruct account; [by apply account_insert_ok|by apply account_remove_ok]. }
  destruct (backend_set_db (st_db s) d' Hb Hstep) as (Hb2 & Hd2 & Hk2).
  eexists. split; [done|]. split; cbn; rewrite ?Hd2; try done.
  - intros b Hb'. rewrite lookup_insert_ne; [done|]. intros <-. apply Hb'. by left.
  - intros b. rewrite L. destruct (decide (b = a)) as [->|Hne].
    + rewrite decide_True by left. by rewrite He.
    + by rewrite decide_False by by intros ?%list_elem_of_singleton.
Qed.

Lemma commit_entries_ok l s :
  NoDup l → backend_ok (st_db s) → complete_state (d_of s) (st_root s) →
  (∀ a, a ∈ l → is_Some (cache s !! a)) →
  ∃ s', sm_iter commit_entry l s = Done (s', Ok tt) ∧ inserted l s s'.
Proof.
  revert s. induction l as [|a l IH]; intros s Hnd Hb Hc Hs.
  { exists s. split; [done|]. by split. }
  apply NoDup_cons in Hnd as [Ha Hnd].
  destruct (commit_entry_ok s a Hb Hc) as (s1 & E1 & [Hb1 [B1 B1'] F1 K1 C1 L1]); [apply Hs; left|].
  assert (∀ b, b ∈ l → cache s1 !! b = cache s !! b) as Hcache.
  { intros b Hin. apply C1. intros ->%list_elem_of_singleton. done. }
  destruct (IH s1) as (s' & E & [Hb' [B2 B2'] F2 K2 C2 L2]); [done..| | |].
  { intros b. rewrite L1. case_decide; [by eexists|apply Hc]. }
  { intros b Hin. rewrite Hcache by done. apply Hs. by right. }
  exists s'. split; [cbn [sm_iter]; by rewrite (sm_bind_ok _ _ _ _ _ E1)|].
  split; [done|split; congruence| | | |].
  - destruct F1 as [X1 X2], F2 as [Y1 Y2]. split; intros; [by rewrite Y1, X1|by rewrite Y2, X2].
  - intros x. by rewrite K2.
  - intros b Hn. rewrite elem_of_cons in Hn. rewrite C2, C1; [done|..].
    + intros ?%list_elem_of_singleton. naive_solver.
    + naive_solver.
  - intros b. rewrite L2. destruct (decide (b ∈ l)) as [Hin|Hn].
    + rewrite decide_True by by right. by rewrite Hcache.
    + rewrite L1. destruct (decide (b = a)) as [->|Hne].
      * by rewrite !decide_True by left.
      * rewrite !decide_False; [done|..]; [by intros [?|?]%elem_of_cons|].
        by intros ?%list_elem_of_singleton.
Qed.

(** ** The commit *)

Definition committed_world (roots : Address → H256) (w : World) : World :=
  λ a, committed (roots a) <$> w a.

(** The addresses of the dirty entries. *)
Lemma dirty_list (c : gmap Address AccountEntry) :
  let dirty := fst <$> filter (λ kv, is_dirty kv.2 = true) (hash_iter c) in
  NoDup dirty ∧ ∀ a, a ∈ dirty ↔ ∃ e, c !! a = Some e ∧ is_dirty e = true.
Proof.
  intros dirty. split.
  - pose proof (hash_iter_nodup c) as Hnd. unfold dirty. revert Hnd.
    generalize (hash_iter c). induction l as [|kv l IH]; [constructor|].
    rewrite fmap_cons, NoDup_cons, filter_cons. intros [Hn Hnd]. case_decide; [|by apply IH].
    rewrite fmap_cons. apply NoDup_cons. split; [|by apply IH].
    intros (y & Ey & Hy)%list_elem_of_fmap. apply list_elem_of_filter in Hy as [_ Hy].
    apply Hn. rewrite Ey. by apply list_elem_of_fmap_2.
  - intros a. unfold dirty. rewrite list_elem_of_fmap. split.
    + intros ([k e] & -> & [Hd Hin]%list_elem_of_filter). apply elem_of_hash_iter in Hin.
      by exists e.
    + intros (e & He & Hd). exists (a, e). split; [done|]. apply list_elem_of_filter.
      split; [done|]. by apply elem_of_hash_iter.
Qed.

(** The accounts of the new state trie. *)
Lemma commit_lookup s s1 s2 l :
  state_ok s → (∀ a, a ∈ l ↔ ∃ e, cache s !! a = Some e ∧ is_dirty e = true) →
  written (.∈ l) s s1 → inserted l s1 s2 →
  ∀ a, (account_lookup (d_of s2) (st_root s2) a = Ok None ∧ world s a = None) ∨
    ∃ b v, account_lookup (d_of s2) (st_root s2) a = Ok (Some b) ∧ world s a ≡ Some v ∧
      acc_ok (d_of s2) a (from_basic b) ∧ 
      view (d_of s2) a (from_basic b) ≡ committed (basic_storage_root b) v ∧
      (¬ view_empty v → is_known_null (st_db s2) a ≠ Done true).
Proof.
  intros Hs Hl [_ (R & _ & _) [F1 A1] K1 C1 D1] [_ _ F2 K2 _ L2] a.
  pose proof (so_db s Hs) as Hdb. rewrite L2. destruct (decide (a ∈ l)) as [Hin|Hn].
  - destruct (proj1 (Hl a) Hin) as (e & He & _). rewrite (world_cache s a e He).
    specialize (D1 a e Hin He). unfold entry_view. destruct (entry_account e) as [acc|] eqn:Eacc.
    + right. destruct D1 as (acc' & Hc & Hload & Hk). rewrite Hc. cbn.
      eapply (loaded_frame _ _ _ a _ _ F2) in Hload as [Hok Hv]; [|tauto].
      eexists _, _. split_and!; try done. intros Hne. rewrite K2. by apply Hk.
    + left. rewrite D1. cbn. by rewrite Eacc.
  - rewrite A1, R. destruct (do_lookup _ _ _ Hdb a) as [r E]. rewrite E.
    assert (world s a ≡ db_world (d_of s) (st_root s) a) as Hw.
    { unfold world. destruct (cache s !! a) as [e|] eqn:He; [|done].
      apply (eo_clean _ _ _ _ (so_cache s Hs a e He)). destruct (is_dirty e) eqn:Ed; [|done].
      destruct Hn. apply Hl. by exists e. }
    unfold db_world, db_account in Hw. rewrite E in Hw. destruct r as [b|].
    + right. eexists b, _. split_and!; [done|exact Hw|..].
      * eapply (acc_ok_frame _ _ _ a); [exact F2|tauto|].
        eapply (acc_ok_frame _ _ _ a); [exact F1|done|]. by apply (do_account _ _ _ Hdb).
      * rewrite (view_frame _ _ _ a _ F2), (view_frame _ _ _ a _ F1) by tauto. by split.
      * intros _ Hx. rewrite K2 in Hx. apply K1 in Hx. apply (do_known _ _ _ Hdb) in Hx. congruence.
    + left. split; [done|]. by inversion Hw.
Qed.

(** [commit] and [clear]: the database has the world the state had. *)
Lemma commit_clear_ok s :
  state_ok s → checkpoints s = [] → (∀ a v, world s a = Some v → ¬ view_empty v) →
  ∃ roots s1 s2, commit s = Done (s1, Ok tt) ∧ clear s1 = Done s2 ∧ state_ok s2 ∧
    world s2 ≡ committed_world roots (world s) ∧ cache s2 = ∅ ∧ checkpoints s2 = [] ∧
    account_start_nonce s2 = account_start_nonce s.
Proof.
  intros Hs Hcp Hne. unfold commit. rewrite decide_True by done.
  destruct (dirty_list (cache s)) as [Hnd Hl]. set (l := fst <$> _) in *.
  destruct (commit_accounts_ok l s Hnd (so_backend s Hs)) as (s1 & E1 & W1).
  { intros a e acc _ He. apply (so_cache s Hs a e He). }
  assert (complete_state (d_of s1) (st_root s1)) as Hc1.
  { intros a. rewrite (af_account _ _ _ (wr_frame _ _ _ W1)), (proj1 (wr_base _ _ _ W1)).
    apply (do_lookup _ _ _ (so_db s Hs)). }
  rewrite (sm_bind_ok _ _ _ _ _ E1), (sm_bind_ok sm_get _ s1 s1 s1 eq_refl).
  rewrite (sm_bind_ok (sm_lift _) _ s1 s1 ()) by (unfold sm_lift; by rewrite account_open_complete).
  destruct (commit_entries_ok l s1 Hnd (wr_backend _ _ _ W1) Hc1) as (s2 & E2 & W2).
  { intros a Hin. pose proof Hin as (e & He & _)%Hl. pose proof (wr_done _ _ _ W1 a e Hin He) as Hd.
    destruct (entry_account e); [destruct Hd as (? & -> & _)|rewrite Hd]; by eexists. }
  assert (checkpoints s2 = [] ∧ account_start_nonce s2 = account_start_nonce s) as [Hcp2 Hno2].
  { destruct W1 as [_ (_ & X & Y) _ _ _ _], W2 as [_ [Z1 Z2] _ _ _ _]. split; congruence. }
  exists (λ a, default h256_default (v_root <$> db_world (d_of s2) (st_root s2) a)).
  exists s2, (set_cache ∅ s2). split; [done|]. unfold clear. rewrite decide_True by done.
  split; [done|]. pose proof (commit_lookup s s1 s2 l Hs Hl W1 W2) as Hlook.
  split_and!; [|  |done..].
  - split; cbn; [apply (in_backend _ _ _ W2)| |done|rewrite Hcp2; by intros ??? ?%elem_of_nil].
    assert (complete_state (d_of s2) (st_root s2)) as Hc2.
    { intros a. destruct (Hlook a) as [[-> _]|(b & v & -> & _)]; by eexists. }
    split; [by apply account_open_complete|done|..].
    + intros a b E. destruct (Hlook a) as [[E' _]|(b' & v & E' & _ & Hok & _)]; [congruence|].
      by rewrite E in E'; simplify_eq.
    + intros a Hk. destruct (Hlook a) as [[-> _]|(b & v & _ & Hw & _ & _ & Hx)]; [done|].
      destruct (world s a) as [v'|] eqn:Ew; inversion Hw as [? ? Hv|]; subst.
      destruct Hx; [|done]. intros He. apply (Hne a v' Ew). by apply (view_empty_proper v).
  - intros a. unfold world at 1. cbn. rewrite lookup_empty. unfold db_world, db_account, committed_world.
    destruct (Hlook a) as [[-> ->]|(b & v & -> & Hw & _ & Hv & _)]; [done|]. cbn.
    rewrite Hw. cbn. by rewrite Hv.
Qed.
End Commit.
