(* ===== verification/StateOps.v ===== *)
(** * The state during executions

    First a property of all accounts, then each operation of the state on states that have it.
    The property is what holds of every account that a state has in its cache, in its checkpoints
    and in the database, and is kept by the operations that executions use: its code has the size of a
    vector, its storage was not replaced since the last commit, and an account that still has
    the nonce of new accounts has neither code nor storage. *)

From S2P Require Import Prelude Hash Transaction Account State World StateInv StateSteps.
From S2P Require Import StateRefine.

Local Open Scope Z_scope.

(** The length of a byte vector is a [usize]. *)
Definition small (code : list byte) : Prop := Z.of_nat (length code) < 2 ^ 64.

Section Accounts.
Context `{Keccak} `{LruCache H256 H256} `{!LruLaws H256 H256} `{TrieDatabase} `{HashOrder}.
Context {B : Type} `{!Backend B} `{!DbStep} `{!BackendLaws}.
Abbreviation d_of s := (as_hash_db (st_db s)).
Implicit Types s : State (B := B).

(** The backends whose code is small. *)
Class CodeLaws := {
  codes_ok : B → Prop;
  codes_backend b : codes_ok b → backend_ok b;
  codes_get b h code b' : codes_ok b → get_cached_code h b = (code, b') →
    codes_ok b' ∧ ∀ c, code = Some c → small c;
  codes_put b h c : codes_ok b → keccak c = h → small c → codes_ok (backend_cache_code h c b);
  codes_lookup b a h c : codes_ok b → code_lookup (as_hash_db b) a h = Some c → small c;
}.
Context `{!CodeLaws} (start : Z).

Record account_good (acc : Account) : Prop := {
  ag_code : small (code_cache acc);
  ag_size n : acc_code_size acc = Some n → Z.of_nat n < 2 ^ 64;
  ag_original : original_storage_cache acc = None;
  ag_nonce : start ≤ acc_nonce acc;
  ag_new : acc_nonce acc = start →
    acc_code_hash acc = KECCAK_EMPTY ∧ code_cache acc = [] ∧
    acc_storage_root acc = KECCAK_NULL_RLP ∧ storage_changes acc = ∅;
}.

Record accounts_good (s : State (B := B)) : Prop := {
  sg_start : account_start_nonce s = start;
  sg_codes : codes_ok (st_db s);
  sg_db a b : account_lookup (d_of s) (st_root s) a = Ok (Some b) → account_good (from_basic b);
  sg_cache a e acc : cache s !! a = Some e → entry_account e = Some acc → account_good acc;
  sg_saved m a e acc : m ∈ checkpoints s → m !! a = Some (Some e) → entry_account e = Some acc →
    account_good acc;
}.

(** ** Accounts *)

Lemma good_fields acc acc' :
  account_good acc → code_cache acc' = code_cache acc → acc_code_size acc' = acc_code_size acc →
  original_storage_cache acc' = original_storage_cache acc → acc_nonce acc' = acc_nonce acc →
  acc_code_hash acc' = acc_code_hash acc → acc_storage_root acc' = acc_storage_root acc →
  storage_changes acc' = storage_changes acc → account_good acc'.
Proof. intros [] E1 E2 E3 E4 E5 E6 E7. split; rewrite ?E1, ?E2, ?E3, ?E4, ?E5, ?E6, ?E7; auto. Qed.

Ltac fields := eapply good_fields; [eassumption|reflexivity..].

Lemma new_basic_good : account_good (new_basic 0 start).
Proof. split; cbn; [done|by intros ? [= <-]|done|lia|done]. Qed.

Lemma is_cached_false acc : is_cached acc = false → acc_code_hash acc ≠ KECCAK_EMPTY.
Proof.
  unfold is_cached. intros [E1 E2]%orb_false_iff E. apply bool_decide_eq_false in E1.
  apply dec_stable in E1. rewrite E1, E, !bool_decide_eq_true_2 in E2; done.
Qed.

Lemma set_code_good acc c f :
  account_good acc → small c → acc_code_hash acc ≠ KECCAK_EMPTY →
  account_good (set_code (Some (length c)) c f acc).
Proof.
  intros [] Hc Hh. split; cbn; try done; [by intros n [= <-]|]. intros Hn.
  by destruct (ag_new0 Hn).
Qed.

Lemma set_code_size_good acc n f :
  account_good acc → Z.of_nat n < 2 ^ 64 → account_good (set_code (Some n) (code_cache acc) f acc).
Proof. intros [] Hn. split; cbn; try done. by intros ? [= <-]. Qed.

Lemma clone_dirty_good acc : account_good acc → account_good (clone_dirty acc).
Proof. intros []. split; cbn; try done. by rewrite ag_original0. Qed.

Lemma overwrite_good other self :
  account_good other → account_good (account_overwrite_with other self).
Proof. intros Ho. fields. Qed.

Lemma inc_nonce_good acc :
  start < U256_MAX → account_good acc → account_good (account_inc_nonce acc).
Proof.
  intros Hs []. split; cbn; try done; unfold saturating_add; lia.
Qed.

Lemma balance_good b acc : account_good acc → account_good (set_balance b acc).
Proof. intros Ha. fields. Qed.

(** An account that is not new any more. *)
Lemma set_storage_good key value acc :
  account_good acc → acc_nonce acc ≠ start → account_good (account_set_storage key value acc).
Proof. intros [] Hn. by split. Qed.

Lemma init_code_good code acc :
  account_good acc → acc_nonce acc ≠ start → small code → account_good (account_init_code code acc).
Proof. intros [] Hn Hc. split; cbn; try done. by intros ? [= <-]. Qed.

Lemma new_contract_good balance nonce version :
  start < nonce → account_good (account_new_contract balance nonce version KECCAK_NULL_RLP).
Proof. intros Hn. split; cbn; try done; [by rewrite decide_True|lia..]. Qed.

Lemma fresh_contract_good : account_good (account_new_contract 0 start 0 KECCAK_NULL_RLP).
Proof. split; cbn; try done. by rewrite decide_True. Qed.

(** Lookups in the storage of an account. *)

Lemma cached_moved_good key acc :
  account_good acc → account_good (cached_moved_original_storage_at key acc).2.
Proof.
  intros Ha. unfold cached_moved_original_storage_at. case_decide; [done|].
  destruct (lru_get _ _). cbn. fields.
Qed.

Lemma cached_storage_at_good key acc : account_good acc → account_good (cached_storage_at key acc).2.
Proof.
  intros Ha. unfold cached_storage_at. case_match; [done|]. by apply cached_moved_good.
Qed.

Lemma cached_original_storage_at_good key acc :
  account_good acc → account_good (cached_original_storage_at key acc).2.
Proof.
  intros Ha. unfold cached_original_storage_at. rewrite (ag_original _ Ha).
  by apply cached_moved_good.
Qed.

Lemma account_storage_at_good d a key acc v acc' :
  account_good acc → account_storage_at d a key acc = Ok (v, acc') → account_good acc'.
Proof.
  intros Ha. unfold account_storage_at. pose proof (cached_storage_at_good key acc Ha) as Hc.
  destruct (cached_storage_at key acc) as [[x|] acc1]; [by intros [= _ <-]|].
  unfold get_and_cache_storage. destruct (storage_lookup _ _ _ _); cbn; [|done].
  intros [= _ <-]. cbn in Hc. fields.
Qed.

Lemma account_original_storage_at_good d a key acc v acc' :
  account_good acc → account_original_storage_at d a key acc = Ok (v, acc') → account_good acc'.
Proof.
  intros Ha. unfold account_original_storage_at.
  pose proof (cached_original_storage_at_good key acc Ha) as Hc.
  destruct (cached_original_storage_at key acc) as [[x|] acc1]; [by intros [= _ <-]|].
  cbn in Hc. rewrite (ag_original _ Hc). unfold get_and_cache_storage.
  destruct (storage_lookup _ _ _ _); cbn; [|done]. intros [= _ <-]. fields.
Qed.

(** ** Steps of the state *)

Lemma update_cache_good require a acc b :
  codes_ok b → acc_ok (as_hash_db b) a acc → account_good acc →
  let '(ok, acc', b') := update_account_cache require a acc b in
  account_good acc' ∧ codes_ok b' ∧ as_hash_db b' = as_hash_db b.
Proof.
  intros Hb Ha Hg. unfold update_account_cache.
  assert (is_cached acc = false → ∀ code b', get_cached_code (acc_code_hash acc) b = (code, b') →
    codes_ok b' ∧ as_hash_db b' = as_hash_db b ∧
    (∀ c, code = Some c → account_good (cache_given_code c acc))) as Hget.
  { intros Hc code b' E. destruct (codes_get b _ code b' Hb E) as [Hb' Hsm].
    destruct (backend_code_get b _ code b' (codes_backend b Hb) E) as (_ & [Hd _] & _).
    split_and!; [done..|]. intros c ->. apply set_code_good; [done|by apply Hsm|].
    by apply is_cached_false. }
  destruct require; [done| |]; (destruct (is_cached acc) eqn:Hc; [done|]);
    destruct (get_cached_code (acc_code_hash acc) b) as [code b'] eqn:E;
    destruct (Hget eq_refl code b' eq_refl) as (Hb' & Hd & Hgiven);
    (destruct code as [c|]; [by split_and!; [apply Hgiven|..]|]).
  - unfold cache_code_size. destruct (acc_code_size acc); [done|].
    case_decide; [by split_and!; [apply set_code_size_good|..]|].
    destruct (code_lookup _ _ _) eqn:El; [|done]. split_and!; [|done..].
    apply set_code_size_good; [done|]. by eapply codes_lookup in El.
  - unfold cache_code. rewrite Hc. destruct (code_lookup _ _ _) as [x|] eqn:El; [|done].
    destruct (uncached_code _ a acc Ha Hc) as (x' & El' & Hx). rewrite Hd, El' in El.
    injection El as ->. rewrite <- Hd in El'. pose proof (codes_lookup _ _ _ _ Hb' El').
    pose proof (backend_code_put b' _ x (codes_backend b' Hb') Hx) as [_ [Hd2 _]].
    split_and!; [|by apply codes_put|by rewrite Hd2].
    apply set_code_good; [done..|by apply is_cached_false].
Qed.

Lemma good_set_db s b : accounts_good s → codes_ok b → as_hash_db b = d_of s → accounts_good (set_db b s).
Proof. intros [] Hb Hd. split; cbn; rewrite ?Hd; done. Qed.

Lemma good_change s a e :
  accounts_good s → (∀ acc, entry_account e = Some acc → account_good acc) →
  accounts_good (set_cache (<[a := e]> (cache s)) s).
Proof.
  intros [] He. split; cbn; try done. intros a' e' acc [[<- <-]|[_ Hl]]%lookup_insert_Some; eauto.
Qed.

Lemma good_put s a acc : accounts_good s → account_good acc → accounts_good (put_account a acc s).
Proof.
  intros Hs Ha. unfold put_account. destruct (cache s !! a) as [e|]; [|done].
  apply good_change; [done|]. by intros ? [= <-].
Qed.

Lemma good_note s a old :
  accounts_good s → (∀ e acc, old = Some e → entry_account e = Some acc → account_good acc) →
  accounts_good (set_checkpoints (note a old (checkpoints s)) s).
Proof.
  intros [S1 S2 S3 S4 S5] Ho. split; cbn; try done. unfold note.
  destruct (checkpoints s) as [|m l]; [done|]. destruct (m !! a) as [x|] eqn:Em; [done|].
  intros m' a' e acc [->|Hin]%elem_of_cons; [|by apply S5; right].
  intros [[<- ->]|[_ Hl]]%lookup_insert_Some Hacc; [by eapply Ho|].
  eapply S5; [by left|done..].
Qed.

Lemma good_insert s a e :
  accounts_good s → (∀ acc, entry_account e = Some acc → account_good acc) →
  accounts_good (insert_cache a e s).
Proof.
  intros Hs He. unfold insert_cache. case_if.
  - apply (good_note _ a (cache s !! a)); [by apply good_change|]. apply (sg_cache _ Hs).
  - by apply good_change.
Qed.

Lemma good_note_cache s a : accounts_good s → accounts_good (note_cache a s).
Proof.
  intros Hs. apply good_note; [done|]. intros e acc.
  destruct (cache s !! a) as [e0|] eqn:E; [|done]. intros [= <-]. cbn.
  destruct (entry_account e0) as [acc0|] eqn:Ea; [|done]. intros [= <-].
  apply clone_dirty_good. by eapply sg_cache.
Qed.

(** The account that a backend or the database has. *)
Lemma good_lookup s a basic :
  accounts_good s → account_lookup (d_of s) (st_root s) a = Ok basic →
  ∀ acc, from_basic <$> basic = Some acc → account_good acc.
Proof. intros Hs Hl acc Hacc. destruct basic; [|done]. injection Hacc as <-. by eapply sg_db. Qed.

Lemma ensure_cached_good {U} a require check_null (f : option Account → U) s s' r :
  state_ok s → accounts_good s → ensure_cached a require check_null f s = Done (s', r) →
  accounts_good s' ∧ ∀ u, r = Ok u → ∃ acc, u = f acc ∧ ∀ acc', acc = Some acc' → account_good acc'.
Proof.
  intros Hs Hg. unfold ensure_cached.
  assert (∀ acc, account_good acc → acc_ok (d_of s) a acc →
    let '(ok, acc', b) := update_account_cache require a acc (st_db s) in
    account_good acc' ∧ accounts_good (set_db b s)) as Hup.
  { intros acc Ha Hok. pose proof (update_cache_good require a acc (st_db s) (sg_codes _ Hg) Hok Ha) as Hu.
    destruct (update_account_cache _ _ _ _) as [[ok acc'] b]. destruct Hu as (? & ? & ?).
    split; [done|]. by apply good_set_db. }
  destruct (cache s !! a) as [e|] eqn:He.
  - destruct (entry_account e) as [acc|] eqn:Ea; [|intros [= <- <-]; split; [done|]; intros u [= <-]; by exists None].
    specialize (Hup acc (sg_cache _ Hg _ _ _ He Ea) (eo_account _ _ _ _ (so_cache s Hs a e He) acc Ea)).
    destruct (update_account_cache _ _ _ _) as [[ok acc'] b]. destruct Hup as [Ha Hb].
    intros [= <- <-]. split; [by apply good_put|]. destruct ok; [|done]. intros u [= <-].
    exists (Some acc'). split; [done|]. by intros ? [= <-].
  - destruct (backend_uncached (st_db s) a (so_backend s Hs)) as [-> _]. rewrite set_db_same.
    intros Hm. destruct (if check_null then _ else _) as [known|]; [|done]. cbn in Hm.
    destruct known; [injection Hm as <- <-; split; [done|]; intros u [= <-]; by exists None|].
    destruct (account_lookup _ _ _) as [[basic|]|e] eqn:El.
    + pose proof (do_account _ _ _ (so_db s Hs) a basic El) as Hok.
      specialize (Hup (from_basic basic) (sg_db _ Hg _ _ El) Hok).
      destruct (update_account_cache _ _ _ _) as [[ok acc'] b]. destruct Hup as [Ha Hb].
      destruct ok; injection Hm as <- <-; [|done]. split.
      * apply good_insert; [done|]. by intros ? [= <-].
      * intros u [= <-]. exists (Some acc'). split; [done|]. by intros ? [= <-].
    + injection Hm as <- <-. split; [by apply good_insert|]. intros u [= <-]. by exists None.
    + by injection Hm as <- <-.
Qed.

Lemma load_entry_good a s s' r :
  state_ok s → accounts_good s → load_entry a s = Done (s', r) → accounts_good s'.
Proof.
  intros Hs Hg. unfold load_entry. destruct (cache s !! a) as [e|]; [by intros [= <- <-]|].
  destruct (backend_uncached (st_db s) a (so_backend s Hs)) as [_ ->]. rewrite set_db_same.
  intros Hm. destruct (is_known_null _ _) as [known|]; [|done]. cbn in Hm.
  destruct known; [injection Hm as <- <-; by apply good_insert|].
  destruct (account_lookup _ _ _) as [basic|e] eqn:El; injection Hm as <- <-; [|done].
  apply good_insert; [done|]. by eapply good_lookup.
Qed.

Lemma require_or_from_good a code def s s' r :
  state_ok s → accounts_good s → acc_ok (d_of s) a def → account_good def →
  require_or_from a code def s = Done (s', r) →
  accounts_good s' ∧ ∀ acc, r = Ok acc → account_good acc.
Proof.
  intros Hs Hg Hdef Hdg. destruct (load_entry_ok a s Hs) as (s1 & E1 & K1 & [e He]).
  pose proof (load_entry_good a s s1 _ Hs Hg E1) as Hg1.
  pose proof (sb_db _ _ (ke_base _ _ _ K1)) as Hd.
  unfold require_or_from. rewrite (sm_bind_ok _ _ _ _ _ E1). unfold sm_state.
  change (cache (note_cache a s1)) with (cache s1). rewrite He.
  set (acc := match entry_account e with Some acc => acc | None => def end).
  assert (account_good acc) as Ha.
  { subst acc. destruct (entry_account e) eqn:Ea; [by eapply sg_cache|done]. }
  assert (acc_ok (d_of s) a acc) as Hok.
  { subst acc. destruct (entry_account e) eqn:Ea; [|done]. rewrite <- Hd.
    by apply (eo_account _ _ _ _ (so_cache s1 (ke_ok _ _ _ K1) a e He)). }
  set (s2 := set_cache _ (note_cache a s1)).
  assert (accounts_good s2) as Hg2.
  { apply (good_change (note_cache a s1)); [by apply good_note_cache|]. by intros ? [= <-]. }
  destruct code; [|intros [= <- <-]; split; [done|]; by intros ? [= <-]].
  pose proof (update_cache_good RequireCode a acc (st_db s2) (sg_codes _ Hg2)) as Hu.
  destruct (update_account_cache _ _ _ _) as [[ok acc'] b].
  destruct Hu as (? & ? & Hd2); [by rewrite <- Hd in Hok|done|].
  intros [= <- <-]. split; [apply good_put; [by apply good_set_db|done]|].
  destruct ok; [|done]. by intros ? [= <-].
Qed.

Lemma update_account_good a f acc s s' r :
  accounts_good s → (∀ acc', f acc = Done acc' → account_good acc') →
  update_account a f acc s = Done (s', r) → accounts_good s'.
Proof.
  intros Hs Hf. unfold update_account. destruct (f acc) as [acc'|] eqn:E; [|done]. cbn.
  intros [= <- _]. apply good_put; auto.
Qed.

Lemma require_update_good a code def f s s' r :
  state_ok s → accounts_good s → acc_ok (d_of s) a def → account_good def →
  (∀ acc acc', account_good acc → view (d_of s) a acc ≡ default (view (d_of s) a def) (world s a) →
    f acc = Done acc' → account_good acc') →
  (acc ← require_or_from a code def; update_account a f acc) s = Done (s', r) → accounts_good s'.
Proof.
  intros Hs Hg Hdef Hdg Hf.
  destruct (require_or_from_ok a code def s Hs Hdef) as (s1 & acc & E1 & K1 & _ & Hv & _).
  destruct (require_or_from_good a code def s s1 _ Hs Hg Hdef Hdg E1) as [Hg1 Ha].
  rewrite (sm_bind_ok _ _ _ _ _ E1). intros Hm. eapply update_account_good; [exact Hg1| |exact Hm].
  intros acc' Hacc. apply (Hf acc acc'); [by apply Ha|done..].
Qed.

Lemma storage_at_inner_good f_cached_at f_at a key s s' r :
  state_ok s → accounts_good s →
  (∀ acc, account_good acc → account_good (f_cached_at key acc).2) →
  (∀ d acc v acc', account_good acc → f_at d a key acc = Ok (v, acc') → account_good acc') →
  storage_at_inner a key f_cached_at f_at s = Done (s', r) → accounts_good s'.
Proof.
  intros Hs Hg Hc Hf. unfold storage_at_inner. destruct (cache s !! a) as [e|] eqn:He.
  - destruct (entry_account e) as [acc|] eqn:Ea; [|by intros [= <- <-]].
    pose proof (sg_cache _ Hg _ _ _ He Ea) as Ha. specialize (Hc acc Ha).
    destruct (f_cached_at key acc) as [[v|] acc1]; [intros [= <- <-]; by apply good_put|].
    set (s1 := put_account a acc1 s). assert (accounts_good s1) as Hg1 by by apply good_put.
    assert (st_db s1 = st_db s) as Hdb.
    { subst s1. unfold put_account. by destruct (cache s !! a). }
    rewrite Hdb. destruct (backend_uncached (st_db s) a (so_backend s Hs)) as [-> _].
    rewrite <- Hdb, set_db_same. destruct (f_at _ a key acc1) as [[v acc2]|e'] eqn:Ef;
      intros [= <- <-]; [|done]. apply good_put; [done|]. by apply (Hf _ _ _ _ Hc Ef).
  - destruct (backend_uncached (st_db s) a (so_backend s Hs)) as [-> _]. rewrite set_db_same.
    intros Hm. destruct (is_known_null _ _) as [[]|]; cbn in Hm; [by injection Hm as <- <-| |done].
    destruct (expect _) as [|]; [cbn in Hm|done].
    destruct (account_lookup _ _ _) as [[basic|]|e'] eqn:El;
      [|injection Hm as <- <-; by apply good_insert|by injection Hm as <- <-].
    pose proof (sg_db _ Hg _ _ El) as Ha.
    destruct (f_at _ a key _) as [[v acc2]|e'] eqn:Ef; injection Hm as <- <-;
      (apply good_insert; [done|]); intros ? [= <-]; [by eapply Hf|done].
Qed.

Lemma storage_at_good a key s s' r :
  state_ok s → accounts_good s → storage_at a key s = Done (s', r) → accounts_good s'.
Proof.
  intros. eapply storage_at_inner_good; [done..| | |done].
  - intros. by apply cached_storage_at_good.
  - intros. by eapply account_storage_at_good.
Qed.

Lemma original_storage_at_good a key s s' r :
  state_ok s → accounts_good s → original_storage_at a key s = Done (s', r) → accounts_good s'.
Proof.
  intros. eapply storage_at_inner_good; [done..| | |done].
  - intros. by apply cached_original_storage_at_good.
  - intros. by eapply account_original_storage_at_good.
Qed.

(** ** Checkpoints *)

Lemma checkpoint_good s : accounts_good s → accounts_good (checkpoint s).1.
Proof.
  intros [S1 S2 S3 S4 S5]. split; cbn; try done.
  intros m a e acc [->|Hin]%elem_of_cons; [by rewrite lookup_empty|by apply S5].
Qed.

Lemma good_checkpoints s l :
  accounts_good s →
  (∀ m a e acc, m ∈ l → m !! a = Some (Some e) → entry_account e = Some acc → account_good acc) →
  accounts_good (set_checkpoints l s).
Proof. intros [] Hl. by split. Qed.

Lemma discard_good s : accounts_good s → accounts_good (discard_checkpoint s).
Proof.
  intros Hs. pose proof (sg_saved _ Hs) as Hsv. unfold discard_checkpoint.
  destruct (checkpoints s) as [|m [|m' l]]; [done|apply good_checkpoints; [done|by intros ? ? ? ? ?%elem_of_nil]|].
  apply good_checkpoints; [done|]. intros m1 a e acc [->|Hin]%elem_of_cons;
    [|apply Hsv; by do 2 right].
  case_decide; [apply Hsv; by left|].
  set (Pm := λ m0 : gmap Address (option AccountEntry), ∀ a e acc, m0 !! a = Some (Some e) →
    entry_account e = Some acc → account_good acc).
  enough (∀ kvs m0, (∀ k v, (k, v) ∈ kvs → m !! k = Some v) → Pm m0 →
    Pm (foldl (λ prev kv, match prev !! kv.1 with Some _ => prev | None => <[kv.1 := kv.2]> prev end)
          m0 kvs)) as Hfold.
  { apply Hfold; [intros k v; apply elem_of_hash_iter|]. intros a' e' acc'. apply Hsv. right. left. }
  induction kvs as [|[k v] kvs IH]; intros m0 Hin Hm0; [done|]. cbn. apply IH.
  - intros k' v' ?. apply Hin. by right.
  - destruct (m0 !! k); [done|]. intros a' e' acc' [[<- ->]|[_ Hl]]%lookup_insert_Some Ha'; [|by eapply Hm0].
    apply (Hsv m k e'); [by left| |done]. apply Hin. by left.
Qed.

Lemma revert_good s : accounts_good s → accounts_good (revert_to_checkpoint s).
Proof.
  intros Hs. pose proof (sg_saved _ Hs) as Hsv. unfold revert_to_checkpoint.
  destruct (checkpoints s) as [|m l]; [done|].
  set (Pc := λ c : gmap Address AccountEntry, ∀ a e acc, c !! a = Some e →
    entry_account e = Some acc → account_good acc).
  enough (∀ kvs c, (∀ k v, (k, v) ∈ kvs → m !! k = Some v) → Pc c →
    Pc (foldl revert_entry c kvs)) as Hfold.
  { pose proof (good_checkpoints s l Hs ltac:(intros; eapply Hsv; [by right|done..])) as [S1 S2 S3 _ S5].
    split; try done. cbn. apply Hfold; [intros k v; apply elem_of_hash_iter|]. exact (sg_cache _ Hs). }
  induction kvs as [|[k v] kvs IH]; intros c Hin Hc; [done|]. cbn. apply IH.
  { intros k' v' ?. apply Hin. by right. }
  assert (∀ e acc, v = Some e → entry_account e = Some acc → account_good acc) as Hv.
  { intros e acc ->. apply (Hsv m k); [by left|]. apply Hin. by left. }
  intros a e acc. destruct v as [v|]; destruct (c !! k) as [e0|] eqn:Ek.
  - intros [[<- <-]|[_ Hl]]%lookup_insert_Some; [|by apply (Hc a e)]. cbn.
    destruct (entry_account v) as [acc1|] eqn:Ev; [|done].
    destruct (entry_account e0) as [acc0|]; intros [= <-]; [apply overwrite_good|]; by eapply Hv.
  - intros [[<- <-]|[_ Hl]]%lookup_insert_Some; [by apply Hv|by apply (Hc a e)].
  - case_if; [|by apply Hc]. intros [_ Hl]%lookup_delete_Some. by apply (Hc a e).
  - by apply Hc.
Qed.
End Accounts.

(** * The operations of the state that executions use

    Each operation on a state with good accounts: its result, the world it leaves, and that the
    accounts stay good. *)

Section Ops.
Context `{Keccak} `{LruCache H256 H256} `{!LruLaws H256 H256} `{TrieDatabase} `{HashOrder}.
Context {B : Type} `{!Backend B} `{!DbStep} `{!BackendLaws} `{!CodeLaws}.
Abbreviation d_of s := (as_hash_db (st_db s)).
Implicit Types s : State (B := B).
Context (start : Z) (Hstart : 0 ≤ start < U256_MAX).

Record good (s : State (B := B)) : Prop := {
  gd_ok : state_ok s;
  gd_accounts : accounts_good start s;
}.

Lemma good_start s : good s → account_start_nonce s = start.
Proof. intros Hs. apply (sg_start _ _ (gd_accounts _ Hs)). Qed.

(** [op s w a m]: from [s] the operation gives [a] and makes [w] the current world. *)
Definition op {A} (s : State (B := B)) (w : World) (a : A)
    (m : Outcome (State (B := B) * Result A TrieError)) : Prop :=
  ∃ s', m = Done (s', Ok a) ∧ keeps s w s' ∧ good s'.

Lemma op_sim {A} s w (a : A) (m : SM (B := B) A) :
  sim s (Done (w, Ok a)) (m s) → (∀ s' r, m s = Done (s', r) → accounts_good start s') →
  op s w a (m s).
Proof.
  intros (s' & E & K) Hg. exists s'. split_and!; [done..|]. split; [apply K|by eapply Hg].
Qed.

(** Operations that keep the accounts good. *)
Definition pres {A} (m : SM (B := B) A) : Prop :=
  ∀ s s' r, good s → m s = Done (s', r) → good s'.

Lemma pres_ret {A} (a : A) : pres (mret a).
Proof. by intros s s' r Hs [= <- _]. Qed.

Lemma pres_bind {A C} (m : SM A) (f : A → SM C) : pres m → (∀ a, pres (f a)) → pres (m ≫= f).
Proof.
  intros Hm Hf s s' r Hs. unfold mbind, sm_bind. destruct (m s) as [[s1 [a|e]]|] eqn:E; [| |done].
  - apply Hf. by eapply Hm.
  - intros [= <- _]. by eapply Hm.
Qed.

Lemma pres_query {U} a require check_null (f : option Account → U) :
  pres (ensure_cached a require check_null f).
Proof.
  intros s s' r [Hs Hg] E. destruct (ensure_cached_ok a require check_null f s Hs)
    as (s1 & acc & E1 & K & _). rewrite E in E1. injection E1 as <- _.
  split; [apply K|]. by destruct (ensure_cached_good _ _ _ _ _ _ _ _ Hs Hg E).
Qed.

Lemma pres_storage_at a key : pres (storage_at a key).
Proof.
  intros s s' r [Hs Hg] E. destruct (storage_at_ok a key s Hs) as (s1 & E1 & K).
  rewrite E in E1. injection E1 as <- _. split; [apply K|]. by eapply storage_at_good.
Qed.

Lemma pres_original_storage_at a key : pres (original_storage_at a key).
Proof.
  intros s s' r [Hs Hg] E. destruct (original_storage_at_ok a key s Hs) as (s1 & E1 & K).
  rewrite E in E1. injection E1 as <- _. split; [apply K|]. by eapply original_storage_at_good.
Qed.

Lemma basic_good s : good s → account_good start (new_basic 0 (account_start_nonce s)).
Proof. intros Hs. rewrite (good_start s Hs). apply new_basic_good. Qed.

Lemma pres_require a : pres (require a false).
Proof.
  intros s s' r Hs E. unfold require in E. pose proof (basic_good s Hs) as Hb. destruct Hs as [Hs Hg].
  destruct (require_or_from_ok a false (new_basic 0 (account_start_nonce s)) s Hs)
    as (s1 & acc & E1 & K & _); [apply acc_ok_new_basic|].
  pose proof E as E'. rewrite E1 in E'. injection E' as -> _. split; [apply K|].
  by destruct (require_or_from_good start a false _ s s' r Hs Hg (acc_ok_new_basic _ _ _ _) Hb E).
Qed.

(** A change of an account. *)
Lemma pres_update a f :
  (∀ s acc acc', good s → f acc = Done acc' → account_good start acc →
     view (d_of s) a acc ≡ account_of start (world s a) → account_good start acc') →
  (∀ d acc acc', f acc = Done acc' → acc_ok d a acc → acc_ok d a acc') →
  pres (acc ← require a false; update_account a f acc).
Proof.
  intros Hgood Hacc s s' r Hs E. pose proof (basic_good s Hs) as Hb. pose proof (good_start s Hs) as Hst.
  pose proof Hs as [Hok Hg].
  destruct (require_or_from_ok a false (new_basic 0 (account_start_nonce s)) s Hok)
    as (s1 & acc & E1 & K & R & V & _); [apply acc_ok_new_basic|].
  assert (view (d_of s) a acc ≡ account_of start (world s a)) as V'.
  { rewrite V, <- Hst. apply default_account_of, view_new_basic. }
  destruct (require_or_from_good start a false _ s s1 _ Hok Hg (acc_ok_new_basic _ _ _ _) Hb E1)
    as [Hg1 Ha1].
  change (require a false) with (λ self : State (B := B), require_or_from a false
    (new_basic 0 (account_start_nonce self)) self) in E.
  unfold mbind, sm_bind in E. rewrite E1 in E. cbn [mbind outcome_bind] in E.
  unfold update_account in E. destruct (f acc) as [acc'|] eqn:Ef; [|done]. cbn in E.
  injection E as <- _. destruct (put_required s1 a acc acc' (ke_ok _ _ _ K) R) as [K2 _].
  { apply (Hacc _ acc acc' Ef), R. }
  split; [apply K2|]. apply good_put; [done|].
  apply (Hgood s acc acc'); [done..|by apply Ha1|done].
Qed.

Lemma pres_assoc {A C D} (m : SM A) (f : A → SM C) (k : C → SM D) :
  pres ((m ≫= f) ≫= k) → pres (a ← m; f a ≫= k).
Proof. intros Hp s s' r Hs E. eapply Hp; [done|]. by rewrite sm_bind_assoc. Qed.

(** ** Queries *)

Ltac query := apply op_sim; [|by intros s' r E; eapply pres_query in E as [? ?]].

Lemma op_balance a s : good s → op s (world s) (default 0 (v_balance <$> world s a)) (balance a s).
Proof. intros Hs. query. by apply sim_balance, Hs. Qed.

Lemma op_exists a s : good s → op s (world s) (bool_decide (is_Some (world s a))) (exists_account a s).
Proof. intros Hs. query. by apply sim_exists, Hs. Qed.

Lemma op_exists_and_not_null a s :
  good s → op s (world s) (match world s a with Some v => negb (view_null v) | None => false end)
    (exists_and_not_null a s).
Proof. intros Hs. query. by apply sim_exists_and_not_null, Hs. Qed.

Lemma op_nonce a s : good s → op s (world s) (default start (v_nonce <$> world s a)) (nonce a s).
Proof.
  intros Hs. rewrite <- (good_start s Hs). query. by apply sim_nonce, Hs.
Qed.

Lemma op_has_code_or_nonce a s :
  good s →
  op s (world s) (match world s a with
      | Some v => bool_decide (v_code_hash v ≠ KECCAK_EMPTY) || bool_decide (v_nonce v ≠ start)
      | None => false
      end) (exists_and_has_code_or_nonce a s).
Proof.
  intros Hs. rewrite <- (good_start s Hs). query. by apply sim_exists_and_has_code_or_nonce, Hs.
Qed.

Lemma op_code_hash a s : good s → op s (world s) (v_code_hash <$> world s a) (code_hash a s).
Proof. intros Hs. query. by apply sim_code_hash, Hs. Qed.

Lemma op_code_version a s :
  good s → op s (world s) (default 0 (v_code_version <$> world s a)) (code_version a s).
Proof. intros Hs. query. by apply sim_code_version, Hs. Qed.

Lemma op_storage_at a key s :
  good s →
  op s (world s) (match world s a with Some v => v_storage v key | None => h256_default end)
    (storage_at a key s).
Proof.
  intros Hs. destruct (storage_at_ok a key s (gd_ok _ Hs)) as (s' & E & K).
  exists s'. split_and!; [done..|]. by eapply pres_storage_at.
Qed.

Lemma op_original_storage_at a key s :
  good s →
  op s (world s) (match world s a with Some v => v_original v key | None => h256_default end)
    (original_storage_at a key s).
Proof.
  intros Hs. destruct (original_storage_at_ok a key s (gd_ok _ Hs)) as (s' & E & K).
  exists s'. split_and!; [done..|]. by eapply pres_original_storage_at.
Qed.

(** An account that executes has left the nonce of new accounts. *)
Definition marked (w : World) (a : Address) : Prop := ∃ v, w a = Some v ∧ v_nonce v ≠ start.

(** The account that a query is given. *)
Lemma ensure_cached_map {U} a require check_null (f : option Account → U) s :
  ensure_cached a require check_null f s =
    ('(s', r) ← ensure_cached a require check_null id s;
     Done (s', match r with Ok acc => Ok (f acc) | Err e => Err e end)).
Proof.
  unfold ensure_cached. destruct (cache s !! a) as [e|].
  - destruct (entry_account e); [|done]. by destruct (update_account_cache _ _ _ _) as [[[] ?] ?].
  - destruct (get_cached a _) as [[[acc|]|] b]; [|done|].
    + by destruct (update_account_cache _ _ _ _) as [[[] ?] ?].
    + destruct (if check_null then _ else _) as [[]|]; [done| |done]. cbn.
      destruct (account_lookup _ _ _) as [[basic|]|]; [|done..].
      by destruct (update_account_cache _ _ _ _) as [[[] ?] ?].
Qed.

Lemma op_query {U} a require check_null (f : option Account → U) s :
  good s →
  ∃ acc, op s (world s) (f acc) (ensure_cached a require check_null f s) ∧
    view (d_of s) a <$> acc ≡ world s a ∧
    ∀ acc', acc = Some acc' → account_good start acc' ∧ acc_ok (d_of s) a acc' ∧
      (require = RequireCode → is_cached acc' = true).
Proof.
  intros Hs. pose proof Hs as [Hok Hg].
  destruct (ensure_cached_ok a require check_null id s Hok) as (s' & acc & E & K & Hv & Hacc).
  destruct (ensure_cached_good start _ _ _ _ _ _ _ Hok Hg E) as [Hg' Ha].
  destruct (Ha _ eq_refl) as (acc1 & Hid & Hgood). cbn in Hid. subst acc1. exists acc. split.
  - exists s'. rewrite ensure_cached_map, E. split_and!; [done..|]. split; [apply K|done].
  - split; [done|]. intros acc' ->. destruct (Hacc acc' eq_refl). split_and!; auto.
Qed.

Lemma op_code a s :
  good s →
  ∃ c, op s (world s) c (code a s) ∧ small (default [] c) ∧
    (default [] c ≠ [] → marked (world s) a).
Proof.
  intros Hs. destruct (op_query a RequireCode true (λ acc, acc ≫= account_code) s Hs)
    as (acc & Hop & Hv%view_cases & Hacc).
  exists (acc ≫= account_code). split; [exact Hop|].
  destruct acc as [acc|], (world s a) as [v|] eqn:Ew; try done; cbn.
  destruct (Hacc acc eq_refl) as ([Hc _ _ _ Hn] & _ & _). unfold account_code.
  case_if; cbn; [done|]. split; [done|]. intros Hne. exists v. split; [done|].
  rewrite <- (ve_nonce _ _ Hv). cbn. intros E. by destruct (Hn E) as (_ & ? & _).
Qed.

Lemma op_code_size a s :
  good s → ∃ n, op s (world s) n (code_size a s) ∧ Z.of_nat (default 0%nat n) < 2 ^ 64.
Proof.
  intros Hs. destruct (op_query a RequireCodeSize true (λ acc, acc ≫= acc_code_size) s Hs)
    as (acc & Hop & _ & Hacc).
  eexists. split; [exact Hop|]. destruct acc as [acc|]; [|done]. cbn.
  destruct (Hacc acc eq_refl) as [[_ Hn _ _ _] _]. destruct (acc_code_size acc); [by apply Hn|done].
Qed.

(** The storage of a good account was not replaced. *)
Lemma op_unchanged a s : good s → op s (world s) true (is_base_storage_root_unchanged a s).
Proof.
  intros Hs. destruct (op_query a RequireNone true (fmap account_base_storage_root_unchanged) s Hs)
    as (acc & (s' & E & K & Hg) & _ & Hacc).
  exists s'. split; [|done]. unfold is_base_storage_root_unchanged. rewrite (sm_bind_ok _ _ _ _ _ E).
  destruct acc as [acc|]; [|done]. cbn. unfold account_base_storage_root_unchanged.
  destruct (Hacc acc eq_refl) as [[_ _ -> _ _] _]. done.
Qed.

Definition root_of (w : World) (a : Address) : H256 := default KECCAK_NULL_RLP (v_root <$> w a).

Lemma op_original_root a s : good s → op s (world s) (root_of (world s) a) (original_storage_root a s).
Proof.
  intros Hs. destruct (op_query a RequireNone true (fmap account_original_storage_root) s Hs)
    as (acc & (s' & E & K & Hg) & Hv%view_cases & Hacc).
  exists s'. split; [|done]. unfold original_storage_root. rewrite (sm_bind_ok _ _ _ _ _ E).
  unfold root_of. destruct acc as [acc|], (world s a) as [v|]; try done. cbn.
  unfold account_original_storage_root. destruct (Hacc acc eq_refl) as [[_ _ -> _ _] _].
  by rewrite <- (ve_root _ _ Hv).
Qed.

(** A new account has no storage. *)
Lemma new_world a s :
  good s → ¬ marked (world s) a →
  root_of (world s) a = KECCAK_NULL_RLP ∧
  ∀ v k, world s a = Some v → v_storage v k = h256_default.
Proof.
  intros Hs Hm. destruct (op_query a RequireNone true id s Hs) as (acc & _ & Hv%view_cases & Hacc).
  unfold root_of. destruct acc as [acc|], (world s a) as [v|] eqn:Ew; try done. cbn in Hv.
  destruct (Hacc acc eq_refl) as ([_ _ _ _ Hn] & _).
  destruct Hn as (_ & _ & Hr & Hch).
  { destruct (decide (acc_nonce acc = start)) as [|Hne]; [done|]. destruct Hm. exists v.
    split; [done|]. by rewrite <- (ve_nonce _ _ Hv). }
  cbn. split; [by rewrite <- (ve_root _ _ Hv)|]. intros v' k [= <-].
  rewrite <- (ve_storage _ _ Hv). cbn. rewrite Hch, lookup_empty. unfold base_storage.
  by rewrite decide_True.
Qed.

(** Nonces are not below that of a new account. *)
Lemma world_nonce a s v : good s → world s a = Some v → start ≤ v_nonce v.
Proof.
  intros Hs Ew. destruct (op_query a RequireNone true id s Hs) as (acc & _ & Hv%view_cases & Hacc).
  rewrite Ew in Hv. destruct acc as [acc|]; [|done].
  destruct (Hacc acc eq_refl) as ([_ _ _ Hn _] & _). by rewrite <- (ve_nonce _ _ Hv).
Qed.

(** ** Changes *)

Lemma pres_balance a f g :
  (∀ acc, f acc = (b ← g (acc_balance acc); Done (set_balance b acc))) →
  pres (acc ← require a false; update_account a f acc).
Proof.
  intros Hf. apply pres_update.
  - intros s acc acc' Hs E Ha _. rewrite Hf in E. destruct (g _); [|done]. injection E as <-.
    by apply balance_good.
  - intros d acc acc' E Ha. rewrite Hf in E. destruct (g _); [|done]. injection E as <-.
    by eapply acc_ok_fields.
Qed.

Lemma pres_exists a : pres (exists_account a).
Proof. apply pres_query. Qed.

Lemma pres_missing a : pres (b ← exists_account a; mret (negb b)).
Proof. apply pres_bind; [apply pres_exists|intros; apply pres_ret]. Qed.

Lemma pres_touch a : pres (touch a).
Proof. apply pres_bind; [apply pres_require|intros; apply pres_ret]. Qed.

Lemma pres_add_balance a incr mode : pres (add_balance a incr mode).
Proof.
  apply pres_bind; [case_if; [|destruct mode]; try apply pres_ret; apply pres_missing|].
  intros [].
  - apply (pres_assoc (require a false)), pres_bind; [|intros; apply pres_ret].
    by apply (pres_balance _ _ (λ b, Done (saturating_add b incr))).
  - destruct mode; try apply pres_ret. apply pres_bind; [apply pres_exists|]. intros [].
    + apply pres_bind; [apply pres_touch|intros; apply pres_ret].
    + apply pres_ret.
Qed.

Lemma pres_sub_balance a decr mode : pres (sub_balance a decr mode).
Proof.
  apply pres_bind; [case_if; [apply pres_ret|apply pres_missing]|]. intros c.
  apply pres_bind; [|intros; apply pres_ret]. destruct c; [|apply pres_ret].
  apply (pres_balance _ _ (λ b, if decr <=? b then Done (b - decr) else Panic)).
  intros acc. unfold account_sub_balance. by case_if.
Qed.

Lemma op_add_balance a incr mode s :
  good s →
  let '(w, m) := spec_add_balance start a incr mode (world s) in op s w m (add_balance a incr mode s).
Proof.
  intros Hs. pose proof (sim_add_balance a incr mode s (gd_ok _ Hs)) as Hsim.
  rewrite (good_start s Hs) in Hsim. destruct (spec_add_balance _ _ _ _ _) as [w m].
  apply op_sim; [done|]. intros s' r E. by apply pres_add_balance in E as [].
Qed.

Lemma op_sub_balance a decr mode s w m :
  good s → spec_sub_balance start a decr mode (world s) = Done (w, m) →
  op s w m (sub_balance a decr mode s).
Proof.
  intros Hs E. pose proof (sim_sub_balance a decr mode s (gd_ok _ Hs)) as Hsim.
  rewrite (good_start s Hs), E in Hsim. apply op_sim; [done|].
  intros s' r E'. by apply pres_sub_balance in E' as [].
Qed.

Lemma op_inc_nonce a s :
  good s →
  let v := account_of start (world s a) in
  op s (wset a (Some (with_nonce (saturating_add (v_nonce v) 1) v)) (world s)) tt (inc_nonce a s).
Proof.
  intros Hs v. pose proof (sim_inc_nonce a s (gd_ok _ Hs)) as Hsim. cbn in Hsim.
  rewrite (good_start s Hs) in Hsim. apply op_sim; [done|]. intros s' r E.
  assert (pres (inc_nonce a)) as Hp; [|by apply Hp in E as []].
  apply pres_update.
  - intros s0 acc acc' _ [= <-] Ha _. apply inc_nonce_good; [lia|done].
  - intros d acc acc' [= <-] Ha. by eapply acc_ok_fields.
Qed.

Lemma marked_account w a : marked w a → v_nonce (account_of start (w a)) ≠ start.
Proof. intros (v & -> & Hv). done. Qed.

Lemma keeps_marked s w s' a : keeps s w s' → marked w a → marked (world s') a.
Proof.
  intros K (v & Hv & Hn). pose proof (ke_world _ _ _ K a) as Hw. rewrite Hv in Hw.
  destruct (world s' a) as [v'|] eqn:E; inversion Hw as [? ? Hvv|]; subst. exists v'.
  split; [done|]. by rewrite (ve_nonce _ _ Hvv).
Qed.

Lemma op_set_storage a key value s :
  good s → marked (world s) a →
  let v := account_of start (world s a) in
  op s (if decide (v_storage v key = value) then world s
        else wset a (Some (with_storage key value v)) (world s)) tt (set_storage a key value s).
Proof.
  intros Hs Hm v. pose proof (sim_set_storage a key value s (gd_ok _ Hs)) as Hsim. cbn in Hsim.
  rewrite (good_start s Hs) in Hsim. fold v in Hsim.
  assert (∀ s' r, set_storage a key value s = Done (s', r) → accounts_good start s') as Hp.
  { intros s' r E. unfold set_storage in E.
    destruct (op_storage_at a key s Hs) as (s1 & E1 & K1 & Hg1).
    rewrite (sm_bind_ok _ _ _ _ _ E1) in E. case_decide; [by injection E as <- _; apply Hg1|].
    pose proof (keeps_marked _ _ _ a K1 Hm) as Hm1.
    unfold require in E. eapply require_update_good; [apply Hg1|apply Hg1|..|exact E].
    - apply acc_ok_new_basic.
    - by apply basic_good.
    - intros acc acc' Ha Hv [= <-]. apply set_storage_good; [done|].
      rewrite (default_account_of _ _ _ start) in Hv; [|by rewrite (good_start s1 Hg1); apply view_new_basic].
      apply ve_nonce in Hv. cbn in Hv. rewrite Hv. by apply marked_account. }
  case_decide; by apply op_sim.
Qed.

Lemma op_init_code a c s :
  good s → marked (world s) a → small c →
  op s (wset a (Some (with_code c (account_of start (world s a)))) (world s)) tt (init_code a c s).
Proof.
  intros Hs Hm Hc. pose proof (sim_init_code a c s (gd_ok _ Hs)) as Hsim.
  rewrite (good_start s Hs) in Hsim. apply op_sim; [done|]. intros s' r E. unfold init_code in E.
  eapply require_update_good; [apply Hs|apply Hs|..|exact E].
  - by apply account_new_contract_ok.
  - rewrite (good_start s Hs). apply fresh_contract_good.
  - intros acc acc' Ha Hv [= <-]. apply init_code_good; [done| |done].
    rewrite (default_account_of _ _ _ start) in Hv;
      [|rewrite (good_start s Hs); apply view_new_contract].
    apply ve_nonce in Hv. cbn in Hv. rewrite Hv. by apply marked_account.
Qed.

(** The view of a contract whose creation starts. *)
Definition contract_view (balance version : Z) (original : H256 → H256) : View :=
  mkView balance (start + 1) KECCAK_EMPTY version (λ _, h256_default) original KECCAK_NULL_RLP.

Lemma op_new_contract a b version s :
  good s → ¬ marked (world s) a →
  op s (wset a (Some (contract_view b version (v_original (account_of start (world s a))))) (world s))
    tt (new_contract a b 1 version s).
Proof.
  intros Hs Hm. pose proof (sim_new_contract a b 1 version s (gd_ok _ Hs)) as Hsim. cbn in Hsim.
  rewrite (good_start s Hs), (proj2 (Z.leb_gt _ _)) in Hsim by (unfold U256_MAX in *; lia).
  apply op_sim; [done|]. intros s' r E. unfold new_contract in E.
  destruct (op_original_root a s Hs) as (s1 & E1 & K1 & Hg1).
  rewrite (sm_bind_ok _ _ _ _ _ E1) in E. unfold sm_state in E.
  rewrite (good_start s1 Hg1), (proj2 (Z.leb_gt _ _)) in E by (unfold U256_MAX in *; lia).
  injection E as <- _. apply good_insert; [apply Hg1|]. intros acc [= <-].
  rewrite (proj1 (new_world a s Hs Hm)). apply new_contract_good. lia.
Qed.

Lemma op_kill_account a s : good s → good (kill_account a s) ∧ keeps s (wset a None (world s)) (kill_account a s).
Proof.
  intros [Hok Hg]. pose proof (insert_dirty_ok s a None Hok ltac:(done)) as K. split; [|done].
  split; [apply K|]. by apply good_insert.
Qed.

(** ** Checkpoints *)

Lemma op_checkpoint s :
  good s → let s' := (checkpoint s).1 in
  good s' ∧ same_base s s' ∧ world s' ≡ world s ∧ Forall2 (≡@{World}) (saved s') (world s :: saved s).
Proof.
  intros [Hok Hg] s'. destruct (checkpoint_ok s Hok) as (? & ? & ? & ?). split; [|done].
  split; [done|by apply checkpoint_good].
Qed.

Lemma op_discard s :
  good s → let s' := discard_checkpoint s in
  good s' ∧ same_base s s' ∧ world s' ≡ world s ∧ Forall2 (≡@{World}) (saved s') (tail (saved s)).
Proof.
  intros [Hok Hg] s'. destruct (discard_checkpoint_ok s Hok) as (? & ? & ? & ?). split; [|done].
  split; [done|by apply discard_good].
Qed.

Lemma op_revert s w ws :
  good s → Forall2 (≡@{World}) (saved s) (w :: ws) → let s' := revert_to_checkpoint s in
  good s' ∧ same_base s s' ∧ world s' ≡ w ∧ Forall2 (≡@{World}) (saved s') ws.
Proof.
  intros [Hok Hg] Hsv s'. destruct (saved s) as [|w0 ws0] eqn:E; [by inversion Hsv|].
  apply Forall2_cons in Hsv as [Hw Hws].
  destruct (revert_to_checkpoint_ok s w0 ws0 Hok E) as (? & ? & Hw' & Hws').
  split; [split; [done|by apply revert_good]|]. split_and!; [done|by etrans|].
  by trans ws0.
Qed.

(** ** The storage at the oldest checkpoint *)

Abbreviation Checkpoint := (gmap Address (option AccountEntry)).

(** The oldest of the first [n] checkpoints that has the account, from the last one. *)
Fixpoint oldest (a : Address) (l : list Checkpoint) (n : nat) : option (nat * option AccountEntry) :=
  match n with
  | O => None
  | S n => match l !! n ≫= lookup a with Some e => Some (n, e) | None => oldest a l n end
  end.

Definition storage_of (w : World) (a : Address) (key : H256) : H256 :=
  match w a with Some v => v_storage v key | None => h256_default end.

Lemma oldest_lookup a l n i e : oldest a l n = Some (i, e) → ∃ m, l !! i = Some m ∧ m !! a = Some e.
Proof.
  induction n as [|n IH]; [done|]. cbn. destruct (l !! n ≫= lookup a) as [e'|] eqn:E; [|done].
  intros [= <- <-]. apply bind_Some in E as (m & ? & ?). by exists m.
Qed.

Lemma oldest_app a l m n : (n ≤ length l)%nat → oldest a (l ++ [m]) n = oldest a l n.
Proof.
  induction n as [|n IH]; intros Hn; [done|]. cbn. rewrite lookup_app_l by lia.
  by rewrite IH by lia.
Qed.

Lemma saved_worlds_app d root l m w :
  saved_worlds d root (l ++ [m]) w =
    saved_worlds d root l w ++ [undo d root m (default w (last (saved_worlds d root l w)))].
Proof.
  revert w. induction l as [|m0 l IH]; intros w; [done|]. cbn. rewrite IH. do 3 f_equal.
  by destruct (saved_worlds d root l _) using rev_ind; [|rewrite app_comm_cons, !last_snoc].
Qed.

(** It has what the oldest saved world has. *)
Lemma oldest_saved a d root l w :
  default w (last (saved_worlds d root l w)) a =
    match oldest a l (length l) with
    | Some (_, old) => noted_view d root a old
    | None => w a
    end.
Proof.
  induction l as [|m l IH] using rev_ind; [done|].
  rewrite saved_worlds_app, last_snoc, length_app, Nat.add_1_r. cbn.
  rewrite lookup_app_r, Nat.sub_diag by done. cbn. unfold undo.
  destruct (m !! a) as [[e|]|]; [done..|]. by rewrite IH, oldest_app.
Qed.

(** Noting the use of a key in a checkpoint changes no world. *)
Lemma saved_worlds_alter d root l n a acc acc' m old st w :
  l !! n = Some m → m !! a = Some (Some (mkEntry (Some acc) old st)) →
  view d a acc' ≡ view d a acc →
  Forall2 (≡@{World})
    (saved_worlds d root (alter (alter (fmap (λ e, mkEntry (Some acc') (old_balance e) (entry_state e))) a)
                            n l) w)
    (saved_worlds d root l w).
Proof.
  intros Hl Hm Hv. revert n w Hl. induction l as [|m0 l IH]; intros n w Hl; [done|].
  destruct n as [|n]; cbn in *; [injection Hl as ->|constructor; [done|by apply IH]].
  match goal with |- Forall2 _ (?w1 :: _) (?w2 :: _) => assert (w1 ≡ w2) as Hw end.
  { intros b. unfold undo. destruct (decide (b = a)) as [->|Hne].
    - rewrite lookup_alter_eq, Hm. cbn. unfold entry_view. cbn. by constructor.
    - by rewrite lookup_alter_ne. }
  constructor; [done|]. by apply saved_worlds_proper.
Qed.

Lemma op_note_use n a acc acc' m old st s :
  good s → checkpoints s !! n = Some m → m !! a = Some (Some (mkEntry (Some acc) old st)) →
  view (d_of s) a acc' ≡ view (d_of s) a acc → acc_ok (d_of s) a acc' → account_good start acc' →
  let s' := put_checkpoint_account n a acc' s in keeps s (world s) s' ∧ good s'.
Proof.
  intros [[O1 O2 O3 O4] [S1 S2 S3 S4 S5]] Hl Hm Hv Hok Hg s'.
  assert (∀ m' b e, m' ∈ checkpoints s' → m' !! b = Some (Some e) →
    (∃ m0, m0 ∈ checkpoints s ∧ m0 !! b = Some (Some e)) ∨ b = a ∧ e = mkEntry (Some acc') old st)
    as Hin.
  { intros m' b e Hin Hb. subst s'. cbn in Hin. apply list_elem_of_lookup in Hin as [i Hi].
    destruct (decide (i = n)) as [->|Hne].
    - rewrite list_lookup_alter_eq, Hl in Hi. injection Hi as <-.
      destruct (decide (b = a)) as [->|Hne].
      + rewrite lookup_alter_eq, Hm in Hb. injection Hb as <-. by right.
      + rewrite lookup_alter_ne in Hb by done. left. exists m. split; [|done].
        by eapply list_elem_of_lookup_2.
    - rewrite list_lookup_alter_ne in Hi by done. left. exists m'. split; [|done].
      by eapply list_elem_of_lookup_2. }
  pose proof (O4 m a _ ltac:(by eapply list_elem_of_lookup_2) Hm) as [_ Hcl].
  assert (state_ok s') as Hs'.
  { split; cbn; try done. intros m' b e Hm' Hb.
    destruct (Hin m' b e Hm' Hb) as [(m0 & ? & ?)|[-> ->]]; [by apply (O4 m0)|].
    split; cbn; [by intros ? [= <-]|]. intros Hd. specialize (Hcl Hd). rewrite <- Hcl.
    unfold entry_view. cbn. by constructor. }
  split; [split; try done; by eapply saved_worlds_alter|]. split; [done|].
  split; cbn; try done. intros m' b e acc0 Hm' Hb He.
  destruct (Hin m' b e Hm' Hb) as [(m0 & ? & ?)|[-> ->]]; [by eapply S5|].
  by injection He as <-.
Qed.

Lemma checkpoint_loop_spec a key n kind s :
  checkpoint_loop a key n kind s =
    match oldest a (checkpoints s) n with
    | None => Done (s, Ok (inr (match n with O => kind | S _ => Some SameAsNext end)))
    | Some (_, None) => Done (s, Ok (inr (Some OriginalAt)))
    | Some (_, Some (mkEntry None _ _)) => Done (s, Ok (inl h256_default))
    | Some (i, Some (mkEntry (Some account) _ _)) =>
        let '(value, account) := cached_storage_at key account in
        let s := put_checkpoint_account i a account s in
        match value with
        | Some value => Done (s, Ok (inl value))
        | None =>
            (root ← original_storage_root a;
             mret (if decide (acc_storage_root account = root) then inr (Some OriginalAt)
                   else inl h256_default)) s
        end
    end.
Proof.
  revert kind. induction n as [|n IH]; intros kind; [done|]. cbn.
  destruct (checkpoints s !! n ≫= lookup a) as [[[[acc|] old st]|]|]; [done..|].
  rewrite IH. by destruct (oldest _ _ _) as [[i [[[acc|] old st]|]]|], n.
Qed.

(** The original storage of a good account is that of its root. *)
Definition base_of (d : hash_db) (a : Address) (root key : H256) : H256 :=
  if decide (root = KECCAK_NULL_RLP) then h256_default else stored d a root key.

Lemma original_base a key s :
  good s →
  match world s a with Some v => v_original v key | None => h256_default end =
    base_of (d_of s) a (root_of (world s) a) key.
Proof.
  intros Hs. destruct (op_query a RequireNone true id s Hs) as (acc & _ & Hv%view_cases & Hacc).
  unfold base_of, root_of. destruct acc as [acc|], (world s a) as [v|]; try done; cbn.
  - rewrite <- (ve_original _ _ Hv), <- (ve_root _ _ Hv). cbn.
    destruct (Hacc acc eq_refl) as ([_ _ -> _ _] & _). done.
  - by rewrite decide_True.
Qed.

Lemma db_world_base s a key :
  storage_of (db_world (d_of s) (st_root s)) a key =
    base_of (d_of s) a (root_of (db_world (d_of s) (st_root s)) a) key.
Proof.
  unfold storage_of, base_of, root_of, db_world. destruct (db_account _ _ _) as [acc|] eqn:E; cbn.
  - unfold db_account in E. destruct (account_lookup _ _ _) as [[]|]; try done. by injection E as <-.
  - by rewrite decide_True.
Qed.

(** What the loop over the checkpoints decides. *)
Lemma checkpoint_loop_ok a key s w0 :
  good s → default (world s) (last (saved s)) ≡ w0 → root_of w0 a = root_of (world s) a →
  ∃ r, op s (world s) r (checkpoint_loop a key (length (checkpoints s)) None s) ∧
    match r with
    | inl v => v = storage_of w0 a key
    | inr (Some SameAsNext) => storage_of (world s) a key = storage_of w0 a key
    | inr (Some OriginalAt) => base_of (d_of s) a (root_of (world s) a) key = storage_of w0 a key
    | inr None => checkpoints s = []
    end.
Proof.
  intros Hs Hw0 Hroot. specialize (Hw0 a). unfold saved in Hw0. rewrite oldest_saved in Hw0.
  rewrite checkpoint_loop_spec.
  pose proof (keeps_refl s (gd_ok _ Hs)) as Hk.
  assert (∀ w, w a ≡ w0 a → storage_of w a key = storage_of w0 a key) as Hst.
  { intros w Hw. unfold storage_of. destruct Hw as [v v' Hv|]; [by apply ve_storage|done]. }
  destruct (oldest a (checkpoints s) _) as [[i [[[acc|] old st]|]]|] eqn:E; cbn in Hw0.
  - apply oldest_lookup in E as (m & Hl & Hm).
    pose proof (so_saved s (gd_ok _ Hs) m a _ ltac:(by eapply list_elem_of_lookup_2) Hm) as [Hacc _].
    specialize (Hacc acc eq_refl).
    pose proof (sg_saved _ _ (gd_accounts _ Hs) m a _ acc ltac:(by eapply list_elem_of_lookup_2) Hm eq_refl) as Hg.
    pose proof (cached_storage_at_ok (d_of s) a key acc Hacc) as Hc.
    pose proof (cached_storage_at_good start key acc Hg) as Hcg.
    destruct (cached_storage_at key acc) as [value acc']. destruct Hc as (Ha' & Hv' & Hval).
    destruct (op_note_use i a acc acc' m old st s Hs Hl Hm Hv' Ha' Hcg) as [K1 Hg1].
    set (s1 := put_checkpoint_account i a acc' s) in *.
    assert (∃ v, w0 a = Some v ∧ view (d_of s) a acc ≡ v) as (v0 & Ev0 & Hv0).
    { destruct (w0 a) as [v|]; inversion Hw0; subst. by exists v. }
    destruct value as [value|].
    + exists (inl value). split; [by exists s1|]. rewrite Hval. unfold storage_of. rewrite Ev0.
      apply (ve_storage _ _ Hv0).
    + destruct (op_original_root a s1 Hg1) as (s2 & E2 & K2 & Hg2).
      rewrite (sm_bind_ok _ _ _ _ _ E2). cbn.
      assert (root_of (world s1) a = root_of w0 a) as Hr1.
      { rewrite Hroot. unfold root_of. pose proof (ke_world _ _ _ K1 a) as Hw.
        destruct Hw as [? ? Hvv|]; [|done]. cbn. apply (ve_root _ _ Hvv). }
      assert (acc_storage_root acc' = root_of w0 a) as Hr.
      { unfold root_of. rewrite Ev0. cbn. rewrite <- (ve_root _ _ Hv0), <- (ve_root _ _ Hv'). done. }
      rewrite Hr1, Hr, decide_True by done. exists (inr (Some OriginalAt)). split.
      { exists s2. split_and!; [done| |done]. eapply keeps_world; [by eapply keeps_trans|]. apply K1. }
      rewrite <- Hroot. unfold storage_of. rewrite Ev0, <- (ve_storage _ _ Hv0).
      rewrite <- (ve_storage _ _ Hv'). destruct Hval as [Hch Hne]. cbn. rewrite Hch.
      unfold base_of, base_storage. by rewrite Hr.
  - eexists. split; [by exists s|]. cbn. unfold storage_of. by inversion Hw0.
  - eexists. split; [by exists s|]. cbn. rewrite <- (Hst _ Hw0), db_world_base.
    f_equal. rewrite <- Hroot. unfold root_of. destruct Hw0 as [? ? Hvv|]; [|done]. cbn.
    symmetry. apply (ve_root _ _ Hvv).
  - destruct (checkpoints s) as [|m l] eqn:El.
    + exists (inr None). by split; [exists s|].
    + eexists. split; [by exists s|]. by apply Hst.
Qed.

(** [checkpoint_storage_at] from the oldest checkpoint. *)
Lemma op_checkpoint_storage a key s w0 :
  good s → last (saved s) = Some w0 → root_of w0 a = root_of (world s) a →
  op s (world s) (Some (storage_of w0 a key)) (checkpoint_storage_at 0 a key s).
Proof.
  intros Hs Hl Hr. destruct (checkpoint_loop_ok a key s w0 Hs) as (r & (s1 & E1 & K1 & Hg1) & Hv);
    [by rewrite Hl|done|].
  assert (checkpoints s ≠ []) as Hne by (intros E; unfold saved in Hl; by rewrite E in Hl).
  unfold checkpoint_storage_at. rewrite (proj2 (Nat.leb_gt _ _)), Nat.sub_0_r
    by (destruct (checkpoints s); cbn; [done|lia]).
  rewrite (sm_bind_ok _ _ _ _ _ E1).
  assert (∀ w, world s1 ≡ w → storage_of (world s1) a key = storage_of w a key) as Hsto.
  { intros w Hw. unfold storage_of. destruct (Hw a) as [? ? Hvv|]; [apply (ve_storage _ _ Hvv)|done]. }
  assert (root_of (world s1) a = root_of (world s) a) as Hroot.
  { unfold root_of. destruct (ke_world _ _ _ K1 a) as [? ? Hvv|]; [|done]. cbn. apply (ve_root _ _ Hvv). }
  destruct r as [v|[[]|]]; [subst v; by exists s1|..|done].
  - destruct (op_original_storage_at a key s1 Hg1) as (s2 & E2 & K2 & Hg2).
    rewrite (original_base a key s1 Hg1), Hroot, (sb_db _ _ (ke_base _ _ _ K1)), Hv in E2.
    change (op s (world s) (Some (storage_of w0 a key)) ((v ← original_storage_at a key; mret (Some v)) s1)).
    rewrite (sm_bind_ok _ _ _ _ _ E2). exists s2. split_and!; [done| |done].
    eapply keeps_world; [by eapply keeps_trans|]. apply K1.
  - destruct (op_storage_at a key s1 Hg1) as (s2 & E2 & K2 & Hg2).
    fold (storage_of (world s1) a key) in E2. rewrite (Hsto (world s)), Hv in E2 by apply K1.
    change (op s (world s) (Some (storage_of w0 a key)) ((v ← storage_at a key; mret (Some v)) s1)).
    rewrite (sm_bind_ok _ _ _ _ _ E2). exists s2. split_and!; [done| |done].
    eapply keeps_world; [by eapply keeps_trans|]. apply K1.
Qed.
End Ops.
