(* ===== verification/JournalDb.v ===== *)
(** * The journal database

    [src/parity-ethereum/util/journaldb/src/overlayrecentdb.rs], the implementation of the
    trait [JournalDB] that the node uses: nodes of the tries that were inserted recently are
    in memory, with counts of references, and on disk as journal records, by era; when an era
    is marked as canonical its nodes go to the disk and its records are dropped.

    The reference counted map is from the [memory-db] crate and the encoding from the [rlp]
    crate: both are parameters.  Disk errors are not modelled. *)

From S2P Require Import Prelude Hash Transaction Account KeyValue.

Set Warnings "-register-all".

(** ** Parameters *)

Abbreviation DBValue := (list byte).
Definition NULL_RLP : DBValue := ["128"%byte].

(** [MemoryDB] with the null node [NULL_RLP]: values with reference counts. *)
Class MemoryDb := {
  memory_db : Type;
  mdb_new : memory_db;
  mdb_raw : memory_db → H256 → option (DBValue * Z);
  mdb_get : memory_db → H256 → option DBValue;
  mdb_contains : memory_db → H256 → bool;
  mdb_emplace : H256 → DBValue → memory_db → memory_db;
  mdb_remove : H256 → memory_db → memory_db;
  mdb_remove_and_purge : H256 → memory_db → option DBValue * memory_db;
  mdb_drain : memory_db → gmap H256 (DBValue * Z) * memory_db;
  mdb_consolidate : memory_db → memory_db → memory_db;
  mdb_keys : memory_db → gmap H256 Z;
}.

(** The decoder: what [Rlp] sees of the bytes, and the integer types. *)
Inductive RlpTree :=
| RlpData (bs : list byte)
| RlpList (l : list RlpTree).

Class RlpDecode := {
  rlp_parse : list byte → option RlpTree;
  rlp_u64 : list byte → option Z;
}.

(** ** Data *)

Definition DB_PREFIX_LEN : nat := 12.
Definition LATEST_ERA_KEY : list byte :=
  ["108"; "097"; "115"; "116"; "000"; "000"; "000"; "000"; "000"; "000"; "000"; "000"]%byte.
Definition PADDING : list byte := replicate 10 "000"%byte.

Record DatabaseValue := mkDatabaseValue {
  dv_id : H256;
  dv_inserts : list (H256 * DBValue);
  dv_deletes : list H256;
}.

Record JournalEntry := mkJournalEntry {
  je_id : H256;
  je_insertions : list H256;
  je_deletions : list H256;
}.

Lemma short_key_len (key : H256) :
  length (take DB_PREFIX_LEN (h256_bytes key) ++ replicate 20 "000"%byte) = 32.
Proof. rewrite length_app, length_take, length_replicate, h256_len. done. Qed.

Definition to_short_key (key : H256) : H256 := mkH256 _ (short_key_len key).

Section Encoding.
Context `{Rlp} `{RlpDecode}.

(** [encode(&DatabaseKey)]. *)
Definition encode_key (era : Z) (index : nat) : list byte :=
  rlp_out [begin_list 3; append_uint era; append_uint (Z.of_nat index); append_bytes PADDING].

(** [DatabaseValueRef::rlp_append]. *)
Definition encode_value (v : DatabaseValue) : list byte :=
  rlp_out (begin_list 3 :: append_bytes (h256_bytes (dv_id v)) ::
    begin_list (length (dv_inserts v)) ::
    mjoin ((λ kv, [begin_list 2; append_bytes (h256_bytes kv.1); append_bytes kv.2])
             <$> dv_inserts v) ++
    begin_list (length (dv_deletes v)) ::
    ((λ k, append_bytes (h256_bytes k)) <$> dv_deletes v)).

Definition val_h256 (t : RlpTree) : option H256 :=
  match t with RlpData bs => h256_of_bytes bs | RlpList _ => None end.

Definition val_pair (t : RlpTree) : option (H256 * DBValue) :=
  match t with
  | RlpList (k :: RlpData v :: _) => k ← val_h256 k; Some (k, v)
  | _ => None
  end.

(** The items of a list; data has none. *)
Definition tree_items (t : RlpTree) : list RlpTree :=
  match t with RlpList l => l | RlpData _ => [] end.

(** [DatabaseValue::decode]. *)
Definition decode_value (bs : list byte) : option DatabaseValue :=
  match rlp_parse bs with
  | Some (RlpList (id :: inserts :: deletes :: _)) =>
      id ← val_h256 id;
      inserts ← mapM val_pair (tree_items inserts);
      deletes ← mapM val_h256 (tree_items deletes);
      Some (mkDatabaseValue id inserts deletes)
  | _ => None
  end.
End Encoding.

Section Journal.
Context `{Keccak} `{Rlp} `{RlpDecode} `{MemoryDb} `{HashOrder}.

Record JournalOverlay := mkOverlay {
  backing_overlay : memory_db;
  pending_overlay : gmap H256 DBValue;
  jo_journal : gmap Z (list JournalEntry);
  latest_era : option Z;
  earliest_era : option Z;
  cumulative_size : Z;
}.

Record OverlayRecentDB := mkOverlayDB {
  transaction_overlay : memory_db;
  backing : KeyValueDB;
  journal_overlay : JournalOverlay;
  column : Z;
}.

Definition set_transaction (m : memory_db) (self : OverlayRecentDB) : OverlayRecentDB :=
  mkOverlayDB m (backing self) (journal_overlay self) (column self).
Definition set_overlay (o : JournalOverlay) (self : OverlayRecentDB) : OverlayRecentDB :=
  mkOverlayDB (transaction_overlay self) (backing self) o (column self).

(** [backing().write(batch)]. *)
Definition write_batch (batch : DBTransaction) (self : OverlayRecentDB) : OverlayRecentDB :=
  mkOverlayDB (transaction_overlay self) (kv_write batch (backing self)) (journal_overlay self)
    (column self).

(** ** Reading the journal *)

(** A node goes to the overlay, by its short key. *)
Definition emplace_node (st : memory_db * Z) (node : H256 * DBValue) : memory_db * Z :=
  let '(overlay, size) := st in
  let short_key := to_short_key node.1 in
  let size := if mdb_contains overlay short_key then size
              else (size + Z.of_nat (length node.2))%Z in
  (mdb_emplace short_key node.2 overlay, size).

(** [journal.entry(era).or_insert_with(Vec::new).push(entry)]. *)
Definition push_entry (era : Z) (entry : JournalEntry) (j : gmap Z (list JournalEntry)) :
    gmap Z (list JournalEntry) :=
  <[era := default [] (j !! era) ++ [entry]]> j.

Definition read_record (era : Z) (value : DatabaseValue) (o : JournalOverlay) :
    JournalOverlay :=
  let '(overlay, size) :=
    foldl emplace_node (backing_overlay o, cumulative_size o) (dv_inserts value) in
  mkOverlay overlay (pending_overlay o)
    (push_entry era (mkJournalEntry (dv_id value) ((dv_inserts value).*1) (dv_deletes value))
       (jo_journal o)) (latest_era o) (Some era) size.

(** The inner loop, which ends at the first index without a record. *)
Fixpoint read_era (fuel : nat) (db : KeyValueDB) (col era : Z) (index : nat)
    (o : JournalOverlay) : Outcome (nat * JournalOverlay) :=
  match fuel with
  | 0 => Panic
  | S fuel =>
      match kv_get db col (encode_key era index) with
      | None => Done (index, o)
      | Some rlp_data =>
          value ← unwrap (decode_value rlp_data);
          read_era fuel db col era (S index) (read_record era value o)
      end
  end.

Fixpoint read_eras (fuel : nat) (db : KeyValueDB) (col era : Z) (o : JournalOverlay) :
    Outcome JournalOverlay :=
  match fuel with
  | 0 => Panic
  | S fuel =>
      '(index, o) ← read_era (S (size db)) db col era 0 o;
      if (index =? 0) || (era =? 0)%Z then Done o
      else read_eras fuel db col (era - 1) o
  end.

(** Each turn of a loop but the last finds another key of the store, which bounds their
    number. *)
Definition read_overlay (db : KeyValueDB) (col : Z) : Outcome JournalOverlay :=
  let o := mkOverlay mdb_new ∅ ∅ None None 0 in
  match kv_get db col LATEST_ERA_KEY with
  | None => Done o
  | Some val =>
      tree ← unwrap (rlp_parse val);
      era ← unwrap (match tree with RlpData bs => rlp_u64 bs | RlpList _ => None end);
      read_eras (S (size db)) db col era (mkOverlay mdb_new ∅ ∅ (Some era) None 0)
  end.

(** [OverlayRecentDB::new]. *)
Definition overlay_new (backing : KeyValueDB) (col : Z) : Outcome OverlayRecentDB :=
  journal_overlay ← read_overlay backing col;
  Done (mkOverlayDB mdb_new backing journal_overlay col).

(** ** [JournalDB] *)

Definition overlay_is_empty (self : OverlayRecentDB) : bool :=
  match kv_get (backing self) (column self) LATEST_ERA_KEY with None => true | Some _ => false end.

Definition journal_under (batch : DBTransaction) (now : Z) (id : H256)
    (self : OverlayRecentDB) : DBTransaction * OverlayRecentDB * Z :=
  let o := journal_overlay self in
  let '(tx, transaction) := mdb_drain (transaction_overlay self) in
  let inserted_keys := fst <$> filter (λ e, (0 < e.2.2)%Z) (hash_iter tx) in
  let removed_keys := fst <$> filter (λ e, (e.2.2 < 0)%Z) (hash_iter tx) in
  let ops := Z.of_nat (length inserted_keys + length removed_keys) in
  let insertions := (λ e, (e.1, e.2.1)) <$> filter (λ e, (0 < e.2.2)%Z) (hash_iter tx) in
  let encoded_value := encode_value (mkDatabaseValue id insertions removed_keys) in
  let '(overlay, size) :=
    foldl emplace_node (backing_overlay o, cumulative_size o) insertions in
  let index := match jo_journal o !! now with Some j => length j | None => 0 end in
  let batch := kv_put (column self) (encode_key now index) encoded_value batch in
  let newer := match latest_era o with None => true | Some e => (e <? now)%Z end in
  let batch := if newer then kv_put (column self) LATEST_ERA_KEY (rlp_out [append_uint now]) batch
               else batch in
  let latest := if newer then Some now else latest_era o in
  let earliest := match earliest_era o with
                  | Some e => if (now <? e)%Z then Some now else Some e
                  | None => Some now
                  end in
  (batch,
   mkOverlayDB transaction (backing self)
     (mkOverlay overlay ∅
        (push_entry now (mkJournalEntry id inserted_keys removed_keys) (jo_journal o))
        latest earliest size) (column self),
   ops).

(** The record with index [index] is dropped; the nodes of a canonical one go to the disk. *)
Definition prune_record (col end_era : Z) (canon_id : H256) (overlay : memory_db)
    (st : DBTransaction * nat * list (H256 * DBValue) * list H256 * list H256)
    (journal : JournalEntry) :
    DBTransaction * nat * list (H256 * DBValue) * list H256 * list H256 :=
  let '(batch, index, canon_insertions, canon_deletions, overlay_deletions) := st in
  let batch := kv_delete col (encode_key end_era index) batch in
  let '(canon_insertions, canon_deletions) :=
    if decide (canon_id = je_id journal) then
      (canon_insertions ++ omap (λ h,
         match mdb_raw overlay (to_short_key h) with
         | Some (d, rc) => if (0 <? rc)%Z then Some (h, d) else None
         | None => None
         end) (je_insertions journal), je_deletions journal)
    else (canon_insertions, canon_deletions) in
  (batch, S index, canon_insertions, canon_deletions,
   overlay_deletions ++ je_insertions journal).

Definition purge_node (st : memory_db * Z) (k : H256) : memory_db * Z :=
  let '(overlay, size) := st in
  let '(val, overlay) := mdb_remove_and_purge (to_short_key k) overlay in
  (overlay, match val with Some v => (size - Z.of_nat (length v))%Z | None => size end).

Definition mark_canonical (batch : DBTransaction) (end_era : Z) (canon_id : H256)
    (self : OverlayRecentDB) : DBTransaction * OverlayRecentDB * Z :=
  let o := journal_overlay self in
  let col := column self in
  let '(batch, overlay, pending, size, ops) :=
    match jo_journal o !! end_era with
    | Some records =>
        let '(batch, _, canon_insertions, canon_deletions, overlay_deletions) :=
          foldl (prune_record col end_era canon_id (backing_overlay o)) (batch, 0, [], [], [])
            records in
        let ops := Z.of_nat (length canon_insertions + length canon_deletions) in
        let batch := foldl (λ batch kv, kv_put col (h256_bytes kv.1) kv.2 batch) batch
                       canon_insertions in
        let pending := foldl (λ p kv, <[to_short_key kv.1 := kv.2]> p) (pending_overlay o)
                         canon_insertions in
        let '(overlay, size) :=
          foldl purge_node (backing_overlay o, cumulative_size o) overlay_deletions in
        let batch := foldl (λ batch k,
                       if mdb_contains overlay (to_short_key k) then batch
                       else kv_delete col (h256_bytes k) batch) batch canon_deletions in
        (batch, overlay, pending, size, ops)
    | None => (batch, backing_overlay o, pending_overlay o, cumulative_size o, 0%Z)
    end in
  let journal := delete end_era (jo_journal o) in
  let earliest := if decide (journal = ∅) then earliest_era o else Some (end_era + 1)%Z in
  (batch, set_overlay (mkOverlay overlay pending journal (latest_era o) earliest size) self, ops).

Definition flush (self : OverlayRecentDB) : OverlayRecentDB :=
  let o := journal_overlay self in
  set_overlay (mkOverlay (backing_overlay o) ∅ (jo_journal o) (latest_era o) (earliest_era o)
    (cumulative_size o)) self.

(** [inject], with the check it makes when debug assertions are on; the error is the key that
    is not in the store. *)
Definition inject (debug_assertions : bool) (batch : DBTransaction) (self : OverlayRecentDB) :
    Outcome (Result (DBTransaction * Z) H256 * OverlayRecentDB) :=
  let '(tx, transaction) := mdb_drain (transaction_overlay self) in
  r ← foldM (λ st '(key, (value, rc)),
        match st with
        | Err e => Done (Err e)
        | Ok (batch, ops) =>
            if (rc =? 0)%Z then Done (Ok (batch, ops))
            else if (0 <? rc)%Z then
              Done (Ok (kv_put (column self) (h256_bytes key) value batch, (ops + 1)%Z))
            else if (rc =? -1)%Z then
              if debug_assertions &&
                 bool_decide (kv_get (backing self) (column self) (h256_bytes key) = None)
              then Done (Err key)
              else Done (Ok (kv_delete (column self) (h256_bytes key) batch, (ops + 1)%Z))
            else Panic
        end) (Ok (batch, 0%Z)) (hash_iter tx);
  Done (r, set_transaction transaction self).

Definition consolidate (with' : memory_db) (self : OverlayRecentDB) : OverlayRecentDB :=
  set_transaction (mdb_consolidate with' (transaction_overlay self)) self.

(** [commit_batch] of [lib.rs]: all changes in one batch. *)
Definition commit_batch (now : Z) (id : H256) (end' : option (Z * H256))
    (self : OverlayRecentDB) : OverlayRecentDB * Z :=
  let '(batch, self, ops) := journal_under [] now id self in
  let '(batch, self, ops) :=
    match end' with
    | Some (end_era, canon_id) =>
        let '(batch, self, n) := mark_canonical batch end_era canon_id self in
        (batch, self, (ops + n)%Z)
    | None => (batch, self, ops)
    end in
  (flush (write_batch batch self), ops).

(** ** [HashDB] *)

Definition payload (key : H256) (self : OverlayRecentDB) : option DBValue :=
  kv_get (backing self) (column self) (h256_bytes key).

Definition overlay_get (key : H256) (self : OverlayRecentDB) : option DBValue :=
  let recent :=
    let o := journal_overlay self in
    let short_key := to_short_key key in
    match mdb_get (backing_overlay o) short_key with
    | Some v => Some v
    | None => match pending_overlay o !! short_key with
              | Some v => Some v
              | None => payload key self
              end
    end in
  match mdb_raw (transaction_overlay self) key with
  | Some (d, rc) => if (0 <? rc)%Z then Some d else recent
  | None => recent
  end.

Definition overlay_contains (key : H256) (self : OverlayRecentDB) : bool :=
  bool_decide (is_Some (overlay_get key self)).

Definition overlay_emplace (key : H256) (value : DBValue) (self : OverlayRecentDB) :
    OverlayRecentDB :=
  set_transaction (mdb_emplace key value (transaction_overlay self)) self.

(** [insert] of the memory database: the key is the hash of the value. *)
Definition overlay_insert (value : DBValue) (self : OverlayRecentDB) : H256 * OverlayRecentDB :=
  (keccak value, overlay_emplace (keccak value) value self).

Definition overlay_remove (key : H256) (self : OverlayRecentDB) : OverlayRecentDB :=
  set_transaction (mdb_remove key (transaction_overlay self)) self.
End Journal.
