(* ===== verification/JournalTheorems.v ===== *)
(** * The journal can be read back

    What a journal database has in memory agrees with its records on disk: after any sequence
    of insertions, removals and commits, [read_overlay] finds the overlay the database has.
    The values are determined by the first twelve bytes of their keys, as they are when no two
    nodes have hashes that agree there.  The second part has the states that are reached, with
    restarts. *)

From S2P Require Import Prelude Hash Transaction KeyValue Account JournalDb.

Set Warnings "-register-all".

(** ** What the code relies on *)

Section Laws.
Context `{Keccak} `{MemoryDb}.

(** The counted entries of a memory database, without the null node. *)
Class MemoryDbLaws := {
  mdb_data : memory_db → gmap H256 (DBValue * Z);
  mdb_data_new : mdb_data mdb_new = ∅;
  mdb_raw_data m k : mdb_raw m k =
    if decide (k = KECCAK_NULL_RLP) then Some (NULL_RLP, 1%Z) else mdb_data m !! k;
  mdb_get_data m k : mdb_get m k =
    if decide (k = KECCAK_NULL_RLP) then Some NULL_RLP
    else match mdb_data m !! k with
         | Some (v, rc) => if (0 <? rc)%Z then Some v else None
         | None => None
         end;
  mdb_contains_get m k : mdb_contains m k = bool_decide (is_Some (mdb_get m k));
  mdb_emplace_data k v m : mdb_data (mdb_emplace k v m) =
    if decide (v = NULL_RLP) then mdb_data m
    else <[k := match mdb_data m !! k with
                | Some (w, rc) => (if (rc <=? 0)%Z then v else w, (rc + 1)%Z)
                | None => (v, 1%Z)
                end]> (mdb_data m);
  mdb_remove_data k m : mdb_data (mdb_remove k m) =
    if decide (k = KECCAK_NULL_RLP) then mdb_data m
    else <[k := match mdb_data m !! k with
                | Some (w, rc) => (w, (rc - 1)%Z)
                | None => ([], (-1)%Z)
                end]> (mdb_data m);
  mdb_purge_data k m : k ≠ KECCAK_NULL_RLP →
    match mdb_data m !! k with
    | Some (w, rc) =>
        if (rc =? 1)%Z
        then (mdb_remove_and_purge k m).1 = Some w ∧
             mdb_data (mdb_remove_and_purge k m).2 = delete k (mdb_data m)
        else (mdb_remove_and_purge k m).1 = None ∧
             mdb_data (mdb_remove_and_purge k m).2 = <[k := (w, (rc - 1)%Z)]> (mdb_data m)
    | None => (mdb_remove_and_purge k m).1 = None ∧
        mdb_data (mdb_remove_and_purge k m).2 = <[k := ([], (-1)%Z)]> (mdb_data m)
    end;
  mdb_drain_data m : (mdb_drain m).1 = mdb_data m ∧ mdb_data (mdb_drain m).2 = ∅;
}.
End Laws.

(** An item of an RLP encoding. *)
Inductive RlpItem :=
| ItemUint (z : Z)
| ItemBytes (bs : list byte)
| ItemList (l : list RlpItem).

(** The calls that append an item. *)
Fixpoint item_ops (t : RlpItem) : list RlpOp :=
  match t with
  | ItemUint z => [append_uint z]
  | ItemBytes bs => [append_bytes bs]
  | ItemList l => begin_list (length l) :: concat (map item_ops l)
  end.

Section RlpLaws.
Context `{Rlp} `{RlpDecode}.

(** An encoded item is parsed to its structure; integers are encoded injectively; the key of a
    journal record is longer than a prefix and shorter than a hash. *)
Fixpoint item_tree (rlp_uint : Z → list byte) (t : RlpItem) : RlpTree :=
  match t with
  | ItemUint z => RlpData (rlp_uint z)
  | ItemBytes bs => RlpData bs
  | ItemList l => RlpList (map (item_tree rlp_uint) l)
  end.

Class RlpLaws := {
  rlp_uint : Z → list byte;
  rlp_uint_inj z1 z2 : (0 ≤ z1)%Z → (0 ≤ z2)%Z → rlp_uint z1 = rlp_uint z2 → z1 = z2;
  rlp_u64_uint z : (0 ≤ z < 2 ^ 64)%Z → rlp_u64 (rlp_uint z) = Some z;
  rlp_parse_out t : rlp_parse (rlp_out (item_ops t)) = Some (item_tree rlp_uint t);
  encode_key_len era index :
    length (encode_key era index) ≠ DB_PREFIX_LEN ∧ length (encode_key era index) ≠ 32;
}.
End RlpLaws.

(** ** Encoding *)

Section Encoding.
Context `{Rlp} `{RlpDecode} `{!RlpLaws}.

Lemma encode_key_item era index :
  encode_key era index =
  rlp_out (item_ops (ItemList [ItemUint era; ItemUint (Z.of_nat index); ItemBytes PADDING])).
Proof. done. Qed.

Lemma encode_key_inj era1 index1 era2 index2 :
  (0 ≤ era1)%Z → (0 ≤ era2)%Z → encode_key era1 index1 = encode_key era2 index2 →
  era1 = era2 ∧ index1 = index2.
Proof.
  intros Hp1 Hp2 E. rewrite !encode_key_item in E. apply (f_equal rlp_parse) in E.
  rewrite !rlp_parse_out in E. cbn in E. injection E as E1 E2.
  apply rlp_uint_inj in E1, E2; lia.
Qed.

Lemma encode_key_latest era index : encode_key era index ≠ LATEST_ERA_KEY.
Proof. intros E. apply (proj1 (encode_key_len era index)). by rewrite E. Qed.

Lemma encode_key_hash era index (h : H256) : encode_key era index ≠ h256_bytes h.
Proof. intros E. apply (proj2 (encode_key_len era index)). rewrite E. apply h256_len. Qed.

Lemma latest_hash (h : H256) : LATEST_ERA_KEY ≠ h256_bytes h.
Proof. intros E%(f_equal length). by rewrite h256_len in E. Qed.

Definition value_item (v : DatabaseValue) : RlpItem :=
  ItemList [ItemBytes (h256_bytes (dv_id v));
    ItemList (map (λ kv, ItemList [ItemBytes (h256_bytes kv.1); ItemBytes kv.2]) (dv_inserts v));
    ItemList (map (λ k, ItemBytes (h256_bytes k)) (dv_deletes v))].

Lemma encode_value_item v : encode_value v = rlp_out (item_ops (value_item v)).
Proof.
  unfold encode_value, value_item. f_equal. cbn. rewrite !length_map, app_nil_r. do 3 f_equal.
  f_equal; [|f_equal].
  - induction (dv_inserts v) as [|kv l IH]; cbn; [done|]. do 3 f_equal. exact IH.
  - induction (dv_deletes v) as [|k l IH]; cbn; [done|]. by rewrite IH.
Qed.

Lemma decode_encode_value v : decode_value (encode_value v) = Some v.
Proof.
  unfold decode_value. rewrite encode_value_item, rlp_parse_out. destruct v as [id ins del].
  cbn. rewrite h256_of_bytes_to. cbn.
  assert (mapM val_pair (map (item_tree rlp_uint) (map (λ kv : H256 * DBValue,
    ItemList [ItemBytes (h256_bytes kv.1); ItemBytes kv.2]) ins)) = Some ins) as ->.
  { induction ins as [|[k v] l IH]; cbn; [done|]. rewrite h256_of_bytes_to. cbn. by rewrite IH. }
  assert (mapM val_h256 (map (item_tree rlp_uint) (map (λ k, ItemBytes (h256_bytes k)) del)) =
    Some del) as ->.
  { induction del as [|k l IH]; cbn; [done|]. rewrite h256_of_bytes_to. cbn. by rewrite IH. }
  done.
Qed.
End Encoding.

(** ** Counting references *)

Section Counts.
Context `{Keccak} `{MemoryDb} `{!MemoryDbLaws}.
Context (content : H256 → DBValue) (content_null : ∀ s, content s ≠ NULL_RLP).
Context (short_null : ∀ k, to_short_key k ≠ KECCAK_NULL_RLP).

(** How many of the keys have a short key. *)
Definition count (s : H256) (l : list H256) : nat :=
  length (filter (λ k, to_short_key k = s) l).

Lemma count_app s l1 l2 : count s (l1 ++ l2) = count s l1 + count s l2.
Proof. unfold count. by rewrite filter_app, length_app. Qed.

Lemma count_cons s k l :
  count s (k :: l) = (if decide (to_short_key k = s) then 1 else 0) + count s l.
Proof. unfold count. rewrite filter_cons. by case_decide. Qed.

#[local] Arguments count : simpl never.

(** The insertions of the records of an era, and their count in all eras. *)
Definition entries_keys (rs : list JournalEntry) : list H256 := mjoin (je_insertions <$> rs).

Definition count_all (s : H256) (j : gmap Z (list JournalEntry)) : nat :=
  map_fold (λ _ rs n, count s (entries_keys rs) + n) 0 j.

Lemma count_all_delete s j e rs : j !! e = Some rs →
  count_all s j = count s (entries_keys rs) + count_all s (delete e j).
Proof. intros E. unfold count_all. rewrite (map_fold_delete_L _ _ e rs); [done| |done]. intros; lia. Qed.

Lemma count_all_push s e entry j :
  count_all s (push_entry e entry j) = count_all s j + count s (je_insertions entry).
Proof.
  unfold push_entry. rewrite (count_all_delete s _ e (default [] (j !! e) ++ [entry]))
    by by rewrite lookup_insert_eq.
  rewrite delete_insert_eq. unfold entries_keys. rewrite fmap_app, join_app, count_app. cbn.
  rewrite app_nil_r. destruct (j !! e) as [rs|] eqn:E; cbn.
  - rewrite (count_all_delete s j e rs E). unfold entries_keys. lia.
  - rewrite delete_id by done. change (count s []) with 0. lia.
Qed.

Definition tallied (s : H256) (n : nat) : option (DBValue * Z) :=
  match n with 0 => None | S _ => Some (content s, Z.of_nat n) end.

(** The length of all values. *)
Definition total (d : gmap H256 (DBValue * Z)) : Z :=
  map_fold (λ _ v n, (Z.of_nat (length v.1) + n)%Z) 0%Z d.

Lemma total_delete d k v : d !! k = Some v →
  total d = (Z.of_nat (length v.1) + total (delete k d))%Z.
Proof. intros E. unfold total. rewrite (map_fold_delete_L _ _ k v); [done| |done]. intros; lia. Qed.

Lemma total_insert d k v :
  total (<[k := v]> d) = (Z.of_nat (length v.1) + total (delete k d))%Z.
Proof.
  rewrite (total_delete _ k v) by by rewrite lookup_insert_eq. by rewrite delete_insert_eq.
Qed.

(** An overlay with the given counts, and its size. *)
Definition overlay_counts (f : H256 → nat) (st : memory_db * Z) : Prop :=
  (∀ s, mdb_data st.1 !! s = tallied s (f s)) ∧ st.2 = total (mdb_data st.1).

Lemma overlay_counts_ext f g st :
  (∀ s, f s = g s) → overlay_counts f st → overlay_counts g st.
Proof. intros E [Hd Ht]. split; [|done]. intros s. by rewrite Hd, E. Qed.

Lemma overlay_counts_new : overlay_counts (λ _, 0) (mdb_new, 0%Z).
Proof.
  split; cbn; rewrite mdb_data_new; [intros s; by rewrite lookup_empty|].
  unfold total. by rewrite map_fold_empty.
Qed.

Lemma overlay_get_counts f st k : overlay_counts f st →
  mdb_get st.1 (to_short_key k) =
  if decide (f (to_short_key k) = 0) then None else Some (content (to_short_key k)).
Proof.
  intros [Hd _]. rewrite mdb_get_data, decide_False, Hd by done.
  destruct (f (to_short_key k)); [done|]. cbn. done.
Qed.

Lemma emplace_counts f st k :
  overlay_counts f st →
  overlay_counts (λ s, f s + if decide (to_short_key k = s) then 1 else 0)
    (emplace_node st (k, content (to_short_key k))).
Proof.
  intros Hf. pose proof (overlay_get_counts f st k Hf) as Hg. destruct Hf as [Hd Ht].
  destruct st as [m z]. cbn [fst snd] in *. unfold emplace_node. cbn [fst snd].
  set (s0 := to_short_key k) in *. rewrite mdb_contains_get, Hg.
  assert (mdb_data (mdb_emplace s0 (content s0) m) =
    <[s0 := (content s0, Z.of_nat (S (f s0)))]> (mdb_data m)) as He.
  { rewrite mdb_emplace_data, decide_False by done. rewrite Hd.
    destruct (f s0) as [|n] eqn:En; cbn [tallied]; [done|]. f_equal.
    destruct (Z.leb_spec (Z.of_nat (S n)) 0); f_equal; lia. }
  split; cbn [fst snd]; rewrite He.
  - intros s. destruct (decide (s0 = s)) as [<-|Hne].
    + rewrite lookup_insert_eq. by rewrite Nat.add_1_r.
    + by rewrite lookup_insert_ne, Hd, Nat.add_0_r.
  - rewrite total_insert, Ht. cbn [fst]. specialize (Hd s0).
    destruct (decide (f s0 = 0)) as [E|E].
    + rewrite bool_decide_eq_false_2 by by intros [? [=]].
      rewrite E in Hd. cbn in Hd. rewrite delete_id by done. lia.
    + rewrite bool_decide_eq_true_2 by done. destruct (f s0); [done|]. cbn in Hd.
      by rewrite (total_delete _ _ _ Hd).
Qed.

Lemma emplaces_counts l : ∀ f st,
  overlay_counts f st → Forall (λ kv, kv.2 = content (to_short_key kv.1)) l →
  overlay_counts (λ s, f s + count s (l.*1)) (foldl emplace_node st l).
Proof.
  induction l as [|[k v] l IH]; intros f st Hf Hl; cbn [foldl fmap list_fmap fst].
  { eapply overlay_counts_ext; [|done]. intros s. change (count s []) with 0. lia. }
  apply Forall_cons in Hl as [Hv Hl]. cbn in Hv. subst v.
  eapply overlay_counts_ext; [|apply IH; [by apply emplace_counts|done]]. intros s. cbn beta.
  change ((k, content (to_short_key k)).1 :: l.*1) with (k :: l.*1). rewrite count_cons. lia.
Qed.

Lemma purge_counts f st k :
  overlay_counts f st → f (to_short_key k) ≠ 0 →
  overlay_counts (λ s, f s - if decide (to_short_key k = s) then 1 else 0) (purge_node st k).
Proof.
  intros [Hd Ht] Hn. destruct st as [m z]. unfold purge_node. set (s0 := to_short_key k) in *.
  cbn [fst snd] in *. pose proof (mdb_purge_data s0 m (short_null k)) as Hp.
  pose proof (Hd s0) as H0'. rewrite H0' in Hp.
  destruct (f s0) as [|n] eqn:En; [done|]. cbn [tallied] in *.
  destruct (mdb_remove_and_purge s0 m) as [val m']. cbn [fst snd] in Hp.
  destruct (Z.eqb_spec (Z.of_nat (S n)) 1) as [E|E]; destruct Hp as [-> Hm]; split;
    cbn [fst snd]; rewrite Hm.
  - intros s. destruct (decide (s0 = s)) as [<-|Hne].
    + rewrite lookup_delete_eq, En. replace (S n - 1) with 0 by lia. done.
    + by rewrite lookup_delete_ne, Hd, Nat.sub_0_r.
  - rewrite Ht, (total_delete _ _ _ H0'). cbn [fst]. lia.
  - intros s. destruct (decide (s0 = s)) as [<-|Hne].
    + rewrite lookup_insert_eq, En. replace (S n - 1) with n by lia.
      destruct n; [done|]. cbn. do 2 f_equal. lia.
    + by rewrite lookup_insert_ne, Hd, Nat.sub_0_r.
  - rewrite total_insert, Ht. cbn [fst]. by rewrite (total_delete _ _ _ H0').
Qed.

Lemma purges_counts l : ∀ f st,
  overlay_counts f st → (∀ s, count s l ≤ f s) →
  overlay_counts (λ s, f s - count s l) (foldl purge_node st l).
Proof.
  induction l as [|k l IH]; intros f st Hf Hl; cbn [foldl].
  { eapply overlay_counts_ext; [|done]. intros s. change (count s []) with 0. lia. }
  assert (∀ s, (if decide (to_short_key k = s) then 1 else 0) + count s l ≤ f s) as Hk.
  { intros s. specialize (Hl s). by rewrite count_cons in Hl. }
  eapply overlay_counts_ext; [|apply IH; [apply purge_counts; [done|]|]].
  - intros s. cbn beta. rewrite count_cons. lia.
  - specialize (Hk (to_short_key k)). rewrite decide_True in Hk by done. lia.
  - intros s. specialize (Hk s). cbn beta. lia.
Qed.

(** Equal counts, equal overlays. *)
Lemma overlay_counts_unique f st st' :
  overlay_counts f st → overlay_counts f st' →
  mdb_data st.1 = mdb_data st'.1 ∧ st.2 = st'.2.
Proof.
  intros [D1 T1] [D2 T2]. assert (mdb_data st.1 = mdb_data st'.1) as E.
  { apply map_eq. intros s. by rewrite D1, D2. }
  split; [done|]. by rewrite T1, T2, E.
Qed.
End Counts.

(** * The journal survives restarts

    The states a journal database reaches, and the theorem that its overlay can be read back
    from the records on disk in each of them, so that a database that is opened again finds
    every node that was committed. *)

#[local] Arguments count : simpl never.

Section Reading.
Context `{Keccak} `{Rlp} `{RlpDecode} `{!RlpLaws} `{MemoryDb} `{!MemoryDbLaws} `{HashOrder}.
Context (content : H256 → DBValue) (content_null : ∀ s, content s ≠ NULL_RLP).
Context (short_null : ∀ k, to_short_key k ≠ KECCAK_NULL_RLP).

Abbreviation Journal := (gmap Z (list JournalEntry)).

(** The value of a record on disk. *)
Definition record_value (e : JournalEntry) : DatabaseValue :=
  mkDatabaseValue (je_id e) ((λ k, (k, content (to_short_key k))) <$> je_insertions e)
    (je_deletions e).

(** The overlay has the nodes of a journal. *)
Definition overlay_of (j : Journal) (o : JournalOverlay) : Prop :=
  jo_journal o = j ∧
  overlay_counts content (λ s, count_all s j) (backing_overlay o, cumulative_size o).

Lemma record_value_ok e :
  Forall (λ kv, kv.2 = content (to_short_key kv.1)) (dv_inserts (record_value e)) ∧
  (dv_inserts (record_value e)).*1 = je_insertions e.
Proof.
  cbn. split.
  - apply Forall_forall. by intros kv (k & -> & _)%list_elem_of_fmap.
  - rewrite <- list_fmap_compose. apply list_fmap_id.
Qed.

Lemma read_record_ok j o era e :
  overlay_of j o → overlay_of (push_entry era e j) (read_record era (record_value e) o).
Proof.
  intros [Hj Hc]. destruct (record_value_ok e) as [Hv Hk]. unfold read_record.
  pose proof (emplaces_counts content content_null short_null _ _ _ Hc Hv) as He.
  destruct (foldl emplace_node _ _) as [m z] eqn:E. rewrite Hk in He. split; cbn.
  - rewrite Hj, <- list_fmap_compose. do 2 f_equal. destruct e. cbn. f_equal. apply list_fmap_id.
  - eapply overlay_counts_ext; [|exact He]. intros s. cbn beta. by rewrite count_all_push.
Qed.

Lemma read_record_latest era v o :
  latest_era (read_record era v o) = latest_era o ∧
  pending_overlay (read_record era v o) = pending_overlay o.
Proof. unfold read_record. by destruct (foldl _ _ _). Qed.

(** The records of an era, if there are any. *)
Definition put_era (e : Z) (rs : list JournalEntry) (j : Journal) : Journal :=
  match rs with [] => j | _ => <[e := rs]> j end.

Lemma push_put e entry rs j : j !! e = None →
  push_entry e entry (put_era e rs j) = put_era e (rs ++ [entry]) j.
Proof.
  intros Hn. unfold push_entry. destruct rs as [|r rs]; cbn; [by rewrite Hn|].
  rewrite lookup_insert_eq. cbn. by rewrite insert_insert_eq.
Qed.

Lemma read_era_ok (db : KeyValueDB) col era rs2 : ∀ fuel rs1 j o,
  (∀ i, kv_get db col (encode_key era i) = encode_value ∘ record_value <$> (rs1 ++ rs2) !! i) →
  j !! era = None → overlay_of (put_era era rs1 j) o → length rs2 < fuel →
  ∃ o', read_era fuel db col era (length rs1) o = Done (length (rs1 ++ rs2), o') ∧
    overlay_of (put_era era (rs1 ++ rs2) j) o' ∧
    latest_era o' = latest_era o ∧ pending_overlay o' = pending_overlay o.
Proof.
  induction rs2 as [|e rs2 IH]; intros fuel rs1 j o Hdb Hn Ho Hf;
    (destruct fuel as [|fuel]; [lia|]); cbn [read_era]; rewrite Hdb.
  - rewrite app_nil_r, (lookup_ge_None_2 rs1) by lia. by exists o.
  - rewrite list_lookup_middle by done. cbn [fmap option_fmap option_map compose].
    rewrite decode_encode_value. cbn [unwrap mbind outcome_bind].
    destruct (read_record_latest era (record_value e) o) as [L1 L2].
    replace (S (length rs1)) with (length (rs1 ++ [e])) by (rewrite length_app; cbn; lia).
    assert (rs1 ++ e :: rs2 = (rs1 ++ [e]) ++ rs2) as Happ by by rewrite <- app_assoc.
    rewrite Happ in *.
    destruct (IH fuel (rs1 ++ [e]) j (read_record era (record_value e) o)) as (o' & E & Ho' & X & Y);
      [done..| |cbn in Hf; lia|].
    { rewrite <- push_put by done. by apply read_record_ok. }
    exists o'. split_and!; [done|done|congruence|congruence].
Qed.

(** *** All eras *)

(** A list of keys of the store is no longer than the store. *)
Lemma keys_bound {A : Type} (db : KeyValueDB) (f : A → Z * list byte) (l : list A) :
  NoDup l → (∀ x y, x ∈ l → y ∈ l → f x = f y → x = y) → (∀ x, x ∈ l → is_Some (db !! f x)) →
  length l ≤ size db.
Proof.
  intros Hnd Hinj Hdom. rewrite <- size_dom, <- (length_fmap f l).
  assert (NoDup (f <$> l)) as Hf.
  { clear Hdom. induction Hnd as [|x l Hx Hnd IH]; [constructor|]. rewrite fmap_cons. constructor.
    - intros (y & Ey & Hy)%list_elem_of_fmap. apply Hx. rewrite (Hinj x y); [done|left|by right|done].
    - apply IH. intros a b Ha Hb. apply Hinj; by right. }
  rewrite <- (size_list_to_set (C := gset (Z * list byte)) _ Hf). apply subseteq_size.
  intros y Hy. apply elem_of_list_to_set in Hy.
  apply list_elem_of_fmap in Hy as (x & -> & Hx). by apply elem_of_dom, Hdom.
Qed.

(** The journal and its records on disk. *)
Record journal_on_disk (j : Journal) (latest : option Z) (db : KeyValueDB) (col : Z) : Prop := {
  jd_records e i : (0 ≤ e)%Z →
    kv_get db col (encode_key e i) = encode_value ∘ record_value <$> default [] (j !! e) !! i;
  jd_latest : kv_get db col LATEST_ERA_KEY = (λ l, rlp_out [append_uint l]) <$> latest;
  jd_u64 l : latest = Some l → (0 ≤ l < 2 ^ 64)%Z;
  jd_nonempty e : j !! e ≠ Some [];
  jd_range e rs : j !! e = Some rs → ∃ l, latest = Some l ∧ (0 ≤ e ≤ l)%Z;
  jd_contiguous e e' l : latest = Some l → is_Some (j !! e) → (e ≤ e' ≤ l)%Z →
    is_Some (j !! e');
}.

Section Eras.
Context (j : Journal) (l0 : Z) (db : KeyValueDB) (col : Z).
Context (Hd : journal_on_disk j (Some l0) db col).

Definition above (e : Z) : Journal := filter (λ kv, (e < kv.1)%Z) j.
Definition below (e : Z) : Journal := filter (λ kv, (kv.1 ≤ e)%Z) j.

Lemma records_bound e rs : j !! e = Some rs → length rs ≤ size db.
Proof.
  intros E. destruct (jd_range _ _ _ _ Hd e rs E) as (l & _ & He).
  rewrite <- (length_seq (length rs) 0). apply (keys_bound db (λ i, (col, encode_key e i))).
  - apply NoDup_seq.
  - intros i i' _ _ [= Ek]. by apply encode_key_inj in Ek as [_ ?]; [|lia..].
  - intros i Hi%elem_of_seq. pose proof (jd_records _ _ _ _ Hd e i) as Hr. unfold kv_get in Hr.
    rewrite Hr, E by lia. cbn. destruct (lookup_lt_is_Some_2 rs i) as [r ->]; [lia|by eexists].
Qed.

Lemma eras_bound e : size (below e) ≤ size db.
Proof.
  rewrite <- length_map_to_list, <- (length_fmap fst).
  apply (keys_bound db (λ e, (col, encode_key e 0))).
  - apply NoDup_fst_map_to_list.
  - intros x y Hx Hy [= Ek].
    assert (∀ z, z ∈ (map_to_list (below e)).*1 → (0 ≤ z)%Z) as Hp.
    { intros z ([z' rs] & -> & Hz)%list_elem_of_fmap.
      apply elem_of_map_to_list, map_lookup_filter_Some in Hz as [Hz _].
      destruct (jd_range _ _ _ _ Hd _ _ Hz) as (l & _ & ?). cbn. lia. }
    by apply encode_key_inj in Ek as [? _]; [|apply Hp..].
  - intros x ([z rs] & -> & Hz)%list_elem_of_fmap. cbn.
    apply elem_of_map_to_list, map_lookup_filter_Some in Hz as [Hz _].
    destruct (jd_range _ _ _ _ Hd _ _ Hz) as (l & _ & ?).
    pose proof (jd_records _ _ _ _ Hd z 0) as Hr. unfold kv_get in Hr. rewrite Hr, Hz by lia.
    destruct rs as [|r rs]; [by destruct (jd_nonempty _ _ _ _ Hd z)|by eexists].
Qed.

Lemma above_step e : put_era e (default [] (j !! e)) (above e) = above (e - 1).
Proof.
  apply map_eq. intros x.
  assert (put_era e (default [] (j !! e)) (above e) !! x =
    if decide (x = e) then j !! e else above e !! x) as ->.
  { unfold put_era. pose proof (jd_nonempty _ _ _ _ Hd e) as Hne.
    destruct (j !! e) as [[|r rs]|] eqn:E; cbn; [done|..].
    - case_decide; [subst; by rewrite lookup_insert_eq|by rewrite lookup_insert_ne].
    - case_decide; [subst|done]. apply map_lookup_filter_None. by left. }
  unfold above. case_decide as Hx.
  - subst. destruct (j !! e) as [rs|] eqn:E.
    + symmetry. apply map_lookup_filter_Some. split; [done|cbn; lia].
    + symmetry. apply map_lookup_filter_None. by left.
  - rewrite !map_lookup_filter. destruct (j !! x); cbn; [|done].
    destruct (decide (e < x)%Z), (decide (e - 1 < x)%Z); rewrite ?option_guard_True, ?option_guard_False by lia; done || lia.
Qed.

Lemma above_all e : (∀ x, is_Some (j !! x) → (e < x)%Z) → above e = j.
Proof. intros Hx. apply map_filter_id. intros x rs E. apply Hx. by eexists. Qed.

Lemma below_step e rs : j !! e = Some rs → size (below e) = S (size (below (e - 1))).
Proof.
  intros E. assert (below e = <[e := rs]> (below (e - 1))) as ->.
  { apply map_eq. intros x. unfold below. destruct (decide (x = e)) as [->|Hne].
    - rewrite lookup_insert_eq. apply map_lookup_filter_Some. by split.
    - rewrite lookup_insert_ne, !map_lookup_filter by done. destruct (j !! x); cbn; [|done].
      destruct (decide (x ≤ e)%Z), (decide (x ≤ e - 1)%Z);
        rewrite ?option_guard_True, ?option_guard_False by lia; done || lia. }
  apply map_size_insert_None. apply map_lookup_filter_None. right. intros ? _. cbn. lia.
Qed.

Lemma read_eras_ok fuel : ∀ e o,
  (0 ≤ e ≤ l0)%Z → overlay_of (above e) o → size (below e) < fuel →
  ∃ o', read_eras fuel db col e o = Done o' ∧ overlay_of j o' ∧
    latest_era o' = latest_era o ∧ pending_overlay o' = pending_overlay o.
Proof.
  induction fuel as [|fuel IH]; intros e o He Ho Hf; [lia|]. cbn [read_eras].
  destruct (read_era_ok db col e (default [] (j !! e)) (S (size db)) [] (above e) o)
    as (o1 & E1 & Ho1 & L1 & P1).
  { intros i. apply (jd_records _ _ _ _ Hd). lia. }
  { apply map_lookup_filter_None. right. intros ? _. cbn. lia. }
  { done. }
  { destruct (j !! e) as [rs|] eqn:E; cbn; [|lia]. apply records_bound in E. lia. }
  cbn [length app] in E1. rewrite E1. cbn [mbind outcome_bind]. cbn [app] in Ho1.
  rewrite above_step in Ho1. destruct (j !! e) as [[|r rs]|] eqn:E; cbn [default from_option id length].
  { by destruct (jd_nonempty _ _ _ _ Hd e). }
  - cbn [Nat.eqb orb]. destruct (Z.eqb_spec e 0) as [->|Hne].
    + exists o1. split_and!; [done| |done..]. rewrite above_all in Ho1; [done|].
      intros x [rs' Hx]. destruct (jd_range _ _ _ _ Hd x rs' Hx) as (? & _ & ?). lia.
    + rewrite (below_step e _ E) in Hf.
      destruct (IH (e - 1)%Z o1) as (o' & E' & Ho' & L' & P'); [lia|done|lia|].
      exists o'. split_and!; [done..|congruence|congruence].
  - exists o1. cbn [Nat.eqb orb]. split_and!; [done| |done..].
    rewrite above_all in Ho1; [done|]. intros x Hx.
    destruct (decide (x ≤ e)%Z); [|lia].
    destruct (jd_contiguous _ _ _ _ Hd x e l0) as [rs' E']; [done..|lia|congruence].
Qed.
End Eras.

Lemma count_all_empty s : count_all s ∅ = 0.
Proof. done. Qed.

(** Reading gives back the journal and the overlay. *)
Lemma read_overlay_ok j latest db col :
  journal_on_disk j latest db col →
  ∃ o, read_overlay db col = Done o ∧ overlay_of j o ∧ latest_era o = latest ∧
    pending_overlay o = ∅.
Proof.
  intros Hd. unfold read_overlay. rewrite (jd_latest _ _ _ _ Hd).
  assert (∀ x y, overlay_of ∅ (mkOverlay mdb_new ∅ ∅ x y 0)) as Hnew.
  { intros x y. split; [done|]. apply overlay_counts_new. }
  destruct latest as [l|]; cbn [fmap option_fmap option_map].
  - pose proof (jd_u64 _ _ _ _ Hd l eq_refl) as Hl.
    change [append_uint l] with (item_ops (ItemUint l)). rewrite rlp_parse_out.
    cbn [item_tree unwrap mbind outcome_bind]. rewrite rlp_u64_uint by done.
    cbn [unwrap mbind outcome_bind].
    destruct (read_eras_ok j l db col Hd (S (size db)) l (mkOverlay mdb_new ∅ ∅ (Some l) None 0))
      as (o & E & Ho & L & P); [lia| |pose proof (eras_bound j l db col Hd l); lia|].
    { assert (above j l = ∅) as ->; [|apply Hnew]. apply map_empty. intros x.
      apply map_lookup_filter_None. right. intros rs E. destruct (jd_range _ _ _ _ Hd x rs E) as (l' & [= <-] & ?). cbn. lia. }
    by exists o.
  - eexists. split; [done|]. assert (j = ∅) as ->; [|done]. apply map_empty. intros e.
    destruct (j !! e) as [rs|] eqn:E; [|done].
    by destruct (jd_range _ _ _ _ Hd e rs E) as (? & [=] & _).
Qed.

(** ** Writing *)

Lemma kv_get_put db col k v k' :
  kv_get (kv_apply db (DBInsert col k v)) col k' =
  if decide (k' = k) then Some v else kv_get db col k'.
Proof.
  unfold kv_get, kv_apply. case_decide; [subst; by rewrite lookup_insert_eq|].
  by rewrite lookup_insert_ne by congruence.
Qed.

Lemma kv_get_delete db col k k' :
  kv_get (kv_apply db (DBDelete col k)) col k' =
  if decide (k' = k) then None else kv_get db col k'.
Proof.
  unfold kv_get, kv_apply. case_decide; [subst; by rewrite lookup_delete_eq|].
  by rewrite lookup_delete_ne by congruence.
Qed.

(** Operations on the keys of nodes. *)
Definition node_op (col : Z) (op : DBOp) : Prop :=
  ∃ h : H256, op = DBDelete col (h256_bytes h) ∨ ∃ v, op = DBInsert col (h256_bytes h) v.

Lemma kv_write_nodes batch : ∀ (db : KeyValueDB) col key,
  Forall (node_op col) batch → (∀ h : H256, key ≠ h256_bytes h) →
  kv_get (kv_write batch db) col key = kv_get db col key.
Proof.
  induction batch as [|op batch IH]; intros db col key Hb Hk; [done|].
  apply Forall_cons in Hb as [[h Hop] Hb].
  change (kv_write (op :: batch) db) with (kv_write batch (kv_apply db op)).
  rewrite IH by done. destruct Hop as [->|[v ->]].
  - by rewrite kv_get_delete, decide_False.
  - by rewrite kv_get_put, decide_False.
Qed.

Lemma on_disk_nodes j latest db col batch :
  Forall (node_op col) batch → journal_on_disk j latest db col →
  journal_on_disk j latest (kv_write batch db) col.
Proof.
  intros Hb [D1 D2 D3 D4 D5 D6]. split; try done.
  - intros e i He. rewrite kv_write_nodes; [by apply D1|done|]. apply encode_key_hash.
  - rewrite kv_write_nodes; [done..|]. apply latest_hash.
Qed.

(** *** A new record *)

(** The eras are numbered without gaps. *)
Definition next_era (j : Journal) (latest : option Z) (now : Z) : Prop :=
  (0 ≤ now < 2 ^ 64)%Z ∧
  match latest with
  | None => True
  | Some l => now = l ∨ now = (l + 1)%Z ∨ (j = ∅ ∧ (l < now)%Z)
  end.

Definition record_batch (col : Z) (j : Journal) (latest : option Z) (now : Z)
    (e : JournalEntry) : DBTransaction :=
  let newer := match latest with None => true | Some l => (l <? now)%Z end in
  DBInsert col (encode_key now (length (default [] (j !! now)))) (encode_value (record_value e)) ::
  if newer then [DBInsert col LATEST_ERA_KEY (rlp_out [append_uint now])] else [].

Definition new_latest (latest : option Z) (now : Z) : option Z :=
  if match latest with None => true | Some l => (l <? now)%Z end then Some now else latest.

Lemma record_batch_get j latest db col now e key :
  kv_get (kv_write (record_batch col j latest now e) db) col key =
  if decide (key = LATEST_ERA_KEY)
  then (if match latest with None => true | Some l => (l <? now)%Z end
        then Some (rlp_out [append_uint now]) else kv_get db col LATEST_ERA_KEY)
  else if decide (key = encode_key now (length (default [] (j !! now))))
  then Some (encode_value (record_value e)) else kv_get db col key.
Proof.
  unfold record_batch. set (newer := match latest with None => true | _ => _ end).
  set (k0 := encode_key _ _).
  assert (k0 ≠ LATEST_ERA_KEY) as Hk by apply encode_key_latest.
  destruct newer.
  - change (kv_write _ db) with (kv_apply (kv_apply db (DBInsert col k0 (encode_value (record_value e))))
      (DBInsert col LATEST_ERA_KEY (rlp_out [append_uint now]))).
    rewrite !kv_get_put. by destruct (decide (key = LATEST_ERA_KEY)).
  - change (kv_write _ db) with (kv_apply db (DBInsert col k0 (encode_value (record_value e)))).
    rewrite kv_get_put. destruct (decide (key = LATEST_ERA_KEY)) as [->|]; [|done].
    by rewrite decide_False.
Qed.

Lemma record_on_disk j latest db col now e :
  journal_on_disk j latest db col → next_era j latest now →
  journal_on_disk (push_entry now e j) (new_latest latest now)
    (kv_write (record_batch col j latest now e) db) col.
Proof.
  intros [D1 D2 D3 D4 D5 D6] [Hu Hnow]. unfold new_latest, push_entry.
  set (newer := match latest with None => true | _ => _ end).
  assert (∀ l, (if newer then Some now else latest) = Some l → (now ≤ l)%Z ∧
    ∀ l', latest = Some l' → (l' ≤ l)%Z) as Hle.
  { intros l. unfold newer. destruct latest as [l'|]; [|by intros [= <-]].
    destruct (Z.ltb_spec l' now); intros [= <-]; (split; [lia|]); intros ? [= <-]; lia. }
  split.
  - intros e' i He. rewrite record_batch_get, decide_False by apply encode_key_latest.
    destruct (decide (e' = now)) as [->|Hne].
    + rewrite lookup_insert_eq. cbn [default from_option id]. rewrite D1 by lia.
      set (rs := default [] (j !! now)). destruct (decide (i = length rs)) as [->|Hi].
      * by rewrite decide_True, list_lookup_middle.
      * rewrite decide_False by (intros Ek; apply encode_key_inj in Ek as [_ Ek]; [done|lia..]).
        destruct (decide (i < length rs)) as [Hlt|Hge].
        -- by rewrite lookup_app_l.
        -- rewrite lookup_ge_None_2, lookup_ge_None_2; [done|rewrite length_app; cbn; lia|lia].
    + rewrite decide_False by (intros Ek; apply encode_key_inj in Ek as [Ek _]; [done|lia..]).
      rewrite lookup_insert_ne by done. by apply D1.
  - rewrite record_batch_get, decide_True by done. fold newer. by destruct newer.
  - intros l. destruct newer; [by intros [= <-]|apply D3].
  - intros e'. destruct (decide (e' = now)) as [->|Hne].
    + rewrite lookup_insert_eq. by destruct (default [] (j !! now)).
    + by rewrite lookup_insert_ne.
  - intros e' rs E. destruct (if newer then Some now else latest) as [l|] eqn:El.
    + exists l. split; [done|]. destruct (Hle l eq_refl) as [Hn Hl].
      apply lookup_insert_Some in E as [[<- _]|[_ E]]; [lia|].
      destruct (D5 e' rs E) as (l' & Hl' & ?). specialize (Hl l' Hl'). lia.
    + exfalso. unfold newer in El. destruct latest; [|done]. by destruct (_ <? _)%Z.
  - intros e' e2 l El Hs Hb. destruct (decide (e2 = now)) as [->|Hne];
      [rewrite lookup_insert_eq; by eexists|]. rewrite lookup_insert_ne by done.
    unfold newer in El. destruct latest as [l'|]; [|injection El as <-].
    + assert (l' ≤ l ∧ (l = l' ∨ l = now))%Z as [Hll Hor].
      { destruct (Z.ltb_spec l' now); injection El as <-; lia. }
      apply lookup_insert_is_Some in Hs as [<-|[Hn' Hs]].
      * exfalso. destruct (Hle l El) as [? _]. destruct (Z.ltb_spec l' now); injection El as <-; lia.
      * destruct Hs as [rs Hs]. destruct (D5 e' rs Hs) as (? & [= <-] & ?).
        apply (D6 e' e2 l'); [done|by eexists|]. destruct Hnow as [->|[->|[-> _]]]; [lia|lia|].
        by rewrite lookup_empty in Hs.
    + apply lookup_insert_is_Some in Hs as [<-|[Hn' [rs Hs]]]; [lia|].
      by destruct (D5 e' rs Hs) as (? & [=] & _).
Qed.

(** *** Dropped records *)

Definition drop_batch (col end_era : Z) (n : nat) : DBTransaction :=
  (λ i, DBDelete col (encode_key end_era i)) <$> seq 0 n.

Lemma drop_batch_get col end_era n key : ∀ (db : KeyValueDB),
  kv_get (kv_write (drop_batch col end_era n) db) col key =
  if decide (key ∈ encode_key end_era <$> seq 0 n) then None else kv_get db col key.
Proof.
  induction n as [|n IH]; intros db; [done|].
  unfold drop_batch. rewrite seq_S, !fmap_app, kv_write_app. cbn [fmap list_fmap].
  change (kv_write [?x] ?y) with (kv_apply y x). rewrite kv_get_delete.
  change ((λ i, DBDelete col (encode_key end_era i)) <$> seq 0 n) with (drop_batch col end_era n).
  rewrite IH. cbn [Nat.add]. destruct (decide (key = encode_key end_era n)) as [->|Hne].
  - rewrite decide_True; [done|]. set_solver.
  - destruct (decide (key ∈ encode_key end_era <$> seq 0 n)) as [Hin|Hn].
    + rewrite decide_True; [done|]. set_solver.
    + rewrite decide_False; [done|]. set_solver.
Qed.

Lemma drop_on_disk j latest db col end_era rs :
  journal_on_disk j latest db col → j !! end_era = Some rs →
  (∀ e, is_Some (j !! e) → (end_era ≤ e)%Z) →
  journal_on_disk (delete end_era j) latest (kv_write (drop_batch col end_era (length rs)) db) col.
Proof.
  intros [D1 D2 D3 D4 D5 D6] Hrs Hmin. destruct (D5 _ _ Hrs) as (l0 & Hl0 & Hend). split.
  - intros e i He. rewrite drop_batch_get. destruct (decide (e = end_era)) as [->|Hne].
    + rewrite lookup_delete_eq. cbn. destruct (decide _) as [|Hn]; [done|].
      rewrite D1, Hrs by done. cbn. rewrite lookup_ge_None_2; [done|].
      destruct (decide (length rs ≤ i)); [done|]. destruct Hn.
      apply list_elem_of_fmap_2, elem_of_seq. lia.
    + rewrite lookup_delete_ne by done. rewrite decide_False; [by apply D1|].
      intros (i' & Ek & _)%list_elem_of_fmap. apply encode_key_inj in Ek as [Ek _]; [done|lia..].
  - rewrite drop_batch_get, decide_False; [done|]. intros (i & Ek & _)%list_elem_of_fmap.
    by destruct (encode_key_latest end_era i).
  - done.
  - intros e. destruct (decide (e = end_era)) as [->|]; [by rewrite lookup_delete_eq|].
    by rewrite lookup_delete_ne.
  - intros e rs' [_ E]%lookup_delete_Some. by eapply D5.
  - intros e e' l El [rs' [Hne E]%lookup_delete_Some] Hb.
    specialize (Hmin e (mk_is_Some _ _ E)). rewrite lookup_delete_ne by lia.
    apply (D6 e e' l); [done|by eexists|done].
Qed.

Lemma prune_records_ok col end_era canon_id overlay rs : ∀ batch index ci cd od,
  ∃ ci' cd', foldl (prune_record col end_era canon_id overlay) (batch, index, ci, cd, od) rs =
    (batch ++ ((λ i, DBDelete col (encode_key end_era i)) <$> seq index (length rs)),
     index + length rs, ci', cd', od ++ entries_keys rs).
Proof.
  induction rs as [|r rs IH]; intros batch index ci cd od; cbn [foldl length seq fmap list_fmap].
  { exists ci, cd. unfold entries_keys. cbn. by rewrite !app_nil_r, Nat.add_0_r. }
  unfold prune_record at 2.
  destruct (if decide (canon_id = je_id r) then _ else _) as [ci1 cd1].
  destruct (IH (kv_delete col (encode_key end_era index) batch) (S index) ci1 cd1
    (od ++ je_insertions r)) as (ci' & cd' & ->). exists ci', cd'. unfold kv_delete, entries_keys.
  cbn [fmap list_fmap]. rewrite <- !app_assoc. cbn. repeat f_equal. lia.
Qed.

Lemma node_puts col (l : list (H256 * DBValue)) : ∀ batch,
  ∃ ops, foldl (λ batch kv, kv_put col (h256_bytes kv.1) kv.2 batch) batch l = batch ++ ops ∧
    Forall (node_op col) ops.
Proof.
  induction l as [|kv l IH]; intros batch; cbn.
  { exists []. by rewrite app_nil_r. }
  destruct (IH (kv_put col (h256_bytes kv.1) kv.2 batch)) as (ops & -> & Hops).
  eexists. unfold kv_put. rewrite <- app_assoc. split; [done|]. constructor; [|done].
  exists kv.1. right. by eexists.
Qed.

Lemma node_deletes col (P : H256 → bool) (l : list H256) : ∀ batch,
  ∃ ops, foldl (λ batch k, if P k then batch else kv_delete col (h256_bytes k) batch) batch l =
      batch ++ ops ∧ Forall (node_op col) ops.
Proof.
  induction l as [|k l IH]; intros batch; cbn.
  { exists []. by rewrite app_nil_r. }
  destruct (P k); [apply IH|].
  destruct (IH (kv_delete col (h256_bytes k) batch)) as (ops & -> & Hops).
  eexists. unfold kv_delete. rewrite <- app_assoc. split; [done|]. constructor; [|done].
  exists k. by left.
Qed.

Lemma count_entries s j e rs : j !! e = Some rs → count s (entries_keys rs) ≤ count_all s j.
Proof. intros E. rewrite (count_all_delete s j e rs E). lia. Qed.

(** The state of a database whose batch is not yet written. *)
Record pending_ok (batch : DBTransaction) (d : OverlayRecentDB) : Prop := {
  po_disk : journal_on_disk (jo_journal (journal_overlay d)) (latest_era (journal_overlay d))
    (kv_write batch (backing d)) (column d);
  po_overlay : overlay_of (jo_journal (journal_overlay d)) (journal_overlay d);
  po_tx k v rc : mdb_data (transaction_overlay d) !! k = Some (v, rc) → (0 < rc)%Z →
    v = content (to_short_key k);
}.

(** Only the oldest era may be marked. *)
Definition oldest_era (j : Journal) (end_era : Z) : Prop :=
  ∀ e, is_Some (j !! e) → (end_era ≤ e)%Z.

Lemma mark_canonical_ok batch end_era canon_id d :
  pending_ok batch d → oldest_era (jo_journal (journal_overlay d)) end_era →
  let '(batch', d', _) := mark_canonical batch end_era canon_id d in pending_ok batch' d'.
Proof.
  intros [Hd [_ Ho] Htx] Hold. unfold mark_canonical. set (o := journal_overlay d) in *.
  destruct (jo_journal o !! end_era) as [rs|] eqn:Ers; cycle 1.
  { split; cbn; rewrite ?delete_id by done; done. }
  destruct (prune_records_ok (column d) end_era canon_id (backing_overlay o) rs batch 0 [] [] [])
    as (ci & cd & ->). cbn [app Nat.add].
  destruct (node_puts (column d) ci
    (batch ++ ((λ i, DBDelete (column d) (encode_key end_era i)) <$> seq 0 (length rs))))
    as (ops1 & -> & Hops1).
  pose proof (purges_counts content short_null (entries_keys rs) _ _ Ho
    (λ s, count_entries s _ _ _ Ers)) as Hp.
  destruct (foldl purge_node _ _) as [m z].
  destruct (node_deletes (column d) (λ k, mdb_contains m (to_short_key k)) cd
    ((batch ++ ((λ i, DBDelete (column d) (encode_key end_era i)) <$> seq 0 (length rs))) ++ ops1))
    as (ops2 & -> & Hops2).
  split; cbn; [| |done].
  - rewrite <- !app_assoc, !kv_write_app. do 2 (apply on_disk_nodes; [done|]).
    by apply drop_on_disk.
  - split; [done|]. eapply overlay_counts_ext; [|exact Hp]. intros s. cbn.
    rewrite (count_all_delete s _ _ _ Ers). lia.
Qed.

Lemma journal_under_ok batch now id d :
  pending_ok batch d →
  next_era (jo_journal (journal_overlay d)) (latest_era (journal_overlay d)) now →
  let '(batch', d', _) := journal_under batch now id d in
  pending_ok batch' d' ∧ pending_overlay (journal_overlay d') = ∅ ∧
  mdb_data (transaction_overlay d') = ∅ ∧ backing d' = backing d ∧ column d' = column d.
Proof.
  intros [Hd [_ Ho] Htx] Hnow. unfold journal_under. set (o := journal_overlay d) in *.
  destruct (mdb_drain_data (transaction_overlay d)) as [Htx1 Htx2].
  destruct (mdb_drain (transaction_overlay d)) as [tx transaction]. cbn [fst snd] in Htx1, Htx2.
  subst tx. set (tx := mdb_data (transaction_overlay d)) in *.
  set (ins := filter (λ e, (0 < e.2.2)%Z) (hash_iter tx)).
  set (entry := mkJournalEntry id ins.*1 (filter (λ e, (e.2.2 < 0)%Z) (hash_iter tx)).*1).
  assert ((λ e : H256 * (DBValue * Z), (e.1, e.2.1)) <$> ins = dv_inserts (record_value entry))
    as Hins.
  { cbn. rewrite <- list_fmap_compose. apply list_fmap_ext. intros i [k [v rc]] Hi. cbn.
    apply list_elem_of_lookup_2, list_elem_of_filter in Hi as [Hrc Hi].
    apply elem_of_hash_iter in Hi. by rewrite (Htx _ _ _ Hi Hrc). }
  rewrite Hins. destruct (record_value_ok entry) as [Hv Hk].
  pose proof (emplaces_counts content content_null short_null _ _ _ Ho Hv) as He.
  rewrite Hk in He. destruct (foldl emplace_node _ _) as [m z].
  pose proof (record_on_disk _ _ _ _ now entry Hd Hnow) as Hdisk.
  split_and!; [|done..]. split; cbn.
  - rewrite <- kv_write_app in Hdisk. unfold new_latest, record_batch, kv_put in *.
    replace (match jo_journal o !! now with Some j => length j | None => 0 end)
      with (length (default [] (jo_journal o !! now))) by by destruct (jo_journal o !! now).
    destruct (match latest_era o with None => true | _ => _ end); [by rewrite <- app_assoc|done].
  - split; [done|]. eapply overlay_counts_ext; [|exact He]. intros s. cbn beta.
    by rewrite count_all_push.
  - intros k v rc. cbn in Htx2. by rewrite Htx2, lookup_empty.
Qed.

(** The record that is added, and the keys that are written. *)
Lemma journal_under_shape batch now id d :
  let tx := (mdb_drain (transaction_overlay d)).1 in
  let '(batch', d', _) := journal_under batch now id d in
  jo_journal (journal_overlay d') =
    push_entry now (mkJournalEntry id (filter (λ e, (0 < e.2.2)%Z) (hash_iter tx)).*1
      (filter (λ e, (e.2.2 < 0)%Z) (hash_iter tx)).*1) (jo_journal (journal_overlay d)) ∧
  latest_era (journal_overlay d') = new_latest (latest_era (journal_overlay d)) now ∧
  ∃ ops, batch' = batch ++ ops ∧
    Forall (λ op, ∃ k v, op = DBInsert (column d) k v ∧ ∀ h : H256, k ≠ h256_bytes h) ops.
Proof.
  unfold journal_under. destruct (mdb_drain _) as [tx transaction]. cbn [fst].
  destruct (foldl _ _ _) as [m z]. split_and!; [done..|]. unfold kv_put.
  destruct (match latest_era _ with None => true | _ => _ end).
  - rewrite <- app_assoc. eexists. split; [done|].
    constructor; [|constructor; [|constructor]]; eexists _, _; (split; [done|]).
    + apply encode_key_hash.
    + apply latest_hash.
  - eexists. split; [done|]. constructor; [|constructor]. eexists _, _. split; [done|].
    apply encode_key_hash.
Qed.

(** ** The states of a journal database *)

(** A database that is not in the middle of a commit. *)
Record journal_ok (d : OverlayRecentDB) : Prop := {
  jk_ok : pending_ok [] d;
  jk_pending : pending_overlay (journal_overlay d) = ∅;
}.

Inductive journal_reachable : OverlayRecentDB → Prop :=
| reach_new col d : overlay_new ∅ col = Done d → journal_reachable d
| reach_reopen d d' : journal_reachable d → overlay_new (backing d) (column d) = Done d' →
    journal_reachable d'
| reach_emplace d key value : journal_reachable d → value = content (to_short_key key) →
    journal_reachable (overlay_emplace key value d)
| reach_remove d key : journal_reachable d → journal_reachable (overlay_remove key d)
| reach_commit d now id end' : journal_reachable d →
    next_era (jo_journal (journal_overlay d)) (latest_era (journal_overlay d)) now →
    match end' with
    | Some (end_era, _) => (end_era ≤ now)%Z ∧ oldest_era (jo_journal (journal_overlay d)) end_era
    | None => True
    end →
    journal_reachable (commit_batch now id end' d).1.

Lemma journal_ok_new (db : KeyValueDB) col d :
  (∃ j latest, journal_on_disk j latest db col) → overlay_new db col = Done d → journal_ok d.
Proof.
  intros (j & latest & Hd) E. destruct (read_overlay_ok j latest db col Hd) as (o & Er & Ho & Hl & Hp).
  unfold overlay_new in E. rewrite Er in E. injection E as <-. pose proof (proj1 Ho) as Hj.
  split; [|done]. split; cbn; [by rewrite Hj, Hl|by rewrite Hj|].
  intros k v rc. by rewrite mdb_data_new, lookup_empty.
Qed.

Lemma journal_on_disk_empty col : journal_on_disk ∅ None ∅ col.
Proof. by split. Qed.

Lemma journal_ok_write batch d :
  pending_ok batch d → journal_ok (flush (write_batch batch d)).
Proof. intros [D [O1 O2] T]. split; [|done]. by split. Qed.

Lemma commit_batch_ok now id end' d :
  journal_ok d →
  next_era (jo_journal (journal_overlay d)) (latest_era (journal_overlay d)) now →
  match end' with
  | Some (end_era, _) => (end_era ≤ now)%Z ∧ oldest_era (jo_journal (journal_overlay d)) end_era
  | None => True
  end →
  journal_ok (commit_batch now id end' d).1.
Proof.
  intros [Hok _] Hnow Hend. unfold commit_batch.
  pose proof (journal_under_ok [] now id d Hok Hnow) as Hj.
  pose proof (journal_under_shape [] now id d) as Hjo.
  destruct (journal_under [] now id d) as [[batch d1] ops]. destruct Hj as (Hp & _).
  destruct Hjo as (Hjo & _). destruct end' as [[end_era canon_id]|]; [|by apply journal_ok_write].
  pose proof (mark_canonical_ok batch end_era canon_id d1 Hp) as Hm.
  destruct (mark_canonical _ _ _ d1) as [[batch2 d2] n]. cbn. apply journal_ok_write, Hm.
  destruct Hend as [Hle Hold]. rewrite Hjo. intros e He. unfold push_entry in He.
  apply lookup_insert_is_Some in He as [<-|[_ He]]; [done|by apply Hold].
Qed.

Lemma reachable_ok d : journal_reachable d → journal_ok d.
Proof.
  induction 1 as [col d E|d d' _ IH E|d key value _ IH ->|d key _ IH|d now id end' _ IH Hn He].
  - eapply journal_ok_new, E. eexists _, _. apply journal_on_disk_empty.
  - eapply journal_ok_new, E. eexists _, _. apply IH.
  - destruct IH as [[D O T] P]. split; [|done]. split; [done..|]. cbn. intros k v rc.
    rewrite mdb_emplace_data, decide_False by done.
    intros [[<- E]|[_ E]]%lookup_insert_Some Hrc; [|by eapply T].
    destruct (mdb_data (transaction_overlay d) !! key) as [[w rc']|] eqn:Ew; [|by injection E as <- <-].
    injection E as <- <-. destruct (Z.leb_spec rc' 0); [done|]. by eapply T.
  - destruct IH as [[D O T] P]. split; [|done]. split; [done..|]. cbn. intros k v rc.
    rewrite mdb_remove_data. destruct (decide (key = KECCAK_NULL_RLP)); [apply T|].
    intros [[<- E]|[_ E]]%lookup_insert_Some Hrc; [|by eapply T].
    destruct (mdb_data (transaction_overlay d) !! key) as [[w rc']|] eqn:Ew.
    + injection E as <- <-. eapply T; [done|lia].
    + injection E as <- <-. lia.
  - by apply commit_batch_ok.
Qed.

(** What a database finds without the changes since the last commit. *)
Definition committed_get (key : H256) (d : OverlayRecentDB) : option DBValue :=
  overlay_get key (set_transaction mdb_new d).

(** C34: In every state a journal database reaches by insertions, removals, commits and restarts,
    its records on disk can be read back: opening the store again does not panic and gives the
    journal, the latest era, the reference counts and the size the database has, and finds under
    each key what was committed.  The earliest era is not restored in general: a database that has
    pruned its last era in memory still knows it, the opened one has none.  The eras are committed
    in order without gaps and the oldest one is pruned first, and nodes are stored under keys that
    determine them. *)
Theorem journal_reopens (d : OverlayRecentDB) :
  journal_reachable d →
  ∃ d', overlay_new (backing d) (column d) = Done d' ∧
    jo_journal (journal_overlay d') = jo_journal (journal_overlay d) ∧
    latest_era (journal_overlay d') = latest_era (journal_overlay d) ∧
    mdb_data (backing_overlay (journal_overlay d')) = mdb_data (backing_overlay (journal_overlay d)) ∧
    cumulative_size (journal_overlay d') = cumulative_size (journal_overlay d) ∧
    ∀ key, overlay_get key d' = committed_get key d.
Proof.
  intros [[Hd [_ Ho] Htx] Hp]%reachable_ok.
  destruct (read_overlay_ok _ _ _ _ Hd) as (o & E & [Hj Ho'] & Hl & Hp').
  exists (mkOverlayDB mdb_new (backing d) o (column d)). unfold overlay_new.
  cbn in E. rewrite E. split; [done|]. cbn.
  destruct (overlay_counts_unique content _ _ _ Ho' Ho) as [Hdata Hsize]. cbn in Hdata, Hsize.
  split_and!; [done..|]. intros key. unfold committed_get, overlay_get. cbn.
  by rewrite !mdb_get_data, Hdata, Hp, Hp'.
Qed.
End Reading.

(** ** Example *)

#[global] Instance rlp_op_eq_dec : EqDecision RlpOp.
Proof. solve_decision. Defined.
#[global] Program Instance rlp_op_countable : Countable RlpOp :=
  inj_countable' (λ op, match op with
    | begin_list n => inl n | append_uint z => inr (inl z) | append_bytes bs => inr (inr bs) end)
    (λ x, match x with
    | inl n => begin_list n | inr (inl z) => append_uint z | inr (inr bs) => append_bytes bs end) _.
Next Obligation. by intros []. Qed.

(** An encoding that can be parsed: the calls, encoded twice and followed by one byte. *)
Definition journal_rlp : Rlp := λ ops,
  bits_of (encode ops) ++ bits_of (encode ops) ++ ["000"%byte].

Definition example_uint (z : Z) : list byte := bits_of (encode z).

Fixpoint parse_list (parse : list RlpOp → option (RlpTree * list RlpOp)) (n : nat)
    (acc : list RlpTree) (ops : list RlpOp) : option (RlpTree * list RlpOp) :=
  match n with
  | 0 => Some (RlpList acc, ops)
  | S n => '(t, ops) ← parse ops; parse_list parse n (acc ++ [t]) ops
  end.

Fixpoint parse_item (fuel : nat) (ops : list RlpOp) : option (RlpTree * list RlpOp) :=
  match fuel, ops with
  | S fuel, append_uint z :: ops => Some (RlpData (example_uint z), ops)
  | S fuel, append_bytes bs :: ops => Some (RlpData bs, ops)
  | S fuel, begin_list n :: ops => parse_list (parse_item fuel) n [] ops
  | _, _ => None
  end.

Definition journal_rlp_decode : RlpDecode := {|
  rlp_parse bs :=
    ops ← decode (of_bits (take ((length bs - 1) / 2) bs));
    fst <$> parse_item (length ops) ops;
  rlp_u64 bs := decode (of_bits bs);
|}.

Lemma parse_item_ops fuel : ∀ t rest, length (item_ops t) ≤ fuel →
  parse_item fuel (item_ops t ++ rest) = Some (item_tree example_uint t, rest).
Proof.
  induction fuel as [|fuel IH]; intros t rest Hl; [by destruct t; cbn in Hl; lia|].
  destruct t as [z|bs|l]; [done..|]. cbn [item_ops item_tree app parse_item].
  cbn [item_ops length] in Hl. apply le_S_n in Hl.
  assert (∀ acc, parse_list (parse_item fuel) (length l) acc (concat (map item_ops l) ++ rest) =
    Some (RlpList (acc ++ map (item_tree example_uint) l), rest)) as Hgo; [|apply Hgo].
  induction l as [|x l IHl]; intros acc; cbn; [by rewrite app_nil_r|].
  cbn in Hl. rewrite length_app in Hl. rewrite <- app_assoc, IH by lia. cbn.
  rewrite IHl by lia. by rewrite <- app_assoc.
Qed.

Lemma journal_rlp_laws : RlpLaws (H := journal_rlp) (H0 := journal_rlp_decode).
Proof.
  assert (∀ ops, take ((length (journal_rlp ops) - 1) / 2) (journal_rlp ops) = bits_of (encode ops))
    as Ht.
  { intros ops. unfold journal_rlp. rewrite !length_app. cbn [length].
    replace (_ + (_ + 1) - 1) with (length (bits_of (encode ops)) * 2) by lia.
    rewrite Nat.div_mul by done. apply take_app_length. }
  refine {| rlp_uint := example_uint |}.
  - intros z1 z2 _ _ E. apply (f_equal of_bits) in E. unfold example_uint in E.
    rewrite !of_bits_of in E. by apply (inj encode) in E.
  - intros z _. cbn. unfold example_uint. by rewrite of_bits_of, decode_encode.
  - intros t. cbn [rlp_parse journal_rlp_decode]. unfold rlp_out. rewrite Ht, of_bits_of, decode_encode.
    cbn. rewrite <- (app_nil_r (item_ops t)) at 2. by rewrite parse_item_ops.
  - intros era index. unfold encode_key, rlp_out, journal_rlp. rewrite !length_app. cbn [length].
    unfold DB_PREFIX_LEN. lia.
Defined.

Definition example_memory_db : MemoryDb := {|
  memory_db := gmap H256 (DBValue * Z);
  mdb_new := ∅;
  mdb_raw m k := if decide (k = KECCAK_NULL_RLP (H := example_keccak))
                 then Some (NULL_RLP, 1%Z) else m !! k;
  mdb_get m k := if decide (k = KECCAK_NULL_RLP (H := example_keccak)) then Some NULL_RLP
                 else match m !! k with
                      | Some (v, rc) => if (0 <? rc)%Z then Some v else None
                      | None => None
                      end;
  mdb_contains m k := bool_decide (is_Some (
    if decide (k = KECCAK_NULL_RLP (H := example_keccak)) then Some NULL_RLP
    else match m !! k with
         | Some (v, rc) => if (0 <? rc)%Z then Some v else None
         | None => None
         end));
  mdb_emplace k v m :=
    if decide (v = NULL_RLP) then m
    else <[k := match m !! k with
                | Some (w, rc) => (if (rc <=? 0)%Z then v else w, (rc + 1)%Z)
                | None => (v, 1%Z)
                end]> m;
  mdb_remove k m :=
    if decide (k = KECCAK_NULL_RLP (H := example_keccak)) then m
    else <[k := match m !! k with
                | Some (w, rc) => (w, (rc - 1)%Z)
                | None => ([], (-1)%Z)
                end]> m;
  mdb_remove_and_purge k m :=
    match m !! k with
    | Some (w, rc) => if (rc =? 1)%Z then (Some w, delete k m) else (None, <[k := (w, (rc - 1)%Z)]> m)
    | None => (None, <[k := ([], (-1)%Z)]> m)
    end;
  mdb_drain m := (m, ∅);
  mdb_consolidate m1 m2 := m1 ∪ m2;
  mdb_keys m := snd <$> m;
|}.

Lemma example_memory_laws : MemoryDbLaws (H := example_keccak) (H0 := example_memory_db).
Proof.
  refine {| mdb_data (m : memory_db (MemoryDb := example_memory_db)) := m |}; try done.
  intros k m _. change (gmap H256 (DBValue * Z)) in m. cbn.
  generalize (m !! k). intros [[w rc]|]; [|done]. by destruct (rc =? 1)%Z.
Defined.

Section Witnesses.
#[local] Existing Instances example_keccak journal_rlp journal_rlp_decode journal_rlp_laws
  example_memory_db example_memory_laws example_hash_order.

Definition example_content (_ : H256) : DBValue := ["001"%byte].

Lemma example_content_null s : example_content s ≠ NULL_RLP.
Proof. intros E. discriminate E. Qed.

Lemma example_short_null k : to_short_key k ≠ KECCAK_NULL_RLP.
Proof.
  intros E. apply (f_equal (λ h, h256_bytes h !! 31)) in E. cbn [to_short_key h256_bytes] in E.
  rewrite lookup_app_r in E by (rewrite length_take, h256_len; cbn; lia).
  rewrite length_take, h256_len in E. by vm_compute in E.
Qed.

Definition example_journal : OverlayRecentDB :=
  (commit_batch 0 (h256 0) None (overlay_emplace (h256 5) ["001"%byte]
    (mkOverlayDB mdb_new ∅ (mkOverlay mdb_new ∅ ∅ None None 0) 0))).1.

(** A node that was committed is found after the store is opened again. *)
Lemma journal_reopens_witness :
  ∃ d', overlay_new (backing example_journal) (column example_journal) = Done d' ∧
    overlay_get (h256 5) d' = Some ["001"%byte].
Proof.
  destruct (journal_reopens example_content example_content_null example_short_null example_journal)
    as (d' & E & _ & _ & _ & _ & Hget).
  { apply reach_commit; [|done..]. apply reach_emplace; [|done]. by apply (reach_new _ 0). }
  exists d'. split; [exact E|]. rewrite Hget. by vm_compute.
Defined.
End Witnesses.
