(* ===== verification/StateDb.v ===== *)
(** * The backend of the state

    [src/parity-ethereum/ethcore/state-db/src/lib.rs]: a journal database with a cache of code,
    a cache of accounts shared by the states of one chain, and the filter of account
    addresses, which is kept in a column of the key-value store.  The journal database is any
    implementation of the trait [JournalDB].  A [StateDB] is not cloned by the node, so the
    caches it shares with its clones are fields here. *)

From Stdlib Require Import String.
From S2P Require Import Prelude Hash Transaction Account State World KeyValue Bloom.

(** ** Constants *)

(** [COL_ACCOUNT_BLOOM] of [ethcore/db/src/db.rs]. *)
Definition COL_ACCOUNT_BLOOM : Z := 5.

Definition ACCOUNT_BLOOM_SPACE : nat := Z.to_nat 1048576.
Definition DEFAULT_ACCOUNT_PRESET : nat := Z.to_nat 1000000.
Definition ACCOUNT_BLOOM_HASHCOUNT_KEY : list byte :=
  list_byte_of_string "account_hash_count".
Definition STATE_CACHE_BLOCKS : nat := 12.
Definition ACCOUNT_CACHE_RATIO : Z := 90.

(** ** The filter on disk *)

Section Filter.
Context `{HashOrder} (optimal_k_num : Z → nat → Z).

Definition word_key (i : Z) : list byte := to_le_bytes 8 i.

Definition load_word (db : KeyValueDB) (i : Z) : Outcome Z :=
  match kv_get db COL_ACCOUNT_BLOOM (word_key i) with
  | Some val => if length val =? 8 then Done (from_le_bytes val) else Panic
  | None => Done 0%Z
  end.

Definition load_bloom (db : KeyValueDB) : Outcome Bloom :=
  match kv_get db COL_ACCOUNT_BLOOM ACCOUNT_BLOOM_HASHCOUNT_KEY with
  | None => bloom_new optimal_k_num ACCOUNT_BLOOM_SPACE DEFAULT_ACCOUNT_PRESET
  | Some [hash_count] =>
      bloom_parts ← mapO (load_word db) (range 0 (Z.of_nat ACCOUNT_BLOOM_SPACE / 8));
      Done (bloom_from_parts bloom_parts (Z_of_byte hash_count))
  | Some _ => Panic
  end.

(** The argument is a [BloomJournal]: the number of hash functions and the changed words. *)
Definition commit_bloom (batch : DBTransaction) (hash_functions : Z)
    (entries : list (nat * Z)) : Outcome DBTransaction :=
  if (hash_functions <=? 255)%Z then
    let batch := kv_put COL_ACCOUNT_BLOOM ACCOUNT_BLOOM_HASHCOUNT_KEY
                   [byte_of_Z hash_functions] batch in
    Done (foldl (λ batch '(bloom_part_index, bloom_part_value),
            kv_put COL_ACCOUNT_BLOOM (word_key (Z.of_nat bloom_part_index))
              (to_le_bytes 8 bloom_part_value) batch) batch entries)
  else Panic.
End Filter.

(** ** [JournalDB]

    What a state database uses of the trait: the hash database it is, and the batch with the
    changes to it. *)
Class JournalDB `{TrieDatabase} (J : Type) := {
  journal_hash_db : J → hash_db;
  journal_set_hash_db : hash_db → J → J;
  journal_backing : J → KeyValueDB;
  journal_journal_under : DBTransaction → Z → H256 → J → DBTransaction * J * Z;
  journal_mark_canonical : DBTransaction → Z → H256 → J → DBTransaction * J * Z;
}.

(** ** [StateDB] *)

Section StateDb.
Context `{Keccak} `{!LruCache H256 H256} `{TrieDatabase} `{HashOrder}.
Context `{!LruCache Address (option Account)} `{!LruCache H256 (list byte)}.
Context `{!SipHash (list byte)} (optimal_k_num : Z → nat → Z) (size_of_account : Z).
Context {J : Type} `{!JournalDB J}.

Record BlockChanges := mkBlockChanges {
  bc_number : Z;
  bc_hash : H256;
  bc_parent : H256;
  bc_accounts : gset Address;
  bc_is_canon : bool;
}.

Record AccountCache := mkAccountCache {
  ac_accounts : lru Address (option Account);
  ac_modifications : list BlockChanges;
}.

Record CacheQueueItem := mkQueueItem {
  cq_address : Address;
  cq_account : option Account;
  cq_modified : bool;
}.

Record StateDB := mkStateDB {
  sdb_db : J;
  account_cache : AccountCache;
  sdb_code_cache : lru H256 (list byte);
  local_cache : list CacheQueueItem;
  account_bloom : Bloom;
  cache_size : Z;
  parent_hash : option H256;
  commit_hash : option H256;
  commit_number : option Z;
}.

Definition set_sdb_db (db : J) (self : StateDB) : StateDB :=
  mkStateDB db (account_cache self) (sdb_code_cache self) (local_cache self)
    (account_bloom self) (cache_size self) (parent_hash self) (commit_hash self)
    (commit_number self).
Definition set_account_cache (c : AccountCache) (self : StateDB) : StateDB :=
  mkStateDB (sdb_db self) c (sdb_code_cache self) (local_cache self) (account_bloom self)
    (cache_size self) (parent_hash self) (commit_hash self) (commit_number self).
Definition set_sdb_code_cache (c : lru H256 (list byte)) (self : StateDB) : StateDB :=
  mkStateDB (sdb_db self) (account_cache self) c (local_cache self) (account_bloom self)
    (cache_size self) (parent_hash self) (commit_hash self) (commit_number self).
Definition set_local_cache (l : list CacheQueueItem) (self : StateDB) : StateDB :=
  mkStateDB (sdb_db self) (account_cache self) (sdb_code_cache self) l (account_bloom self)
    (cache_size self) (parent_hash self) (commit_hash self) (commit_number self).
Definition set_account_bloom (b : Bloom) (self : StateDB) : StateDB :=
  mkStateDB (sdb_db self) (account_cache self) (sdb_code_cache self) (local_cache self) b
    (cache_size self) (parent_hash self) (commit_hash self) (commit_number self).
Definition set_accounts (a : lru Address (option Account)) (c : AccountCache) : AccountCache :=
  mkAccountCache a (ac_modifications c).

(** [StateDB::new]. *)
Definition state_db_new (db : J) (cache_size : Z) : Outcome StateDB :=
  bloom ← load_bloom optimal_k_num (journal_backing db);
  let acc_cache_size := (cache_size * ACCOUNT_CACHE_RATIO / 100)%Z in
  let code_cache_size := (cache_size - acc_cache_size)%Z in
  let cache_items := (acc_cache_size / size_of_account)%Z in
  Done (mkStateDB db (mkAccountCache (lru_new (Z.to_nat cache_items)) [])
          (lru_new (Z.to_nat code_cache_size)) [] bloom cache_size None None None).

Definition sdb_journal_under (batch : DBTransaction) (now : Z) (id : H256) (self : StateDB) :
    Outcome (DBTransaction * StateDB * Z) :=
  '(hash_functions, entries, bloom) ← drain_journal (account_bloom self);
  batch ← commit_bloom batch hash_functions entries;
  let '(batch, db, records) := journal_journal_under batch now id (sdb_db self) in
  Done (batch,
        mkStateDB db (account_cache self) (sdb_code_cache self) (local_cache self) bloom
          (cache_size self) (parent_hash self) (Some id) (Some now), records).

Definition sdb_mark_canonical (batch : DBTransaction) (end_era : Z) (canon_id : H256)
    (self : StateDB) : DBTransaction * StateDB * Z :=
  let '(batch, db, ops) := journal_mark_canonical batch end_era canon_id (sdb_db self) in
  (batch, set_sdb_db db self, ops).

(** *** The shared account cache *)

(** One block of the two loops of [sync_cache]: the mark of the first entry with its hash is
    set and its accounts are removed from the cache; nothing if there is no such entry. *)
Fixpoint mark_block (is_canon : bool) (block : H256) (l : list BlockChanges) :
    option (gset Address * list BlockChanges) :=
  match l with
  | [] => None
  | m :: l =>
      if decide (bc_hash m = block)
      then Some (bc_accounts m,
                 mkBlockChanges (bc_number m) (bc_hash m) (bc_parent m) (bc_accounts m) is_canon
                   :: l)
      else '(accounts, l) ← mark_block is_canon block l; Some (accounts, m :: l)
  end.

Definition purge_block (is_canon : bool) (st : bool * AccountCache) (block : H256) :
    bool * AccountCache :=
  let '(clear, c) := st in
  if (clear : bool) then (true, c)
  else match mark_block is_canon block (ac_modifications c) with
       | Some (accounts, l) =>
           (false, mkAccountCache (foldl lru_remove (ac_accounts c) (hash_set_iter accounts)) l)
       | None => (true, c)
       end.

(** One entry of the local cache. *)
Definition propagate (is_best : bool) (st : lru Address (option Account) * gset Address)
    (item : CacheQueueItem) : lru Address (option Account) * gset Address :=
  let '(accounts, modifications) := st in
  let modifications :=
    if cq_modified item then {[cq_address item]} ∪ modifications else modifications in
  if is_best then
    let '(existing, accounts) := lru_get accounts (cq_address item) in
    match existing, cq_account item with
    | Some (Some existing), Some new =>
        if cq_modified item
        then (lru_insert accounts (cq_address item)
                (Some (account_overwrite_with new existing)), modifications)
        else (accounts, modifications)
    | _, acc => (lru_insert accounts (cq_address item) acc, modifications)
    end
  else (accounts, modifications).

(** The changes of a block go before the first ones of a lower number. *)
Fixpoint insert_changes (m : BlockChanges) (l : list BlockChanges) : list BlockChanges :=
  match l with
  | [] => [m]
  | m' :: l =>
      if (bc_number m' <? bc_number m)%Z then m :: m' :: l else m' :: insert_changes m l
  end.

Definition sync_cache (enacted retracted : list H256) (is_best : bool) (self : StateDB) :
    StateDB :=
  let enacted := filter (λ h, commit_hash self ≠ Some h) enacted in
  let '(clear, c) := foldl (purge_block true) (false, account_cache self) enacted in
  let '(clear, c) := foldl (purge_block false) (clear, c) retracted in
  let c := if (clear : bool) then mkAccountCache (lru_clear (ac_accounts c)) [] else c in
  match commit_number self, commit_hash self, parent_hash self with
  | Some number, Some hash, Some parent =>
      let l := if length (ac_modifications c) =? STATE_CACHE_BLOCKS
               then take (length (ac_modifications c) - 1) (ac_modifications c)
               else ac_modifications c in
      let '(accounts, modifications) :=
        foldl (propagate is_best) (ac_accounts c, ∅) (local_cache self) in
      let block_changes := mkBlockChanges number hash parent modifications is_best in
      set_local_cache [] (set_account_cache
        (mkAccountCache accounts (insert_changes block_changes l)) self)
  | _, _, _ => set_account_cache c self
  end.

(** The loop of [is_allowed]. *)
Fixpoint allowed_from (addr : Address) (parent : H256) (l : list BlockChanges) : bool :=
  match l with
  | [] => false
  | m :: l =>
      if decide (bc_hash m = parent) then
        if bc_is_canon m then true
        else if decide (addr ∈ bc_accounts m) then false
        else allowed_from addr (bc_parent m) l
      else if decide (addr ∈ bc_accounts m) then false
      else allowed_from addr parent l
  end.

Definition is_allowed (addr : Address) (parent_hash : H256) (modifications : list BlockChanges) :
    bool :=
  match modifications with [] => true | _ => allowed_from addr parent_hash modifications end.

(** The entry of an account in the shared cache, if it may be used. *)
Definition cached_entry (addr : Address) (self : StateDB) : option (option Account) * StateDB :=
  match parent_hash self with
  | None => (None, self)
  | Some parent =>
      if is_allowed addr parent (ac_modifications (account_cache self)) then
        let '(r, accounts) := lru_get (ac_accounts (account_cache self)) addr in
        (r, set_account_cache (set_accounts accounts (account_cache self)) self)
      else (None, self)
  end.

Definition sdb_get_cached_account (addr : Address) (self : StateDB) :
    option (option Account) * StateDB :=
  let '(r, self) := cached_entry addr self in (option_map (option_map clone_basic) r, self).

Definition sdb_put_cached (addr : Address) (acc : option Account) (self : StateDB) : StateDB :=
  set_account_cache (set_accounts (lru_insert (ac_accounts (account_cache self)) addr acc)
    (account_cache self)) self.

Definition sdb_add_to_account_cache (address : Address) (data : option Account)
    (modified : bool) (self : StateDB) : StateDB :=
  set_local_cache (local_cache self ++ [mkQueueItem address data modified]) self.

(** *** Code and filter *)

Definition sdb_cache_code (hash : H256) (code : list byte) (self : StateDB) : StateDB :=
  set_sdb_code_cache (lru_insert (sdb_code_cache self) hash code) self.

Definition sdb_get_cached_code (hash : H256) (self : StateDB) : option (list byte) * StateDB :=
  let '(code, c) := lru_get (sdb_code_cache self) hash in (code, set_sdb_code_cache c self).

Definition sdb_note_non_null_account (address : Address) (self : StateDB) : Outcome StateDB :=
  bloom ← bloom_set (h256_bytes (keccak address)) (account_bloom self);
  Done (set_account_bloom bloom self).

Definition sdb_is_known_null (self : StateDB) (address : Address) : Outcome bool :=
  found ← bloom_check (h256_bytes (keccak address)) (account_bloom self);
  Done (negb found).

#[export] Instance state_db_backend : Backend StateDB := {|
  as_hash_db b := journal_hash_db (sdb_db b);
  set_hash_db d b := set_sdb_db (journal_set_hash_db d (sdb_db b)) b;
  get_cached_account := sdb_get_cached_account;
  get_cached := cached_entry;
  put_cached := sdb_put_cached;
  get_cached_code := sdb_get_cached_code;
  backend_cache_code := sdb_cache_code;
  note_non_null_account := sdb_note_non_null_account;
  is_known_null := sdb_is_known_null;
|}.
End StateDb.
