(* ===== verification/StateDbTheorems.v ===== *)
(** * Theorems on the backend

    [StateDB] is a backend in the sense of [World.v]: its caches and its filter agree with
    the database.  The filter survives a restart: what was noted before the last batch was
    written is known to the filter loaded from the store. *)

From S2P Require Import Prelude Hash Transaction Account State World KeyValue Bloom StateDb.

(** ** The laws of a backend *)

Class JournalLaws `{TrieDatabase} (J : Type) `{!JournalDB J} := {
  journal_set_get d (j : J) : journal_hash_db (journal_set_hash_db d j) = d;
}.

Section Laws.
Context `{Keccak} `{!LruCache H256 H256} `{!LruLaws H256 H256} `{TrieDatabase} `{HashOrder}.
Context `{!LruCache Address (option Account)}.
Context `{!LruCache H256 (list byte)} `{!LruLaws H256 (list byte)}.
Context `{!SipHash (list byte)} {J : Type} `{!JournalDB J} `{!JournalLaws J}.

Record state_db_ok (b : StateDB (J := J)) : Prop := {
  sd_uncached : parent_hash b = None;
  sd_bloom : bloom_ok (account_bloom b);
  sd_code h c : lru_entries (sdb_code_cache b) !! h = Some c → keccak c = h;
}.

Lemma known_null_spec b a : state_db_ok b →
  is_known_null b a = Done (negb (forallb (λ i, bit i (elems (bitmap (account_bloom b))))
    (item_bits (account_bloom b) (h256_bytes (keccak a))))).
Proof.
  intros Hb. cbn. unfold sdb_is_known_null. by rewrite bloom_check_ok by apply (sd_bloom b Hb).
Qed.

Lemma state_db_code_get b h code b' : state_db_ok b → get_cached_code h b = (code, b') →
  state_db_ok b' ∧ same_backend b b' ∧ ∀ c, code = Some c → keccak c = h.
Proof.
  intros [Hu Hbm Hcode]. cbn. unfold sdb_get_cached_code.
  pose proof (lru_entries_get (sdb_code_cache b) h) as Hg.
  pose proof (lru_entries_touch (sdb_code_cache b) h) as Ht.
  destruct (lru_get (sdb_code_cache b) h) as [r c] eqn:E. cbn in Hg, Ht.
  intros [= <- <-]. split_and!; [|done|].
  - split; try done. cbn. rewrite Ht. apply Hcode.
  - intros c' ->. symmetry in Hg. by apply Hcode in Hg.
Qed.

Lemma state_db_code_put b h c : state_db_ok b → keccak c = h →
  state_db_ok (backend_cache_code h c b) ∧ same_backend b (backend_cache_code h c b).
Proof.
  intros [Hu Hbm Hcode] Hc. split; [|done]. split; try done. cbn. intros h' c' Hl.
  pose proof (lru_entries_insert (sdb_code_cache b) h c) as Hi.
  apply (lookup_weaken _ _ _ _ Hl) in Hi. apply lookup_insert_Some in Hi.
  destruct Hi as [[<- <-]|[_ Hi]]; [done|by apply Hcode].
Qed.

Lemma state_db_note b a : state_db_ok b →
  ∃ b', note_non_null_account a b = Done b' ∧ state_db_ok b' ∧ as_hash_db b' = as_hash_db b ∧
    ∀ a', is_known_null b' a' = Done true → a' ≠ a ∧ is_known_null b a' = Done true.
Proof.
  intros Hb. pose proof Hb as [Hu Hbm Hcode]. cbn. unfold sdb_note_non_null_account.
  destruct (bloom_set_ok _ (h256_bytes (keccak a)) Hbm) as (bl & E & Hbl & _). rewrite E.
  assert (∀ a', bloom_check (h256_bytes (keccak a')) (account_bloom b) = Done true →
    bloom_check (h256_bytes (keccak a')) bl = Done true) as Hmono.
  { intros a'. apply (bloom_set_check _ _ _ _ Hbm E). }
  pose proof (proj1 (bloom_set_check _ _ _ (h256_bytes (keccak a)) Hbm E)) as Hin.
  eexists. split; [done|]. split; [by split|]. split; [done|].
  intros a'. unfold sdb_is_known_null. cbn [account_bloom set_account_bloom].
  pose proof (bloom_check_ok _ (h256_bytes (keccak a')) Hbm) as Hc.
  destruct (forallb _ _) eqn:Ef in Hc.
  - rewrite (Hmono a' Hc). by intros [=].
  - intros Hk. split; [|by rewrite Hc]. intros ->. by rewrite Hin in Hk.
Qed.

#[export] Instance state_db_laws `{!DbStep} : BackendLaws (B := StateDB (J := J)).
Proof.
  refine {| backend_ok := state_db_ok |}.
  - intros b a [Hp _ _]. cbn. unfold sdb_get_cached_account, cached_entry. by rewrite Hp.
  - apply state_db_code_get.
  - apply state_db_code_put.
  - intros b d [Hu Hbm Hcode] _. split; [by split|]. split; [cbn; apply journal_set_get|done].
  - intros b a Hb. rewrite known_null_spec by done. by eexists.
  - apply state_db_note.
Defined.
End Laws.

(** ** The filter on disk *)

Inductive FilterOp :=
| FilterNote (a : Address)
| FilterJournal
| FilterReopen.

#[local] Arguments to_be_bytes : simpl never.
#[local] Arguments to_le_bytes : simpl never.
#[local] Arguments word_key : simpl never.

Section Disk.
Context `{Keccak} `{HashOrder} `{!SipHash (list byte)} (optimal_k_num : Z → nat → Z).

Abbreviation item a := (h256_bytes (keccak a)).

(** Noting an account; writing the batch with the changed words; loading the filter. *)
Definition filter_step (op : FilterOp) (st : Bloom * KeyValueDB) :
    Outcome (Bloom * KeyValueDB) :=
  let '(b, kv) := st in
  match op with
  | FilterNote a => b ← bloom_set (item a) b; Done (b, kv)
  | FilterJournal =>
      '(hash_functions, entries, b) ← drain_journal b;
      batch ← commit_bloom [] hash_functions entries;
      Done (b, kv_write batch kv)
  | FilterReopen => b ← load_bloom optimal_k_num kv; Done (b, kv)
  end.

(** The accounts noted since the start, and those noted before the last write. *)
Definition filter_spec (st : list Address * list Address) (op : FilterOp) :
    list Address * list Address :=
  let '(live, saved) := st in
  match op with
  | FilterNote a => (a :: live, saved)
  | FilterJournal => (live, live)
  | FilterReopen => (saved, saved)
  end.

(** The number of words, sealed so that no proof unfolds it. *)
Lemma words_sealed : { n : nat | Z.of_nat n = 131072%Z }.
Proof. exists (Z.to_nat 131072). by apply Z2Nat.id. Qed.
Definition WORDS : nat := proj1_sig words_sealed.

Lemma words_Z : Z.of_nat WORDS = 131072%Z.
Proof. exact (proj2_sig words_sealed). Qed.

Lemma bloom_space_Z : Z.of_nat ACCOUNT_BLOOM_SPACE = 1048576%Z.
Proof. by apply Z2Nat.id. Qed.

Lemma account_preset_pos : (0 <? DEFAULT_ACCOUNT_PRESET) = true.
Proof.
  apply Nat.ltb_lt. assert (Z.of_nat DEFAULT_ACCOUNT_PRESET = 1000000%Z) by by apply Z2Nat.id. lia.
Qed.

Definition word (kv : KeyValueDB) (i : nat) : Z :=
  match kv_get kv COL_ACCOUNT_BLOOM (word_key (Z.of_nat i)) with
  | Some v => from_le_bytes v
  | None => 0%Z
  end.

(** The filter the store has. *)
Definition image (kv : KeyValueDB) (k : Z) : Bloom :=
  mkBloom (mkBitVec (word kv <$> seq 0 WORDS) ∅) (64 * Z.of_nat WORDS) k.

Record on_disk (b : Bloom) (kv : KeyValueDB) : Prop := {
  od_len : length (elems (bitmap b)) = WORDS;
  od_bits : bitmap_bits b = (64 * Z.of_nat WORDS)%Z;
  od_k : (0 ≤ k_num b ≤ 255)%Z;
  od_u64 i z : elems (bitmap b) !! i = Some z → (0 ≤ z < 2 ^ 64)%Z;
  od_val i v : i < WORDS →
    kv_get kv COL_ACCOUNT_BLOOM (word_key (Z.of_nat i)) = Some v → length v = 8;
  od_words i : i < WORDS → i ∉ journal (bitmap b) → elems (bitmap b) !! i = Some (word kv i);
  od_journal i : i ∈ journal (bitmap b) → i < WORDS;
  od_count : match kv_get kv COL_ACCOUNT_BLOOM ACCOUNT_BLOOM_HASHCOUNT_KEY with
             | Some v => v = [byte_of_Z (k_num b)]
             | None => k_num b = optimal_k_num (64 * Z.of_nat WORDS) DEFAULT_ACCOUNT_PRESET ∧
                 ∀ i, i < WORDS →
                   kv_get kv COL_ACCOUNT_BLOOM (word_key (Z.of_nat i)) = None
             end;
}.

Lemma on_disk_ok b kv : on_disk b kv → bloom_ok b.
Proof.
  intros Hd. unfold bloom_ok. rewrite (od_len _ _ Hd), (od_bits _ _ Hd). pose proof words_Z. lia.
Qed.

Lemma image_ok kv k : bloom_ok (image kv k).
Proof. unfold bloom_ok. cbn. rewrite length_fmap, length_seq. pose proof words_Z. lia. Qed.

Lemma word_key_inj i j : i < WORDS → j < WORDS →
  word_key (Z.of_nat i) = word_key (Z.of_nat j) → i = j.
Proof.
  intros Hi Hj E. pose proof words_Z. apply to_le_bytes_inj in E; lia.
Qed.

Lemma word_key_count i : word_key i ≠ ACCOUNT_BLOOM_HASHCOUNT_KEY.
Proof. intros E. apply (f_equal length) in E. unfold word_key in E. by rewrite length_to_le_bytes in E. Qed.

(** *** Loading *)

Lemma range_words : range 0 (Z.of_nat ACCOUNT_BLOOM_SPACE / 8) = Z.of_nat <$> seq 0 WORDS.
Proof.
  unfold range, seqZ. rewrite Z.sub_0_r.
  replace (Z.of_nat ACCOUNT_BLOOM_SPACE / 8)%Z with (Z.of_nat WORDS)
    by by rewrite words_Z, bloom_space_Z.
  rewrite Nat2Z.id. apply list_fmap_ext. intros. lia.
Qed.

Lemma load_on_disk b kv : on_disk b kv → load_bloom optimal_k_num kv = Done (image kv (k_num b)).
Proof.
  intros Hd. unfold load_bloom. pose proof (od_count _ _ Hd) as Hc.
  destruct (kv_get kv COL_ACCOUNT_BLOOM ACCOUNT_BLOOM_HASHCOUNT_KEY) as [v|].
  - subst v. rewrite range_words.
    rewrite (mapO_fmap _ (λ i, word kv (Z.to_nat i))).
    + cbn [mbind outcome_bind]. unfold image, bloom_from_parts, bitvec_from_parts. f_equal.
      rewrite <- list_fmap_compose. f_equal.
      * f_equal. apply list_fmap_ext. intros j i _. cbn. by rewrite Nat2Z.id.
      * rewrite !length_fmap, length_seq. lia.
      * rewrite Z_of_byte_of_Z. apply Z.mod_small. pose proof (od_k _ _ Hd). lia.
    + intros x (i & -> & Hi)%list_elem_of_fmap. apply elem_of_seq in Hi.
      unfold load_word, word. rewrite Nat2Z.id.
      pose proof (od_val _ _ Hd i) as Hv. destruct (kv_get _ _ _) as [v|]; [|done].
      by rewrite (Hv v ltac:(lia) eq_refl).
  - destruct Hc as [Hk Hn]. unfold bloom_new.
    assert (Z.of_nat ACCOUNT_BLOOM_SPACE * 8 = 64 * Z.of_nat WORDS)%Z as ->.
    { by rewrite words_Z, bloom_space_Z. }
    rewrite account_preset_pos, (proj2 (Nat.ltb_lt 0 ACCOUNT_BLOOM_SPACE))
      by (pose proof bloom_space_Z; lia).
    cbn [andb]. unfold image, bitvec_new. rewrite Hk. do 3 f_equal.
    replace (Z.to_nat (64 * Z.of_nat WORDS)) with (WORDS * 64) by lia.
    rewrite Nat.Div0.mod_mul, Nat.div_mul by lia. cbn [Nat.ltb Nat.leb].
    rewrite Nat.add_0_r. apply list_eq_same_length with WORDS;
      [by rewrite length_fmap, length_seq|by rewrite length_replicate|].
    intros i x y Hi. rewrite list_lookup_fmap, lookup_seq_lt by done.
    rewrite lookup_replicate_2 by done. cbn. unfold word. rewrite Hn by done. congruence.
Qed.

(** *** Noting *)

Lemma lor_u64 z i : (0 ≤ z < 2 ^ 64)%Z → i < 64 →
  (0 ≤ Z.lor z (Z.shiftl 1 (Z.of_nat i)) < 2 ^ 64)%Z.
Proof.
  intros Hz Hi. rewrite Z.shiftl_1_l.
  assert (0 ≤ Z.lor z (2 ^ Z.of_nat i))%Z as Hp.
  { apply Z.lor_nonneg. split; [lia|]. apply Z.pow_nonneg. lia. }
  split; [done|]. destruct (decide (Z.lor z (2 ^ Z.of_nat i) = 0%Z)) as [->|Hne]; [lia|].
  apply Z.log2_lt_pow2; [lia|]. rewrite Z.log2_lor by lia.
  apply Z.max_lub_lt; [|rewrite Z.log2_pow2; lia].
  destruct (decide (z = 0%Z)) as [->|]; [cbn; lia|]. apply Z.log2_lt_pow2; lia.
Qed.

Lemma bitvec_set_disk b kv i v :
  on_disk b kv → i / 64 < WORDS → bitvec_set i (bitmap b) = Done v →
  on_disk (mkBloom v (bitmap_bits b) (k_num b)) kv.
Proof.
  intros Hd Hi. unfold bitvec_set. destruct (elems (bitmap b) !! (i / 64)) as [z|] eqn:Ez; [|done].
  intros [= <-]. destruct Hd as [D1 D2 D3 D4 D5 D6 D7 D8].
  split; cbn [bitmap elems journal bitmap_bits k_num]; try done.
  - by rewrite length_insert.
  - intros j z' [(<- & <- & _)|[_ Hz]]%list_lookup_insert_Some; [|by eapply D4].
    apply lor_u64; [by eapply D4|].
    change (i mod 64 < 64). by apply Nat.mod_upper_bound.
  - intros j Hj Hn. rewrite list_lookup_insert_ne by set_solver. apply D6; set_solver.
  - intros j [->%elem_of_singleton|Hj]%elem_of_union; [done|by apply D7].
Qed.

Lemma bloom_set_disk b kv x b' :
  on_disk b kv → bloom_set x b = Done b' → on_disk b' kv.
Proof.
  intros Hd. unfold bloom_set. generalize (range 0 (k_num b)). intros ks. revert b Hd.
  induction ks as [|k ks IH]; intros b Hd; cbn; [by intros [= <-]|].
  destruct (bitvec_set _ (bitmap b)) as [v|] eqn:Ev; [|done]. cbn. intros E.
  eapply IH, E. eapply bitvec_set_disk, Ev; [done|].
  rewrite <- (od_len _ _ Hd). apply bit_offset_bound. by eapply on_disk_ok.
Qed.

(** *** Writing *)

Lemma kv_write_words (entries : list (nat * Z)) (f : nat → Z) (batch : DBTransaction) :
  Forall (λ e, e.2 = f e.1 ∧ e.1 < WORDS) entries →
  ∃ puts, foldl (λ batch '(i, v), kv_put COL_ACCOUNT_BLOOM (word_key (Z.of_nat i))
      (to_le_bytes 8 v) batch) batch entries = batch ++ puts ∧
    (∀ (kv : KeyValueDB) key, (∀ i, i < WORDS → key ≠ word_key (Z.of_nat i)) →
      kv_get (kv_write puts kv) COL_ACCOUNT_BLOOM key = kv_get kv COL_ACCOUNT_BLOOM key) ∧
    (∀ (kv : KeyValueDB) i, i < WORDS →
      kv_get (kv_write puts kv) COL_ACCOUNT_BLOOM (word_key (Z.of_nat i)) =
      if decide (i ∈ entries.*1) then Some (to_le_bytes 8 (f i))
      else kv_get kv COL_ACCOUNT_BLOOM (word_key (Z.of_nat i))).
Proof.
  intros He. revert batch. induction He as [|[j v] entries [E Hj] He IH]; intros batch; cbn in *.
  { exists []. split_and!; [by rewrite app_nil_r|done|]. intros kv' i Hi.
    by rewrite decide_False by apply not_elem_of_nil. }
  subst v. destruct (IH (kv_put COL_ACCOUNT_BLOOM (word_key (Z.of_nat j)) (to_le_bytes 8 (f j))
    batch)) as (puts & -> & Hother & Hword).
  exists (DBInsert COL_ACCOUNT_BLOOM (word_key (Z.of_nat j)) (to_le_bytes 8 (f j)) :: puts).
  split_and!.
  - unfold kv_put. by rewrite <- app_assoc.
  - intros kv' key Hk. change (kv_write (?x :: puts) kv') with (kv_write puts (kv_apply kv' x)).
    rewrite Hother by done. unfold kv_get, kv_apply. apply lookup_insert_ne.
    intros E%(f_equal snd). by destruct (Hk j Hj).
  - intros kv' i Hi. change (kv_write (?x :: puts) kv') with (kv_write puts (kv_apply kv' x)).
    rewrite Hword by done. unfold kv_get, kv_apply.
    destruct (decide (i ∈ entries.*1)) as [Hin|Hin].
    + by rewrite decide_True by (right; done).
    + destruct (decide (i = j)) as [->|Hne].
      * rewrite decide_True by left. by rewrite lookup_insert_eq.
      * rewrite decide_False by (rewrite elem_of_cons; naive_solver).
        apply lookup_insert_ne. intros E%(f_equal snd). cbn in E.
        by apply word_key_inj in E.
Qed.

(** The words of a filter, as a function. *)
Definition word_of (b : Bloom) (i : nat) : Z := default 0%Z (elems (bitmap b) !! i).

Lemma word_of_lookup b kv i : on_disk b kv → i < WORDS →
  elems (bitmap b) !! i = Some (word_of b i).
Proof.
  intros Hd Hi. unfold word_of. rewrite <- (od_len _ _ Hd) in Hi.
  by destruct (lookup_lt_is_Some_2 _ _ Hi) as [z ->].
Qed.

Definition drained (b : Bloom) : Bloom :=
  mkBloom (mkBitVec (elems (bitmap b)) ∅) (bitmap_bits b) (k_num b).

(** The batch writes the number of hash functions and the words of the journal. *)
Lemma journal_batch b kv :
  on_disk b kv →
  ∃ kv', filter_step FilterJournal (b, kv) = Done (drained b, kv') ∧
    kv_get kv' COL_ACCOUNT_BLOOM ACCOUNT_BLOOM_HASHCOUNT_KEY = Some [byte_of_Z (k_num b)] ∧
    ∀ i, i < WORDS → kv_get kv' COL_ACCOUNT_BLOOM (word_key (Z.of_nat i)) =
      if decide (i ∈ journal (bitmap b)) then Some (to_le_bytes 8 (word_of b i))
      else kv_get kv COL_ACCOUNT_BLOOM (word_key (Z.of_nat i)).
Proof.
  intros Hd. cbn [filter_step]. unfold drain_journal, bitvec_drain.
  assert (∀ i, i ∈ hash_set_iter (journal (bitmap b)) → i < WORDS) as Hj.
  { intros i Hi. apply (od_journal _ _ Hd). by apply elem_of_hash_set_iter. }
  rewrite (mapO_fmap _ (λ i, (i, word_of b i))); cycle 1.
  { intros i Hi. by rewrite (word_of_lookup b kv i) by auto. }
  cbn [mbind outcome_bind]. unfold commit_bloom.
  destruct (Z.leb_spec (k_num b) 255); [|pose proof (od_k _ _ Hd); lia]. cbn [mbind outcome_bind].
  set (es := _ <$> hash_set_iter _). set (cnt := kv_put _ _ _ []).
  destruct (kv_write_words es (word_of b) cnt) as (puts & -> & Ho & Hw).
  { apply Forall_forall. intros e (i & -> & Hi)%list_elem_of_fmap. split; [done|by apply Hj]. }
  eexists. split; [done|]. rewrite kv_write_app. split.
  - rewrite Ho; [|intros i _ Ek; by apply (word_key_count (Z.of_nat i))].
    unfold kv_get. apply lookup_insert_eq.
  - intros i Hi. rewrite Hw by done.
    assert (i ∈ es.*1 ↔ i ∈ journal (bitmap b)) as Hin.
    { unfold es. rewrite <- list_fmap_compose, <- elem_of_hash_set_iter, list_elem_of_fmap.
      split; [by intros (j & -> & Hx)|]. intros Hx. by exists i. }
    destruct (decide (i ∈ es.*1)); [by rewrite decide_True by by apply Hin|].
    rewrite decide_False by by rewrite <- Hin. unfold kv_get. apply lookup_insert_ne.
    intros Ek%(f_equal snd). by apply (word_key_count (Z.of_nat i)).
Qed.

(** After the batch is written, the store has the filter. *)
Lemma filter_written b kv :
  on_disk b kv →
  ∃ kv', filter_step FilterJournal (b, kv) = Done (drained b, kv') ∧
    on_disk (drained b) kv'.
Proof.
  intros Hd. destruct (journal_batch b kv Hd) as (kv' & E & Hcnt & Hget). exists kv'.
  split; [done|]. pose proof Hd as [D1 D2 D3 D4 D5 D6 D7 D8].
  assert (∀ i, i < WORDS → word kv' i = word_of b i) as Hword.
  { intros i Hi. unfold word. rewrite Hget by done. case_decide as Hj.
    - apply from_to_le_bytes. by apply (D4 i), (word_of_lookup b kv).
    - pose proof (D6 i Hi Hj) as Hwi. rewrite (word_of_lookup b kv) in Hwi by done.
      injection Hwi as ->. done. }
  split; cbn [drained bitmap elems journal bitmap_bits k_num]; try done.
  - intros i v Hi. rewrite Hget by done. case_decide; [|by apply D5].
    intros [= <-]. apply length_to_le_bytes.
  - intros i Hi _. by rewrite Hword, (word_of_lookup b kv) by done.
  - by rewrite Hcnt.
Qed.

(** A filter without changes is the one in the store. *)
Lemma clean_image b kv : on_disk b kv → journal (bitmap b) = ∅ → b = image kv (k_num b).
Proof.
  intros [D1 D2 D3 D4 D5 D6 D7 D8] Hj. destruct b as [[es j] bits k]. cbn in *. subst j bits.
  unfold image. cbn. do 2 f_equal.
  apply list_eq_same_length with WORDS; [by rewrite length_fmap, length_seq|done|].
  intros i x y Hi. rewrite list_lookup_fmap, lookup_seq_lt, D6 by set_solver. cbn. congruence.
Qed.

Lemma image_on_disk b kv : on_disk b kv → on_disk (image kv (k_num b)) kv.
Proof.
  intros Hd. pose proof Hd as [D1 D2 D3 D4 D5 D6 D7 D8].
  split; cbn [image bitmap elems journal bitmap_bits k_num]; try done.
  - by rewrite length_fmap, length_seq.
  - intros i z (j & Ej & Hj)%list_lookup_fmap_Some. subst z.
    apply lookup_seq in Hj. destruct Hj as [-> Hi]. unfold word. cbn.
    pose proof (D5 i) as Hv. clear D8. destruct (kv_get _ _ _) as [v|]; [|lia].
    pose proof (from_be_bytes_bound (reverse v)) as Hb. rewrite length_reverse in Hb.
    rewrite (Hv v Hi eq_refl) in Hb. exact Hb.
  - intros i Hi _. by rewrite list_lookup_fmap, lookup_seq_lt.
Qed.

(** *** Restarts *)

Definition known (b : Bloom) (l : list Address) : Prop :=
  ∀ a, a ∈ l → bloom_check (item a) b = Done true.

Record filter_ok (b : Bloom) (kv : KeyValueDB) (live saved : list Address) : Prop := {
  fo_disk : on_disk b kv;
  fo_live : known b live;
  fo_saved : known (image kv (k_num b)) saved;
}.

(** The result of a check is decided by the words and the number of hash functions. *)
Lemma known_drained b l : bloom_ok b → known b l → known (drained b) l.
Proof. intros Hb Hl a Ha. rewrite <- (Hl a Ha). by rewrite !bloom_check_ok. Qed.

Lemma filter_step_ok op b kv live saved : filter_ok b kv live saved →
  ∃ b' kv', filter_step op (b, kv) = Done (b', kv') ∧
    filter_ok b' kv' (filter_spec (live, saved) op).1 (filter_spec (live, saved) op).2.
Proof.
  intros [Hd Hl Hs]. destruct op as [a| |].
  - destruct (bloom_set_ok b (item a) (on_disk_ok _ _ Hd)) as (b' & E & _ & _ & Hk & _).
    exists b', kv. cbn. rewrite E. split; [done|].
    split; [by eapply bloom_set_disk| |by rewrite Hk].
    pose proof (λ x, bloom_set_check b b' (item a) (item x) (on_disk_ok _ _ Hd) E) as Hc.
    intros x [->|Hx]%elem_of_cons; [apply (proj1 (Hc a))|by apply (proj2 (Hc x)), Hl].
  - destruct (filter_written b kv Hd) as (kv' & E & Hd'). exists (drained b), kv'.
    pose proof (known_drained b live (on_disk_ok _ _ Hd) Hl) as Hl'.
    split; [done|]. split; [done..|]. by rewrite <- (clean_image _ _ Hd').
  - cbn [filter_step filter_spec fst snd]. rewrite (load_on_disk b kv Hd). eexists _, _.
    split; [done|]. split; [by apply image_on_disk|done..].
Qed.

Lemma filter_steps_ok ops b kv live saved : filter_ok b kv live saved →
  ∃ b' kv', foldM (λ st op, filter_step op st) (b, kv) ops = Done (b', kv') ∧
    filter_ok b' kv' (foldl filter_spec (live, saved) ops).1 (foldl filter_spec (live, saved) ops).2.
Proof.
  revert b kv live saved. induction ops as [|op ops IH]; intros b kv live saved Hf.
  { by exists b, kv. }
  destruct (filter_step_ok op b kv live saved Hf) as (b1 & kv1 & E & Hf1).
  cbn [foldM foldl]. rewrite E. cbn [mbind outcome_bind].
  destruct (filter_spec (live, saved) op) as [live1 saved1]. by apply IH.
Qed.

Lemma empty_on_disk :
  (0 ≤ optimal_k_num (64 * Z.of_nat WORDS) DEFAULT_ACCOUNT_PRESET ≤ 255)%Z →
  on_disk (image ∅ (optimal_k_num (64 * Z.of_nat WORDS) DEFAULT_ACCOUNT_PRESET)) ∅.
Proof.
  intros Hk. split; cbn [image bitmap elems journal bitmap_bits k_num]; try done.
  - by rewrite length_fmap, length_seq.
  - intros i z (j & -> & _)%list_lookup_fmap_Some. unfold word, kv_get. rewrite lookup_empty. lia.
  - intros i Hi _. by rewrite list_lookup_fmap, lookup_seq_lt.
Qed.

Lemma filter_ok_new :
  (0 ≤ optimal_k_num (64 * Z.of_nat WORDS) DEFAULT_ACCOUNT_PRESET ≤ 255)%Z →
  ∃ b, load_bloom optimal_k_num ∅ = Done b ∧ filter_ok b ∅ [] [].
Proof.
  intros Hk. pose proof (empty_on_disk Hk) as Hd. eexists. split; [by apply (load_on_disk _ ∅ Hd)|].
  split; [done|by intros a ?%elem_of_nil..].
Qed.

(** The filter of account addresses survives restarts: accounts are noted, the words that
    changed are written to the store, and the filter is loaded again, in any order; nothing
    panics, and each account noted before the last write, or since the last start, is found. *)
Theorem account_filter_survives_restart (ops : list FilterOp) :
  (0 ≤ optimal_k_num (64 * Z.of_nat WORDS) DEFAULT_ACCOUNT_PRESET ≤ 255)%Z →
  ∃ b0 b kv, load_bloom optimal_k_num ∅ = Done b0 ∧
    foldM (λ st op, filter_step op st) (b0, ∅) ops = Done (b, kv) ∧
    ∀ a, a ∈ (foldl filter_spec ([], []) ops).1 → bloom_check (item a) b = Done true.
Proof.
  intros Hk. destruct (filter_ok_new Hk) as (b0 & E0 & H0').
  destruct (filter_steps_ok ops b0 ∅ [] [] H0') as (b & kv & E & Hf).
  exists b0, b, kv. split_and!; [done..|]. apply (fo_live _ _ _ _ Hf).
Qed.
End Disk.

(** ** Example *)

Definition example_sip_hash : SipHash (list byte) := λ bs, u64 (from_be_bytes bs).
#[local] Existing Instances example_keccak example_hash_order example_sip_hash.

(** Of two accounts, one noted before the write and one after the restart, both are known. *)
Lemma account_filter_survives_restart_witness :
  ∃ b0 b kv, load_bloom (λ _ _, 6%Z) ∅ = Done b0 ∧
    foldM (λ st op, filter_step (λ _ _, 6%Z) op st) (b0, ∅)
      [FilterNote ["001"%byte]; FilterJournal; FilterNote ["002"%byte]; FilterReopen;
       FilterNote ["003"%byte]] = Done (b, kv) ∧
    bloom_check (h256_bytes (keccak ["001"%byte])) b = Done true ∧
    bloom_check (h256_bytes (keccak ["003"%byte])) b = Done true.
Proof.
  destruct (account_filter_survives_restart (λ _ _, 6%Z)
    [FilterNote ["001"%byte]; FilterJournal; FilterNote ["002"%byte]; FilterReopen;
     FilterNote ["003"%byte]]) as (b0 & b & kv & E0 & E & Hk); [lia|].
  exists b0, b, kv. split_and!; [exact E0|exact E|apply Hk; cbn; set_solver..].
Defined.
