(* ===== verification/StateDatabase.v ===== *)
(** * The state database of the node

    [src/src/statedb/mod.rs]: the state with its journal database and filter, opened from a
    key-value store.  [apply], which executes a transaction, is in [Transact.v].

    The tries are parameters, as functions on the journal database; so is the genesis state
    that the chain specification writes to an empty store.  The second part proves that what is
    committed survives a restart. *)

From S2P Require Import Prelude Hash Transaction KeyValue Bloom Account State World StateInv.
From S2P Require Import StateCommit JournalDb JournalTheorems StateDb StateDbTheorems.

(** ** Tries on a hash database *)

Class TrieFunctions (D : Type) := {
  tf_account_lookup : D → H256 → Address → Result (option BasicAccount) TrieError;
  tf_storage_lookup : D → Address → H256 → H256 → Result Z TrieError;
  tf_code_lookup : D → Address → H256 → option (list byte);
  tf_code_emplace : D → Address → H256 → list byte → D;
  tf_storage_open : D → Address → H256 → Result unit TrieError;
  tf_storage_insert : D → Address → H256 → H256 → Z → Result (D * H256) TrieError;
  tf_storage_remove : D → Address → H256 → H256 → Result (D * H256) TrieError;
  tf_account_open : D → H256 → Result unit TrieError;
  tf_account_insert : D → H256 → Address → BasicAccount → Result (D * H256) TrieError;
  tf_account_remove : D → H256 → Address → Result (D * H256) TrieError;
  tf_root_contained : D → H256 → bool;
}.

#[export] Instance trie_on (D : Type) `{TrieFunctions D} : TrieDatabase := {|
  hash_db := D;
  account_lookup := tf_account_lookup;
  storage_lookup := tf_storage_lookup;
  code_lookup := tf_code_lookup;
  code_emplace := tf_code_emplace;
  storage_open := tf_storage_open;
  storage_insert := tf_storage_insert;
  storage_remove := tf_storage_remove;
  account_open := tf_account_open;
  account_insert := tf_account_insert;
  account_remove := tf_account_remove;
  root_contained := tf_root_contained;
|}.

Section StateDatabase.
Context `{Keccak} `{Rlp} `{RlpDecode} `{MemoryDb} `{HashOrder}.
Context `{!LruCache H256 H256} `{!TrieFunctions OverlayRecentDB}.
Context `{!LruCache Address (option Account)} `{!LruCache H256 (list byte)}.
Context `{!SipHash (list byte)} (optimal_k_num : Z → nat → Z) (size_of_account : Z).

#[export] Instance overlay_journal : JournalDB OverlayRecentDB := {|
  journal_hash_db d := d;
  journal_set_hash_db d _ := d;
  journal_backing := backing;
  journal_journal_under := journal_under;
  journal_mark_canonical := mark_canonical;
|}.

Abbreviation DB := (StateDB (J := OverlayRecentDB)).

(** [journal_db().backing().write(batch)]. *)
Definition write_journal (batch : DBTransaction) (db : DB) : DB :=
  set_sdb_db (write_batch batch (sdb_db db)) db.

(** The chain specification: its state root, the hash of its genesis header, the nonce of new
    accounts, and [ensure_db_good]. *)
Record Spec := mkSpec {
  spec_state_root : H256;
  spec_genesis_hash : H256;
  spec_start_nonce : Z;
  ensure_db_good : DB → Outcome (Result DB TrieError);
}.

(** [client_config.state_cache_size], one megabyte. *)
Definition state_cache_size : Z := 1024 * 1024.

Definition statedb_open (spec : Spec) (kv : KeyValueDB) (root : option H256) :
    Outcome (Result (State (B := DB)) TrieError) :=
  let state_root := default (spec_state_root spec) root in
  journal_db ← overlay_new kv 0;
  state_db ← state_db_new optimal_k_num size_of_account journal_db state_cache_size;
  r ← (if overlay_is_empty (sdb_db state_db) then
         r ← ensure_db_good spec state_db;
         match r with
         | Err e => Done (Err e)
         | Ok state_db =>
             '(batch, state_db, _) ← sdb_journal_under [] 0 (spec_genesis_hash spec) state_db;
             Done (Ok (write_journal batch state_db))
         end
       else Done (Ok state_db));
  match r with
  | Err e => Done (Err e)
  | Ok state_db => Done (from_existing state_db state_root (spec_start_nonce spec))
  end.

Definition statedb_root (self : State (B := DB)) : H256 := st_root self.

Definition statedb_add_balance (a : Address) (incr : Z) : SM (B := DB) () :=
  _ ← add_balance a incr NoEmpty; mret tt.

Definition statedb_balance (a : Address) : SM (B := DB) Z := balance a.
Definition statedb_nonce (a : Address) : SM (B := DB) Z := nonce a.
Definition statedb_code (a : Address) : SM (B := DB) (option (list byte)) := code a.
Definition statedb_storage_at (a : Address) (key : H256) : SM (B := DB) H256 := storage_at a key.

Definition statedb_commit : SM (B := DB) () :=
  _ ← commit;
  sm_state (λ self,
    self ← clear self;
    '(batch, db, _) ← sdb_journal_under [] 0 h256_default (st_db self);
    Done (set_db (write_journal batch db) self, Ok tt)).
End StateDatabase.

(** * The state database survives restarts

    The invariant of the state database with its journal and its filter, and the effect of a
    commit: the batch that is written has what is needed to open the store again and find the
    accounts of the committed state. *)

(** What is found in one database is found in the other. *)
Definition finds_more `{Keccak} `{MemoryDb} (d d' : OverlayRecentDB) : Prop :=
  ∀ key v, overlay_get key d = Some v → overlay_get key d' = Some v.

(** Writing tries changes the transaction overlay only. *)
#[export] Instance overlay_step `{MemoryDb} `{!TrieFunctions OverlayRecentDB} :
    DbStep := λ d d' : OverlayRecentDB,
  backing d' = backing d ∧ column d' = column d ∧ journal_overlay d' = journal_overlay d.

(** A lookup that succeeds reads nodes that are there, so it succeeds with more nodes; the root
    of a complete trie is there. *)
Class TrieReads `{Keccak} `{MemoryDb} `{!TrieFunctions OverlayRecentDB} := {
  reads_account (d d' : OverlayRecentDB) root a r : finds_more d d' →
    account_lookup d root a = Ok r → account_lookup d' root a = Ok r;
  reads_storage (d d' : OverlayRecentDB) a root key z : finds_more d d' →
    storage_lookup d a root key = Ok z → storage_lookup d' a root key = Ok z;
  reads_code (d d' : OverlayRecentDB) a h c : finds_more d d' →
    code_lookup d a h = Some c → code_lookup d' a h = Some c;
  reads_root (d : OverlayRecentDB) root :
    complete_state d root → root_contained d root = true;
}.

(** ** More nodes, the same world *)

Section Reads.
Context `{Keccak} `{MemoryDb} `{!TrieFunctions OverlayRecentDB} `{!TrieReads}.
Context `{!LruCache H256 H256} `{!LruLaws H256 H256}.
Context (d d' : OverlayRecentDB) (Hm : finds_more d d').

Lemma reads_complete a root : complete_root d a root →
  complete_root d' a root ∧ ∀ key, stored d' a root key = stored d a root key.
Proof.
  intros Hc. split.
  - intros key. destruct (Hc key) as [z Hz]. exists z. by apply (reads_storage d).
  - intros key. unfold stored. destruct (Hc key) as [z Hz].
    by rewrite Hz, (reads_storage d d' a root key z).
Qed.

Lemma reads_acc a acc : acc_ok d a acc → acc_ok d' a acc ∧ view d' a acc ≡ view d a acc.
Proof.
  intros [A1 A2 A3 A4 A5]. split.
  - split; try done.
    + intros Hr. by apply (reads_complete a _ (A1 Hr)).
    + intros key v Hv Hr. rewrite (proj2 (reads_complete a _ (A1 Hr))). by apply A2.
    + intros root c E. destruct (A3 root c E) as (Hn & Hc & Hk). split_and!; [done|..].
      * by apply reads_complete.
      * intros key v Hv. rewrite (proj2 (reads_complete a _ Hc)). by apply Hk.
    + intros Hcl. destruct (A5 Hcl) as [?|(c & Hc & Hk)]; [by left|right]. exists c.
      split; [|done]. by apply (reads_code d).
  - assert (∀ key, base_storage d' a acc key = base_storage d a acc key) as Hb.
    { intros key. unfold base_storage. case_decide as E; [done|].
      apply (proj2 (reads_complete a _ (A1 E))). }
    split; try done; intros key; cbn.
    + by destruct (storage_changes acc !! key).
    + destruct (original_storage_cache acc) as [[root c]|]; [|done].
      apply (proj2 (reads_complete a _ (proj1 (proj2 (A3 root c eq_refl))))).
Qed.

Lemma reads_db `{!TrieLaws} root known known' :
  db_ok d root known → (∀ a, known' a = Done true → known a = Done true) →
  db_ok d' root known' ∧ db_world d' root ≡ db_world d root.
Proof.
  intros [D1 D2 D3 D4] Hk.
  assert (∀ a, account_lookup d' root a = account_lookup d root a) as Hl.
  { intros a. destruct (D2 a) as [r Hr]. rewrite Hr. by apply (reads_account d). }
  split.
  - assert (complete_state d' root) as Hc by (intros a; rewrite Hl; apply D2).
    split; [by apply account_open_complete|done|..].
    + intros a b. rewrite Hl. intros E. by apply reads_acc, D3.
    + intros a Ha. rewrite Hl. by apply D4, Hk.
  - intros a. unfold db_world, db_account. rewrite Hl.
    destruct (D2 a) as [[b|] E]; rewrite E; [|done]. cbn. constructor. by apply reads_acc, D3.
Qed.
End Reads.

(** ** The invariant *)

Section Inv.
Context `{Keccak} `{Rlp} `{RlpDecode} `{!RlpLaws} `{MemoryDb} `{!MemoryDbLaws} `{HashOrder}.
Context `{!LruCache H256 H256} `{!LruLaws H256 H256} `{!TrieFunctions OverlayRecentDB}.
Context `{!LruCache Address (option Account)}.
Context `{!LruCache H256 (list byte)} `{!LruLaws H256 (list byte)}.
Context `{!SipHash (list byte)} (optimal_k_num : Z → nat → Z) (size_of_account : Z).
Context (content : H256 → DBValue) (content_null : ∀ s, content s ≠ NULL_RLP).
Context (short_null : ∀ k, to_short_key k ≠ KECCAK_NULL_RLP).

#[local] Existing Instance overlay_journal.
Abbreviation DB := (StateDB (J := OverlayRecentDB)).

(** The journal without the changes since the last commit. *)
Record overlay_base (d : OverlayRecentDB) : Prop := {
  ob_disk : journal_on_disk content (jo_journal (journal_overlay d))
    (latest_era (journal_overlay d)) (backing d) (column d);
  ob_overlay : overlay_of content (jo_journal (journal_overlay d)) (journal_overlay d);
  ob_pending : pending_overlay (journal_overlay d) = ∅;
  ob_column : column d = 0%Z;
  ob_era : latest_era (journal_overlay d) = None ∨ latest_era (journal_overlay d) = Some 0%Z;
  ob_nodes k v : kv_get (backing d) (column d) (h256_bytes k) = Some v →
    v = content (to_short_key k);
}.

(** The nodes that were inserted since the last commit do not collide with others. *)
Definition nodes_agree (d : OverlayRecentDB) : Prop :=
  ∀ k v rc, mdb_data (transaction_overlay d) !! k = Some (v, rc) → (0 < rc)%Z →
    v = content (to_short_key k).

Record store_ok (b : DB) : Prop := {
  so_db' : state_db_ok b;
  so_base : overlay_base (sdb_db b);
  so_filter : on_disk optimal_k_num (account_bloom b) (backing (sdb_db b));
}.

Lemma overlay_base_step (d d' : OverlayRecentDB) :
  overlay_base d → db_step d d' → overlay_base d'.
Proof. intros [B1 B2 B3 B4 B5 B6] (E1 & E2 & E3). by split; rewrite ?E1, ?E2, ?E3. Qed.

Lemma overlay_journal_laws : JournalLaws OverlayRecentDB.
Proof. by split. Qed.
#[local] Existing Instance overlay_journal_laws.

#[export] Instance store_laws : BackendLaws (B := DB).
Proof.
  refine {| backend_ok := store_ok |}.
  - intros b a [Hb _ _]. by apply (backend_uncached (BackendLaws := state_db_laws) b a).
  - intros b h code b' [Hb Hs Hf] E.
    destruct (state_db_code_get b h code b' Hb E) as (Hb' & Hsame & Hc).
    split_and!; [|done..]. cbn in E. unfold sdb_get_cached_code in E.
    destruct (lru_get _ h) in E. injection E as <- <-. by split.
  - intros b h c [Hb Hs Hf] Hk. destruct (state_db_code_put b h c Hb Hk) as [Hb' Hsame].
    split; [by split|done].
  - intros b d [[Hu Hbm Hcode] Hs Hf] Hstep. split_and!; [|done..]. split; [by split|..].
    + by eapply overlay_base_step.
    + cbn. by rewrite (proj1 Hstep).
  - intros b a [Hb _ _]. by apply (backend_known (BackendLaws := state_db_laws) b a).
  - intros b a [Hb Hs Hf]. destruct (state_db_note b a Hb) as (b' & E & Hb' & Hd & Hk).
    exists b'. split_and!; [done| |done..]. cbn in E. unfold sdb_note_non_null_account in E.
    destruct (bloom_set _ _) as [bl|] eqn:Eb in E; [|done]. injection E as <-.
    split; [done..|]. cbn. by eapply bloom_set_disk.
Defined.

(** ** Committing the journal *)

Lemma finds_recent (d : OverlayRecentDB) key : overlay_base d →
  overlay_get key d =
  match mdb_raw (transaction_overlay d) key with
  | Some (v, rc) => if (0 <? rc)%Z then Some v else
      if decide (count_all (to_short_key key) (jo_journal (journal_overlay d)) = 0)
      then payload key d else Some (content (to_short_key key))
  | None =>
      if decide (count_all (to_short_key key) (jo_journal (journal_overlay d)) = 0)
      then payload key d else Some (content (to_short_key key))
  end.
Proof.
  intros [_ [_ Ho] Hp _ _ _]. unfold overlay_get. rewrite Hp, lookup_empty.
  pose proof (overlay_get_counts content short_null _ _ key Ho) as Hg. cbn in Hg. rewrite Hg.
  by case_decide.
Qed.

(** The batch with the filter writes to its column. *)
Lemma commit_bloom_cols k entries batch :
  commit_bloom [] k entries = Done batch → Forall (λ op, op_col op = COL_ACCOUNT_BLOOM) batch.
Proof.
  unfold commit_bloom. destruct (k <=? 255)%Z; [|done]. intros [= <-].
  set (b0 := kv_put _ _ _ []). assert (Forall (λ op, op_col op = COL_ACCOUNT_BLOOM) b0) as Hb.
  { by repeat constructor. }
  clearbody b0. revert b0 Hb. induction entries as [|[i v] l IH]; intros b0 Hb; [done|].
  cbn [foldl]. apply IH, Forall_app. split; [done|]. by repeat constructor.
Qed.

Lemma on_disk_col (b : Bloom) (kv kv' : KeyValueDB) :
  (∀ key, kv_get kv' COL_ACCOUNT_BLOOM key = kv_get kv COL_ACCOUNT_BLOOM key) →
  on_disk optimal_k_num b kv → on_disk optimal_k_num b kv'.
Proof.
  intros E [D1 D2 D3 D4 D5 D6 D7 D8]. split; try done.
  - intros i v Hi. rewrite E. by apply D5.
  - intros i Hi Hn. rewrite D6 by done. unfold word. by rewrite E.
  - rewrite E. destruct (kv_get kv _ _); [done|]. destruct D8 as [? Hn]. split; [done|].
    intros i Hi. rewrite E. by apply Hn.
Qed.

Lemma journal_on_disk_col (j : gmap Z (list JournalEntry)) (latest : option Z)
    (kv kv' : KeyValueDB) (col : Z) :
  (∀ key, kv_get kv' col key = kv_get kv col key) →
  journal_on_disk content j latest kv col → journal_on_disk content j latest kv' col.
Proof.
  intros E [D1 D2 D3 D4 D5 D6]. split; try done; [|by rewrite E].
  intros e i He. rewrite E. by apply D1.
Qed.

(** The words of the filter that changed, as a batch. *)
Lemma filter_batch (b : Bloom) (kv : KeyValueDB) : on_disk optimal_k_num b kv →
  ∃ entries batch, drain_journal b = Done (k_num b, entries, drained b) ∧
    commit_bloom [] (k_num b) entries = Done batch ∧
    Forall (λ op, op_col op = COL_ACCOUNT_BLOOM) batch ∧
    on_disk optimal_k_num (drained b) (kv_write batch kv).
Proof.
  intros Hd. destruct (filter_written optimal_k_num b kv Hd) as (kv' & E & Hd').
  cbn [filter_step] in E. unfold drain_journal in *.
  destruct (bitvec_drain (bitmap b)) as [[entries bv]|]; [|done]. cbn [mbind outcome_bind] in *.
  destruct (commit_bloom [] (k_num b) entries) as [batch|] eqn:Ec; [|done].
  injection E as E1 <-. exists entries, batch. rewrite E1. split_and!; [done..| |done].
  by eapply commit_bloom_cols.
Qed.


(** A batch of records, and of words of the filter, does not touch nodes. *)
Lemma write_other_keys (kv : KeyValueDB) ops col (key : list byte) :
  Forall (λ op, ∃ k v, op = DBInsert col k v ∧ ∀ h : H256, k ≠ h256_bytes h) ops →
  (∃ h : H256, key = h256_bytes h) → kv_get (kv_write ops kv) col key = kv_get kv col key.
Proof.
  intros Hops [h ->]. revert kv. induction Hops as [|op ops (k & v & -> & Hk) Hops IH]; intros kv; [done|].
  change (kv_write (?x :: ops) kv) with (kv_write ops (kv_apply kv x)). rewrite IH.
  rewrite kv_get_put. by rewrite decide_False by congruence.
Qed.

Lemma count_inserted (d : OverlayRecentDB) key v rc :
  mdb_data (transaction_overlay d) !! key = Some (v, rc) → (0 < rc)%Z →
  count (to_short_key key)
    (filter (λ e, (0 < e.2.2)%Z) (hash_iter (mdb_drain (transaction_overlay d)).1)).*1 ≠ 0.
Proof.
  intros E Hrc. rewrite (proj1 (mdb_drain_data (transaction_overlay d))).
  unfold count. intros Hz%nil_length_inv.
  assert (key ∈ filter (λ k, to_short_key k = to_short_key key)
    (filter (λ e, (0 < e.2.2)%Z) (hash_iter (mdb_data (transaction_overlay d)))).*1) as Hin.
  { apply list_elem_of_filter. split; [done|]. apply list_elem_of_fmap. exists (key, (v, rc)).
    split; [done|]. apply list_elem_of_filter. split; [done|]. by apply elem_of_hash_iter. }
  rewrite Hz in Hin. by apply elem_of_nil in Hin.
Qed.

(** What the database found before the record is found after it is written. *)
Lemma journal_finds (d : OverlayRecentDB) (d' : OverlayRecentDB) (entry : JournalEntry) :
  overlay_base d → nodes_agree d → overlay_base d' →
  mdb_data (transaction_overlay d') = ∅ →
  je_insertions entry =
    (filter (λ e, (0 < e.2.2)%Z) (hash_iter (mdb_drain (transaction_overlay d)).1)).*1 →
  jo_journal (journal_overlay d') = push_entry 0 entry (jo_journal (journal_overlay d)) →
  (∀ key, payload key d' = payload key d) → finds_more d d'.
Proof.
  intros Hb Hag Hb' Htx Hent Hj Hpay key v. rewrite (finds_recent d), (finds_recent d') by done.
  rewrite !mdb_raw_data, Htx, lookup_empty, Hj, count_all_push, Hpay, Hent.
  destruct (decide (key = KECCAK_NULL_RLP)); [done|].
  set (c := content (to_short_key key)). set (n0 := count_all _ _). set (n1 := count _ _).
  assert ((if decide (n0 = 0) then payload key d else Some c) = Some v →
    (if decide (n0 + n1 = 0) then payload key d else Some c) = Some v) as Hold.
  { destruct (decide (n0 = 0)), (decide (n0 + n1 = 0)); try done; [|lia].
    intros Hp. by rewrite (ob_nodes d Hb key v Hp). }
  destruct (mdb_data (transaction_overlay d) !! key) as [[w rc]|] eqn:E; [|done].
  destruct (Z.ltb_spec 0 rc) as [Hrc|]; [|done]. intros [= ->].
  pose proof (count_inserted d key v rc E Hrc) as Hc. fold n1 in Hc.
  rewrite decide_False by lia. by rewrite (Hag key v rc E Hrc).
Qed.

(** Writing the batch of a commit. *)
Lemma journal_commit_ok b id :
  store_ok b → nodes_agree (sdb_db b) →
  ∃ batch b' n, sdb_journal_under [] 0 id b = Done (batch, b', n) ∧
    store_ok (write_journal batch b') ∧ finds_more (sdb_db b) (sdb_db (write_journal batch b')) ∧
    (∀ a, is_known_null (write_journal batch b') a = is_known_null b a) ∧
    mdb_data (transaction_overlay (sdb_db (write_journal batch b'))) = ∅ ∧
    latest_era (journal_overlay (sdb_db (write_journal batch b'))) = Some 0%Z ∧
    journal (bitmap (account_bloom (write_journal batch b'))) = ∅.
Proof.
  intros [Hb Hs Hf] Hag. pose proof Hs as [B1 B2 B3 B4 B5 B6]. set (d := sdb_db b) in *.
  destruct (filter_batch _ _ Hf) as (entries & batch0 & E1 & E2 & Hcols & Hf').
  assert (∀ ops (kv : KeyValueDB), Forall (λ op, op_col op = COL_ACCOUNT_BLOOM) ops →
    ∀ key, kv_get (kv_write ops kv) (column d) key = kv_get kv (column d) key) as Hcol.
  { intros ops kv Ho key. apply kv_write_col. eapply Forall_impl; [exact Ho|].
    intros op ->. by rewrite B4. }
  assert (pending_ok content batch0 d) as Hpo.
  { split; [|done..]. eapply journal_on_disk_col; [|exact B1]. intros key. by apply Hcol. }
  assert (next_era (jo_journal (journal_overlay d)) (latest_era (journal_overlay d)) 0) as Hnext.
  { split; [lia|]. destruct B5 as [->| ->]; [done|by left]. }
  unfold sdb_journal_under. rewrite E1. cbn [mbind outcome_bind]. rewrite E2.
  cbn [mbind outcome_bind journal_journal_under overlay_journal].
  pose proof (journal_under_ok content content_null short_null batch0 0 id d Hpo Hnext) as Hj.
  pose proof (journal_under_shape batch0 0 id d) as Hshape. cbn zeta in Hshape. fold d.
  destruct (journal_under batch0 0 id d) as [[batch d1] n].
  destruct Hj as (Hpo' & Hpe & Htx & Hbk & Hco). destruct Hshape as (Hjo & Hla & ops & -> & Hops).
  eexists _, _, _. split; [done|]. unfold write_journal. cbn [sdb_db set_sdb_db].
  assert (latest_era (journal_overlay d1) = Some 0%Z) as Hla'.
  { rewrite Hla. by destruct B5 as [->| ->]. }
  assert (∀ key, payload key (write_batch (batch0 ++ ops) d1) = payload key d) as Hpay.
  { intros key. unfold payload. cbn [write_batch backing column]. rewrite Hbk, Hco, kv_write_app.
    rewrite write_other_keys by eauto. by apply Hcol. }
  assert (overlay_base (write_batch (batch0 ++ ops) d1)) as Hbase.
  { destruct Hpo' as [P1 P2 P3]. split; cbn; [done..|congruence|by right|].
    intros k v Hk. apply B6. change (payload k d = Some v). by rewrite <- Hpay. }
  split_and!; [split|..]; cbn; try done.
  - by destruct Hb as [Hu Hbm Hcode].
  - rewrite Hbk, kv_write_app. eapply on_disk_col; [|exact Hf']. intros key.
    apply kv_write_col. eapply Forall_impl; [exact Hops|]. intros op (k & v & -> & _). cbn.
    by rewrite B4.
  - by eapply journal_finds; [done..| |exact Hjo|].
  - intros a. unfold sdb_is_known_null. cbn.
    rewrite !bloom_check_ok; [done|by eapply on_disk_ok|by eapply on_disk_ok].
Qed.

(** ** Commit and restart *)

Context `{!TrieLaws} `{!TrieReads}.
Abbreviation d_of s := (sdb_db (st_db s)).

(** A state right after a commit. *)
Record just_committed (s : State (B := DB)) : Prop := {
  jc_cache : cache s = ∅;
  jc_checkpoints : checkpoints s = [];
  jc_tx : mdb_data (transaction_overlay (d_of s)) = ∅;
  jc_era : latest_era (journal_overlay (d_of s)) = Some 0%Z;
  jc_filter : journal (bitmap (account_bloom (st_db s))) = ∅;
}.

(** A state without a cache is as its database. *)
Lemma state_ok_reads (s : State (B := DB)) (b : DB) :
  state_ok s → cache s = ∅ → checkpoints s = [] → store_ok b → finds_more (d_of s) (sdb_db b) →
  (∀ a, is_known_null b a = Done true → is_known_null (st_db s) a = Done true) →
  state_ok (set_db b s) ∧ world (set_db b s) ≡ world s.
Proof.
  intros Hs Hc Hcp Hb Hm Hk.
  destruct (reads_db (d_of s) (sdb_db b) Hm (st_root s) _ (is_known_null b) (so_db s Hs) Hk)
    as [Hdb Hw]. split.
  - split; cbn; [done|done|rewrite Hc; by intros ??|rewrite Hcp; by intros ??? ?%elem_of_nil].
  - intros a. unfold world. cbn. rewrite Hc, lookup_empty. apply Hw.
Qed.

Lemma statedb_commit_ok s :
  state_ok s → checkpoints s = [] → (∀ a v, world s a = Some v → ¬ view_empty v) →
  ∃ s1, commit s = Done (s1, Ok tt) ∧
    (nodes_agree (d_of s1) →
     ∃ roots s2, statedb_commit s = Done (s2, Ok tt) ∧ state_ok s2 ∧ just_committed s2 ∧
       world s2 ≡ committed_world roots (world s) ∧ account_start_nonce s2 = account_start_nonce s).
Proof.
  intros Hs Hcp Hne.
  destruct (commit_clear_ok s Hs Hcp Hne) 
    as (roots & s1 & s2 & E1 & E2 & Hs2 & Hw & Hc & Hcp2 & Hno).
  exists s1. split; [done|]. intros Hag.
  assert (st_db s2 = st_db s1) as Hdb.
  { unfold clear in E2. case_decide; [|done]. by injection E2 as <-. }
  destruct (journal_commit_ok (st_db s2) h256_default (so_backend s2 Hs2))
    as (batch & b & n & E3 & Hb & Hm & Hk & Htx & Hla & Hj); [by rewrite Hdb|].
  destruct (state_ok_reads s2 (write_journal batch b) Hs2 Hc Hcp2 Hb Hm) as [Hok Hw2].
  { intros a. by rewrite Hk. }
  exists roots, (set_db (write_journal batch b) s2). split_and!; try done.
  - unfold statedb_commit. unfold mbind at 1, sm_bind. rewrite E1. cbn [mbind outcome_bind].
    unfold sm_state. rewrite E2. cbn [mbind outcome_bind]. by rewrite E3.
  - by rewrite Hw2.
Qed.

(** Opening the store at the root of a committed state. *)
Lemma statedb_open_ok spec s :
  state_ok s → just_committed s →
  ∃ s', statedb_open optimal_k_num size_of_account spec (backing (d_of s)) (Some (st_root s)) =
      Done (Ok s') ∧ state_ok s' ∧ world s' ≡ world s.
Proof.
  intros Hs [Hc Hcp Htx Hera Hj]. destruct (so_backend s Hs) as [Hsd Hbase Hf].
  pose proof Hbase as [B1 B2 B3 B4 B5 B6].
  destruct (read_overlay_ok content content_null short_null _ _ _ _ B1) as (o & Er & Ho & Hl & Hp).
  rewrite B4 in Er. pose proof (proj1 Ho) as Hjo.
  set (d := mkOverlayDB mdb_new (backing (d_of s)) o 0).
  assert (overlay_base d) as Hd.
  { split; cbn; rewrite ?Hjo, ?Hl; try done; rewrite <- B4; done. }
  assert (finds_more (d_of s) d) as Hm.
  { intros key v. rewrite (finds_recent (d_of s)), (finds_recent d) by done. unfold payload.
    subst d. cbn [transaction_overlay journal_overlay backing column].
    by rewrite !mdb_raw_data, mdb_data_new, Htx, Hjo, B4. }
  set (b := mkStateDB d (mkAccountCache (lru_new (Z.to_nat
      (state_cache_size * ACCOUNT_CACHE_RATIO / 100 / size_of_account))) [])
    (lru_new (Z.to_nat (state_cache_size - state_cache_size * ACCOUNT_CACHE_RATIO / 100))) []
    (image (backing (d_of s)) (k_num (account_bloom (st_db s)))) state_cache_size None None None).
  assert (store_ok b) as Hb.
  { split; [|done|by apply image_on_disk]. split; [done|apply image_ok|].
    intros h c. cbn. by rewrite lru_entries_new, lookup_empty. }
  destruct (state_ok_reads s b Hs Hc Hcp Hb Hm) as [Hok Hw].
  { intros a. cbn. unfold sdb_is_known_null. cbn [b account_bloom].
    by rewrite <- (clean_image _ _ _ Hf Hj). }
  exists (mkState b (st_root s) ∅ [] (spec_start_nonce spec)). split_and!.
  - unfold statedb_open, overlay_new. rewrite Er. cbn [mbind outcome_bind].
    unfold state_db_new. cbn [journal_backing overlay_journal backing].
    rewrite (load_on_disk _ _ _ Hf). cbn [mbind outcome_bind].
    fold d. fold b. assert (overlay_is_empty (sdb_db b) = false) as ->.
    { unfold overlay_is_empty. cbn [b d sdb_db backing column].
      pose proof (jd_latest _ _ _ _ _ B1) as Hlat. rewrite Hera, B4 in Hlat. by rewrite Hlat. }
    cbn [mbind outcome_bind default from_option id]. unfold from_existing.
    assert (root_contained (as_hash_db b) (st_root s) = true) as ->; [|done].
    apply reads_root. intros a. apply (do_lookup _ _ _ (so_db _ Hok)).
  - destruct Hok as [O1 O2 _ _]. split; [exact O1|exact O2|by intros ??|by intros ??? ?%elem_of_nil].
  - intros a. rewrite <- (Hw a). unfold world. cbn. by rewrite Hc, lookup_empty.
Qed.
End Inv.
