(* ===== verification/StateExample.v ===== *)
(** * A state database to evaluate

    Instances of the parameters of the state: caches that never evict, and tries kept as three
    nodes of the journal database, one with the accounts, one with their storage and one with
    their code.  They satisfy the laws the theorems assume. *)

From S2P Require Import Prelude Hash Transaction Account State World StateInv StateCommit KeyValue.
From S2P Require Import Bloom JournalDb JournalTheorems StateDb StateDbTheorems StateDatabase.

#[global] Instance basic_eq_dec : EqDecision BasicAccount.
Proof. solve_decision. Defined.
#[global] Program Instance basic_countable : Countable BasicAccount :=
  inj_countable' (λ b, (basic_nonce b, basic_balance b, basic_storage_root b, basic_code_hash b,
      basic_code_version b)) (λ '(n, b, r, h, v), mkBasic n b r h v) _.
Next Obligation. by intros []. Qed.

(** ** Three nodes *)

#[local] Existing Instances example_keccak journal_rlp journal_rlp_decode journal_rlp_laws
  example_memory_db example_memory_laws example_hash_order example_sip_hash.

Definition ACCOUNTS : H256 := h256 (2 ^ 200).
Definition STORAGE : H256 := h256 (2 ^ 201).
Definition CODES : H256 := h256 (2 ^ 202).

Abbreviation Codes := (gmap (list byte * H256) (list byte)).
Abbreviation Stores := (gmap (list byte) (gmap H256 Z)).
Abbreviation Accounts := (gmap (list byte) BasicAccount).

Definition node `{Countable A} (key : H256) (d : OverlayRecentDB) : option A :=
  v ← overlay_get key d; decode (of_bits v).

Definition set_node `{Countable A} (key : H256) (x : A) (d : OverlayRecentDB) : OverlayRecentDB :=
  set_transaction (<[key := (bits_of (encode x), 1%Z)]>
    (transaction_overlay d : gmap H256 (DBValue * Z))) d.

Lemma node_set `{Countable A} key (x : A) d :
  key ≠ KECCAK_NULL_RLP → node key (set_node key x d) = Some x.
Proof.
  intros Hk. unfold node, overlay_get, set_node. cbn. rewrite decide_False by done.
  rewrite lookup_insert_eq. cbn. by rewrite of_bits_of, decode_encode.
Qed.

Lemma node_set_ne `{Countable A} `{Countable C} key key' (x : A) d :
  key ≠ key' → node (A := C) key' (set_node key x d) = node key' d.
Proof.
  intros Hk. unfold node. f_equal. unfold overlay_get, set_node. cbn.
  by rewrite lookup_insert_ne.
Qed.

Lemma node_more `{Countable A} key (x : A) d d' :
  finds_more d d' → node key d = Some x → node key d' = Some x.
Proof.
  unfold node. intros Hm. destruct (overlay_get key d) as [v|] eqn:E; [|done].
  by rewrite (Hm key v E).
Qed.

(** ** Tries *)

Definition get_accounts (d : OverlayRecentDB) (root : H256) : option Accounts :=
  if decide (root = KECCAK_NULL_RLP) then Some ∅ else node ACCOUNTS d.

Definition get_storage (d : OverlayRecentDB) (a : list byte) (root : H256) : option (gmap H256 Z) :=
  if decide (root = KECCAK_NULL_RLP) then Some ∅
  else (node (A := Stores) STORAGE d : option Stores) ≫= λ m, m !! a.

Definition get_stores (d : OverlayRecentDB) : Stores := default ∅ (node (A := Stores) STORAGE d).
Definition get_codes (d : OverlayRecentDB) : Codes := default ∅ (node (A := Codes) CODES d).

Definition ROOT : H256 := h256 1.

Definition put_storage (d : OverlayRecentDB) (a : list byte) (root : H256)
    (f : gmap H256 Z → gmap H256 Z) : Result (OverlayRecentDB * H256) TrieError :=
  match get_storage d a root with
  | Some m => Ok (set_node (A := Stores) STORAGE (<[a := f m]> (get_stores d)) d, ROOT)
  | None => Err TrieFailure
  end.

Definition put_accounts (d : OverlayRecentDB) (root : H256) (f : Accounts → Accounts) :
    Result (OverlayRecentDB * H256) TrieError :=
  match get_accounts d root with
  | Some m => Ok (set_node (A := Accounts) ACCOUNTS (f m) d, ROOT)
  | None => Err TrieFailure
  end.

#[export] Instance example_tries : TrieFunctions OverlayRecentDB := {|
  tf_account_lookup d root a :=
    match get_accounts d root with Some m => Ok (m !! a) | None => Err TrieFailure end;
  tf_storage_lookup d a root key :=
    match get_storage d a root with Some m => Ok (default 0%Z (m !! key)) | None => Err TrieFailure end;
  tf_code_lookup d a h := get_codes d !! (a, h);
  tf_code_emplace d a h c := set_node (A := Codes) CODES (<[(a, h) := c]> (get_codes d)) d;
  tf_storage_open _ _ _ := Ok tt;
  tf_storage_insert d a root key z := put_storage d a root (<[key := z]>);
  tf_storage_remove d a root key := put_storage d a root (delete key);
  tf_account_open _ _ := Ok tt;
  tf_account_insert d root a basic := put_accounts d root (<[a := basic]>);
  tf_account_remove d root a := put_accounts d root (delete a);
  tf_root_contained _ _ := true;
|}.

Lemma node_keys : ACCOUNTS ≠ STORAGE ∧ ACCOUNTS ≠ CODES ∧ STORAGE ≠ CODES ∧
  ACCOUNTS ≠ KECCAK_NULL_RLP ∧ STORAGE ≠ KECCAK_NULL_RLP ∧ CODES ≠ KECCAK_NULL_RLP ∧
  ROOT ≠ KECCAK_NULL_RLP.
Proof. split_and!; intros E%(f_equal h256_bytes); by vm_compute in E. Qed.

Lemma put_storage_ok d a root f :
  complete_root d a root →
  ∃ d', put_storage d a root f = Ok (d', ROOT) ∧ db_step d d' ∧ storage_frame a d d' ∧
    ∃ m, get_storage d a root = Some m ∧ get_storage d' a ROOT = Some (f m).
Proof.
  intros Hc. destruct node_keys as (N1 & N2 & N3 & N4 & N5 & N6 & N7). unfold put_storage.
  destruct (get_storage d a root) as [m|] eqn:E; cycle 1.
  { destruct (Hc (h256 0)) as [z Hz]. cbn in Hz. by rewrite E in Hz. }
  eexists. split; [done|]. split_and!; [done| |].
  - split; cbn.
    + intros b r key Hb. unfold get_storage. destruct (decide _); [done|].
      rewrite node_set by done. cbn. rewrite lookup_insert_ne by done. unfold get_stores.
      by destruct (node STORAGE d).
    + intros b h. unfold get_codes. by rewrite node_set_ne.
    + intros r b. unfold get_accounts. destruct (decide _); [done|]. by rewrite node_set_ne.
  - exists m. split; [done|]. unfold get_storage. rewrite decide_False by done.
    rewrite node_set by done. cbn. apply lookup_insert_eq.
Qed.

Lemma put_accounts_ok d root f :
  complete_state d root →
  ∃ d', put_accounts d root f = Ok (d', ROOT) ∧ db_step d d' ∧ state_frame d d' ∧
    ∃ m, get_accounts d root = Some m ∧ get_accounts d' ROOT = Some (f m).
Proof.
  intros Hc. destruct node_keys as (N1 & N2 & N3 & N4 & N5 & N6 & N7). unfold put_accounts.
  destruct (get_accounts d root) as [m|] eqn:E; cycle 1.
  { destruct (Hc []) as [z Hz]. cbn in Hz. by rewrite E in Hz. }
  eexists. split; [done|]. split_and!; [done| |].
  - split; cbn.
    + intros b r key _. unfold get_storage. destruct (decide _); [done|]. by rewrite node_set_ne.
    + intros b h _. unfold get_codes. by rewrite node_set_ne.
  - exists m. split; [done|]. unfold get_accounts. rewrite decide_False by done.
    by rewrite node_set.
Qed.

Lemma example_trie_laws : TrieLaws.
Proof.
  destruct node_keys as (N1 & N2 & N3 & N4 & N5 & N6 & N7). split.
  - intros d1 d2 d3 (E1 & E2 & E3) (F1 & F2 & F3). repeat split; congruence.
  - by intros d.
  - intros d a key. cbn. unfold get_storage. by rewrite decide_True.
  - done.
  - intros d a root key z Hc _. destruct (put_storage_ok d a root (<[key := z]>) Hc)
      as (d' & E & Hs & F & m & G & G'). exists d', ROOT. split_and!; [exact E|exact Hs|exact F|].
    intros k. cbn. rewrite G, G'. case_decide; [subst; by rewrite lookup_insert_eq|].
    by rewrite lookup_insert_ne.
  - intros d a root key Hc. destruct (put_storage_ok d a root (delete key) Hc)
      as (d' & E & Hs & F & m & G & G'). exists d', ROOT. split_and!; [exact E|exact Hs|exact F|].
    intros k. cbn. rewrite G, G'. case_decide; [subst; by rewrite lookup_delete_eq|].
    by rewrite lookup_delete_ne.
  - done.
  - intros d a h code Hk. exists code. split; [|done]. cbn. unfold get_codes at 1.
    rewrite node_set by done. apply lookup_insert_eq.
  - intros d a h code b Hb h'. cbn. unfold get_codes at 1. rewrite node_set by done.
    cbn. by rewrite lookup_insert_ne by congruence.
  - intros d a h code b root key. cbn. unfold get_storage. destruct (decide _); [done|].
    by rewrite node_set_ne.
  - intros d a h code root b. cbn. unfold get_accounts. destruct (decide _); [done|].
    by rewrite node_set_ne.
  - done.
  - intros d root a basic Hc. destruct (put_accounts_ok d root (<[a := basic]>) Hc)
      as (d' & E & Hs & F & m & G & G'). exists d', ROOT. split_and!; [exact E|exact Hs|exact F|].
    intros b. cbn. rewrite G, G'. case_decide; [subst; by rewrite lookup_insert_eq|].
    by rewrite lookup_insert_ne.
  - intros d root a Hc. destruct (put_accounts_ok d root (delete a) Hc)
      as (d' & E & Hs & F & m & G & G'). exists d', ROOT. split_and!; [exact E|exact Hs|exact F|].
    intros b. cbn. rewrite G, G'. case_decide; [subst; by rewrite lookup_delete_eq|].
    by rewrite lookup_delete_ne.
Defined.

Lemma example_trie_reads : TrieReads.
Proof.
  split; [..|by intros d root _].
  - intros d d' root a r Hm. cbn. unfold get_accounts. destruct (decide _); [done|].
    destruct (node ACCOUNTS d) as [m|] eqn:E; [|done]. by rewrite (node_more _ _ d d' Hm E).
  - intros d d' a root key z Hm. cbn. unfold get_storage. destruct (decide _); [done|].
    destruct (node STORAGE d) as [m|] eqn:E; [|done]. by rewrite (node_more _ _ d d' Hm E).
  - intros d d' a h c Hm. cbn. unfold get_codes.
    destruct (node CODES d) as [m|] eqn:E; [|done]. by rewrite (node_more _ _ d d' Hm E).
Defined.
