(* ===== verification/StateTheorems.v ===== *)
(** * Theorems on the state

    The state refines a stack of worlds, and the state database of the node keeps the
    committed world when it is opened again. *)

From S2P Require Import Prelude Hash Transaction Account State World StateInv StateSteps.
From S2P Require Import StateRefine StateCommit KeyValue Bloom JournalDb JournalTheorems StateDb.
From S2P Require Import StateDbTheorems StateDatabase StateExample.

Section Refinement.
Context `{Keccak} `{LruCache H256 H256} `{!LruLaws H256 H256} `{TrieDatabase} `{HashOrder}.
Context {B : Type} `{!Backend B} `{!DbStep} `{!BackendLaws}.

Lemma new_state_ok db root start :
  backend_ok db → db_ok (as_hash_db db) root (is_known_null db) →
  state_ok (mkState db root ∅ [] start).
Proof. intros Hb Hd. split; cbn; [done..|by intros ??|by intros ??? ?%elem_of_nil]. Qed.

(** C17: The state with its caches and checkpoints refines a stack of worlds.  A state opened on
    a complete database answers every sequence of queries, changes of balances, nonces, code
    and storage, transfers, creations and removals of accounts, checkpoints, discards and
    reverts as the worlds do: a checkpoint saves the world, a revert brings the last saved one
    back; and it panics exactly when a transfer takes more than the balance. *)
Theorem state_refines_worlds (db : B) (root : H256) (start : Z) (ops : list StateOp) :
  backend_ok db → db_ok (as_hash_db db) root (is_known_null db) →
  root_contained (as_hash_db db) root = true →
  ∃ s, from_existing db root start = Ok s ∧
    match spec_ops start ops (db_world (as_hash_db db) root, []) with
    | Panic => run_ops ops s = Panic
    | Done (w, saved_ws, rs) => ∃ s', run_ops ops s = Done (s', rs) ∧ world s' ≡ w ∧
        Forall2 (≡@{World}) (saved s') saved_ws
    end.
Proof.
  intros Hb Hd Hr. unfold from_existing. rewrite Hr. eexists. split; [done|].
  pose proof (run_ops_ok ops (mkState db root ∅ [] start) (db_world (as_hash_db db) root) []
    (new_state_ok db root start Hb Hd)) as Hok.
  cbn [account_start_nonce] in Hok.
  specialize (Hok ltac:(by intros a) ltac:(done)).
  destruct (spec_ops start ops _) as [[[w ws] rs]|]; [|done].
  destruct Hok as (s' & E & _ & _ & Hw & Hws). by exists s'.
Qed.
End Refinement.

Section Restart.
Context `{Keccak} `{Rlp} `{RlpDecode} `{!RlpLaws} `{MemoryDb} `{!MemoryDbLaws} `{HashOrder}.
Context `{!LruCache H256 H256} `{!LruLaws H256 H256} `{!TrieFunctions OverlayRecentDB}.
Context `{!LruCache Address (option Account)}.
Context `{!LruCache H256 (list byte)} `{!LruLaws H256 (list byte)}.
Context `{!SipHash (list byte)} (optimal_k_num : Z → nat → Z) (size_of_account : Z).
Context (content : H256 → DBValue) (content_null : ∀ s, content s ≠ NULL_RLP).
Context (short_null : ∀ k, to_short_key k ≠ KECCAK_NULL_RLP).
Context `{!TrieLaws} `{!TrieReads}.

#[local] Existing Instance overlay_journal.

(** The backend of the node, with the invariant of its journal and filter. *)
#[local] Instance node_backend : BackendLaws (B := StateDB (J := OverlayRecentDB)) :=
  store_laws optimal_k_num content.
Abbreviation d_of s := (sdb_db (st_db s)).

(** C18: The state database survives restarts: committing a state without open checkpoints and
    empty accounts succeeds, and if the nodes it writes do not collide, the store has what is
    needed: opened again at the root of the committed state, it gives each account the balance,
    nonce, code hash and storage it had.  Only the roots of the storage tries are new. *)
Theorem statedb_survives_restart spec (s : State (B := StateDB (J := OverlayRecentDB))) :
  state_ok s → checkpoints s = [] → (∀ a v, world s a = Some v → ¬ view_empty v) →
  ∃ s1, commit s = Done (s1, Ok tt) ∧
    (nodes_agree content (d_of s1) →
     ∃ roots s2 s3, statedb_commit s = Done (s2, Ok tt) ∧
       statedb_open optimal_k_num size_of_account spec (backing (d_of s2))
         (Some (statedb_root s2)) = Done (Ok s3) ∧
       world s2 ≡ committed_world roots (world s) ∧ world s3 ≡ committed_world roots (world s)).
Proof.
  intros Hs Hcp Hne.
  destruct (statedb_commit_ok optimal_k_num content content_null short_null s Hs Hcp Hne)
    as (s1 & E1 & Hgo).
  exists s1. split; [done|]. intros Hag. destruct (Hgo Hag) as (roots & s2 & E2 & Hs2 & Hj & Hw & _).
  destruct (statedb_open_ok optimal_k_num size_of_account content content_null short_null spec s2
    Hs2 Hj) as (s3 & E3 & Hs3 & Hw3).
  exists roots, s2, s3. split_and!; try done. by rewrite Hw3.
Qed.
End Restart.

(** ** Examples *)

#[local] Existing Instances example_keccak journal_rlp journal_rlp_decode journal_rlp_laws
  example_memory_db example_memory_laws example_hash_order example_sip_hash example_tries
  example_trie_laws example_trie_reads overlay_journal.
#[local] Instance example_storage_lru : LruCache H256 H256 := example_lru H256 H256.
#[local] Instance example_storage_lru_laws : LruLaws H256 H256 := example_lru_laws H256 H256.
#[local] Instance example_code_lru : LruCache H256 (list byte) := example_lru H256 (list byte).
#[local] Instance example_code_lru_laws : LruLaws H256 (list byte) :=
  example_lru_laws H256 (list byte).
#[local] Instance example_account_lru : LruCache Address (option Account) :=
  example_lru (list byte) (option Account).

Definition example_k : Z → nat → Z := λ _ _, 0%Z.

Definition example_address : Address := replicate 20 "007"%byte.

(** The node with the account of the example, and another value for all other keys. *)
Definition example_node : DBValue :=
  bits_of (encode ({[example_address := mkBasic 0 5 KECCAK_NULL_RLP KECCAK_EMPTY 0]} : Accounts)).
Definition example_nodes (s : H256) : DBValue :=
  if decide (s = to_short_key ACCOUNTS) then example_node else ["001"%byte].

(** A new state database. *)
Definition example_backend : StateDB (J := OverlayRecentDB) :=
  mkStateDB (mkOverlayDB mdb_new ∅ (mkOverlay mdb_new ∅ ∅ None None 0) 0)
    (mkAccountCache (lru_new 0) []) (lru_new 0) [] (image ∅ 0) 0 None None None.

#[local] Instance example_laws : BackendLaws (B := StateDB (J := OverlayRecentDB)) :=
  store_laws example_k example_nodes.

Lemma example_backend_ok : backend_ok example_backend.
Proof.
  split.
  - split; [done|apply image_ok|]. intros h c. cbn. by rewrite lookup_empty.
  - split; [apply journal_on_disk_empty| |done|done|by left|done].
    split; [done|]. exact (overlay_counts_new example_nodes).
  - apply (empty_on_disk example_k). unfold example_k. lia.
Qed.

Lemma example_db_ok :
  db_ok (as_hash_db example_backend) KECCAK_NULL_RLP (is_known_null example_backend).
Proof.
  split; [done|..].
  - intros a. exists None. cbn. unfold get_accounts. rewrite decide_True by done.
    by rewrite lookup_empty.
  - intros a b. cbn. unfold get_accounts. rewrite decide_True by done. by rewrite lookup_empty.
  - intros a _. cbn. unfold get_accounts. rewrite decide_True by done. by rewrite lookup_empty.
Qed.

(** A payment that is reverted, on an empty database. *)
Definition example_ops : list StateOp :=
  [OpAddBalance example_address 5 NoEmpty; OpCheckpoint; OpAddBalance example_address 7 NoEmpty;
   OpBalance example_address; OpRevert; OpBalance example_address].

Lemma state_refines_worlds_witness :
  ∃ s s', from_existing example_backend KECCAK_NULL_RLP 0 = Ok s ∧
    run_ops example_ops s = Done (s', [Ok (AMode NoEmpty); Ok (ANat 0); Ok (AMode NoEmpty);
      Ok (ANum 12); Ok AUnit; Ok (ANum 5)]).
Proof.
  destruct (state_refines_worlds example_backend KECCAK_NULL_RLP 0 example_ops
    example_backend_ok example_db_ok eq_refl) as (s & Es & Hs).
  exists s.
  assert (∃ w ws, spec_ops 0 example_ops (db_world (as_hash_db example_backend) KECCAK_NULL_RLP, [])
    = Done (w, ws, [Ok (AMode NoEmpty); Ok (ANat 0); Ok (AMode NoEmpty); Ok (ANum 12); Ok AUnit;
        Ok (ANum 5)])) as (w & ws & E).
  { eexists _, _. by vm_compute. }
  rewrite E in Hs. destruct Hs as (s' & Er & _). exists s'. split; [exact Es|exact Er].
Defined.

Definition example_state : State (B := StateDB (J := OverlayRecentDB)) :=
  mkState example_backend KECCAK_NULL_RLP ∅ [] 0.

Lemma example_nodes_null s : example_nodes s ≠ NULL_RLP.
Proof.
  unfold example_nodes. case_decide; [|done]. intros E%(f_equal (λ l, l !! 0)).
  by vm_compute in E.
Qed.

Definition example_spec : Spec := mkSpec KECCAK_NULL_RLP (h256 0) 0 (λ db, Done (Ok db)).

Definition example_paid : State (B := StateDB (J := OverlayRecentDB)) :=
  match statedb_add_balance example_address 5 example_state with
  | Done (s, _) => s
  | Panic => example_state
  end.

Lemma example_state_empty a : world example_state a = None.
Proof.
  unfold world, db_world, db_account. cbn. unfold get_accounts. rewrite decide_True by done.
  by rewrite lookup_empty.
Qed.

Lemma example_paid_ok :
  statedb_add_balance example_address 5 example_state = Done (example_paid, Ok tt) ∧
  state_ok example_paid ∧
  world example_paid ≡ wset example_address (Some (with_balance 5 (empty_view 0))) (world example_state).
Proof.
  pose proof (run_op_ok (OpAddBalance example_address 5 NoEmpty) example_state
    (new_state_ok _ _ _ example_backend_ok example_db_ok)) as Hop.
  cbn [spec_op spec_world] in Hop. unfold spec_add_balance in Hop.
  rewrite example_state_empty in Hop. cbn [bool_decide] in Hop.
  rewrite bool_decide_eq_true_2 in Hop by done. cbn [orb mbind outcome_bind] in Hop.
  destruct Hop as (s' & E & Hok & _ & Hw & _).
  assert (add_balance example_address 5 NoEmpty example_state = Done (s', Ok NoEmpty)) as Ea.
  { cbn [run_op] in E. unfold mbind, sm_bind in E.
    destruct (add_balance example_address 5 NoEmpty example_state) as [[s r]|]; [|done].
    cbn [mbind outcome_bind] in E. destruct r as [m|e]; [|done].
    unfold mret, sm_ret in E. by injection E as <- <-. }
  assert (statedb_add_balance example_address 5 example_state = Done (s', Ok tt)) as Es.
  { unfold statedb_add_balance. by rewrite (sm_bind_ok _ _ _ _ _ Ea). }
  assert (example_paid = s') as ->; [|split_and!; [exact Es|exact Hok|exact Hw]].
  unfold example_paid. by rewrite Es.
Qed.

Lemma example_paid_not_empty a v : world example_paid a = Some v → ¬ view_empty v.
Proof.
  intros E [Hn _]. pose proof (proj2 (proj2 example_paid_ok) a) as Hw. rewrite E in Hw.
  unfold wset in Hw. case_decide; [|rewrite example_state_empty in Hw; inversion Hw].
  inversion Hw as [? ? Hv|]; subst. destruct Hv as [Hb _ _ _ _ _]. unfold view_null in Hn.
  by rewrite Hb in Hn.
Qed.

(** The nodes of the transaction overlay. *)
Definition overlay_nodes (s : State (B := StateDB (J := OverlayRecentDB))) :
    gmap H256 (DBValue * Z) := transaction_overlay (sdb_db (st_db s)).

Lemma example_commit_nodes :
  match commit example_paid with Done (s, _) => overlay_nodes s | Panic => ∅ end =
  {[ACCOUNTS := (example_node, 1%Z)]}.
Proof. refine (bool_decide_eq_true_1 _ _). vm_cast_no_check (eq_refl true). Qed.

Lemma example_nodes_agree s1 :
  commit example_paid = Done (s1, Ok tt) → nodes_agree example_nodes (sdb_db (st_db s1)).
Proof.
  intros E. pose proof example_commit_nodes as Ht. rewrite E in Ht.
  intros k v rc. change (overlay_nodes s1 !! k = Some (v, rc) → (0 < rc)%Z →
    v = example_nodes (to_short_key k)). rewrite Ht. unfold example_nodes.
  generalize example_node. intros n [<- Hn]%lookup_singleton_Some _.
  rewrite decide_True by reflexivity. symmetry. exact (f_equal fst Hn).
Qed.

(** An account with a balance, after a commit and a restart. *)
Lemma statedb_survives_restart_witness :
  ∃ s2 s3, statedb_add_balance example_address 5 example_state = Done (example_paid, Ok tt) ∧
    statedb_commit example_paid = Done (s2, Ok tt) ∧
    statedb_open example_k 100 example_spec (backing (sdb_db (st_db s2))) (Some (statedb_root s2)) =
      Done (Ok s3) ∧
    v_balance <$> world s3 example_address = Some 5%Z.
Proof.
  destruct example_paid_ok as (Epay & Hok & Hw).
  destruct (statedb_survives_restart example_k 100 example_nodes example_nodes_null
    example_short_null example_spec example_paid Hok eq_refl example_paid_not_empty)
    as (s1 & E1 & Hgo).
  destruct (Hgo (example_nodes_agree s1 E1)) as (roots & s2 & s3 & E2 & E3 & _ & Hw3).
  exists s2, s3. split_and!; [exact Epay|exact E2|exact E3|].
  specialize (Hw3 example_address). specialize (Hw example_address). unfold committed_world in Hw3.
  unfold wset in Hw. rewrite decide_True in Hw by reflexivity.
  destruct (world example_paid example_address) as [v|]; [|inversion Hw].
  inversion Hw as [? ? Hv|]; subst. cbn [fmap option_fmap option_map] in Hw3.
  destruct (world s3 example_address) as [v3|]; inversion Hw3 as [? ? Hv3|]; subst.
  cbn. f_equal. rewrite (ve_balance _ _ Hv3). cbn. by rewrite (ve_balance _ _ Hv).
Defined.
