(* ===== verification/Instructions.v ===== *)
(** * Instructions of the virtual machine

    [src/parity-ethereum/ethcore/evm/src/instructions.rs]: the instructions with their opcodes,
    and the table of what each takes from the stack and leaves on it. *)

From S2P Require Import Prelude Hash.
From Stdlib Require Import Strings.Byte Strings.String.

Inductive Instruction :=
| STOP | ADD | MUL | SUB | DIV | SDIV | MOD | SMOD | ADDMOD | MULMOD | EXP | SIGNEXTEND | LT
  | GT | SLT | SGT | EQ | ISZERO | AND | OR | XOR | NOT | BYTE | SHL | SHR | SAR | SHA3
  | ADDRESS | BALANCE | ORIGIN | CALLER | CALLVALUE | CALLDATALOAD | CALLDATASIZE | CALLDATACOPY
  | CODESIZE | CODECOPY | GASPRICE | EXTCODESIZE | EXTCODECOPY | RETURNDATASIZE | RETURNDATACOPY
  | EXTCODEHASH | BLOCKHASH | COINBASE | TIMESTAMP | NUMBER | DIFFICULTY | GASLIMIT | CHAINID
  | SELFBALANCE | POP | MLOAD | MSTORE | MSTORE8 | SLOAD | SSTORE | JUMP | JUMPI | PC | MSIZE
  | GAS | JUMPDEST | PUSH1 | PUSH2 | PUSH3 | PUSH4 | PUSH5 | PUSH6 | PUSH7 | PUSH8 | PUSH9
  | PUSH10 | PUSH11 | PUSH12 | PUSH13 | PUSH14 | PUSH15 | PUSH16 | PUSH17 | PUSH18 | PUSH19
  | PUSH20 | PUSH21 | PUSH22 | PUSH23 | PUSH24 | PUSH25 | PUSH26 | PUSH27 | PUSH28 | PUSH29
  | PUSH30 | PUSH31 | PUSH32 | DUP1 | DUP2 | DUP3 | DUP4 | DUP5 | DUP6 | DUP7 | DUP8 | DUP9
  | DUP10 | DUP11 | DUP12 | DUP13 | DUP14 | DUP15 | DUP16 | SWAP1 | SWAP2 | SWAP3 | SWAP4
  | SWAP5 | SWAP6 | SWAP7 | SWAP8 | SWAP9 | SWAP10 | SWAP11 | SWAP12 | SWAP13 | SWAP14 | SWAP15
  | SWAP16 | LOG0 | LOG1 | LOG2 | LOG3 | LOG4 | CREATE | CALL | CALLCODE | RETURN | DELEGATECALL
  | CREATE2 | REVERT | STATICCALL | SUICIDE.

(** The opcode of an instruction, [self as u8]. *)
Definition opcode (i : Instruction) : byte :=
  match i with
  | STOP => x00 | ADD => x01 | MUL => x02 | SUB => x03 | DIV => x04 | SDIV => x05 | MOD => x06
  | SMOD => x07 | ADDMOD => x08 | MULMOD => x09 | EXP => x0a | SIGNEXTEND => x0b | LT => x10
  | GT => x11 | SLT => x12 | SGT => x13 | EQ => x14 | ISZERO => x15 | AND => x16 | OR => x17
  | XOR => x18 | NOT => x19 | BYTE => x1a | SHL => x1b | SHR => x1c | SAR => x1d | SHA3 => x20
  | ADDRESS => x30 | BALANCE => x31 | ORIGIN => x32 | CALLER => x33 | CALLVALUE => x34
  | CALLDATALOAD => x35 | CALLDATASIZE => x36 | CALLDATACOPY => x37 | CODESIZE => x38
  | CODECOPY => x39 | GASPRICE => x3a | EXTCODESIZE => x3b | EXTCODECOPY => x3c
  | RETURNDATASIZE => x3d | RETURNDATACOPY => x3e | EXTCODEHASH => x3f | BLOCKHASH => x40
  | COINBASE => x41 | TIMESTAMP => x42 | NUMBER => x43 | DIFFICULTY => x44 | GASLIMIT => x45
  | CHAINID => x46 | SELFBALANCE => x47 | POP => x50 | MLOAD => x51 | MSTORE => x52
  | MSTORE8 => x53 | SLOAD => x54 | SSTORE => x55 | JUMP => x56 | JUMPI => x57 | PC => x58
  | MSIZE => x59 | GAS => x5a | JUMPDEST => x5b | PUSH1 => x60 | PUSH2 => x61 | PUSH3 => x62
  | PUSH4 => x63 | PUSH5 => x64 | PUSH6 => x65 | PUSH7 => x66 | PUSH8 => x67 | PUSH9 => x68
  | PUSH10 => x69 | PUSH11 => x6a | PUSH12 => x6b | PUSH13 => x6c | PUSH14 => x6d
  | PUSH15 => x6e | PUSH16 => x6f | PUSH17 => x70 | PUSH18 => x71 | PUSH19 => x72
  | PUSH20 => x73 | PUSH21 => x74 | PUSH22 => x75 | PUSH23 => x76 | PUSH24 => x77
  | PUSH25 => x78 | PUSH26 => x79 | PUSH27 => x7a | PUSH28 => x7b | PUSH29 => x7c
  | PUSH30 => x7d | PUSH31 => x7e | PUSH32 => x7f | DUP1 => x80 | DUP2 => x81 | DUP3 => x82
  | DUP4 => x83 | DUP5 => x84 | DUP6 => x85 | DUP7 => x86 | DUP8 => x87 | DUP9 => x88
  | DUP10 => x89 | DUP11 => x8a | DUP12 => x8b | DUP13 => x8c | DUP14 => x8d | DUP15 => x8e
  | DUP16 => x8f | SWAP1 => x90 | SWAP2 => x91 | SWAP3 => x92 | SWAP4 => x93 | SWAP5 => x94
  | SWAP6 => x95 | SWAP7 => x96 | SWAP8 => x97 | SWAP9 => x98 | SWAP10 => x99 | SWAP11 => x9a
  | SWAP12 => x9b | SWAP13 => x9c | SWAP14 => x9d | SWAP15 => x9e | SWAP16 => x9f | LOG0 => xa0
  | LOG1 => xa1 | LOG2 => xa2 | LOG3 => xa3 | LOG4 => xa4 | CREATE => xf0 | CALL => xf1
  | CALLCODE => xf2 | RETURN => xf3 | DELEGATECALL => xf4 | CREATE2 => xf5 | REVERT => xfd
  | STATICCALL => xfa | SUICIDE => xff
  end.

Definition from_u8 (value : byte) : option Instruction :=
  match value with
  | x00 => Some STOP | x01 => Some ADD | x02 => Some MUL | x03 => Some SUB | x04 => Some DIV
  | x05 => Some SDIV | x06 => Some MOD | x07 => Some SMOD | x08 => Some ADDMOD
  | x09 => Some MULMOD | x0a => Some EXP | x0b => Some SIGNEXTEND | x10 => Some LT
  | x11 => Some GT | x12 => Some SLT | x13 => Some SGT | x14 => Some EQ | x15 => Some ISZERO
  | x16 => Some AND | x17 => Some OR | x18 => Some XOR | x19 => Some NOT | x1a => Some BYTE
  | x1b => Some SHL | x1c => Some SHR | x1d => Some SAR | x20 => Some SHA3 | x30 => Some ADDRESS
  | x31 => Some BALANCE | x32 => Some ORIGIN | x33 => Some CALLER | x34 => Some CALLVALUE
  | x35 => Some CALLDATALOAD | x36 => Some CALLDATASIZE | x37 => Some CALLDATACOPY
  | x38 => Some CODESIZE | x39 => Some CODECOPY | x3a => Some GASPRICE | x3b => Some EXTCODESIZE
  | x3c => Some EXTCODECOPY | x3d => Some RETURNDATASIZE | x3e => Some RETURNDATACOPY
  | x3f => Some EXTCODEHASH | x40 => Some BLOCKHASH | x41 => Some COINBASE
  | x42 => Some TIMESTAMP | x43 => Some NUMBER | x44 => Some DIFFICULTY | x45 => Some GASLIMIT
  | x46 => Some CHAINID | x47 => Some SELFBALANCE | x50 => Some POP | x51 => Some MLOAD
  | x52 => Some MSTORE | x53 => Some MSTORE8 | x54 => Some SLOAD | x55 => Some SSTORE
  | x56 => Some JUMP | x57 => Some JUMPI | x58 => Some PC | x59 => Some MSIZE | x5a => Some GAS
  | x5b => Some JUMPDEST | x60 => Some PUSH1 | x61 => Some PUSH2 | x62 => Some PUSH3
  | x63 => Some PUSH4 | x64 => Some PUSH5 | x65 => Some PUSH6 | x66 => Some PUSH7
  | x67 => Some PUSH8 | x68 => Some PUSH9 | x69 => Some PUSH10 | x6a => Some PUSH11
  | x6b => Some PUSH12 | x6c => Some PUSH13 | x6d => Some PUSH14 | x6e => Some PUSH15
  | x6f => Some PUSH16 | x70 => Some PUSH17 | x71 => Some PUSH18 | x72 => Some PUSH19
  | x73 => Some PUSH20 | x74 => Some PUSH21 | x75 => Some PUSH22 | x76 => Some PUSH23
  | x77 => Some PUSH24 | x78 => Some PUSH25 | x79 => Some PUSH26 | x7a => Some PUSH27
  | x7b => Some PUSH28 | x7c => Some PUSH29 | x7d => Some PUSH30 | x7e => Some PUSH31
  | x7f => Some PUSH32 | x80 => Some DUP1 | x81 => Some DUP2 | x82 => Some DUP3
  | x83 => Some DUP4 | x84 => Some DUP5 | x85 => Some DUP6 | x86 => Some DUP7 | x87 => Some DUP8
  | x88 => Some DUP9 | x89 => Some DUP10 | x8a => Some DUP11 | x8b => Some DUP12
  | x8c => Some DUP13 | x8d => Some DUP14 | x8e => Some DUP15 | x8f => Some DUP16
  | x90 => Some SWAP1 | x91 => Some SWAP2 | x92 => Some SWAP3 | x93 => Some SWAP4
  | x94 => Some SWAP5 | x95 => Some SWAP6 | x96 => Some SWAP7 | x97 => Some SWAP8
  | x98 => Some SWAP9 | x99 => Some SWAP10 | x9a => Some SWAP11 | x9b => Some SWAP12
  | x9c => Some SWAP13 | x9d => Some SWAP14 | x9e => Some SWAP15 | x9f => Some SWAP16
  | xa0 => Some LOG0 | xa1 => Some LOG1 | xa2 => Some LOG2 | xa3 => Some LOG3 | xa4 => Some LOG4
  | xf0 => Some CREATE | xf1 => Some CALL | xf2 => Some CALLCODE | xf3 => Some RETURN
  | xf4 => Some DELEGATECALL | xf5 => Some CREATE2 | xfd => Some REVERT | xfa => Some STATICCALL
  | xff => Some SUICIDE
  | _ => None
  end.

Definition as_u8 (i : Instruction) : Z := Z_of_byte (opcode i).

Lemma from_u8_opcode i : from_u8 (opcode i) = Some i.
Proof. by destruct i. Qed.

#[global] Instance opcode_inj : Inj (=) (=) opcode.
Proof. intros i j E. apply (inj Some). by rewrite <- !from_u8_opcode, E. Qed.

#[global] Instance instruction_eq_dec : EqDecision Instruction.
Proof.
  intros i j. destruct (decide (opcode i = opcode j)) as [E|E].
  - left. by apply (inj opcode).
  - right. by intros ->.
Defined.

(** The instructions are ordered by their opcodes. *)
Definition between (lo hi i : Instruction) : bool :=
  (as_u8 lo <=? as_u8 i)%Z && (as_u8 i <=? as_u8 hi)%Z.

Definition is_push (i : Instruction) : bool := between PUSH1 PUSH32 i.

Definition push_bytes (i : Instruction) : option nat :=
  if is_push i then Some (Z.to_nat (as_u8 i - as_u8 PUSH1 + 1)) else None.

Definition dup_position (i : Instruction) : option nat :=
  if between DUP1 DUP16 i then Some (Z.to_nat (as_u8 i - as_u8 DUP1)) else None.

Definition swap_position (i : Instruction) : option nat :=
  if between SWAP1 SWAP16 i then Some (Z.to_nat (as_u8 i - as_u8 SWAP1 + 1)) else None.

Definition log_topics (i : Instruction) : option nat :=
  if between LOG0 LOG4 i then Some (Z.to_nat (as_u8 i - as_u8 LOG0)) else None.

Inductive GasPriceTier :=
| TierZero | TierBase | TierVeryLow | TierLow | TierMid | TierHigh | TierExt | TierSpecial.

Definition tier_idx (t : GasPriceTier) : nat :=
  match t with
  | TierZero => 0 | TierBase => 1 | TierVeryLow => 2 | TierLow => 3
  | TierMid => 4 | TierHigh => 5 | TierExt => 6 | TierSpecial => 7
  end.

Record InstructionInfo := mkInfo {
  info_name : string;
  info_args : nat;
  info_ret : nat;
  info_tier : GasPriceTier;
}.

(** The table [INSTRUCTIONS]. *)
Definition INSTRUCTIONS (i : Instruction) : option InstructionInfo :=
  match i with
  | STOP => Some (mkInfo "STOP" 0 0 TierZero)
  | ADD => Some (mkInfo "ADD" 2 1 TierVeryLow)
  | SUB => Some (mkInfo "SUB" 2 1 TierVeryLow)
  | MUL => Some (mkInfo "MUL" 2 1 TierLow)
  | DIV => Some (mkInfo "DIV" 2 1 TierLow)
  | SDIV => Some (mkInfo "SDIV" 2 1 TierLow)
  | MOD => Some (mkInfo "MOD" 2 1 TierLow)
  | SMOD => Some (mkInfo "SMOD" 2 1 TierLow)
  | EXP => Some (mkInfo "EXP" 2 1 TierSpecial)
  | NOT => Some (mkInfo "NOT" 1 1 TierVeryLow)
  | LT => Some (mkInfo "LT" 2 1 TierVeryLow)
  | GT => Some (mkInfo "GT" 2 1 TierVeryLow)
  | SLT => Some (mkInfo "SLT" 2 1 TierVeryLow)
  | SGT => Some (mkInfo "SGT" 2 1 TierVeryLow)
  | EQ => Some (mkInfo "EQ" 2 1 TierVeryLow)
  | ISZERO => Some (mkInfo "ISZERO" 1 1 TierVeryLow)
  | AND => Some (mkInfo "AND" 2 1 TierVeryLow)
  | OR => Some (mkInfo "OR" 2 1 TierVeryLow)
  | XOR => Some (mkInfo "XOR" 2 1 TierVeryLow)
  | BYTE => Some (mkInfo "BYTE" 2 1 TierVeryLow)
  | SHL => Some (mkInfo "SHL" 2 1 TierVeryLow)
  | SHR => Some (mkInfo "SHR" 2 1 TierVeryLow)
  | SAR => Some (mkInfo "SAR" 2 1 TierVeryLow)
  | ADDMOD => Some (mkInfo "ADDMOD" 3 1 TierMid)
  | MULMOD => Some (mkInfo "MULMOD" 3 1 TierMid)
  | SIGNEXTEND => Some (mkInfo "SIGNEXTEND" 2 1 TierLow)
  | RETURNDATASIZE => Some (mkInfo "RETURNDATASIZE" 0 1 TierBase)
  | RETURNDATACOPY => Some (mkInfo "RETURNDATACOPY" 3 0 TierVeryLow)
  | SHA3 => Some (mkInfo "SHA3" 2 1 TierSpecial)
  | ADDRESS => Some (mkInfo "ADDRESS" 0 1 TierBase)
  | BALANCE => Some (mkInfo "BALANCE" 1 1 TierSpecial)
  | ORIGIN => Some (mkInfo "ORIGIN" 0 1 TierBase)
  | CALLER => Some (mkInfo "CALLER" 0 1 TierBase)
  | CALLVALUE => Some (mkInfo "CALLVALUE" 0 1 TierBase)
  | CALLDATALOAD => Some (mkInfo "CALLDATALOAD" 1 1 TierVeryLow)
  | CALLDATASIZE => Some (mkInfo "CALLDATASIZE" 0 1 TierBase)
  | CALLDATACOPY => Some (mkInfo "CALLDATACOPY" 3 0 TierVeryLow)
  | EXTCODEHASH => Some (mkInfo "EXTCODEHASH" 1 1 TierSpecial)
  | CODESIZE => Some (mkInfo "CODESIZE" 0 1 TierBase)
  | CODECOPY => Some (mkInfo "CODECOPY" 3 0 TierVeryLow)
  | GASPRICE => Some (mkInfo "GASPRICE" 0 1 TierBase)
  | EXTCODESIZE => Some (mkInfo "EXTCODESIZE" 1 1 TierSpecial)
  | EXTCODECOPY => Some (mkInfo "EXTCODECOPY" 4 0 TierSpecial)
  | BLOCKHASH => Some (mkInfo "BLOCKHASH" 1 1 TierExt)
  | COINBASE => Some (mkInfo "COINBASE" 0 1 TierBase)
  | TIMESTAMP => Some (mkInfo "TIMESTAMP" 0 1 TierBase)
  | NUMBER => Some (mkInfo "NUMBER" 0 1 TierBase)
  | DIFFICULTY => Some (mkInfo "DIFFICULTY" 0 1 TierBase)
  | GASLIMIT => Some (mkInfo "GASLIMIT" 0 1 TierBase)
  | CHAINID => Some (mkInfo "CHAINID" 0 1 TierBase)
  | SELFBALANCE => Some (mkInfo "SELFBALANCE" 0 1 TierLow)
  | POP => Some (mkInfo "POP" 1 0 TierBase)
  | MLOAD => Some (mkInfo "MLOAD" 1 1 TierVeryLow)
  | MSTORE => Some (mkInfo "MSTORE" 2 0 TierVeryLow)
  | MSTORE8 => Some (mkInfo "MSTORE8" 2 0 TierVeryLow)
  | SLOAD => Some (mkInfo "SLOAD" 1 1 TierSpecial)
  | SSTORE => Some (mkInfo "SSTORE" 2 0 TierSpecial)
  | JUMP => Some (mkInfo "JUMP" 1 0 TierMid)
  | JUMPI => Some (mkInfo "JUMPI" 2 0 TierHigh)
  | PC => Some (mkInfo "PC" 0 1 TierBase)
  | MSIZE => Some (mkInfo "MSIZE" 0 1 TierBase)
  | GAS => Some (mkInfo "GAS" 0 1 TierBase)
  | JUMPDEST => Some (mkInfo "JUMPDEST" 0 0 TierSpecial)
  | PUSH1 => Some (mkInfo "PUSH1" 0 1 TierVeryLow)
  | PUSH2 => Some (mkInfo "PUSH2" 0 1 TierVeryLow)
  | PUSH3 => Some (mkInfo "PUSH3" 0 1 TierVeryLow)
  | PUSH4 => Some (mkInfo "PUSH4" 0 1 TierVeryLow)
  | PUSH5 => Some (mkInfo "PUSH5" 0 1 TierVeryLow)
  | PUSH6 => Some (mkInfo "PUSH6" 0 1 TierVeryLow)
  | PUSH7 => Some (mkInfo "PUSH7" 0 1 TierVeryLow)
  | PUSH8 => Some (mkInfo "PUSH8" 0 1 TierVeryLow)
  | PUSH9 => Some (mkInfo "PUSH9" 0 1 TierVeryLow)
  | PUSH10 => Some (mkInfo "PUSH10" 0 1 TierVeryLow)
  | PUSH11 => Some (mkInfo "PUSH11" 0 1 TierVeryLow)
  | PUSH12 => Some (mkInfo "PUSH12" 0 1 TierVeryLow)
  | PUSH13 => Some (mkInfo "PUSH13" 0 1 TierVeryLow)
  | PUSH14 => Some (mkInfo "PUSH14" 0 1 TierVeryLow)
  | PUSH15 => Some (mkInfo "PUSH15" 0 1 TierVeryLow)
  | PUSH16 => Some (mkInfo "PUSH16" 0 1 TierVeryLow)
  | PUSH17 => Some (mkInfo "PUSH17" 0 1 TierVeryLow)
  | PUSH18 => Some (mkInfo "PUSH18" 0 1 TierVeryLow)
  | PUSH19 => Some (mkInfo "PUSH19" 0 1 TierVeryLow)
  | PUSH20 => Some (mkInfo "PUSH20" 0 1 TierVeryLow)
  | PUSH21 => Some (mkInfo "PUSH21" 0 1 TierVeryLow)
  | PUSH22 => Some (mkInfo "PUSH22" 0 1 TierVeryLow)
  | PUSH23 => Some (mkInfo "PUSH23" 0 1 TierVeryLow)
  | PUSH24 => Some (mkInfo "PUSH24" 0 1 TierVeryLow)
  | PUSH25 => Some (mkInfo "PUSH25" 0 1 TierVeryLow)
  | PUSH26 => Some (mkInfo "PUSH26" 0 1 TierVeryLow)
  | PUSH27 => Some (mkInfo "PUSH27" 0 1 TierVeryLow)
  | PUSH28 => Some (mkInfo "PUSH28" 0 1 TierVeryLow)
  | PUSH29 => Some (mkInfo "PUSH29" 0 1 TierVeryLow)
  | PUSH30 => Some (mkInfo "PUSH30" 0 1 TierVeryLow)
  | PUSH31 => Some (mkInfo "PUSH31" 0 1 TierVeryLow)
  | PUSH32 => Some (mkInfo "PUSH32" 0 1 TierVeryLow)
  | DUP1 => Some (mkInfo "DUP1" 1 2 TierVeryLow)
  | DUP2 => Some (mkInfo "DUP2" 2 3 TierVeryLow)
  | DUP3 => Some (mkInfo "DUP3" 3 4 TierVeryLow)
  | DUP4 => Some (mkInfo "DUP4" 4 5 TierVeryLow)
  | DUP5 => Some (mkInfo "DUP5" 5 6 TierVeryLow)
  | DUP6 => Some (mkInfo "DUP6" 6 7 TierVeryLow)
  | DUP7 => Some (mkInfo "DUP7" 7 8 TierVeryLow)
  | DUP8 => Some (mkInfo "DUP8" 8 9 TierVeryLow)
  | DUP9 => Some (mkInfo "DUP9" 9 10 TierVeryLow)
  | DUP10 => Some (mkInfo "DUP10" 10 11 TierVeryLow)
  | DUP11 => Some (mkInfo "DUP11" 11 12 TierVeryLow)
  | DUP12 => Some (mkInfo "DUP12" 12 13 TierVeryLow)
  | DUP13 => Some (mkInfo "DUP13" 13 14 TierVeryLow)
  | DUP14 => Some (mkInfo "DUP14" 14 15 TierVeryLow)
  | DUP15 => Some (mkInfo "DUP15" 15 16 TierVeryLow)
  | DUP16 => Some (mkInfo "DUP16" 16 17 TierVeryLow)
  | SWAP1 => Some (mkInfo "SWAP1" 2 2 TierVeryLow)
  | SWAP2 => Some (mkInfo "SWAP2" 3 3 TierVeryLow)
  | SWAP3 => Some (mkInfo "SWAP3" 4 4 TierVeryLow)
  | SWAP4 => Some (mkInfo "SWAP4" 5 5 TierVeryLow)
  | SWAP5 => Some (mkInfo "SWAP5" 6 6 TierVeryLow)
  | SWAP6 => Some (mkInfo "SWAP6" 7 7 TierVeryLow)
  | SWAP7 => Some (mkInfo "SWAP7" 8 8 TierVeryLow)
  | SWAP8 => Some (mkInfo "SWAP8" 9 9 TierVeryLow)
  | SWAP9 => Some (mkInfo "SWAP9" 10 10 TierVeryLow)
  | SWAP10 => Some (mkInfo "SWAP10" 11 11 TierVeryLow)
  | SWAP11 => Some (mkInfo "SWAP11" 12 12 TierVeryLow)
  | SWAP12 => Some (mkInfo "SWAP12" 13 13 TierVeryLow)
  | SWAP13 => Some (mkInfo "SWAP13" 14 14 TierVeryLow)
  | SWAP14 => Some (mkInfo "SWAP14" 15 15 TierVeryLow)
  | SWAP15 => Some (mkInfo "SWAP15" 16 16 TierVeryLow)
  | SWAP16 => Some (mkInfo "SWAP16" 17 17 TierVeryLow)
  | LOG0 => Some (mkInfo "LOG0" 2 0 TierSpecial)
  | LOG1 => Some (mkInfo "LOG1" 3 0 TierSpecial)
  | LOG2 => Some (mkInfo "LOG2" 4 0 TierSpecial)
  | LOG3 => Some (mkInfo "LOG3" 5 0 TierSpecial)
  | LOG4 => Some (mkInfo "LOG4" 6 0 TierSpecial)
  | CREATE => Some (mkInfo "CREATE" 3 1 TierSpecial)
  | CALL => Some (mkInfo "CALL" 7 1 TierSpecial)
  | CALLCODE => Some (mkInfo "CALLCODE" 7 1 TierSpecial)
  | RETURN => Some (mkInfo "RETURN" 2 0 TierZero)
  | DELEGATECALL => Some (mkInfo "DELEGATECALL" 6 1 TierSpecial)
  | STATICCALL => Some (mkInfo "STATICCALL" 6 1 TierSpecial)
  | SUICIDE => Some (mkInfo "SUICIDE" 1 0 TierSpecial)
  | CREATE2 => Some (mkInfo "CREATE2" 4 1 TierSpecial)
  | REVERT => Some (mkInfo "REVERT" 2 0 TierZero)
  end%string.

Definition info (i : Instruction) : Outcome InstructionInfo := unwrap (INSTRUCTIONS i).

Definition MAX_NO_OF_TOPICS : nat := 4.
