(* ===== verification/Schedule.v ===== *)
(** * Gas schedules

    [src/parity-ethereum/ethcore/vm/src/schedule.rs]: the prices and features of the virtual
    machine; and the schedule of a block, [CommonParams::schedule] of
    [src/parity-ethereum/ethcore/types/src/engines/params.rs] and [Machine::schedule] of
    [src/parity-ethereum/ethcore/machine/src/machine.rs].  A [usize] has 64 bits. *)

From S2P Require Import Prelude Hash Transaction.

Local Open Scope Z_scope.

Inductive VersionedSchedule := PWasm.

Inductive CleanDustMode := DustOff | BasicOnly | WithCodeAndStorage.
#[global] Instance clean_dust_eq_dec : EqDecision CleanDustMode.
Proof. solve_decision. Defined.

(** The prices of the WebAssembly interpreter; the fields have the prefix [wasm_]. *)
Record WasmCosts := mkWasmCosts {
  wasm_regular : Z;
  wasm_div : Z;
  wasm_mul : Z;
  wasm_mem : Z;
  wasm_static_u256 : Z;
  wasm_static_address : Z;
  wasm_initial_mem : Z;
  wasm_grow_mem : Z;
  wasm_memcpy : Z;
  wasm_max_stack_height : Z;
  wasm_opcodes_mul : Z;
  wasm_opcodes_div : Z;
  wasm_have_create2 : bool;
  wasm_have_gasleft : bool;
}.

Definition wasm_costs_default : WasmCosts :=
  {| wasm_regular := 1; wasm_div := 16; wasm_mul := 4; wasm_mem := 2; wasm_static_u256 := 64;
     wasm_static_address := 40; wasm_initial_mem := 4096; wasm_grow_mem := 8192;
     wasm_memcpy := 1; wasm_max_stack_height := 64 * 1024; wasm_opcodes_mul := 3;
     wasm_opcodes_div := 8; wasm_have_create2 := false; wasm_have_gasleft := false |}.

Record Schedule := mkSchedule {
  exceptional_failed_code_deposit : bool;
  have_delegate_call : bool;
  have_create2 : bool;
  have_revert : bool;
  have_extcodehash : bool;
  stack_limit : Z;
  max_depth : Z;
  tier_step_gas : list Z;
  exp_gas : Z;
  exp_byte_gas : Z;
  sha3_gas : Z;
  sha3_word_gas : Z;
  sload_gas : Z;
  sstore_dirty_gas : option Z;
  sstore_set_gas : Z;
  sstore_reset_gas : Z;
  sstore_refund_gas : Z;
  jumpdest_gas : Z;
  log_gas : Z;
  log_data_gas : Z;
  log_topic_gas : Z;
  create_gas : Z;
  call_gas : Z;
  call_stipend : Z;
  call_value_transfer_gas : Z;
  call_new_account_gas : Z;
  suicide_refund_gas : Z;
  memory_gas : Z;
  quad_coeff_div : Z;
  create_data_gas : Z;
  create_data_limit : Z;
  tx_gas : Z;
  tx_create_gas : Z;
  tx_data_zero_gas : Z;
  tx_data_non_zero_gas : Z;
  copy_gas : Z;
  extcodesize_gas : Z;
  extcodecopy_base_gas : Z;
  balance_gas : Z;
  extcodehash_gas : Z;
  suicide_gas : Z;
  suicide_to_new_account_cost : Z;
  sub_gas_cap_divisor : option Z;
  no_empty : bool;
  kill_empty : bool;
  blockhash_gas : Z;
  have_static_call : bool;
  have_return_data : bool;
  have_bitwise_shifting : bool;
  have_chain_id : bool;
  have_selfbalance : bool;
  kill_dust : CleanDustMode;
  eip1283 : bool;
  eip1706 : bool;
  keep_unsigned_nonce : bool;
  latest_version : Z;
  versions : gmap Z VersionedSchedule;
  wasm_costs : option WasmCosts;
}.

Definition schedule_new (efcd hdc : bool) (tcg : Z) : Schedule :=
  {| exceptional_failed_code_deposit := efcd; have_delegate_call := hdc; have_create2 := false;
     have_revert := false; have_return_data := false; have_bitwise_shifting := false;
     have_chain_id := false; have_selfbalance := false; have_extcodehash := false;
     stack_limit := 1024; max_depth := 1024; tier_step_gas := [0; 2; 3; 5; 8; 10; 20; 0];
     exp_gas := 10; exp_byte_gas := 10; sha3_gas := 30; sha3_word_gas := 6; sload_gas := 50;
     sstore_dirty_gas := None; sstore_set_gas := 20000; sstore_reset_gas := 5000;
     sstore_refund_gas := 15000; jumpdest_gas := 1; log_gas := 375; log_data_gas := 8;
     log_topic_gas := 375; create_gas := 32000; call_gas := 40; call_stipend := 2300;
     call_value_transfer_gas := 9000; call_new_account_gas := 25000;
     suicide_refund_gas := 24000; memory_gas := 3; quad_coeff_div := 512;
     create_data_gas := 200; create_data_limit := 2 ^ 64 - 1; tx_gas := 21000;
     tx_create_gas := tcg; tx_data_zero_gas := 4; tx_data_non_zero_gas := 68; copy_gas := 3;
     extcodesize_gas := 20; extcodecopy_base_gas := 20; extcodehash_gas := 400;
     balance_gas := 20; suicide_gas := 0; suicide_to_new_account_cost := 0;
     sub_gas_cap_divisor := None; no_empty := false; kill_empty := false; blockhash_gas := 20;
     have_static_call := false; kill_dust := DustOff; eip1283 := false; eip1706 := false;
     keep_unsigned_nonce := false; latest_version := 0; versions := ∅; wasm_costs := None |}.

Definition new_frontier : Schedule := schedule_new false false 21000.
Definition new_homestead : Schedule := schedule_new true true 53000.

Definition new_post_eip150 (max_code_size : Z) (fix_exp no_empty' kill_empty' : bool) : Schedule :=
  {| exceptional_failed_code_deposit := true; have_delegate_call := true;
     have_create2 := false; have_revert := false; have_return_data := false;
     have_bitwise_shifting := false; have_chain_id := false; have_selfbalance := false;
     have_extcodehash := false; stack_limit := 1024; max_depth := 1024;
     tier_step_gas := [0; 2; 3; 5; 8; 10; 20; 0]; exp_gas := 10;
     exp_byte_gas := if fix_exp then 50 else 10; sha3_gas := 30; sha3_word_gas := 6;
     sload_gas := 200; sstore_dirty_gas := None; sstore_set_gas := 20000;
     sstore_reset_gas := 5000; sstore_refund_gas := 15000; jumpdest_gas := 1; log_gas := 375;
     log_data_gas := 8; log_topic_gas := 375; create_gas := 32000; call_gas := 700;
     call_stipend := 2300; call_value_transfer_gas := 9000; call_new_account_gas := 25000;
     suicide_refund_gas := 24000; memory_gas := 3; quad_coeff_div := 512;
     create_data_gas := 200; create_data_limit := max_code_size; tx_gas := 21000;
     tx_create_gas := 53000; tx_data_zero_gas := 4; tx_data_non_zero_gas := 68; copy_gas := 3;
     extcodesize_gas := 700; extcodecopy_base_gas := 700; extcodehash_gas := 400;
     balance_gas := 400; suicide_gas := 5000; suicide_to_new_account_cost := 25000;
     sub_gas_cap_divisor := Some 64; no_empty := no_empty'; kill_empty := kill_empty';
     blockhash_gas := 20; have_static_call := false; kill_dust := DustOff; eip1283 := false;
     eip1706 := false; keep_unsigned_nonce := false; latest_version := 0; versions := ∅;
     wasm_costs := None |}.

(** ** The schedule of a block *)

(** [CommonParams]: the parameters that the virtual machine and its schedule depend on. *)
Record CommonParams := mkCommonParams {
  chain_id : Z;
  eip150_transition : Z;
  eip160_transition : Z;
  eip161abc_transition : Z;
  eip161d_transition : Z;
  eip98_transition : Z;
  eip658_transition : Z;
  validate_receipts_transition : Z;
  eip140_transition : Z;
  eip210_transition : Z;
  eip210_contract_address : Address;
  eip210_contract_gas : Z;
  eip211_transition : Z;
  eip214_transition : Z;
  eip145_transition : Z;
  eip1052_transition : Z;
  eip1283_transition : Z;
  eip1283_disable_transition : Z;
  eip1283_reenable_transition : Z;
  eip1014_transition : Z;
  eip1706_transition : Z;
  eip1344_transition : Z;
  eip1884_transition : Z;
  eip2028_transition : Z;
  eip2200_advance_transition : Z;
  dust_protection_transition : Z;
  remove_dust_contracts : bool;
  wasm_activation_transition : Z;
  wasm_version : option Z;
  kip4_transition : Z;
  kip6_transition : Z;
  max_code_size : Z;
  max_code_size_transition : Z;
}.

Definition max_code_size_at (self : CommonParams) (block_number : Z) : Z :=
  if max_code_size_transition self <=? block_number then max_code_size self else 2 ^ 64 - 1.

(** The costs that [update_schedule] sets when WebAssembly is active. *)
Definition wasm_costs_at (self : CommonParams) (n : Z) : WasmCosts :=
  let w := wasm_costs_default in
  {| wasm_regular := wasm_regular w; wasm_div := wasm_div w; wasm_mul := wasm_mul w;
     wasm_mem := wasm_mem w; wasm_static_u256 := wasm_static_u256 w;
     wasm_static_address := wasm_static_address w; wasm_initial_mem := wasm_initial_mem w;
     wasm_grow_mem := wasm_grow_mem w; wasm_memcpy := wasm_memcpy w;
     wasm_max_stack_height := wasm_max_stack_height w; wasm_opcodes_mul := wasm_opcodes_mul w;
     wasm_opcodes_div := wasm_opcodes_div w;
     wasm_have_create2 := (kip4_transition self <=? n) || wasm_have_create2 w;
     wasm_have_gasleft := (kip6_transition self <=? n) || wasm_have_gasleft w |}.

Definition update_schedule (self : CommonParams) (n : Z) (s : Schedule) : Schedule :=
  {| exceptional_failed_code_deposit := exceptional_failed_code_deposit s;
     have_delegate_call := have_delegate_call s; have_create2 := eip1014_transition self <=? n;
     have_revert := eip140_transition self <=? n;
     have_extcodehash := eip1052_transition self <=? n; stack_limit := stack_limit s;
     max_depth := max_depth s; tier_step_gas := tier_step_gas s; exp_gas := exp_gas s;
     exp_byte_gas := exp_byte_gas s; sha3_gas := sha3_gas s; sha3_word_gas := sha3_word_gas s;
     sload_gas := if eip1884_transition self <=? n then 800 else sload_gas s;
     sstore_dirty_gas :=
       if eip2200_advance_transition self <=? n then Some 800 else sstore_dirty_gas s;
     sstore_set_gas := sstore_set_gas s; sstore_reset_gas := sstore_reset_gas s;
     sstore_refund_gas := sstore_refund_gas s; jumpdest_gas := jumpdest_gas s;
     log_gas := log_gas s; log_data_gas := log_data_gas s; log_topic_gas := log_topic_gas s;
     create_gas := create_gas s; call_gas := call_gas s; call_stipend := call_stipend s;
     call_value_transfer_gas := call_value_transfer_gas s;
     call_new_account_gas := call_new_account_gas s;
     suicide_refund_gas := suicide_refund_gas s; memory_gas := memory_gas s;
     quad_coeff_div := quad_coeff_div s; create_data_gas := create_data_gas s;
     create_data_limit := create_data_limit s; tx_gas := tx_gas s;
     tx_create_gas := tx_create_gas s; tx_data_zero_gas := tx_data_zero_gas s;
     tx_data_non_zero_gas := if eip2028_transition self <=? n then 16 else tx_data_non_zero_gas s;
     copy_gas := copy_gas s; extcodesize_gas := extcodesize_gas s;
     extcodecopy_base_gas := extcodecopy_base_gas s;
     balance_gas := if eip1884_transition self <=? n then 700 else balance_gas s;
     extcodehash_gas := if eip1884_transition self <=? n then 700 else extcodehash_gas s;
     suicide_gas := suicide_gas s;
     suicide_to_new_account_cost := suicide_to_new_account_cost s;
     sub_gas_cap_divisor := sub_gas_cap_divisor s; no_empty := no_empty s;
     kill_empty := kill_empty s;
     blockhash_gas := if eip210_transition self <=? n then 800 else blockhash_gas s;
     have_static_call := eip214_transition self <=? n;
     have_return_data := eip211_transition self <=? n;
     have_bitwise_shifting := eip145_transition self <=? n;
     have_chain_id := eip1344_transition self <=? n;
     have_selfbalance := if eip1884_transition self <=? n then true else have_selfbalance s;
     kill_dust :=
       if dust_protection_transition self <=? n
       then if remove_dust_contracts self then WithCodeAndStorage else BasicOnly
       else kill_dust s;
     eip1283 :=
       ((eip1283_transition self <=? n) && negb (eip1283_disable_transition self <=? n))
       || (eip1283_reenable_transition self <=? n);
     eip1706 := eip1706_transition self <=? n; keep_unsigned_nonce := keep_unsigned_nonce s;
     latest_version := latest_version s;
     versions :=
       if wasm_activation_transition self <=? n
       then match wasm_version self with
            | Some v => <[v := PWasm]> (versions s)
            | None => versions s
            end
       else versions s;
     wasm_costs :=
       if wasm_activation_transition self <=? n then Some (wasm_costs_at self n)
       else wasm_costs s |}.

Definition params_schedule (self : CommonParams) (n : Z) : Schedule :=
  if n <? eip150_transition self then new_homestead
  else update_schedule self n
         (new_post_eip150 (max_code_size_at self n) (eip160_transition self <=? n)
            (eip161abc_transition self <=? n) (eip161d_transition self <=? n)).

(** ** What the interpreter relies on *)

(** A price: positive, and so small that sums of a few of them do not overflow. *)
Definition price (z : Z) : Prop := 0 < z < 2 ^ 20.

Record schedule_ok (s : Schedule) : Prop := {
  so_stack_limit : 0 ≤ stack_limit s < 2 ^ 20;
  so_tiers : tier_step_gas s = [0; 2; 3; 5; 8; 10; 20; 0];
  so_quad : quad_coeff_div s = 512;
  so_memory : price (memory_gas s);
  so_stipend : 0 ≤ call_stipend s < call_value_transfer_gas s;
  so_transfer : price (call_value_transfer_gas s);
  so_new_account : price (call_new_account_gas s);
  so_exp : price (exp_gas s) ∧ price (exp_byte_gas s);
  so_sha3 : price (sha3_gas s) ∧ price (sha3_word_gas s);
  so_sload : price (sload_gas s);
  so_sstore : price (sstore_set_gas s) ∧ price (sstore_reset_gas s);
  so_dirty : price (default (sload_gas s) (sstore_dirty_gas s));
  so_dirty_least : default (sload_gas s) (sstore_dirty_gas s) ≤
    Z.min (sstore_set_gas s) (sstore_reset_gas s);
  so_log : price (log_gas s) ∧ price (log_data_gas s) ∧ price (log_topic_gas s);
  so_create : price (create_gas s);
  so_call : price (call_gas s);
  so_copy : price (copy_gas s) ∧ price (extcodecopy_base_gas s);
  so_query : price (balance_gas s) ∧ price (extcodesize_gas s) ∧ price (extcodehash_gas s);
  so_blockhash : price (blockhash_gas s);
  so_suicide : 0 ≤ suicide_gas s < 2 ^ 20 ∧ 0 ≤ suicide_to_new_account_cost s < 2 ^ 20;
  so_cap : ∀ d, sub_gas_cap_divisor s = Some d → 0 < d;
  so_refunds : price (sstore_refund_gas s) ∧ price (suicide_refund_gas s);
  so_create_data : price (create_data_gas s);
  so_tx : price (tx_gas s) ∧ price (tx_create_gas s);
  so_tx_data : price (tx_data_zero_gas s) ∧ price (tx_data_non_zero_gas s);
}.

Lemma schedule_ok_homestead : schedule_ok new_homestead.
Proof. split; cbn; unfold price; try lia; done. Qed.

(** Every schedule that the parameters of a chain can give is fit for the interpreter. *)
Lemma params_schedule_ok self n : schedule_ok (params_schedule self n).
Proof.
  unfold params_schedule. destruct (n <? _); [apply schedule_ok_homestead|].
  split; cbn; unfold price; repeat case_if; cbn; try lia; naive_solver lia.
Qed.
