(* ===== verification/EvmWord.v ===== *)
(** * Words of the virtual machine

    The arithmetic of the instructions in
    [src/parity-ethereum/ethcore/evm/src/interpreter/mod.rs].  A [U256] of the [uint] crate is
    an integer between 0 and 2^256 - 1. *)

From S2P Require Import Prelude Hash Transaction.

Local Open Scope Z_scope.

Definition u256 (z : Z) : Z := wrap 256 z.
Definition U256_max : Z := 2 ^ 256 - 1.
Definition is_word (z : Z) : Prop := 0 ≤ z < 2 ^ 256.

(** ** Methods of [U256] *)

Definition low_u64 (z : Z) : Z := u64 z.
Definition u256_not (z : Z) : Z := Z.lxor U256_max z.
Definition u256_shl (z n : Z) : Z := u256 (Z.shiftl z n).
Definition u256_shr (z n : Z) : Z := Z.shiftr z n.
Definition u256_overflowing_add (a b : Z) : Z * bool := (u256 (a + b), 2 ^ 256 <=? a + b).
Definition u256_overflowing_mul (a b : Z) : Z * bool := (u256 (a * b), 2 ^ 256 <=? a * b).
Definition u256_overflowing_sub (a b : Z) : Z * bool := (u256 (a - b), a <? b).
Definition u256_saturating_add (a b : Z) : Z := Z.min (a + b) U256_max.
Definition u256_saturating_sub (a b : Z) : Z := Z.max (a - b) 0.

(** [a + b], [a - b] and [a * b], which panic on overflow. *)
Definition u256_add (a b : Z) : Outcome Z :=
  if a + b <? 2 ^ 256 then Done (a + b) else Panic.
Definition u256_sub (a b : Z) : Outcome Z := if b <=? a then Done (a - b) else Panic.
Definition u256_mul (a b : Z) : Outcome Z :=
  if a * b <? 2 ^ 256 then Done (a * b) else Panic.

(** [bits], the number of bits of a word without leading zeros. *)
Definition u256_bits (z : Z) : Z := if z =? 0 then 0 else Z.log2 z + 1.

(** [overflowing_pow(..).0], by squaring. *)
Fixpoint pow_pos (base : Z) (e : positive) : Z :=
  match e with
  | xH => u256 base
  | xO e => pow_pos (u256 (base * base)) e
  | xI e => u256 (base * pow_pos (u256 (base * base)) e)
  end.
Definition u256_pow (base e : Z) : Z :=
  match e with Zpos e => pow_pos base e | _ => 1 end.

(** ** Signed words *)

Definition set_sign (value : Z) (sign : bool) : Z :=
  if sign then u256 (u256_not value + 1) else value.

Definition get_and_reset_sign (value : Z) : Z * bool :=
  let sign := Z.testbit value 255 in
  (set_sign value sign, sign).

Definition bool_to_u256 (b : bool) : Z := if b then 1 else 0.

(** ** Addresses *)

Definition u256_to_address (value : Z) : Address := drop 12 (h256_bytes (h256 value)).
Definition address_to_u256 (a : Address) : Z := from_be_bytes a.

(** ** The arithmetic instructions *)

Definition op_add (a b : Z) : Z := (u256_overflowing_add a b).1.
Definition op_mul (a b : Z) : Z := (u256_overflowing_mul a b).1.
Definition op_sub (a b : Z) : Z := (u256_overflowing_sub a b).1.

(** [DIV], with its shortcuts for some powers of two. *)
Definition op_div (a b : Z) : Z :=
  if b =? 0 then 0
  else if b =? 1 then a
  else if b =? 2 then u256_shr a 1
  else if b =? 0x20 then u256_shr a 5
  else if b =? 0x100 then u256_shr a 8
  else if b =? 0x10000 then u256_shr a 16
  else if b =? 0x1000000 then u256_shr a 24
  else if b =? 2 ^ 64 then u256_shr a 64
  else if b =? 2 ^ 96 then u256_shr a 96
  else if b =? 2 ^ 224 then u256_shr a 224
  else if b =? 2 ^ 248 then u256_shr a 248
  else a / b.

Definition op_mod (a b : Z) : Z := if b =? 0 then 0 else a `mod` b.

Definition op_sdiv (a b : Z) : Z :=
  let '(a, sign_a) := get_and_reset_sign a in
  let '(b, sign_b) := get_and_reset_sign b in
  let min := u256_shl 1 255 - 1 in
  if b =? 0 then 0
  else if (a =? min) && (b =? u256_not 0) then min
  else set_sign (a / b) (xorb sign_a sign_b).

Definition op_smod (ua ub : Z) : Z :=
  let '(a, sign_a) := get_and_reset_sign ua in
  let '(b, _) := get_and_reset_sign ub in
  if b =? 0 then 0 else set_sign (a `mod` b) sign_a.

Definition op_lt (a b : Z) : Z := bool_to_u256 (a <? b).
Definition op_gt (a b : Z) : Z := bool_to_u256 (b <? a).

Definition op_slt (a b : Z) : Z :=
  let '(a, neg_a) := get_and_reset_sign a in
  let '(b, neg_b) := get_and_reset_sign b in
  let is_positive_lt := (a <? b) && negb (neg_a || neg_b) in
  let is_negative_lt := (b <? a) && (neg_a && neg_b) in
  let has_different_signs := neg_a && negb neg_b in
  bool_to_u256 (is_positive_lt || is_negative_lt || has_different_signs).

Definition op_sgt (a b : Z) : Z :=
  let '(a, neg_a) := get_and_reset_sign a in
  let '(b, neg_b) := get_and_reset_sign b in
  let is_positive_gt := (b <? a) && negb (neg_a || neg_b) in
  let is_negative_gt := (a <? b) && (neg_a && neg_b) in
  let has_different_signs := negb neg_a && neg_b in
  bool_to_u256 (is_positive_gt || is_negative_gt || has_different_signs).

Definition op_eq (a b : Z) : Z := bool_to_u256 (a =? b).

Definition op_byte (word val : Z) : Z :=
  if word <? 32 then Z.land (u256_shr val (8 * (31 - low_u64 word))) 0xff else 0.

Definition op_addmod (a b c : Z) : Z := if c =? 0 then 0 else (a + b) `mod` c.
Definition op_mulmod (a b c : Z) : Z := if c =? 0 then 0 else (a * b) `mod` c.

(** [SIGNEXTEND] with a byte index below 32. *)
Definition sign_extend (bit number : Z) : Z :=
  let bit_position := low_u64 bit * 8 + 7 in
  let mask := u256_shl 1 bit_position - 1 in
  if Z.testbit number bit_position then Z.lor number (u256_not mask) else Z.land number mask.

Definition op_shl (shift value : Z) : Z :=
  if 256 <=? shift then 0 else u256_shl value (u32 shift).
Definition op_shr (shift value : Z) : Z :=
  if 256 <=? shift then 0 else u256_shr value (u32 shift).

Definition op_sar (shift value : Z) : Z :=
  let CONST_HIBIT := Z.shiftl 0x8000000000000000 192 in
  let sign := negb (Z.land value CONST_HIBIT =? 0) in
  if 256 <=? shift then if sign then U256_max else 0
  else
    let shift := u32 shift in
    let shifted := u256_shr value shift in
    if sign then Z.lor shifted (u256_shl U256_max (256 - shift)) else shifted.

(** ** Two's complement *)

Definition signed (z : Z) : Z := if z <? 2 ^ 255 then z else z - 2 ^ 256.

Lemma signed_bound z : is_word z → - 2 ^ 255 ≤ signed z < 2 ^ 255.
Proof. unfold is_word, signed. intros. destruct (Z.ltb_spec z (2 ^ 255)); lia. Qed.

Lemma u256_word z : is_word (u256 z).
Proof. by apply wrap_bound. Qed.

Lemma u256_small z : is_word z → u256 z = z.
Proof. apply wrap_small. Qed.

Lemma u256_not_word z : is_word z → u256_not z = U256_max - z.
Proof.
  intros Hz. unfold u256_not, U256_max, is_word in *. change (2 ^ 256 - 1) with (Z.ones 256).
  assert (Z.log2 z < 256) as Hl.
  { destruct (decide (z = 0)) as [->|]; [done|]. apply Z.log2_lt_pow2; lia. }
  rewrite Z.sub_nocarry_ldiff by (apply Z.ldiff_ones_r_low; lia).
  by rewrite Z.ldiff_ones_l_low, Z.lxor_comm by lia.
Qed.

Lemma testbit_top z : is_word z → Z.testbit z 255 = negb (z <? 2 ^ 255).
Proof.
  unfold is_word. intros Hz. rewrite Z.testbit_odd, Z.shiftr_div_pow2 by lia.
  destruct (Z.ltb_spec z (2 ^ 255)); [by rewrite Z.div_small by lia|].
  by replace (z / 2 ^ 255) with 1 by (apply Z.div_unique with (z - 2 ^ 255); lia).
Qed.

Lemma set_sign_true z : is_word z → set_sign z true = u256 (- z).
Proof.
  intros Hz. unfold set_sign. rewrite u256_not_word by done. unfold u256, wrap, U256_max.
  by replace (2 ^ 256 - 1 - z + 1) with (- z + 1 * 2 ^ 256) by lia; rewrite Z.mod_add by lia.
Qed.

Lemma get_and_reset_sign_word z :
  is_word z → get_and_reset_sign z = (Z.abs (signed z), signed z <? 0).
Proof.
  intros Hz. unfold get_and_reset_sign. rewrite testbit_top by done. unfold signed.
  unfold is_word in Hz. destruct (Z.ltb_spec z (2 ^ 255)); cbn [negb].
  - unfold set_sign. rewrite (proj2 (Z.ltb_ge z 0)) by lia. f_equal. lia.
  - rewrite set_sign_true, (proj2 (Z.ltb_lt (z - 2 ^ 256) 0)) by (unfold is_word; lia). f_equal.
    unfold u256, wrap. rewrite <- (Z.mod_add _ 1), Z.mod_small; lia.
Qed.

Lemma u256_neg z : is_word z → u256 (- z) = set_sign z true.
Proof. intros. by rewrite set_sign_true. Qed.

(** ** The instructions compute what they should *)

Lemma op_div_spec a b : is_word a → op_div a b = if b =? 0 then 0 else a / b.
Proof.
  intros Ha. unfold op_div, u256_shr.
  repeat (match goal with |- context [b =? ?c] => destruct (Z.eqb_spec b c) as [->|] end;
    [first [reflexivity|rewrite Z.shiftr_div_pow2 by lia; reflexivity|symmetry; apply Z.div_1_r]|]).
  done.
Qed.

Lemma abs_word z : is_word z → is_word (Z.abs (signed z)).
Proof. intros Hz. pose proof (signed_bound z Hz). unfold is_word. lia. Qed.

(** A magnitude with a sign is the signed number. *)
Lemma set_sign_spec m (s : bool) : is_word m → set_sign m s = u256 (if s then - m else m).
Proof. intros Hm. destruct s; [by apply set_sign_true|]. by rewrite u256_small. Qed.

Lemma op_sdiv_spec a b :
  is_word a → is_word b →
  op_sdiv a b = if b =? 0 then 0 else u256 (Z.quot (signed a) (signed b)).
Proof.
  intros Ha Hb. unfold op_sdiv. rewrite !get_and_reset_sign_word by done.
  assert ((Z.abs (signed b) =? 0) = (b =? 0)) as ->.
  { unfold signed, is_word in *. destruct (Z.ltb_spec b (2 ^ 255)); lia. }
  destruct (Z.eqb_spec b 0) as [|Hb0]; [done|].
  pose proof (signed_bound a Ha). pose proof (signed_bound b Hb).
  rewrite (proj2 (Z.eqb_neq (Z.abs (signed b)) (u256_not 0))), andb_false_r
    by (change (u256_not 0) with (2 ^ 256 - 1); lia).
  assert (signed b ≠ 0) as Hsb.
  { unfold signed, is_word in *. destruct (Z.ltb_spec b (2 ^ 255)); lia. }
  assert (is_word (Z.abs (signed a) / Z.abs (signed b))).
  { pose proof (abs_word a Ha). unfold is_word in *.
    split; [apply Z.div_pos; lia|]. apply Z.div_lt_upper_bound; nia. }
  rewrite set_sign_spec by done. f_equal.
  rewrite (Z.quot_div (signed a) (signed b)) by done.
  destruct (Z.ltb_spec (signed a) 0); [rewrite (Z.sgn_neg (signed a)) by lia|];
    destruct (Z.ltb_spec (signed b) 0); [rewrite (Z.sgn_neg (signed b)) by lia| | |].
  all: cbn [xorb]; rewrite ?(Z.sgn_pos (signed b)) by lia.
  - lia.
  - lia.
  - destruct (decide (signed a = 0)) as [->|]; [done|]. rewrite (Z.sgn_pos (signed a)) by lia. lia.
  - destruct (decide (signed a = 0)) as [->|]; [done|]. rewrite (Z.sgn_pos (signed a)) by lia. lia.
Qed.

Lemma op_smod_spec a b :
  is_word a → is_word b →
  op_smod a b = if b =? 0 then 0 else u256 (Z.rem (signed a) (signed b)).
Proof.
  intros Ha Hb. unfold op_smod. rewrite !get_and_reset_sign_word by done.
  pose proof (signed_bound a Ha). pose proof (signed_bound b Hb).
  assert ((Z.abs (signed b) =? 0) = (b =? 0)) as ->.
  { unfold signed, is_word in *. destruct (Z.ltb_spec b (2 ^ 255)); lia. }
  destruct (Z.eqb_spec b 0) as [|Hb0]; [done|].
  assert (signed b ≠ 0) as Hsb.
  { unfold signed, is_word in *. destruct (Z.ltb_spec b (2 ^ 255)); lia. }
  pose proof (Z.mod_pos_bound (Z.abs (signed a)) (Z.abs (signed b)) ltac:(lia)).
  rewrite set_sign_spec by (unfold is_word; lia). f_equal.
  rewrite (Z.rem_mod (signed a) (signed b)) by done.
  destruct (Z.ltb_spec (signed a) 0); [rewrite (Z.sgn_neg (signed a)) by lia; lia|].
  destruct (decide (signed a = 0)) as [->|]; [by rewrite Z.mod_0_l by lia|].
  rewrite (Z.sgn_pos (signed a)) by lia. lia.
Qed.

Lemma op_slt_spec a b :
  is_word a → is_word b → op_slt a b = bool_to_u256 (signed a <? signed b).
Proof.
  intros Ha Hb. unfold op_slt. rewrite !get_and_reset_sign_word by done. f_equal.
  destruct (Z.ltb_spec (signed a) 0), (Z.ltb_spec (signed b) 0); cbn [negb andb orb];
    rewrite ?andb_true_r, ?andb_false_r; cbn [orb]; rewrite ?orb_false_r; lia.
Qed.

Lemma op_sgt_spec a b :
  is_word a → is_word b → op_sgt a b = bool_to_u256 (signed b <? signed a).
Proof.
  intros Ha Hb. unfold op_sgt. rewrite !get_and_reset_sign_word by done. f_equal.
  destruct (Z.ltb_spec (signed a) 0), (Z.ltb_spec (signed b) 0); cbn [negb andb orb];
    rewrite ?andb_true_r, ?andb_false_r; cbn [orb]; rewrite ?orb_false_r; lia.
Qed.

Lemma op_byte_spec i x :
  is_word i → op_byte i x = if i <? 32 then (x / 256 ^ (31 - i)) `mod` 256 else 0.
Proof.
  unfold op_byte, low_u64, u256_shr, is_word. intros Hi.
  destruct (Z.ltb_spec i 32); [|done]. rewrite u64_small by lia.
  change 0xff with (Z.ones 8). rewrite Z.land_ones, Z.shiftr_div_pow2 by lia.
  by rewrite Z.pow_mul_r by lia.
Qed.

Lemma lor_disjoint a b n :
  0 ≤ n → 0 ≤ a < 2 ^ n → Z.lor a (b * 2 ^ n) = a + b * 2 ^ n.
Proof.
  intros Hn Ha. rewrite <- (Z.add_lor_land a (b * 2 ^ n)).
  assert (Z.land a (b * 2 ^ n) = 0) as ->; [|lia].
  apply Z.bits_inj'. intros i Hi. rewrite Z.land_spec, Z.bits_0.
  destruct (Z.ltb_spec i n); [by rewrite Z.mul_pow2_bits_low, andb_false_r|].
  by rewrite <- (Z.mod_small a (2 ^ n)), Z.mod_pow2_bits_high by lia.
Qed.

Lemma land_pow2 x n : 0 ≤ n → Z.land x (2 ^ n) = if Z.testbit x n then 2 ^ n else 0.
Proof.
  intros Hn. apply Z.bits_inj'. intros i Hi. rewrite Z.land_spec, Z.pow2_bits_eqb by done.
  destruct (Z.eqb_spec n i) as [<-|Hni]; [rewrite andb_true_r|rewrite andb_false_r];
    destruct (Z.testbit x n); rewrite ?Z.pow2_bits_eqb, ?Z.bits_0 by done; try done.
  - by rewrite Z.eqb_refl.
  - symmetry. by apply Z.eqb_neq.
Qed.

Lemma op_sar_spec shift x :
  is_word shift → is_word x → op_sar shift x = u256 (signed x / 2 ^ shift).
Proof.
  intros Hs Hx. unfold op_sar, u256_shr, u256_shl.
  assert (negb (Z.land x (Z.shiftl 0x8000000000000000 192) =? 0) = negb (x <? 2 ^ 255)) as ->.
  { change (Z.shiftl 0x8000000000000000 192) with (2 ^ 255).
    rewrite land_pow2, testbit_top by done. by destruct (x <? 2 ^ 255). }
  unfold signed. unfold is_word in *. destruct (Z.ltb_spec x (2 ^ 255)) as [Hl|Hl]; cbn [negb].
  - pose proof (Z.div_pos x (2 ^ shift) ltac:(lia) ltac:(lia)).
    pose proof (Z.div_le_upper_bound x (2 ^ shift) x ltac:(lia) ltac:(nia)).
    rewrite u256_small by (unfold is_word; lia).
    destruct (Z.leb_spec 256 shift); [|by rewrite u32_small, Z.shiftr_div_pow2 by lia].
    symmetry. apply Z.div_small. split; [lia|]. pose proof (Z.pow_le_mono_r 2 256 shift). lia.
  - destruct (Z.leb_spec 256 shift) as [Hbig|Hsmall].
    + pose proof (Z.pow_le_mono_r 2 256 shift ltac:(lia) ltac:(lia)).
      replace ((x - 2 ^ 256) / 2 ^ shift) with (-1); [done|].
      apply Z.div_unique with (x - 2 ^ 256 + 2 ^ shift); lia.
    + rewrite u32_small by lia. rewrite Z.shiftr_div_pow2, Z.shiftl_mul_pow2 by lia.
      assert (2 ^ (256 - shift) * 2 ^ shift = 2 ^ 256) as Hp.
      { rewrite <- Z.pow_add_r by lia. f_equal. lia. }
      assert (0 < 2 ^ shift) by lia. assert (0 < 2 ^ (256 - shift)) by lia.
      assert (u256 (U256_max * 2 ^ (256 - shift)) = (2 ^ shift - 1) * 2 ^ (256 - shift)) as ->.
      { unfold u256, wrap, U256_max.
        replace ((2 ^ 256 - 1) * 2 ^ (256 - shift)) with
          ((2 ^ shift - 1) * 2 ^ (256 - shift) + (2 ^ (256 - shift) - 1) * 2 ^ 256) by nia.
        rewrite Z.mod_add by lia. apply Z.mod_small. nia. }
      rewrite lor_disjoint.
      * replace x with (x - 2 ^ 256 + 2 ^ (256 - shift) * 2 ^ shift) at 1 by lia.
        rewrite Z.div_add by lia.
        assert (- 2 ^ (256 - shift) ≤ (x - 2 ^ 256) / 2 ^ shift < 0).
        { split; [apply Z.div_le_lower_bound; nia|apply Z.div_lt_upper_bound; nia]. }
        rewrite <- (u256_small (_ + _)) by (unfold is_word; nia). unfold u256, wrap.
        rewrite <- (Z.mod_add ((x - 2 ^ 256) / 2 ^ shift) 1) by lia. f_equal. nia.
      * lia.
      * split; [apply Z.div_pos; lia|]. apply Z.div_lt_upper_bound; lia.
Qed.

Lemma lor_high_ones x k :
  0 ≤ k ≤ 256 → is_word x →
  Z.lor x (Z.ones (256 - k) * 2 ^ k) = x `mod` 2 ^ k + Z.ones (256 - k) * 2 ^ k.
Proof.
  intros Hk Hx. rewrite <- lor_disjoint by (try apply Z.mod_pos_bound; lia).
  apply Z.bits_inj'. intros i Hi. rewrite !Z.lor_spec. destruct (Z.ltb_spec i k).
  - by rewrite Z.mod_pow2_bits_low by lia.
  - rewrite Z.mul_pow2_bits by lia. destruct (Z.ltb_spec i 256).
    + by rewrite Z.ones_spec_low, !orb_true_r by lia.
    + rewrite Z.mod_pow2_bits_high by lia. f_equal.
      unfold is_word in Hx. by rewrite <- (Z.mod_small x (2 ^ 256)), Z.mod_pow2_bits_high by lia.
Qed.

(** The low [8 * (b + 1)] bits of a word as a signed number. *)
Definition low_signed (b x : Z) : Z :=
  let n := 8 * (b + 1) in
  let r := x `mod` 2 ^ n in
  if r <? 2 ^ (n - 1) then r else r - 2 ^ n.

Lemma sign_extend_spec b x :
  0 ≤ b < 32 → is_word x → sign_extend b x = u256 (low_signed b x).
Proof.
  intros Hb Hx. unfold sign_extend, low_signed, low_u64. rewrite u64_small by lia.
  set (k := b * 8 + 7). replace (8 * (b + 1)) with (k + 1) by lia.
  replace (k + 1 - 1) with k by lia. assert (0 ≤ k < 256) as Hk by lia.
  unfold u256_shl. rewrite Z.shiftl_mul_pow2, Z.mul_1_l by lia.
  assert (2 ^ k * 2 = 2 ^ (k + 1)) as Hk1 by (by rewrite Z.pow_add_r by lia).
  assert (2 ^ (k + 1) ≤ 2 ^ 256) by (apply Z.pow_le_mono_r; lia).
  assert (0 < 2 ^ k) by lia. rewrite u256_small by (unfold is_word; lia).
  pose proof (Z.mod_pos_bound x (2 ^ k) ltac:(lia)) as Hr.
  pose proof (Z.mod_pos_bound x (2 ^ (k + 1)) ltac:(lia)) as Hr1.
  assert (x `mod` 2 ^ (k + 1) = x `mod` 2 ^ k + Z.b2z (Z.testbit x k) * 2 ^ k) as Hm.
  { rewrite <- Hk1, Z.rem_mul_r, Z.testbit_odd, Z.shiftr_div_pow2 by lia.
    rewrite Zmod_odd. destruct (Z.odd _); cbn; lia. }
  rewrite Hm. destruct (Z.testbit x k) eqn:Eb; cbn [Z.b2z].
  - rewrite (proj2 (Z.ltb_ge _ _)) by lia. rewrite u256_not_word by (unfold is_word; lia).
    assert (2 ^ (256 - k) * 2 ^ k = 2 ^ 256) as Hp.
    { rewrite <- Z.pow_add_r by lia. f_equal. lia. }
    replace (U256_max - (2 ^ k - 1)) with (Z.ones (256 - k) * 2 ^ k)
      by (rewrite Z.ones_equiv; unfold U256_max; lia).
    rewrite lor_high_ones by (done || lia). rewrite Z.ones_equiv. unfold u256, wrap.
    replace (x `mod` 2 ^ k + 1 * 2 ^ k - 2 ^ (k + 1)) with (x `mod` 2 ^ k - 2 ^ k) by lia.
    rewrite <- (Z.mod_add (_ - _) 1) by lia. symmetry. etrans; [apply Z.mod_small|]; lia.
  - rewrite (proj2 (Z.ltb_lt _ _)) by lia. replace (2 ^ k - 1) with (Z.ones k)
      by (rewrite Z.ones_equiv; lia).
    rewrite Z.land_ones, u256_small by (unfold is_word; lia). lia.
Qed.

Lemma pow_pos_spec base e : pow_pos base e = u256 (base ^ Zpos e).
Proof.
  revert base. induction e as [e IH|e IH|]; intros base; cbn [pow_pos].
  - rewrite IH, (Pos2Z.inj_xI e), Z.pow_add_r, Z.pow_mul_r, Z.pow_1_r by lia. unfold u256, wrap.
    rewrite Z.mod_pow_l, Z.mul_mod_idemp_r by lia. f_equal. rewrite Z.pow_2_r. lia.
  - rewrite IH, (Pos2Z.inj_xO e), Z.pow_mul_r by lia. unfold u256, wrap.
    by rewrite Z.mod_pow_l, Z.pow_2_r.
  - by rewrite Z.pow_1_r.
Qed.

Lemma u256_pow_spec base e : is_word e → u256_pow base e = u256 (base ^ e).
Proof. intros He. destruct e as [|e|e]; [done|apply pow_pos_spec|]. unfold is_word in He. lia. Qed.
