(* ===== verification/Vm.v ===== *)
(** * The interface of the virtual machine

    [src/parity-ethereum/ethcore/vm/src/]: the parameters of a call ([action_params.rs],
    [call_type.rs]), the environment of a block ([env_info.rs]), errors and traps
    ([error.rs]), return data ([return_data.rs]), and the trait [Ext] through which the
    machine acts on the outside ([ext.rs]); and of
    [src/parity-ethereum/ethcore/evm/src/evm.rs] the numbers in which gas is counted
    ([CostType]) and the end of an execution ([Finalize]).

    A [usize] has 64 bits.  A sum, difference or product that leaves its range is [Panic] here:
    a [U256] always panics then, and the theorems on the interpreter show that its [usize]s,
    which would wrap in the release profile, never get there. *)

From S2P Require Import Prelude Hash Transaction Account Schedule EvmWord.
From Stdlib Require Strings.String.

Local Open Scope Z_scope.

(** [&l[a..b]]. *)
Definition slice {A} (l : list A) (a b : Z) : Outcome (list A) :=
  if (a <=? b) && (b <=? Z.of_nat (length l))
  then Done (take (Z.to_nat (b - a)) (drop (Z.to_nat a) l)) else Panic.

(** ** Errors *)

Inductive VmError :=
| OutOfGas
| BadJumpDestination (destination : Z)
| BadInstruction (instruction : byte)
| StackUnderflow (instruction : String.string) (wanted on_stack : Z)
| OutOfStack (instruction : String.string) (wanted limit : Z)
| BuiltIn (name : String.string)
| MutableCallInStaticContext
| Internal (e : TrieError)
| Wasm (msg : String.string)
| OutOfBounds
| Reverted.

(** ** Calls *)

Inductive CallType := CT_None | CT_Call | CT_CallCode | CT_DelegateCall | CT_StaticCall.
#[global] Instance call_type_eq_dec : EqDecision CallType.
Proof. solve_decision. Defined.

Inductive ActionValue := Transfer (value : Z) | Apparent (value : Z).
Definition action_value (v : ActionValue) : Z := match v with Transfer x | Apparent x => x end.

Inductive ParamsType := Embedded | Separate.

Record ActionParams := mkActionParams {
  ap_code_address : Address;
  ap_code_hash : option H256;
  ap_address : Address;
  ap_sender : Address;
  ap_origin : Address;
  ap_gas : Z;
  ap_gas_price : Z;
  ap_value : ActionValue;
  ap_code : option (list byte);
  ap_code_version : Z;
  ap_data : option (list byte);
  ap_call_type : CallType;
  ap_params_type : ParamsType;
}.

Record EnvInfo := mkEnvInfo {
  env_number : Z;
  env_author : Address;
  env_timestamp : Z;
  env_difficulty : Z;
  env_gas_limit : Z;
  env_last_hashes : list H256;
  env_gas_used : Z;
}.

Definition env_info_default : EnvInfo := mkEnvInfo 0 (replicate 20 "000"%byte) 0 0 0 [] 0.

(** ** Return data *)

Record ReturnData := mkReturnData {
  rd_mem : list byte;
  rd_offset : Z;
  rd_size : Z;
}.

Definition return_data_empty : ReturnData := mkReturnData [] 0 0.

(** [Deref]. *)
Definition rd_deref (d : ReturnData) : Outcome (list byte) :=
  slice (rd_mem d) (rd_offset d) (rd_offset d + rd_size d).

(** [data.len()]. *)
Definition rd_len (d : ReturnData) : Outcome Z := bytes ← rd_deref d; Done (Z.of_nat (length bytes)).

Inductive GasLeft :=
| Known (gas_left : Z)
| NeedsReturn (gas_left : Z) (data : ReturnData) (apply_state : bool).

(** ** Results of calls and creations *)

Inductive ContractCreateResult :=
| Created (a : Address) (gas_left : Z)
| CreateFailed
| CreateReverted (gas_left : Z) (data : ReturnData).

Inductive MessageCallResult :=
| CallSuccess (gas_left : Z) (data : ReturnData)
| CallFailed
| CallReverted (gas_left : Z) (data : ReturnData).

Inductive CreateContractAddress :=
| FromSenderAndNonce
| FromSenderSaltAndCodeHash (salt : H256)
| FromSenderAndCodeHash.

Inductive TrapKind :=
| TrapCall (params : ActionParams)
| TrapCreate (params : ActionParams) (a : Address).

(** ** The outside

    The trait [Ext].  The queries take [&self] but may fill caches, so all operations return
    the state they leave. *)

(** An operation on the outside that may fail with an error of the machine. *)
Definition XM (X A : Type) : Type := X → Outcome (X * Result A VmError).

#[global] Instance xm_ret {X} : MRet (XM X) := λ A a x, Done (x, Ok a).
#[global] Instance xm_bind {X} : MBind (XM X) := λ A B f m x,
  '(x, r) ← m x;
  match r with Ok a => f a x | Err e => Done (x, Err e) end.

Definition xm_err {X A} (e : VmError) : XM X A := λ x, Done (x, Err e).
Definition xm_lift {X A} (r : Result A VmError) : XM X A := λ x, Done (x, r).
Definition xm_done {X A} (o : Outcome A) : XM X A := λ x, a ← o; Done (x, Ok a).
Definition xm_run {X} (f : X → Outcome X) : XM X unit := λ x, x' ← f x; Done (x', Ok tt).
Definition xm_ask {X A} (f : X → A) : XM X A := λ x, Done (x, Ok (f x)).

Class Ext (X : Type) := {
  ext_initial_storage_at : H256 → XM X H256;
  ext_storage_at : H256 → XM X H256;
  ext_set_storage : H256 → H256 → XM X unit;
  ext_exists : Address → XM X bool;
  ext_exists_and_not_null : Address → XM X bool;
  ext_origin_balance : XM X Z;
  ext_balance : Address → XM X Z;
  ext_blockhash : Z → X → Outcome (X * H256);
  ext_create : Z → Z → list byte → Z → CreateContractAddress → bool →
    X → Outcome (X * Result ContractCreateResult TrapKind);
  ext_call : Z → Address → Address → option Z → list byte → Address → CallType → bool →
    X → Outcome (X * Result MessageCallResult TrapKind);
  ext_extcode : Address → XM X (option (list byte));
  ext_extcodehash : Address → XM X (option H256);
  ext_extcodesize : Address → XM X (option Z);
  ext_log : list H256 → list byte → XM X unit;
  ext_ret : Z → ReturnData → bool → XM X Z;
  ext_suicide : Address → XM X unit;
  ext_schedule : X → Schedule;
  ext_env_info : X → EnvInfo;
  ext_chain_id : X → Z;
  ext_depth : X → Z;
  ext_add_sstore_refund : Z → X → X;
  ext_sub_sstore_refund : Z → X → X;
  ext_trace_next_instruction : Z → byte → Z → X → X * bool;
  ext_trace_prepare_execute : Z → byte → Z → option (Z * Z) → option (Z * Z) → X → X;
  ext_trace_failed : X → X;
  ext_trace_executed : Z → list Z → list byte → X → X;
  ext_is_static : X → bool;
}.

(** ** Finalization *)

Record FinalizationResult := mkFinalization {
  fr_gas_left : Z;
  fr_apply_state : bool;
  fr_return_data : ReturnData;
}.

Definition finalize `{Ext X} (result : Result GasLeft VmError) (ext : X) :
    Outcome (X * Result FinalizationResult VmError) :=
  match result with
  | Ok (Known gas_left) => Done (ext, Ok (mkFinalization gas_left true return_data_empty))
  | Ok (NeedsReturn gas_left data apply_state) =>
      '(ext, r) ← ext_ret gas_left data apply_state ext;
      Done (ext, try_bind r (λ gas_left, Ok (mkFinalization gas_left apply_state data)))
  | Err err => Done (ext, Err err)
  end.

(** ** Gas *)

(** The trait [CostType]; [cost_from] is [From<usize>]. *)
Class CostType := {
  cost_from_u256 : Z → Result Z VmError;
  cost_as_usize : Z → Outcome Z;
  cost_overflow_add : Z → Z → Z * bool;
  cost_overflow_mul : Z → Z → Z * bool;
  cost_overflow_mul_shr : Z → Z → Z → Z * bool;
  cost_add : Z → Z → Outcome Z;
  cost_sub : Z → Z → Outcome Z;
  cost_shl : Z → Z → Z;
}.

(** [impl CostType for U256].  The overflow of [overflow_mul_shr] is that of the product. *)
Definition u256_cost : CostType := {|
  cost_from_u256 val := Ok val;
  cost_as_usize z := if z <? 2 ^ 64 then Done z else Panic;
  cost_overflow_add := u256_overflowing_add;
  cost_overflow_mul := u256_overflowing_mul;
  cost_overflow_mul_shr a b shr := (u256 (Z.shiftr (a * b) shr), 2 ^ 256 <=? a * b);
  cost_add := u256_add;
  cost_sub := u256_sub;
  cost_shl := u256_shl;
|}.

(** [impl CostType for usize]. *)
Definition usize_cost : CostType := {|
  cost_from_u256 val :=
    let res := low_u64 val in
    if negb (res =? val) then Err OutOfGas else Ok res;
  cost_as_usize z := Done z;
  cost_overflow_add a b := (u64 (a + b), 2 ^ 64 <=? a + b);
  cost_overflow_mul a b := (u64 (a * b), 2 ^ 64 <=? a * b);
  cost_overflow_mul_shr a b shr :=
    let c := u128 (a * b) in
    let o := 2 ^ 128 <=? a * b in
    (u64 (Z.shiftr c shr), o || (0 <? Z.shiftr c 64));
  cost_add a b := if a + b <? 2 ^ 64 then Done (a + b) else Panic;
  cost_sub a b := if b <=? a then Done (a - b) else Panic;
  cost_shl z n := u64 (Z.shiftl z n);
|}.
