(* ===== verification/EvmMemory.v ===== *)
(** * Stack and memory of the virtual machine

    [src/parity-ethereum/ethcore/evm/src/interpreter/stack.rs] and [memory.rs].  The head of the
    list is the top of the stack; the buffer of [VecStack] in which [pop_n] hands out the
    popped words is the list it returns. *)

From S2P Require Import Prelude Hash Transaction Instructions EvmWord Vm.

Local Open Scope Z_scope.

(** ** Stack *)

Definition Stack := list Z.

Definition stack_peek (no_from_top : nat) (self : Stack) : Outcome Z := unwrap (self !! no_from_top).

Definition swap_with_top (no_from_top : nat) (self : Stack) : Outcome Stack :=
  x ← unwrap (self !! no_from_top);
  top ← unwrap (self !! 0%nat);
  Done (<[0%nat := x]> (<[no_from_top := top]> self)).

Definition stack_has (no_of_elems : nat) (self : Stack) : bool := (no_of_elems <=? length self)%nat.

Definition stack_pop_back (self : Stack) : Outcome (Z * Stack) :=
  match self with
  | [] => Panic
  | x :: self => Done (x, self)
  end.

Fixpoint pop_words (n : nat) (self : Stack) : Outcome (list Z * Stack) :=
  match n with
  | O => Done ([], self)
  | S n => '(x, self) ← stack_pop_back self; '(xs, self) ← pop_words n self; Done (x :: xs, self)
  end.

Definition stack_pop_n (no_of_elems : nat) (self : Stack) : Outcome (list Z * Stack) :=
  if (no_of_elems <=? MAX_NO_OF_TOPICS)%nat then pop_words no_of_elems self else Panic.

Definition stack_push (elem : Z) (self : Stack) : Stack := elem :: self.

Definition stack_size (self : Stack) : nat := length self.

Definition stack_peek_top (no_from_top : nat) (self : Stack) : Outcome (list Z) :=
  if (no_from_top <=? length self)%nat then Done (reverse (take no_from_top self)) else Panic.

(** ** Memory *)

Definition MAX_RETURN_WASTE_BYTES : Z := 16384.

Definition is_valid_range (off size : Z) : bool :=
  let overflow := 2 ^ 64 <=? off + size in
  (0 <? size) && negb overflow.

Definition mem_size (mem : list byte) : Z := Z.of_nat (length mem).

Definition read_slice (init_off_u init_size_u : Z) (mem : list byte) : Outcome (list byte) :=
  let off := low_u64 init_off_u in
  let size := low_u64 init_size_u in
  if negb (is_valid_range off size) then Done [] else slice mem off (off + size).

(** A read of one word. *)
Definition mem_read (offset : Z) (mem : list byte) : Outcome Z :=
  let off := low_u64 offset in
  bytes ← slice mem off (off + 32);
  Done (from_be_bytes bytes).

(** [mem[off..off + bytes.len()].copy_from_slice(bytes)]. *)
Definition splice (mem : list byte) (off : Z) (bytes : list byte) : Outcome (list byte) :=
  if off + Z.of_nat (length bytes) <=? Z.of_nat (length mem)
  then Done (take (Z.to_nat off) mem ++ bytes ++ drop (Z.to_nat off + length bytes) mem)
  else Panic.

(** The bounds of the slice that [writeable_slice] returns: its offset and its length. *)
Definition writeable_slice (offset size : Z) (mem : list byte) : Outcome (Z * Z) :=
  let off := low_u64 offset in
  let s := low_u64 size in
  if negb (is_valid_range off s) then Done (0, 0)
  else if off + s <=? mem_size mem then Done (off, s) else Panic.

Definition write_slice (offset : Z) (bytes : list byte) (mem : list byte) : Outcome (list byte) :=
  match bytes with
  | [] => Done mem
  | _ => splice mem (low_u64 offset) bytes
  end.

Definition mem_write (offset value : Z) (mem : list byte) : Outcome (list byte) :=
  splice mem (low_u64 offset) (to_be_bytes 32 value).

Definition write_byte (offset value : Z) (mem : list byte) : Outcome (list byte) :=
  splice mem (low_u64 offset) [byte_of_Z (low_u64 value `mod` 256)].

Definition mem_resize (new_size : Z) (mem : list byte) : list byte :=
  resize (Z.to_nat new_size) "000"%byte mem.

Definition expand (size : Z) (mem : list byte) : list byte :=
  if mem_size mem <? size then mem_resize size mem else mem.

Definition into_return_data (offset size : Z) (mem : list byte) : Outcome ReturnData :=
  let offset := low_u64 offset in
  let size := low_u64 size in
  if negb (is_valid_range offset size) then Done return_data_empty
  else if mem_size mem <? size then Panic
  else if MAX_RETURN_WASTE_BYTES <? mem_size mem - size then
    if offset =? 0 then Done (mkReturnData (take (Z.to_nat size) mem) offset size)
    else
      mem ← slice mem offset (offset + size);
      Done (mkReturnData mem 0 size)
  else Done (mkReturnData mem offset size).
