(* ===== verification/Gasometer.v ===== *)
(** * The gasometer

    [src/parity-ethereum/ethcore/evm/src/interpreter/gasometer.rs]: the price of an instruction,
    from the schedule, the stack and the size of the memory; and the refunds of EIP-1283. *)

From S2P Require Import Prelude Hash Transaction Account Instructions Schedule EvmWord Vm.
From S2P Require Import EvmMemory.

Local Open Scope Z_scope.

(** [a + b] and [a * b] of [usize]. *)
Definition usize_add (a b : Z) : Outcome Z := if a + b <? 2 ^ 64 then Done (a + b) else Panic.
Definition usize_mul (a b : Z) : Outcome Z := if a * b <? 2 ^ 64 then Done (a * b) else Panic.
Definition usize_sub (a b : Z) : Outcome Z := if b <=? a then Done (a - b) else Panic.

Inductive Request :=
| RequestGas (gas : Z)
| RequestGasMem (gas mem_size : Z)
| RequestGasMemProvide (gas mem_size : Z) (requested : option Z)
| RequestGasMemCopy (gas mem_size copy : Z).

Record InstructionRequirements := mkRequirements {
  gas_cost : Z;
  provide_gas : option Z;
  memory_total_gas : Z;
  memory_required_size : Z;
}.

Record Gasometer := mkGasometer {
  current_gas : Z;
  current_mem_gas : Z;
}.

Definition gasometer_new (current_gas : Z) : Gasometer := mkGasometer current_gas 0.

Definition verify_gas (gas_cost : Z) (self : Gasometer) : Result unit VmError :=
  if current_gas self <? gas_cost then Err OutOfGas else Ok tt.

Section Gasometer.
Context {X : Type} `{!CostType}.

(** The macro [overflowing!]. *)
Definition overflowing (p : Z * bool) : XM X Z :=
  let '(v, overflow) := p in if (overflow : bool) then xm_err OutOfGas else mret v.

(** *** Memory *)

Definition mem_needed_const (mem add : Z) : XM X Z :=
  s ← overflowing (u256_overflowing_add mem add);
  xm_lift (cost_from_u256 s).

Definition mem_needed (offset size : Z) : XM X Z :=
  if size =? 0 then mret 0
  else
    s ← overflowing (u256_overflowing_add offset size);
    xm_lift (cost_from_u256 s).

Definition add_gas_usize (value num : Z) : Z * bool := cost_overflow_add value num.

Definition to_word_size (value : Z) : Z * bool :=
  let '(gas, overflow) := add_gas_usize value 31 in
  if (overflow : bool) then (gas, overflow) else (Z.shiftr gas 5, false).

(** The closure of [mem_gas_cost]. *)
Definition gas_for_mem (schedule : Schedule) (mem_size : Z) : XM X Z :=
  let s := Z.shiftr mem_size 5 in
  a ← overflowing (cost_overflow_mul s (memory_gas schedule));
  _ ← xm_done (if quad_coeff_div schedule =? 512 then Done tt else Panic);
  b ← overflowing (cost_overflow_mul_shr s s 9);
  overflowing (cost_overflow_add a b).

Definition mem_gas_cost (self : Gasometer) (schedule : Schedule) (current_mem_size mem_size : Z) :
    XM X (Z * Z * Z) :=
  words ← overflowing (to_word_size mem_size);
  let req_mem_size_rounded := cost_shl words 5 in
  '(mem_gas_cost, new_mem_gas) ←
    (if current_mem_size <? req_mem_size_rounded then
       new_mem_gas ← gas_for_mem schedule req_mem_size_rounded;
       cost ← xm_done (cost_sub new_mem_gas (current_mem_gas self));
       mret (cost, new_mem_gas)
     else mret (0, current_mem_gas self));
  size ← xm_done (cost_as_usize req_mem_size_rounded);
  mret (mem_gas_cost, new_mem_gas, size).

(** *** Calls *)

Definition gas_provided (self : Gasometer) (schedule : Schedule) (needed : Z)
    (requested : option Z) : XM X Z :=
  let requested := cost_from_u256 <$> requested in
  let otherwise :=
    match requested with
    | Some r => xm_lift r
    | None => if needed <=? current_gas self
              then xm_done (cost_sub (current_gas self) needed) else mret 0
    end in
  match sub_gas_cap_divisor schedule with
  | Some cap_divisor =>
      if needed <=? current_gas self then
        gas_remaining ← xm_done (cost_sub (current_gas self) needed);
        max_gas_provided ← xm_done
          (if cap_divisor =? 64 then cost_sub gas_remaining (Z.shiftr gas_remaining 6)
           else if cap_divisor =? 0 then Panic
           else cost_sub gas_remaining (gas_remaining / cap_divisor));
        match requested with
        | Some (Ok r) => mret (Z.min r max_gas_provided)
        | _ => mret max_gas_provided
        end
      else otherwise
  | None => otherwise
  end.

(** *** Storage *)

Definition calculate_eip1283_sstore_gas (schedule : Schedule) (original current new : Z) : Z :=
  if current =? new then default (sload_gas schedule) (sstore_dirty_gas schedule)
  else if original =? current then
    if original =? 0 then sstore_set_gas schedule else sstore_reset_gas schedule
  else default (sload_gas schedule) (sstore_dirty_gas schedule).

Context `{!Ext X}.

Definition handle_eip1283_sstore_clears_refund (original current new : Z) (ext : X) : Outcome X :=
  let schedule := ext_schedule ext in
  let sstore_clears_schedule := sstore_refund_gas schedule in
  let dirty := default (sload_gas schedule) (sstore_dirty_gas schedule) in
  if current =? new then Done ext
  else if original =? current then
    if original =? 0 then Done ext
    else if new =? 0 then Done (ext_add_sstore_refund sstore_clears_schedule ext)
    else Done ext
  else
    let ext :=
      if negb (original =? 0) then
        if current =? 0 then ext_sub_sstore_refund sstore_clears_schedule ext
        else if new =? 0 then ext_add_sstore_refund sstore_clears_schedule ext
        else ext
      else ext in
    if original =? new then
      if original =? 0 then
        refund ← usize_sub (sstore_set_gas schedule) dirty;
        Done (ext_add_sstore_refund refund ext)
      else
        refund ← usize_sub (sstore_reset_gas schedule) dirty;
        Done (ext_add_sstore_refund refund ext)
    else Done ext.

(** *** Requirements *)

(** The [match] on the instruction. *)
Definition request (self : Gasometer) (schedule : Schedule) (instruction : Instruction)
    (default_gas : Z) (stack : Stack) : XM X Request :=
  let peek n : XM X Z := xm_done (stack_peek n stack) in
  match instruction with
  | JUMPDEST => mret (RequestGas 1)
  | SSTORE =>
      if eip1706 schedule && (current_gas self <=? call_stipend schedule) then xm_err OutOfGas
      else
        address ← peek 0%nat;
        newval ← peek 1%nat;
        val ← ext_storage_at (h256 address);
        let val := h256_Z val in
        gas ← (if eip1283 schedule then
                 orig ← ext_initial_storage_at (h256 address);
                 mret (calculate_eip1283_sstore_gas schedule (h256_Z orig) val newval)
               else if (val =? 0) && negb (newval =? 0) then mret (sstore_set_gas schedule)
               else mret (sstore_reset_gas schedule));
        mret (RequestGas gas)
  | SLOAD => mret (RequestGas (sload_gas schedule))
  | BALANCE => mret (RequestGas (balance_gas schedule))
  | EXTCODESIZE => mret (RequestGas (extcodesize_gas schedule))
  | EXTCODEHASH => mret (RequestGas (extcodehash_gas schedule))
  | SUICIDE =>
      let gas := suicide_gas schedule in
      balance ← ext_origin_balance;
      let is_value_transfer := negb (balance =? 0) in
      address ← peek 0%nat;
      let address := u256_to_address address in
      new_account ←
        (if negb (no_empty schedule) then
           exists_ ← ext_exists address; mret (negb exists_)
         else if is_value_transfer then
           exists_ ← ext_exists_and_not_null address; mret (negb exists_)
         else mret false);
      gas ← (if (new_account : bool)
             then overflowing (cost_overflow_add gas (suicide_to_new_account_cost schedule))
             else mret gas);
      mret (RequestGas gas)
  | MSTORE | MLOAD =>
      off ← peek 0%nat; mem ← mem_needed_const off 32; mret (RequestGasMem default_gas mem)
  | MSTORE8 =>
      off ← peek 0%nat; mem ← mem_needed_const off 1; mret (RequestGasMem default_gas mem)
  | RETURN | REVERT =>
      off ← peek 0%nat; size ← peek 1%nat;
      mem ← mem_needed off size; mret (RequestGasMem default_gas mem)
  | SHA3 =>
      size ← peek 1%nat;
      w ← xm_lift (cost_from_u256 size);
      words ← overflowing (to_word_size w);
      word_gas ← overflowing (cost_overflow_mul (sha3_word_gas schedule) words);
      gas ← overflowing (cost_overflow_add (sha3_gas schedule) word_gas);
      off ← peek 0%nat;
      mem ← mem_needed off size; mret (RequestGasMem gas mem)
  | CALLDATACOPY | CODECOPY | RETURNDATACOPY =>
      off ← peek 0%nat; size ← peek 2%nat;
      mem ← mem_needed off size;
      copy ← xm_lift (cost_from_u256 size);
      mret (RequestGasMemCopy default_gas mem copy)
  | EXTCODECOPY =>
      off ← peek 1%nat; size ← peek 3%nat;
      mem ← mem_needed off size;
      copy ← xm_lift (cost_from_u256 size);
      mret (RequestGasMemCopy (extcodecopy_base_gas schedule) mem copy)
  | LOG0 | LOG1 | LOG2 | LOG3 | LOG4 =>
      log_gas ←
        (no_of_topics ← xm_done (unwrap (log_topics instruction));
         topic_gas ← xm_done (usize_mul (log_topic_gas schedule) (Z.of_nat no_of_topics));
         xm_done (usize_add (log_gas schedule) topic_gas));
      size ← peek 1%nat;
      data ← xm_lift (cost_from_u256 size);
      data_gas ← overflowing (cost_overflow_mul data (log_data_gas schedule));
      gas ← overflowing (cost_overflow_add data_gas log_gas);
      off ← peek 0%nat;
      mem ← mem_needed off size; mret (RequestGasMem gas mem)
  | CALL | CALLCODE =>
      let gas := call_gas schedule in
      out_off ← peek 5%nat; out_size ← peek 6%nat; out_mem ← mem_needed out_off out_size;
      in_off ← peek 3%nat; in_size ← peek 4%nat; in_mem ← mem_needed in_off in_size;
      let mem := Z.max out_mem in_mem in
      address ← peek 1%nat;
      let address := u256_to_address address in
      value ← peek 2%nat;
      let is_value_transfer := negb (value =? 0) in
      new_account ←
        (if bool_decide (instruction = CALL) then
           if negb (no_empty schedule) then
             exists_ ← ext_exists address; mret (negb exists_)
           else if is_value_transfer then
             exists_ ← ext_exists_and_not_null address; mret (negb exists_)
           else mret false
         else mret false);
      gas ← (if (new_account : bool)
             then overflowing (cost_overflow_add gas (call_new_account_gas schedule))
             else mret gas);
      gas ← (if is_value_transfer
             then overflowing (cost_overflow_add gas (call_value_transfer_gas schedule))
             else mret gas);
      requested ← peek 0%nat;
      mret (RequestGasMemProvide gas mem (Some requested))
  | DELEGATECALL | STATICCALL =>
      let gas := call_gas schedule in
      out_off ← peek 4%nat; out_size ← peek 5%nat; out_mem ← mem_needed out_off out_size;
      in_off ← peek 2%nat; in_size ← peek 3%nat; in_mem ← mem_needed in_off in_size;
      requested ← peek 0%nat;
      mret (RequestGasMemProvide gas (Z.max out_mem in_mem) (Some requested))
  | CREATE =>
      start ← peek 1%nat; len ← peek 2%nat;
      mem ← mem_needed start len;
      mret (RequestGasMemProvide (create_gas schedule) mem None)
  | CREATE2 =>
      start ← peek 1%nat; len ← peek 2%nat;
      w ← xm_lift (cost_from_u256 len);
      word ← overflowing (to_word_size w);
      word_gas ← overflowing (cost_overflow_mul (sha3_word_gas schedule) word);
      gas ← overflowing (cost_overflow_add (create_gas schedule) word_gas);
      mem ← mem_needed start len;
      mret (RequestGasMemProvide gas mem None)
  | EXP =>
      expon ← peek 1%nat;
      let bytes := (u256_bits expon + 7) / 8 in
      byte_gas ← xm_done (usize_mul (exp_byte_gas schedule) bytes);
      gas ← xm_done (usize_add (exp_gas schedule) byte_gas);
      mret (RequestGas gas)
  | BLOCKHASH => mret (RequestGas (blockhash_gas schedule))
  | _ => mret (RequestGas default_gas)
  end.

Definition requirements (instruction : Instruction) (info : InstructionInfo) (stack : Stack)
    (current_mem_size : Z) (self : Gasometer) : XM X InstructionRequirements :=
  schedule ← xm_ask ext_schedule;
  default_gas ← xm_done (unwrap (tier_step_gas schedule !! tier_idx (info_tier info)));
  cost ← request self schedule instruction default_gas stack;
  match cost with
  | RequestGas gas => mret (mkRequirements gas None (current_mem_gas self) 0)
  | RequestGasMem gas mem_size =>
      '(mem_gas, new_mem_gas, new_mem_size) ← mem_gas_cost self schedule current_mem_size mem_size;
      gas ← overflowing (cost_overflow_add gas mem_gas);
      mret (mkRequirements gas None new_mem_gas new_mem_size)
  | RequestGasMemProvide gas mem_size requested =>
      '(mem_gas, new_mem_gas, new_mem_size) ← mem_gas_cost self schedule current_mem_size mem_size;
      gas ← overflowing (cost_overflow_add gas mem_gas);
      provided ← gas_provided self schedule gas requested;
      total_gas ← overflowing (cost_overflow_add gas provided);
      mret (mkRequirements total_gas (Some provided) new_mem_gas new_mem_size)
  | RequestGasMemCopy gas mem_size copy =>
      '(mem_gas, new_mem_gas, new_mem_size) ← mem_gas_cost self schedule current_mem_size mem_size;
      copy ← overflowing (to_word_size copy);
      copy_gas ← overflowing (cost_overflow_mul (copy_gas schedule) copy);
      gas ← overflowing (cost_overflow_add gas copy_gas);
      gas ← overflowing (cost_overflow_add gas mem_gas);
      mret (mkRequirements gas None new_mem_gas new_mem_size)
  end.
End Gasometer.
