(* ===== verification/Evm.v ===== *)
(** * The interpreter of the virtual machine

    [src/parity-ethereum/ethcore/evm/src/interpreter/mod.rs], [shared_cache.rs] and
    [src/parity-ethereum/ethcore/evm/src/factory.rs].  The interpreter runs on the outside [X],
    any implementation of [Ext]; a step of it changes both.  The informant, which prints debug
    output, is left out.  The cache of jump destinations is an LRU cache, a parameter. *)

From S2P Require Import Prelude Hash Transaction Account Instructions Schedule EvmWord Vm.
From S2P Require Import EvmMemory Gasometer.

Local Open Scope Z_scope.

(** ** Jump destinations *)

(** A set of positions in the code. *)
Definition BitSet := gset Z.

(** The loop of [find_jump_destinations]. *)
Fixpoint find_loop (fuel : nat) (code : list byte) (position : nat) (jump_dests : BitSet) :
    BitSet :=
  match fuel with
  | O => jump_dests
  | S fuel =>
      match code !! position with
      | None => jump_dests
      | Some op =>
          match from_u8 op with
          | Some instruction =>
              if bool_decide (instruction = JUMPDEST)
              then find_loop fuel code (position + 1) ({[Z.of_nat position]} ∪ jump_dests)
              else match push_bytes instruction with
                   | Some push_bytes => find_loop fuel code (position + push_bytes + 1) jump_dests
                   | None => find_loop fuel code (position + 1) jump_dests
                   end
          | None => find_loop fuel code (position + 1) jump_dests
          end
      end
  end.

Definition find_jump_destinations (code : list byte) : BitSet := find_loop (length code) code 0 ∅.

Section SharedCache.
Context `{Keccak} `{!LruCache H256 BitSet}.

Definition SharedCache := lru H256 BitSet.

(** [SharedCache::jump_destinations]. *)
Definition jump_destinations (code_hash : option H256) (code : list byte) (self : SharedCache) :
    BitSet * SharedCache :=
  match code_hash with
  | Some h =>
      if decide (h = KECCAK_EMPTY) then (find_jump_destinations code, self)
      else
        let '(d, self) := lru_get self h in
        match d with
        | Some d => (d, self)
        | None => let d := find_jump_destinations code in (d, lru_insert self h d)
        end
  | None => (find_jump_destinations code, self)
  end.
End SharedCache.

(** ** The state of the interpreter *)

Inductive InstructionResult :=
| InstrOk
| UnusedGas (gas : Z)
| JumpToPosition (position : Z)
| StopExecutionNeedsReturn (gas init_off init_size : Z) (apply : bool)
| StopExecution
| InstrTrap (trap : TrapKind).

Record InterpreterParams := mkInterpreterParams {
  ip_code_address : Address;
  ip_code_hash : option H256;
  ip_code_version : Z;
  ip_address : Address;
  ip_sender : Address;
  ip_origin : Address;
  ip_gas : Z;
  ip_gas_price : Z;
  ip_value : ActionValue;
  ip_data : option (list byte);
  ip_call_type : CallType;
  ip_params_type : ParamsType;
}.

Definition interpreter_params (params : ActionParams) : InterpreterParams :=
  mkInterpreterParams (ap_code_address params) (ap_code_hash params) (ap_code_version params)
    (ap_address params) (ap_sender params) (ap_origin params) (ap_gas params)
    (ap_gas_price params) (ap_value params) (ap_data params) (ap_call_type params)
    (ap_params_type params).

Inductive InterpreterResult :=
| Stopped
| InterpreterDone (r : Result GasLeft VmError)
| Continue
| InterpreterTrap (trap : TrapKind).

(** [copy_data_to_memory], on the arguments that it takes from the stack. *)
Definition copy_data (dest_offset source_offset size : Z) (source : list byte) (mem : list byte) :
    Outcome (list byte) :=
  let source_size := Z.of_nat (length source) in
  past ←
    (if (source_size <? source_offset) || (source_size <? size) then Done true
     else sum ← u256_add source_offset size; Done (source_size <? sum));
  '(mem, output_end) ←
    (if (past : bool) then
       '(off, len) ←
         (if source_size <? source_offset then writeable_slice dest_offset size mem
          else
            a ← u256_add dest_offset source_size;
            a ← u256_sub a source_offset;
            b ← u256_add source_offset size;
            b ← u256_sub b source_size;
            writeable_slice a b mem);
       mem ← splice mem off (replicate (Z.to_nat len) "000"%byte);
       Done (mem, source_size)
     else Done (mem, u64 (low_u64 size + low_u64 source_offset)));
  if source_offset <? source_size then
    let output_begin := low_u64 source_offset in
    bytes ← slice source output_begin output_end;
    write_slice dest_offset bytes mem
  else Done mem.

(** What [SSTORE] does to the outside: the refund, and the write. *)
Definition sstore `{Ext X} (address val : Z) : XM X unit :=
  current_val ← ext_storage_at (h256 address);
  let current_val := h256_Z current_val in
  schedule ← xm_ask ext_schedule;
  _ ← (if eip1283 schedule then
         original_val ← ext_initial_storage_at (h256 address);
         xm_run (handle_eip1283_sstore_clears_refund (h256_Z original_val) current_val val)
       else if negb (current_val =? 0) && (val =? 0)
       then xm_run (λ x, Done (ext_add_sstore_refund (sstore_refund_gas schedule) x))
       else mret tt);
  ext_set_storage (h256 address) (h256 val).

Section Interpreter.
Context `{Keccak} `{!LruCache H256 BitSet}.

(** [position] and [code] are the code reader. *)
Record Interpreter := mkInterpreter {
  mem : list byte;
  jump_cache : SharedCache;
  params : InterpreterParams;
  position : Z;
  code : list byte;
  return_data : ReturnData;
  do_trace : bool;
  done : bool;
  valid_jump_destinations : option BitSet;
  gasometer : option Gasometer;
  stack : Stack;
  resume_output_range : option (Z * Z);
  resume_result : option InstructionResult;
  last_stack_ret_len : nat;
}.

Definition set_mem m (s : Interpreter) : Interpreter :=
  mkInterpreter m (jump_cache s) (params s) (position s) (code s) (return_data s) (do_trace s)
    (done s) (valid_jump_destinations s) (gasometer s) (stack s) (resume_output_range s)
    (resume_result s) (last_stack_ret_len s).
Definition set_position pos (s : Interpreter) : Interpreter :=
  mkInterpreter (mem s) (jump_cache s) (params s) pos (code s) (return_data s) (do_trace s)
    (done s) (valid_jump_destinations s) (gasometer s) (stack s) (resume_output_range s)
    (resume_result s) (last_stack_ret_len s).
Definition set_return_data rd (s : Interpreter) : Interpreter :=
  mkInterpreter (mem s) (jump_cache s) (params s) (position s) (code s) rd (do_trace s)
    (done s) (valid_jump_destinations s) (gasometer s) (stack s) (resume_output_range s)
    (resume_result s) (last_stack_ret_len s).
Definition set_do_trace tr (s : Interpreter) : Interpreter :=
  mkInterpreter (mem s) (jump_cache s) (params s) (position s) (code s) (return_data s)
    tr (done s) (valid_jump_destinations s) (gasometer s) (stack s) (resume_output_range s)
    (resume_result s) (last_stack_ret_len s).
Definition set_done dn (s : Interpreter) : Interpreter :=
  mkInterpreter (mem s) (jump_cache s) (params s) (position s) (code s) (return_data s)
    (do_trace s) dn (valid_jump_destinations s) (gasometer s) (stack s) (resume_output_range s)
    (resume_result s) (last_stack_ret_len s).
Definition set_jumps jc vj (s : Interpreter) : Interpreter :=
  mkInterpreter (mem s) jc (params s) (position s) (code s) (return_data s) (do_trace s)
    (done s) vj (gasometer s) (stack s) (resume_output_range s) (resume_result s)
    (last_stack_ret_len s).
Definition set_gasometer g (s : Interpreter) : Interpreter :=
  mkInterpreter (mem s) (jump_cache s) (params s) (position s) (code s) (return_data s)
    (do_trace s) (done s) (valid_jump_destinations s) g (stack s) (resume_output_range s)
    (resume_result s) (last_stack_ret_len s).
Definition set_stack st (s : Interpreter) : Interpreter :=
  mkInterpreter (mem s) (jump_cache s) (params s) (position s) (code s) (return_data s)
    (do_trace s) (done s) (valid_jump_destinations s) (gasometer s) st (resume_output_range s)
    (resume_result s) (last_stack_ret_len s).
Definition set_resume_output_range ro (s : Interpreter) : Interpreter :=
  mkInterpreter (mem s) (jump_cache s) (params s) (position s) (code s) (return_data s)
    (do_trace s) (done s) (valid_jump_destinations s) (gasometer s) (stack s)
    ro (resume_result s) (last_stack_ret_len s).
Definition set_resume_result rr (s : Interpreter) : Interpreter :=
  mkInterpreter (mem s) (jump_cache s) (params s) (position s) (code s) (return_data s)
    (do_trace s) (done s) (valid_jump_destinations s) (gasometer s) (stack s)
    (resume_output_range s) rr (last_stack_ret_len s).
Definition set_last_stack_ret_len l (s : Interpreter) : Interpreter :=
  mkInterpreter (mem s) (jump_cache s) (params s) (position s) (code s) (return_data s)
    (do_trace s) (done s) (valid_jump_destinations s) (gasometer s) (stack s)
    (resume_output_range s) (resume_result s) l.

Section Steps.
Context {X : Type} `{!Ext X} `{!CostType}.

Definition interpreter_new (p : ActionParams) (cache : SharedCache) : Outcome Interpreter :=
  code ← unwrap (ap_code p);
  Done (mkInterpreter [] cache (interpreter_params p) 0 code return_data_empty true false None
          (match cost_from_u256 (ap_gas p) with Ok gas => Some (gasometer_new gas) | Err _ => None end)
          [] None None 0).

(** ** Access to the state *)

Abbreviation VM := (XM (Interpreter * X)).

Definition vm_get : VM Interpreter := λ m, Done (m, Ok m.1).
Definition vm_modify (f : Interpreter → Interpreter) : VM unit := λ m, Done ((f m.1, m.2), Ok tt).
Definition vm_ext {A} (f : XM X A) : VM A := λ m, '(x, r) ← f m.2; Done ((m.1, x), r).
Definition vm_ext_run {A} (f : X → Outcome (X * A)) : VM A := λ m,
  '(x, a) ← f m.2; Done ((m.1, x), Ok a).
Definition vm_ext_modify (f : X → X) : VM unit := λ m, Done ((m.1, f m.2), Ok tt).
Definition vm_schedule : VM Schedule := λ m, Done (m, Ok (ext_schedule m.2)).

Definition pop_back : VM Z :=
  i ← vm_get;
  '(x, st) ← xm_done (stack_pop_back (stack i));
  _ ← vm_modify (set_stack st);
  mret x.
Definition push (x : Z) : VM unit := vm_modify (λ i, set_stack (stack_push x (stack i)) i).
Definition peek (n : nat) : VM Z := i ← vm_get; xm_done (stack_peek n (stack i)).

(** A read and a change of the memory. *)
Definition read_mem {A} (f : list byte → Outcome A) : VM A := i ← vm_get; xm_done (f (mem i)).
Definition change_mem (f : list byte → Outcome (list byte)) : VM unit :=
  m ← read_mem f; vm_modify (set_mem m).

(** The current gas; there is a gasometer when a step runs. *)
Definition get_gasometer : VM Gasometer := i ← vm_get; xm_done (unwrap (gasometer i)).
Definition put_gasometer (g : Gasometer) : VM unit := vm_modify (set_gasometer (Some g)).

(** [CodeReader::read]. *)
Definition read_code (no_of_bytes : nat) : VM Z :=
  i ← vm_get;
  let pos := position i in
  let max := Z.min (pos + Z.of_nat no_of_bytes) (Z.of_nat (length (code i))) in
  _ ← vm_modify (set_position (pos + Z.of_nat no_of_bytes));
  bytes ← xm_done (slice (code i) pos max);
  mret (from_be_bytes bytes).

(** ** Instructions *)

Definition unary (f : Z → Z) : VM InstructionResult :=
  a ← pop_back; _ ← push (f a); mret InstrOk.
Definition binary (f : Z → Z → Z) : VM InstructionResult :=
  a ← pop_back; b ← pop_back; _ ← push (f a b); mret InstrOk.
Definition ternary (f : Z → Z → Z → Z) : VM InstructionResult :=
  a ← pop_back; b ← pop_back; c ← pop_back; _ ← push (f a b c); mret InstrOk.
Definition push_result (m : VM Z) : VM InstructionResult := x ← m; _ ← push x; mret InstrOk.

Definition copy_data_to_memory (source : list byte) : VM unit :=
  dest_offset ← pop_back;
  source_offset ← pop_back;
  size ← pop_back;
  change_mem (copy_data dest_offset source_offset size source).

(** Write the output of a call to the range the caller gave. *)
Definition copy_output (out_off out_size : Z) (data : ReturnData) : VM unit :=
  '(off, len) ← read_mem (writeable_slice out_off out_size);
  bytes ← xm_done (rd_deref data);
  change_mem (λ m, splice m off (take (Z.to_nat len) bytes)).

(** The result of a call, for [exec_instruction] and [resume_call]. *)
Definition call_returned (out_off out_size : Z) (result : MessageCallResult) :
    VM InstructionResult :=
  match result with
  | CallSuccess gas_left data =>
      _ ← copy_output out_off out_size data;
      _ ← push 1;
      _ ← vm_modify (set_return_data data);
      gas ← xm_done (expect (cost_from_u256 gas_left));
      mret (UnusedGas gas)
  | CallReverted gas_left data =>
      _ ← copy_output out_off out_size data;
      _ ← push 0;
      _ ← vm_modify (set_return_data data);
      gas ← xm_done (expect (cost_from_u256 gas_left));
      mret (UnusedGas gas)
  | CallFailed => _ ← push 0; mret InstrOk
  end.

(** The result of a creation, for [exec_instruction] and [resume_create]. *)
Definition create_returned (result : ContractCreateResult) : VM InstructionResult :=
  match result with
  | Created a gas_left =>
      _ ← push (address_to_u256 a);
      gas ← xm_done (expect (cost_from_u256 gas_left));
      mret (UnusedGas gas)
  | CreateReverted gas_left data =>
      _ ← push 0;
      _ ← vm_modify (set_return_data data);
      gas ← xm_done (expect (cost_from_u256 gas_left));
      mret (UnusedGas gas)
  | CreateFailed => _ ← push 0; mret InstrOk
  end.

(** The end of a [CREATE] or [CREATE2], when its arguments are taken from the stack. *)
Definition create_contract (endowment init_off init_size : Z)
    (address_scheme : CreateContractAddress) (provided : option Z) : VM InstructionResult :=
  create_gas ← xm_done (unwrap provided);
  is_static ← vm_ext (xm_ask ext_is_static);
  if (is_static : bool) then xm_err MutableCallInStaticContext
  else
    _ ← vm_modify (set_return_data return_data_empty);
    i ← vm_get;
    balance ← vm_ext (ext_balance (ip_address (params i)));
    schedule ← vm_schedule;
    depth ← vm_ext (xm_ask ext_depth);
    let can_create := (endowment <=? balance) && (depth <? max_depth schedule) in
    if negb can_create then _ ← push 0; mret (UnusedGas create_gas)
    else
      contract_code ← read_mem (read_slice init_off init_size);
      create_result ← vm_ext_run (ext_create create_gas endowment contract_code
        (ip_code_version (params i)) address_scheme true);
      match create_result with
      | Ok result => create_returned result
      | Err trap => mret (InstrTrap trap)
      end.

Definition exec_create (instruction : Instruction) (provided : option Z) : VM InstructionResult :=
  endowment ← pop_back;
  init_off ← pop_back;
  init_size ← pop_back;
  address_scheme ←
    (if bool_decide (instruction = CREATE2)
     then salt ← pop_back; mret (FromSenderSaltAndCodeHash (h256 salt))
     else mret FromSenderAndNonce);
  create_contract endowment init_off init_size address_scheme provided.

(** The sender, the receiver, whether there is the balance for the value, and the type of the
    call. *)
Definition call_target (instruction : Instruction) (code_address : Address) (value : option Z) :
    VM (Address * Address * bool * CallType) :=
  i ← vm_get;
  let self := ip_address (params i) in
  match instruction with
  | CALL =>
      is_static ← vm_ext (xm_ask ext_is_static);
      if (is_static : bool) && match value with Some v => negb (v =? 0) | None => false end
      then xm_err MutableCallInStaticContext
      else
        balance ← vm_ext (ext_balance self);
        v ← xm_done (unwrap value);
        mret (self, code_address, v <=? balance, CT_Call)
  | CALLCODE =>
      balance ← vm_ext (ext_balance self);
      v ← xm_done (unwrap value);
      mret (self, self, v <=? balance, CT_CallCode)
  | DELEGATECALL => mret (ip_sender (params i), self, true, CT_DelegateCall)
  | STATICCALL => mret (self, code_address, true, CT_StaticCall)
  | _ => xm_done Panic
  end.

(** The end of a call, when its arguments are taken from the stack. *)
Definition call_contract (instruction : Instruction) (call_gas : Z) (code_address : Address)
    (value : option Z) (in_off in_size out_off out_size : Z) : VM InstructionResult :=
  schedule ← vm_schedule;
  let stipend := match value with
                 | Some val => if val =? 0 then 0 else call_stipend schedule
                 | None => 0
                 end in
  let call_gas := (cost_overflow_add call_gas stipend).1 in
  '(sender_address, receive_address, has_balance, call_type) ←
    call_target instruction code_address value;
  _ ← vm_modify (set_return_data return_data_empty);
  depth ← vm_ext (xm_ask ext_depth);
  let can_call := (has_balance : bool) && (depth <? max_depth schedule) in
  if negb can_call then _ ← push 0; mret (UnusedGas call_gas)
  else
    input ← read_mem (read_slice in_off in_size);
    call_result ← vm_ext_run (ext_call call_gas sender_address receive_address value input
      code_address call_type true);
    _ ← vm_modify (set_resume_output_range (Some (out_off, out_size)));
    match call_result with
    | Ok result => call_returned out_off out_size result
    | Err trap => mret (InstrTrap trap)
    end.

Definition exec_call (instruction : Instruction) (provided : option Z) : VM InstructionResult :=
  schedule ← vm_schedule;
  _ ← xm_done (if call_stipend schedule <? call_value_transfer_gas schedule then Done tt else Panic);
  _ ← pop_back;
  call_gas ← xm_done (unwrap provided);
  code_address ← pop_back;
  value ←
    (if bool_decide (instruction = DELEGATECALL) then mret None
     else if bool_decide (instruction = STATICCALL) then mret (Some 0)
     else v ← pop_back; mret (Some v));
  in_off ← pop_back;
  in_size ← pop_back;
  out_off ← pop_back;
  out_size ← pop_back;
  call_contract instruction call_gas (u256_to_address code_address) value
    in_off in_size out_off out_size.

(** [CALLDATALOAD]. *)
Definition calldata_load (big_id : Z) (data : option (list byte)) : Outcome Z :=
  let id := low_u64 big_id in
  let max := u64 (id + 32) in
  match data with
  | Some data =>
      let bound := Z.min (Z.of_nat (length data)) max in
      if (id <? bound) && (big_id <? Z.of_nat (length data)) then
        bytes ← slice data id bound;
        Done (from_be_bytes (bytes ++ replicate (32 - length bytes) "000"%byte))
      else Done 0
  | None => Done 0
  end.

Definition exec_sstore : VM InstructionResult :=
  address ← pop_back;
  val ← pop_back;
  _ ← vm_ext (sstore address val);
  mret InstrOk.

Definition exec_log (instruction : Instruction) : VM InstructionResult :=
  no_of_topics ← xm_done (unwrap (log_topics instruction));
  offset ← pop_back;
  size ← pop_back;
  i ← vm_get;
  '(topics, st) ← xm_done (stack_pop_n no_of_topics (stack i));
  _ ← vm_modify (set_stack st);
  data ← read_mem (read_slice offset size);
  _ ← vm_ext (ext_log (h256 <$> topics) data);
  mret InstrOk.

Definition exec_return (gas : Z) (apply : bool) : VM InstructionResult :=
  init_off ← pop_back;
  init_size ← pop_back;
  mret (StopExecutionNeedsReturn gas init_off init_size apply).

Definition exec_push (instruction : Instruction) : VM InstructionResult :=
  bytes ← xm_done (unwrap (push_bytes instruction));
  push_result (read_code bytes).

Definition exec_dup (instruction : Instruction) : VM InstructionResult :=
  position ← xm_done (unwrap (dup_position instruction));
  push_result (peek position).

Definition exec_swap (instruction : Instruction) : VM InstructionResult :=
  position ← xm_done (unwrap (swap_position instruction));
  i ← vm_get;
  st ← xm_done (swap_with_top position (stack i));
  _ ← vm_modify (set_stack st);
  mret InstrOk.

Definition exec_instruction (gas : Z) (instruction : Instruction) (provided : option Z) :
    VM InstructionResult :=
  match instruction with
  | JUMP => jump ← pop_back; mret (JumpToPosition jump)
  | JUMPI =>
      jump ← pop_back;
      condition ← pop_back;
      mret (if condition =? 0 then InstrOk else JumpToPosition jump)
  | JUMPDEST => mret InstrOk
  | CREATE | CREATE2 => exec_create instruction provided
  | CALL | CALLCODE | DELEGATECALL | STATICCALL => exec_call instruction provided
  | RETURN => exec_return gas true
  | REVERT => exec_return gas false
  | STOP => mret StopExecution
  | SUICIDE =>
      address ← pop_back;
      _ ← vm_ext (ext_suicide (u256_to_address address));
      mret StopExecution
  | LOG0 | LOG1 | LOG2 | LOG3 | LOG4 => exec_log instruction
  | PUSH1 | PUSH2 | PUSH3 | PUSH4 | PUSH5 | PUSH6 | PUSH7 | PUSH8 | PUSH9 | PUSH10 | PUSH11
  | PUSH12 | PUSH13 | PUSH14 | PUSH15 | PUSH16 | PUSH17 | PUSH18 | PUSH19 | PUSH20 | PUSH21
  | PUSH22 | PUSH23 | PUSH24 | PUSH25 | PUSH26 | PUSH27 | PUSH28 | PUSH29 | PUSH30 | PUSH31
  | PUSH32 => exec_push instruction
  | MLOAD => push_result (offset ← pop_back; read_mem (mem_read offset))
  | MSTORE =>
      offset ← pop_back; word ← pop_back;
      _ ← change_mem (mem_write offset word); mret InstrOk
  | MSTORE8 =>
      offset ← pop_back; byte ← pop_back;
      _ ← change_mem (write_byte offset byte); mret InstrOk
  | MSIZE => push_result (read_mem (λ m, Done (mem_size m)))
  | SHA3 =>
      offset ← pop_back; size ← pop_back;
      data ← read_mem (read_slice offset size);
      _ ← push (h256_Z (keccak data)); mret InstrOk
  | SLOAD =>
      key ← pop_back;
      word ← vm_ext (ext_storage_at (h256 key));
      _ ← push (h256_Z word); mret InstrOk
  | SSTORE => exec_sstore
  | PC => push_result (i ← vm_get; xm_done (usize_sub (position i) 1))
  | GAS => push_result (mret gas)
  | ADDRESS => push_result (i ← vm_get; mret (address_to_u256 (ip_address (params i))))
  | ORIGIN => push_result (i ← vm_get; mret (address_to_u256 (ip_origin (params i))))
  | BALANCE => push_result (a ← pop_back; vm_ext (ext_balance (u256_to_address a)))
  | CALLER => push_result (i ← vm_get; mret (address_to_u256 (ip_sender (params i))))
  | CALLVALUE => push_result (i ← vm_get; mret (action_value (ip_value (params i))))
  | CALLDATALOAD =>
      push_result (id ← pop_back; i ← vm_get; xm_done (calldata_load id (ip_data (params i))))
  | CALLDATASIZE =>
      push_result (i ← vm_get; mret (match ip_data (params i) with
                                     | Some l => Z.of_nat (length l) | None => 0 end))
  | CODESIZE => push_result (i ← vm_get; mret (Z.of_nat (length (code i))))
  | RETURNDATASIZE => push_result (i ← vm_get; xm_done (rd_len (return_data i)))
  | EXTCODESIZE =>
      push_result (a ← pop_back; len ← vm_ext (ext_extcodesize (u256_to_address a));
                   mret (default 0 len))
  | EXTCODEHASH =>
      push_result (a ← pop_back; h ← vm_ext (ext_extcodehash (u256_to_address a));
                   mret (h256_Z (default h256_default h)))
  | CALLDATACOPY =>
      i ← vm_get; _ ← copy_data_to_memory (default [] (ip_data (params i))); mret InstrOk
  | RETURNDATACOPY =>
      source_offset ← peek 1;
      size ← peek 2;
      i ← vm_get;
      data ← xm_done (rd_deref (return_data i));
      if Z.of_nat (length data) <? u256_saturating_add source_offset size
      then xm_err OutOfBounds
      else _ ← copy_data_to_memory data; mret InstrOk
  | CODECOPY => i ← vm_get; _ ← copy_data_to_memory (code i); mret InstrOk
  | EXTCODECOPY =>
      a ← pop_back;
      c ← vm_ext (ext_extcode (u256_to_address a));
      _ ← copy_data_to_memory (default [] c); mret InstrOk
  | GASPRICE => push_result (i ← vm_get; mret (ip_gas_price (params i)))
  | BLOCKHASH =>
      push_result (number ← pop_back;
                   h ← vm_ext_run (ext_blockhash number);
                   mret (h256_Z h))
  | COINBASE => push_result (e ← vm_ext (xm_ask ext_env_info); mret (address_to_u256 (env_author e)))
  | TIMESTAMP => push_result (e ← vm_ext (xm_ask ext_env_info); mret (env_timestamp e))
  | NUMBER => push_result (e ← vm_ext (xm_ask ext_env_info); mret (env_number e))
  | DIFFICULTY => push_result (e ← vm_ext (xm_ask ext_env_info); mret (env_difficulty e))
  | GASLIMIT => push_result (e ← vm_ext (xm_ask ext_env_info); mret (env_gas_limit e))
  | CHAINID => push_result (vm_ext (xm_ask ext_chain_id))
  | SELFBALANCE => push_result (i ← vm_get; vm_ext (ext_balance (ip_address (params i))))
  | DUP1 | DUP2 | DUP3 | DUP4 | DUP5 | DUP6 | DUP7 | DUP8 | DUP9 | DUP10 | DUP11 | DUP12
  | DUP13 | DUP14 | DUP15 | DUP16 => exec_dup instruction
  | SWAP1 | SWAP2 | SWAP3 | SWAP4 | SWAP5 | SWAP6 | SWAP7 | SWAP8 | SWAP9 | SWAP10 | SWAP11
  | SWAP12 | SWAP13 | SWAP14 | SWAP15 | SWAP16 => exec_swap instruction
  | POP => _ ← pop_back; mret InstrOk
  | ADD => binary op_add
  | MUL => binary op_mul
  | SUB => binary op_sub
  | DIV => binary op_div
  | MOD => binary op_mod
  | SDIV => binary op_sdiv
  | SMOD => binary op_smod
  | EXP => binary u256_pow
  | NOT => unary u256_not
  | LT => binary op_lt
  | SLT => binary op_slt
  | GT => binary op_gt
  | SGT => binary op_sgt
  | EQ => binary op_eq
  | ISZERO => unary (λ a, bool_to_u256 (a =? 0))
  | AND => binary Z.land
  | OR => binary Z.lor
  | XOR => binary Z.lxor
  | BYTE => binary op_byte
  | ADDMOD => ternary op_addmod
  | MULMOD => ternary op_mulmod
  | SIGNEXTEND =>
      bit ← pop_back;
      if bit <? 32 then number ← pop_back; _ ← push (sign_extend bit number); mret InstrOk
      else mret InstrOk
  | SHL => binary op_shl
  | SHR => binary op_shr
  | SAR => binary op_sar
  end.

(** ** One step *)

(** Instructions that the schedule does not have. *)
Definition unavailable (schedule : Schedule) (instruction : Instruction) : bool :=
  match instruction with
  | DELEGATECALL => negb (have_delegate_call schedule)
  | CREATE2 => negb (have_create2 schedule)
  | STATICCALL => negb (have_static_call schedule)
  | RETURNDATACOPY | RETURNDATASIZE => negb (have_return_data schedule)
  | REVERT => negb (have_revert schedule)
  | SHL | SHR | SAR => negb (have_bitwise_shifting schedule)
  | EXTCODEHASH => negb (have_extcodehash schedule)
  | CHAINID => negb (have_chain_id schedule)
  | SELFBALANCE => negb (have_selfbalance schedule)
  | _ => false
  end.

Definition verify_instruction (instruction : Instruction) (info : InstructionInfo) : VM unit :=
  schedule ← vm_schedule;
  if unavailable schedule instruction then xm_err (BadInstruction (opcode instruction))
  else
    i ← vm_get;
    let size := Z.of_nat (stack_size (stack i)) in
    let args := Z.of_nat (info_args info) in
    let ret := Z.of_nat (info_ret info) in
    if negb (stack_has (info_args info) (stack i))
    then xm_err (StackUnderflow (info_name info) args size)
    else if stack_limit schedule <? size - args + ret
    then wanted ← xm_done (usize_sub ret args);
         xm_err (OutOfStack (info_name info) wanted (stack_limit schedule))
    else mret tt.

(** What a step may write, for the tracer. *)
Definition mem_written (instruction : Instruction) (stack : Stack) : Outcome (option (Z * Z)) :=
  let read pos := v ← stack_peek pos stack; Done (low_u64 v) in
  written ←
    match instruction with
    | MSTORE | MLOAD => o ← read 0%nat; Done (Some (o, 32))
    | MSTORE8 => o ← read 0%nat; Done (Some (o, 1))
    | CALLDATACOPY | CODECOPY | RETURNDATACOPY =>
        o ← read 0%nat; s ← read 2%nat; Done (Some (o, s))
    | EXTCODECOPY => o ← read 1%nat; s ← read 3%nat; Done (Some (o, s))
    | CALL | CALLCODE => o ← read 5%nat; s ← read 6%nat; Done (Some (o, s))
    | DELEGATECALL | STATICCALL => o ← read 4%nat; s ← read 5%nat; Done (Some (o, s))
    | _ => Done None
    end;
  match written with
  | Some (offset, size) => Done (if is_valid_range offset size then written else None)
  | None => Done None
  end.

Definition store_written (instruction : Instruction) (stack : Stack) : Outcome (option (Z * Z)) :=
  match instruction with
  | SSTORE => k ← stack_peek 0 stack; v ← stack_peek 1 stack; Done (Some (k, v))
  | _ => Done None
  end.

(** An operation whose error is traced. *)
Definition traced {A} (f : VM A) : VM A := λ m,
  '(m, r) ← f m;
  match r with
  | Ok a => Done (m, Ok a)
  | Err e => Done (if do_trace m.1 then (m.1, ext_trace_failed m.2) else m, Err e)
  end.

Definition verify_jump (jump_u : Z) (valid_jump_destinations : BitSet) : Result Z VmError :=
  let jump := low_u64 jump_u in
  if bool_decide (jump ∈ valid_jump_destinations) && (jump =? jump_u) then Ok jump
  else Err (BadJumpDestination jump).

(** Fetch an instruction and check it. *)
Definition fetch : VM (byte * Instruction * InstructionInfo * Gasometer) :=
  i ← vm_get;
  op ← xm_done (unwrap (code i !! Z.to_nat (position i)));
  _ ← vm_modify (set_position (position i + 1));
  g ← get_gasometer;
  _ ← (if do_trace i then
         t ← vm_ext_run (λ x, Done (ext_trace_next_instruction (position i) op (current_gas g) x));
         vm_modify (set_do_trace t)
       else mret tt);
  instruction ← xm_lift (match from_u8 op with Some i => Ok i | None => Err (BadInstruction op) end);
  info ← xm_done (info instruction);
  _ ← vm_modify (set_last_stack_ret_len (info_ret info));
  _ ← verify_instruction instruction info;
  mret (op, instruction, info, g).

(** Pay for an instruction and execute it. *)
Definition pay_and_execute (op : byte) (instruction : Instruction) (info : InstructionInfo)
    (g : Gasometer) : VM InstructionResult :=
  i ← vm_get;
  requirements ← vm_ext (requirements instruction info (stack i) (mem_size (mem i)) g);
  _ ← (if do_trace i then
         mw ← xm_done (mem_written instruction (stack i));
         sw ← xm_done (store_written instruction (stack i));
         vm_ext_modify (ext_trace_prepare_execute (position i - 1) op (gas_cost requirements) mw sw)
       else mret tt);
  _ ← traced (xm_lift (verify_gas (gas_cost requirements) g));
  _ ← vm_modify (set_mem (expand (memory_required_size requirements) (mem i)));
  gas ← xm_done (cost_sub (current_gas g) (gas_cost requirements));
  _ ← put_gasometer (mkGasometer gas (memory_total_gas requirements));
  traced (exec_instruction gas instruction (provide_gas requirements)).

Definition fetch_and_execute : VM InstructionResult :=
  '(op, instruction, info, g) ← fetch;
  pay_and_execute op instruction info g.

(** The rest of a step, once the instruction has its result: the unused gas comes back, *)
Definition return_gas (result : InstructionResult) : VM unit :=
  match result with
  | UnusedGas gas =>
      g ← get_gasometer;
      total ← xm_done (cost_add (current_gas g) gas);
      put_gasometer (mkGasometer total (current_mem_gas g))
  | _ => mret tt
  end.

(** the tracer sees the state, *)
Definition trace_state : VM unit :=
  i ← vm_get;
  g ← get_gasometer;
  if do_trace i then
    words ← xm_done (stack_peek_top (last_stack_ret_len i) (stack i));
    vm_ext_modify (ext_trace_executed (current_gas g) words (mem i))
  else mret tt.

(** and the code goes on, or the execution ends. *)
Definition continue : VM InterpreterResult :=
  i ← vm_get;
  g ← get_gasometer;
  mret (if Z.of_nat (length (code i)) <=? position i
        then InterpreterDone (Ok (Known (current_gas g))) else Continue).

(** The jump destinations, which are found at the first jump. *)
Definition get_jump_destinations : VM BitSet :=
  i ← vm_get;
  match valid_jump_destinations i with
  | Some jumps => mret jumps
  | None =>
      let '(jumps, c) := jump_destinations (ip_code_hash (params i)) (code i) (jump_cache i) in
      _ ← vm_modify (set_jumps c (Some jumps));
      mret jumps
  end.

Definition advance (result : InstructionResult) : VM InterpreterResult :=
  _ ← return_gas result;
  _ ← trace_state;
  match result with
  | JumpToPosition position =>
      jumps ← get_jump_destinations;
      pos ← xm_lift (verify_jump position jumps);
      _ ← vm_modify (set_position pos);
      continue
  | StopExecutionNeedsReturn gas init_off init_size apply =>
      i ← vm_get;
      _ ← vm_modify (set_mem []);
      data ← xm_done (into_return_data init_off init_size (mem i));
      mret (InterpreterDone (Ok (NeedsReturn gas data apply)))
  | StopExecution => g ← get_gasometer; mret (InterpreterDone (Ok (Known (current_gas g))))
  | _ => continue
  end.

Definition step_inner : VM InterpreterResult :=
  i ← vm_get;
  result ← (match resume_result i with
            | Some result => _ ← vm_modify (set_resume_result None); mret result
            | None => fetch_and_execute
            end);
  match result with
  | InstrTrap trap => mret (InterpreterTrap trap)
  | _ => advance result
  end.

Definition step (m : Interpreter * X) : Outcome (Interpreter * X * InterpreterResult) :=
  if done m.1 then Done (m, Stopped)
  else
    '(m, result) ←
      match gasometer m.1 with
      | None => Done (m, InterpreterDone (Err OutOfGas))
      | Some g =>
          match code m.1 with
          | [] => Done (m, InterpreterDone (Ok (Known (current_gas g))))
          | _ =>
              '(m, r) ← step_inner m;
              Done (m, match r with Ok r => r | Err e => InterpreterDone (Err e) end)
          end
      end;
    match result with
    | InterpreterDone _ => Done ((set_done true m.1, m.2), result)
    | _ => Done (m, result)
    end.

(** [Exec::exec]; without fuel it does not return. *)
Fixpoint exec (fuel : nat) (m : Interpreter * X) :
    Outcome (Interpreter * X * Result (Result GasLeft VmError) TrapKind) :=
  match fuel with
  | O => Panic
  | S fuel =>
      '(m, result) ← step m;
      match result with
      | Continue => exec fuel m
      | InterpreterDone value => Done (m, Ok value)
      | InterpreterTrap trap => Done (m, Err trap)
      | Stopped => Panic
      end
  end.

End Steps.

(** ** Resuming *)

Section Resume.
Context `{!CostType}.

(** Set the result of an operation on the interpreter alone, which has no error. *)
Definition resume (f : XM (Interpreter * unit) InstructionResult) (i : Interpreter) :
    Outcome Interpreter :=
  '(m, r) ← f (i, tt);
  match r with
  | Ok result => Done (set_resume_result (Some result) m.1)
  | Err _ => Panic
  end.

Definition resume_call (result : MessageCallResult) (i : Interpreter) : Outcome Interpreter :=
  '(out_off, out_size) ← unwrap (resume_output_range i);
  resume (call_returned out_off out_size result) (set_resume_output_range None i).

Definition resume_create (result : ContractCreateResult) (i : Interpreter) :
    Outcome Interpreter :=
  resume (create_returned result) i.
End Resume.
End Interpreter.
