(* ===== verification/EvmReference.v ===== *)
(** * Reference definitions of arithmetic and jumps

    A reference semantics of the instructions that compute a word from words, in terms of the
    integers that the words stand for, and the equivalence of [exec_instruction] with it; then
    the positions a jump may have as its destination. *)

From S2P Require Import Prelude Hash Transaction Account Instructions Schedule EvmWord Vm.
From S2P Require Import EvmMemory Gasometer Evm.

Local Open Scope Z_scope.

(** [signed] reads a word as a two's complement number; [low_signed b] does so with its lowest
    [b + 1] bytes. *)
Definition alu (i : Instruction) (args : list Z) : option Z :=
  match i, args with
  | ADD, [a; b] => Some ((a + b) `mod` 2 ^ 256)
  | MUL, [a; b] => Some ((a * b) `mod` 2 ^ 256)
  | SUB, [a; b] => Some ((a - b) `mod` 2 ^ 256)
  | DIV, [a; b] => Some (if b =? 0 then 0 else a / b)
  | MOD, [a; b] => Some (if b =? 0 then 0 else a `mod` b)
  | SDIV, [a; b] => Some (if b =? 0 then 0 else Z.quot (signed a) (signed b) `mod` 2 ^ 256)
  | SMOD, [a; b] => Some (if b =? 0 then 0 else Z.rem (signed a) (signed b) `mod` 2 ^ 256)
  | ADDMOD, [a; b; c] => Some (if c =? 0 then 0 else (a + b) `mod` c)
  | MULMOD, [a; b; c] => Some (if c =? 0 then 0 else (a * b) `mod` c)
  | EXP, [a; b] => Some (a ^ b `mod` 2 ^ 256)
  | SIGNEXTEND, [b; x] => Some (if b <? 32 then low_signed b x `mod` 2 ^ 256 else x)
  | LT, [a; b] => Some (if a <? b then 1 else 0)
  | GT, [a; b] => Some (if b <? a then 1 else 0)
  | SLT, [a; b] => Some (if signed a <? signed b then 1 else 0)
  | SGT, [a; b] => Some (if signed b <? signed a then 1 else 0)
  | EQ, [a; b] => Some (if a =? b then 1 else 0)
  | ISZERO, [a] => Some (if a =? 0 then 1 else 0)
  | AND, [a; b] => Some (Z.land a b)
  | OR, [a; b] => Some (Z.lor a b)
  | XOR, [a; b] => Some (Z.lxor a b)
  | NOT, [a] => Some (2 ^ 256 - 1 - a)
  | BYTE, [i; x] => Some (if i <? 32 then (x / 256 ^ (31 - i)) `mod` 256 else 0)
  | SHL, [n; x] => Some ((x * 2 ^ n) `mod` 2 ^ 256)
  | SHR, [n; x] => Some (x / 2 ^ n)
  | SAR, [n; x] => Some ((signed x / 2 ^ n) `mod` 2 ^ 256)
  | _, _ => None
  end.

(** ** Results are words *)

Lemma wrap_word z : is_word (z `mod` 2 ^ 256).
Proof. apply (u256_word z). Qed.

Lemma div_word a b : is_word a → 0 < b → is_word (a / b).
Proof.
  unfold is_word. intros ? ?. split; [apply Z.div_pos; lia|].
  apply Z.div_lt_upper_bound; nia.
Qed.

Lemma mod_word a b : is_word b → b ≠ 0 → is_word (a `mod` b).
Proof. unfold is_word. intros ? ?. pose proof (Z.mod_pos_bound a b). lia. Qed.

Lemma bitwise_word (f : Z → Z → Z) (g : bool → bool → bool) a b :
  (∀ x y n, Z.testbit (f x y) n = g (Z.testbit x n) (Z.testbit y n)) → g false false = false →
  is_word a → is_word b → is_word (f a b).
Proof.
  intros Hf Hg Ha Hb. rewrite <- (u256_small a), <- (u256_small b) by done.
  replace (f (u256 a) (u256 b)) with (u256 (f a b)); [apply u256_word|].
  apply Z.bits_inj'. intros n Hn. rewrite Hf. unfold u256, wrap.
  destruct (Z.ltb_spec n 256).
  - by rewrite !Z.mod_pow2_bits_low, Hf by lia.
  - by rewrite !Z.mod_pow2_bits_high, Hg by lia.
Qed.

Lemma alu_word i args v : alu i args = Some v → Forall is_word args → is_word v.
Proof.
  intros Hv Hargs. destruct i; try discriminate Hv;
    (destruct args as [|a [|b [|c [|? ?]]]]; try discriminate Hv); injection Hv as <-;
    repeat match goal with
    | H : Forall _ (_ :: _) |- _ => apply Forall_cons in H as [? ?]
    | |- is_word (if ?b then _ else _) => destruct b eqn:?
    end;
    try apply wrap_word; try done; try (unfold is_word in *; lia).
  - apply div_word; [done|]. unfold is_word in *. lia.
  - apply mod_word; [done|lia].
  - apply mod_word; [done|lia].
  - apply mod_word; [done|lia].
  - by apply (bitwise_word _ andb); [apply Z.land_spec|..].
  - by apply (bitwise_word _ orb); [apply Z.lor_spec|..].
  - by apply (bitwise_word _ xorb); [apply Z.lxor_spec|..].
  - pose proof (Z.mod_pos_bound (b / 256 ^ (31 - a)) 256). unfold is_word. lia.
  - apply div_word; [done|]. unfold is_word in *. lia.
Qed.

(** ** Equivalence *)

Section Alu.
Context `{Keccak} `{!LruCache H256 BitSet} {X : Type} `{!Ext X} `{!CostType}.

Lemma op_shl_spec n x : is_word n → op_shl n x = (x * 2 ^ n) `mod` 2 ^ 256.
Proof.
  intros Hn. unfold op_shl, is_word in *. destruct (Z.leb_spec 256 n).
  - replace n with (256 + (n - 256)) by lia. rewrite Z.pow_add_r by lia.
    rewrite (Z.mul_comm (2 ^ 256)), Z.mul_assoc. by rewrite Z.mod_mul by lia.
  - rewrite u32_small by lia. unfold u256_shl. by rewrite Z.shiftl_mul_pow2 by lia.
Qed.

Lemma op_shr_spec n x : is_word n → is_word x → op_shr n x = x / 2 ^ n.
Proof.
  intros Hn Hx. unfold op_shr, is_word in *. destruct (Z.leb_spec 256 n).
  - symmetry. apply Z.div_small. split; [lia|]. eapply Z.lt_le_trans; [apply Hx|].
    apply Z.pow_le_mono_r; lia.
  - rewrite u32_small by lia. unfold u256_shr. by rewrite Z.shiftr_div_pow2 by lia.
Qed.

Lemma pop_back_bind {A} (k : Z → XM (Interpreter * X) A) v st i x :
  stack i = v :: st → (pop_back ≫= k) (i, x) = k v (set_stack st i, x).
Proof. destruct i. cbn. intros ->. done. Qed.

Lemma exec_unary f a st (i : Interpreter) (x : X) :
  stack i = a :: st → unary f (i, x) = Done ((set_stack (f a :: st) i, x), Ok InstrOk).
Proof. destruct i. cbn. intros ->. done. Qed.

Lemma exec_binary f a b st (i : Interpreter) (x : X) :
  stack i = a :: b :: st → binary f (i, x) = Done ((set_stack (f a b :: st) i, x), Ok InstrOk).
Proof. destruct i. cbn. intros ->. done. Qed.

Lemma exec_ternary f a b c st (i : Interpreter) (x : X) :
  stack i = a :: b :: c :: st →
  ternary f (i, x) = Done ((set_stack (f a b c :: st) i, x), Ok InstrOk).
Proof. destruct i. cbn. intros ->. done. Qed.

Lemma exec_signextend gas provided b n st (i : Interpreter) (x : X) :
  stack i = b :: n :: st →
  exec_instruction gas SIGNEXTEND provided (i, x) =
    Done ((set_stack ((if b <? 32 then sign_extend b n else n) :: st) i, x), Ok InstrOk).
Proof.
  intros Hst. cbn [exec_instruction]. rewrite (pop_back_bind _ _ _ _ _ Hst).
  destruct (b <? 32); [|done]. by rewrite (pop_back_bind _ n st).
Qed.

(** An arithmetic, comparison, bitwise or shift instruction pops its arguments and pushes the
    word that the reference semantics gives: unsigned instructions work modulo 2^256, signed
    ones on two's complement numbers with division rounded towards zero, division by zero gives
    zero. *)
Lemma exec_alu gas provided instruction args v st (i : Interpreter) (x : X) :
  alu instruction args = Some v → Forall is_word args → stack i = args ++ st →
  exec_instruction gas instruction provided (i, x) = Done ((set_stack (v :: st) i, x), Ok InstrOk).
Proof.
  intros Hv Hargs Hst. destruct instruction; try discriminate Hv;
    (destruct args as [|a [|b [|c [|? ?]]]]; try discriminate Hv); injection Hv as <-;
    repeat match goal with H : Forall _ (_ :: _) |- _ => apply Forall_cons in H as [? ?] end;
    cbn [app] in Hst; try (rewrite (exec_signextend _ _ _ _ _ _ _ Hst)); cbn [exec_instruction];
    rewrite ?(exec_unary _ _ _ _ _ Hst), ?(exec_binary _ _ _ _ _ _ Hst),
      ?(exec_ternary _ _ _ _ _ _ _ Hst);
    rewrite ?op_div_spec, ?op_sdiv_spec, ?op_smod_spec, ?op_slt_spec, ?op_sgt_spec, ?op_byte_spec,
      ?op_sar_spec, ?op_shl_spec, ?op_shr_spec, ?u256_pow_spec, ?u256_not_word by done;
    try reflexivity.
  destruct (Z.ltb_spec a 32); [|done]. by rewrite sign_extend_spec by (unfold is_word in *; lia).
Qed.
End Alu.

(** * Jump destinations

    The analysis of [shared_cache.rs] finds the positions at which an instruction [JUMPDEST]
    begins, and no byte of the argument of a push; the cache of the analyses does not change
    its result. *)

(** The length of the instruction with an opcode; an unknown opcode counts as one byte. *)
Definition instruction_length (op : byte) : nat :=
  match from_u8 op ≫= push_bytes with Some n => n + 1 | None => 1 end.

(** The positions at which the instructions of a code begin. *)
Inductive boundary (code : list byte) : nat → Prop :=
| boundary_start : boundary code 0
| boundary_next p op :
    boundary code p → code !! p = Some op → boundary code (p + instruction_length op).

Lemma instruction_length_positive op : (0 < instruction_length op)%nat.
Proof. unfold instruction_length. case_match; lia. Qed.

(** A boundary that is reached from another one. *)
Inductive later (code : list byte) (p : nat) : nat → Prop :=
| later_here : later code p p
| later_next q op : later code p q → code !! q = Some op → later code p (q + instruction_length op).

Lemma later_le code p q : later code p q → (p ≤ q)%nat.
Proof. induction 1 as [|q op]; [done|]. pose proof (instruction_length_positive op). lia. Qed.

Lemma later_first code p q op :
  code !! p = Some op → later code p q → q = p ∨ later code (p + instruction_length op) q.
Proof.
  intros Hop. induction 1 as [|q op' Hq IH Hop']; [by left|]. right.
  destruct IH as [->|IH]; [|by constructor]. rewrite Hop in Hop'. injection Hop' as <-. constructor.
Qed.

Lemma later_step code p q op :
  code !! p = Some op → later code (p + instruction_length op) q → later code p q.
Proof.
  intros Hop. induction 1 as [|q op' Hq IH Hop']; [|by constructor].
  constructor; [constructor|done].
Qed.

Lemma later_boundary code q : later code 0 q ↔ boundary code q.
Proof. split; induction 1; by constructor. Qed.

Definition is_jumpdest (code : list byte) (p : nat) : Prop :=
  ∃ op, code !! p = Some op ∧ from_u8 op = Some JUMPDEST.

Lemma find_loop_step fuel code p op d :
  code !! p = Some op →
  find_loop (S fuel) code p d =
    find_loop fuel code (p + instruction_length op)
      (if bool_decide (from_u8 op = Some JUMPDEST) then {[Z.of_nat p]} ∪ d else d).
Proof.
  intros Hop. cbn [find_loop]. rewrite Hop. unfold instruction_length.
  destruct (from_u8 op) as [i|]; cbn; [|by rewrite bool_decide_eq_false_2].
  destruct (decide (i = JUMPDEST)) as [->|Hi].
  - by rewrite !bool_decide_eq_true_2.
  - rewrite !bool_decide_eq_false_2 by congruence. destruct (push_bytes i); [|done].
    by rewrite Nat.add_assoc.
Qed.

Lemma find_loop_spec fuel code p d z :
  (length code ≤ p + fuel)%nat →
  z ∈ find_loop fuel code p d ↔
    z ∈ d ∨ ∃ q, z = Z.of_nat q ∧ later code p q ∧ is_jumpdest code q.
Proof.
  revert p d. induction fuel as [|fuel IH]; intros p d Hfuel.
  - cbn. split; [by left|]. intros [?|(q & -> & Hq & op & Hop & _)]; [done|].
    apply lookup_lt_Some in Hop. apply later_le in Hq. lia.
  - destruct (code !! p) as [op|] eqn:Hop.
    + pose proof (instruction_length_positive op).
      rewrite (find_loop_step _ _ _ op), IH by (done || lia). split.
      * intros [Hz|(q & -> & Hq & Hj)]; [|right; exists q; eauto using later_step].
        case_bool_decide as Hj; [|by left]. apply elem_of_union in Hz as [Hz|Hz]; [|by left].
        apply elem_of_singleton in Hz as ->. right. exists p. split_and!; [done|constructor|].
        by exists op.
      * intros [Hz|(q & -> & Hq & Hj)]; [left; case_bool_decide; set_solver|].
        destruct (later_first _ _ _ _ Hop Hq) as [->|Hq']; [|right; eauto].
        left. destruct Hj as (op' & Hop' & Hj). rewrite Hop in Hop'. injection Hop' as <-.
        rewrite bool_decide_eq_true_2 by done. set_solver.
    + cbn. rewrite Hop. split; [by left|]. intros [?|(q & -> & Hq & op & Hop' & _)]; [done|].
      apply lookup_ge_None in Hop. apply lookup_lt_Some in Hop'. apply later_le in Hq. lia.
Qed.

Lemma find_jump_destinations_spec code z :
  z ∈ find_jump_destinations code ↔
    ∃ p, z = Z.of_nat p ∧ boundary code p ∧ is_jumpdest code p.
Proof.
  unfold find_jump_destinations. rewrite find_loop_spec by lia. setoid_rewrite later_boundary.
  set_solver.
Qed.

(** ** The cache *)

Section Cache.
Context `{Keccak} `{!LruCache H256 BitSet} `{!LruLaws H256 BitSet}.

(** The codes that are executed; no two of them have the same hash. *)
Variable codes : list (list byte).
Hypothesis no_collision : ∀ c1 c2, c1 ∈ codes → c2 ∈ codes → keccak c1 = keccak c2 → c1 = c2.

(** The cache has the destinations of the codes under their hashes. *)
Definition cache_ok (c : SharedCache) : Prop :=
  ∀ code d, code ∈ codes → lru_entries c !! keccak code = Some d → d = find_jump_destinations code.

Lemma jump_destinations_ok hash code c :
  code ∈ codes → (hash = None ∨ hash = Some (keccak code)) → cache_ok c →
  (jump_destinations hash code c).1 = find_jump_destinations code ∧
  cache_ok (jump_destinations hash code c).2.
Proof.
  intros Hcode Hhash Hc. unfold jump_destinations. destruct Hhash as [->| ->]; [done|].
  case_decide as He; [done|]. pose proof (lru_entries_get c (keccak code)) as Hg.
  pose proof (lru_entries_touch c (keccak code)) as Ht.
  destruct (lru_get c (keccak code)) as [[d|] c']; cbn in *.
  - split; [by apply Hc|]. intros code' d'. rewrite Ht. apply Hc.
  - split; [done|]. intros code' d' Hcode' Hd'.
    pose proof (lookup_weaken _ _ _ _ Hd' (lru_entries_insert c' (keccak code) _)) as Hi.
    apply lookup_insert_Some in Hi as [[Hk <-]|[_ Hi]].
    + by rewrite (no_collision code' code).
    + rewrite Ht in Hi. by apply Hc.
Qed.
End Cache.
