(* ===== verification/VmLaws.v ===== *)
(** * Reasoning about the virtual machine

    What the machine relies on of the outside ([ExtLaws]), the rules by which its operations
    are verified, and the ranges of the values that cross the interface; then what the gasometer
    asks of an instruction. *)

From S2P Require Import Prelude Hash Transaction Account Instructions Schedule EvmWord Vm.
From S2P Require Import EvmMemory Gasometer Evm.

Local Open Scope Z_scope.

(** ** Weakest preconditions

    [wp m s Q E]: the operation [m] does not panic from [s]; when it succeeds the result and
    the state satisfy [Q], and when it fails the state satisfies [E].  Its errors are those of
    the machine, not of the database. *)

Definition machine_error (e : VmError) : Prop := match e with Internal _ => False | _ => True end.

Definition wp {S A} (m : XM S A) (s : S) (Q : A → S → Prop) (E : S → Prop) : Prop :=
  ∃ s' r, m s = Done (s', r) ∧ match r with Ok a => Q a s' | Err e => machine_error e ∧ E s' end.

Section Wp.
Context {S : Type}.
Implicit Types (s : S) (E : S → Prop).

Lemma wp_ret {A} (a : A) s Q E : Q a s → wp (mret a) s Q E.
Proof. by exists s, (Ok a). Qed.

Lemma wp_bind {A B} (m : XM S A) (f : A → XM S B) s Q E :
  wp m s (λ a s', wp (f a) s' Q E) E → wp (m ≫= f) s Q E.
Proof.
  intros (s' & [a|e] & Hm & H).
  - destruct H as (s'' & r & Hf & H). exists s'', r. split; [|done].
    unfold mbind, xm_bind. rewrite Hm. cbn. exact Hf.
  - exists s', (Err e). split; [|done]. unfold mbind, xm_bind. by rewrite Hm.
Qed.

Lemma wp_mono {A} (m : XM S A) s (Q Q' : A → S → Prop) (E E' : S → Prop) :
  wp m s Q E → (∀ a s', Q a s' → Q' a s') → (∀ s', E s' → E' s') → wp m s Q' E'.
Proof.
  intros (s' & [a|e] & Hm & H) HQ HE.
  - exists s', (Ok a). auto.
  - exists s', (Err e). naive_solver.
Qed.

Lemma wp_err {A} e s (Q : A → S → Prop) E : machine_error e → E s → wp (xm_err e) s Q E.
Proof. intros ? ?. by exists s, (Err e). Qed.

Lemma wp_lift {A} (r : Result A VmError) s (Q : A → S → Prop) E :
  (∀ a, r = Ok a → Q a s) → (∀ e, r = Err e → machine_error e) → E s → wp (xm_lift r) s Q E.
Proof. intros HQ He HE. exists s, r. split; [done|]. destruct r; auto. Qed.

Lemma wp_done {A} (o : Outcome A) a s (Q : A → S → Prop) E :
  o = Done a → Q a s → wp (xm_done o) s Q E.
Proof. intros -> HQ. by exists s, (Ok a). Qed.

Lemma wp_ask {A} (f : S → A) s (Q : A → S → Prop) E : Q (f s) s → wp (xm_ask f) s Q E.
Proof. by exists s, (Ok (f s)). Qed.
End Wp.

(** An operation that succeeds, before others. *)
Lemma xm_bind_ok {S A B} (m : XM S A) (f : A → XM S B) s s' a :
  m s = Done (s', Ok a) → (m ≫= f) s = f a s'.
Proof. intros Hm. unfold mbind, xm_bind. by rewrite Hm. Qed.

Lemma xm_bind_err {S A B} (m : XM S A) (f : A → XM S B) s s' e :
  m s = Done (s', Err e) → (m ≫= f) s = Done (s', Err e).
Proof. intros Hm. unfold mbind, xm_bind. by rewrite Hm. Qed.

(** ** Operations without errors *)

Definition never_err {S A} (m : XM S A) : Prop := ∀ s s' e, m s ≠ Done (s', Err e).

Section NeverErr.
Context {S : Type}.

Lemma never_err_bind {A B} (m : XM S A) (f : A → XM S B) :
  never_err m → (∀ a, never_err (f a)) → never_err (m ≫= f).
Proof.
  intros Hm Hf s s' e. unfold mbind, xm_bind.
  destruct (m s) as [[s1 [a|e1]]|] eqn:E; cbn; [apply Hf| |done].
  by destruct (Hm s s1 e1).
Qed.

Lemma never_err_ret {A} (a : A) : never_err (S := S) (mret a).
Proof. by intros s s' e. Qed.

Lemma never_err_done {A} (o : Outcome A) : never_err (S := S) (xm_done o).
Proof. intros s s' e. by destruct o. Qed.
End NeverErr.

(** One step of an operation: open a bind, or apply a rule. *)
Ltac wp_step := first [apply wp_bind | apply wp_ret | apply wp_err | apply wp_ask].

(** ** Values *)

(** Return data is a range of its buffer. *)
Definition return_data_ok (d : ReturnData) : Prop :=
  0 ≤ rd_offset d ∧ 0 ≤ rd_size d ∧ rd_offset d + rd_size d ≤ Z.of_nat (length (rd_mem d)) < 2 ^ 64.

Definition bytes_ok (l : list byte) : Prop := Z.of_nat (length l) < 2 ^ 64.

Record env_ok (e : EnvInfo) : Prop := {
  eo_author : length (env_author e) = 20%nat;
  eo_number : is_word (env_number e);
  eo_timestamp : is_word (env_timestamp e);
  eo_difficulty : is_word (env_difficulty e);
  eo_gas_limit : is_word (env_gas_limit e);
}.

(** The result of a call that was given [gas]. *)
Definition call_result_ok (gas : Z) (r : MessageCallResult) : Prop :=
  match r with
  | CallSuccess gas_left d | CallReverted gas_left d => 0 ≤ gas_left ≤ gas ∧ return_data_ok d
  | CallFailed => True
  end.

Definition create_result_ok (gas : Z) (r : ContractCreateResult) : Prop :=
  match r with
  | Created a gas_left => 0 ≤ gas_left ≤ gas ∧ length a = 20%nat
  | CreateReverted gas_left d => 0 ≤ gas_left ≤ gas ∧ return_data_ok d
  | CreateFailed => True
  end.

(** Parameters of a call or a creation. *)
Record action_params_ok (p : ActionParams) : Prop := {
  apo_code_address : length (ap_code_address p) = 20%nat;
  apo_address : length (ap_address p) = 20%nat;
  apo_sender : length (ap_sender p) = 20%nat;
  apo_origin : length (ap_origin p) = 20%nat;
  apo_gas_price : is_word (ap_gas_price p);
  apo_value : is_word (action_value (ap_value p));
  apo_data : bytes_ok (default [] (ap_data p));
  apo_code : bytes_ok (default [] (ap_code p));
  apo_gas : 0 ≤ ap_gas p < 2 ^ 64;
}.

Definition trap_params (t : TrapKind) : ActionParams :=
  match t with TrapCall p => p | TrapCreate p _ => p end.

(** The gas with which a trap is to be executed. *)
Definition trap_gas (t : TrapKind) : Z := ap_gas (trap_params t).
Definition is_trap_call (t : TrapKind) : Prop :=
  match t with TrapCall _ => True | TrapCreate _ _ => False end.
Definition is_trap_create (t : TrapKind) : Prop :=
  match t with
  | TrapCall _ => False
  | TrapCreate p a => a = ap_address p ∧ is_Some (ap_code p)
  end.

(** ** The contract of the outside *)

(** An operation that keeps an invariant, and whose results satisfy [P]. *)
Definition keeps {X A} (I : X → Prop) (f : XM X A) (P : A → Prop) : Prop :=
  ∀ x, I x → wp f x (λ a x', I x' ∧ P a) I.

(** [schedule] is the schedule in force and [self] the account that is executed.  The
    interpreter only lets calls and creations trap. *)
Class ExtLaws (X : Type) `{Ext X} (schedule : Schedule) (self : Address) := {
  ext_inv : X → Prop;
  (** What holds after an instruction has failed. *)
  ext_err : X → Prop;
  (** The account has at least this balance. *)
  ext_funds : X → Address → Z → Prop;
  (** What holds when the execution is suspended for a call or a creation. *)
  ext_ready : X → TrapKind → Prop;
  law_err x : ext_inv x → ext_err x;
  law_schedule x : ext_inv x → ext_schedule x = schedule;
  law_no_funds x a : ext_inv x → ext_funds x a 0;
  law_initial_storage_at k : keeps ext_inv (ext_initial_storage_at k) (λ _, True);
  law_storage_at k : keeps ext_inv (ext_storage_at k) (λ _, True);
  law_sstore k v x :
    ext_inv x → is_word k → is_word v → wp (sstore k v) x (λ _ x', ext_inv x') ext_err;
  law_exists a : keeps ext_inv (ext_exists a) (λ _, True);
  law_exists_and_not_null a : keeps ext_inv (ext_exists_and_not_null a) (λ _, True);
  law_origin_balance : keeps ext_inv ext_origin_balance (λ _, True);
  law_balance a x :
    ext_inv x →
    wp (ext_balance a) x
      (λ b x', ext_inv x' ∧ is_word b ∧ ∀ v, 0 ≤ v ≤ b → ext_funds x' a v) ext_inv;
  law_blockhash n x :
    ext_inv x → is_word n → ∃ x' h, ext_blockhash n x = Done (x', h) ∧ ext_inv x';
  law_create gas value code version address x :
    ext_inv x → 0 ≤ gas < 2 ^ 64 → is_word value → ext_funds x self value → bytes_ok code →
    ∃ x' r,
      ext_create gas value code version address true x = Done (x', r) ∧ ext_inv x' ∧
      match r with
      | Ok r => create_result_ok gas r
      | Err t => is_trap_create t ∧ trap_gas t = gas ∧ action_params_ok (trap_params t) ∧
          ext_ready x' t
      end;
  law_call gas sender receive value data code_address call_type x :
    ext_inv x → 0 ≤ gas < 2 ^ 64 → length sender = 20%nat → length receive = 20%nat →
    length code_address = 20%nat → receive = code_address ∨ receive = self → bytes_ok data →
    (∀ v, value = Some v → is_word v ∧ ext_funds x sender v) →
    ∃ x' r,
      ext_call gas sender receive value data code_address call_type true x = Done (x', r) ∧
      ext_inv x' ∧
      match r with
      | Ok r => call_result_ok gas r
      | Err t => is_trap_call t ∧ trap_gas t = gas ∧ action_params_ok (trap_params t) ∧
          ext_ready x' t
      end;
  law_extcode a : keeps ext_inv (ext_extcode a) (λ c, bytes_ok (default [] c));
  law_extcodehash a : keeps ext_inv (ext_extcodehash a) (λ _, True);
  law_extcodesize a : keeps ext_inv (ext_extcodesize a) (λ n, is_word (default 0 n));
  law_log topics data : keeps ext_inv (ext_log topics data) (λ _, True);
  law_ret gas d apply :
    0 ≤ gas < 2 ^ 64 → return_data_ok d →
    keeps ext_inv (ext_ret gas d apply) (λ gas', 0 ≤ gas' ≤ gas);
  law_suicide a : length a = 20%nat → keeps ext_inv (ext_suicide a) (λ _, True);
  law_env x : ext_inv x → env_ok (ext_env_info x);
  law_chain_id x : ext_inv x → is_word (ext_chain_id x);
  law_trace_next pc op gas x : ext_inv x → ext_inv (ext_trace_next_instruction pc op gas x).1;
  law_trace_prepare pc op gas mw sw x :
    ext_inv x → ext_inv (ext_trace_prepare_execute pc op gas mw sw x);
  law_trace_failed x : ext_inv x → ext_inv (ext_trace_failed x);
  law_trace_failed_err x : ext_err x → ext_err (ext_trace_failed x);
  law_trace_executed gas words m x : ext_inv x → ext_inv (ext_trace_executed gas words m x);
}.

(** After an error the outside satisfies [ext_err]. *)
Ltac err := intros; repeat match goal with H : _ ∧ _ |- _ => destruct H end; apply law_err; auto.

(** ** Storage writes *)

Section Sstore.
Context {X : Type} `{!Ext X} (s : Schedule) (I : X → Prop).
Context (Hs : schedule_ok s) (I_schedule : ∀ x, I x → ext_schedule x = s).
Context (I_add : ∀ v x, I x → I (ext_add_sstore_refund v x)).
Context (I_sub : ∀ v x, I x → I (ext_sub_sstore_refund v x)).

Lemma handle_refund_keeps original current new x :
  I x → ∃ x', handle_eip1283_sstore_clears_refund original current new x = Done x' ∧ I x'.
Proof.
  intros Hx. pose proof (so_dirty_least _ Hs). unfold handle_eip1283_sstore_clears_refund, usize_sub.
  rewrite (I_schedule _ Hx), !(proj2 (Z.leb_le _ _)) by lia. cbn.
  repeat case_if; eexists; split; try done; auto.
Qed.

(** A write to the storage keeps an invariant that its parts keep. *)
Lemma sstore_keeps k v :
  keeps I (ext_storage_at (h256 k)) (λ _, True) →
  keeps I (ext_initial_storage_at (h256 k)) (λ _, True) →
  keeps I (ext_set_storage (h256 k) (h256 v)) (λ _, True) →
  keeps I (sstore k v) (λ _, True).
Proof.
  intros Hget Hinit Hset x Hx. apply wp_bind. eapply wp_mono; [by apply Hget| |done].
  intros cur x1 [Hx1 _]. apply wp_bind, wp_ask, wp_bind. rewrite (I_schedule _ Hx1).
  assert (∀ x', I x' → wp (ext_set_storage (h256 k) (h256 v)) x' (λ _ x', I x' ∧ True) I) as Hrest.
  { intros x' Hx'. by apply Hset. }
  case_if.
  - apply wp_bind. eapply wp_mono; [by apply Hinit| |done]. intros orig x2 [Hx2 _].
    destruct (handle_refund_keeps (h256_Z orig) (h256_Z cur) v x2 Hx2) as (x3 & Hh & Hx3).
    exists x3, (Ok tt). unfold xm_run. rewrite Hh. split; [done|]. by apply Hrest.
  - case_if; [|apply wp_ret; by apply Hrest].
    eexists _, (Ok tt). split; [done|]. by apply Hrest, I_add.
Qed.
End Sstore.

(** * The requirements of an instruction

    For the interpreter that counts gas in a [usize]: which memory an instruction uses, and that
    [requirements] does not panic, asks for enough memory to hold it, and charges more than the
    gas an instruction can give back. *)

#[local] Existing Instance usize_cost.

(** ** What an instruction uses *)

(** The word at a place of the stack. *)
Definition at_ (n : nat) (st : Stack) : Z := default 0 (st !! n).

(** The ranges of memory that an instruction reads or writes. *)
Definition accessed (i : Instruction) (st : Stack) : list (Z * Z) :=
  match i with
  | MLOAD | MSTORE => [(at_ 0 st, 32)]
  | MSTORE8 => [(at_ 0 st, 1)]
  | RETURN | REVERT | SHA3 | LOG0 | LOG1 | LOG2 | LOG3 | LOG4 => [(at_ 0 st, at_ 1 st)]
  | CALLDATACOPY | CODECOPY | RETURNDATACOPY => [(at_ 0 st, at_ 2 st)]
  | EXTCODECOPY => [(at_ 1 st, at_ 3 st)]
  | CALL | CALLCODE => [(at_ 3 st, at_ 4 st); (at_ 5 st, at_ 6 st)]
  | DELEGATECALL | STATICCALL => [(at_ 2 st, at_ 3 st); (at_ 4 st, at_ 5 st)]
  | CREATE | CREATE2 => [(at_ 1 st, at_ 2 st)]
  | _ => []
  end.

Definition covers (size : Z) (r : Z * Z) : Prop := r.2 = 0 ∨ r.1 + r.2 ≤ size.

(** The instructions that end an execution, and those that hand gas on. *)
Definition stops (i : Instruction) : bool :=
  match i with STOP | RETURN | REVERT | SUICIDE => true | _ => false end.
Definition provides (i : Instruction) : bool :=
  match i with
  | CALL | CALLCODE | DELEGATECALL | STATICCALL | CREATE | CREATE2 => true
  | _ => false
  end.

(** What a call that transfers a value pays for the transfer. *)
Definition transfer_gas (s : Schedule) (i : Instruction) (st : Stack) : Z :=
  match i with
  | CALL | CALLCODE => if at_ 2 st =? 0 then 0 else call_value_transfer_gas s
  | _ => 0
  end.

(** The price of a memory of [n] bytes. *)
Definition mem_fee (s : Schedule) (n : Z) : Z := (n / 32) * memory_gas s + (n / 32) * (n / 32) / 512.

Lemma mem_fee_mono s n m : schedule_ok s → 0 ≤ n ≤ m → mem_fee s n ≤ mem_fee s m.
Proof.
  intros Hs Hn. unfold mem_fee. pose proof (so_memory _ Hs) as [? ?].
  assert (0 ≤ n / 32 ≤ m / 32) by (split; [apply Z.div_pos|apply Z.div_le_mono]; lia).
  apply Z.add_le_mono; [nia|]. apply Z.div_le_mono; nia.
Qed.

Section Usize.
Context {X : Type}.
Implicit Types (x : X) (E : X → Prop).

(** ** Rules *)

Lemma wp_overflowing v (b : bool) x (Q : Z → X → Prop) E :
  (b = false → Q v x) → E x → wp (overflowing (v, b)) x Q E.
Proof. intros HQ HE. destruct b; cbn; [by apply wp_err|apply wp_ret; auto]. Qed.

Lemma wp_add a b x (Q : Z → X → Prop) E :
  0 ≤ a → 0 ≤ b → (a + b < 2 ^ 64 → Q (a + b) x) → E x →
  wp (overflowing (cost_overflow_add a b)) x Q E.
Proof.
  intros ? ? HQ ?. apply wp_overflowing; [|done]. cbn. intros ?%Z.leb_gt.
  rewrite u64_small by lia. auto.
Qed.

Lemma wp_mul a b x (Q : Z → X → Prop) E :
  0 ≤ a → 0 ≤ b → (a * b < 2 ^ 64 → Q (a * b) x) → E x →
  wp (overflowing (cost_overflow_mul a b)) x Q E.
Proof.
  intros ? ? HQ ?. apply wp_overflowing; [|done]. cbn. intros ?%Z.leb_gt.
  rewrite u64_small by nia. auto.
Qed.

Lemma wp_mul_shr a x (Q : Z → X → Prop) E :
  0 ≤ a → (a * a < 2 ^ 64 → Q (a * a / 512) x) → E x →
  wp (overflowing (cost_overflow_mul_shr a a 9)) x Q E.
Proof.
  intros ? HQ ?. apply wp_overflowing; [|done].
  intros [Ho%Z.leb_gt Hc%Z.ltb_ge]%orb_false_iff.
  assert (u128 (a * a) = a * a) as E1 by (apply wrap_small; nia). rewrite E1 in *.
  rewrite Z.shiftr_div_pow2 in * by lia.
  assert (a * a < 2 ^ 64) by (apply Z.nle_gt; intros ?%(Z.div_le_mono _ _ (2 ^ 64)); [|lia];
                              rewrite Z.div_same in *; lia).
  rewrite u64_small; [auto|]. change (2 ^ 9) with 512. split; [apply Z.div_pos; nia|].
  apply Z.div_lt_upper_bound; lia.
Qed.

Lemma wp_from_u256 v x (Q : Z → X → Prop) E :
  0 ≤ v → (v < 2 ^ 64 → Q v x) → E x → wp (xm_lift (cost_from_u256 v)) x Q E.
Proof.
  intros ? HQ ?. apply wp_lift; [|by intros e; cbn; case_if; intros [= <-]|done].
  cbn. intros a. pose proof (wrap_bound 64 v ltac:(lia)).
  unfold low_u64, u64 in *. destruct (Z.eqb_spec (wrap 64 v) v) as [E1|]; cbn; [|done].
  intros [= <-]. rewrite E1 in *. apply HQ. lia.
Qed.

Lemma wp_word_size v x (Q : Z → X → Prop) E :
  0 ≤ v → (v + 31 < 2 ^ 64 → Q ((v + 31) / 32) x) → E x →
  wp (overflowing (to_word_size v)) x Q E.
Proof.
  intros ? HQ ?. unfold to_word_size, add_gas_usize. cbn. case_if.
  - by apply wp_err.
  - apply Z.leb_gt in Heqb. rewrite u64_small by lia. rewrite Z.shiftr_div_pow2 by lia.
    apply wp_ret. auto.
Qed.

Lemma wp_peek n (st : Stack) x (Q : Z → X → Prop) E :
  (n < length st)%nat → Forall is_word st → (is_word (at_ n st) → Q (at_ n st) x) →
  wp (xm_done (stack_peek n st)) x Q E.
Proof.
  intros Hn Hst HQ. unfold stack_peek, at_ in *.
  destruct (st !! n) as [v|] eqn:Hv; [|apply lookup_ge_None in Hv; unfold Stack in *; lia].
  apply (wp_done _ v); [done|]. apply HQ. by eapply Forall_lookup_1 in Hv.
Qed.

Lemma wp_mem_needed o n x (Q : Z → X → Prop) E :
  is_word o → is_word n → (∀ m, 0 ≤ m < 2 ^ 64 → covers m (o, n) → Q m x) → E x →
  wp (mem_needed o n) x Q E.
Proof.
  intros [? ?] [? ?] HQ ?. unfold mem_needed. destruct (Z.eqb_spec n 0) as [->|].
  - apply wp_ret. apply HQ; [lia|]. by left.
  - apply wp_bind. apply wp_overflowing; [|done]. intros ?%Z.leb_gt.
    rewrite u256_small by (unfold is_word; lia). apply wp_from_u256; [lia| |done].
    intros ?. apply HQ; [lia|]. right. cbn. lia.
Qed.

Lemma wp_mem_needed_const o n x (Q : Z → X → Prop) E :
  is_word o → is_word n → (∀ m, 0 ≤ m < 2 ^ 64 → covers m (o, n) → Q m x) → E x →
  wp (mem_needed_const o n) x Q E.
Proof.
  intros [? ?] [? ?] HQ ?. apply wp_bind. apply wp_overflowing; [|done]. intros ?%Z.leb_gt.
  rewrite u256_small by (unfold is_word; lia). apply wp_from_u256; [lia| |done].
  intros ?. apply HQ; [lia|]. right. cbn. lia.
Qed.

Lemma wp_gas_for_mem s n x (Q : Z → X → Prop) E :
  schedule_ok s → 0 ≤ n → (0 ≤ mem_fee s n < 2 ^ 64 → Q (mem_fee s n) x) → E x →
  wp (gas_for_mem s n) x Q E.
Proof.
  intros Hs Hn HQ HE. unfold gas_for_mem. rewrite Z.shiftr_div_pow2 by lia.
  change (2 ^ 5) with 32. assert (0 ≤ n / 32) by (apply Z.div_pos; lia).
  pose proof (so_memory _ Hs) as [? ?].
  apply wp_bind, wp_mul; [lia..| |done]. intros ?.
  rewrite (so_quad _ Hs). apply wp_bind. eapply wp_done; [done|].
  apply wp_bind, wp_mul_shr; [lia| |done]. intros ?.
  assert (0 ≤ n / 32 * (n / 32) / 512) by (apply Z.div_pos; nia).
  apply wp_add; [nia|lia| |done]. intros ?. apply HQ. unfold mem_fee. nia.
Qed.

(** A memory of [m] bytes, rounded up to words, and what it costs when there are [n]. *)
Lemma wp_mem_gas_cost self s n m x (Q : Z * Z * Z → X → Prop) E :
  schedule_ok s → 0 ≤ n < 2 ^ 64 → 0 ≤ m < 2 ^ 64 → n `mod` 32 = 0 →
  current_mem_gas self = mem_fee s n → 0 ≤ mem_fee s n < 2 ^ 64 →
  (∀ fee r, 0 ≤ fee < 2 ^ 64 → m ≤ r < 2 ^ 64 → r `mod` 32 = 0 →
     0 ≤ mem_fee s (Z.max n r) < 2 ^ 64 → Q (fee, mem_fee s (Z.max n r), r) x) → E x →
  wp (mem_gas_cost self s n m) x Q E.
Proof.
  intros Hs Hn Hm Hn32 Hself Hfee HQ HE. apply wp_bind, wp_word_size; [lia| |done]. intros ?.
  pose proof (Z.mod_pos_bound (m + 31) 32 ltac:(lia)). pose proof (Z.div_mod (m + 31) 32 ltac:(lia)).
  assert (cost_shl ((m + 31) / 32) 5 = 32 * ((m + 31) / 32)) as ->.
  { cbn. rewrite Z.shiftl_mul_pow2 by lia. rewrite u64_small; lia. }
  set (r := 32 * ((m + 31) / 32)) in *.
  assert (r `mod` 32 = 0) by (unfold r; rewrite Z.mul_comm; apply Z.mod_mul; lia).
  apply wp_bind. destruct (Z.ltb_spec n r).
  - apply wp_bind, wp_gas_for_mem; [done|lia| |done]. intros ?.
    pose proof (mem_fee_mono s n r Hs ltac:(lia)).
    apply wp_bind. eapply wp_done; [cbn; rewrite Hself, (proj2 (Z.leb_le _ _)) by done; done|].
    apply wp_ret, wp_bind. eapply wp_done; [done|]. apply wp_ret.
    replace r with (Z.max n r) at 2 by lia. apply HQ; [lia..|done|].
    by rewrite Z.max_r by lia.
  - apply wp_ret, wp_bind. eapply wp_done; [done|]. apply wp_ret.
    rewrite Hself. replace n with (Z.max n r) at 1 by lia. apply HQ; [lia..|done|].
    by rewrite Z.max_l by lia.
Qed.

Lemma wp_gas_provided self s n requested x (Q : Z → X → Prop) E :
  schedule_ok s → 0 ≤ current_gas self < 2 ^ 64 → 0 ≤ n →
  (∀ r, requested = Some r → is_word r) → (∀ p, 0 ≤ p < 2 ^ 64 → Q p x) → E x →
  wp (gas_provided self s n requested) x Q E.
Proof.
  intros Hs Hg Hn Hr HQ HE.
  assert (wp (match cost_from_u256 <$> requested with
    | Some r => xm_lift r
    | None => if n <=? current_gas self then xm_done (cost_sub (current_gas self) n) else mret 0
    end) x Q E) as Hother.
  { destruct requested as [r|]; cbn -[cost_from_u256 cost_sub].
    - destruct (Hr r eq_refl). apply wp_from_u256; [done|auto with lia|done].
    - destruct (Z.leb_spec n (current_gas self)) as [Hle|]; [|apply wp_ret; apply HQ; lia].
      eapply wp_done; [cbn; by rewrite (proj2 (Z.leb_le _ _) Hle)|]. apply HQ. lia. }
  unfold gas_provided. destruct (sub_gas_cap_divisor s) as [d|] eqn:Hd; [|done].
  apply (so_cap _ Hs) in Hd.
  destruct (Z.leb_spec n (current_gas self)) as [Hle|]; [|done].
  apply wp_bind. eapply wp_done; [cbn; by rewrite (proj2 (Z.leb_le _ _) Hle)|].
  set (g := current_gas self - n).
  assert (∃ p, (if d =? 64 then cost_sub g (Z.shiftr g 6) else if d =? 0 then Panic
                else cost_sub g (g / d)) = Done p ∧ 0 ≤ p < 2 ^ 64) as (p & -> & Hp).
  { assert (∀ e, 0 < e → g / e ≤ g) as Hdiv.
    { intros e ?. apply Z.div_le_upper_bound; [lia|]. unfold g. nia. }
    assert (∀ e, 0 < e → 0 ≤ g / e) as Hpos by (intros; apply Z.div_pos; unfold g; lia).
    rewrite Z.shiftr_div_pow2, (proj2 (Z.eqb_neq d 0)) by lia. change (2 ^ 6) with 64.
    pose proof (Hdiv d). pose proof (Hdiv 64). pose proof (Hpos d). pose proof (Hpos 64).
    destruct (d =? 64); cbn; eexists; rewrite (proj2 (Z.leb_le _ _)) by (apply Hdiv; lia);
      (split; [done|]); unfold g in *; lia. }
  apply wp_bind. eapply wp_done; [done|].
  destruct requested as [r|]; cbn -[cost_from_u256]; [|by apply wp_ret, HQ].
  destruct (cost_from_u256 r) as [r'|] eqn:E1; apply wp_ret, HQ; [|done].
  destruct (Hr r eq_refl). cbn in E1. pose proof (wrap_bound 64 r ltac:(lia)).
  unfold low_u64, u64 in *. case_if; [done|]. injection E1 as <-. lia.
Qed.
End Usize.

(** ** Requirements *)

Definition request_gas_ok (s : Schedule) (i : Instruction) (st : Stack) (gas : Z) : Prop :=
  0 ≤ gas < 2 ^ 64 ∧ (stops i = false → transfer_gas s i st < gas).

Definition request_ok (s : Schedule) (i : Instruction) (st : Stack) (r : Request) : Prop :=
  match r with
  | RequestGas gas => request_gas_ok s i st gas ∧ accessed i st = [] ∧ provides i = false
  | RequestGasMem gas m =>
      request_gas_ok s i st gas ∧ 0 ≤ m < 2 ^ 64 ∧ Forall (covers m) (accessed i st) ∧
      provides i = false
  | RequestGasMemProvide gas m requested =>
      request_gas_ok s i st gas ∧ 0 ≤ m < 2 ^ 64 ∧ Forall (covers m) (accessed i st) ∧
      provides i = true ∧ (∀ r, requested = Some r → is_word r)
  | RequestGasMemCopy gas m copy =>
      request_gas_ok s i st gas ∧ 0 ≤ m < 2 ^ 64 ∧ Forall (covers m) (accessed i st) ∧
      provides i = false ∧ 0 ≤ copy
  end.

(** What an instruction is charged and what it may use, when there are [n] bytes of memory. *)
Record requirements_ok (s : Schedule) (i : Instruction) (st : Stack) (n : Z)
    (r : InstructionRequirements) : Prop := {
  ro_gas : 0 ≤ gas_cost r < 2 ^ 64;
  ro_positive : stops i = false → default 0 (provide_gas r) + transfer_gas s i st < gas_cost r;
  ro_provide : is_Some (provide_gas r) ↔ provides i = true;
  ro_provided p : provide_gas r = Some p → 0 ≤ p;
  ro_fee : memory_total_gas r = mem_fee s (Z.max n (memory_required_size r));
  ro_fee_bound : 0 ≤ memory_total_gas r < 2 ^ 64;
  ro_size : 0 ≤ memory_required_size r < 2 ^ 64;
  ro_words : memory_required_size r `mod` 32 = 0;
  ro_covers : Forall (covers (Z.max n (memory_required_size r))) (accessed i st);
}.

Section Requirements.
Context {X : Type} (s : Schedule) (self_address : Address) `{!Ext X} `{!ExtLaws X s self_address} (Hs : schedule_ok s).

Lemma covers_max_l m n r : covers m r → covers (Z.max m n) r.
Proof. unfold covers. lia. Qed.
Lemma covers_max_r m n r : covers n r → covers (Z.max m n) r.
Proof. unfold covers. lia. Qed.

(** The arithmetic of prices. *)
Ltac req_nonneg :=
  repeat match goal with
  | |- 0 ≤ _ * _ => apply Z.mul_nonneg_nonneg
  | |- 0 ≤ _ / _ => apply Z.div_pos
  end; unfold price, is_word in *; lia.

Ltac req_price :=
  unfold request_gas_ok, transfer_gas; cbn [stops]; split; [|intros ?; repeat case_if];
  unfold price, is_word in *; try done;
  repeat match goal with
  | |- context [?a * ?b] =>
      lazymatch goal with
      | _ : 0 ≤ a * b |- _ => fail
      | _ => assert (0 ≤ a * b) by req_nonneg
      end
  end; lia.

Lemma wp_keeps {A} (f : XM X A) P x (Q : A → X → Prop) :
  keeps ext_inv f P → ext_inv x → (∀ a x', ext_inv x' → P a → Q a x') → wp f x Q ext_inv.
Proof. intros Hf Hx HQ. eapply wp_mono; [by apply Hf| |done]. intros a x' [? ?]. auto. Qed.

(** The gas of the topics of a log. *)
Lemma wp_log_gas i n x (Q : Z → X → Prop) E :
  log_topics i = Some n → (n ≤ 4)%nat → (∀ g, 0 < g < 2 ^ 32 → Q g x) →
  wp (no_of_topics ← xm_done (unwrap (log_topics i));
      topic_gas ← xm_done (usize_mul (log_topic_gas s) (Z.of_nat no_of_topics));
      xm_done (usize_add (log_gas s) topic_gas)) x Q E.
Proof.
  intros Hi Hn HQ. destruct (so_log _ Hs) as (? & ? & ?). unfold price in *.
  apply wp_bind. eapply wp_done; [by rewrite Hi|].
  assert (0 ≤ log_topic_gas s * Z.of_nat n < 2 ^ 30) by nia.
  apply wp_bind. eapply wp_done; [unfold usize_mul; by rewrite (proj2 (Z.ltb_lt _ _)) by lia|].
  eapply wp_done; [unfold usize_add; by rewrite (proj2 (Z.ltb_lt _ _)) by lia|].
  apply HQ. lia.
Qed.

(** One step of [request]. *)
Ltac req_step :=
  match goal with
  | |- wp (mbind _ (xm_done (unwrap (log_topics _)))) _ _ _ =>
      eapply wp_log_gas; [reflexivity|cbn; lia|intros ? ?]
  | |- wp (mbind _ _) _ _ _ => apply wp_bind
  | |- wp (mret _) _ _ _ => apply wp_ret
  | |- wp (xm_err _) _ _ _ => by apply wp_err
  | |- wp (if ?b then _ else _) _ _ _ => destruct b eqn:?
  | |- wp (xm_done (stack_peek _ _)) _ _ _ => apply wp_peek; [cbn in *; lia|done|intros ?]
  | |- wp (xm_done (unwrap (Some _))) _ _ _ => eapply wp_done; [reflexivity|]
  | |- wp (mem_needed _ _) _ _ _ => apply wp_mem_needed; [done|done|intros ? ? ?|done]
  | |- wp (mem_needed_const _ _) _ _ _ =>
      apply wp_mem_needed_const; [done|unfold is_word; lia|intros ? ? ?|done]
  | |- wp (xm_lift (cost_from_u256 _)) _ _ _ =>
      apply wp_from_u256; [unfold is_word in *; lia|intros ?|done]
  | |- wp (overflowing (to_word_size _)) _ _ _ =>
      apply wp_word_size; [unfold is_word in *; lia|intros ?|done]
  | |- wp (overflowing (cost_overflow_add _ _)) _ _ _ => apply wp_add; [req_nonneg..|intros ?|done]
  | |- wp (overflowing (cost_overflow_mul _ _)) _ _ _ =>
      apply wp_mul; [req_nonneg..|intros ?|done]
  | |- wp (ext_storage_at _) _ _ _ => eapply wp_keeps; [apply law_storage_at|done|intros ? ? ? _]
  | |- wp (ext_initial_storage_at _) _ _ _ =>
      eapply wp_keeps; [apply law_initial_storage_at|done|intros ? ? ? _]
  | |- wp (ext_exists _) _ _ _ => eapply wp_keeps; [apply law_exists|done|intros ? ? ? _]
  | |- wp (ext_exists_and_not_null _) _ _ _ =>
      eapply wp_keeps; [apply law_exists_and_not_null|done|intros ? ? ? _]
  | |- wp ext_origin_balance _ _ _ => eapply wp_keeps; [apply law_origin_balance|done|intros ? ? ? _]
  end.

(** The end of [request]. *)
Ltac req_end :=
  split; [done|]; cbn [request_ok accessed provides]; split_and?;
  match goal with
  | |- request_gas_ok _ _ _ _ => req_price
  | |- Forall _ _ =>
      repeat apply Forall_cons_2; try apply Forall_nil_2;
      first [done|by apply covers_max_l|by apply covers_max_r]
  | |- _ ≤ _ => unfold is_word in *; lia
  | |- _ < _ => lia
  | _ => naive_solver
  end.

Lemma eip1283_price o c n : price (calculate_eip1283_sstore_gas s o c n).
Proof. unfold calculate_eip1283_sstore_gas. destruct Hs. repeat case_if; naive_solver. Qed.

Lemma exp_bytes z : is_word z → 0 ≤ (u256_bits z + 7) / 8 ≤ 32.
Proof.
  intros [? Hlt]. unfold u256_bits. destruct (Z.eqb_spec z 0); [done|].
  apply Z.log2_lt_pow2 in Hlt; [|lia]. pose proof (Z.log2_nonneg z).
  split; [apply Z.div_pos; lia|]. apply Z.lt_succ_r, Z.div_lt_upper_bound; lia.
Qed.

Lemma request_exp st x :
  ext_inv x → (2 ≤ length st)%nat → Forall is_word st → ∀ self d,
  wp (request self s EXP d st) x (λ r x', ext_inv x' ∧ request_ok s EXP st r) ext_inv.
Proof.
  intros Hx Hargs Hst self d. pose proof Hs as []. cbn [request]. do 2 req_step.
  pose proof (exp_bytes _ H) as Hb.
  assert (0 ≤ exp_byte_gas s * ((u256_bits (at_ 1 st) + 7) / 8) < 2 ^ 32) by (unfold price in *; nia).
  apply wp_bind. eapply wp_done; [unfold usize_mul; by rewrite (proj2 (Z.ltb_lt _ _)) by lia|].
  unfold price in *.
  apply wp_bind. eapply wp_done; [unfold usize_add; by rewrite (proj2 (Z.ltb_lt _ _)) by lia|].
  req_step. split; [done|]. split; [|done]. unfold request_gas_ok. cbn. lia.
Qed.

Lemma request_spec self i info d st x :
  ext_inv x → INSTRUCTIONS i = Some info → (info_args info ≤ length st)%nat → Forall is_word st →
  tier_step_gas s !! tier_idx (info_tier info) = Some d →
  wp (request self s i d st) x (λ r x', ext_inv x' ∧ request_ok s i st r) ext_inv.
Proof.
  intros Hx Hi Hargs Hst Hd. rewrite (so_tiers _ Hs) in Hd. pose proof Hs as [].
  destruct i; injection Hi as <-; cbn in Hd; injection Hd as <-; cbn [info_args] in Hargs;
    try (by apply request_exp); cbn [request]; repeat req_step; try req_end.
  pose proof (eip1283_price (h256_Z a0) (h256_Z a) (at_ 1 st)). req_end.
Qed.

Lemma requirements_ok_intro i st n gas p m r :
  0 ≤ gas < 2 ^ 64 → (stops i = false → default 0 p + transfer_gas s i st < gas) →
  provides i = bool_decide (is_Some p) → (∀ q, p = Some q → 0 ≤ q) →
  0 ≤ m → m ≤ r < 2 ^ 64 → r `mod` 32 = 0 → 0 ≤ mem_fee s (Z.max n r) < 2 ^ 64 →
  Forall (covers m) (accessed i st) →
  requirements_ok s i st n (mkRequirements gas p (mem_fee s (Z.max n r)) r).
Proof.
  intros ? ? Hp ? ? ? ? ? Hacc. split; cbn; try done; try lia.
  - rewrite Hp. by rewrite bool_decide_eq_true.
  - eapply Forall_impl; [exact Hacc|]. unfold covers. lia.
Qed.

Lemma requirements_spec self i info st n x :
  ext_inv x → INSTRUCTIONS i = Some info → (info_args info ≤ length st)%nat → Forall is_word st →
  0 ≤ current_gas self < 2 ^ 64 → current_mem_gas self = mem_fee s n →
  0 ≤ mem_fee s n < 2 ^ 64 → 0 ≤ n < 2 ^ 64 → n `mod` 32 = 0 →
  wp (requirements i info st n self) x (λ r x', ext_inv x' ∧ requirements_ok s i st n r) ext_inv.
Proof.
  intros Hx Hi Hargs Hst Hg Hfee Hfb Hn Hn32. unfold requirements.
  apply wp_bind, wp_ask. rewrite (law_schedule _ Hx).
  destruct (tier_step_gas s !! tier_idx (info_tier info)) as [d|] eqn:Hd.
  2: { rewrite (so_tiers _ Hs) in Hd. by destruct (info_tier info). }
  apply wp_bind. eapply wp_done; [done|].
  apply wp_bind. eapply wp_mono; [by eapply request_spec| |done].
  intros r x' [Hx' Hr]. destruct r as [gas|gas m|gas m req|gas m copy]; cbn [request_ok] in Hr.
  - destruct Hr as ((? & Hpos) & Hacc & Hprov). apply wp_ret. split; [done|].
    rewrite Hfee. replace n with (Z.max n 0) at 2 by lia.
    apply (requirements_ok_intro _ _ _ _ _ 0); rewrite ?Z.max_l by lia; try done; try lia.
    by rewrite Hacc.
  - destruct Hr as ((? & Hpos) & Hm & Hacc & Hprov).
    apply wp_bind. eapply wp_mem_gas_cost; [done..| |done]. intros fee r' ? ? ? ?.
    apply wp_bind, wp_add; [lia..| |done]. intros ?. apply wp_ret. split; [done|].
    apply (requirements_ok_intro _ _ _ _ _ m); try done; try lia.
    intros Hstop. specialize (Hpos Hstop). cbn. lia.
  - destruct Hr as ((? & Hpos) & Hm & Hacc & Hprov & Hreq).
    apply wp_bind. eapply wp_mem_gas_cost; [done..| |done]. intros fee r' ? ? ? ?.
    apply wp_bind, wp_add; [lia..| |done]. intros ?.
    apply wp_bind, wp_gas_provided; [done|done|lia|done| |done]. intros p ?.
    apply wp_bind, wp_add; [lia..| |done]. intros ?. apply wp_ret. split; [done|].
    apply (requirements_ok_intro _ _ _ _ _ m); try done; try lia; try naive_solver lia.
  - destruct Hr as ((? & Hpos) & Hm & Hacc & Hprov & Hcopy).
    apply wp_bind. eapply wp_mem_gas_cost; [done..| |done]. intros fee r' ? ? ? ?.
    apply wp_bind, wp_word_size; [lia| |done]. intros ?.
    destruct (so_copy _ Hs) as [[? ?] _]. assert (0 ≤ (copy + 31) / 32) by (apply Z.div_pos; lia).
    apply wp_bind, wp_mul; [lia..| |done]. intros ?.
    apply wp_bind, wp_add; [nia..| |done]. intros ?.
    apply wp_bind, wp_add; [nia..| |done]. intros ?. apply wp_ret. split; [done|].
    apply (requirements_ok_intro _ _ _ _ _ m); try done; try nia.
    intros Hstop. specialize (Hpos Hstop). cbn. nia.
Qed.
End Requirements.
