(* ===== verification/EvmLaws.v ===== *)
(** * The instructions do not fail

    For the interpreter that counts gas in a [usize]: an instruction that has its arguments on
    the stack and its ranges in the memory does not panic, leaves words on the stack and as
    many of them as its entry in the table of instructions says, keeps the size of the memory,
    and gives back no more gas than it was provided with and paid for a transfer. *)

From S2P Require Import Prelude Hash Transaction Account Instructions Schedule EvmWord Vm.
From S2P Require Import EvmMemory Gasometer Evm VmLaws.

Local Open Scope Z_scope.

#[local] Existing Instance usize_cost.

(** ** Memory *)

Section Memory.
Implicit Types m : list byte.

Lemma low_u64_small z : 0 ≤ z < 2 ^ 64 → low_u64 z = z.
Proof. apply u64_small. Qed.

Lemma low_u64_bound z : 0 ≤ low_u64 z < 2 ^ 64.
Proof. apply wrap_bound. lia. Qed.

Lemma slice_done {A} (l : list A) a b :
  0 ≤ a ≤ b → b ≤ Z.of_nat (length l) →
  ∃ k, slice l a b = Done k ∧ length k = Z.to_nat (b - a).
Proof.
  intros ? ?. unfold slice. rewrite !(proj2 (Z.leb_le _ _)) by lia. cbn.
  eexists. split; [done|]. rewrite length_take, length_drop. lia.
Qed.

Lemma splice_done m off bytes :
  0 ≤ off → off + Z.of_nat (length bytes) ≤ Z.of_nat (length m) →
  ∃ m', splice m off bytes = Done m' ∧ length m' = length m.
Proof.
  intros ? ?. unfold splice. rewrite (proj2 (Z.leb_le _ _)) by lia.
  eexists. split; [done|]. rewrite !length_app, length_take, length_drop. lia.
Qed.

(** A range that is covered is empty, or read as it is given. *)
Lemma covers_low m o z :
  bytes_ok m → is_word o → is_word z → covers (mem_size m) (o, z) →
  is_valid_range (low_u64 o) (low_u64 z) = false ∧ z = 0 ∨
  is_valid_range (low_u64 o) (low_u64 z) = true ∧ low_u64 o = o ∧ low_u64 z = z ∧ 0 < z ∧
    o + z ≤ mem_size m.
Proof.
  unfold bytes_ok, mem_size, covers, is_word. cbn. intros Hm Ho Hz [->|Hoz]; [by left|].
  destruct (decide (z = 0)) as [->|]; [by left|]. right.
  rewrite !low_u64_small by lia. unfold is_valid_range.
  rewrite (proj2 (Z.ltb_lt _ _)), (proj2 (Z.leb_gt _ _)) by lia. split; [done|lia].
Qed.

Lemma read_slice_done m o z :
  bytes_ok m → is_word o → is_word z → covers (mem_size m) (o, z) →
  ∃ k, read_slice o z m = Done k ∧ bytes_ok k.
Proof.
  intros Hm Ho Hz Hc. unfold read_slice.
  destruct (covers_low m o z) as [[-> _]|(-> & -> & -> & ? & ?)]; [done..|by eexists|].
  destruct (slice_done m o (o + z)) as (k & -> & Hk); unfold is_word, mem_size, bytes_ok in *; [lia..|].
  exists k. split; [done|lia].
Qed.

Lemma writeable_slice_done m o z :
  bytes_ok m → is_word o → is_word z → covers (mem_size m) (o, z) →
  ∃ a n, writeable_slice o z m = Done (a, n) ∧ 0 ≤ a ∧ 0 ≤ n ∧ a + n ≤ mem_size m.
Proof.
  intros Hm Ho Hz Hc. unfold writeable_slice.
  destruct (covers_low m o z) as [[-> _]|(-> & -> & -> & ? & ?)]; [done..| |].
  - exists 0, 0. unfold mem_size. split; [done|lia].
  - rewrite (proj2 (Z.leb_le _ _)) by done. exists o, z. unfold is_word in *. split; [done|lia].
Qed.

Lemma covers_positive m o z :
  bytes_ok m → is_word o → 0 < z → covers (mem_size m) (o, z) →
  low_u64 o = o ∧ o + z ≤ Z.of_nat (length m) < 2 ^ 64.
Proof.
  unfold bytes_ok, mem_size, is_word. intros ? ? ? [?|?]; cbn in *; [lia|].
  rewrite low_u64_small; lia.
Qed.

Lemma into_return_data_done m o z :
  bytes_ok m → is_word o → is_word z → covers (mem_size m) (o, z) →
  ∃ d, into_return_data o z m = Done d ∧ return_data_ok d.
Proof.
  intros Hm Ho Hz Hc. unfold into_return_data, return_data_ok, is_word, bytes_ok in *.
  destruct (covers_low m o z) as [[-> _]|(-> & -> & -> & ? & ?)]; [done..| |].
  - eexists. split; [done|]. cbn. lia.
  - unfold mem_size in *. cbn. rewrite (proj2 (Z.ltb_ge _ _)) by lia.
    case_if; [destruct (Z.eqb_spec o 0) as [->|]|].
    + eexists. split; [done|]. cbn. rewrite length_take. lia.
    + destruct (slice_done m o (o + z)) as (k & -> & Hk); [lia..|].
      eexists. split; [done|]. cbn. lia.
    + eexists. split; [done|]. cbn. lia.
Qed.

Lemma rd_deref_done d :
  return_data_ok d → ∃ k, rd_deref d = Done k ∧ Z.of_nat (length k) = rd_size d.
Proof.
  intros (? & ? & ? & ?). destruct (slice_done (rd_mem d) (rd_offset d) (rd_offset d + rd_size d))
    as (k & Hk & Hlen); [lia..|]. exists k. split; [done|lia].
Qed.

(** ** Copies *)

(** The memory with [bytes] at an offset, and the bytes of a source from an offset on, followed
    by zeros. *)
Definition overwrite (off : Z) (bytes m : list byte) : list byte :=
  take (Z.to_nat off) m ++ bytes ++ drop (Z.to_nat off + length bytes) m.
Definition padded (source : list byte) (off size : Z) : list byte :=
  take (Z.to_nat size) (drop (Z.to_nat off) source ++ replicate (Z.to_nat size) "000"%byte).

Lemma splice_overwrite m off bytes :
  off + Z.of_nat (length bytes) ≤ Z.of_nat (length m) →
  splice m off bytes = Done (overwrite off bytes m).
Proof. intros ?. unfold splice. by rewrite (proj2 (Z.leb_le _ _)) by lia. Qed.

Lemma overwrite_nil off m : overwrite off [] m = m.
Proof. unfold overwrite. cbn. rewrite Nat.add_0_r. apply take_drop. Qed.

Lemma write_slice_overwrite m off bytes :
  0 ≤ off → off + Z.of_nat (length bytes) ≤ Z.of_nat (length m) < 2 ^ 64 →
  write_slice off bytes m = Done (overwrite off bytes m).
Proof.
  intros ? ?. unfold write_slice. destruct bytes as [|c l]; [by rewrite overwrite_nil|].
  rewrite low_u64_small by (cbn [length] in *; lia). apply splice_overwrite. lia.
Qed.

Lemma length_overwrite off bytes m :
  0 ≤ off → off + Z.of_nat (length bytes) ≤ Z.of_nat (length m) →
  length (overwrite off bytes m) = length m.
Proof. intros ? ?. unfold overwrite. rewrite !length_app, length_take, length_drop. lia. Qed.

(** Two writes next to each other are one. *)
Lemma overwrite_app off b1 b2 m :
  0 ≤ off → off + Z.of_nat (length b1 + length b2) ≤ Z.of_nat (length m) →
  overwrite off b1 (overwrite (off + Z.of_nat (length b1)) b2 m) = overwrite off (b1 ++ b2) m.
Proof.
  intros ? ?. unfold overwrite. replace (Z.to_nat (off + Z.of_nat (length b1))) with
    (Z.to_nat off + length b1)%nat by lia.
  rewrite take_app_le by (rewrite length_take; lia). rewrite take_take, Nat.min_l by lia.
  rewrite drop_app_ge by (rewrite length_take; lia). rewrite length_take, Nat.min_l by lia.
  rewrite Nat.sub_diag, drop_0, length_app, <- app_assoc. by rewrite Nat.add_assoc.
Qed.

Lemma length_padded source off size : 0 ≤ size → Z.of_nat (length (padded source off size)) = size.
Proof. intros. unfold padded. rewrite length_take, length_app, length_replicate. lia. Qed.

(** Decide the comparisons of the goal. *)
Ltac ztest :=
  repeat match goal with
  | |- context [?a <? ?b] =>
      first [rewrite (proj2 (Z.ltb_lt a b)) by lia | rewrite (proj2 (Z.ltb_ge a b)) by lia]
  | |- context [?a <=? ?b] =>
      first [rewrite (proj2 (Z.leb_le a b)) by lia | rewrite (proj2 (Z.leb_gt a b)) by lia]
  end.

Lemma writeable_slice_in m o z :
  bytes_ok m → 0 ≤ o → 0 < z → o + z ≤ mem_size m → writeable_slice o z m = Done (o, z).
Proof.
  unfold bytes_ok, mem_size. intros. unfold writeable_slice, is_valid_range, mem_size.
  rewrite !low_u64_small by lia. by ztest.
Qed.

Lemma copy_data_empty d o source m :
  is_word o → bytes_ok source → copy_data d o 0 source m = Done m.
Proof.
  unfold is_word, bytes_ok. intros Ho Hsrc. unfold copy_data, u256_add.
  destruct (Z.ltb_spec (Z.of_nat (length source)) o).
  - assert (writeable_slice d 0 m = Done (0, 0)) as -> by done.
    cbn -[Z.ltb Z.leb splice]. change (replicate (Z.to_nat 0) "000"%byte) with (@nil byte).
    rewrite splice_overwrite by (cbn [length]; lia). rewrite overwrite_nil. cbn -[Z.ltb]. by ztest.
  - ztest. cbn -[Z.ltb Z.leb slice]. ztest. destruct (Z.ltb_spec o (Z.of_nat (length source))); [|done].
    rewrite (low_u64_small 0), (low_u64_small o), u64_small by lia. cbn -[slice].
    unfold slice. ztest. cbn.
    by rewrite Z.add_0_l, Z.sub_diag.
Qed.

Lemma copy_data_beyond d o z source m :
  bytes_ok m → 0 ≤ d → 0 < z → d + z ≤ mem_size m → Z.of_nat (length source) < o →
  copy_data d o z source m = Done (overwrite d (replicate (Z.to_nat z) "000"%byte) m).
Proof.
  intros. unfold copy_data. ztest. cbn -[Z.ltb splice].
  rewrite writeable_slice_in by done. cbn -[Z.ltb splice].
  rewrite splice_overwrite by (rewrite length_replicate; unfold mem_size in *; lia).
  cbn -[Z.ltb]. by ztest.
Qed.

Lemma copy_data_inside d o z source m :
  bytes_ok m → bytes_ok source → 0 ≤ d → 0 < z → 0 ≤ o → d + z ≤ mem_size m →
  o + z ≤ Z.of_nat (length source) →
  copy_data d o z source m =
    Done (overwrite d (take (Z.to_nat z) (drop (Z.to_nat o) source)) m).
Proof.
  unfold bytes_ok, mem_size. intros. unfold copy_data, u256_add. ztest. cbn -[Z.ltb slice].
  ztest. rewrite (low_u64_small z), (low_u64_small o), u64_small by lia.
  cbn -[slice overwrite]. unfold slice. ztest. cbn -[overwrite].
  replace (z + o - o) with z by lia. apply write_slice_overwrite; [done|].
  rewrite length_take, length_drop. lia.
Qed.

Lemma copy_data_across d o z source m :
  bytes_ok m → bytes_ok source → 0 ≤ d → 0 < z → 0 ≤ o ≤ Z.of_nat (length source) →
  d + z ≤ mem_size m → Z.of_nat (length source) < o + z → is_word z →
  copy_data d o z source m =
    Done (overwrite d (drop (Z.to_nat o) source ++
                       replicate (Z.to_nat (o + z - Z.of_nat (length source))) "000"%byte) m).
Proof.
  unfold bytes_ok, mem_size, is_word. intros. set (n := Z.of_nat (length source)) in *.
  assert (copy_data d o z source m =
    (mem ← splice m (d + n - o) (replicate (Z.to_nat (o + z - n)) "000"%byte);
     if o <? n then bytes ← slice source (low_u64 o) n; write_slice d bytes mem else Done mem)) as ->.
  { unfold copy_data, u256_add, u256_sub. fold n.
    assert (∀ A (k : bool → Outcome A), (((if (n <? o) || (n <? z) then Done true
      else (if o + z <? 2 ^ 256 then Done (o + z) else Panic) ≫= λ sum, Done (n <? sum)) ≫= k) = k true))
      as -> by (intros A k; destruct (Z.ltb_spec n z); ztest; cbn -[Z.ltb]; by ztest).
    ztest. cbn -[Z.ltb Z.leb splice slice]. ztest. cbn -[Z.ltb Z.leb splice slice]. ztest.
    cbn -[Z.ltb Z.leb splice slice]. rewrite writeable_slice_in by (unfold mem_size; lia || done).
    cbn -[Z.ltb Z.leb splice slice]. by destruct (splice _ _ _). }
  rewrite splice_overwrite by (rewrite length_replicate; lia). cbn -[Z.ltb slice].
  replace (d + n - o) with (d + Z.of_nat (length (drop (Z.to_nat o) source)))
    by (rewrite length_drop; lia).
  rewrite <- overwrite_app by (rewrite ?length_drop, ?length_replicate; lia).
  destruct (Z.ltb_spec o n).
  - rewrite low_u64_small by lia. unfold slice. ztest. cbn -[overwrite].
    rewrite take_ge by (rewrite length_drop; lia). apply write_slice_overwrite; [done|].
    rewrite length_overwrite; rewrite ?length_drop, ?length_replicate; lia.
  - rewrite (drop_ge source) by lia. by rewrite overwrite_nil.
Qed.

(** A copy writes the bytes of the source from the given offset on, and zeros after its end. *)
Lemma copy_data_spec d o z source m :
  is_word d → is_word o → is_word z → bytes_ok source → bytes_ok m →
  covers (mem_size m) (d, z) → copy_data d o z source m = Done (overwrite d (padded source o z) m).
Proof.
  intros Hd Ho Hz Hsrc Hm Hc. destruct (decide (z = 0)) as [->|Hz0].
  { rewrite copy_data_empty by done. unfold padded. cbn. by rewrite overwrite_nil. }
  destruct Hc as [?|Hc]; [done|]. cbn in Hc. unfold is_word in *. unfold padded.
  destruct (decide (Z.of_nat (length source) < o)).
  - rewrite copy_data_beyond by (done || lia). rewrite (drop_ge source), app_nil_l by lia.
    by rewrite take_ge by (rewrite length_replicate; lia).
  - destruct (decide (o + z ≤ Z.of_nat (length source))).
    + rewrite copy_data_inside by (done || lia).
      by rewrite take_app_le by (rewrite length_drop; lia).
    + rewrite copy_data_across by (done || lia). do 2 f_equal.
      rewrite take_app_ge by (rewrite length_drop; lia).
      f_equal. rewrite take_replicate, length_drop. f_equal. lia.
Qed.
End Memory.

(** ** Words *)

Lemma from_be_bytes_word l : (length l ≤ 32)%nat → is_word (from_be_bytes l).
Proof.
  intros Hl. pose proof (from_be_bytes_bound l) as [? Hlt]. split; [done|].
  eapply Z.lt_le_trans; [exact Hlt|]. change (2 ^ 256) with (256 ^ 32).
  apply Z.pow_le_mono_r; lia.
Qed.

Lemma bool_word b : is_word (bool_to_u256 b).
Proof. destruct b; unfold is_word; cbn; lia. Qed.

Lemma nat_word z : 0 ≤ z < 2 ^ 64 → is_word z.
Proof. unfold is_word. lia. Qed.

Lemma set_sign_word z b : is_word z → is_word (set_sign z b).
Proof. destruct b; [intros; apply u256_word|done]. Qed.

(** ** Operations that keep an invariant of the outside *)

Section Run.
Context `{Keccak} `{!LruCache H256 BitSet} {X : Type} (I : X → Prop).
Implicit Types i : Interpreter.

Abbreviation VM := (XM (Interpreter * X)).

(** [run m i Q]: from the interpreter [i] and any outside that satisfies [I], [m] does not panic and leaves
    such an outside; when it succeeds the result and the interpreter satisfy [Q]. *)
Definition run {A} (m : VM A) (i : Interpreter) (Q : A → Interpreter → Prop) : Prop :=
  ∀ x, I x → wp m (i, x) (λ a m', I m'.2 ∧ Q a m'.1) (λ m', I m'.2).

Section Rules.
Context {A : Type}.
Implicit Types Q : A → Interpreter → Prop.

Lemma run_ret a i Q : Q a i → run (mret a) i Q.
Proof. intros HQ x Hx. by apply wp_ret. Qed.

Lemma run_bind {B} (m : VM B) (f : B → VM A) i Q :
  run m i (λ b i', run (f b) i' Q) → run (m ≫= f) i Q.
Proof.
  intros Hm x Hx. apply wp_bind. eapply wp_mono; [by apply Hm| |done].
  intros b [i' x'] [? Hf]. by apply Hf.
Qed.

Lemma run_mono (m : VM A) i (Q Q' : A → Interpreter → Prop) :
  run m i Q → (∀ a i', Q a i' → Q' a i') → run m i Q'.
Proof.
  intros Hm HQ x Hx. eapply wp_mono; [by apply Hm| |done]. intros a m' [? ?]. auto.
Qed.

Lemma run_err e i Q : machine_error e → run (xm_err e) i Q.
Proof. intros He x Hx. by apply wp_err. Qed.

Lemma run_done o a i Q : o = Done a → Q a i → run (xm_done o) i Q.
Proof. intros Ho HQ x Hx. by eapply wp_done. Qed.

Lemma run_lift (r : Result A VmError) i Q :
  (∀ a, r = Ok a → Q a i) → (∀ e, r = Err e → machine_error e) → run (xm_lift r) i Q.
Proof. intros HQ He x Hx. apply wp_lift; auto. Qed.

Lemma run_ext (f : XM X A) P i Q : keeps I f P → (∀ a, P a → Q a i) → run (vm_ext f) i Q.
Proof.
  intros Hf HQ x Hx. destruct (Hf x Hx) as (x' & r & Hr & Hpost).
  exists (i, x'), r. unfold vm_ext. cbn. rewrite Hr. split; [done|]. destruct r; cbn; naive_solver.
Qed.

Lemma run_ext_ask (f : X → A) i Q :
  (∀ x, I x → Q (f x) i) → run (vm_ext (xm_ask f)) i Q.
Proof. intros HQ x Hx. exists (i, x), (Ok (f x)). cbn. auto. Qed.

Lemma run_ext_run (f : X → Outcome (X * A)) P i Q :
  (∀ x, I x → ∃ x' a, f x = Done (x', a) ∧ I x' ∧ P a) → (∀ a, P a → Q a i) →
  run (vm_ext_run f) i Q.
Proof.
  intros Hf HQ x Hx. destruct (Hf x Hx) as (x' & a & Ha & ? & ?).
  exists (i, x'), (Ok a). unfold vm_ext_run. cbn. rewrite Ha. cbn. auto.
Qed.
End Rules.

Lemma run_get i (Q : Interpreter → Interpreter → Prop) : Q i i → run vm_get i Q.
Proof. intros HQ x Hx. by exists (i, x), (Ok i). Qed.

Lemma run_modify f i (Q : unit → Interpreter → Prop) : Q tt (f i) → run (vm_modify f) i Q.
Proof. intros HQ x Hx. by exists (f i, x), (Ok tt). Qed.

Lemma run_ext_modify f i (Q : unit → Interpreter → Prop) :
  (∀ x, I x → I (f x)) → Q tt i → run (vm_ext_modify f) i Q.
Proof. intros Hf HQ x Hx. exists (i, f x), (Ok tt). cbn. auto. Qed.

Lemma run_pop i v st (Q : Z → Interpreter → Prop) :
  stack i = v :: st → Q v (set_stack st i) → run pop_back i Q.
Proof.
  intros Hst HQ. apply run_bind, run_get, run_bind. eapply run_done; [by rewrite Hst|].
  apply run_bind, run_modify, run_ret. done.
Qed.

Lemma run_push i v (Q : unit → Interpreter → Prop) :
  Q tt (set_stack (v :: stack i) i) → run (push v) i Q.
Proof. intros HQ. by apply run_modify. Qed.

Lemma run_read_mem {A} (f : list byte → Outcome A) a i (Q : A → Interpreter → Prop) :
  f (mem i) = Done a → Q a i → run (read_mem f) i Q.
Proof. intros Hf HQ. apply run_bind, run_get. by eapply run_done. Qed.

Lemma run_change_mem f m i (Q : unit → Interpreter → Prop) :
  f (mem i) = Done m → Q tt (set_mem m i) → run (change_mem f) i Q.
Proof. intros Hf HQ. apply run_bind. eapply run_read_mem; [done|]. by apply run_modify. Qed.

End Run.

(** ** Conditions on the outside *)

Section RunX.
Context `{Keccak} `{!LruCache H256 BitSet} {X : Type} (E : X → Prop).
Implicit Types i : Interpreter.
Implicit Types I : X → Prop.

(** As [run], from an outside that satisfies [I], with a postcondition on the outside and [E]
    in case of an error. *)
Definition runx {A} I (m : XM (Interpreter * X) A) (i : Interpreter)
    (Q : A → Interpreter → X → Prop) : Prop :=
  ∀ x, I x → wp m (i, x) (λ a m', Q a m'.1 m'.2) (λ m', E m'.2).

Section Rules.
Context {A : Type}.
Implicit Types Q : A → Interpreter → X → Prop.

Lemma runx_of_run I (m : XM (Interpreter * X) A) i Q :
  run I m i (λ a i', ∀ x, I x → Q a i' x) → (∀ x, I x → E x) → runx I m i Q.
Proof.
  intros Hm HE x Hx. eapply wp_mono; [by apply Hm| |intros m'; apply HE].
  intros a m' [? HQ]. auto.
Qed.

Lemma runx_ret I (a : A) i Q : (∀ x, I x → Q a i x) → runx I (mret a) i Q.
Proof. intros HQ x Hx. apply wp_ret. auto. Qed.

Lemma runx_bind {B} I (m : XM (Interpreter * X) B) (f : B → XM (Interpreter * X) A) i Q :
  run I m i (λ b i', runx I (f b) i' Q) → (∀ x, I x → E x) → runx I (m ≫= f) i Q.
Proof.
  intros Hm HE x Hx. apply wp_bind. eapply wp_mono; [by apply Hm| |intros m'; apply HE].
  intros b [i' x'] [? Hf]. by apply Hf.
Qed.

Lemma runx_seq {B} (J : B → Interpreter → X → Prop) I (m : XM (Interpreter * X) B)
    (f : B → XM (Interpreter * X) A) i Q :
  runx I m i J → (∀ b i', runx (J b i') (f b) i' Q) → runx I (m ≫= f) i Q.
Proof.
  intros Hm Hf x Hx. apply wp_bind. eapply wp_mono; [by apply Hm| |done].
  intros b [i' x'] Hb. by apply Hf.
Qed.

Lemma runx_mono I (m : XM (Interpreter * X) A) i Q Q' :
  runx I m i Q → (∀ a i' x, Q a i' x → Q' a i' x) → runx I m i Q'.
Proof. intros Hm HQ x Hx. eapply wp_mono; [by apply Hm| |done]. intros a m' ?. auto. Qed.

Lemma runx_pre I I' (m : XM (Interpreter * X) A) i Q :
  runx I' m i Q → (∀ x, I x → I' x) → runx I m i Q.
Proof. intros Hm HI x Hx. by apply Hm, HI. Qed.

Lemma runx_pure (P : Prop) I (m : XM (Interpreter * X) A) i Q :
  (P → runx I m i Q) → runx (λ x, P ∧ I x) m i Q.
Proof. intros Hm x [HP Hx]. by apply Hm. Qed.

Lemma runx_have (P : Prop) I (m : XM (Interpreter * X) A) i Q :
  (∀ x, I x → P) → (P → runx I m i Q) → runx I m i Q.
Proof. intros HP Hm x Hx. by apply Hm; [eapply HP|]. Qed.

(** A call to the outside. *)
Lemma runx_ext I (f : XM X A) i Q :
  (∀ x, I x → wp f x (λ a x', Q a i x') E) → runx I (vm_ext f) i Q.
Proof.
  intros Hf x Hx. destruct (Hf x Hx) as (x' & r & Hr & Hpost). exists (i, x'), r.
  unfold vm_ext. cbn. rewrite Hr. by destruct r.
Qed.

Lemma runx_ext_run I (f : X → Outcome (X * A)) i Q :
  (∀ x, I x → ∃ x' a, f x = Done (x', a) ∧ Q a i x') → runx I (vm_ext_run f) i Q.
Proof.
  intros Hf x Hx. destruct (Hf x Hx) as (x' & a & Ha & HQ). exists (i, x'), (Ok a).
  unfold vm_ext_run. cbn. by rewrite Ha.
Qed.
End Rules.
End RunX.

Section Laws.
Context `{Keccak} `{!LruCache H256 BitSet} {X : Type} (s : Schedule) (self : Address) `{!Ext X}.
Context `{!ExtLaws X s self}.
Context (Hs : schedule_ok s).
Implicit Types i : Interpreter.

Lemma run_schedule (I : X → Prop) i (Q : Schedule → Interpreter → Prop) :
  (∀ x, I x → ext_inv x) → Q s i → run I vm_schedule i Q.
Proof.
  intros HI HQ x Hx. exists (i, x), (Ok s). unfold vm_schedule. cbn [snd].
  by rewrite (law_schedule _ (HI _ Hx)).
Qed.

(** ** The state between instructions *)

Record params_ok (p : InterpreterParams) : Prop := {
  po_self : ip_address p = self;
  po_address : length (ip_address p) = 20%nat;
  po_sender : length (ip_sender p) = 20%nat;
  po_origin : length (ip_origin p) = 20%nat;
  po_gas_price : is_word (ip_gas_price p);
  po_value : is_word (action_value (ip_value p));
  po_data : bytes_ok (default [] (ip_data p));
}.

Record interp_ok (i : Interpreter) : Prop := {
  io_stack : Forall is_word (stack i);
  io_mem : bytes_ok (mem i);
  io_params : params_ok (params i);
  io_code : bytes_ok (code i);
  io_return_data : return_data_ok (return_data i);
  io_position : 0 ≤ position i;
}.

(** What an instruction does not change. *)
Record same (i i' : Interpreter) : Prop := {
  sm_code : code i' = code i;
  sm_params : params i' = params i;
  sm_gasometer : gasometer i' = gasometer i;
  sm_do_trace : do_trace i' = do_trace i;
  sm_done : done i' = done i;
  sm_jumps : valid_jump_destinations i' = valid_jump_destinations i;
  sm_jump_cache : jump_cache i' = jump_cache i;
  sm_resume_result : resume_result i' = resume_result i;
  sm_ret_len : last_stack_ret_len i' = last_stack_ret_len i;
  sm_mem : length (mem i') = length (mem i);
}.

(** What an instruction leaves, when it started on the stack [st] and was given [provided]. *)
Definition result_ok (instruction : Instruction) (info : InstructionInfo) (st : Stack)
    (gas : Z) (provided : option Z) (i' : Interpreter) (r : InstructionResult) : Prop :=
  let n := (length st - info_args info + info_ret info)%nat in
  let limit := default 0 provided + transfer_gas s instruction st in
  match r with
  | InstrOk => length (stack i') = n ∧ stops instruction = false
  | UnusedGas g => length (stack i') = n ∧ 0 ≤ g ≤ limit ∧ stops instruction = false
  | JumpToPosition _ => length (stack i') = n ∧ stops instruction = false
  | StopExecutionNeedsReturn g o z _ =>
      length (stack i') = n ∧ g = gas ∧ is_word o ∧ is_word z ∧ covers (mem_size (mem i')) (o, z)
  | StopExecution => length (stack i') = n
  | InstrTrap t =>
      S (length (stack i')) = n ∧ 0 ≤ trap_gas t ≤ limit ∧ stops instruction = false ∧
      provides instruction = true ∧
      (is_trap_call t → ∃ o z, resume_output_range i' = Some (o, z) ∧ is_word o ∧ is_word z ∧
                               covers (mem_size (mem i')) (o, z))
  end.

Definition instruction_post (instruction : Instruction) (info : InstructionInfo) (gas : Z)
    (provided : option Z) (i : Interpreter) (r : InstructionResult) (i' : Interpreter) : Prop :=
  same i i' ∧ interp_ok i' ∧ result_ok instruction info (stack i) gas provided i' r.

(** A trap that the outside leaves can be executed: its arguments are well formed and the
    outside is ready for it. *)
Record trap_ok (t : TrapKind) (x : X) : Prop := {
  tok_kind : is_trap_call t ∨ is_trap_create t;
  tok_params : action_params_ok (trap_params t);
  tok_ready : ext_ready x t;
}.

(** What an instruction leaves, the outside included. *)
Definition executed_post (instruction : Instruction) (info : InstructionInfo) (gas : Z)
    (provided : option Z) (i : Interpreter) (r : InstructionResult) (i' : Interpreter) (x : X) :
    Prop :=
  ext_inv x ∧ instruction_post instruction info gas provided i r i' ∧
  ∀ t, r = InstrTrap t → trap_ok t x.
End Laws.
