(* ===== verification/EvmSafety.v ===== *)
(** * Every instruction keeps the invariant of the interpreter

    One lemma for each group of instructions, and [exec_instruction_safe] for all of them. *)

From S2P Require Import Prelude Hash Transaction Account Instructions Schedule EvmWord Vm.
From S2P Require Import EvmMemory Gasometer Evm EvmReference VmLaws EvmLaws.

Local Open Scope Z_scope.

#[local] Existing Instance usize_cost.

Section Parts.
Context `{Keccak} `{!LruCache H256 BitSet} {X : Type} (I : X → Prop).
Implicit Types i : Interpreter.

(** ** Parts of instructions *)

(** The rest of an instruction pushes a word. *)
Lemma run_push_result (m : XM (Interpreter * X) Z) i (Q : InstructionResult → Interpreter → Prop) :
  run I m i (λ v i', Q InstrOk (set_stack (v :: stack i') i')) → run I (push_result m) i Q.
Proof.
  intros Hm. apply run_bind. eapply run_mono; [exact Hm|]. intros v i' HQ.
  apply run_bind, run_push. by apply run_ret.
Qed.

Lemma run_read_code n i (Q : Z → Interpreter → Prop) :
  (n ≤ 32)%nat → 0 ≤ position i ≤ Z.of_nat (length (code i)) →
  (∀ v, is_word v → Q v (set_position (position i + Z.of_nat n) i)) →
  run I (read_code n) i Q.
Proof.
  intros Hn Hpos HQ. apply run_bind, run_get, run_bind, run_modify, run_bind.
  destruct (slice_done (code i) (position i)
              (Z.min (position i + Z.of_nat n) (Z.of_nat (length (code i))))) as (k & Hk & Hlen);
    [lia..|].
  eapply run_done; [exact Hk|]. apply run_ret, HQ, from_be_bytes_word. lia.
Qed.

(** A write to the memory. *)
Lemma run_splice off bytes i (Q : unit → Interpreter → Prop) :
  0 ≤ off → off + Z.of_nat (length bytes) ≤ Z.of_nat (length (mem i)) →
  (∀ m, length m = length (mem i) → Q tt (set_mem m i)) →
  run I (change_mem (λ m, splice m off bytes)) i Q.
Proof.
  intros Ho Hlen HQ. destruct (splice_done (mem i) off bytes) as (m & Hm & Hl); [lia..|].
  eapply run_change_mem; [exact Hm|]. auto.
Qed.

Lemma run_copy_output o z data i (Q : unit → Interpreter → Prop) :
  bytes_ok (mem i) → is_word o → is_word z → covers (mem_size (mem i)) (o, z) →
  return_data_ok data → (∀ m, length m = length (mem i) → Q tt (set_mem m i)) →
  run I (copy_output o z data) i Q.
Proof.
  intros Hm Ho Hz Hc Hd HQ. apply run_bind.
  destruct (writeable_slice_done (mem i) o z) as (a & n & Hw & ? & ? & ?); [done..|].
  eapply run_read_mem; [exact Hw|]. apply run_bind.
  destruct (rd_deref_done data Hd) as (k & Hk & _). eapply run_done; [exact Hk|].
  apply run_splice; [done| |done]. rewrite length_take. unfold mem_size in *. lia.
Qed.

Lemma run_copy_data source d o z st i (Q : unit → Interpreter → Prop) :
  stack i = d :: o :: z :: st → is_word d → is_word o → is_word z →
  bytes_ok source → bytes_ok (mem i) → covers (mem_size (mem i)) (d, z) →
  (∀ m, length m = length (mem i) → Q tt (set_mem m (set_stack st i))) →
  run I (copy_data_to_memory source) i Q.
Proof.
  intros Hst Hd Ho Hz Hsrc Hm Hc HQ.
  apply run_bind. eapply run_pop; [done|]. apply run_bind. eapply run_pop; [done|].
  apply run_bind. eapply run_pop; [done|].
  eapply run_change_mem; [by apply copy_data_spec|]. apply HQ. cbn.
  destruct Hc as [Hz0|Hc]; cbn in *.
  - subst z. unfold padded. cbn. by rewrite overwrite_nil.
  - unfold is_word, mem_size in *. apply length_overwrite; [lia|]. rewrite length_padded; lia.
Qed.

(** ** Results of calls and creations *)

Lemma run_from_gas g gas i (Q : Z → Interpreter → Prop) :
  0 ≤ g ≤ gas → gas < 2 ^ 64 → Q g i → run I (xm_done (expect (cost_from_u256 g))) i Q.
Proof.
  intros ? ? HQ. eapply run_done; [|exact HQ]. cbn.
  by rewrite low_u64_small, Z.eqb_refl by lia.
Qed.

Lemma run_call_returned o z r gas i (Q : InstructionResult → Interpreter → Prop) :
  bytes_ok (mem i) → is_word o → is_word z → covers (mem_size (mem i)) (o, z) →
  call_result_ok gas r → gas < 2 ^ 64 → return_data_ok (return_data i) →
  (∀ m v d res, length m = length (mem i) → is_word v → return_data_ok d →
     match res with InstrOk => True | UnusedGas g => 0 ≤ g ≤ gas | _ => False end →
     Q res (set_return_data d (set_stack (v :: stack i) (set_mem m i)))) →
  run I (call_returned o z r) i Q.
Proof.
  intros Hm Ho Hz Hc Hr Hg Hrd HQ. destruct r as [g d| |g d]; cbn in Hr.
  1, 3: destruct Hr as [Hg' Hd]; apply run_bind, run_copy_output; [done..|]; intros m Hlen;
    apply run_bind, run_push, run_bind, run_modify, run_bind; eapply run_from_gas; [done..|];
    apply run_ret, HQ; try done; unfold is_word; lia.
  apply run_bind, run_push, run_ret. eapply (HQ (mem i) 0 (return_data i) InstrOk); try done.
Qed.

Lemma run_create_returned r gas i (Q : InstructionResult → Interpreter → Prop) :
  create_result_ok gas r → gas < 2 ^ 64 → return_data_ok (return_data i) →
  (∀ v d res, is_word v → return_data_ok d →
     match res with InstrOk => True | UnusedGas g => 0 ≤ g ≤ gas | _ => False end →
     Q res (set_return_data d (set_stack (v :: stack i) i))) →
  run I (create_returned r) i Q.
Proof.
  intros Hr Hg Hrd HQ. destruct r as [a g| |g d]; cbn in Hr.
  - destruct Hr as [Hg' Ha]. apply run_bind, run_push, run_bind. eapply run_from_gas; [done..|].
    apply run_ret. apply (HQ (address_to_u256 a) (return_data i) (UnusedGas g)); [|done..].
    apply from_be_bytes_word. lia.
  - apply run_bind, run_push, run_ret. apply (HQ 0 (return_data i) InstrOk); [|done..].
    unfold is_word. lia.
  - destruct Hr as [Hg' Hd]. apply run_bind, run_push, run_bind, run_modify, run_bind.
    eapply run_from_gas; [done..|]. apply run_ret, HQ; [|done..]. unfold is_word. lia.
Qed.

End Parts.

Section Safety.
Context `{Keccak} `{!LruCache H256 BitSet} {X : Type} (s : Schedule) (self : Address) `{!Ext X}.
Context `{!ExtLaws X s self}.
Context (Hs : schedule_ok s).
Implicit Types i : Interpreter.

(** ** Before an instruction *)

Record instruction_pre (instruction : Instruction) (info : InstructionInfo) (gas : Z)
    (provided : option Z) (i : Interpreter) : Prop := {
  pre_info : INSTRUCTIONS instruction = Some info;
  pre_ok : interp_ok self i;
  pre_args : (info_args info ≤ length (stack i))%nat;
  pre_covers : Forall (covers (mem_size (mem i))) (accessed instruction (stack i));
  pre_gas : 0 ≤ gas < 2 ^ 64;
  pre_provide : is_Some provided ↔ provides instruction = true;
  pre_provided p : provided = Some p → 0 ≤ p;
  pre_limit : default 0 provided + transfer_gas s instruction (stack i) < 2 ^ 64;
  pre_position : 1 ≤ position i ≤ Z.of_nat (length (code i));
}.

Abbreviation safe instruction :=
  (∀ info gas provided i, instruction_pre instruction info gas provided i →
     run ext_inv (exec_instruction gas instruction provided) i
       (instruction_post s self instruction info gas provided i)).

(** The words that an instruction takes from the stack. *)
Lemma stack_split n (st : Stack) :
  (n ≤ length st)%nat → Forall is_word st →
  ∃ args rest, st = args ++ rest ∧ length args = n ∧ Forall is_word args ∧ Forall is_word rest.
Proof.
  intros Hn Hst. exists (take n st), (drop n st). rewrite take_drop, length_take.
  rewrite <- (take_drop n st) in Hst. apply Forall_app in Hst as [? ?]. split_and!; try done. lia.
Qed.

Ltac words :=
  repeat match goal with
  | H : Forall is_word (_ :: _) |- _ => apply Forall_cons in H as [? ?]
  | H : Forall is_word [] |- _ => clear H
  end.

(** Open the precondition, with the arguments of the instruction at hand. *)
Ltac instr_open :=
  let Hpre := fresh "Hpre" in
  intros info gas provided i Hpre; destruct Hpre as [Hinfo Hok Hargs Hcov Hgas Hprov Hprovd Hlim Hpos];
  injection Hinfo as <-; cbn [info_args] in Hargs;
  let args := fresh "args" in let rest := fresh "rest" in let Hlen := fresh "Hlen" in
  destruct (stack_split _ _ Hargs (io_stack _ _ Hok)) as (args & rest & Hst & Hlen & Hw & Hrest);
  repeat (destruct args as [|? args]; [try discriminate Hlen|try discriminate Hlen]);
  clear Hlen; cbn [app] in Hst; words;
  rewrite Hst in Hcov; cbn in Hcov;
  repeat match goal with
  | H : Forall (covers _) (_ :: _) |- _ => apply Forall_cons in H as [? ?]
  end;
  cbn [exec_instruction].
Ltac instr_start :=
  instr_open;
  match goal with H : interp_ok _ _ |- _ => destruct H as [_ Hm Hparams Hcode Hrd Hpos0] end.

(** Close the postcondition. *)
Ltac use_stack := repeat match goal with H : stack _ = _ |- _ => rewrite H end.
Ltac is_words :=
  use_stack; repeat (apply Forall_cons_2; [first [done|unfold is_word in *; lia]|]); done.
Ltac instr_end :=
  split; [split; cbn; (done || lia)|];
  split; [split; cbn;
    match goal with
    | |- Forall is_word _ => is_words
    | |- bytes_ok _ => unfold bytes_ok in *; lia
    | |- _ ≤ _ => lia
    | _ => done
    end|];
  unfold result_ok; use_stack; cbn; split_and?; try done; try lia.

Lemma keeps_balance a : keeps ext_inv (ext_balance a) is_word.
Proof.
  intros x Hx. eapply wp_mono; [by apply law_balance| |done]. intros b x' (? & ? & _). done.
Qed.

Lemma length_u256_to_address v : length (u256_to_address v) = 20%nat.
Proof. unfold u256_to_address. by rewrite length_drop, h256_len. Qed.

(** One step of an instruction. *)
Ltac run_step :=
  match goal with
  | |- run _ (mbind _ _) _ _ => apply run_bind
  | |- run _ (mret _) _ _ => apply run_ret
  | |- run _ (xm_err _) _ _ => by apply run_err
  | |- run _ vm_get _ _ => apply run_get
  | |- run _ (vm_modify _) _ _ => apply run_modify
  | |- run _ vm_schedule _ _ => eapply run_schedule; [by auto|]
  | |- run _ pop_back _ _ => eapply run_pop; [done|]
  | |- run _ (push _) _ _ => apply run_push
  | |- run _ (push_result _) _ _ => apply run_push_result
  | |- run _ (vm_ext (xm_ask _)) _ _ => apply run_ext_ask; intros ? ?
  | |- run _ (vm_ext (ext_balance _)) _ _ => eapply run_ext; [apply keeps_balance|intros ? ?]
  | |- run _ (vm_ext (ext_suicide _)) _ _ => eapply run_ext; [apply law_suicide, length_u256_to_address|intros ? _]
  | |- run _ (vm_ext (ext_storage_at _)) _ _ => eapply run_ext; [apply law_storage_at|intros ? _]
  | |- run _ (vm_ext (ext_initial_storage_at _)) _ _ =>
      eapply run_ext; [apply law_initial_storage_at|intros ? _]
  | |- run _ (vm_ext (ext_extcode _)) _ _ => eapply run_ext; [apply law_extcode|intros ? ?]
  | |- run _ (vm_ext (ext_extcodesize _)) _ _ => eapply run_ext; [apply law_extcodesize|intros ? ?]
  | |- run _ (vm_ext (ext_extcodehash _)) _ _ => eapply run_ext; [apply law_extcodehash|intros ? _]
  | |- run _ (vm_ext (ext_log _ _)) _ _ => eapply run_ext; [apply law_log|intros ? _]
  end.

(** ** Groups of instructions *)

Lemma alu_safe instruction args v info gas provided i st :
  instruction_pre instruction info gas provided i → stops instruction = false →
  alu instruction args = Some v → stack i = args ++ st →
  length args = info_args info → info_ret info = 1%nat →
  run ext_inv (exec_instruction gas instruction provided) i
    (instruction_post s self instruction info gas provided i).
Proof.
  intros [_ Hok _ _ _ _ _ _ _] Hstop Hv Hst Hargs Hret x Hx.
  destruct Hok as [Hw Hm Hparams Hcode Hrd Hpos0].
  rewrite Hst in Hw. apply Forall_app in Hw as [Hw Hrest].
  exists (set_stack (v :: st) i, x), (Ok InstrOk). split; [by apply exec_alu with args|].
  split; [done|]. split; [by split|]. split.
  - split; cbn; try done. apply Forall_cons_2; [|done]. by eapply alu_word.
  - unfold result_ok. cbn. rewrite Hst, length_app, Hargs, Hret. split; [lia|done].
Qed.

Lemma jump_safe : safe JUMP.
Proof. instr_start. repeat run_step. instr_end. Qed.

Lemma jumpi_safe : safe JUMPI.
Proof. instr_start. repeat run_step. case_if; instr_end. Qed.

Lemma stop_safe : safe STOP.
Proof. instr_start. repeat run_step. instr_end. Qed.

Lemma suicide_safe : safe SUICIDE.
Proof. instr_start. repeat run_step. instr_end. Qed.

Lemma return_safe : safe RETURN.
Proof. instr_start. unfold exec_return. repeat run_step. instr_end. Qed.

Lemma revert_safe : safe REVERT.
Proof. instr_start. unfold exec_return. repeat run_step. instr_end. Qed.

(** Logs. *)

Lemma pop_words_done n (st : Stack) :
  (n ≤ length st)%nat → pop_words n st = Done (take n st, drop n st).
Proof.
  revert st. induction n as [|n IH]; intros st Hn; [done|]. destruct st as [|v st]; cbn in *; [lia|].
  by rewrite IH by lia.
Qed.

Lemma log_safe instruction n info gas provided i :
  instruction_pre instruction info gas provided i → log_topics instruction = Some n →
  (n ≤ 4)%nat → info_args info = (2 + n)%nat → info_ret info = 0%nat →
  stops instruction = false → accessed instruction (stack i) = [(at_ 0 (stack i), at_ 1 (stack i))] →
  run ext_inv (exec_log instruction) i (instruction_post s self instruction info gas provided i).
Proof.
  intros [_ Hok Hargs Hcov _ _ _ _ _] Hn Hn4 Hinfo Hret Hstop Hacc.
  destruct Hok as [Hw Hm Hparams Hcode Hrd Hpos0].
  destruct (stack i) as [|o [|z st]] eqn:Hst; cbn in Hargs; [lia..|]. words.
  rewrite Hacc in Hcov. apply Forall_cons in Hcov as [Hc _]. unfold at_ in Hc. cbn in Hc.
  unfold exec_log. rewrite Hn. apply run_bind. eapply run_done; [done|].
  do 6 run_step. apply run_bind. eapply run_done.
  { unfold stack_pop_n. rewrite (proj2 (Nat.leb_le _ _)) by (unfold MAX_NO_OF_TOPICS; lia).
    apply pop_words_done. cbn. lia. }
  cbn beta iota. do 3 run_step. destruct (read_slice_done (mem i) o z) as (k & Hk & _); [done..|].
  eapply run_read_mem; [exact Hk|]. repeat run_step.
  split; [by split|]. split; [split; cbn; try done; by apply Forall_drop|].
  unfold result_ok. cbn. rewrite Hst, Hinfo, Hret, length_drop. cbn. split; [lia|done].
Qed.

Lemma mload_safe : safe MLOAD.
Proof.
  instr_start. repeat run_step.
  destruct (covers_positive (mem i) z 32) as (Hz & ?); [done..|].
  destruct (slice_done (mem i) z (z + 32)) as (k & Hk & Hlen); [unfold is_word in *; lia..|].
  eapply run_read_mem; [unfold mem_read; cbn [mem set_stack]; rewrite Hz, Hk; done|].
  assert (is_word (from_be_bytes k)) by (apply from_be_bytes_word; lia). instr_end.
Qed.

Lemma mstore_safe : safe MSTORE.
Proof.
  instr_start. repeat run_step.
  destruct (covers_positive (mem i) z 32) as (Hz & ?); [done..|]. unfold mem_write. rewrite Hz.
  apply run_splice; [unfold is_word in *; lia|rewrite length_to_be_bytes; cbn; lia|].
  intros m Hlen. cbn in Hlen. run_step. instr_end.
Qed.

Lemma mstore8_safe : safe MSTORE8.
Proof.
  instr_start. repeat run_step.
  destruct (covers_positive (mem i) z 1) as (Hz & ?); [done..|]. unfold write_byte. rewrite Hz.
  apply run_splice; [unfold is_word in *; lia|cbn; lia|].
  intros m Hlen. cbn in Hlen. run_step. instr_end.
Qed.

Lemma msize_safe : safe MSIZE.
Proof.
  instr_start. repeat run_step. eapply run_read_mem; [done|].
  assert (is_word (mem_size (mem i))) by (unfold is_word, mem_size, bytes_ok in *; lia). instr_end.
Qed.

Lemma sha3_safe : safe SHA3.
Proof.
  instr_start. repeat run_step. destruct (read_slice_done (mem i) z z0) as (k & Hk & _); [done..|].
  eapply run_read_mem; [exact Hk|]. pose proof (h256_Z_bound (keccak k)). repeat run_step. instr_end.
Qed.

Lemma sload_safe : safe SLOAD.
Proof. instr_start. repeat run_step. pose proof (h256_Z_bound a). instr_end. Qed.

(** Queries of the environment. *)

Lemma address_word (a : Address) : length a = 20%nat → is_word (address_to_u256 a).
Proof. intros Ha. apply from_be_bytes_word. lia. Qed.

Lemma pc_safe : safe PC.
Proof.
  instr_start. repeat run_step. eapply run_done.
  - cbn. unfold usize_sub. by rewrite (proj2 (Z.leb_le _ _)) by lia.
  - assert (is_word (position i - 1)) by (unfold is_word, bytes_ok in *; lia). instr_end.
Qed.

Lemma gas_safe : safe GAS.
Proof. instr_start. repeat run_step. assert (is_word gas) by (unfold is_word; lia). instr_end. Qed.

Lemma address_safe : safe ADDRESS.
Proof. instr_start. repeat run_step. pose proof (address_word _ (po_address _ _ Hparams)). instr_end. Qed.

Lemma origin_safe : safe ORIGIN.
Proof. instr_start. repeat run_step. pose proof (address_word _ (po_origin _ _ Hparams)). instr_end. Qed.

Lemma caller_safe : safe CALLER.
Proof. instr_start. repeat run_step. pose proof (address_word _ (po_sender _ _ Hparams)). instr_end. Qed.

Lemma callvalue_safe : safe CALLVALUE.
Proof. instr_start. repeat run_step. pose proof (po_value _ _ Hparams). instr_end. Qed.

Lemma gasprice_safe : safe GASPRICE.
Proof. instr_start. repeat run_step. pose proof (po_gas_price _ _ Hparams). instr_end. Qed.

Lemma balance_safe : safe BALANCE.
Proof. instr_start. repeat run_step. instr_end. Qed.

Lemma selfbalance_safe : safe SELFBALANCE.
Proof. instr_start. repeat run_step. instr_end. Qed.

Lemma extcodesize_safe : safe EXTCODESIZE.
Proof. instr_start. repeat run_step. instr_end. Qed.

Lemma extcodehash_safe : safe EXTCODEHASH.
Proof. instr_start. repeat run_step. pose proof (h256_Z_bound (default h256_default a)). instr_end. Qed.

Lemma length_word {A} (l : list A) : Z.of_nat (length l) < 2 ^ 64 → is_word (Z.of_nat (length l)).
Proof. unfold is_word. lia. Qed.

Lemma calldatasize_safe : safe CALLDATASIZE.
Proof.
  instr_start. repeat run_step. pose proof (po_data _ _ Hparams) as Hd. cbn.
  destruct (ip_data (params i)) as [l|]; [pose proof (length_word _ Hd)|]; instr_end.
Qed.

Lemma codesize_safe : safe CODESIZE.
Proof. instr_start. repeat run_step. pose proof (length_word _ Hcode). instr_end. Qed.

Lemma returndatasize_safe : safe RETURNDATASIZE.
Proof.
  instr_start. repeat run_step. destruct (rd_deref_done _ Hrd) as (k & Hk & Hlen).
  eapply run_done; [unfold rd_len; cbn; by rewrite Hk|].
  assert (is_word (Z.of_nat (length k))).
  { destruct Hrd as (? & ? & ? & ?). unfold is_word. lia. }
  instr_end.
Qed.

Lemma calldata_load_done id data :
  is_word id → bytes_ok (default [] data) → ∃ v, calldata_load id data = Done v ∧ is_word v.
Proof.
  intros Hid Hd. unfold calldata_load. destruct data as [data|]; [|by exists 0].
  case_if; [|by exists 0]. apply andb_true_iff in Heqb as [Hb%Z.ltb_lt Hl%Z.ltb_lt].
  cbn in Hd. unfold bytes_ok, is_word in *. rewrite low_u64_small in * by lia.
  destruct (slice_done data id (Z.min (Z.of_nat (length data)) (u64 (id + 32)))) as (k & -> & Hlen);
    [lia..|].
  assert (u64 (id + 32) = id + 32) as E.
  { unfold u64, wrap in *. destruct (decide (id + 32 < 2 ^ 64)); [apply Z.mod_small; lia|].
    exfalso. rewrite (Z.mod_eq (id + 32) (2 ^ 64)) in Hb by lia.
    assert ((id + 32) / 2 ^ 64 = 1) as E1; [|rewrite E1 in Hb; lia].
    symmetry. apply (Z.div_unique _ _ 1 (id + 32 - 2 ^ 64)); lia. }
  eexists. split; [done|]. apply from_be_bytes_word.
  rewrite length_app, length_replicate. lia.
Qed.

Lemma calldataload_safe : safe CALLDATALOAD.
Proof.
  instr_start. repeat run_step.
  destruct (calldata_load_done z (ip_data (params i))) as (v & Hv & ?);
    [done|apply (po_data _ _ Hparams)|].
  eapply run_done; [exact Hv|]. instr_end.
Qed.

Lemma blockhash_safe : safe BLOCKHASH.
Proof.
  instr_start. do 4 run_step. apply (run_ext_run _ _ (λ _, True)).
  - intros x Hx. destruct (law_blockhash z x Hx) as (x' & h & -> & ?); [done|]. by exists x', h.
  - intros h _. run_step. pose proof (h256_Z_bound h). instr_end.
Qed.

Ltac env := 
  instr_start; do 3 run_step;
  match goal with Hx : ext_inv ?x |- _ => destruct (law_env x Hx); pose proof (law_chain_id x Hx) end.

Lemma coinbase_safe : safe COINBASE.
Proof. env. pose proof (address_word _ eo_author). run_step. instr_end. Qed.
Lemma timestamp_safe : safe TIMESTAMP.
Proof. env. run_step. instr_end. Qed.
Lemma number_safe : safe NUMBER.
Proof. env. run_step. instr_end. Qed.
Lemma difficulty_safe : safe DIFFICULTY.
Proof. env. run_step. instr_end. Qed.
Lemma gaslimit_safe : safe GASLIMIT.
Proof. env. run_step. instr_end. Qed.
Lemma chainid_safe : safe CHAINID.
Proof. instr_start. do 2 run_step. pose proof (law_chain_id _ H0). instr_end. Qed.

(** Copies to the memory. *)

Ltac copy_end := intros m Hlen; cbn in Hlen; run_step; instr_end.

Lemma calldatacopy_safe : safe CALLDATACOPY.
Proof.
  instr_start. do 3 run_step. eapply run_copy_data; [done..|apply (po_data _ _ Hparams)|done|done|].
  copy_end.
Qed.

Lemma codecopy_safe : safe CODECOPY.
Proof. instr_start. do 3 run_step. eapply run_copy_data; [done..|]. copy_end. Qed.

Lemma extcodecopy_safe : safe EXTCODECOPY.
Proof. instr_start. do 5 run_step. eapply run_copy_data; [done..|]. copy_end. Qed.

Lemma run_peek n v i (Q : Z → Interpreter → Prop) :
  stack i !! n = Some v → Q v i → run ext_inv (peek n) i Q.
Proof.
  intros Hv HQ. apply run_bind, run_get. eapply run_done; [|done]. unfold stack_peek. by rewrite Hv.
Qed.

Lemma returndatacopy_safe : safe RETURNDATACOPY.
Proof.
  instr_start. apply run_bind. eapply run_peek; [by rewrite Hst|].
  apply run_bind. eapply run_peek; [by rewrite Hst|]. do 3 run_step.
  destruct (rd_deref_done _ Hrd) as (k & Hk & Hlen). eapply run_done; [exact Hk|].
  assert (bytes_ok k) by (destruct Hrd as (? & ? & ? & ?); unfold bytes_ok; lia).
  case_if; [run_step|]. run_step. eapply run_copy_data; [done..|]. clear Hlen. copy_end.
Qed.

(** Stack instructions. *)

Lemma pop_safe : safe POP.
Proof. instr_start. repeat run_step. instr_end. Qed.

Lemma jumpdest_safe : safe JUMPDEST.
Proof. instr_start. repeat run_step. instr_end. Qed.

Lemma push_safe instruction n info gas provided i :
  instruction_pre instruction info gas provided i → push_bytes instruction = Some n →
  (n ≤ 32)%nat → info_args info = 0%nat → info_ret info = 1%nat → stops instruction = false →
  run ext_inv (exec_push instruction) i (instruction_post s self instruction info gas provided i).
Proof.
  intros [_ Hok Hargs _ _ _ _ _ Hpos] Hn Hn32 Hinfo Hret Hstop.
  destruct Hok as [Hw Hm Hparams Hcode Hrd Hpos0].
  unfold exec_push. rewrite Hn. apply run_bind. eapply run_done; [done|].
  apply run_push_result, run_read_code; [done|lia|]. intros v Hv.
  split; [by split|]. split; [split; cbn; try done; try lia; by constructor|].
  unfold result_ok. cbn. rewrite Hinfo, Hret. split; [lia|done].
Qed.

Lemma dup_safe instruction n info gas provided i :
  instruction_pre instruction info gas provided i → dup_position instruction = Some n →
  info_args info = S n → info_ret info = S (S n) → stops instruction = false →
  run ext_inv (exec_dup instruction) i (instruction_post s self instruction info gas provided i).
Proof.
  intros [_ Hok Hargs _ _ _ _ _ Hpos] Hn Hinfo Hret Hstop.
  destruct Hok as [Hw Hm Hparams Hcode Hrd Hpos0].
  unfold exec_dup. rewrite Hn. apply run_bind. eapply run_done; [done|]. apply run_push_result.
  destruct (lookup_lt_is_Some_2 (stack i) n ltac:(lia)) as [v Hv]. eapply run_peek; [done|].
  split; [by split|].
  split; [split; cbn; try done; constructor; [by eapply Forall_lookup_1 in Hv|done]|].
  unfold result_ok. cbn. rewrite Hinfo, Hret. rewrite Hinfo in Hargs. split; [lia|done].
Qed.

Lemma swap_done n (st : Stack) :
  (n < length st)%nat → Forall is_word st →
  ∃ st', swap_with_top n st = Done st' ∧ Forall is_word st' ∧ length st' = length st.
Proof.
  intros Hn Hst. unfold swap_with_top, Stack in *.
  destruct (lookup_lt_is_Some_2 st n Hn) as [v Hv]. rewrite Hv. cbn.
  destruct st as [|t st]; [done|]. cbn. eexists. split; [done|].
  split; [|by rewrite !length_insert].
  apply Forall_insert; [apply Forall_insert; [done|by apply Forall_cons in Hst as [? ?]]|].
  by eapply Forall_lookup_1 in Hv.
Qed.

Lemma swap_safe instruction n info gas provided i :
  instruction_pre instruction info gas provided i → swap_position instruction = Some n →
  info_args info = S n → info_ret info = S n → stops instruction = false →
  run ext_inv (exec_swap instruction) i (instruction_post s self instruction info gas provided i).
Proof.
  intros [_ Hok Hargs _ _ _ _ _ Hpos] Hn Hinfo Hret Hstop.
  destruct Hok as [Hw Hm Hparams Hcode Hrd Hpos0].
  unfold exec_swap. rewrite Hn. apply run_bind. eapply run_done; [done|]. do 3 run_step.
  destruct (swap_done n (stack i)) as (st' & Hst' & ? & Hlen); [lia|done|].
  eapply run_done; [exact Hst'|]. repeat run_step.
  split; [by split|]. split; [by split|].
  unfold result_ok. cbn. rewrite Hinfo, Hret. rewrite Hinfo in Hargs. split; [lia|done].
Qed.

(** Creations. *)

(** As [safe], the outside included. *)
Abbreviation safex instruction :=
  (∀ info gas provided i, instruction_pre instruction info gas provided i →
     runx ext_err ext_inv (exec_instruction gas instruction provided) i
       (executed_post s self instruction info gas provided i)).

(** One step of such an instruction. *)
Ltac runx_step := apply runx_bind; [repeat run_step|by err].

Lemma sstore_safe : safex SSTORE.
Proof.
  instr_start. unfold exec_sstore. apply runx_bind; [run_step|by err].
  apply runx_bind; [run_step|by err].
  apply (runx_seq _ (λ _ i' x, i' = set_stack rest (set_stack (z0 :: rest) i) ∧ ext_inv x)).
  { apply runx_ext. intros x Hx. eapply wp_mono; [by apply law_sstore|naive_solver|done]. }
  intros [] i'. apply runx_pure. intros ->. apply runx_ret. intros x Hx. split; [done|].
  split; [instr_end|done].
Qed.

(** What a creation or a call that is given [gas] leaves on the stack of [i]. *)
Definition returned (gas : Z) (i : Interpreter) (res : InstructionResult) (i' : Interpreter)
    (x : X) : Prop :=
  ext_inv x ∧
  ((∃ m v d ro, length m = length (mem i) ∧ is_word v ∧ return_data_ok d ∧
    match res with InstrOk => True | UnusedGas g => 0 ≤ g ≤ gas | _ => False end ∧
    i' = set_return_data d (set_stack (v :: stack i) (set_mem m (set_resume_output_range ro i)))) ∨
   (∃ t ro, res = InstrTrap t ∧ trap_gas t = gas ∧ trap_ok s self t x ∧
    (is_trap_call t → ∃ o z, ro = Some (o, z) ∧ is_word o ∧ is_word z ∧
                             covers (mem_size (mem i)) (o, z)) ∧
    i' = set_resume_output_range ro (set_return_data return_data_empty i))).

Lemma return_data_empty_ok : return_data_ok return_data_empty.
Proof. unfold return_data_ok. cbn. lia. Qed.

Lemma returned_nothing gas i x ro :
  ext_inv x → 0 ≤ gas → returned gas i (UnusedGas gas)
    (set_return_data return_data_empty (set_stack (0 :: stack i) (set_resume_output_range ro i))) x.
Proof.
  intros Hx Hg. split; [done|]. left. exists (mem i), 0, return_data_empty, ro.
  split_and!; try done; lia.
Qed.

Lemma runx_create_contract e o z scheme p i :
  interp_ok self i → is_word e → is_word o → is_word z → covers (mem_size (mem i)) (o, z) →
  0 ≤ p < 2 ^ 64 →
  runx ext_err ext_inv (create_contract e o z scheme (Some p)) i (returned p i).
Proof.
  intros Hok He Ho Hz Hc Hp. unfold create_contract.
  runx_step. eapply run_done; [done|]. runx_step. case_if; [apply runx_of_run; [by apply run_err|by err]|].
  runx_step. runx_step. set (i1 := set_return_data _ i).
  eapply (runx_seq _ (λ b i' x, i' = i1 ∧ ext_inv x ∧ is_word b ∧ ∀ v, 0 ≤ v ≤ b → ext_funds x self v)).
  { apply runx_ext. intros y Hy. cbn. rewrite (po_self _ _ (io_params _ _ Hok)).
    eapply wp_mono; [by apply law_balance| |by err]. naive_solver. }
  intros b i'. apply runx_pure. intros ->.
  set (I := λ x, ext_inv x ∧ _). assert (∀ x, I x → ext_inv x) by (by intros y []).
  runx_step. runx_step. case_if.
  { apply runx_of_run; [|by err]. repeat run_step. intros x' [Hx' _].
    apply (returned_nothing p i x' (resume_output_range i)); [done|lia]. }
  apply negb_false_iff, andb_true_iff in Heqb0 as [He'%Z.leb_le _].
  destruct (read_slice_done (mem i) o z) as (k & Hk & ?); [apply Hok|done..|].
  apply runx_bind; [|by err]. eapply run_read_mem; [exact Hk|].
  eapply (runx_seq _ (λ r i' x, i' = i1 ∧ ext_inv x ∧
    match r with
    | Ok r => create_result_ok p r
    | Err t => is_trap_create t ∧ trap_gas t = p ∧ trap_ok s self t x
    end)).
  { apply runx_ext_run. intros y (Hy & ? & Hf).
    destruct (law_create p e k (ip_code_version (params i)) scheme y) as (x' & r & Hr & ? & Hpost);
      [done..|apply Hf; unfold is_word in *; lia|done|].
    exists x', r. split; [done|]. split; [done|]. split; [done|]. destruct r; [done|].
    destruct Hpost as (? & ? & ? & ?). split_and!; try done. by split; [right|..]. }
  intros r i'. apply runx_pure. intros ->. destruct r as [r|t].
  - apply (runx_have _ (create_result_ok p r)); [by intros y []|intros Hr].
    apply runx_of_run; [|by err].
    eapply run_create_returned; [done|lia|apply return_data_empty_ok|]. intros v d res Hv Hd Hres y [Hy _].
    split; [done|]. left. by exists (mem i), v, d, (resume_output_range i).
  - apply runx_ret. intros y (Hy & Ht & Hg & Htok). split; [done|]. right.
    exists t, (resume_output_range i). split_and!; try done. by destruct t.
Qed.

(** A creation or a call leaves what an instruction is to leave. *)
Lemma returned_post instruction info gas provided i st i0 g res i' x :
  returned g i0 res i' x →
  INSTRUCTIONS instruction = Some info → interp_ok self i → stack i = st →
  (info_args info ≤ length st)%nat → info_ret info = 1%nat →
  stops instruction = false → provides instruction = true →
  i0 = set_stack (drop (info_args info) st) i →
  0 ≤ g ≤ default 0 provided + transfer_gas s instruction st →
  executed_post s self instruction info gas provided i res i' x.
Proof.
  intros [Hx Hr] Hinfo [] Hst Hargs Hret Hstop Hprov -> Hg. pose proof return_data_empty_ok.
  assert (Forall is_word (drop (info_args info) st)) by (apply Forall_drop; by rewrite <- Hst).
  destruct Hr as [(m & v & d & ro & Hm & Hv & Hd & Hres & ->)|(t & ro & -> & Ht & Htok & Hro & ->)].
  - split; [done|]. split; [|by intros t ->].
    split; [split; cbn in *; (done || lia)|].
    split; [split; cbn in *; try done; [by constructor|unfold bytes_ok in *; lia]|].
    unfold result_ok. rewrite Hst, Hret. cbn. rewrite length_drop.
    destruct res; try done; split_and!; try done; lia.
  - split; [done|]. split; [|by intros t' [= <-]].
    split; [split; cbn in *; (done || lia)|].
    split; [split; cbn in *; try done|].
    unfold result_ok. rewrite Hst, Hret. cbn. rewrite length_drop. split_and!; try done; lia.
Qed.

Ltac provided :=
  match goal with Hprov : is_Some ?o ↔ _, Hprovd : ∀ p, ?o = Some p → _ |- _ =>
    destruct o as [p|]; [specialize (Hprovd p eq_refl)|by destruct (proj2 Hprov eq_refl)] end.
Ltac runx_pop := apply runx_bind; [eapply run_pop; [done|]|by err].

Lemma create_safe : safex CREATE.
Proof.
  instr_open. provided. unfold exec_create. do 3 runx_pop.
  rewrite bool_decide_eq_false_2 by done. apply runx_bind; [run_step|by err].
  cbn in Hlim. eapply runx_mono; [apply runx_create_contract; [by destruct Hok|done..|lia]|].
  intros res i' x Hr. eapply returned_post; [exact Hr|done|done|exact Hst|cbn; lia|done..|cbn; lia].
Qed.

Lemma create2_safe : safex CREATE2.
Proof.
  instr_open. provided. unfold exec_create. do 3 runx_pop.
  rewrite bool_decide_eq_true_2 by done. apply runx_bind; [do 3 run_step|by err].
  cbn in Hlim. eapply runx_mono; [apply runx_create_contract; [by destruct Hok|done..|lia]|].
  intros res i' x Hr. eapply returned_post; [exact Hr|done|done|exact Hst|cbn; lia|done..|cbn; lia].
Qed.

(** Calls. *)

(** The parties of a call, the sender of which has the value. *)
Definition target_ok (a : Address) (value : option Z) (i : Interpreter) (r : Address * Address * bool * CallType)
    (i' : Interpreter) (x : X) : Prop :=
  let '(sender, receive, has_balance, _) := r in
  i' = i ∧ length sender = 20%nat ∧ length receive = 20%nat ∧ (receive = a ∨ receive = self) ∧
  ext_inv x ∧
  (has_balance = true → ∀ v, value = Some v → ext_funds x sender v).

Lemma runx_balance (a receive : Address) (t : CallType) v i :
  length self = 20%nat → length receive = 20%nat → receive = a ∨ receive = self → is_word v →
  runx ext_err ext_inv (balance ← vm_ext (ext_balance self); v ← xm_done (unwrap (Some v));
                        mret (self, receive, v <=? balance, t)) i (target_ok a (Some v) i).
Proof.
  intros Hself Hr Ha Hv. unfold is_word in *.
  apply (runx_seq _ (λ b i' x, i' = i ∧ ext_inv x ∧ ∀ v, 0 ≤ v ≤ b → ext_funds x self v)).
  { apply runx_ext. intros y Hy. eapply wp_mono; [by apply law_balance| |by err]. naive_solver. }
  intros b i'. apply runx_pure. intros ->. apply runx_bind; [|by err].
  eapply run_done; [done|]. apply runx_ret. intros y [Hy Hf]. split_and!; try done.
  intros Hle%Z.leb_le v' [= <-]. apply Hf. lia.
Qed.

Lemma runx_call_target instruction a value i :
  interp_ok self i → length a = 20%nat → (∀ v, value = Some v → is_word v) →
  match instruction with
  | CALL | CALLCODE => is_Some value
  | DELEGATECALL => value = None
  | STATICCALL => value = Some 0
  | _ => False
  end →
  runx ext_err ext_inv (call_target instruction a value) i (target_ok a value i).
Proof.
  intros [_ _ [Hself Haddr Hsender _ _ _ _] _ _ _] Ha Hvalue Hi. unfold call_target. runx_step. rewrite Hself.
  assert (length self = 20%nat) by congruence.
  destruct instruction; try done.
  - destruct Hi as [v ->]. runx_step. case_if; [apply runx_of_run; [by apply run_err|by err]|].
    apply runx_balance; auto.
  - destruct Hi as [v ->]. apply runx_balance; auto.
  - subst value. apply runx_ret. intros y Hy. split_and!; try done. by right.
  - subst value. apply runx_ret. intros y Hy. split_and!; try done; [by left|].
    intros _ v [= <-]. by apply law_no_funds.
Qed.

(** The gas that a call is given for a transfer. *)
Definition stipend_of (value : option Z) : Z :=
  match value with Some v => if v =? 0 then 0 else call_stipend s | None => 0 end.

Lemma runx_call_contract instruction p a value io iz oo oz i :
  interp_ok self i → length a = 20%nat → (∀ v, value = Some v → is_word v) →
  is_word io → is_word iz → is_word oo → is_word oz →
  covers (mem_size (mem i)) (io, iz) → covers (mem_size (mem i)) (oo, oz) →
  match instruction with
  | CALL | CALLCODE => is_Some value
  | DELEGATECALL => value = None
  | STATICCALL => value = Some 0
  | _ => False
  end → 0 ≤ p → p + stipend_of value < 2 ^ 64 →
  runx ext_err ext_inv (call_contract instruction p a value io iz oo oz) i
    (returned (p + stipend_of value) i).
Proof.
  intros Hok Ha Hvalue Hio Hiz Hoo Hoz Hci Hco Hi Hp Hlim. unfold call_contract. runx_step.
  fold (stipend_of value). set (gas := p + stipend_of value) in *.
  assert (0 ≤ gas) by (unfold gas, stipend_of; pose proof (so_stipend _ Hs);
                       destruct value; repeat case_if; lia).
  assert ((cost_overflow_add p (stipend_of value)).1 = gas) as -> by (cbn; apply u64_small; lia).
  eapply runx_seq; [by apply runx_call_target|]. intros [[[sender receive] has_balance] t] i'.
  apply runx_pure. intros ->. apply runx_pure. intros Hsender. apply runx_pure. intros Hreceive.
  apply runx_pure. intros Hparty.
  set (I := λ x, ext_inv x ∧ _). assert (∀ x, I x → ext_inv x) by (by intros y []).
  set (i1 := set_return_data return_data_empty i).
  runx_step. runx_step. fold i1. case_if.
  { apply runx_of_run; [|by err]. repeat run_step. intros x' [Hx' _].
    by apply (returned_nothing gas i x' (resume_output_range i)). }
  apply negb_false_iff, andb_true_iff in Heqb as [-> _].
  destruct (read_slice_done (mem i) io iz) as (k & Hk & ?); [apply Hok|done..|].
  apply runx_bind; [|by err]. eapply run_read_mem; [exact Hk|].
  apply (runx_seq _ (λ r i' x, i' = i1 ∧ ext_inv x ∧
    match r with
    | Ok r => call_result_ok gas r
    | Err t => is_trap_call t ∧ trap_gas t = gas ∧ trap_ok s self t x
    end)).
  { apply runx_ext_run. intros y (Hy & Hf).
    destruct (law_call gas sender receive value k a t y) as (x' & r & Hr & ? & Hpost);
      [done..|intros v Hv; split; [by apply Hvalue|by apply Hf]|].
    exists x', r. split; [done|]. split; [done|]. split; [done|]. destruct r; [done|].
    destruct Hpost as (? & ? & ? & ?). split_and!; try done. by split; [left|..]. }
  intros r i'. apply runx_pure. intros ->. apply runx_bind; [run_step|by err].
  destruct r as [r|tr].
  - apply (runx_have _ (call_result_ok gas r)); [by intros y []|intros Hr].
    apply runx_of_run; [|by err].
    eapply run_call_returned; [apply Hok|done..|apply return_data_empty_ok|].
    intros m v d res Hm Hv Hd Hres y [Hy _].
    split; [done|]. left. by exists m, v, d, (Some (oo, oz)).
  - apply runx_ret. intros y (Hy & Ht & Hg & Htok). split; [done|]. right.
    exists tr, (Some (oo, oz)). split_and!; try done. intros _. by exists oo, oz.
Qed.

Lemma stipend_transfer v :
  0 ≤ stipend_of (Some v) ≤ (if v =? 0 then 0 else call_value_transfer_gas s).
Proof. cbn. pose proof (so_stipend _ Hs). case_if; lia. Qed.

(** The checks at the start of a call. *)
Ltac call_start :=
  instr_open; provided; unfold exec_call; runx_step;
  (apply runx_bind; [eapply run_done;
     [by rewrite (proj2 (Z.ltb_lt _ _)) by apply (so_stipend _ Hs)|]|by err]);
  runx_pop; (apply runx_bind; [eapply run_done; [done|]|by err]); runx_pop.
Ltac call_end Hst Hok :=
  do 4 runx_pop;
  (eapply runx_mono; [apply runx_call_contract;
     [by destruct Hok|apply length_u256_to_address|by intros ? [= <-]|done..|cbn; lia]|]);
  let Hr := fresh "Hr" in
  intros ? ? ? Hr; (eapply returned_post; [exact Hr|done|done|exact Hst|cbn; lia|done..|cbn; lia]).

Lemma call_safe : safex CALL.
Proof.
  call_start. rewrite !bool_decide_eq_false_2 by done. apply runx_bind; [repeat run_step|by err].
  rewrite Hst in Hlim. cbn in Hlim. pose proof (stipend_transfer z1). cbn [stipend_of] in *.
  call_end Hst Hok.
Qed.

Lemma callcode_safe : safex CALLCODE.
Proof.
  call_start. rewrite !bool_decide_eq_false_2 by done. apply runx_bind; [repeat run_step|by err].
  rewrite Hst in Hlim. cbn in Hlim. pose proof (stipend_transfer z1). cbn [stipend_of] in *.
  call_end Hst Hok.
Qed.

Lemma delegatecall_safe : safex DELEGATECALL.
Proof.
  call_start. rewrite bool_decide_eq_true_2 by done. apply runx_bind; [repeat run_step|by err].
  cbn in Hlim. call_end Hst Hok.
Qed.

Lemma staticcall_safe : safex STATICCALL.
Proof.
  call_start. rewrite bool_decide_eq_false_2, bool_decide_eq_true_2 by done.
  apply runx_bind; [repeat run_step|by err]. cbn in Hlim. call_end Hst Hok.
Qed.

(** ** All instructions *)

(** An instruction of the reference semantics of [EvmReference.v]. *)
Lemma alu_instruction_safe instruction n info :
  INSTRUCTIONS instruction = Some info → info_args info = n → info_ret info = 1%nat →
  stops instruction = false → (∀ args, length args = n → is_Some (alu instruction args)) →
  safe instruction.
Proof.
  intros Hinfo Hargs Hret Hstop Halu info' gas provided i Hpre.
  pose proof (pre_info _ _ _ _ _ Hpre) as Hinfo'. rewrite Hinfo in Hinfo'. injection Hinfo' as <-.
  destruct (stack_split _ _ (pre_args _ _ _ _ _ Hpre) (io_stack _ _ (pre_ok _ _ _ _ _ Hpre)))
    as (args & rest & Hst & Hlen & _ & _).
  rewrite Hargs in Hlen. destruct (Halu args Hlen) as [v Hv].
  eapply alu_safe; [done..|by rewrite Hargs|done].
Qed.

Ltac alu_total :=
  let args := fresh in let Hlen := fresh in
  intros args Hlen; destruct args as [|? [|? [|? [|? ?]]]]; try discriminate Hlen; by eexists.

(** The instructions that neither create nor call. *)
Lemma plain_safe instruction :
  provides instruction = false → instruction ≠ SSTORE → safe instruction.
Proof.
  destruct instruction; intros Hprov Hne; try discriminate Hprov; try done; clear Hprov Hne;
    try (by eapply alu_instruction_safe; [reflexivity|reflexivity|done|done|alu_total]);
    try first
      [exact stop_safe|exact jump_safe|exact jumpi_safe|exact jumpdest_safe|exact pop_safe
      |exact mload_safe|exact mstore_safe|exact mstore8_safe|exact msize_safe|exact sha3_safe
      |exact sload_safe|exact pc_safe|exact gas_safe|exact address_safe
      |exact origin_safe|exact caller_safe|exact callvalue_safe|exact gasprice_safe
      |exact balance_safe|exact selfbalance_safe|exact extcodesize_safe|exact extcodehash_safe
      |exact calldatasize_safe|exact codesize_safe|exact returndatasize_safe
      |exact calldataload_safe|exact blockhash_safe|exact coinbase_safe|exact timestamp_safe
      |exact number_safe|exact difficulty_safe|exact gaslimit_safe|exact chainid_safe
      |exact calldatacopy_safe|exact codecopy_safe|exact extcodecopy_safe
      |exact returndatacopy_safe|exact return_safe|exact revert_safe|exact suicide_safe];
    intros info gas provided i Hpre; pose proof (pre_info _ _ _ _ _ Hpre) as Hinfo;
    injection Hinfo as <-;
    first
      [by eapply push_safe; [exact Hpre|reflexivity|cbn; lia|..]
      |by eapply dup_safe; [exact Hpre|reflexivity|..]
      |by eapply swap_safe; [exact Hpre|reflexivity|..]
      |by eapply log_safe; [exact Hpre|reflexivity|cbn; lia|..]].
Qed.

Lemma exec_instruction_safe instruction : safex instruction.
Proof.
  destruct (provides instruction) eqn:Hprov.
  - destruct instruction; try discriminate Hprov;
      first [exact create_safe|exact create2_safe|exact call_safe|exact callcode_safe
            |exact delegatecall_safe|exact staticcall_safe].
  - destruct (decide (instruction = SSTORE)) as [->|Hne]; [exact sstore_safe|].
    intros info gas provided i Hpre. apply runx_of_run; [|by err].
    eapply run_mono; [by apply plain_safe|]. intros r i' Hpost x Hx. split_and!; [done..|].
    intros t ->. destruct Hpost as (_ & _ & _ & _ & _ & Hp & _). by rewrite Hp in Hprov.
Qed.
End Safety.
