(* ===== verification/EvmRun.v ===== *)
(** * Executions of the interpreter

    The invariant of the interpreter between its steps, and that an execution which counts gas
    in a [usize] never panics, ends after at most as many steps as it has gas, and leaves no
    more gas than it was given; the same across the calls and creations for which it is
    suspended. *)

From S2P Require Import Prelude Hash Transaction Account Instructions Schedule EvmWord Vm.
From S2P Require Import EvmMemory Gasometer Evm EvmReference VmLaws EvmLaws EvmSafety.

Local Open Scope Z_scope.

#[local] Existing Instance usize_cost.

Section Run.
Context `{Keccak} `{!LruCache H256 BitSet} {X : Type} (s : Schedule) (self : Address) `{!Ext X}.
Context `{!ExtLaws X s self}.
Context (Hs : schedule_ok s).
Implicit Types i : Interpreter.

(** ** Invariants *)

(** The memory is made of words and paid for. *)
Record gas_ok (i : Interpreter) (g : Gasometer) : Prop := {
  go_gasometer : gasometer i = Some g;
  go_gas : 0 ≤ current_gas g < 2 ^ 64;
  go_mem : current_mem_gas g = mem_fee s (mem_size (mem i));
  go_fee : 0 ≤ mem_fee s (mem_size (mem i)) < 2 ^ 64;
  go_words : mem_size (mem i) `mod` 32 = 0;
}.

(** The gas that a resumed interpreter gets back. *)
Definition resume_gas (r : option InstructionResult) : Z :=
  match r with Some (UnusedGas g) => g | _ => 0 end.

(** Between two steps. *)
Record interpreter_inv (i : Interpreter) (g : Gasometer) : Prop := {
  inv_ok : interp_ok self i;
  inv_gas : gas_ok i g;
  inv_stack : Z.of_nat (length (stack i)) ≤ stack_limit s;
  inv_done : done i = false;
  inv_potential : 0 ≤ resume_gas (resume_result i) ∧ current_gas g + resume_gas (resume_result i) < 2 ^ 64;
  inv_resume :
    match resume_result i with
    | None => code i = [] ∨ position i < Z.of_nat (length (code i))
    | Some (InstrOk | UnusedGas _) => (last_stack_ret_len i ≤ length (stack i))%nat
    | Some _ => False
    end;
}.

(** The gas an execution can still use. *)
Definition potential (i : Interpreter) (g : Gasometer) : Z :=
  current_gas g + resume_gas (resume_result i).

(** Waiting for the result of a call or a creation. *)
Record suspended (i : Interpreter) (g : Gasometer) (t : TrapKind) : Prop := {
  su_ok : interp_ok self i;
  su_gas : gas_ok i g;
  su_stack : Z.of_nat (S (length (stack i))) ≤ stack_limit s;
  su_done : done i = false;
  su_resume : resume_result i = None;
  su_ret_len : (last_stack_ret_len i ≤ S (length (stack i)))%nat;
  su_trap : 0 ≤ trap_gas t ∧ current_gas g + trap_gas t < 2 ^ 64;
  su_range : is_trap_call t → ∃ o z, resume_output_range i = Some (o, z) ∧ is_word o ∧ is_word z ∧
                                     covers (mem_size (mem i)) (o, z);
}.

(** ** The parts of a step *)

Lemma run_traced {A} (m : XM (Interpreter * X) A) i Q : run ext_inv m i Q → run ext_inv (traced m) i Q.
Proof.
  intros Hm x Hx. destruct (Hm x Hx) as (m' & r & Hr & Hpost).
  unfold traced, wp. rewrite Hr. cbn. destruct r as [a|e]; [by exists m', (Ok a)|].
  eexists _, (Err e). split; [done|]. destruct Hpost as [? ?]. split; [done|]. cbn.
  case_if; [by apply law_trace_failed|done].
Qed.

Lemma runx_traced {A} (I : X → Prop) (m : XM (Interpreter * X) A) i Q :
  runx ext_err I m i Q → runx ext_err I (traced m) i Q.
Proof.
  intros Hm x Hx. destruct (Hm x Hx) as (m' & r & Hr & Hpost).
  unfold traced, wp. rewrite Hr. cbn. destruct r as [a|e]; [by exists m', (Ok a)|].
  eexists _, (Err e). split; [done|]. destruct Hpost as [? ?]. split; [done|]. cbn.
  case_if; [by apply law_trace_failed_err|done].
Qed.

Lemma run_verify_instruction instruction info i (Q : unit → Interpreter → Prop) :
  Z.of_nat (length (stack i)) ≤ stack_limit s →
  ((info_args info ≤ length (stack i))%nat →
   Z.of_nat (length (stack i) - info_args info + info_ret info) ≤ stack_limit s → Q tt i) →
  run ext_inv (verify_instruction instruction info) i Q.
Proof.
  intros Hlim HQ. apply run_bind. eapply run_schedule; [by auto|]. case_if; [by apply run_err|].
  apply run_bind, run_get. unfold stack_has, stack_size.
  destruct (Nat.leb_spec (info_args info) (length (stack i))); [|by apply run_err]. cbn [negb].
  case_if.
  - apply Z.ltb_lt in Heqb0. apply run_bind. eapply run_done; [|by apply run_err].
    unfold usize_sub. by rewrite (proj2 (Z.leb_le _ _)) by lia.
  - apply Z.ltb_ge in Heqb0. apply run_ret, HQ; [done|lia].
Qed.

Lemma mem_written_done instruction info (st : Stack) :
  INSTRUCTIONS instruction = Some info → (info_args info ≤ length st)%nat → Forall is_word st →
  ∃ mw sw, mem_written instruction st = Done mw ∧ store_written instruction st = Done sw.
Proof.
  intros Hinfo Hargs Hw. destruct (stack_split _ _ Hargs Hw) as (args & rest & -> & Hlen & _ & _).
  destruct instruction; injection Hinfo as <-; cbn in Hlen;
    repeat (destruct args as [|? args]; [try discriminate Hlen|try discriminate Hlen]);
    unfold mem_written, store_written; cbn -[low_u64 is_valid_range]; eexists _, _; done.
Qed.

Lemma expand_size size m : mem_size (expand size m) = Z.max (mem_size m) size.
Proof.
  unfold expand, mem_size. destruct (Z.ltb_spec (Z.of_nat (length m)) size); [|lia].
  unfold mem_resize. rewrite length_resize. lia.
Qed.

(** What fetching an instruction leaves. *)
Definition fetched (i : Interpreter) (g : Gasometer)
    (r : byte * Instruction * InstructionInfo * Gasometer) (i' : Interpreter) : Prop :=
  let '(_, instruction, info, g') := r in
  g' = g ∧ INSTRUCTIONS instruction = Some info ∧ interp_ok self i' ∧ gas_ok i' g ∧
  stack i' = stack i ∧ code i' = code i ∧ done i' = done i ∧ resume_result i' = resume_result i ∧
  last_stack_ret_len i' = info_ret info ∧ 1 ≤ position i' ≤ Z.of_nat (length (code i)) ∧
  (info_args info ≤ length (stack i))%nat ∧
  Z.of_nat (length (stack i) - info_args info + info_ret info) ≤ stack_limit s.

Lemma run_fetch i g :
  interp_ok self i → gas_ok i g → Z.of_nat (length (stack i)) ≤ stack_limit s →
  position i < Z.of_nat (length (code i)) → run ext_inv fetch i (fetched i g).
Proof.
  intros [] [] Hlim Hpos. apply run_bind, run_get, run_bind.
  destruct (lookup_lt_is_Some_2 (code i) (Z.to_nat (position i)) ltac:(lia)) as [op Hop].
  eapply run_done; [by rewrite Hop|]. apply run_bind, run_modify, run_bind, run_bind, run_get.
  eapply run_done; [cbn; by rewrite go_gasometer0|]. apply run_bind.
  assert (∀ t, run ext_inv
    (instruction ← xm_lift (match from_u8 op with Some i => Ok i | None => Err (BadInstruction op) end);
     info ← xm_done (Instructions.info instruction);
     _ ← vm_modify (set_last_stack_ret_len (info_ret info));
     _ ← verify_instruction instruction info;
     mret (op, instruction, info, g)) (set_do_trace t (set_position (position i + 1) i)) (fetched i g))
    as Hrest.
  { intros t. apply run_bind, run_lift; [|by intros e; destruct (from_u8 op); intros [= <-]].
    intros instruction Hi.
    assert (∃ info, INSTRUCTIONS instruction = Some info) as [info Hinfo]
      by (destruct instruction; by eexists).
    apply run_bind. eapply run_done; [unfold Instructions.info; by rewrite Hinfo|].
    apply run_bind, run_modify, run_bind, run_verify_instruction; [done|]. cbn. intros Hargs Hret.
    apply run_ret. split_and!; try done; try (cbn; lia); split; try done. cbn. lia. }
  case_if.
  - apply run_bind. eapply (run_ext_run _ _ (λ _, True)).
    + intros x Hx. destruct (ext_trace_next_instruction _ _ _ x) as [x' t] eqn:Et.
      exists x', t. split; [done|]. split; [|done]. change x' with (x', t).1. rewrite <- Et.
      by apply law_trace_next.
    + intros t _. apply run_modify, Hrest.
  - apply run_ret. specialize (Hrest (do_trace i)). exact Hrest.
Qed.

(** What paying for an instruction and executing it leaves. *)
Definition executed (i : Interpreter) (g : Gasometer) (r : InstructionResult) (i' : Interpreter) :
    Prop :=
  interp_ok self i' ∧ code i' = code i ∧ done i' = done i ∧ resume_result i' = resume_result i ∧
  ∃ g', gas_ok i' g' ∧ current_gas g' ≤ current_gas g ∧
  match r with
  | InstrTrap t =>
      current_gas g' + trap_gas t < current_gas g ∧
      (resume_result i = None → done i = false → suspended i' g' t)
  | _ =>
      Z.of_nat (length (stack i')) ≤ stack_limit s ∧
      (last_stack_ret_len i' ≤ length (stack i'))%nat ∧
      match r with
      | UnusedGas u => 0 ≤ u ∧ current_gas g' + u < current_gas g
      | StopExecutionNeedsReturn gas o z _ =>
          gas = current_gas g' ∧ is_word o ∧ is_word z ∧ covers (mem_size (mem i')) (o, z)
      | StopExecution => True
      | _ => current_gas g' < current_gas g
      end
  end.

(** The interpreter that has paid for an instruction. *)
Definition paid (req : InstructionRequirements) (g : Gasometer) (i : Interpreter) : Interpreter :=
  set_gasometer (Some (mkGasometer (current_gas g - gas_cost req) (memory_total_gas req)))
    (set_mem (expand (memory_required_size req) (mem i)) i).

Lemma paid_ok instruction req g i :
  interp_ok self i → gas_ok i g → requirements_ok s instruction (stack i) (mem_size (mem i)) req →
  gas_cost req ≤ current_gas g →
  interp_ok self (paid req g i) ∧
  gas_ok (paid req g i) (mkGasometer (current_gas g - gas_cost req) (memory_total_gas req)) ∧
  Forall (covers (mem_size (mem (paid req g i)))) (accessed instruction (stack i)).
Proof.
  intros [] [] [] Hle. pose proof (expand_size (memory_required_size req) (mem i)) as Hsize.
  split_and!; [split; cbn; try done|split; cbn; rewrite ?Hsize; try done; try lia|].
  - unfold bytes_ok in *. unfold mem_size in Hsize. lia.
  - destruct (Z.max_spec (mem_size (mem i)) (memory_required_size req)) as [[_ ->]|[_ ->]]; done.
  - cbn. by rewrite Hsize.
Qed.

Lemma transfer_gas_nonneg instruction st : 0 ≤ transfer_gas s instruction st.
Proof.
  pose proof (so_stipend _ Hs). unfold transfer_gas. destruct instruction; repeat case_if; lia.
Qed.

Lemma executed_intro op instruction info i g req i1 i' res :
  fetched i g (op, instruction, info, g) i1 →
  requirements_ok s instruction (stack i1) (mem_size (mem i1)) req →
  gas_cost req ≤ current_gas g →
  instruction_post s self instruction info (current_gas g - gas_cost req) (provide_gas req)
    (paid req g i1) res i' →
  executed i g res i'.
Proof.
  intros (_ & Hinfo & Hok & Hgas & Hst & Hcode & Hdone & Hres & Hlast & Hpos & Hargs & Hret) Hreq Hle
    ([] & Hok' & Hpost).
  destruct (paid_ok instruction req g i1) as (Hok2 & Hgas2 & Hcov); [done..|].
  set (g' := mkGasometer (current_gas g - gas_cost req) (memory_total_gas req)) in *.
  assert (gas_ok i' g') as Hgas'.
  { destruct Hgas2. split; unfold mem_size in *; rewrite ?sm_mem; [congruence|done..]. }
  split_and!; [done|cbn in *; congruence..|].
  exists g'. destruct Hreq as [? Hpositive _ Hprov ? ? ? ? ?].
  assert (0 ≤ default 0 (provide_gas req)) by (destruct (provide_gas req); cbn; naive_solver).
  pose proof (transfer_gas_nonneg instruction (stack i)). pose proof (go_gas _ _ Hgas).
  split; [done|]. split; [cbn; lia|].
  unfold result_ok in Hpost. cbn [paid set_gasometer set_mem stack] in Hpost.
  rewrite Hst in Hpost, Hpositive.
  assert (last_stack_ret_len i' = info_ret info) as Hlast' by (cbn in *; congruence).
  destruct res; cbn [current_gas g'];
    repeat match goal with H : _ ∧ _ |- _ => destruct H end; split_and?; try done;
    try match goal with H : stops _ = false |- _ => specialize (Hpositive H) end; try lia.
  intros ? ?. split; cbn in *; try done; try lia; congruence.
Qed.

(** The same, with the outside. *)
Definition executed_at (i : Interpreter) (g : Gasometer) (r : InstructionResult) (i' : Interpreter)
    (x : X) : Prop :=
  ext_inv x ∧ executed i g r i' ∧ ∀ t, r = InstrTrap t → trap_ok s self t x.

Lemma runx_pay op instruction info g i i1 :
  fetched i g (op, instruction, info, g) i1 →
  runx ext_err ext_inv (pay_and_execute op instruction info g) i1 (executed_at i g).
Proof.
  intros Hf.
  pose proof Hf as (_ & Hinfo & Hok & Hgas & Hst & _ & _ & _ & _ & Hpos & Hargs & _).
  pose proof Hok as []. pose proof Hgas as []. rewrite <- Hst in Hargs.
  apply runx_bind; [apply run_get|by err]. apply runx_bind; [|by err]. eapply run_ext.
  { intros x Hx. eapply requirements_spec; [done..| |done]. unfold mem_size, bytes_ok in *. lia. }
  intros req Hreq. apply runx_bind; [|by err].
  assert (runx ext_err ext_inv (_ ← traced (xm_lift (verify_gas (gas_cost req) g));
    _ ← vm_modify (set_mem (expand (memory_required_size req) (mem i1)));
    gas ← xm_done (cost_sub (current_gas g) (gas_cost req));
    _ ← put_gasometer (mkGasometer gas (memory_total_gas req));
    traced (exec_instruction gas instruction (provide_gas req))) i1 (executed_at i g)) as Hrest.
  { apply runx_bind; [apply run_traced, run_lift|by err];
      [|intros e; unfold verify_gas; case_if; by intros [= <-]].
    intros [] Hv. unfold verify_gas in Hv.
    case_if; [done|]. apply Z.ltb_ge in Heqb. apply runx_bind; [apply run_modify|by err].
    apply runx_bind; [|by err]. eapply run_done; [cbn; by rewrite (proj2 (Z.leb_le _ _) Heqb)|].
    apply runx_bind; [apply run_modify|by err]. apply runx_traced.
    destruct (paid_ok instruction req g i1) as (Hok2 & Hgas2 & Hcov); [done..|].
    eapply runx_mono; [apply exec_instruction_safe; [exact Hs|]|].
    - destruct Hreq. split; try done; cbn.
      + lia.
      + destruct (stops instruction) eqn:Hstop; [|cbn in *; lia].
        destruct instruction; try done; cbn; destruct (provide_gas req) as [p|]; cbn; try lia;
          by discriminate (proj1 ro_provide (mk_is_Some _ _ eq_refl)).
      + destruct Hf as (_ & _ & _ & _ & _ & -> & _). lia.
    - intros res i' x (Hx & Hpost & Ht). split; [done|]. split; [by eapply executed_intro|done]. }
  case_if; [|by apply run_ret].
  destruct (mem_written_done instruction info (stack i1)) as (mw & sw & Hmw & Hsw); [done..|].
  apply run_bind. eapply run_done; [exact Hmw|]. apply run_bind. eapply run_done; [exact Hsw|].
  apply run_ext_modify; [intros x; apply law_trace_prepare|done].
Qed.

Lemma runx_fetch_and_execute i g :
  interp_ok self i → gas_ok i g → Z.of_nat (length (stack i)) ≤ stack_limit s →
  position i < Z.of_nat (length (code i)) →
  runx ext_err ext_inv fetch_and_execute i (executed_at i g).
Proof.
  intros. apply runx_bind; [|by err]. eapply run_mono; [by apply run_fetch|].
  intros [[[op instruction] info] g'] i1 Hf. assert (g' = g) as -> by apply Hf. by apply runx_pay.
Qed.

(** ** One step *)

(** The gas after a result. *)
Definition result_gas (r : InstructionResult) : Z := match r with UnusedGas u => u | _ => 0 end.

(** An interpreter with the result of an instruction. *)
Record with_result (i : Interpreter) (g : Gasometer) (r : InstructionResult) : Prop := {
  wr_ok : interp_ok self i;
  wr_gas : gas_ok i g;
  wr_stack : Z.of_nat (length (stack i)) ≤ stack_limit s;
  wr_ret_len : (last_stack_ret_len i ≤ length (stack i))%nat;
  wr_done : done i = false;
  wr_resume : resume_result i = None;
  wr_unused : 0 ≤ result_gas r ∧ current_gas g + result_gas r < 2 ^ 64;
  wr_trap t : r ≠ InstrTrap t;
  wr_return gas o z b : r = StopExecutionNeedsReturn gas o z b →
    gas = current_gas g ∧ is_word o ∧ is_word z ∧ covers (mem_size (mem i)) (o, z);
}.

(** What a step leaves to an execution that has at most [limit] gas; if it goes on, it has used
    at least [least]. *)
Definition stepped (limit least : Z) (r : InterpreterResult) (i : Interpreter) : Prop :=
  match r with
  | Stopped => False
  | Continue => ∃ g, interpreter_inv i g ∧ resume_result i = None ∧ current_gas g ≤ limit - least
  | InterpreterDone (Ok (Known gas)) => 0 ≤ gas ≤ limit
  | InterpreterDone (Ok (NeedsReturn gas d _)) => 0 ≤ gas ≤ limit ∧ return_data_ok d
  | InterpreterDone (Err e) => machine_error e
  | InterpreterTrap t => ∃ g, suspended i g t ∧ current_gas g + trap_gas t < limit
  end.

Lemma stepped_mono limit least limit' least' r i :
  stepped limit least r i → limit ≤ limit' → limit - least ≤ limit' - least' →
  stepped limit' least' r i.
Proof.
  intros Hr ? ?. destruct r as [|[[]|]| |]; cbn in *; try done; try lia.
  - destruct Hr. split; [lia|done].
  - destruct Hr as (g & ? & ? & ?). exists g. split_and!; [done..|lia].
  - destruct Hr as (g & ? & ?). exists g. split; [done|lia].
Qed.

Lemma stack_peek_top_done n (st : Stack) :
  (n ≤ length st)%nat → ∃ k, stack_peek_top n st = Done k.
Proof. intros Hn. unfold stack_peek_top. rewrite (proj2 (Nat.leb_le _ _) Hn). by eexists. Qed.

Lemma continue_stepped i g :
  interp_ok self i → gas_ok i g → Z.of_nat (length (stack i)) ≤ stack_limit s → done i = false →
  resume_result i = None →
  stepped (current_gas g) 0
    (if Z.of_nat (length (code i)) <=? position i
     then InterpreterDone (Ok (Known (current_gas g))) else Continue) i.
Proof.
  intros Hok Hgas Hst Hdone Hres. pose proof (go_gas _ _ Hgas). case_if; cbn; [lia|].
  apply Z.leb_gt in Heqb. exists g. split_and!; [|done|lia].
  split; rewrite ?Hres; cbn; try done; lia.
Qed.

(** The gasometer after a result. *)
Definition with_gas (r : InstructionResult) (g : Gasometer) : Gasometer :=
  mkGasometer (current_gas g + result_gas r) (current_mem_gas g).

Lemma run_return_gas r i g (Q : unit → Interpreter → Prop) :
  with_result i g r → Q tt (set_gasometer (Some (with_gas r g)) i) → run ext_inv (return_gas r) i Q.
Proof.
  intros [Hok Hgas Hst Hlast Hdone Hres Hun Htrap Hret] HQ.
  assert (result_gas r = 0 → set_gasometer (Some (with_gas r g)) i = i) as Hsame.
  { intros E. unfold with_gas. rewrite E, Z.add_0_r. destruct Hgas as [Hg _ _ _ _].
    destruct g, i. cbn in *. by subst. }
  destruct r; try (apply run_ret; by rewrite <- Hsame).
  apply run_bind, run_bind, run_get. eapply run_done; [by rewrite (go_gasometer _ _ Hgas)|].
  apply run_bind. cbn in Hun. eapply run_done; [cbn; by rewrite (proj2 (Z.ltb_lt _ _)) by lia|].
  by apply run_modify.
Qed.

Lemma run_trace_state i g (Q : unit → Interpreter → Prop) :
  gas_ok i g → (last_stack_ret_len i ≤ length (stack i))%nat → Q tt i → run ext_inv trace_state i Q.
Proof.
  intros Hgas Hlast HQ. apply run_bind, run_get, run_bind, run_bind, run_get.
  eapply run_done; [by rewrite (go_gasometer _ _ Hgas)|]. case_if; [|by apply run_ret].
  destruct (stack_peek_top_done _ _ Hlast) as [k Hk]. apply run_bind. eapply run_done; [exact Hk|].
  apply run_ext_modify; [intros x; apply law_trace_executed|done].
Qed.

Lemma run_continue i g :
  interp_ok self i → gas_ok i g → Z.of_nat (length (stack i)) ≤ stack_limit s → done i = false →
  resume_result i = None →
  run ext_inv continue i (λ r i', stepped (current_gas g) 0 r i' ∧ ∀ t, r ≠ InterpreterTrap t).
Proof.
  intros. apply run_bind, run_get, run_bind, run_bind, run_get.
  eapply run_done; [by rewrite (go_gasometer i g)|]. apply run_ret.
  split; [by apply continue_stepped|]. by case_if.
Qed.

Lemma run_get_jump_destinations i (Q : BitSet → Interpreter → Prop) :
  (∀ d c, Q d (set_jumps c (Some d) i)) → run ext_inv get_jump_destinations i Q.
Proof.
  intros HQ. apply run_bind, run_get. destruct (valid_jump_destinations i) as [d|] eqn:Hd.
  - apply run_ret. specialize (HQ d (jump_cache i)). destruct i. cbn in *. by subst.
  - destruct (jump_destinations _ _ _) as [d c]. apply run_bind, run_modify, run_ret. done.
Qed.

(** Results that end an execution. *)
Definition stop_result (r : InstructionResult) : bool :=
  match r with StopExecution | StopExecutionNeedsReturn _ _ _ _ => true | _ => false end.

Lemma run_advance r i g least :
  with_result i g r → (stop_result r = false → least = 0) →
  run ext_inv (advance r) i
    (λ res i', stepped (current_gas g + result_gas r) least res i' ∧ ∀ t, res ≠ InterpreterTrap t).
Proof.
  intros Hwr Hleast. apply run_bind. apply (run_return_gas _ _ g); [done|].
  destruct Hwr as [Hok Hgas Hst Hlast Hdone Hres Hun Htrap Hret].
  set (i' := set_gasometer (Some (with_gas r g)) i).
  assert (interp_ok self i') by (by destruct Hok).
  assert (gas_ok i' (with_gas r g)) as Hgas' by (destruct Hgas; split; cbn; try done; lia).
  change (current_gas g + result_gas r) with (current_gas (with_gas r g)).
  apply run_bind. apply (run_trace_state _ (with_gas r g)); [done..|].
  destruct r; cbn in Hleast; try rewrite Hleast by done; try (by apply run_continue).
  - apply run_bind, run_get_jump_destinations. intros d c. apply run_bind, run_lift;
      [|intros e; unfold verify_jump; case_if; by intros [= <-]].
    intros pos Hpos. apply run_bind, run_modify. apply run_continue; try done.
    + split; try apply Hok. cbn. unfold verify_jump in Hpos. case_if; [|done].
      injection Hpos as <-. apply low_u64_bound.
    + destruct Hgas'. by split.
  - destruct (Hret gas init_off init_size apply eq_refl) as (-> & ? & ? & ?).
    apply run_bind, run_get, run_bind, run_modify, run_bind.
    destruct (into_return_data_done (mem i) init_off init_size) as (d & Hd & ?); [apply Hok|done..|].
    eapply run_done; [exact Hd|]. apply run_ret. pose proof (go_gas _ _ Hgas). cbn. by split_and!; try lia.
  - apply run_bind, run_bind, run_get. eapply run_done; [by rewrite (go_gasometer _ _ Hgas')|].
    apply run_ret. pose proof (go_gas _ _ Hgas'). cbn in *. split; [lia|done].
Qed.

(** The least that a step uses: a resumed step gets gas back. *)
Definition least_of (i : Interpreter) : Z := match resume_result i with Some _ => 0 | None => 1 end.

Lemma executed_with_result i g r i' :
  executed i g r i' → done i = false → resume_result i = None → 0 ≤ current_gas g < 2 ^ 64 →
  (∀ t, r ≠ InstrTrap t) → ∃ g', with_result i' g' r ∧ current_gas g' + result_gas r ≤ current_gas g ∧
    (stop_result r = false → current_gas g' + result_gas r < current_gas g).
Proof.
  intros (Hok & Hcode & Hdone & Hres & g' & Hgas & Hle & Hr) Hd Hn Hg Htrap. exists g'.
  destruct r; cbn in *; try by destruct (Htrap trap).
  all: destruct Hr as (? & ? & Hr); split_and?; try lia; split; cbn; try done; try congruence; try lia;
    try (pose proof (go_gas _ _ Hgas); lia); naive_solver.
Qed.

(** What a step leaves, the outside included. *)
Definition stepped_at (limit least : Z) (r : InterpreterResult) (i : Interpreter) (x : X) : Prop :=
  match r with InterpreterDone (Err _) => ext_err x | _ => ext_inv x end ∧
  stepped limit least r i ∧ ∀ t, r = InterpreterTrap t → trap_ok s self t x.

Lemma runx_advance r i g least :
  with_result i g r → (stop_result r = false → least = 0) →
  runx ext_err ext_inv (advance r) i (stepped_at (current_gas g + result_gas r) least).
Proof.
  intros. apply runx_of_run; [|by err]. eapply run_mono; [by apply run_advance|].
  intros res i' [? Ht] x Hx. split; [repeat case_match; (done || by apply law_err)|].
  split; [done|]. intros t ->. by destruct (Ht t).
Qed.

Lemma runx_step_inner i g :
  interpreter_inv i g → code i ≠ [] →
  runx ext_err ext_inv step_inner i (stepped_at (potential i g) (least_of i)).
Proof.
  intros [Hok Hgas Hst Hdone Hpot Hres] Hcode. unfold potential, least_of.
  apply runx_bind; [apply run_get|by err]. destruct (resume_result i) as [r|] eqn:Hr.
  - apply runx_bind; [apply run_bind, run_modify, run_ret|by err].
    assert (with_result (set_resume_result None i) g r) as Hwr.
    { destruct Hok, Hgas. split; cbn; try done; by destruct r. }
    assert (resume_gas (Some r) = result_gas r) as -> by done.
    destruct r; try done; by eapply runx_advance.
  - cbn [resume_gas]. destruct Hres as [|Hpos]; [done|].
    eapply runx_seq; [by apply runx_fetch_and_execute|]. intros r i'. rewrite Z.add_0_r.
    assert ((∃ t, r = InstrTrap t) ∨ ∀ t, r ≠ InstrTrap t) as [[t ->]|Ht]
      by (destruct r; naive_solver).
    + apply runx_ret. intros x (Hx & (_ & _ & _ & _ & g' & _ & _ & ? & Hsus) & Htok).
      split; [done|]. split; [|intros t' [= <-]; by apply Htok].
      exists g'. split; [by apply Hsus|lia].
    + apply (runx_have _ (executed i g r i')); [by intros x (_ & ? & _)|intros Hr'].
      eapply runx_pre; [|by intros x (? & _)].
      destruct (executed_with_result i g r i') as (g' & Hwr & Hle & Hlt); try done; [apply Hgas|].
      assert (runx ext_err ext_inv (advance r) i' (stepped_at (current_gas g) 1)) as Hadv;
        [|destruct r; try exact Hadv; by destruct (Ht trap)].
      eapply runx_mono; [apply (runx_advance r i' g' (if stop_result r then 1 else 0)); [done|]|].
      * by intros ->.
      * intros res i2 x (Hx & Hres2 & Htok). split; [done|]. split; [|done].
        eapply stepped_mono; [done|lia|]. case_if; [lia|].
        specialize (Hlt eq_refl). lia.
Qed.

(** One step of the interpreter does not panic.  It keeps the invariant of the interpreter and
    of the outside; an instruction after which the execution goes on or is suspended has cost
    gas, and no step leaves more gas than there was. *)
Lemma step_safe i g x :
  interpreter_inv i g → ext_inv x → ∃ i' x' r,
  step (i, x) = Done ((i', x'), r) ∧ stepped_at (potential i g) (least_of i) r i' x'.
Proof.
  intros Hinv Hx. unfold step. cbn. rewrite (inv_done _ _ Hinv), (go_gasometer _ _ (inv_gas _ _ Hinv)).
  assert (0 ≤ current_gas g ≤ potential i g).
  { pose proof (go_gas _ _ (inv_gas _ _ Hinv)). pose proof (inv_potential _ _ Hinv).
    unfold potential. lia. }
  destruct (code i) as [|c k] eqn:Hcode.
  { eexists _, x, _. split; [done|]. by split_and!. }
  destruct (runx_step_inner i g Hinv ltac:(by rewrite Hcode) x Hx) as ([i' x'] & r & -> & Hr).
  destruct r as [r|e]; cbn in *; [|destruct Hr; eexists _, x', _; split; [done|]; by split_and!].
  destruct Hr as (Hx' & Hr & Ht).
  destruct r; (eexists _, x', _; split; [done|]; split; [done|]); split; done.
Qed.

(** ** Executions *)

(** How an execution ends that may use [limit] gas. *)
Definition ended (limit : Z) (r : Result (Result GasLeft VmError) TrapKind) (i : Interpreter) : Prop :=
  match r with
  | Ok (Ok (Known gas)) => 0 ≤ gas ≤ limit
  | Ok (Ok (NeedsReturn gas d _)) => 0 ≤ gas ≤ limit ∧ return_data_ok d
  | Ok (Err e) => machine_error e
  | Err t => ∃ g, suspended i g t ∧ current_gas g + trap_gas t < limit
  end.

(** The same, with the outside. *)
Definition ended_at (limit : Z) (r : Result (Result GasLeft VmError) TrapKind) (i : Interpreter)
    (x : X) : Prop :=
  match r with Ok (Err _) => ext_err x | _ => ext_inv x end ∧ ended limit r i ∧ ∀ t, r = Err t → trap_ok s self t x.

Lemma exec_fuel fuel i g x :
  interpreter_inv i g → ext_inv x → potential i g + (1 - least_of i) < Z.of_nat fuel →
  ∃ i' x' r, exec fuel (i, x) = Done ((i', x'), r) ∧ ended_at (potential i g) r i' x'.
Proof.
  revert i g x. induction fuel as [|fuel IH]; intros i g x Hinv Hx Hfuel.
  { pose proof (go_gas _ _ (inv_gas _ _ Hinv)). pose proof (inv_potential _ _ Hinv).
    unfold potential, least_of in *. destruct (resume_result i); lia. }
  destruct (step_safe i g x Hinv Hx) as (i' & x' & r & Hstep & Hx' & Hr & Ht).
  cbn [exec]. rewrite Hstep. cbn [mbind outcome_bind].
  destruct r as [|r| |t]; [done| | |].
  - exists i', x', (Ok r). split; [done|]. split; [done|]. split; [by destruct r as [[]|]|done].
  - destruct Hr as (g' & Hinv' & Hres & Hle).
    assert (potential i' g' = current_gas g') as Hpot by (unfold potential; rewrite Hres; cbn; lia).
    assert (least_of i' = 1) as Hleast by (unfold least_of; by rewrite Hres).
    destruct (IH i' g' x' Hinv' Hx') as (i2 & x2 & r & Hex & Hx2 & Hend & Ht2);
      [rewrite Hleast; lia|].
    exists i2, x2, r. split; [done|]. split; [done|]. split; [|done]. rewrite Hpot in Hend.
    unfold least_of in Hle. destruct r as [[[]|]|]; cbn in *; [case_match; lia| | |].
    + destruct Hend. split; [case_match; lia|done].
    + done.
    + destruct Hend as (g2 & ? & ?). exists g2. split; [done|case_match; lia].
  - exists i', x', (Err t). split; [done|]. split; [done|]. split; [done|].
    intros t' [= <-]. by apply Ht.
Qed.

(** ** Resumptions *)

Ltac never_err :=
  repeat first
    [apply never_err_bind; [|intros]|apply never_err_ret|apply never_err_done|by intros ???
    |match goal with |- never_err (match ?p with _ => _ end) => destruct p end].

Lemma call_returned_never_err o z r : never_err (S := Interpreter * unit) (call_returned o z r).
Proof.
  destruct r; unfold call_returned, copy_output, read_mem, change_mem, push; never_err.
Qed.

Lemma create_returned_never_err r : never_err (S := Interpreter * unit) (create_returned r).
Proof. destruct r; unfold create_returned, push; never_err. Qed.

Lemma resume_inv i g t gas i' res d v m ro :
  suspended i g t → length m = length (mem i) → is_word v → return_data_ok d →
  0 ≤ gas ≤ trap_gas t → match res with InstrOk => True | UnusedGas u => 0 ≤ u ≤ gas | _ => False end →
  i' = set_resume_result (Some res)
         (set_return_data d (set_stack (v :: stack i) (set_mem m (set_resume_output_range ro i)))) →
  interpreter_inv i' g ∧ potential i' g ≤ current_gas g + gas.
Proof.
  intros [[] [] ? ? ? ? ? ?] Hm Hv Hd Hgas Hres ->. split.
  - split; cbn; try done.
    + split; cbn; try done; [by constructor|]. unfold bytes_ok in *. lia.
    + split; cbn; try done; unfold mem_size in *; by rewrite Hm.
    + destruct res; cbn; try done; lia.
    + by destruct res.
  - unfold potential. destruct res; cbn; try done; lia.
Qed.

Lemma su_all i g t : suspended i g t → 0 ≤ trap_gas t ≤ trap_gas t.
Proof. intros Hsus. pose proof (su_trap _ _ _ Hsus). lia. Qed.

Lemma resume_call_safe i g t gas r :
  suspended i g t → is_trap_call t → 0 ≤ gas ≤ trap_gas t → call_result_ok gas r →
  ∃ i', resume_call r i = Done i' ∧ interpreter_inv i' g ∧
        potential i' g ≤ current_gas g + gas.
Proof.
  intros Hsus Ht Hgas Hr. destruct (su_range _ _ _ Hsus Ht) as (o & z & Hro & Ho & Hz & Hc).
  pose proof (su_ok _ _ _ Hsus) as Hok. pose proof (su_trap _ _ _ Hsus).
  pose proof (go_gas _ _ (su_gas _ _ _ Hsus)).
  set (Q := λ (res : InstructionResult) (i1 : Interpreter),
    interpreter_inv (set_resume_result (Some res) i1) g ∧
    potential (set_resume_result (Some res) i1) g ≤ current_gas g + gas).
  assert (run (X := unit) (λ _, True) (call_returned o z r) (set_resume_output_range None i) Q) as Hrun.
  { eapply run_call_returned; [apply Hok|done|done|done|exact Hr|lia|apply Hok|].
    intros m v d res Hm Hv Hd Hres. cbn in Hm.
    by apply (resume_inv i g t gas _ res d v m None). }
  destruct (Hrun tt I) as ([i1 []] & res & Hcall & Hpost). unfold resume_call, resume.
  rewrite Hro. cbn. rewrite Hcall. cbn.
  destruct res as [res|e]; [|by destruct (call_returned_never_err _ _ _ _ _ _ Hcall)].
  eexists. split; [done|]. apply Hpost.
Qed.

Lemma resume_create_safe i g t gas r :
  suspended i g t → 0 ≤ gas ≤ trap_gas t → create_result_ok gas r →
  ∃ i', resume_create r i = Done i' ∧ interpreter_inv i' g ∧
        potential i' g ≤ current_gas g + gas.
Proof.
  intros Hsus Hgas Hr. pose proof (su_ok _ _ _ Hsus) as Hok. pose proof (su_trap _ _ _ Hsus).
  pose proof (go_gas _ _ (su_gas _ _ _ Hsus)).
  set (Q := λ (res : InstructionResult) (i1 : Interpreter),
    interpreter_inv (set_resume_result (Some res) i1) g ∧
    potential (set_resume_result (Some res) i1) g ≤ current_gas g + gas).
  assert (run (X := unit) (λ _, True) (create_returned r) i Q) as Hrun.
  { eapply run_create_returned; [exact Hr|lia|apply Hok|]. intros v d res Hv Hd Hres.
    by apply (resume_inv i g t gas _ res d v (mem i) (resume_output_range i)). }
  destruct (Hrun tt I) as ([i1 []] & res & Hcall & Hpost). unfold resume_create, resume.
  rewrite Hcall. cbn. destruct res as [res|e]; [|by destruct (create_returned_never_err _ _ _ _ Hcall)].
  eexists. split; [done|]. apply Hpost.
Qed.

(** ** The start *)

Lemma interpreter_params_ok p :
  action_params_ok p → ap_address p = self → params_ok self (interpreter_params p).
Proof. intros [] Hself. by split. Qed.

Lemma interpreter_new_inv p cache :
  action_params_ok p → ap_address p = self → is_Some (ap_code p) →
  ∃ i g, interpreter_new p cache = Done i ∧ interpreter_inv i g ∧ potential i g = ap_gas p.
Proof.
  intros Hp Hself [c Hcode]. pose proof (interpreter_params_ok p Hp Hself). destruct Hp as [? ? ? ? ? ? ? Hc Hg].
  unfold interpreter_new. rewrite Hcode. rewrite Hcode in Hc.
  cbn -[gasometer_new]. rewrite low_u64_small, Z.eqb_refl by done. cbn.
  eexists _, (gasometer_new (ap_gas p)). split; [done|]. split; [|unfold potential; cbn; lia].
  pose proof (so_stack_limit _ Hs).
  split; cbn; try done; try lia. destruct c; [by left|right]. cbn. lia.
Qed.
End Run.
