(* ===== verification/EvmExample.v ===== *)
(** * An outside of the interpreter, and executions in it

    It has the storage of one account, and lets every call and creation trap. *)

From S2P Require Import Prelude Hash Transaction Account Instructions Schedule EvmWord Vm.
From S2P Require Import EvmMemory Gasometer Evm VmLaws.

Local Open Scope Z_scope.

Record ExampleExt := mkExampleExt {
  ex_storage : gmap H256 H256;
  ex_refund : Z;
}.

Definition example_params : CommonParams :=
  mkCommonParams 1 0 0 0 0 0 0 0 0 (2 ^ 63) (replicate 20 "000"%byte) 1000000 0 0 0 0 0 (2 ^ 63) 0 0 0 0 0 0 0
    (2 ^ 63) false (2 ^ 63) None (2 ^ 63) (2 ^ 63) 24576 0.

Definition example_schedule : Schedule := params_schedule example_params 1.

Definition example_action (gas : Z) (code : list byte) : ActionParams :=
  mkActionParams (replicate 20 "000"%byte) None (replicate 20 "000"%byte) (replicate 20 "000"%byte)
    (replicate 20 "000"%byte) gas 0 (Transfer 0) (Some code) 0 None CT_Call Separate.

Definition example_ext : Ext ExampleExt := {|
  ext_initial_storage_at k := mret h256_default;
  ext_storage_at k := xm_ask (λ x, default h256_default (ex_storage x !! k));
  ext_set_storage k v := λ x, Done (mkExampleExt (<[k := v]> (ex_storage x)) (ex_refund x), Ok tt);
  ext_exists a := mret true;
  ext_exists_and_not_null a := mret true;
  ext_origin_balance := mret 0;
  ext_balance a := mret 0;
  ext_blockhash n x := Done (x, h256_default);
  ext_create gas v c ver a t x := Done (x, Err (TrapCreate (example_action gas c) (replicate 20 "000"%byte)));
  ext_call gas a b v d c t trap x := Done (x, Err (TrapCall (example_action gas [])));
  ext_extcode a := mret None;
  ext_extcodehash a := mret None;
  ext_extcodesize a := mret None;
  ext_log topics data := mret tt;
  ext_ret gas d apply := mret gas;
  ext_suicide a := mret tt;
  ext_schedule x := example_schedule;
  ext_env_info x := env_info_default;
  ext_chain_id x := 1;
  ext_depth x := 0;
  ext_add_sstore_refund v x := mkExampleExt (ex_storage x) (ex_refund x + v);
  ext_sub_sstore_refund v x := mkExampleExt (ex_storage x) (ex_refund x - v);
  ext_trace_next_instruction pc op gas x := (x, false);
  ext_trace_prepare_execute pc op gas mw sw x := x;
  ext_trace_failed x := x;
  ext_trace_executed gas words m x := x;
  ext_is_static x := false;
|}.

#[local] Existing Instance example_ext.
Definition example_laws : ExtLaws ExampleExt example_schedule (replicate 20 "000"%byte).
Proof.
  refine {| ext_inv x := True; ext_err x := True; ext_funds x a v := True;
            ext_ready x t := True |}; try done.
  all: try (intros; intros x Hx; eexists _, (Ok _); (split; [reflexivity|]); cbn;
            unfold is_word, bytes_ok; cbn; (split; [done|]); (done || lia)).
  - intros k v x Hx _ _. eapply wp_mono;
      [apply (sstore_keeps example_schedule (λ _, True)); [apply params_schedule_ok|done..| | | |done]
      |done|done]; intros y _; by eexists _, (Ok _).
  - intros a x Hx. exists x, (Ok 0). by unfold is_word.
  - intros n x Hx _. by eexists _, _.
  - intros gas v c ver a x _ Hg _ _ Hc. eexists _, (Err _). split; [reflexivity|].
    by split_and!.
  - intros gas a b v d c t x _ Hg _ _ _ _ _ _. eexists _, (Err _). split; [reflexivity|].
    by split_and!.
Defined.

#[local] Existing Instance example_keccak.
Definition example_jump_lru : LruCache H256 BitSet := example_lru H256 BitSet.
Definition example_jump_laws : LruLaws H256 BitSet (LruCache0 := example_jump_lru) := example_lru_laws H256 BitSet.
#[local] Existing Instances example_jump_lru usize_cost.

Definition example_outside : ExampleExt := mkExampleExt ∅ 0.
Definition example_self : Address := replicate 20 "000"%byte.

(** [PUSH1 2; PUSH1 3; ADD]. *)
Definition example_code : list byte := ["096"; "002"; "096"; "003"; "001"]%byte.

Lemma example_action_ok gas code :
  0 ≤ gas < 2 ^ 64 → bytes_ok code → action_params_ok (example_action gas code).
Proof. by split. Qed.

Definition example_start (gas : Z) (code : list byte) : Interpreter :=
  mkInterpreter [] (lru_new 0) (interpreter_params (example_action gas code)) 0 code
    return_data_empty true false None (Some (gasometer_new gas)) [] None None 0.

(** The interpreter after one step. *)
Definition example_next (i : Interpreter) : Interpreter :=
  match step (i, example_outside) with Done ((i', _), _) => i' | Panic => i end.
