(* ===== verification/EvmTheorems.v ===== *)
(** * Theorems on the interpreter

    An execution that counts its gas in a [usize] ends without a panic, also after the calls
    and creations for which it is suspended, and the states it goes through are well typed. *)

From S2P Require Import Prelude Hash Transaction Account Instructions Schedule EvmWord Vm.
From S2P Require Import EvmMemory Gasometer Evm EvmReference VmLaws EvmLaws EvmSafety EvmRun.
From S2P Require Import EvmExample.

Local Open Scope Z_scope.

Section Executions.
Context `{Keccak} `{!LruCache H256 BitSet} {X : Type} (s : Schedule) (self : Address) `{!Ext X}.
Context `{!ExtLaws X s self}.
Implicit Types i : Interpreter.

#[local] Existing Instance usize_cost.

(** ** Executions with their calls and creations *)

Inductive Status :=
| Running (i : Interpreter) (x : X)
| Waiting (t : TrapKind) (i : Interpreter) (x : X)
| Finished (r : Result GasLeft VmError) (i : Interpreter) (x : X).

(** A step of the interpreter, or the end of the call or creation for which it waits.  The
    latter leaves the outside as it likes, within its invariant. *)
Inductive status_step : Status → Status → Prop :=
| step_continue i x i' x' :
    step (i, x) = Done ((i', x'), Continue) → status_step (Running i x) (Running i' x')
| step_done i x i' x' r :
    step (i, x) = Done ((i', x'), InterpreterDone r) →
    status_step (Running i x) (Finished r i' x')
| step_trap i x i' x' t :
    step (i, x) = Done ((i', x'), InterpreterTrap t) →
    status_step (Running i x) (Waiting t i' x')
| step_call_returns t i x r i' x' :
    is_trap_call t → call_result_ok (trap_gas t) r → ext_inv x' → resume_call r i = Done i' →
    status_step (Waiting t i x) (Running i' x')
| step_create_returns t i x r i' x' :
    is_trap_create t → create_result_ok (trap_gas t) r → ext_inv x' → resume_create r i = Done i' →
    status_step (Waiting t i x) (Running i' x').

(** What the parameters [p] start, with any cache of jump destinations. *)
Inductive status_reachable (p : ActionParams) : Status → Prop :=
| reachable_start cache i x :
    interpreter_new p cache = Done i → ext_inv x → status_reachable p (Running i x)
| reachable_step st st' :
    status_reachable p st → status_step st st' → status_reachable p st'.

Definition status_inv (limit : Z) (st : Status) : Prop :=
  match st with
  | Running i x =>
      ext_inv x ∧ ∃ g, interpreter_inv s self i g ∧ potential i g ≤ limit
  | Waiting t i x =>
      ext_inv x ∧ trap_ok s self t x ∧ ∃ g, suspended s self i g t ∧ current_gas g + trap_gas t ≤ limit
  | Finished r i x =>
      match r with
      | Ok (Known gas) => ext_inv x ∧ 0 ≤ gas ≤ limit
      | Ok (NeedsReturn gas d _) => ext_inv x ∧ 0 ≤ gas ≤ limit ∧ return_data_ok d
      | Err e => ext_err x ∧ machine_error e
      end
  end.

Context (Hs : schedule_ok s) (p : ActionParams).
Context (Hp : action_params_ok p) (Hself : ap_address p = self) (Hcode : is_Some (ap_code p)).

Lemma status_reachable_inv st : status_reachable p st → status_inv (ap_gas p) st.
Proof.
  induction 1 as [cache i x Hnew Hx|st st' _ IH Hst].
  { split; [done|]. destruct (interpreter_new_inv s self Hs p cache) as (i' & g & Hi & Hinv & Hpot);
      [done..|].
    rewrite Hnew in Hi. injection Hi as <-. exists g. split; [done|lia]. }
  destruct Hst as [i x i' x' E|i x i' x' r E|i x i' x' t E|t i x r i' x' Ht Hr Hx' E
                  |t i x r i' x' Ht Hr Hx' E].
  1, 2, 3: destruct IH as (Hx & g & Hinv & Hle);
    destruct (step_safe s self Hs i g x Hinv Hx) as (i2 & x2 & r2 & E2 & Hx2 & Hr2 & Ht2);
    rewrite E in E2; injection E2 as <- <- <-.
  - split; [done|]. destruct Hr2 as (g' & Hinv' & Hres & Hle'). exists g'. split; [done|].
    assert (0 ≤ least_of i) by (unfold least_of; destruct (resume_result i); lia).
    assert (potential i' g' = current_gas g') as -> by (unfold potential; rewrite Hres; cbn; lia). lia.
  - destruct r as [[gas|gas d a]|]; cbn [stepped] in Hr2; cbn;
      [split; [done|lia]|split_and!; [done|lia|lia|apply Hr2]|done].
  - split; [done|]. split; [by apply Ht2|]. destruct Hr2 as (g' & Hsus & Hlt). exists g'. split; [done|lia].
  - destruct IH as (Hx & Htok & g & Hsus & Hle).
    destruct (resume_call_safe s self i g t _ r Hsus Ht (su_all _ _ _ _ _ Hsus) Hr) as (i2 & E2 & Hinv & Hpot).
    rewrite E in E2. injection E2 as <-. split; [done|]. exists g. split; [done|lia].
  - destruct IH as (Hx & Htok & g & Hsus & Hle).
    destruct (resume_create_safe s self i g t _ r Hsus (su_all _ _ _ _ _ Hsus) Hr) as (i2 & E2 & Hinv & Hpot).
    rewrite E in E2. injection E2 as <-. split; [done|]. exists g. split; [done|lia].
Qed.

(** What is left of an execution. *)
Definition status_measure (st : Status) : Z :=
  match st with
  | Running i _ =>
      match gasometer i with
      | Some g => 3 * potential i g + (match resume_result i with Some _ => 2 | None => 1 end)
      | None => 0
      end
  | Waiting t i _ =>
      match gasometer i with Some g => 3 * (current_gas g + trap_gas t) + 3 | None => 0 end
  | Finished _ _ _ => 0
  end.

Lemma running_measure i x g :
  interpreter_inv s self i g →
  status_measure (Running i x) = 3 * potential i g + 2 - least_of i ∧ 0 ≤ potential i g.
Proof.
  intros Hinv. pose proof (inv_potential _ _ _ _ Hinv) as Hpot. pose proof (inv_gas _ _ _ _ Hinv) as Hg.
  cbn -[Z.mul]. rewrite (go_gasometer _ _ _ Hg). pose proof (go_gas _ _ _ Hg).
  unfold least_of, potential in *. case_match; lia.
Qed.

Lemma waiting_measure t i x g :
  suspended s self i g t →
  status_measure (Waiting t i x) = 3 * (current_gas g + trap_gas t) + 3.
Proof. intros Hsus. cbn -[Z.mul]. by rewrite (go_gasometer _ _ _ (su_gas _ _ _ _ _ Hsus)). Qed.

Lemma status_measure_step st st' :
  status_reachable p st → status_step st st' → 0 ≤ status_measure st' < status_measure st.
Proof.
  intros Hr Hst. apply status_reachable_inv in Hr as IH.
  destruct Hst as [i x i' x' E|i x i' x' r E|i x i' x' t E|t i x r i' x' Ht Hr' Hx' E
                  |t i x r i' x' Ht Hr' Hx' E].
  1, 2, 3: destruct IH as (Hx & g & Hinv & Hle);
    destruct (step_safe s self Hs i g x Hinv Hx) as (i2 & x2 & r2 & E2 & Hx2 & Hr2 & Ht2);
    rewrite E in E2; injection E2 as <- <- <-;
    destruct (running_measure i x g Hinv) as [-> ?];
    assert (0 ≤ least_of i ≤ 1) by (unfold least_of; destruct (resume_result i); lia).
  - destruct Hr2 as (g' & Hinv' & Hres & Hle'). destruct (running_measure i' x' g' Hinv') as [-> ?].
    assert (potential i' g' = current_gas g') as Hpot by (unfold potential; rewrite Hres; cbn; lia).
    assert (least_of i' = 1) by (unfold least_of; by rewrite Hres). lia.
  - cbn. lia.
  - destruct Hr2 as (g' & Hsus & Hlt). rewrite (waiting_measure t i' x' g' Hsus).
    pose proof (su_trap _ _ _ _ _ Hsus). pose proof (go_gas _ _ _ (su_gas _ _ _ _ _ Hsus)). lia.
  - destruct IH as (Hx & Htok & g & Hsus & Hle). rewrite (waiting_measure t i x g Hsus).
    destruct (resume_call_safe s self i g t _ r Hsus Ht (su_all _ _ _ _ _ Hsus) Hr') as (i2 & E2 & Hinv & Hpot).
    rewrite E in E2. injection E2 as <-. destruct (running_measure i' x' g Hinv) as [-> ?].
    assert (0 ≤ least_of i' ≤ 1) by (unfold least_of; destruct (resume_result i'); lia). lia.
  - destruct IH as (Hx & Htok & g & Hsus & Hle). rewrite (waiting_measure t i x g Hsus).
    destruct (resume_create_safe s self i g t _ r Hsus (su_all _ _ _ _ _ Hsus) Hr') as (i2 & E2 & Hinv & Hpot).
    rewrite E in E2. injection E2 as <-. destruct (running_measure i' x' g Hinv) as [-> ?].
    assert (0 ≤ least_of i' ≤ 1) by (unfold least_of; destruct (resume_result i'); lia). lia.
Qed.

(** C25: The interpreter stays well typed.  In every state that an execution goes through, also
    after the calls and creations it waits for, its stack has at most as many words as the
    schedule allows, each of them 256 bits wide; its memory is made of words and paid for; and
    it has at most the gas it was started with. *)
Theorem interpreter_well_typed i x :
  status_reachable p (Running i x) →
  Forall is_word (stack i) ∧ Z.of_nat (length (stack i)) ≤ stack_limit s ∧
  mem_size (mem i) `mod` 32 = 0 ∧ mem_size (mem i) < 2 ^ 64 ∧
  ∃ g, gasometer i = Some g ∧ 0 ≤ current_gas g ≤ ap_gas p ∧
       current_mem_gas g = mem_fee s (mem_size (mem i)).
Proof.
  intros (_ & g & [Hok Hgas Hst _ Hpot _] & Hle)%status_reachable_inv. destruct Hgas.
  split_and!; [apply Hok|done..|apply Hok|]. exists g. split_and!; try done; [lia|].
  unfold potential in Hle. lia.
Qed.

(** C23: Every execution of the interpreter that counts gas in a [usize], so of one that is given
    less than [2 ^ 64] gas, ends, and none panics; with the wider counter of larger amounts an
    access to memory can panic.  From a state that an execution goes through
    there is no infinite sequence of steps, whatever the results of its calls and creations;
    and unless it is finished there is a next step: the interpreter steps, or is resumed with
    any result that respects the gas it has given away. *)
Theorem interpreter_terminates st :
  status_reachable p st →
  Acc (flip status_step) st ∧
  match st with
  | Running _ _ => ∃ st', status_step st st'
  | Waiting t i x =>
      (is_trap_call t ∧ ∀ r, call_result_ok (trap_gas t) r → is_done (resume_call r i)) ∨
      (is_trap_create t ∧ ∀ r, create_result_ok (trap_gas t) r → is_done (resume_create r i))
  | Finished r _ _ => True
  end.
Proof.
  intros Hr. split.
  - remember (Z.to_nat (status_measure st)) as n eqn:Hn. revert st Hr Hn.
    induction (lt_wf n) as [n _ IH]. intros st Hr ->. constructor. intros st' Hst.
    pose proof (status_measure_step st st' Hr Hst).
    eapply IH; [|by eapply reachable_step|done]. lia.
  - apply status_reachable_inv in Hr. destruct st as [i x|t i x|]; [| |done].
    + destruct Hr as (Hx & g & Hinv & _).
      destruct (step_safe s self Hs i g x Hinv Hx) as (i' & x' & r & E & _ & Hr & _).
      destruct r; [done| | |]; eexists; by constructor.
    + destruct Hr as (Hx & Htok & g & Hsus & _). destruct (tok_kind _ _ _ _ Htok) as [Ht|Ht].
      * left. split; [done|]. intros r Hr.
        destruct (resume_call_safe s self i g t _ r Hsus Ht (su_all _ _ _ _ _ Hsus) Hr) as (i2 & -> & _). by exists i2.
      * right. split; [done|]. intros r Hr.
        destruct (resume_create_safe s self i g t _ r Hsus (su_all _ _ _ _ _ Hsus) Hr) as (i2 & -> & _). by exists i2.
Qed.

(** C24: [exec] returns, for the interpreter that counts gas in a [usize] and so is given less
    than [2 ^ 64] gas.  Given more fuel than gas, the interpreter of parameters with code runs
    to its end or to a call or creation, without a panic; it leaves no more gas than it was
    given, and a call or creation for which it stops has well formed parameters and at most the
    gas that is left, and the outside is ready for it. *)
Theorem interpreter_exec_returns cache x fuel :
  ext_inv x → ap_gas p < Z.of_nat fuel →
  ∃ i i' x' r, interpreter_new p cache = Done i ∧ exec fuel (i, x) = Done ((i', x'), r) ∧
    match r with
    | Ok (Ok (Known gas)) => ext_inv x' ∧ 0 ≤ gas ≤ ap_gas p
    | Ok (Ok (NeedsReturn gas d _)) => ext_inv x' ∧ 0 ≤ gas ≤ ap_gas p ∧ return_data_ok d
    | Ok (Err e) => ext_err x' ∧ machine_error e
    | Err t => ext_inv x' ∧ trap_ok s self t x' ∧
        ∃ g, gasometer i' = Some g ∧ 0 ≤ trap_gas t ∧ current_gas g + trap_gas t < ap_gas p
    end.
Proof.
  intros Hx Hfuel.
  destruct (interpreter_new_inv s self Hs p cache) as (i & g & Hi & Hinv & Hpot); [done..|].
  destruct (exec_fuel s self Hs fuel i g x Hinv Hx) as (i' & x' & r & Hex & Hx' & Hend & Ht).
  { assert (least_of i = 1); [|lia]. unfold interpreter_new in Hi.
    destruct Hcode as [c Hc]. rewrite Hc in Hi. cbn -[gasometer_new] in Hi.
    repeat case_match; simplify_eq; done. }
  exists i, i', x', r. split_and!; [done..|]. rewrite Hpot in Hend.
  destruct r as [[[]|]|t]; try done. split; [done|]. split; [by apply Ht|].
  destruct Hend as (g' & Hsus & Hlt). exists g'. pose proof (su_trap _ _ _ _ _ Hsus).
  split_and!; [apply (su_gas _ _ _ _ _ Hsus)|lia..].
Qed.
End Executions.

(** ** Examples *)

#[local] Existing Instances example_keccak example_jump_lru example_ext example_laws usize_cost.

Lemma example_running :
  status_reachable example_schedule example_self (example_action 100 example_code)
    (Running (example_next (example_start 100 example_code)) example_outside).
Proof.
  eapply reachable_step.
  { apply (reachable_start _ _ _ (lru_new 0) (example_start 100 example_code) example_outside);
      [reflexivity|exact I]. }
  apply step_continue.
  vm_cast_no_check (eq_refl (step (example_start 100 example_code, example_outside))).
Qed.

Lemma interpreter_well_typed_witness :
  Z.of_nat (length (stack (example_next (example_start 100 example_code)))) ≤
    stack_limit example_schedule.
Proof.
  refine (proj1 (proj2 (interpreter_well_typed example_schedule example_self
    (params_schedule_ok _ _) (example_action 100 example_code) _ eq_refl _ _ example_outside
    example_running))).
  - by apply example_action_ok.
  - by eexists.
Defined.

Lemma interpreter_terminates_witness :
  Acc (flip (status_step example_schedule example_self))
    (Running (example_next (example_start 100 example_code)) example_outside).
Proof.
  refine (proj1 (interpreter_terminates example_schedule example_self
    (params_schedule_ok _ _) (example_action 100 example_code) _ eq_refl _ _ example_running)).
  - by apply example_action_ok.
  - by eexists.
Defined.

Lemma interpreter_exec_returns_witness :
  ∃ i i' x' r, interpreter_new (example_action 100 example_code) (lru_new 0) = Done i ∧
    exec 101 (i, example_outside) = Done ((i', x'), r).
Proof.
  destruct (interpreter_exec_returns example_schedule example_self
    (params_schedule_ok _ _) (example_action 100 example_code)
    ltac:(by apply example_action_ok) eq_refl ltac:(by eexists) (lru_new 0) example_outside 101)
    as (i & i' & x' & r & Hi & He & _); [exact I|reflexivity|].
  exists i, i', x', r. exact (conj Hi He).
Defined.
