(* ===== verification/EvmBehaviour.v ===== *)
(** * What the interpreter computes

    One step on an arithmetic instruction against the integers, jumps against the boundaries of
    the code, copies against the bytes of their source, and the interpreter that counts gas in
    a [U256] against requests for memory; then the price of writes to the storage. *)

From S2P Require Import Prelude Hash Transaction Account Instructions Schedule EvmWord Vm.
From S2P Require Import EvmMemory Gasometer Evm EvmReference VmLaws EvmLaws EvmSafety EvmRun.
From S2P Require Import EvmExample.

Local Open Scope Z_scope.

(** ** Arithmetic *)

Section Arithmetic.
Context `{Keccak} `{!LruCache H256 BitSet} {X : Type} `{!Ext X} (s : Schedule) (self : Address).
Context (Hs : schedule_ok s).
Implicit Types i : Interpreter.

#[local] Existing Instance usize_cost.

(** The price of an instruction of [alu]. *)
Definition alu_price (instruction : Instruction) (info : InstructionInfo) (args : list Z) : Z :=
  match instruction with
  | EXP => exp_gas s + exp_byte_gas s * ((u256_bits (nth 1 args 0) + 7) / 8)
  | _ => default 0 (tier_step_gas s !! tier_idx (info_tier info))
  end.

(** The interpreter after such an instruction. *)
Definition computed (price v : Z) (st : Stack) (g : Gasometer) (i : Interpreter) : Interpreter :=
  set_stack (v :: st)
    (set_gasometer (Some (mkGasometer (current_gas g - price) (current_mem_gas g)))
       (set_last_stack_ret_len 1 (set_position (position i + 1) i))).

Lemma alu_requirements instruction info args st v n g (x : X) :
  ext_schedule x = s → INSTRUCTIONS instruction = Some info → alu instruction args = Some v →
  Forall is_word args →
  requirements instruction info (args ++ st) n g x =
    Done (x, Ok (mkRequirements (alu_price instruction info args) None (current_mem_gas g) 0)).
Proof.
  intros Hx Hinfo Hv Hw. unfold requirements.
  rewrite (xm_bind_ok _ _ _ x s) by (unfold xm_ask; by rewrite Hx).
  rewrite (xm_bind_ok _ _ _ x (default 0 (tier_step_gas s !! tier_idx (info_tier info)))).
  2: { unfold xm_done. rewrite (so_tiers _ Hs). by destruct (info_tier info). }
  rewrite (xm_bind_ok _ _ _ x (RequestGas (alu_price instruction info args))); [done|].
  destruct instruction; try discriminate Hv; try reflexivity.
  destruct args as [|a [|b [|? ?]]]; try discriminate Hv. apply Forall_cons in Hw as [_ [Hb _]%Forall_cons].
  pose proof (exp_bytes b Hb). pose proof (so_exp _ Hs) as [? ?]. unfold price in *. cbn [request].
  assert (0 ≤ exp_byte_gas s * ((u256_bits b + 7) / 8) < 2 ^ 32) by nia.
  rewrite (xm_bind_ok _ _ _ x b) by done.
  rewrite (xm_bind_ok _ _ _ x (exp_byte_gas s * ((u256_bits b + 7) / 8)))
    by (unfold xm_done, usize_mul; by rewrite (proj2 (Z.ltb_lt _ _)) by lia).
  rewrite (xm_bind_ok _ _ _ x (exp_gas s + exp_byte_gas s * ((u256_bits b + 7) / 8))); [done|].
  unfold xm_done, usize_add. by rewrite (proj2 (Z.ltb_lt _ _)) by lia.
Qed.

Lemma alu_fetch instruction info op i g (x : X) :
  ext_schedule x = s → do_trace i = false → gasometer i = Some g →
  code i !! Z.to_nat (position i) = Some op → from_u8 op = Some instruction →
  INSTRUCTIONS instruction = Some info → unavailable s instruction = false →
  (info_args info ≤ length (stack i))%nat →
  Z.of_nat (length (stack i)) - Z.of_nat (info_args info) + Z.of_nat (info_ret info) ≤ stack_limit s →
  fetch (i, x) = Done ((set_last_stack_ret_len (info_ret info) (set_position (position i + 1) i), x),
                       Ok (op, instruction, info, g)).
Proof.
  intros Hx Htrace Hg Hop Hi Hinfo Hav Hargs Hlim. unfold fetch, get_gasometer, verify_instruction.
  erewrite xm_bind_ok by reflexivity. cbn beta iota. cbn [fst].
  erewrite xm_bind_ok by (unfold xm_done; rewrite Hop; reflexivity).
  erewrite xm_bind_ok by reflexivity.
  erewrite xm_bind_ok.
  2: { erewrite xm_bind_ok by reflexivity. cbn. unfold xm_done. rewrite Hg. reflexivity. }
  rewrite Htrace. erewrite xm_bind_ok by reflexivity.
  erewrite xm_bind_ok by (rewrite Hi; reflexivity).
  erewrite xm_bind_ok by (unfold xm_done, Instructions.info; rewrite Hinfo; reflexivity).
  erewrite xm_bind_ok by reflexivity. erewrite xm_bind_ok; [reflexivity|].
  erewrite xm_bind_ok by (unfold vm_schedule; cbn; rewrite Hx; reflexivity). rewrite Hav.
  erewrite xm_bind_ok by reflexivity. unfold stack_has, stack_size. cbn [stack set_last_stack_ret_len set_position fst].
  by rewrite (proj2 (Nat.leb_le _ _) Hargs), (proj2 (Z.ltb_ge _ _) Hlim).
Qed.

(** C26: An arithmetic, comparison, bitwise or shift instruction computes what the integers
    say.  A step on it, with enough gas, replaces its arguments by the word that the reference
    semantics [alu] gives, takes the price of its tier (for an exponentiation the price per byte
    of the exponent) and leaves the memory and the outside alone. *)
Theorem arithmetic_step i g x op instruction info args st v :
  interpreter_inv s self i g → resume_result i = None → do_trace i = false → ext_schedule x = s →
  code i !! Z.to_nat (position i) = Some op → from_u8 op = Some instruction →
  INSTRUCTIONS instruction = Some info → unavailable s instruction = false →
  alu instruction args = Some v → stack i = args ++ st →
  let price := alu_price instruction info args in
  let i' := computed price v st g i in
  price ≤ current_gas g →
  step (i, x) =
    if Z.of_nat (length (code i)) <=? position i + 1
    then Done ((set_done true i', x), InterpreterDone (Ok (Known (current_gas g - price))))
    else Done ((i', x), Continue).
Proof.
  intros Hinv Hres Htrace Hx Hop Hi Hinfo Hav Hv Hst price i' Hle.
  destruct Hinv as [[Hw _ _ _ _ _] [Hg _ _ _ _] Hlim Hdone _ _].
  assert (Forall is_word args) as Hwa by (rewrite Hst in Hw; by apply Forall_app in Hw as [? _]).
  assert (length args = info_args info ∧ (1 ≤ info_args info)%nat ∧ info_ret info = 1%nat)
    as (Hlen & Hpos & Hret).
  { destruct instruction; try discriminate Hv; injection Hinfo as <-;
      (destruct args as [|? [|? [|? [|? ?]]]]; try discriminate Hv);
      cbn; split_and!; (done || lia). }
  assert (length (stack i) = info_args info + length st)%nat as Hsize
    by (by rewrite Hst, length_app, Hlen).
  unfold step. cbn [fst]. rewrite Hdone, Hg. destruct (code i) as [|c k] eqn:Hcode; [done|].
  rewrite <- Hcode in *. unfold step_inner. erewrite xm_bind_ok by reflexivity. cbn [fst]. rewrite Hres.
  assert (fetch_and_execute (i, x) = Done ((i', x), Ok InstrOk)) as Hexec.
  { unfold fetch_and_execute. erewrite xm_bind_ok; [|apply alu_fetch; try done; lia].
    unfold pay_and_execute. erewrite xm_bind_ok by reflexivity.
    cbn [fst stack mem do_trace set_last_stack_ret_len set_position].
    erewrite xm_bind_ok; [|unfold vm_ext; cbn [snd]; rewrite Hst;
                           rewrite (alu_requirements _ _ _ _ v) by done; reflexivity].
    rewrite Htrace. erewrite xm_bind_ok by reflexivity. fold price.
    cbn [gas_cost memory_required_size provide_gas].
    erewrite xm_bind_ok.
    2: { unfold traced, xm_lift, verify_gas. by rewrite (proj2 (Z.ltb_ge _ _) Hle). }
    erewrite xm_bind_ok by reflexivity.
    erewrite xm_bind_ok by (unfold xm_done; cbn; by rewrite (proj2 (Z.leb_le _ _) Hle)).
    erewrite xm_bind_ok by reflexivity. unfold traced.
    erewrite exec_alu by done. unfold i', computed, expand.
    rewrite Hret, (proj2 (Z.ltb_ge _ _)) by (unfold mem_size; lia). by destruct i. }
  erewrite xm_bind_ok by exact Hexec. unfold advance.
  erewrite xm_bind_ok by reflexivity. erewrite xm_bind_ok.
  2: { unfold trace_state. erewrite xm_bind_ok by reflexivity. erewrite xm_bind_ok by reflexivity.
       cbn. by rewrite Htrace. }
  unfold continue. erewrite xm_bind_ok by reflexivity. erewrite xm_bind_ok by reflexivity.
  cbn. by case_if.
Qed.
End Arithmetic.

(** ** Jumps *)

Section Jumps.
Context `{Keccak} `{!LruCache H256 BitSet} `{!LruLaws H256 BitSet} {X : Type} `{!Ext X}.
Implicit Types i : Interpreter.

#[local] Existing Instance usize_cost.

(** The codes that are executed; no two of them have the same hash. *)
Variable codes : list (list byte).
Hypothesis no_collision : ∀ c1 c2, c1 ∈ codes → c2 ∈ codes → keccak c1 = keccak c2 → c1 = c2.

(** The destinations that the interpreter has, or finds in the shared cache, are those of its
    code. *)
Record jumps_ok (i : Interpreter) : Prop := {
  jo_code : code i ∈ codes;
  jo_length : bytes_ok (code i);
  jo_hash : ip_code_hash (params i) = None ∨ ip_code_hash (params i) = Some (keccak (code i));
  jo_cache : cache_ok codes (jump_cache i);
  jo_found d : valid_jump_destinations i = Some d → d = find_jump_destinations (code i);
}.

Lemma get_jump_destinations_spec i (x : X) :
  jumps_ok i →
  ∃ c, get_jump_destinations (i, x) =
    Done ((set_jumps c (Some (find_jump_destinations (code i))) i, x),
          Ok (find_jump_destinations (code i))) ∧ cache_ok codes c.
Proof.
  intros []. unfold get_jump_destinations. erewrite xm_bind_ok by reflexivity. cbn [fst].
  destruct (valid_jump_destinations i) as [d|] eqn:Hd.
  - rewrite (jo_found0 d eq_refl) in *. exists (jump_cache i). split; [|done]. destruct i.
    cbn in *. by rewrite Hd.
  - destruct (jump_destinations_ok codes no_collision (ip_code_hash (params i)) (code i) (jump_cache i))
      as [Hj Hc]; [done..|].
    destruct (jump_destinations _ _ _) as [d c]. cbn in Hj, Hc. subst d. by exists c.
Qed.

(** A position at which the code can be entered. *)
Definition destination (code : list byte) (p : Z) : Prop :=
  ∃ n, p = Z.of_nat n ∧ boundary code n ∧ is_jumpdest code n.

(** C27: Jumps go to the jump destinations of the code and nowhere else.  If an instruction asks
    for a jump to a [JUMPDEST] at the beginning of an instruction of the code, not inside the
    data of a push, the execution goes on there; for every other word it fails with a bad jump
    destination.  This is so whether the destinations were found before, come from the cache
    that executions share, or are found now; and the cache stays right. *)
Theorem jump_exact i g p (x : X) :
  jumps_ok i → gasometer i = Some g → do_trace i = false → is_word p →
  ∃ i', jumps_ok i' ∧ code i' = code i ∧ stack i' = stack i ∧ mem i' = mem i ∧
    gasometer i' = Some g ∧
    ((destination (code i) p ∧ position i' = p ∧
      advance (JumpToPosition p) (i, x) = Done ((i', x), Ok Continue)) ∨
     (¬ destination (code i) p ∧
      advance (JumpToPosition p) (i, x) = Done ((i', x), Err (BadJumpDestination (low_u64 p))))).
Proof.
  intros Hj Hg Htrace Hp. destruct (get_jump_destinations_spec i x Hj) as (c & Hget & Hc).
  set (d := find_jump_destinations (code i)) in *. set (i1 := set_jumps c (Some d) i) in *.
  assert (advance (JumpToPosition p) (i, x) =
    (pos ← xm_lift (verify_jump p d); _ ← vm_modify (set_position pos); continue) (i1, x)) as ->.
  { unfold advance. erewrite xm_bind_ok by reflexivity. erewrite xm_bind_ok.
    2: { unfold trace_state. erewrite xm_bind_ok by reflexivity. erewrite xm_bind_ok.
         2: { unfold get_gasometer. erewrite xm_bind_ok by reflexivity. cbn. unfold xm_done.
              by rewrite Hg. }
         cbn. by rewrite Htrace. }
    erewrite xm_bind_ok by exact Hget. done. }
  assert (∀ pos, jumps_ok (set_position pos i1)) as Hok.
  { destruct Hj. split; cbn; try done. by intros ? [= <-]. }
  assert (destination (code i) p ↔ p ∈ d) as Hd.
  { unfold d. by rewrite find_jump_destinations_spec. }
  unfold verify_jump. destruct (decide (p ∈ d)) as [Hin|Hin].
  - pose proof (proj2 Hd Hin) as (n & Hn & _ & op & Hop & _). apply lookup_lt_Some in Hop.
    pose proof (jo_length _ Hj) as Hlen. unfold bytes_ok in Hlen.
    rewrite low_u64_small by lia. rewrite bool_decide_eq_true_2, Z.eqb_refl by done.
    exists (set_position p i1). split_and!; try done. left. split; [by apply Hd|]. split; [done|].
    erewrite xm_bind_ok by reflexivity. erewrite xm_bind_ok by reflexivity.
    unfold continue. erewrite xm_bind_ok by reflexivity. erewrite xm_bind_ok.
    2: { unfold get_gasometer. erewrite xm_bind_ok by reflexivity. cbn. unfold xm_done. by rewrite Hg. }
    cbn. by rewrite (proj2 (Z.leb_gt _ _)) by lia.
  - exists i1. split_and!; try done; [by apply (Hok (position i))|]. right. rewrite Hd. split; [done|].
    assert (bool_decide (low_u64 p ∈ d) && (low_u64 p =? p) = false) as ->; [|done].
    destruct (Z.eqb_spec (low_u64 p) p) as [->|]; [|by rewrite andb_false_r].
    by rewrite bool_decide_eq_false_2.
Qed.
End Jumps.

(** ** Copies *)

Section Copies.
Context `{Keccak} `{!LruCache H256 BitSet} {X : Type} `{!Ext X} (self : Address).
Implicit Types i : Interpreter.

#[local] Existing Instance usize_cost.

(** What the instruction copies from. *)
Definition copy_source (instruction : Instruction) (i : Interpreter) : option (list byte) :=
  match instruction with
  | CALLDATACOPY => Some (default [] (ip_data (params i)))
  | CODECOPY => Some (code i)
  | _ => None
  end.

Lemma padded_lookup source o z n :
  0 ≤ o → (n < Z.to_nat z)%nat →
  padded source o z !! n = Some (default "000"%byte (source !! (Z.to_nat o + n)%nat)).
Proof.
  intros Ho Hn. unfold padded. rewrite lookup_take_lt by done.
  destruct (decide (Z.to_nat o + n < length source)%nat) as [Hl|Hl].
  - rewrite lookup_app_l, lookup_drop by (rewrite length_drop; lia).
    by destruct (lookup_lt_is_Some_2 source _ Hl) as [b ->].
  - rewrite lookup_app_r, lookup_replicate_2 by (rewrite length_drop; lia).
    by rewrite (lookup_ge_None_2 source) by lia.
Qed.

Lemma overwrite_lookup off bytes m (n : nat) :
  0 ≤ off → off + Z.of_nat (length bytes) ≤ Z.of_nat (length m) →
  overwrite off bytes m !! n =
    if (off <=? Z.of_nat n) && (Z.of_nat n <? off + Z.of_nat (length bytes))
    then bytes !! (n - Z.to_nat off)%nat else m !! n.
Proof.
  intros Ho Hl. unfold overwrite.
  assert (length (take (Z.to_nat off) m) = Z.to_nat off) as Ht by (rewrite length_take; lia).
  destruct (Z.leb_spec off (Z.of_nat n)); cbn [andb].
  - rewrite lookup_app_r, Ht by lia. destruct (Z.ltb_spec (Z.of_nat n) (off + Z.of_nat (length bytes))).
    + by rewrite lookup_app_l by lia.
    + rewrite lookup_app_r, lookup_drop by lia. f_equal. lia.
  - rewrite lookup_app_l, lookup_take_lt by lia. done.
Qed.

(** A copy of the input or of the code to the memory is byte for byte that of the source,
    with zeros where the source has ended, whatever offset and size are asked for; it writes
    the range it was asked to write and nothing else. *)
Theorem copies_pad_with_zeros gas provided instruction source d o z st i (x : X) :
  copy_source instruction i = Some source → interp_ok self i → stack i = d :: o :: z :: st →
  covers (mem_size (mem i)) (d, z) →
  ∃ m, exec_instruction gas instruction provided (i, x) =
         Done ((set_mem m (set_stack st i), x), Ok InstrOk) ∧ length m = length (mem i) ∧
    ∀ n : nat, m !! n =
      if (d <=? Z.of_nat n) && (Z.of_nat n <? d + z)
      then Some (default "000"%byte (source !! (Z.to_nat o + (n - Z.to_nat d))%nat))
      else mem i !! n.
Proof.
  intros Hsrc [Hw Hm [] Hcode _ _] Hst Hc. rewrite Hst in Hw.
  apply Forall_cons in Hw as [Hd [Ho [Hz _]%Forall_cons]%Forall_cons].
  assert (bytes_ok source) as Hs by (destruct instruction; naive_solver).
  pose proof (copy_data_spec d o z source (mem i) Hd Ho Hz Hs Hm Hc) as Hcopy.
  exists (overwrite d (padded source o z) (mem i)).
  assert (exec_instruction gas instruction provided (i, x) =
    (_ ← copy_data_to_memory source; mret InstrOk) (i, x)) as ->
    by (destruct instruction; try done; cbn in Hsrc; injection Hsrc as <-; by destruct i).
  unfold is_word in *. split_and!.
  - rewrite (xm_bind_ok _ _ _
      (set_mem (overwrite d (padded source o z) (mem i)) (set_stack st i), x) tt); [done|].
    unfold copy_data_to_memory.
    rewrite (pop_back_bind _ _ _ _ _ Hst), (pop_back_bind _ o (z :: st)), (pop_back_bind _ z st) by done.
    unfold change_mem, read_mem.
    rewrite (xm_bind_ok _ _ _ (set_stack st i, x) (overwrite d (padded source o z) (mem i))); [done|].
    erewrite xm_bind_ok by reflexivity. cbn. unfold xm_done. by rewrite Hcopy.
  - destruct Hc as [Hz0|Hc]; cbn in *.
    + subst z. unfold padded. cbn. by rewrite overwrite_nil.
    + unfold mem_size in Hc. apply length_overwrite; [lia|]. rewrite length_padded; lia.
  - intros n. destruct Hc as [Hz0|Hc]; cbn in *.
    + subst z. unfold padded. cbn. rewrite overwrite_nil by done.
      destruct (Z.leb_spec d (Z.of_nat n)); cbn [andb]; [|done]. by rewrite (proj2 (Z.ltb_ge _ _)) by lia.
    + unfold mem_size in Hc. assert (Z.of_nat (length (padded source o z)) = z) as Hl
        by (apply length_padded; lia).
      rewrite overwrite_lookup, Hl by lia. case_if; [|done].
      apply andb_true_iff in Heqb as [?%Z.leb_le ?%Z.ltb_lt]. rewrite padded_lookup by lia. done.
Qed.
End Copies.

(** ** Gas in a [U256] *)

Section Wide.
Context {X : Type} `{!Ext X} (s : Schedule) (Hs : schedule_ok s).

#[local] Existing Instance u256_cost.

Lemma overflowing_fits p v (x : X) : p = (v, false) → overflowing p x = Done (x, Ok v).
Proof. by intros ->. Qed.

Lemma wide_gas_for_mem m (x : X) :
  0 ≤ m < 2 ^ 130 → ∃ gas, gas_for_mem s m x = Done (x, Ok gas).
Proof.
  intros Hm. pose proof (so_memory _ Hs) as Hp. unfold price in Hp.
  assert (0 ≤ Z.shiftr m 5 < 2 ^ 125) as Hw.
  { rewrite Z.shiftr_div_pow2 by lia. split; [apply Z.div_pos; lia|]. apply Z.div_lt_upper_bound; lia. }
  assert (0 ≤ Z.shiftr m 5 * Z.shiftr m 5 < 2 ^ 250) as Hsq by nia.
  assert (0 ≤ Z.shiftr m 5 * memory_gas s < 2 ^ 200) as Hlin by nia.
  assert (0 ≤ Z.shiftr (Z.shiftr m 5 * Z.shiftr m 5) 9 < 2 ^ 250) as Hq.
  { rewrite (Z.shiftr_div_pow2 _ 9) by lia. split; [apply Z.div_pos; lia|]. apply Z.div_lt_upper_bound; lia. }
  unfold gas_for_mem. cbn zeta. eexists.
  erewrite xm_bind_ok.
  2: { apply overflowing_fits. cbn. unfold u256_overflowing_mul.
       by rewrite u256_small, (proj2 (Z.leb_gt _ _)) by (unfold is_word; lia). }
  erewrite xm_bind_ok by (unfold xm_done; rewrite (so_quad _ Hs); reflexivity).
  erewrite xm_bind_ok.
  2: { apply overflowing_fits. cbn. by rewrite u256_small, (proj2 (Z.leb_gt _ _)) by (unfold is_word; lia). }
  apply overflowing_fits. cbn. unfold u256_overflowing_add.
  by rewrite u256_small, (proj2 (Z.leb_gt _ _)) by (unfold is_word; lia).
Qed.

(** C33: The interpreter that counts gas in a [U256] panics on a request for a memory that is
    larger than the address space.  It converts the size to a [usize] before it looks at the
    gas, so a load from an offset between 2^64 and 2^128 brings it down, whatever gas there is. *)
Theorem wide_memory_panics info st n g z (x : X) :
  ext_schedule x = s → INSTRUCTIONS MLOAD = Some info → 0 ≤ n < 2 ^ 64 → 2 ^ 64 ≤ z ≤ 2 ^ 128 →
  requirements MLOAD info (z :: st) n g x = Panic.
Proof.
  intros Hx [= <-] Hn Hz. unfold requirements.
  erewrite xm_bind_ok by (unfold xm_ask; rewrite Hx; reflexivity).
  erewrite xm_bind_ok by (unfold xm_done; rewrite (so_tiers _ Hs); reflexivity).
  rewrite (xm_bind_ok _ _ _ x (RequestGasMem 3 (z + 32))).
  2: { cbn [request]. erewrite xm_bind_ok by reflexivity.
       rewrite (xm_bind_ok _ _ _ x (z + 32)); [done|]. unfold mem_needed_const.
       rewrite (xm_bind_ok _ _ _ x (z + 32)); [done|]. apply overflowing_fits.
       unfold u256_overflowing_add.
       by rewrite u256_small, (proj2 (Z.leb_gt _ _)) by (unfold is_word; lia). }
  unfold mbind at 1, xm_bind at 1.
  assert (mem_gas_cost g s n (z + 32) x = Panic) as ->; [|done].
  set (words := Z.shiftr (z + 63) 5). set (size := words * 32).
  assert (2 ^ 64 ≤ size < 2 ^ 129) as Hsize.
  { unfold size, words. rewrite Z.shiftr_div_pow2 by lia.
    pose proof (Z.div_mod (z + 63) (2 ^ 5)). pose proof (Z.mod_pos_bound (z + 63) (2 ^ 5)). lia. }
  unfold mem_gas_cost. rewrite (xm_bind_ok _ _ _ x words).
  2: { apply overflowing_fits. unfold to_word_size, add_gas_usize. cbn. unfold u256_overflowing_add.
       rewrite u256_small, (proj2 (Z.leb_gt _ _)) by (unfold is_word; lia).
       unfold words. do 2 f_equal. lia. }
  assert (cost_shl words 5 = size) as ->.
  { cbn. unfold u256_shl. by rewrite Z.shiftl_mul_pow2, u256_small by (unfold is_word; lia). }
  rewrite (proj2 (Z.ltb_lt _ _)) by lia.
  destruct (wide_gas_for_mem size x) as [gas Hgas]; [lia|].
  destruct (cost_sub gas (current_mem_gas g)) as [cost|] eqn:Hcost.
  - erewrite xm_bind_ok.
    2: { erewrite xm_bind_ok by exact Hgas. erewrite xm_bind_ok by (unfold xm_done; rewrite Hcost; reflexivity). reflexivity. }
    unfold mbind, xm_bind, xm_done. cbn. by rewrite (proj2 (Z.ltb_ge _ _)) by lia.
  - unfold mbind at 1, xm_bind at 1. erewrite xm_bind_ok by exact Hgas.
    unfold mbind at 1, xm_bind at 1, xm_done. by rewrite Hcost.
Qed.
End Wide.

(** ** Examples *)

#[local] Existing Instances example_keccak example_jump_lru example_jump_laws example_ext example_laws.

(** An interpreter at the beginning of [code], with words on its stack and no tracer. *)
Definition example_with (code : list byte) (st : Stack) (m : list byte) : Interpreter :=
  set_mem m (set_stack st (set_do_trace false (example_start 100 code))).

#[local] Existing Instance usize_cost.

(** [ADD]. *)
Definition example_add : Interpreter := example_with ["001"%byte] [3; 2] [].

Lemma example_add_inv : interpreter_inv example_schedule example_self example_add (gasometer_new 100).
Proof.
  split; try done; [split; try done; by repeat constructor|..]; cbn; try lia.
Qed.

Lemma arithmetic_step_witness :
  step (example_add, example_outside) =
    Done ((set_done true (computed 3 5 [] (gasometer_new 100) example_add), example_outside),
          InterpreterDone (Ok (Known 97))).
Proof.
  refine (arithmetic_step example_schedule example_self (params_schedule_ok _ _) example_add
    (gasometer_new 100) example_outside "001"%byte ADD _ [3; 2] [] 5 example_add_inv
    eq_refl eq_refl eq_refl eq_refl eq_refl eq_refl eq_refl eq_refl eq_refl _).
  vm_compute. discriminate.
Defined.

(** [PUSH1 3; JUMP; JUMPDEST], after the push. *)
Definition example_jump : Interpreter := example_with ["096"; "003"; "086"; "091"]%byte [] [].

Lemma jump_exact_witness :
  ∃ i', position i' = 3 ∧
    advance (JumpToPosition 3) (example_jump, example_outside) = Done ((i', example_outside), Ok Continue).
Proof.
  destruct (jump_exact [code example_jump]
    ltac:(by intros ? ? ->%list_elem_of_singleton ->%list_elem_of_singleton)
    example_jump (gasometer_new 100) 3 example_outside) as (i' & _ & _ & _ & _ & _ & H).
  - split; try done; [apply list_elem_of_here|by left].
  - reflexivity.
  - reflexivity.
  - by unfold is_word.
  - destruct H as [(_ & Hp & Ha)|[H _]]; [by exists i'|]. destruct H. exists 3%nat. split; [done|].
    split.
    + apply (boundary_next _ 2 "086"%byte); [|done]. by apply (boundary_next _ 0 "096"%byte); [constructor|].
    + by exists "091"%byte.
Defined.

(** The memory of the example is one word. *)
Definition example_copy : Interpreter :=
  example_with ["001"; "002"]%byte [1; 1; 3] (replicate 32 "255"%byte).

Lemma copies_pad_with_zeros_witness :
  ∃ m, exec_instruction 0 CODECOPY None (example_copy, example_outside) =
         Done ((set_mem m (set_stack [] example_copy), example_outside), Ok InstrOk) ∧
    m !! 1%nat = Some "002"%byte ∧ m !! 2%nat = Some "000"%byte.
Proof.
  destruct (copies_pad_with_zeros example_self 0 None CODECOPY ["001"; "002"]%byte 1 1 3 [] example_copy
    example_outside eq_refl) as (m & Hm & _ & Hl).
  - split; try done. by repeat constructor.
  - reflexivity.
  - right. vm_compute. discriminate.
  - exists m. split; [exact Hm|]. rewrite !Hl. split; reflexivity.
Defined.

#[local] Existing Instance u256_cost.

(** A load from 2^64, in an execution that has 2^64 gas. *)
Definition example_wide : list byte :=
  (["104"; "001"] ++ replicate 8 "000" ++ ["081"])%byte.

Lemma wide_memory_panics_witness :
  (∃ info, INSTRUCTIONS MLOAD = Some info ∧
   requirements MLOAD info [2 ^ 64] 0 (gasometer_new (2 ^ 64))
     example_outside = Panic) ∧
  (let start := example_start (2 ^ 64) example_wide in
   match step (start, example_outside) with
   | Done (m, Continue) => step m = Panic
   | _ => False
   end).
Proof.
  split.
  - eexists. split; [reflexivity|].
    by apply (wide_memory_panics example_schedule (params_schedule_ok _ _)).
  - vm_cast_no_check (eq_refl (@Panic (Interpreter * ExampleExt * InterpreterResult))).
Defined.

(** * Net gas metering of storage (EIP-1283)

    What the writes to one storage slot cost in a transaction, and what they refund. *)

Lemma last_cons (v : Z) l d : List.last (v :: l) d = List.last l v.
Proof.
  revert v d. induction l as [|w l IH]; intros v d; [done|].
  change (List.last (v :: w :: l) d) with (List.last (w :: l) d). by rewrite !IH.
Qed.

Section Eip1283.
Context {X : Type} `{!Ext X} (s : Schedule).

(** The outside counts the refunds, and its schedule does not change. *)
Variable refund : X → Z.
Hypothesis refund_add : ∀ v x, refund (ext_add_sstore_refund v x) = refund x + v.
Hypothesis refund_sub : ∀ v x, refund (ext_sub_sstore_refund v x) = refund x - v.
Hypothesis schedule_add : ∀ v x, ext_schedule (ext_add_sstore_refund v x) = ext_schedule x.
Hypothesis schedule_sub : ∀ v x, ext_schedule (ext_sub_sstore_refund v x) = ext_schedule x.

(** Writes of [values] to a slot that is [original] at the start of the transaction and
    [current] now: the gas they cost and the outside they leave. *)
Fixpoint sstores (original current : Z) (values : list Z) (gas : Z) (x : X) : Outcome (Z * X) :=
  match values with
  | [] => Done (gas, x)
  | new :: values =>
      let cost := calculate_eip1283_sstore_gas (ext_schedule x) original current new in
      x ← handle_eip1283_sstore_clears_refund original current new x;
      sstores original new values (gas + cost) x
  end.

Definition dirty_gas : Z := default (sload_gas s) (sstore_dirty_gas s).

(** What a slot that has [current] costs more than a read for each write: the price of the
    first change, less the refund of a slot that is cleared. *)
Definition slot_cost (original current : Z) : Z :=
  (if current =? original then 0
   else (if original =? 0 then sstore_set_gas s else sstore_reset_gas s) - dirty_gas)
  - (if negb (original =? 0) && (current =? 0) then sstore_refund_gas s else 0).

Lemma sstore_step original current new x :
  schedule_ok s → ext_schedule x = s →
  ∃ x', handle_eip1283_sstore_clears_refund original current new x = Done x' ∧
    ext_schedule x' = s ∧
    calculate_eip1283_sstore_gas s original current new - (refund x' - refund x) =
      dirty_gas + slot_cost original new - slot_cost original current.
Proof.
  intros Hs Hx. pose proof (so_dirty_least _ Hs) as Hd.
  unfold handle_eip1283_sstore_clears_refund, calculate_eip1283_sstore_gas, usize_sub.
  rewrite Hx. fold dirty_gas in *. unfold slot_cost.
  destruct (Z.eqb_spec current new) as [->|Hcn].
  { exists x. split_and!; [done..|lia]. }
  destruct (Z.eqb_spec original current) as [<-|Hoc].
  { rewrite (proj2 (Z.eqb_neq new original)), Z.eqb_refl by done.
    destruct (Z.eqb_spec original 0) as [->|Ho]; cbn [negb andb].
    - exists x. split_and!; [done..|lia].
    - destruct (Z.eqb_spec new 0); [exists (ext_add_sstore_refund (sstore_refund_gas s) x)|exists x];
        rewrite ?refund_add, ?schedule_add; (split_and!; [done..|lia]). }
  rewrite !(proj2 (Z.leb_le _ _)) by lia. cbn [mbind outcome_bind].
  set (x1 := if negb (original =? 0) then _ else x).
  assert (ext_schedule x1 = s ∧ refund x1 = refund x +
    (if original =? 0 then 0 else if current =? 0 then - sstore_refund_gas s
     else if new =? 0 then sstore_refund_gas s else 0)) as [Hs1 Hr1].
  { unfold x1. repeat case_if; cbn in *; try done;
      rewrite ?schedule_add, ?schedule_sub, ?refund_add, ?refund_sub; (split; [done|lia]). }
  rewrite (proj2 (Z.eqb_neq current original)) by done.
  destruct (Z.eqb_spec original new) as [<-|Hon].
  - rewrite Z.eqb_refl. destruct (Z.eqb_spec original 0) as [->|Ho]; cbn [negb andb] in *;
      (eexists; split; [done|]; rewrite schedule_add, refund_add, Hr1; split; [done|]).
    + lia.
    + destruct (Z.eqb_spec current 0); lia.
  - exists x1. split; [done|]. split; [done|]. rewrite Hr1, (proj2 (Z.eqb_neq new original)) by done.
    destruct (Z.eqb_spec original 0) as [->|Ho]; cbn [negb andb]; [lia|].
    destruct (Z.eqb_spec current 0), (Z.eqb_spec new 0); lia.
Qed.

(** C28: Under EIP-1283 any sequence of writes to a slot costs, after refunds, the price of a
    read for each write, plus the price of a first change if the slot ends with another value
    than it had at the start of the transaction, less the refund for clearing it: it depends on
    the values in between only through their number.  No write of the sequence panics.  This is
    of the code, which takes back the refund for clearing ([sstore_refund_gas]) when a cleared slot
    is set again; the comments at case 2.2.1.1 of [calculate_eip1283_sstore_gas] and of
    [handle_eip1283_sstore_clears_refund] say that SSTORE_SET_GAS - SSTORE_DIRTY_GAS is removed
    there, which is not what the code does. *)
Theorem eip1283_net_cost (original : Z) (values : list Z) (x : X) :
  schedule_ok s → ext_schedule x = s →
  ∃ gas x', sstores original original values 0 x = Done (gas, x') ∧
    gas - (refund x' - refund x) =
      Z.of_nat (length values) * dirty_gas + slot_cost original (List.last values original).
Proof.
  intros Hs Hx.
  assert (∀ current gas0 x0, ext_schedule x0 = s →
    ∃ gas x', sstores original current values gas0 x0 = Done (gas, x') ∧
      gas - gas0 - (refund x' - refund x0) =
        Z.of_nat (length values) * dirty_gas + slot_cost original (List.last values current)
        - slot_cost original current) as Hgen.
  { clear Hx x. induction values as [|v values IH]; intros current gas0 x0 Hx0; cbn [sstores].
    { exists gas0, x0. split; [done|]. cbn. lia. }
    destruct (sstore_step original current v x0 Hs Hx0) as (x1 & Hh & Hs1 & Hcost).
    rewrite Hx0, Hh. cbn [mbind outcome_bind].
    destruct (IH v (gas0 + calculate_eip1283_sstore_gas s original current v) x1 Hs1)
      as (gas & x' & Hrest & Hnet).
    exists gas, x'. split; [done|].
    rewrite last_cons, length_cons. lia. }
  destruct (Hgen original 0 x Hx) as (gas & x' & Hrun & Hnet). exists gas, x'. split; [done|].
  assert (slot_cost original original = 0) as E; [|lia].
  unfold slot_cost. rewrite Z.eqb_refl. by destruct (original =? 0).
Qed.
End Eip1283.

(** ** Example *)

#[local] Existing Instance example_ext.

(** Two writes to a slot that was zero, the second of which restores it. *)
Lemma eip1283_net_cost_witness :
  ∃ gas x', sstores 0 0 [5; 0] 0 example_outside = Done (gas, x') ∧ gas - ex_refund x' = 1600.
Proof.
  destruct (eip1283_net_cost example_schedule ex_refund ltac:(done) ltac:(done) ltac:(done) ltac:(done)
    0 [5; 0] example_outside (params_schedule_ok _ _) eq_refl) as (gas & x' & Hg & Hn).
  exists gas, x'. split; [exact Hg|]. rewrite Z.sub_0_r in Hn. rewrite Hn. vm_compute. reflexivity.
Defined.
