(* ===== verification/Blake2.v ===== *)
(** * The compression function of BLAKE2b

    [src/parity-ethereum/util/EIP-152/src]: [portable::compress], and [avx2::compress], which
    works on vectors of four words and which the node uses on a processor that has them.
    The vector instructions are those of [core::arch::x86_64], each at the width of the
    elements that it moves. *)

From S2P Require Import Prelude.

Local Open Scope Z_scope.

Definition SIGMA : list (list nat) :=
  [[0; 1; 2; 3; 4; 5; 6; 7; 8; 9; 10; 11; 12; 13; 14; 15];
   [14; 10; 4; 8; 9; 15; 13; 6; 1; 12; 0; 2; 11; 7; 5; 3];
   [11; 8; 12; 0; 5; 2; 15; 13; 10; 14; 3; 6; 7; 1; 9; 4];
   [7; 9; 3; 1; 13; 12; 11; 14; 2; 6; 5; 10; 4; 0; 15; 8];
   [9; 0; 5; 7; 2; 4; 10; 15; 14; 1; 11; 12; 6; 8; 3; 13];
   [2; 12; 6; 10; 0; 11; 8; 3; 4; 13; 7; 5; 15; 14; 1; 9];
   [12; 5; 1; 15; 14; 13; 4; 10; 0; 7; 6; 3; 9; 2; 8; 11];
   [13; 11; 7; 14; 12; 1; 3; 9; 5; 0; 15; 4; 8; 6; 2; 10];
   [6; 15; 14; 9; 11; 3; 0; 8; 12; 2; 13; 7; 1; 4; 10; 5];
   [10; 2; 8; 4; 7; 6; 1; 5; 15; 11; 9; 14; 3; 12; 13; 0]]%nat.

Definition IV : list Z :=
  [0x6a09e667f3bcc908; 0xbb67ae8584caa73b; 0x3c6ef372fe94f82b; 0xa54ff53a5f1d36f1;
   0x510e527fade682d1; 0x9b05688c2b3e6c1f; 0x1f83d9abfb41bd6b; 0x5be0cd19137e2179].

(** Operations on [u64]. *)
Definition wrapping_add (a b : Z) : Z := u64 (a + b).
Definition rotate_right (n x : Z) : Z := Z.lor (Z.shiftr x n) (u64 (Z.shiftl x (64 - n))).
Definition not_u64 (x : Z) : Z := Z.lxor x (2 ^ 64 - 1).

(** ** The portable implementation *)

Definition portable_g (v : list Z) (a b c d : nat) (x y : Z) : list Z :=
  let v := <[a := wrapping_add (wrapping_add (v !!! a) (v !!! b)) x]> v in
  let v := <[d := rotate_right 32 (Z.lxor (v !!! d) (v !!! a))]> v in
  let v := <[c := wrapping_add (v !!! c) (v !!! d)]> v in
  let v := <[b := rotate_right 24 (Z.lxor (v !!! b) (v !!! c))]> v in
  let v := <[a := wrapping_add (wrapping_add (v !!! a) (v !!! b)) y]> v in
  let v := <[d := rotate_right 16 (Z.lxor (v !!! d) (v !!! a))]> v in
  let v := <[c := wrapping_add (v !!! c) (v !!! d)]> v in
  <[b := rotate_right 63 (Z.lxor (v !!! b) (v !!! c))]> v.

(** One turn of the loop. *)
Definition portable_round (m v : list Z) (i : nat) : list Z :=
  let s := SIGMA !!! (i mod 10)%nat in
  let v := portable_g v 0 4 8 12 (m !!! (s !!! 0%nat)) (m !!! (s !!! 1%nat)) in
  let v := portable_g v 1 5 9 13 (m !!! (s !!! 2%nat)) (m !!! (s !!! 3%nat)) in
  let v := portable_g v 2 6 10 14 (m !!! (s !!! 4%nat)) (m !!! (s !!! 5%nat)) in
  let v := portable_g v 3 7 11 15 (m !!! (s !!! 6%nat)) (m !!! (s !!! 7%nat)) in
  let v := portable_g v 0 5 10 15 (m !!! (s !!! 8%nat)) (m !!! (s !!! 9%nat)) in
  let v := portable_g v 1 6 11 12 (m !!! (s !!! 10%nat)) (m !!! (s !!! 11%nat)) in
  let v := portable_g v 2 7 8 13 (m !!! (s !!! 12%nat)) (m !!! (s !!! 13%nat)) in
  portable_g v 3 4 9 14 (m !!! (s !!! 14%nat)) (m !!! (s !!! 15%nat)).

Definition portable_compress (h m t : list Z) (f : bool) (rounds : nat) : list Z :=
  let v := h ++ IV in
  let v := <[12%nat := Z.lxor (v !!! 12%nat) (t !!! 0%nat)]> v in
  let v := <[13%nat := Z.lxor (v !!! 13%nat) (t !!! 1%nat)]> v in
  let v := if f then <[14%nat := not_u64 (v !!! 14%nat)]> v else v in
  let v := foldl (portable_round m) v (seq 0 rounds) in
  (λ i, Z.lxor (h !!! i) (Z.lxor (v !!! i) (v !!! (i + 8)%nat))) <$> seq 0 8.

(** ** Vector instructions *)

(** Four words of 64 bits. *)
Record m256i := mk256 { q0 : Z; q1 : Z; q2 : Z; q3 : Z }.

(** The parts of a word. *)
Definition low32 (q : Z) : Z := u32 q.
Definition high32 (q : Z) : Z := Z.shiftr q 32.
Definition byte_at (q k : Z) : Z := Z.shiftr q k `mod` 256.
Definition join32 (low high : Z) : Z := low + 2 ^ 32 * high.
Definition join8 (bytes : list Z) : Z := foldr (λ b acc, b + 256 * acc) 0 bytes.

(** The elements of a vector, the lowest first. *)
Definition epi64 (v : m256i) : list Z := [q0 v; q1 v; q2 v; q3 v].
Definition epi32 (v : m256i) : list Z := epi64 v ≫= λ q, [low32 q; high32 q].
Definition epi8 (v : m256i) : list Z :=
  epi64 v ≫= λ q, byte_at q <$> [0; 8; 16; 24; 32; 40; 48; 56].

Definition of_epi64 (l : list Z) : m256i :=
  mk256 (l !!! 0%nat) (l !!! 1%nat) (l !!! 2%nat) (l !!! 3%nat).
Definition of_epi32 (l : list Z) : m256i :=
  of_epi64 ((λ i, join32 (l !!! (2 * i)%nat) (l !!! (2 * i + 1)%nat)) <$> seq 0 4).
Definition of_epi8 (l : list Z) : m256i :=
  of_epi64 ((λ i, join8 (take 8 (drop (8 * i) l))) <$> seq 0 4).

(** The two bits of an immediate that select element [j]. *)
Definition selector (imm : Z) (j : nat) : nat :=
  Z.to_nat (Z.land (Z.shiftr imm (2 * Z.of_nat j)) 3).

Definition MM_SHUFFLE (z y x w : Z) : Z :=
  Z.lor (Z.lor (Z.lor (Z.shiftl z 6) (Z.shiftl y 4)) (Z.shiftl x 2)) w.

Definition lanes (f : Z → Z → Z) (a b : m256i) : m256i :=
  mk256 (f (q0 a) (q0 b)) (f (q1 a) (q1 b)) (f (q2 a) (q2 b)) (f (q3 a) (q3 b)).

Definition mm256_add_epi64 : m256i → m256i → m256i := lanes wrapping_add.
Definition mm256_xor_si256 : m256i → m256i → m256i := lanes Z.lxor.
Definition mm256_or_si256 : m256i → m256i → m256i := lanes Z.lor.
Definition mm256_srli_epi64 (a : m256i) (n : Z) : m256i := lanes (λ x _, Z.shiftr x n) a a.
Definition mm256_unpacklo_epi64 (a b : m256i) : m256i := mk256 (q0 a) (q0 b) (q2 a) (q2 b).
Definition mm256_unpackhi_epi64 (a b : m256i) : m256i := mk256 (q1 a) (q1 b) (q3 a) (q3 b).
Definition mm256_broadcastsi128_si256 (x : list Z) : m256i :=
  mk256 (x !!! 0%nat) (x !!! 1%nat) (x !!! 0%nat) (x !!! 1%nat).
Definition mm256_setr_epi8 (l : list Z) : m256i := of_epi8 l.
Definition mm256_permute4x64_epi64 (a : m256i) (imm : Z) : m256i :=
  of_epi64 ((λ j, epi64 a !!! selector imm j) <$> seq 0 4).
Definition mm256_blend_epi32 (a b : m256i) (imm : Z) : m256i :=
  of_epi32 ((λ i, if Z.testbit imm (Z.of_nat i) then epi32 b !!! i else epi32 a !!! i) <$> seq 0 8).

(** These move elements within each half of the vector. *)
Definition mm256_shuffle_epi32 (a : m256i) (imm : Z) : m256i :=
  of_epi32 ((λ i, epi32 a !!! (4 * (i / 4) + selector imm (i mod 4))%nat) <$> seq 0 8).
Definition mm256_shuffle_epi8 (a b : m256i) : m256i :=
  of_epi8 ((λ i, let k := epi8 b !!! i in
                 if Z.testbit k 7 then 0
                 else epi8 a !!! (16 * (i / 16) + Z.to_nat (Z.land k 15))%nat) <$> seq 0 32).
Definition mm256_alignr_epi8 (a b : m256i) (n : nat) : m256i :=
  of_epi8 (seq 0 2 ≫= λ half,
    let part v := take 16 (drop (16 * half) (epi8 v)) in take 16 (drop n (part b ++ part a))).

(** ** The vector implementation *)

Definition avx2_loadu (src : list Z) : m256i := of_epi64 src.
Definition avx2_storeu (src : m256i) : list Z := epi64 src.
Definition avx2_add (a b : m256i) : m256i := mm256_add_epi64 a b.
Definition avx2_xor (a b : m256i) : m256i := mm256_xor_si256 a b.
Definition avx2_set4 (a b c d : Z) : m256i := mk256 a b c d.

Definition avx2_rotate_right_32 (x : m256i) : m256i := mm256_shuffle_epi32 x (MM_SHUFFLE 2 3 0 1).
Definition avx2_rotate_right_24 (x : m256i) : m256i :=
  let rotate24 := mm256_setr_epi8
    [3; 4; 5; 6; 7; 0; 1; 2; 11; 12; 13; 14; 15; 8; 9; 10; 3; 4; 5; 6; 7; 0; 1; 2; 11; 12; 13;
     14; 15; 8; 9; 10] in
  mm256_shuffle_epi8 x rotate24.
Definition avx2_rotate_right_16 (x : m256i) : m256i :=
  let rotate16 := mm256_setr_epi8
    [2; 3; 4; 5; 6; 7; 0; 1; 10; 11; 12; 13; 14; 15; 8; 9; 2; 3; 4; 5; 6; 7; 0; 1; 10; 11; 12;
     13; 14; 15; 8; 9] in
  mm256_shuffle_epi8 x rotate16.
Definition avx2_rotate_right_63 (x : m256i) : m256i := mm256_or_si256 (mm256_srli_epi64 x 63) (avx2_add x x).

Abbreviation Rows := (m256i * m256i * m256i * m256i)%type.

Definition avx2_g1 (a b c d m : m256i) : Rows :=
  let a := avx2_add a m in
  let a := avx2_add a b in
  let d := avx2_xor d a in
  let d := avx2_rotate_right_32 d in
  let c := avx2_add c d in
  let b := avx2_xor b c in
  let b := avx2_rotate_right_24 b in
  (a, b, c, d).

Definition avx2_g2 (a b c d m : m256i) : Rows :=
  let a := avx2_add a m in
  let a := avx2_add a b in
  let d := avx2_xor d a in
  let d := avx2_rotate_right_16 d in
  let c := avx2_add c d in
  let b := avx2_xor b c in
  let b := avx2_rotate_right_63 b in
  (a, b, c, d).

Definition avx2_diagonalize (a b c d : m256i) : Rows :=
  let a := mm256_permute4x64_epi64 a (MM_SHUFFLE 2 1 0 3) in
  let d := mm256_permute4x64_epi64 d (MM_SHUFFLE 1 0 3 2) in
  let c := mm256_permute4x64_epi64 c (MM_SHUFFLE 0 3 2 1) in
  (a, b, c, d).

Definition avx2_undiagonalize (a b c d : m256i) : Rows :=
  let a := mm256_permute4x64_epi64 a (MM_SHUFFLE 0 3 2 1) in
  let d := mm256_permute4x64_epi64 d (MM_SHUFFLE 1 0 3 2) in
  let c := mm256_permute4x64_epi64 c (MM_SHUFFLE 2 1 0 3) in
  (a, b, c, d).

(** The message, two words in each half of a vector. *)
Record Message := mkMessage {
  m0 : m256i; m1 : m256i; m2 : m256i; m3 : m256i;
  m4 : m256i; m5 : m256i; m6 : m256i; m7 : m256i;
}.

Definition avx2_chunk (message : list Z) (i : nat) : list Z := take 2 (drop (2 * i) message).

Definition avx2_load_message (message : list Z) : Message :=
  let load i := mm256_broadcastsi128_si256 (avx2_chunk message i) in
  mkMessage (load 0%nat) (load 1%nat) (load 2%nat) (load 3%nat) (load 4%nat) (load 5%nat)
    (load 6%nat) (load 7%nat).

(** The ten cases of the loop. *)

Definition avx2_round0 (m : Message) (rows : Rows) : Rows :=
  let '(a, b, c, d) := rows in
  let t0 := mm256_unpacklo_epi64 (m0 m) (m1 m) in
  let t1 := mm256_unpacklo_epi64 (m2 m) (m3 m) in
  let b0 := mm256_blend_epi32 t0 t1 0xF0 in
  let '(a, b, c, d) := avx2_g1 a b c d b0 in
  let t0 := mm256_unpackhi_epi64 (m0 m) (m1 m) in
  let t1 := mm256_unpackhi_epi64 (m2 m) (m3 m) in
  let b0 := mm256_blend_epi32 t0 t1 0xF0 in
  let '(a, b, c, d) := avx2_g2 a b c d b0 in
  let '(a, b, c, d) := avx2_diagonalize a b c d in
  let t0 := mm256_unpacklo_epi64 (m7 m) (m4 m) in
  let t1 := mm256_unpacklo_epi64 (m5 m) (m6 m) in
  let b0 := mm256_blend_epi32 t0 t1 0xF0 in
  let '(a, b, c, d) := avx2_g1 a b c d b0 in
  let t0 := mm256_unpackhi_epi64 (m7 m) (m4 m) in
  let t1 := mm256_unpackhi_epi64 (m5 m) (m6 m) in
  let b0 := mm256_blend_epi32 t0 t1 0xF0 in
  let '(a, b, c, d) := avx2_g2 a b c d b0 in
  avx2_undiagonalize a b c d.

Definition avx2_round1 (m : Message) (rows : Rows) : Rows :=
  let '(a, b, c, d) := rows in
  let t0 := mm256_unpacklo_epi64 (m7 m) (m2 m) in
  let t1 := mm256_unpackhi_epi64 (m4 m) (m6 m) in
  let b0 := mm256_blend_epi32 t0 t1 0xF0 in
  let '(a, b, c, d) := avx2_g1 a b c d b0 in
  let t0 := mm256_unpacklo_epi64 (m5 m) (m4 m) in
  let t1 := mm256_alignr_epi8 (m3 m) (m7 m) 8 in
  let b0 := mm256_blend_epi32 t0 t1 0xF0 in
  let '(a, b, c, d) := avx2_g2 a b c d b0 in
  let '(a, b, c, d) := avx2_diagonalize a b c d in
  let t0 := mm256_unpackhi_epi64 (m2 m) (m0 m) in
  let t1 := mm256_blend_epi32 (m5 m) (m0 m) 0x33 in
  let b0 := mm256_blend_epi32 t0 t1 0xF0 in
  let '(a, b, c, d) := avx2_g1 a b c d b0 in
  let t0 := mm256_alignr_epi8 (m6 m) (m1 m) 8 in
  let t1 := mm256_blend_epi32 (m3 m) (m1 m) 0x33 in
  let b0 := mm256_blend_epi32 t0 t1 0xF0 in
  let '(a, b, c, d) := avx2_g2 a b c d b0 in
  avx2_undiagonalize a b c d.

Definition avx2_round2 (m : Message) (rows : Rows) : Rows :=
  let '(a, b, c, d) := rows in
  let t0 := mm256_alignr_epi8 (m6 m) (m5 m) 8 in
  let t1 := mm256_unpackhi_epi64 (m2 m) (m7 m) in
  let b0 := mm256_blend_epi32 t0 t1 0xF0 in
  let '(a, b, c, d) := avx2_g1 a b c d b0 in
  let t0 := mm256_unpacklo_epi64 (m4 m) (m0 m) in
  let t1 := mm256_blend_epi32 (m6 m) (m1 m) 0x33 in
  let b0 := mm256_blend_epi32 t0 t1 0xF0 in
  let '(a, b, c, d) := avx2_g2 a b c d b0 in
  let '(a, b, c, d) := avx2_diagonalize a b c d in
  let t0 := mm256_alignr_epi8 (m5 m) (m4 m) 8 in
  let t1 := mm256_unpackhi_epi64 (m1 m) (m3 m) in
  let b0 := mm256_blend_epi32 t0 t1 0xF0 in
  let '(a, b, c, d) := avx2_g1 a b c d b0 in
  let t0 := mm256_unpacklo_epi64 (m2 m) (m7 m) in
  let t1 := mm256_blend_epi32 (m0 m) (m3 m) 0x33 in
  let b0 := mm256_blend_epi32 t0 t1 0xF0 in
  let '(a, b, c, d) := avx2_g2 a b c d b0 in
  avx2_undiagonalize a b c d.

Definition avx2_round3 (m : Message) (rows : Rows) : Rows :=
  let '(a, b, c, d) := rows in
  let t0 := mm256_unpackhi_epi64 (m3 m) (m1 m) in
  let t1 := mm256_unpackhi_epi64 (m6 m) (m5 m) in
  let b0 := mm256_blend_epi32 t0 t1 0xF0 in
  let '(a, b, c, d) := avx2_g1 a b c d b0 in
  let t0 := mm256_unpackhi_epi64 (m4 m) (m0 m) in
  let t1 := mm256_unpacklo_epi64 (m6 m) (m7 m) in
  let b0 := mm256_blend_epi32 t0 t1 0xF0 in
  let '(a, b, c, d) := avx2_g2 a b c d b0 in
  let '(a, b, c, d) := avx2_diagonalize a b c d in
  let t0 := mm256_alignr_epi8 (m1 m) (m7 m) 8 in
  let t1 := mm256_shuffle_epi32 (m2 m) (MM_SHUFFLE 1 0 3 2) in
  let b0 := mm256_blend_epi32 t0 t1 0xF0 in
  let '(a, b, c, d) := avx2_g1 a b c d b0 in
  let t0 := mm256_unpacklo_epi64 (m4 m) (m3 m) in
  let t1 := mm256_unpacklo_epi64 (m5 m) (m0 m) in
  let b0 := mm256_blend_epi32 t0 t1 0xF0 in
  let '(a, b, c, d) := avx2_g2 a b c d b0 in
  avx2_undiagonalize a b c d.

Definition avx2_round4 (m : Message) (rows : Rows) : Rows :=
  let '(a, b, c, d) := rows in
  let t0 := mm256_unpackhi_epi64 (m4 m) (m2 m) in
  let t1 := mm256_unpacklo_epi64 (m1 m) (m5 m) in
  let b0 := mm256_blend_epi32 t0 t1 0xF0 in
  let '(a, b, c, d) := avx2_g1 a b c d b0 in
  let t0 := mm256_blend_epi32 (m3 m) (m0 m) 0x33 in
  let t1 := mm256_blend_epi32 (m7 m) (m2 m) 0x33 in
  let b0 := mm256_blend_epi32 t0 t1 0xF0 in
  let '(a, b, c, d) := avx2_g2 a b c d b0 in
  let '(a, b, c, d) := avx2_diagonalize a b c d in
  let t0 := mm256_alignr_epi8 (m7 m) (m1 m) 8 in
  let t1 := mm256_alignr_epi8 (m3 m) (m5 m) 8 in
  let b0 := mm256_blend_epi32 t0 t1 0xF0 in
  let '(a, b, c, d) := avx2_g1 a b c d b0 in
  let t0 := mm256_unpackhi_epi64 (m6 m) (m0 m) in
  let t1 := mm256_unpacklo_epi64 (m6 m) (m4 m) in
  let b0 := mm256_blend_epi32 t0 t1 0xF0 in
  let '(a, b, c, d) := avx2_g2 a b c d b0 in
  avx2_undiagonalize a b c d.

Definition avx2_round5 (m : Message) (rows : Rows) : Rows :=
  let '(a, b, c, d) := rows in
  let t0 := mm256_unpacklo_epi64 (m1 m) (m3 m) in
  let t1 := mm256_unpacklo_epi64 (m0 m) (m4 m) in
  let b0 := mm256_blend_epi32 t0 t1 0xF0 in
  let '(a, b, c, d) := avx2_g1 a b c d b0 in
  let t0 := mm256_unpacklo_epi64 (m6 m) (m5 m) in
  let t1 := mm256_unpackhi_epi64 (m5 m) (m1 m) in
  let b0 := mm256_blend_epi32 t0 t1 0xF0 in
  let '(a, b, c, d) := avx2_g2 a b c d b0 in
  let '(a, b, c, d) := avx2_diagonalize a b c d in
  let t0 := mm256_alignr_epi8 (m2 m) (m0 m) 8 in
  let t1 := mm256_unpackhi_epi64 (m3 m) (m7 m) in
  let b0 := mm256_blend_epi32 t0 t1 0xF0 in
  let '(a, b, c, d) := avx2_g1 a b c d b0 in
  let t0 := mm256_unpackhi_epi64 (m4 m) (m6 m) in
  let t1 := mm256_alignr_epi8 (m7 m) (m2 m) 8 in
  let b0 := mm256_blend_epi32 t0 t1 0xF0 in
  let '(a, b, c, d) := avx2_g2 a b c d b0 in
  avx2_undiagonalize a b c d.

Definition avx2_round6 (m : Message) (rows : Rows) : Rows :=
  let '(a, b, c, d) := rows in
  let t0 := mm256_blend_epi32 (m0 m) (m6 m) 0x33 in
  let t1 := mm256_unpacklo_epi64 (m7 m) (m2 m) in
  let b0 := mm256_blend_epi32 t0 t1 0xF0 in
  let '(a, b, c, d) := avx2_g1 a b c d b0 in
  let t0 := mm256_unpackhi_epi64 (m2 m) (m7 m) in
  let t1 := mm256_alignr_epi8 (m5 m) (m6 m) 8 in
  let b0 := mm256_blend_epi32 t0 t1 0xF0 in
  let '(a, b, c, d) := avx2_g2 a b c d b0 in
  let '(a, b, c, d) := avx2_diagonalize a b c d in
  let t0 := mm256_unpacklo_epi64 (m4 m) (m0 m) in
  let t1 := mm256_blend_epi32 (m4 m) (m3 m) 0x33 in
  let b0 := mm256_blend_epi32 t0 t1 0xF0 in
  let '(a, b, c, d) := avx2_g1 a b c d b0 in
  let t0 := mm256_unpackhi_epi64 (m5 m) (m3 m) in
  let t1 := mm256_shuffle_epi32 (m1 m) (MM_SHUFFLE 1 0 3 2) in
  let b0 := mm256_blend_epi32 t0 t1 0xF0 in
  let '(a, b, c, d) := avx2_g2 a b c d b0 in
  avx2_undiagonalize a b c d.

Definition avx2_round7 (m : Message) (rows : Rows) : Rows :=
  let '(a, b, c, d) := rows in
  let t0 := mm256_unpackhi_epi64 (m6 m) (m3 m) in
  let t1 := mm256_blend_epi32 (m1 m) (m6 m) 0x33 in
  let b0 := mm256_blend_epi32 t0 t1 0xF0 in
  let '(a, b, c, d) := avx2_g1 a b c d b0 in
  let t0 := mm256_alignr_epi8 (m7 m) (m5 m) 8 in
  let t1 := mm256_unpackhi_epi64 (m0 m) (m4 m) in
  let b0 := mm256_blend_epi32 t0 t1 0xF0 in
  let '(a, b, c, d) := avx2_g2 a b c d b0 in
  let '(a, b, c, d) := avx2_diagonalize a b c d in
  let t0 := mm256_blend_epi32 (m2 m) (m1 m) 0x33 in
  let t1 := mm256_alignr_epi8 (m4 m) (m7 m) 8 in
  let b0 := mm256_blend_epi32 t0 t1 0xF0 in
  let '(a, b, c, d) := avx2_g1 a b c d b0 in
  let t0 := mm256_unpacklo_epi64 (m5 m) (m0 m) in
  let t1 := mm256_unpacklo_epi64 (m2 m) (m3 m) in
  let b0 := mm256_blend_epi32 t0 t1 0xF0 in
  let '(a, b, c, d) := avx2_g2 a b c d b0 in
  avx2_undiagonalize a b c d.

Definition avx2_round8 (m : Message) (rows : Rows) : Rows :=
  let '(a, b, c, d) := rows in
  let t0 := mm256_unpacklo_epi64 (m3 m) (m7 m) in
  let t1 := mm256_alignr_epi8 (m0 m) (m5 m) 8 in
  let b0 := mm256_blend_epi32 t0 t1 0xF0 in
  let '(a, b, c, d) := avx2_g1 a b c d b0 in
  let t0 := mm256_unpackhi_epi64 (m7 m) (m4 m) in
  let t1 := mm256_alignr_epi8 (m4 m) (m1 m) 8 in
  let b0 := mm256_blend_epi32 t0 t1 0xF0 in
  let '(a, b, c, d) := avx2_g2 a b c d b0 in
  let '(a, b, c, d) := avx2_diagonalize a b c d in
  let t0 := mm256_unpacklo_epi64 (m5 m) (m6 m) in
  let t1 := mm256_unpackhi_epi64 (m6 m) (m0 m) in
  let b0 := mm256_blend_epi32 t0 t1 0xF0 in
  let '(a, b, c, d) := avx2_g1 a b c d b0 in
  let t0 := mm256_alignr_epi8 (m1 m) (m2 m) 8 in
  let t1 := mm256_alignr_epi8 (m2 m) (m3 m) 8 in
  let b0 := mm256_blend_epi32 t0 t1 0xF0 in
  let '(a, b, c, d) := avx2_g2 a b c d b0 in
  avx2_undiagonalize a b c d.

Definition avx2_round9 (m : Message) (rows : Rows) : Rows :=
  let '(a, b, c, d) := rows in
  let t0 := mm256_unpacklo_epi64 (m5 m) (m4 m) in
  let t1 := mm256_unpackhi_epi64 (m3 m) (m0 m) in
  let b0 := mm256_blend_epi32 t0 t1 0xF0 in
  let '(a, b, c, d) := avx2_g1 a b c d b0 in
  let t0 := mm256_unpacklo_epi64 (m1 m) (m2 m) in
  let t1 := mm256_blend_epi32 (m2 m) (m3 m) 0x33 in
  let b0 := mm256_blend_epi32 t0 t1 0xF0 in
  let '(a, b, c, d) := avx2_g2 a b c d b0 in
  let '(a, b, c, d) := avx2_diagonalize a b c d in
  let t0 := mm256_unpackhi_epi64 (m6 m) (m7 m) in
  let t1 := mm256_unpackhi_epi64 (m4 m) (m1 m) in
  let b0 := mm256_blend_epi32 t0 t1 0xF0 in
  let '(a, b, c, d) := avx2_g1 a b c d b0 in
  let t0 := mm256_blend_epi32 (m5 m) (m0 m) 0x33 in
  let t1 := mm256_unpacklo_epi64 (m7 m) (m6 m) in
  let b0 := mm256_blend_epi32 t0 t1 0xF0 in
  let '(a, b, c, d) := avx2_g2 a b c d b0 in
  avx2_undiagonalize a b c d.

(** One turn of the loop. *)
Definition avx2_round (m : Message) (rows : Rows) (i : nat) : Rows :=
  match (i mod 10)%nat with
  | 0 => avx2_round0 m rows
  | 1 => avx2_round1 m rows
  | 2 => avx2_round2 m rows
  | 3 => avx2_round3 m rows
  | 4 => avx2_round4 m rows
  | 5 => avx2_round5 m rows
  | 6 => avx2_round6 m rows
  | 7 => avx2_round7 m rows
  | 8 => avx2_round8 m rows
  | _ => avx2_round9 m rows
  end%nat.

Definition avx2_compress (state message count : list Z) (f : bool) (rounds : nat) : list Z :=
  let a := avx2_loadu (take 4 state) in
  let b := avx2_loadu (drop 4 state) in
  let c := avx2_loadu (take 4 IV) in
  let iv_high := drop 4 IV in
  let inverse := if f then Z.lxor (iv_high !!! 3%nat) (not_u64 (iv_high !!! 3%nat)) else 0 in
  let flags := avx2_set4 (count !!! 0%nat) (count !!! 1%nat) inverse 0 in
  let d := avx2_xor (avx2_loadu iv_high) flags in
  let m := avx2_load_message message in
  let iv0 := a in
  let iv1 := b in
  let '(a, b, c, d) := foldl (avx2_round m) (a, b, c, d) (seq 0 rounds) in
  let a := avx2_xor a c in
  let b := avx2_xor b d in
  let a := avx2_xor a iv0 in
  let b := avx2_xor b iv1 in
  avx2_storeu a ++ avx2_storeu b.

(** [compress] of the crate, on a processor that has the instructions or not. *)
Definition compress (avx2 : bool) (state message count : list Z) (f : bool) (rounds : nat) : list Z :=
  if avx2 then avx2_compress state message count f rounds
  else portable_compress state message count f rounds.
