(* ===== verification/Blake2Theorems.v ===== *)
(** * Theorems on the compression function of BLAKE2b

    The vector implementation computes what the portable one does. *)

From S2P Require Import Prelude EvmWord Blake2.

Local Open Scope Z_scope.

Definition is_u64 (x : Z) : Prop := 0 ≤ x < 2 ^ 64.

(** ** Words *)

Lemma u64_word x : is_u64 (u64 x).
Proof. apply Z.mod_pos_bound. lia. Qed.

Lemma wrapping_add_word a b : is_u64 (wrapping_add a b).
Proof. apply u64_word. Qed.

Lemma wrapping_add_mid a b x : wrapping_add (wrapping_add a x) b = wrapping_add (wrapping_add a b) x.
Proof.
  unfold wrapping_add, u64, wrap. rewrite !Zplus_mod_idemp_l. f_equal. lia.
Qed.

Lemma lxor_word a b : is_u64 a → is_u64 b → is_u64 (Z.lxor a b).
Proof.
  intros Ha Hb. rewrite <- (Z.mod_small a (2 ^ 64)), <- (Z.mod_small b (2 ^ 64)) by done.
  replace (Z.lxor (a `mod` 2 ^ 64) (b `mod` 2 ^ 64)) with (Z.lxor a b `mod` 2 ^ 64); [apply u64_word|].
  apply Z.bits_inj'. intros n Hn. rewrite Z.lxor_spec. destruct (Z.ltb_spec n 64).
  - by rewrite !Z.mod_pow2_bits_low, Z.lxor_spec by done.
  - by rewrite !Z.mod_pow2_bits_high by lia.
Qed.

(** A rotation exchanges the two parts of a word. *)
Lemma rotate_right_parts n x :
  0 < n < 64 → is_u64 x → rotate_right n x = x / 2 ^ n + x `mod` 2 ^ n * 2 ^ (64 - n).
Proof.
  intros Hn Hx. unfold rotate_right, u64, wrap. rewrite Z.shiftr_div_pow2, Z.shiftl_mul_pow2 by lia.
  replace (2 ^ 64) with (2 ^ n * 2 ^ (64 - n)) by (rewrite <- Z.pow_add_r by lia; f_equal; lia).
  rewrite Zmult_mod_distr_r. apply lor_disjoint; [lia|].
  split; [apply Z.div_pos; [apply Hx|lia]|]. apply Z.div_lt_upper_bound; [lia|].
  rewrite <- Z.pow_add_r by lia. replace (n + (64 - n)) with 64 by lia. apply Hx.
Qed.

Lemma rotate_right_word n x : 0 < n < 64 → is_u64 x → is_u64 (rotate_right n x).
Proof.
  intros Hn Hx. rewrite rotate_right_parts by done. unfold is_u64 in *.
  pose proof (Z.mod_pos_bound x (2 ^ n) ltac:(lia)) as Hm.
  assert (2 ^ 64 = 2 ^ n * 2 ^ (64 - n)) as E by (rewrite <- Z.pow_add_r by lia; f_equal; lia).
  assert (0 ≤ x / 2 ^ n < 2 ^ (64 - n)) as Hd.
  { split; [apply Z.div_pos; lia|]. apply Z.div_lt_upper_bound; lia. }
  split; [nia|]. rewrite E. nia.
Qed.

(** ** Elements of vectors *)

Lemma halves_join x : is_u64 x → join32 (low32 x) (high32 x) = x.
Proof.
  intros Hx. unfold join32, low32, high32, u32, wrap. rewrite Z.shiftr_div_pow2 by lia.
  pose proof (Z.div_mod x (2 ^ 32) ltac:(lia)). lia.
Qed.

Lemma halves_rotate x : is_u64 x → join32 (high32 x) (low32 x) = rotate_right 32 x.
Proof.
  intros Hx. unfold join32, low32, high32. rewrite rotate_right_parts by (done || lia). rewrite Z.shiftr_div_pow2 by lia.
  unfold u32, wrap. change (64 - 32) with 32. lia.
Qed.

(** The bytes of a word as differences. *)
Lemma byte_difference x k :
  0 ≤ k → byte_at x k = Z.shiftr x k - 256 * Z.shiftr x (k + 8).
Proof.
  intros Hk. unfold byte_at. rewrite !Z.shiftr_div_pow2, Z.pow_add_r, <- Z.div_div by lia. change (2 ^ 8) with 256.
  pose proof (Z.div_mod (x / 2 ^ k) 256 ltac:(lia)). lia.
Qed.

Lemma shiftr_top x : is_u64 x → Z.shiftr x 64 = 0.
Proof. intros Hx. rewrite Z.shiftr_div_pow2 by lia. by apply Z.div_small. Qed.

Ltac bytes x Hx :=
  unfold join8; cbn [foldr];
  rewrite !(byte_difference x) by lia; change (0 + 8) with 8; change (8 + 8) with 16; change (16 + 8) with 24;
  change (24 + 8) with 32; change (32 + 8) with 40; change (40 + 8) with 48; change (48 + 8) with 56;
  change (56 + 8) with 64; rewrite ?(shiftr_top x Hx);
  change (Z.shiftr x 0) with x.

Lemma bytes_join x : is_u64 x →
  join8 [byte_at x 0; byte_at x 8; byte_at x 16; byte_at x 24; byte_at x 32; byte_at x 40; byte_at x 48;
    byte_at x 56] = x.
Proof. intros Hx. bytes x Hx. lia. Qed.

Lemma bytes_rotate_24 x : is_u64 x →
  join8 [byte_at x 24; byte_at x 32; byte_at x 40; byte_at x 48; byte_at x 56; byte_at x 0; byte_at x 8;
    byte_at x 16] = rotate_right 24 x.
Proof.
  intros Hx. rewrite rotate_right_parts by (done || lia). bytes x Hx.
  rewrite (Z.mod_eq x (2 ^ 24)), <- (Z.shiftr_div_pow2 x 24) by lia. lia.
Qed.

Lemma bytes_rotate_16 x : is_u64 x →
  join8 [byte_at x 16; byte_at x 24; byte_at x 32; byte_at x 40; byte_at x 48; byte_at x 56; byte_at x 0;
    byte_at x 8] = rotate_right 16 x.
Proof.
  intros Hx. rewrite rotate_right_parts by (done || lia). bytes x Hx.
  rewrite (Z.mod_eq x (2 ^ 16)), <- (Z.shiftr_div_pow2 x 16) by lia. lia.
Qed.

(** ** The instructions on whole words *)

Ltac vector := cbv -[low32 high32 byte_at join32 join8 rotate_right].

Section Instructions.
Context (a0 a1 a2 a3 : Z) (Ha0 : is_u64 a0) (Ha1 : is_u64 a1) (Ha2 : is_u64 a2) (Ha3 : is_u64 a3).
Context (b0 b1 b2 b3 : Z) (Hb0 : is_u64 b0) (Hb1 : is_u64 b1) (Hb2 : is_u64 b2) (Hb3 : is_u64 b3).
Abbreviation a := (mk256 a0 a1 a2 a3).
Abbreviation b := (mk256 b0 b1 b2 b3).

Lemma blend_high : mm256_blend_epi32 a b 0xF0 = mk256 a0 a1 b2 b3.
Proof using All. vector. by rewrite !halves_join. Qed.

Lemma blend_even : mm256_blend_epi32 a b 0x33 = mk256 b0 a1 b2 a3.
Proof using All. vector. by rewrite !halves_join. Qed.

Lemma alignr_8 : mm256_alignr_epi8 a b 8 = mk256 b1 a0 b3 a2.
Proof using All. vector. by rewrite !bytes_join. Qed.

Lemma shuffle_swap : mm256_shuffle_epi32 a (MM_SHUFFLE 1 0 3 2) = mk256 a1 a0 a3 a2.
Proof using Ha0 Ha1 Ha2 Ha3. vector. by rewrite !halves_join. Qed.

Definition each (f : Z → Z) (v : m256i) : m256i := mk256 (f (q0 v)) (f (q1 v)) (f (q2 v)) (f (q3 v)).

Lemma rotate_32_each : avx2_rotate_right_32 a = each (rotate_right 32) a.
Proof using Ha0 Ha1 Ha2 Ha3. vector. by rewrite !halves_rotate. Qed.

Lemma rotate_24_each : avx2_rotate_right_24 a = each (rotate_right 24) a.
Proof using Ha0 Ha1 Ha2 Ha3.
  unfold avx2_rotate_right_24, mm256_shuffle_epi8. set (k := epi8 (mm256_setr_epi8 _)).
  vm_compute in k. subst k. vector. by rewrite !bytes_rotate_24.
Qed.

Lemma rotate_16_each : avx2_rotate_right_16 a = each (rotate_right 16) a.
Proof using Ha0 Ha1 Ha2 Ha3.
  unfold avx2_rotate_right_16, mm256_shuffle_epi8. set (k := epi8 (mm256_setr_epi8 _)).
  vm_compute in k. subst k. vector. by rewrite !bytes_rotate_16.
Qed.

Lemma rotate_63_each : avx2_rotate_right_63 a = each (rotate_right 63) a.
Proof using Ha0 Ha1 Ha2 Ha3.
  assert (∀ x, wrapping_add x x = u64 (Z.shiftl x (64 - 63))) as E.
  { intros x. unfold wrapping_add. f_equal. rewrite Z.shiftl_mul_pow2 by lia. lia. }
  unfold avx2_rotate_right_63, avx2_add, mm256_add_epi64, mm256_or_si256, mm256_srli_epi64, lanes, each.
  cbn. by rewrite !E.
Qed.
End Instructions.

(** ** The mixing of four words *)

Abbreviation Quad := (Z * Z * Z * Z)%type.

(** Half of the function [g]. *)
Definition half (r1 r2 x : Z) (q : Quad) : Quad :=
  let '(a, b, c, d) := q in
  let a := wrapping_add (wrapping_add a b) x in
  let d := rotate_right r1 (Z.lxor d a) in
  let c := wrapping_add c d in
  let b := rotate_right r2 (Z.lxor b c) in
  (a, b, c, d).

Definition mix (x y : Z) (q : Quad) : Quad := half 16 63 y (half 32 24 x q).

Definition quad_ok (q : Quad) : Prop :=
  let '(a, b, c, d) := q in is_u64 a ∧ is_u64 b ∧ is_u64 c ∧ is_u64 d.

Lemma half_ok r1 r2 x q : 0 < r1 < 64 → 0 < r2 < 64 → quad_ok q → quad_ok (half r1 r2 x q).
Proof.
  intros H1 H2. destruct q as [[[a b] c] d]. intros (Ha & Hb & Hc & Hd).
  split_and!; try apply wrapping_add_word; apply rotate_right_word; try done;
    (apply lxor_word; [done|apply wrapping_add_word]).
Qed.

Lemma mix_ok x y q : quad_ok q → quad_ok (mix x y q).
Proof. intros Hq. apply half_ok; [lia..|]. by apply half_ok. Qed.

(** Four quadruples as the lanes of four rows. *)
Definition rows_of (p0 p1 p2 p3 : Quad) : Rows :=
  let '(a0, b0, c0, d0) := p0 in
  let '(a1, b1, c1, d1) := p1 in
  let '(a2, b2, c2, d2) := p2 in
  let '(a3, b3, c3, d3) := p3 in
  (mk256 a0 a1 a2 a3, mk256 b0 b1 b2 b3, mk256 c0 c1 c2 c3, mk256 d0 d1 d2 d3).

Definition in_rows (f : m256i → m256i → m256i → m256i → m256i → Rows) (rows : Rows)
    (x : m256i) : Rows :=
  let '(a, b, c, d) := rows in f a b c d x.

Section Lanes.
Context (p0 p1 p2 p3 : Quad) (H0 : quad_ok p0) (H1 : quad_ok p1) (H2 : quad_ok p2) (H3 : quad_ok p3).
Context (x0 x1 x2 x3 : Z).

Ltac lanes_of g :=
  destruct p0 as [[[a0 b0] c0] d0], p1 as [[[a1 b1] c1] d1], p2 as [[[a2 b2] c2] d2],
    p3 as [[[a3 b3] c3] d3];
  destruct H0 as (?&?&?&?), H1 as (?&?&?&?), H2 as (?&?&?&?), H3 as (?&?&?&?);
  unfold in_rows, rows_of, g, avx2_add, avx2_xor, mm256_add_epi64, mm256_xor_si256, lanes, half;
  cbn [q0 q1 q2 q3];
  rewrite !(wrapping_add_mid _ _ x0), !(wrapping_add_mid _ _ x1), !(wrapping_add_mid _ _ x2),
    !(wrapping_add_mid _ _ x3).

Lemma g1_lanes :
  in_rows avx2_g1 (rows_of p0 p1 p2 p3) (mk256 x0 x1 x2 x3) =
  rows_of (half 32 24 x0 p0) (half 32 24 x1 p1) (half 32 24 x2 p2) (half 32 24 x3 p3).
Proof using All.
  lanes_of avx2_g1.
  rewrite rotate_32_each by (by apply lxor_word; [|apply wrapping_add_word]). cbn [each q0 q1 q2 q3].
  rewrite rotate_24_each by (by apply lxor_word; [|apply wrapping_add_word]). done.
Qed.

Lemma g2_lanes :
  in_rows avx2_g2 (rows_of p0 p1 p2 p3) (mk256 x0 x1 x2 x3) =
  rows_of (half 16 63 x0 p0) (half 16 63 x1 p1) (half 16 63 x2 p2) (half 16 63 x3 p3).
Proof using All.
  lanes_of avx2_g2.
  rewrite rotate_16_each by (by apply lxor_word; [|apply wrapping_add_word]). cbn [each q0 q1 q2 q3].
  rewrite rotate_63_each by (by apply lxor_word; [|apply wrapping_add_word]). done.
Qed.
End Lanes.

Lemma mix_lanes p0 p1 p2 p3 x0 x1 x2 x3 y0 y1 y2 y3 :
  quad_ok p0 → quad_ok p1 → quad_ok p2 → quad_ok p3 →
  in_rows avx2_g2 (in_rows avx2_g1 (rows_of p0 p1 p2 p3) (mk256 x0 x1 x2 x3)) (mk256 y0 y1 y2 y3) =
  rows_of (mix x0 y0 p0) (mix x1 y1 p1) (mix x2 y2 p2) (mix x3 y3 p3).
Proof. intros. rewrite g1_lanes by done. by rewrite g2_lanes by (by apply half_ok). Qed.

(** ** Rounds *)

Definition diagonal (rows : Rows) : Rows :=
  let '(a, b, c, d) := rows in avx2_diagonalize a b c d.
Definition undiagonal (rows : Rows) : Rows :=
  let '(a, b, c, d) := rows in avx2_undiagonalize a b c d.

(** A round, given the four vectors of message words. *)
Definition vector_round (x y z w : m256i) (rows : Rows) : Rows :=
  undiagonal (in_rows avx2_g2 (in_rows avx2_g1 (diagonal
    (in_rows avx2_g2 (in_rows avx2_g1 rows x) y)) z) w).

(** The sixteen words of the rows. *)
Definition flat (rows : Rows) : list Z :=
  let '(a, b, c, d) := rows in epi64 a ++ epi64 b ++ epi64 c ++ epi64 d.

Definition rows_ok (rows : Rows) : Prop :=
  ∃ p0 p1 p2 p3, rows = rows_of p0 p1 p2 p3 ∧ quad_ok p0 ∧ quad_ok p1 ∧ quad_ok p2 ∧ quad_ok p3.

(** The rounds of the portable implementation, given the message words. *)
Definition scalar_round (x y z w : m256i) (v : list Z) : list Z :=
  let v := portable_g v 0 4 8 12 (q0 x) (q0 y) in
  let v := portable_g v 1 5 9 13 (q1 x) (q1 y) in
  let v := portable_g v 2 6 10 14 (q2 x) (q2 y) in
  let v := portable_g v 3 7 11 15 (q3 x) (q3 y) in
  let v := portable_g v 0 5 10 15 (q1 z) (q1 w) in
  let v := portable_g v 1 6 11 12 (q2 z) (q2 w) in
  let v := portable_g v 2 7 8 13 (q3 z) (q3 w) in
  portable_g v 3 4 9 14 (q0 z) (q0 w).

Ltac quads p0 p1 p2 p3 :=
  destruct p0 as [[[? ?] ?] ?], p1 as [[[? ?] ?] ?], p2 as [[[? ?] ?] ?], p3 as [[[? ?] ?] ?].

(** A call of [g] changes four words. *)
Definition put (a b c d : nat) (q : Quad) (v : list Z) : list Z :=
  let '(qa, qb, qc, qd) := q in <[a := qa]> (<[b := qb]> (<[c := qc]> (<[d := qd]> v))).

Ltac look := repeat first
  [ rewrite list_lookup_total_insert_eq by (rewrite ?length_insert; done)
  | rewrite list_lookup_total_insert_ne by done
  | rewrite list_lookup_insert_eq by (rewrite ?length_insert; done)
  | rewrite list_lookup_insert_ne by done ].

Lemma g_put v a b c d x y :
  (a < length v)%nat → (b < length v)%nat → (c < length v)%nat → (d < length v)%nat →
  a ≠ b → a ≠ c → a ≠ d → b ≠ c → b ≠ d → c ≠ d →
  portable_g v a b c d x y = put a b c d (mix x y (v !!! a, v !!! b, v !!! c, v !!! d)) v.
Proof.
  intros. unfold portable_g, mix, half, put. look.
  apply list_eq. intros i. destruct (decide (i = a)) as [->|]; [by look|].
  destruct (decide (i = b)) as [->|]; [by look|]. destruct (decide (i = c)) as [->|]; [by look|].
  destruct (decide (i = d)) as [->|]; by look.
Qed.

Ltac words := cbv [flat rows_of undiagonal avx2_undiagonalize epi64 app q0 q1 q2 q3].

Ltac call_g :=
  match goal with
  | |- context [portable_g (?h :: ?t) ?a ?b ?c ?d ?x ?y] =>
      rewrite (g_put (h :: t) a b c d x y) by (cbn; lia);
      cbn [lookup_total list_lookup_total];
      case (mix x y _); intros [[? ?] ?] ?; cbn [put insert list_insert]
  end.

(** Calls of [g] on the columns and on the diagonals. *)
Lemma columns_mix p0 p1 p2 p3 x0 x1 x2 x3 y0 y1 y2 y3 :
  (let v := portable_g (flat (rows_of p0 p1 p2 p3)) 0 4 8 12 x0 y0 in
   let v := portable_g v 1 5 9 13 x1 y1 in
   let v := portable_g v 2 6 10 14 x2 y2 in
   portable_g v 3 7 11 15 x3 y3) =
  flat (rows_of (mix x0 y0 p0) (mix x1 y1 p1) (mix x2 y2 p2) (mix x3 y3 p3)).
Proof. quads p0 p1 p2 p3. words. do 4 call_g. done. Qed.

Lemma flat_undiagonal a0 b0 c0 d0 a1 b1 c1 d1 a2 b2 c2 d2 a3 b3 c3 d3 :
  flat (undiagonal (rows_of (a0, b0, c0, d0) (a1, b1, c1, d1) (a2, b2, c2, d2) (a3, b3, c3, d3))) =
  [a1; a2; a3; a0; b0; b1; b2; b3; c3; c0; c1; c2; d2; d3; d0; d1].
Proof. reflexivity. Qed.

Lemma diagonals_mix p0 p1 p2 p3 z0 z1 z2 z3 w0 w1 w2 w3 :
  (let v := portable_g (flat (undiagonal (rows_of p0 p1 p2 p3))) 0 5 10 15 z1 w1 in
   let v := portable_g v 1 6 11 12 z2 w2 in
   let v := portable_g v 2 7 8 13 z3 w3 in
   portable_g v 3 4 9 14 z0 w0) =
  flat (undiagonal (rows_of (mix z0 w0 p0) (mix z1 w1 p1) (mix z2 w2 p2) (mix z3 w3 p3))).
Proof. quads p0 p1 p2 p3. rewrite flat_undiagonal. cbv zeta. do 4 call_g. done. Qed.

(** The diagonals are rows again. *)
Lemma diagonal_rows p0 p1 p2 p3 :
  quad_ok p0 → quad_ok p1 → quad_ok p2 → quad_ok p3 →
  ∃ r0 r1 r2 r3, diagonal (rows_of p0 p1 p2 p3) = rows_of r0 r1 r2 r3 ∧
    flat (undiagonal (rows_of r0 r1 r2 r3)) = flat (rows_of p0 p1 p2 p3) ∧
    quad_ok r0 ∧ quad_ok r1 ∧ quad_ok r2 ∧ quad_ok r3.
Proof.
  destruct p0 as [[[a0 b0] c0] d0], p1 as [[[a1 b1] c1] d1], p2 as [[[a2 b2] c2] d2],
    p3 as [[[a3 b3] c3] d3]. intros (?&?&?&?) (?&?&?&?) (?&?&?&?) (?&?&?&?).
  by exists (a3, b0, c1, d2), (a0, b1, c2, d3), (a1, b2, c3, d0), (a2, b3, c0, d1).
Qed.

Lemma undiagonal_rows p0 p1 p2 p3 :
  quad_ok p0 → quad_ok p1 → quad_ok p2 → quad_ok p3 → rows_ok (undiagonal (rows_of p0 p1 p2 p3)).
Proof.
  destruct p0 as [[[a0 b0] c0] d0], p1 as [[[a1 b1] c1] d1], p2 as [[[a2 b2] c2] d2],
    p3 as [[[a3 b3] c3] d3]. intros (?&?&?&?) (?&?&?&?) (?&?&?&?) (?&?&?&?).
  by exists (a1, b0, c3, d2), (a2, b1, c0, d3), (a3, b2, c1, d0), (a0, b3, c2, d1).
Qed.

Lemma vector_round_ok x y z w rows :
  rows_ok rows →
  rows_ok (vector_round x y z w rows) ∧ flat (vector_round x y z w rows) = scalar_round x y z w (flat rows).
Proof.
  intros (p0 & p1 & p2 & p3 & -> & H0 & H1 & H2 & H3). unfold vector_round, scalar_round.
  destruct x as [x0 x1 x2 x3], y as [y0 y1 y2 y3], z as [z0 z1 z2 z3], w as [w0 w1 w2 w3].
  cbn [q0 q1 q2 q3]. rewrite mix_lanes by done. pose proof (columns_mix p0 p1 p2 p3 x0 x1 x2 x3 y0 y1 y2 y3) as E.
  cbv zeta in E |- *. rewrite E.
  destruct (diagonal_rows (mix x0 y0 p0) (mix x1 y1 p1) (mix x2 y2 p2) (mix x3 y3 p3))
    as (r0 & r1 & r2 & r3 & -> & <- & R0 & R1 & R2 & R3); [by apply mix_ok..|].
  rewrite mix_lanes by done. split; [by apply undiagonal_rows; apply mix_ok|].
  symmetry. apply diagonals_mix.
Qed.

(** The message vectors of each round. *)
Definition pick (m : list Z) (s js : list nat) : m256i := of_epi64 ((λ j, m !!! (s !!! j)) <$> js).

Definition step_of (m : list Z) (s : list nat) : Rows → Rows :=
  vector_round (pick m s [0; 2; 4; 6]%nat) (pick m s [1; 3; 5; 7]%nat)
    (pick m s [14; 8; 10; 12]%nat) (pick m s [15; 9; 11; 13]%nat).

Ltac round_words r :=
  cbv delta [r] zeta beta iota;
  cbv delta [mm256_unpacklo_epi64 mm256_unpackhi_epi64] beta;
  cbn [m0 m1 m2 m3 m4 m5 m6 m7 q0 q1 q2 q3];
  rewrite ?alignr_8, ?blend_even, ?shuffle_swap by done; rewrite !blend_high by done; reflexivity.

Lemma round_step m i rows :
  length m = 16%nat → Forall is_u64 m →
  avx2_round (avx2_load_message m) rows i = step_of m (SIGMA !!! (i mod 10)%nat) rows.
Proof.
  intros Hlen Hm. destruct rows as [[[a b] c] d].
  do 16 (destruct m as [|? m]; [done|]). destruct m; [|done].
  repeat match goal with H : Forall _ (_ :: _) |- _ => apply Forall_cons in H as [? H] end.
  match goal with |- context [avx2_load_message ?l] =>
    let M := eval vm_compute in (avx2_load_message l) in change (avx2_load_message l) with M end.
  unfold avx2_round. assert (i mod 10 < 10)%nat as Hi by (apply Nat.mod_upper_bound; lia).
  destruct (i mod 10)%nat as [|[|[|[|[|[|[|[|[|[|n]]]]]]]]]]; [..|lia]; clear Hi.
  - round_words avx2_round0.
  - round_words avx2_round1.
  - round_words avx2_round2.
  - round_words avx2_round3.
  - round_words avx2_round4.
  - round_words avx2_round5.
  - round_words avx2_round6.
  - round_words avx2_round7.
  - round_words avx2_round8.
  - round_words avx2_round9.
Qed.

Lemma scalar_step m v i (s := SIGMA !!! (i mod 10)%nat) :
  portable_round m v i =
  scalar_round (pick m s [0; 2; 4; 6]%nat) (pick m s [1; 3; 5; 7]%nat)
    (pick m s [14; 8; 10; 12]%nat) (pick m s [15; 9; 11; 13]%nat) v.
Proof.
  unfold portable_round, scalar_round. fold s. generalize s. intros l. unfold pick, of_epi64.
  cbn [q0 q1 q2 q3 fmap list_fmap]. reflexivity.
Qed.

Lemma round_ok m rows i :
  length m = 16%nat → Forall is_u64 m → rows_ok rows →
  rows_ok (avx2_round (avx2_load_message m) rows i) ∧
  flat (avx2_round (avx2_load_message m) rows i) = portable_round m (flat rows) i.
Proof. intros Hlen Hm Hr. rewrite round_step, scalar_step by done. by apply vector_round_ok. Qed.

Lemma rounds_ok m rows l :
  length m = 16%nat → Forall is_u64 m → rows_ok rows →
  rows_ok (foldl (avx2_round (avx2_load_message m)) rows l) ∧
  flat (foldl (avx2_round (avx2_load_message m)) rows l) = foldl (portable_round m) (flat rows) l.
Proof.
  intros Hlen Hm. revert rows. induction l as [|i l IH]; intros rows Hr; [done|]. cbn [foldl].
  destruct (round_ok m rows i Hlen Hm Hr) as [Hr' <-]. by apply IH.
Qed.

(** What the loop starts with. *)
Definition first_rows (h t : list Z) (f : bool) : Rows :=
  (avx2_loadu (take 4 h), avx2_loadu (drop 4 h), avx2_loadu (take 4 IV),
   avx2_xor (avx2_loadu (drop 4 IV))
     (avx2_set4 (t !!! 0%nat) (t !!! 1%nat)
        (if f then Z.lxor (drop 4 IV !!! 3%nat) (not_u64 (drop 4 IV !!! 3%nat)) else 0) 0)).

Definition first_words (h t : list Z) (f : bool) : list Z :=
  let v := h ++ IV in
  let v := <[12%nat := Z.lxor (v !!! 12%nat) (t !!! 0%nat)]> v in
  let v := <[13%nat := Z.lxor (v !!! 13%nat) (t !!! 1%nat)]> v in
  if f then <[14%nat := not_u64 (v !!! 14%nat)]> v else v.

Lemma first_rows_ok h t f :
  length h = 8%nat → Forall is_u64 h → length t = 2%nat → Forall is_u64 t →
  rows_ok (first_rows h t f) ∧ flat (first_rows h t f) = first_words h t f.
Proof.
  intros Hh Hhs Ht Hts.
  destruct h as [|h0 [|h1 [|h2 [|h3 [|h4 [|h5 [|h6 [|h7 []]]]]]]]]; try done.
  destruct t as [|t0 [|t1 []]]; try done.
  repeat match goal with H : Forall _ (_ :: _) |- _ => apply Forall_cons in H as [? H] end.
  split; [|by destruct f].
  exists (h0, h4, IV !!! 0%nat, Z.lxor (IV !!! 4%nat) t0), (h1, h5, IV !!! 1%nat, Z.lxor (IV !!! 5%nat) t1),
    (h2, h6, IV !!! 2%nat, first_words [h0; h1; h2; h3; h4; h5; h6; h7] [t0; t1] f !!! 14%nat),
    (h3, h7, IV !!! 3%nat, IV !!! 7%nat).
  split; [by destruct f|]. cbn [quad_ok]. split_and!; try done; try (by apply lxor_word); by destruct f.
Qed.

(** C32: The vector implementation of the compression function of BLAKE2b is equal to the portable
    one: for every state, message, offset and flag and for every number of rounds they give the
    same eight words. *)
Theorem avx2_is_portable h m t f rounds :
  length h = 8%nat → Forall is_u64 h → length m = 16%nat → Forall is_u64 m →
  length t = 2%nat → Forall is_u64 t →
  compress true h m t f rounds = compress false h m t f rounds.
Proof.
  intros Hh Hhs Hm Hms Ht Hts. unfold compress, avx2_compress, portable_compress. cbv zeta.
  destruct (first_rows_ok h t f Hh Hhs Ht Hts) as [Hr Hw].
  fold (first_rows h t f). fold (first_words h t f).
  destruct (rounds_ok m _ (seq 0 rounds) Hm Hms Hr) as [_ Hf]. rewrite Hw in Hf. rewrite <- Hf.
  generalize (foldl (avx2_round (avx2_load_message m)) (first_rows h t f) (seq 0 rounds)).
  intros [[[a b] c] d].
  destruct h as [|h0 [|h1 [|h2 [|h3 [|h4 [|h5 [|h6 [|h7 []]]]]]]]]; try done.
  cbv [avx2_storeu avx2_xor mm256_xor_si256 lanes epi64 q0 q1 q2 q3 app flat fmap list_fmap seq].
  cbn [lookup_total list_lookup_total Nat.add take drop avx2_loadu of_epi64].
  by rewrite (Z.lxor_comm h0), (Z.lxor_comm h1), (Z.lxor_comm h2), (Z.lxor_comm h3), (Z.lxor_comm h4),
    (Z.lxor_comm h5), (Z.lxor_comm h6), (Z.lxor_comm h7).
Qed.

(** The message [abc], in the first of the examples of the specification. *)
Lemma avx2_is_portable_witness :
  compress true [0x6a09e667f2bdc948; 0xbb67ae8584caa73b; 0x3c6ef372fe94f82b; 0xa54ff53a5f1d36f1;
      0x510e527fade682d1; 0x9b05688c2b3e6c1f; 0x1f83d9abfb41bd6b; 0x5be0cd19137e2179]
    (0x636261 :: replicate 15 0) [3; 0] true 12 =
  [0x0D4D1C983FA580BA; 0xE9F6129FB697276A; 0xB7C45A68142F214C; 0xD1A2FFDB6FBB124B;
   0x2D79AB2A39C5877D; 0x95CC3345DED552C2; 0x5A92F1DBA88AD318; 0x239900D4ED8623B9].
Proof.
  rewrite avx2_is_portable by (done || by repeat (constructor; [done|])). by vm_compute.
Defined.
