(* ===== verification/Externalities.v ===== *)
(** * What the virtual machine sees of the state

    [src/parity-ethereum/ethcore/machine/src/externalities.rs], the implementation of the
    trait [Ext] on a state and a substate, with [substate.rs], the parts of [machine.rs] that
    an execution reads, and the functions of [executive.rs] that it shares.

    The tracers are those of [TransactOptions::with_no_tracing], the ones the node uses, which
    do nothing.  The precompiled contracts are functions of the machine. *)

From S2P Require Import Prelude Hash Transaction Account State Schedule EvmWord Vm Gasometer.

Local Open Scope Z_scope.

(** ** The machine *)

(** The operations of a precompiled contract; [builtin_execute] gives the output that it
    writes. *)
Record Builtin := mkBuiltin {
  builtin_is_active : Z → bool;
  builtin_cost : list byte → Z → Outcome Z;
  builtin_execute : list byte → Outcome (Result (list byte) String.string);
}.

Record Machine := mkMachine {
  machine_params : CommonParams;
  machine_builtins : gmap Address Builtin;
  homestead_transition : option Z;
  schedule_rules : option (Schedule → Z → Schedule);
}.

(** [Machine::schedule]. *)
Definition machine_schedule (self : Machine) (block_number : Z) : Schedule :=
  let schedule :=
    match homestead_transition self with
    | None => params_schedule (machine_params self) block_number
    | Some transition =>
        if block_number <? transition then new_frontier
        else params_schedule (machine_params self) block_number
    end in
  match schedule_rules self with
  | Some rules => rules schedule block_number
  | None => schedule
  end.

(** [Machine::builtin]. *)
Definition machine_builtin (self : Machine) (a : Address) (block_number : Z) : option Builtin :=
  b ← machine_builtins self !! a;
  if builtin_is_active b block_number then Some b else None.

(** ** Substates *)

Record LogEntry := mkLogEntry {
  log_address : Address;
  log_topics : list H256;
  log_data : list byte;
}.

(** [sstore_clears_refund] is an [i128], kept here as an unbounded [Z]: an [SSTORE] changes
    it by a price of the schedule, a few thousand units of gas, and is paid with gas itself, so that
    an execution with less than [2 ^ 64] gas stays far inside the range of an [i128]. *)
Record Substate := mkSubstate {
  suicides : gset Address;
  touched : gset Address;
  logs : list LogEntry;
  sstore_clears_refund : Z;
  contracts_created : list Address;
}.

Definition substate_new : Substate := mkSubstate ∅ ∅ [] 0 [].

Definition accrue (self s : Substate) : Substate :=
  mkSubstate (suicides self ∪ suicides s) (touched self ∪ touched s) (logs self ++ logs s)
    (sstore_clears_refund self + sstore_clears_refund s)
    (contracts_created self ++ contracts_created s).

Definition set_touched (t : gset Address) (s : Substate) : Substate :=
  mkSubstate (suicides s) t (logs s) (sstore_clears_refund s) (contracts_created s).
Definition add_suicide (a : Address) (s : Substate) : Substate :=
  mkSubstate ({[a]} ∪ suicides s) (touched s) (logs s) (sstore_clears_refund s)
    (contracts_created s).
Definition add_log (l : LogEntry) (s : Substate) : Substate :=
  mkSubstate (suicides s) (touched s) (logs s ++ [l]) (sstore_clears_refund s)
    (contracts_created s).
Definition add_refund (v : Z) (s : Substate) : Substate :=
  mkSubstate (suicides s) (touched s) (logs s) (sstore_clears_refund s + v) (contracts_created s).
Definition add_created (a : Address) (s : Substate) : Substate :=
  mkSubstate (suicides s) (touched s) (logs s) (sstore_clears_refund s)
    (contracts_created s ++ [a]).

(** ** Functions of the executive *)

Definition UNSIGNED_SENDER : Address := replicate 20 "255"%byte.

(** The conversion of a hash to an address keeps its last 20 bytes. *)
Definition hash_address (h : H256) : Address := drop 12 (h256_bytes h).

Definition contract_address `{Keccak} `{Rlp} (address_scheme : CreateContractAddress)
    (sender : Address) (nonce : Z) (code : list byte) : Address * option H256 :=
  match address_scheme with
  | FromSenderAndNonce =>
      (hash_address (keccak (rlp_out [begin_list 2; append_bytes sender; append_uint nonce])), None)
  | FromSenderSaltAndCodeHash salt =>
      let code_hash := keccak code in
      (hash_address (keccak ("255"%byte :: sender ++ h256_bytes salt ++ h256_bytes code_hash)),
       Some code_hash)
  | FromSenderAndCodeHash =>
      let code_hash := keccak code in
      (hash_address (keccak (sender ++ h256_bytes code_hash)), Some code_hash)
  end.

Definition into_message_call_result (result : Result FinalizationResult VmError) :
    MessageCallResult :=
  match result with
  | Ok (mkFinalization gas_left true return_data) => CallSuccess gas_left return_data
  | Ok (mkFinalization gas_left false return_data) => CallReverted gas_left return_data
  | Err _ => CallFailed
  end.

Definition into_contract_create_result (result : Result FinalizationResult VmError) (a : Address)
    (substate : Substate) : ContractCreateResult * Substate :=
  match result with
  | Ok (mkFinalization gas_left true _) => (Created a gas_left, add_created a substate)
  | Ok (mkFinalization gas_left false return_data) =>
      (CreateReverted gas_left return_data, substate)
  | Err _ => (CreateFailed, substate)
  end.

(** The mode borrows the touched addresses of the substate; [put_mode] is the end of the
    borrow. *)
Definition cleanup_mode (substate : Substate) (schedule : Schedule) : CleanupMode :=
  match bool_decide (kill_dust schedule ≠ DustOff), no_empty schedule, kill_empty schedule with
  | false, false, _ => ForceCreate
  | false, true, false => NoEmpty
  | _, _, _ => TrackTouched (touched substate)
  end.

Definition put_mode (mode : CleanupMode) (substate : Substate) : Substate :=
  match mode with TrackTouched t => set_touched t substate | _ => substate end.

(** ** Externalities *)

Inductive OutputPolicy := Return | InitContract.

Record OriginInfo := mkOriginInfo {
  oi_address : Address;
  oi_origin : Address;
  oi_gas_price : Z;
  oi_value : Z;
}.

Definition origin_info_from (params : ActionParams) : OriginInfo :=
  mkOriginInfo (ap_address params) (ap_origin params) (ap_gas_price params)
    (action_value (ap_value params)).

(** The fields of the struct that an execution does not change; the stack depth, by which
    deep calls move to a new thread, is left out. *)
Record Externalities := mkExternalities {
  ex_env_info : EnvInfo;
  ex_depth : Z;
  ex_origin_info : OriginInfo;
  ex_machine : Machine;
  ex_schedule : Schedule;
  ex_output : OutputPolicy;
  ex_static_flag : bool;
}.

Section Externalities.
Context `{Keccak} `{Rlp} `{LruCache H256 H256} `{TrieDatabase} `{HashOrder}.
Context {B : Type} `{!Backend B}.

(** The state and the substate that the struct borrows. *)
Definition Borrowed : Type := State (B := B) * Substate.

(** An operation of the state; a failing trie lookup is an internal error. *)
Definition state_op {A} (m : SM (B := B) A) : XM Borrowed A := λ '(state, substate),
  '(state, r) ← m state;
  Done ((state, substate), match r with Ok a => Ok a | Err e => Err (Internal e) end).

Definition change_substate (f : Substate → Substate) : XM Borrowed unit := λ '(state, substate),
  Done ((state, f substate), Ok tt).

(** An operation of the state on which a cleanup mode is spent. *)
Definition with_cleanup (schedule : Schedule) (f : CleanupMode → SM (B := B) CleanupMode) :
    XM Borrowed unit := λ '(state, substate),
  '(state, r) ← f (cleanup_mode substate schedule) state;
  match r with
  | Ok mode => Done ((state, put_mode mode substate), Ok tt)
  | Err e => Done ((state, substate), Err (Internal e))
  end.

(** [State::transfer_balance] with the cleanup mode of the substate, which is borrowed for both
    halves. *)
Definition transfer (schedule : Schedule) (from to : Address) (value : Z) : XM Borrowed unit :=
  _ ← with_cleanup schedule (sub_balance from value);
  with_cleanup schedule (add_balance to value).

(** [call_with_crossbeam] and [create_with_crossbeam] of an executive with the given depth and
    static flag. *)
Context (nested_call nested_create : Z → bool → ActionParams → XM Borrowed FinalizationResult).

Section Self.
Context (self : Externalities).
Abbreviation address := (oi_address (ex_origin_info self)).

Definition externalities_initial_storage_at (key : H256) : XM Borrowed H256 :=
  unchanged ← state_op (is_base_storage_root_unchanged address);
  if (unchanged : bool) then
    v ← state_op (checkpoint_storage_at 0 address key);
    mret (default h256_default v)
  else mret h256_default.

Definition externalities_set_storage (key value : H256) : XM Borrowed unit :=
  if ex_static_flag self then xm_err MutableCallInStaticContext
  else state_op (set_storage address key value).

(** The code of an account, with its hash and its version. *)
Definition code_of (a : Address) : SM (B := B) (option (list byte) * option H256 * Z) :=
  code ← State.code a;
  hash ← code_hash a;
  version ← code_version a;
  mret (code, hash, version).

Definition blockhash_contract (number : Z) (x : Borrowed) : Outcome (Borrowed * H256) :=
  let params := machine_params (ex_machine self) in
  let blockhash_contract_address := eip210_contract_address params in
  '(x, r) ← state_op (code_of blockhash_contract_address) x;
  match r with
  | Err _ => Done (x, h256_default)
  | Ok (code, code_hash, code_version) =>
      let action :=
        mkActionParams blockhash_contract_address code_hash blockhash_contract_address address
          (oi_origin (ex_origin_info self)) (eip210_contract_gas params) 0
          (Apparent (oi_value (ex_origin_info self))) code code_version
          (Some (h256_bytes (h256 number))) CT_Call Separate in
      '(x, r) ← nested_call 0 false action x;
      match r with
      | Ok r =>
          data ← rd_deref (fr_return_data r);
          word ← slice data 0 32;
          output ← unwrap (h256_of_bytes word);
          Done (x, output)
      | Err _ => Done (x, h256_default)
      end
  end.

Definition externalities_blockhash (number : Z) (x : Borrowed) : Outcome (Borrowed * H256) :=
  let now := env_number (ex_env_info self) in
  next ← usize_add now 256;
  if eip210_transition (machine_params (ex_machine self)) <=? next
  then blockhash_contract number x
  else if (number <? now) && (Z.max 256 now - 256 <=? low_u64 number) then
    before ← usize_sub now (low_u64 number);
    index ← usize_sub before 1;
    h ← unwrap (env_last_hashes (ex_env_info self) !! Z.to_nat index);
    Done (x, h)
  else Done (x, h256_default).

Definition externalities_create (gas value : Z) (code : list byte) (parent_version : Z)
    (address_scheme : CreateContractAddress) (trap : bool) (x : Borrowed) :
    Outcome (Borrowed * Result ContractCreateResult TrapKind) :=
  '(x, r) ← state_op (State.nonce address) x;
  match r with
  | Err _ => Done (x, Ok CreateFailed)
  | Ok nonce =>
      let '(new_address, code_hash) := contract_address address_scheme address nonce code in
      let params :=
        mkActionParams new_address code_hash new_address address (oi_origin (ex_origin_info self))
          gas (oi_gas_price (ex_origin_info self)) (Transfer value) (Some code) parent_version
          None CT_None Embedded in
      '(x, r) ←
        (if negb (ex_static_flag self) &&
            (negb (keep_unsigned_nonce (ex_schedule self)) ||
             bool_decide (address ≠ UNSIGNED_SENDER))
         then state_op (inc_nonce address) x else Done (x, Ok tt));
      match r with
      | Err _ => Done (x, Ok CreateFailed)
      | Ok _ =>
          if trap then Done (x, Err (TrapCreate params new_address))
          else
            '((state, substate), out) ←
              nested_create (ex_depth self + 1) (ex_static_flag self) params x;
            let '(result, substate) := into_contract_create_result out new_address substate in
            Done ((state, substate), Ok result)
      end
  end.

Definition externalities_call (gas : Z) (sender_address receive_address : Address)
    (value : option Z) (data : list byte) (code_address : Address) (call_type : CallType)
    (trap : bool) (x : Borrowed) : Outcome (Borrowed * Result MessageCallResult TrapKind) :=
  '(x, r) ← state_op (code_of code_address) x;
  match r with
  | Err _ => Done (x, Ok CallFailed)
  | Ok (code, code_hash, code_version) =>
      let params :=
        mkActionParams code_address code_hash receive_address sender_address
          (oi_origin (ex_origin_info self)) gas (oi_gas_price (ex_origin_info self))
          (match value with
           | Some value => Transfer value
           | None => Apparent (oi_value (ex_origin_info self))
           end) code code_version (Some data) call_type Separate in
      if trap then Done (x, Err (TrapCall params))
      else
        '(x, out) ← nested_call (ex_depth self + 1) (ex_static_flag self) params x;
        Done (x, Ok (into_message_call_result out))
  end.

Definition externalities_extcodehash (a : Address) : XM Borrowed (option H256) :=
  b ← state_op (exists_and_not_null a);
  if (b : bool) then state_op (code_hash a) else mret None.

Definition externalities_log (topics : list H256) (data : list byte) : XM Borrowed unit :=
  if ex_static_flag self then xm_err MutableCallInStaticContext
  else change_substate (add_log (mkLogEntry address topics data)).

Definition externalities_ret (gas : Z) (data : ReturnData) (apply_state : bool) :
    XM Borrowed Z :=
  match ex_output self, apply_state with
  | InitContract, true =>
      len ← xm_done (rd_len data);
      return_cost ← xm_done (u256_mul len (create_data_gas (ex_schedule self)));
      if (gas <? return_cost) || (create_data_limit (ex_schedule self) <? len) then
        if exceptional_failed_code_deposit (ex_schedule self) then xm_err OutOfGas else mret gas
      else
        code ← xm_done (rd_deref data);
        _ ← state_op (init_code address code);
        xm_done (u256_sub gas return_cost)
  | _, _ => mret gas
  end.

Definition externalities_suicide (refund_address : Address) : XM Borrowed unit :=
  if ex_static_flag self then xm_err MutableCallInStaticContext
  else
    balance ← state_op (balance address);
    _ ← (if decide (address = refund_address)
         then _ ← state_op (sub_balance address balance NoEmpty); mret tt
         else transfer (ex_schedule self) address refund_address balance);
    change_substate (add_suicide address).

Definition externalities_ext : Ext Borrowed := {|
  ext_initial_storage_at := externalities_initial_storage_at;
  ext_storage_at key := state_op (storage_at address key);
  ext_set_storage := externalities_set_storage;
  ext_exists a := state_op (exists_account a);
  ext_exists_and_not_null a := state_op (exists_and_not_null a);
  ext_origin_balance := state_op (balance address);
  ext_balance a := state_op (balance a);
  ext_blockhash := externalities_blockhash;
  ext_create := externalities_create;
  ext_call := externalities_call;
  ext_extcode a := state_op (State.code a);
  ext_extcodehash := externalities_extcodehash;
  ext_extcodesize a := size ← state_op (code_size a); mret (Z.of_nat <$> size);
  ext_log := externalities_log;
  ext_ret := externalities_ret;
  ext_suicide := externalities_suicide;
  ext_schedule x := ex_schedule self;
  ext_env_info x := ex_env_info self;
  ext_chain_id x := chain_id (machine_params (ex_machine self));
  ext_depth x := ex_depth self;
  ext_add_sstore_refund v x := (x.1, add_refund v x.2);
  ext_sub_sstore_refund v x := (x.1, add_refund (- v) x.2);
  ext_trace_next_instruction pc op gas x := (x, false);
  ext_trace_prepare_execute pc op gas mw sw x := x;
  ext_trace_failed x := x;
  ext_trace_executed gas words m x := x;
  ext_is_static x := ex_static_flag self;
|}.
End Self.
End Externalities.
