(* ===== verification/Builtins.v ===== *)
(** * Precompiled contracts

    [src/parity-ethereum/ethcore/builtin/src/lib.rs]: the prices of the precompiled contracts
    and what they execute, and the part of a chain specification that lists them
    ([src/parity-ethereum/json/src/spec/builtin.rs]).

    The buffer for the output comes from the crate [parity-bytes], signatures and digests from
    [parity-crypto], the curve from [bn]; they are parameters.  The numbers of [num::BigUint]
    are natural numbers in [Z]. *)

From S2P Require Import Prelude Hash Transaction KeyValue Account EvmWord Gasometer Blake2.
From Stdlib Require String.
Import String.StringSyntax.

Delimit Scope string_scope with string.
Bind Scope string_scope with String.string.

Local Open Scope Z_scope.

Abbreviation bytes := (list byte).
Abbreviation zero_byte := ("000"%byte).

(** ** Libraries *)

(** [BytesRef::write] on a flexible buffer. *)
Class BytesRef := bytes_write : bytes → nat → bytes → bytes.

(** Writing at or after the end fills the gap with zeros. *)
Class BytesRefLaws `{BytesRef} : Prop :=
  bytes_write_end buf offset input :
    (length buf ≤ offset)%nat →
    bytes_write buf offset input = buf ++ replicate (offset - length buf) zero_byte ++ input.

Class Digests := {
  sha256 : bytes → bytes;
  ripemd160 : bytes → bytes;
  (** [Signature::is_valid]. *)
  signature_is_valid : Signature → bool;
}.

Class DigestLaws `{Digests} : Prop := {
  length_sha256 input : length (sha256 input) = 32%nat;
  length_ripemd160 input : length (ripemd160 input) = 20%nat;
}.

(** The crate [bn].  [affine_g1_new] and [affine_g2_new] give [None] off the curve;
    [g1_affine] is [AffineG1::from_jacobian]. *)
Class Bn := {
  Fq : Type; Fr : Type; Fq2 : Type; G1 : Type; G2 : Type; Gt : Type;
  fq_from_slice : bytes → option Fq;
  fr_from_slice : bytes → option Fr;
  fq_is_zero : Fq → bool;
  fq_to_big_endian : Fq → bytes;
  fq2_new : Fq → Fq → Fq2;
  fq2_is_zero : Fq2 → bool;
  g1_zero : G1;
  g2_zero : G2;
  affine_g1_new : Fq → Fq → option G1;
  affine_g2_new : Fq2 → Fq2 → option G2;
  g1_affine : G1 → option (Fq * Fq);
  g1_add : G1 → G1 → G1;
  g1_mul : G1 → Fr → G1;
  pairing_batch : list (G1 * G2) → Gt;
  gt_is_one : Gt → bool;
}.

Class BnLaws `{Bn} : Prop := length_fq x : length (fq_to_big_endian x) = 32%nat.

(** ** Reading

    [input.chain(io::repeat(0))] and [read_exact]. *)
Definition read_exact (n : nat) (reader : bytes) : bytes * bytes :=
  (take n (reader ++ replicate n zero_byte), drop n reader).

(** [vec![0; n]] panics when the capacity is above [isize::MAX]. *)
Definition vec_alloc (n : Z) : Outcome unit := if n <? 2 ^ 63 then Done tt else Panic.

(** [U256::leading_zeros]. *)
Definition u256_leading_zeros (x : Z) : Z := if x =? 0 then 256 else 255 - Z.log2 x.

(** ** Prices *)

Record Linear := mkLinear { linear_base : Z; linear_word : Z }.
Record AltBn128PairingPrice := mkPairing { pairing_base : Z; pairing_pair : Z }.

Inductive Pricing :=
| PriceAltBn128Pairing (price : AltBn128PairingPrice)
| PriceAltBn128Const (price : Z)
| PriceBlake2F (gas_per_round : Z)
| PriceLinear (l : Linear)
| PriceModexp (divisor : Z).

Definition blake2f_cost (self : Z) (input : bytes) : Z :=
  if (length input <? 4)%nat then 0 else self * from_be_bytes (take 4 input).

Definition linear_cost (self : Linear) (input : bytes) : Outcome Z :=
  words ← u256_mul (linear_word self) (u64 (Z.of_nat (length input) + 31) / 32);
  u256_add (linear_base self) words.

Definition pairing_cost (self : AltBn128PairingPrice) (input : bytes) : Outcome Z :=
  pairs ← u256_mul (pairing_pair self) (Z.of_nat (length input) / 192);
  u256_add (pairing_base self) pairs.

Definition adjusted_exp_len (len exp_low : Z) : Z :=
  let bit_index := if exp_low =? 0 then 0 else 255 - u256_leading_zeros exp_low in
  if len <=? 32 then bit_index else u64 (8 * (len - 32) + bit_index).

Definition mult_complexity (x : Z) : Z :=
  if x <=? 64 then u64 (x * x)
  else if x <=? 1024 then u64 (u64 (x * x) / 4 + 96 * x - 3072)
  else u64 (u64 (x * x) / 16 + 480 * x - 199680).

(** The division panics when the divisor is zero. *)
Definition modexp_cost (divisor : Z) (input : bytes) : Outcome Z :=
  let '(buf, reader) := read_exact 32 input in
  let base_len := from_be_bytes buf in
  let '(buf, reader) := read_exact 32 reader in
  let exp_len := from_be_bytes buf in
  let '(buf, reader) := read_exact 32 reader in
  let mod_len := from_be_bytes buf in
  if (mod_len =? 0) && (base_len =? 0) then Done 0
  else
    let max_len := (2 ^ 32 - 1) / 2 in
    if (max_len <? base_len) || (max_len <? mod_len) || (max_len <? exp_len) then Done U256_MAX
    else
      let m := Z.max mod_len base_len in
      let exp_low :=
        if Z.of_nat (length input) <=? u64 (base_len + 96) then 0
        else
          let len := Z.to_nat (Z.min exp_len 32) in
          let '(word, _) := read_exact len (drop (Z.to_nat (96 + base_len)) input) in
          from_be_bytes (replicate (32 - len) zero_byte ++ word) in
      let gas := mult_complexity m * Z.max (adjusted_exp_len exp_len exp_low) 1 in
      if 2 ^ 64 <=? gas then Done U256_MAX
      else if divisor =? 0 then Panic else Done (gas / divisor).

Definition pricing_cost (self : Pricing) (input : bytes) : Outcome Z :=
  match self with
  | PriceAltBn128Pairing inner => pairing_cost inner input
  | PriceAltBn128Const price => Done price
  | PriceBlake2F inner => Done (blake2f_cost inner input)
  | PriceLinear inner => linear_cost inner input
  | PriceModexp divisor => modexp_cost divisor input
  end.

(** ** Contracts *)

Inductive EthereumBuiltin :=
| Identity | EcRecover | Sha256 | Ripemd160 | Modexp | Bn128Add | Bn128Mul | Bn128Pairing | Blake2F.

Definition builtin_from_str (name : String.string) : option EthereumBuiltin :=
  if String.eqb name "identity" then Some Identity
  else if String.eqb name "ecrecover" then Some EcRecover
  else if String.eqb name "sha256" then Some Sha256
  else if String.eqb name "ripemd160" then Some Ripemd160
  else if String.eqb name "modexp" then Some Modexp
  else if String.eqb name "alt_bn128_add" then Some Bn128Add
  else if String.eqb name "alt_bn128_mul" then Some Bn128Mul
  else if String.eqb name "alt_bn128_pairing" then Some Bn128Pairing
  else if String.eqb name "blake2_f" then Some Blake2F
  else None.

(** *** Modular exponentiation *)

(** [BigUint::to_bytes_be]; zero has one byte. *)
Definition big_to_bytes_be (z : Z) : bytes :=
  if z =? 0 then [zero_byte] else to_be_bytes (Z.to_nat (Z.log2 z / 8 + 1)) z.

(** One turn of the loop over the bits of a digit. *)
Definition modexp_bit (base modulus digit : Z) (s : Z * Z) : Z * Z :=
  let '(result, mask) := s in
  let result := (result * result) `mod` modulus in
  let result := if 0 <? Z.land digit mask then (result * base) `mod` modulus else result in
  (result, Z.shiftr mask 1).

Definition modexp_digit (base modulus : Z) (result : Z) (digit : byte) : Z :=
  (Nat.iter 8 (modexp_bit base modulus (Z_of_byte digit)) (result, Z.shiftl 1 (8 - 1))).1.

(** [skip_while]. *)
Fixpoint skip_zeros (exp : bytes) : bytes :=
  match exp with
  | [] => []
  | d :: exp' => if Z_of_byte d =? 0 then skip_zeros exp' else exp
  end.

Definition modexp (base : Z) (exp : bytes) (modulus : Z) : Z :=
  if modulus <=? 1 then 0
  else
    match skip_zeros exp with
    | [] => 1
    | exp =>
        if base =? 0 then 0
        else
          let base := base `mod` modulus in
          if base =? 0 then 0
          else foldl (modexp_digit base modulus) 1 exp
    end.

Section Execute.
Context `{Keccak} `{PublicKeyCrypto} `{BytesRef} `{Digests} `{Bn}.
(** Whether the processor has the vector instructions. *)
Context (avx2 : bool).

Abbreviation Output := (Outcome (Result bytes String.string)).

Definition write0 (input : bytes) : Output := Done (Ok (bytes_write [] 0 input)).

Definition execute_modexp (input : bytes) : Output :=
  let read_len reader :=
    let '(buf, reader) := read_exact 32 reader in (from_be_bytes (drop 24 buf), reader) in
  let '(base_len, reader) := read_len input in
  let '(exp_len, reader) := read_len reader in
  let '(mod_len, reader) := read_len reader in
  r ← (if (base_len =? 0) && (mod_len =? 0) then Done 0
       else
         _ ← vec_alloc (Z.max mod_len (Z.max base_len exp_len));
         let '(base, reader) := read_exact (Z.to_nat base_len) reader in
         _ ← vec_alloc exp_len;
         let '(exp_buf, reader) := read_exact (Z.to_nat exp_len) reader in
         let '(modulus, _) := read_exact (Z.to_nat mod_len) reader in
         Done (modexp (from_be_bytes base) exp_buf (from_be_bytes modulus)));
  let out := big_to_bytes_be r in
  if Z.of_nat (length out) <=? mod_len
  then Done (Ok (bytes_write [] (Z.to_nat (mod_len - Z.of_nat (length out))) out))
  else Done (Ok []).

(** *** Digests and signatures *)

Definition from_slice (bs : bytes) : Outcome H256 := from_option Done Panic (h256_of_bytes bs).

Definition slice (from to : nat) (bs : bytes) : bytes := take (to - from) (drop from bs).

Definition execute_ecrecover (i : bytes) : Output :=
  let len := Nat.min (length i) 128 in
  let input := take len i ++ replicate (128 - len) zero_byte in
  hash ← from_slice (slice 0 32 input);
  v ← from_slice (slice 32 64 input);
  r ← from_slice (slice 64 96 input);
  s ← from_slice (slice 96 128 input);
  let last := Z_of_byte (nth 31 (h256_bytes v) zero_byte) in
  if ((last =? 27) || (last =? 28)) &&
     bool_decide (take 31 (h256_bytes v) = replicate 31 zero_byte)
  then
    let sig := from_rsv r s (last - 27) in
    if signature_is_valid sig then
      match pk_recover sig hash with
      | Ok p =>
          let buf := bytes_write [] 0 (replicate 12 zero_byte) in
          Done (Ok (bytes_write buf 12 (drop 12 (h256_bytes (keccak p)))))
      | Err _ => Done (Ok [])
      end
    else Done (Ok [])
  else Done (Ok []).

Definition execute_ripemd160 (input : bytes) : Output :=
  let buf := bytes_write [] 0 (replicate 12 zero_byte) in
  Done (Ok (bytes_write buf 12 (ripemd160 input))).

(** *** The compression function of BLAKE2b *)

(** Words of eight bytes, the lowest byte first. *)
Definition read_words (n : nat) (input : bytes) : list Z :=
  (λ k, from_le_bytes (take 8 (drop (8 * k) input))) <$> seq 0 n.

Definition execute_blake2f (input : bytes) : Output :=
  if negb (length input =? 213)%nat
  then Done (Err "input length for Blake2 F precompile should be exactly 213 bytes"%string)
  else
    let rounds := from_be_bytes (take 4 input) in
    let h := read_words 8 (drop 4 input) in
    let m := read_words 16 (drop 68 input) in
    let t := read_words 2 (drop 196 input) in
    match Z_of_byte <$> last input with
    | Some 1 | Some 0 =>
        let f := bool_decide (Z_of_byte <$> last input = Some 1) in
        let h := compress avx2 h m t f (Z.to_nat rounds) in
        write0 (h ≫= to_le_bytes 8)
    | _ => Done (Err "incorrect final block indicator flag"%string)
    end.

(** *** The curve *)

Definition map_err {A} (e : String.string) (o : option A) : Result A String.string :=
  match o with Some a => Ok a | None => Err e end.

Definition read_fr (reader : bytes) : Result Fr String.string * bytes :=
  let '(buf, reader) := read_exact 32 reader in
  (map_err "Invalid field element" (fr_from_slice buf), reader).

Definition read_point (reader : bytes) : Result G1 String.string * bytes :=
  let '(buf_x, reader) := read_exact 32 reader in
  let '(buf_y, reader) := read_exact 32 reader in
  (try_bind (map_err "Invalid point x coordinate" (fq_from_slice buf_x)) (λ px,
   try_bind (map_err "Invalid point y coordinate" (fq_from_slice buf_y)) (λ py,
   if fq_is_zero px && fq_is_zero py then Ok g1_zero
   else map_err "Invalid curve point" (affine_g1_new px py))), reader).

(** The coordinates of a point, or zeros at infinity. *)
Definition write_point (p : G1) : Output :=
  write0 (match g1_affine p with
          | Some (x, y) => fq_to_big_endian x ++ fq_to_big_endian y
          | None => replicate 64 zero_byte
          end).

Definition output_of_result (r : Result G1 String.string) : Output :=
  match r with Ok p => write_point p | Err e => Done (Err e) end.

Definition execute_bn128_add (input : bytes) : Output :=
  let '(p1, reader) := read_point input in
  output_of_result (try_bind p1 (λ p1,
    let '(p2, _) := read_point reader in
    try_bind p2 (λ p2, Ok (g1_add p1 p2)))).

Definition execute_bn128_mul (input : bytes) : Output :=
  let '(p, reader) := read_point input in
  output_of_result (try_bind p (λ p,
    let '(fr, _) := read_fr reader in
    try_bind fr (λ fr, Ok (g1_mul p fr)))).

(** The pair of points at one element of the input. *)
Definition read_pair (input : bytes) (idx : nat) : Result (G1 * G2) String.string :=
  let coordinate k := fq_from_slice (slice (idx * 192 + 32 * k) (idx * 192 + 32 * k + 32) input) in
  try_bind (map_err "Invalid a argument x coordinate" (coordinate 0%nat)) (λ a_x,
  try_bind (map_err "Invalid a argument y coordinate" (coordinate 1%nat)) (λ a_y,
  try_bind (map_err "Invalid b argument imaginary coeff x coordinate" (coordinate 2%nat)) (λ b_a_y,
  try_bind (map_err "Invalid b argument imaginary coeff y coordinate" (coordinate 3%nat)) (λ b_a_x,
  try_bind (map_err "Invalid b argument real coeff x coordinate" (coordinate 4%nat)) (λ b_b_y,
  try_bind (map_err "Invalid b argument real coeff y coordinate" (coordinate 5%nat)) (λ b_b_x,
  let b_a := fq2_new b_a_x b_a_y in
  let b_b := fq2_new b_b_x b_b_y in
  try_bind (if fq2_is_zero b_a && fq2_is_zero b_b then Ok g2_zero
            else map_err "Invalid b argument - not on curve" (affine_g2_new b_a b_b)) (λ b,
  try_bind (if fq_is_zero a_x && fq_is_zero a_y then Ok g1_zero
            else map_err "Invalid a argument - not on curve" (affine_g1_new a_x a_y)) (λ a,
  Ok (a, b))))))))).

Fixpoint read_pairs (input : bytes) (ids : list nat) : Result (list (G1 * G2)) String.string :=
  match ids with
  | [] => Ok []
  | idx :: ids =>
      try_bind (read_pair input idx) (λ p, try_bind (read_pairs input ids) (λ vals, Ok (p :: vals)))
  end.

Definition execute_with_error (input : bytes) : Output :=
  let ret_val :=
    if (length input =? 0)%nat then Ok 1
    else
      let elements := (length input / 192)%nat in
      try_bind (read_pairs input (seq 0 elements)) (λ vals,
        let mul := pairing_batch vals in
        if gt_is_one mul then Ok 1 else Ok 0) in
  match ret_val with
  | Ok v => write0 (to_be_bytes 32 v)
  | Err e => Done (Err e)
  end.

Definition execute_bn128_pairing (input : bytes) : Output :=
  if negb (length input mod 192 =? 0)%nat
  then Done (Err "Invalid input length, must be multiple of 192 (3 * (32*2))"%string)
  else execute_with_error input.

(** *** All contracts *)

Definition ethereum_builtin_execute (self : EthereumBuiltin) (input : bytes) : Output :=
  match self with
  | Identity => write0 input
  | EcRecover => execute_ecrecover input
  | Sha256 => write0 (sha256 input)
  | Ripemd160 => execute_ripemd160 input
  | Modexp => execute_modexp input
  | Bn128Add => execute_bn128_add input
  | Bn128Mul => execute_bn128_mul input
  | Bn128Pairing => execute_bn128_pairing input
  | Blake2F => execute_blake2f input
  end.
End Execute.

(** ** Builtins *)

Record NativeBuiltin := mkNativeBuiltin {
  pricer : gmap Z Pricing;
  native : EthereumBuiltin;
}.

(** [self.pricer.range(0..=at).last()]. *)
Definition pricer_at (self : NativeBuiltin) (at_block : Z) : option Pricing :=
  snd <$> last (filter (λ p, 0 ≤ p.1 ≤ at_block) (btree_list (pricer self))).

Definition native_cost (self : NativeBuiltin) (input : bytes) (at_block : Z) : Outcome Z :=
  match pricer_at self at_block with
  | Some pricer => pricing_cost pricer input
  | None => Done 0
  end.

Definition native_is_active (self : NativeBuiltin) (at_block : Z) : bool :=
  bool_decide (is_Some (pricer_at self at_block)).

(** *** In a chain specification *)

(** [ethjson::spec::builtin]; its [Pricing] has the same variants. *)
Inductive PricingCompat :=
| Single (pricing : Pricing)
| Multi (pricings : gmap Z Pricing).

Record BuiltinCompat := mkBuiltinCompat {
  compat_name : String.string;
  compat_pricing : PricingCompat;
  compat_activate_at : option Z;
}.

Record BuiltinSpec := mkBuiltinSpec {
  spec_name : String.string;
  spec_pricing : gmap Z Pricing;
}.

Definition builtin_spec_from (legacy : BuiltinCompat) : BuiltinSpec :=
  mkBuiltinSpec (compat_name legacy)
    (match compat_pricing legacy with
     | Single pricing => {[default 0 (compat_activate_at legacy) := pricing]}
     | Multi pricings => pricings
     end).

(** The conversion of a price; there is no division by zero. *)
Definition pricing_from (pricing : Pricing) : Pricing :=
  match pricing with
  | PriceModexp divisor => PriceModexp (if divisor =? 0 then 10 else divisor)
  | pricing => pricing
  end.

(** [None] is the error that the name is not known. *)
Definition builtin_try_from (b : BuiltinSpec) : option NativeBuiltin :=
  native ← builtin_from_str (spec_name b);
  Some (mkNativeBuiltin (pricing_from <$> spec_pricing b) native).

(** ** Concrete libraries, to evaluate the model on examples *)

Definition example_bytes_ref : BytesRef := λ buf offset input,
  buf ++ replicate (offset - length buf) "000"%byte ++ input.
Lemma example_bytes_ref_laws : BytesRefLaws (H := example_bytes_ref).
Proof. by intros buf offset input _. Qed.

Definition example_digests : Digests := {|
  sha256 _ := replicate 32 "000"%byte;
  ripemd160 _ := replicate 20 "000"%byte;
  signature_is_valid _ := true;
|}.
Lemma example_digest_laws : DigestLaws (H := example_digests).
Proof. done. Qed.

(** A curve with one point. *)
Definition example_bn : Bn := {|
  Fq := unit; Fr := unit; Fq2 := unit; G1 := unit; G2 := unit; Gt := unit;
  fq_from_slice _ := Some tt; fr_from_slice _ := Some tt; fq_is_zero _ := true;
  fq_to_big_endian _ := replicate 32 "000"%byte; fq2_new _ _ := tt; fq2_is_zero _ := true;
  g1_zero := tt; g2_zero := tt; affine_g1_new _ _ := Some tt; affine_g2_new _ _ := Some tt;
  g1_affine _ := None; g1_add _ _ := tt; g1_mul _ _ := tt; pairing_batch _ := tt; gt_is_one _ := true;
|}.
Lemma example_bn_laws : BnLaws (H := example_bn).
Proof. done. Qed.
