(* ===== verification/BuiltinsTheorems.v ===== *)
(** * Theorems on the precompiled contracts

    Modular exponentiation and its price are those of EIP-198, prices change at their
    activation blocks, and a contract that is paid executes. *)

From S2P Require Import Prelude Hash Transaction KeyValue Account EvmWord Gasometer Blake2 VmLaws.
From S2P Require Import Externalities Builtins.
From Stdlib Require Import Zpow_facts.

Local Open Scope Z_scope.

(** ** Modular exponentiation *)

Lemma square_mod x m : (x `mod` m * (x `mod` m)) `mod` m = (x * x) `mod` m.
Proof. by rewrite <- Zmult_mod. Qed.

Lemma times_mod x y m : (x `mod` m * y) `mod` m = (x * y) `mod` m.
Proof. apply Zmult_mod_idemp_l. Qed.

(** The bits of a digit that are read after [k] turns. *)
Lemma digit_bit d k :
  0 ≤ k < 8 → d / 2 ^ (7 - k) = 2 * (d / 2 ^ (8 - k)) + Z.b2z (Z.testbit d (7 - k)).
Proof.
  intros Hk. rewrite Z.testbit_spec' by lia.
  replace (8 - k) with (Z.succ (7 - k)) by lia. rewrite Z.pow_succ_r, (Z.mul_comm 2 (2 ^ _)) by lia.
  rewrite <- Z.div_div by lia. apply Z.div_mod. lia.
Qed.

Lemma modexp_bits base m d e (k : nat) :
  1 < m → 0 ≤ e → 0 ≤ d < 256 → (k ≤ 8)%nat →
  Nat.iter k (modexp_bit base m d) (base ^ e `mod` m, 2 ^ 7) =
  (base ^ (2 ^ Z.of_nat k * e + d / 2 ^ (8 - Z.of_nat k)) `mod` m, Z.shiftr (2 ^ 7) (Z.of_nat k)).
Proof.
  intros Hm He Hd. induction k as [|k IH]; intros Hk.
  { cbn. rewrite (Z.div_small d) by lia. by rewrite Z.add_0_r, Z.mul_1_l. }
  rewrite Nat.iter_succ, IH by lia. unfold modexp_bit. set (k' := Z.of_nat k).
  replace (Z.of_nat (S k)) with (k' + 1) by lia.
  rewrite <- Z.shiftr_shiftr by lia. f_equal.
  assert (Z.shiftr (2 ^ 7) k' = 2 ^ (7 - k')) as ->.
  { rewrite Z.shiftr_div_pow2, <- Z.pow_sub_r by lia. done. }
  rewrite land_pow2 by lia. rewrite square_mod, <- Z.pow_add_r by (pose proof (Z.div_pos d (2 ^ (8 - k'))); lia).
  pose proof (digit_bit d k' ltac:(lia)) as Hb. pose proof (Z.div_pos d (2 ^ (8 - k')) ltac:(lia) ltac:(lia)).
  replace (8 - (k' + 1)) with (7 - k') by lia. rewrite Hb, (Z.pow_add_r 2 k' 1) by lia.
  destruct (Z.testbit d (7 - k')); cbn [Z.b2z].
  - rewrite (proj2 (Z.ltb_lt _ _)) by lia. rewrite times_mod.
    rewrite (Z.mul_comm _ base), <- Z.pow_succ_r by lia. do 2 f_equal. lia.
  - rewrite Z.ltb_irrefl. do 2 f_equal. lia.
Qed.

Lemma modexp_digit_spec base m e d :
  1 < m → 0 ≤ e → modexp_digit base m (base ^ e `mod` m) d = base ^ (256 * e + Z_of_byte d) `mod` m.
Proof.
  intros Hm He. pose proof (Z_of_byte_bound d). unfold modexp_digit.
  change (Z.shiftl 1 (8 - 1)) with (2 ^ 7). rewrite modexp_bits by (done || lia). cbn [fst].
  change (8 - Z.of_nat 8) with 0. by rewrite Z.div_1_r.
Qed.

Lemma modexp_digits base m l e :
  1 < m → 0 ≤ e →
  foldl (modexp_digit base m) (base ^ e `mod` m) l =
  base ^ (foldl (λ acc b, 256 * acc + Z_of_byte b) e l) `mod` m.
Proof.
  intros Hm. revert e. induction l as [|d l IH]; intros e He; [done|]. cbn [foldl].
  pose proof (Z_of_byte_bound d). rewrite modexp_digit_spec by done. apply IH. lia.
Qed.

Lemma skip_zeros_spec l :
  from_be_bytes (skip_zeros l) = from_be_bytes l ∧ (skip_zeros l ≠ [] → 0 < from_be_bytes l).
Proof.
  induction l as [|d l IH]; [done|]. cbn [skip_zeros].
  assert (from_be_bytes (d :: l) = Z_of_byte d * 256 ^ Z.of_nat (length l) + from_be_bytes l) as E.
  { change (d :: l) with ([d] ++ l). rewrite from_be_bytes_app. done. }
  pose proof (from_be_bytes_bound l). pose proof (Z_of_byte_bound d).
  destruct (Z.eqb_spec (Z_of_byte d) 0) as [Ed|Ed]; [rewrite E, Ed; by rewrite Z.mul_0_l, Z.add_0_l|].
  split; [done|]. intros _. rewrite E. nia.
Qed.

(** The loop computes a power. *)
Lemma modexp_spec base exp m :
  0 ≤ base → 0 ≤ m → modexp base exp m = if m =? 0 then 0 else base ^ from_be_bytes exp `mod` m.
Proof.
  intros Hbase Hm. unfold modexp. destruct (Z.leb_spec m 1).
  { destruct (Z.eqb_spec m 0); [done|]. assert (m = 1) as -> by lia. by rewrite Z.mod_1_r. }
  rewrite (proj2 (Z.eqb_neq m 0)) by lia. destruct (skip_zeros_spec exp) as [E Hpos].
  destruct (skip_zeros exp) as [|d l] eqn:Es.
  { rewrite <- E. change (from_be_bytes []) with 0. by rewrite Z.pow_0_r, Z.mod_small by lia. }
  specialize (Hpos ltac:(done)).
  destruct (Z.eqb_spec base 0) as [->|]; [by rewrite Z.pow_0_l, Zmod_0_l|].
  destruct (Z.eqb_spec (base `mod` m) 0) as [E0|].
  { rewrite Zpower_mod by lia. rewrite E0. by rewrite Z.pow_0_l, Zmod_0_l. }
  replace 1 with ((base `mod` m) ^ 0 `mod` m) by (by rewrite Z.pow_0_r, Z.mod_small by lia).
  rewrite modexp_digits by lia. change (foldl _ 0 (d :: l)) with (from_be_bytes (d :: l)).
  by rewrite E, <- Zpower_mod by lia.
Qed.

(** ** The input of modular exponentiation *)

(** The number at some bytes of the input, which zeros follow. *)
Definition number (offset len : nat) (input : bytes) : Z :=
  from_be_bytes (take len (drop offset input ++ replicate len zero_byte)).

Definition base_len (input : bytes) : Z := number 0 32 input.
Definition exp_len (input : bytes) : Z := number 32 32 input.
Definition mod_len (input : bytes) : Z := number 64 32 input.
Definition base_of (input : bytes) : Z := number 96 (Z.to_nat (base_len input)) input.
Definition exponent_of (input : bytes) : Z :=
  number (96 + Z.to_nat (base_len input)) (Z.to_nat (exp_len input)) input.
Definition modulus_of (input : bytes) : Z :=
  number (96 + Z.to_nat (base_len input) + Z.to_nat (exp_len input)) (Z.to_nat (mod_len input)) input.

(** What EIP-198 specifies. *)
Definition power_of (input : bytes) : Z :=
  if modulus_of input =? 0 then 0 else base_of input ^ exponent_of input `mod` modulus_of input.

Lemma read_exact_at n o input :
  read_exact n (drop o input) =
  (take n (drop o input ++ replicate n zero_byte), drop (o + n) input).
Proof. unfold read_exact. by rewrite drop_drop. Qed.

Lemma length_read n l : length (take n (l ++ replicate n zero_byte)) = n.
Proof. rewrite length_take, length_app, length_replicate. lia. Qed.

Lemma number_bound o n input : 0 ≤ number o n input < 256 ^ Z.of_nat n.
Proof.
  unfold number. pose proof (from_be_bytes_bound (take n (drop o input ++ replicate n zero_byte))) as Hb.
  by rewrite length_read in Hb.
Qed.

Lemma from_be_bytes_zeros n l : from_be_bytes (replicate n zero_byte ++ l) = from_be_bytes l.
Proof. induction n as [|n IH]; [done|]. exact IH. Qed.

(** The low bytes of a small number. *)
Lemma low_bytes n k l :
  length l = (n + k)%nat → from_be_bytes l < 256 ^ Z.of_nat k → from_be_bytes (drop n l) = from_be_bytes l.
Proof.
  intros Hl. assert (from_be_bytes l = from_be_bytes (take n l) * 256 ^ Z.of_nat k + from_be_bytes (drop n l)) as ->.
  { rewrite <- (take_drop n l) at 1. rewrite from_be_bytes_app, length_drop. do 4 f_equal. lia. }
  pose proof (from_be_bytes_bound (take n l)). pose proof (from_be_bytes_bound (drop n l)). intros Hlt.
  destruct (Z.eq_dec (from_be_bytes (take n l)) 0) as [->|]; [lia|].
  pose proof (Z.mul_le_mono_nonneg_r 1 (from_be_bytes (take n l)) (256 ^ Z.of_nat k) ltac:(lia) ltac:(lia)). lia.
Qed.

Lemma take_zeros n k l :
  (n ≤ k)%nat → take n (l ++ replicate k zero_byte) = take n (l ++ replicate n zero_byte).
Proof. intros Hn. rewrite !take_app, !take_replicate. do 2 f_equal. lia. Qed.

(** The first bytes of a number. *)
Lemma number_prefix o n k input :
  (k ≤ n)%nat → number o k input = number o n input / 256 ^ Z.of_nat (n - k).
Proof.
  intros Hk. unfold number. set (l := take n (drop o input ++ replicate n zero_byte)).
  assert (take k (drop o input ++ replicate k zero_byte) = take k l) as ->.
  { subst l. rewrite take_take, Nat.min_l by lia. symmetry. by apply take_zeros. }
  rewrite <- (take_drop k l) at 2. rewrite from_be_bytes_app, length_drop.
  assert (length l = n) as -> by apply length_read.
  pose proof (from_be_bytes_bound (drop k l)) as Hb. rewrite length_drop in Hb.
  assert (length l = n) as Hn by apply length_read. rewrite Hn in Hb.
  rewrite Z.div_add_l by lia. rewrite Z.div_small by done. lia.
Qed.

(** A number after the end of the input. *)
Lemma number_end o n input : (length input ≤ o)%nat → number o n input = 0.
Proof.
  intros Hl. unfold number. rewrite drop_ge by done. cbn [app].
  rewrite take_replicate, <- (app_nil_r (replicate _ _)). by rewrite from_be_bytes_zeros.
Qed.

(** ** Its price *)

Definition complexity (x : Z) : Z :=
  if x <=? 64 then x ^ 2
  else if x <=? 1024 then x ^ 2 / 4 + 96 * x - 3072
  else x ^ 2 / 16 + 480 * x - 199680.

(** The position of the highest bit in the first 32 bytes, and the bits after them. *)
Definition exponent_length (len exponent : Z) : Z :=
  let after := Z.max 0 (len - 32) in 8 * after + Z.log2 (exponent / 256 ^ after).

Lemma mult_complexity_spec x : 0 ≤ x < 2 ^ 31 → mult_complexity x = complexity x ∧ 0 ≤ complexity x.
Proof.
  intros Hx. unfold mult_complexity, complexity. rewrite Z.pow_2_r.
  assert (0 ≤ x * x < 2 ^ 62) as Hxx by nia. rewrite (u64_small (x * x)) by lia.
  pose proof (Z.div_pos (x * x) 4 ltac:(lia) ltac:(lia)). pose proof (Z.div_pos (x * x) 16 ltac:(lia) ltac:(lia)).
  assert (x * x / 4 ≤ x * x) by (apply Z.div_le_upper_bound; lia).
  assert (x * x / 16 ≤ x * x) by (apply Z.div_le_upper_bound; lia).
  destruct (Z.leb_spec x 64); [lia|]. destruct (Z.leb_spec x 1024); rewrite u64_small by lia; lia.
Qed.

Lemma adjusted_exp_len_spec len low :
  0 ≤ len < 2 ^ 31 → 0 ≤ low < 2 ^ 256 →
  adjusted_exp_len len low = 8 * Z.max 0 (len - 32) + Z.log2 low ∧ 0 ≤ Z.log2 low.
Proof.
  intros Hlen Hlow. pose proof (Z.log2_nonneg low). split; [|done].
  assert ((if low =? 0 then 0 else 255 - u256_leading_zeros low) = Z.log2 low) as E.
  { unfold u256_leading_zeros. destruct (Z.eqb_spec low 0) as [->|]; [done|lia]. }
  assert (Z.log2 low < 256) as Hl.
  { destruct (Z.eq_dec low 0) as [->|]; [done|]. apply Z.log2_lt_pow2; lia. }
  unfold adjusted_exp_len. rewrite E. destruct (Z.leb_spec len 32); [lia|]. rewrite u64_small by lia. lia.
Qed.

(** The first word of the exponent. *)
Lemma exp_low_spec input :
  0 ≤ base_len input < 2 ^ 31 → 0 ≤ exp_len input < 2 ^ 31 →
  (if Z.of_nat (length input) <=? u64 (base_len input + 96) then 0
   else
     let len := Z.to_nat (Z.min (exp_len input) 32) in
     let '(word, _) := read_exact len (drop (Z.to_nat (96 + base_len input)) input) in
     from_be_bytes (replicate (32 - len) zero_byte ++ word)) =
  exponent_of input / 256 ^ Z.max 0 (exp_len input - 32).
Proof.
  intros Hb He. unfold exponent_of. rewrite u64_small by lia.
  destruct (Z.leb_spec (Z.of_nat (length input)) (base_len input + 96)).
  { by rewrite number_end, Zdiv_0_l by lia. }
  cbv zeta. rewrite read_exact_at. rewrite from_be_bytes_zeros.
  replace (Z.to_nat (96 + base_len input)) with (96 + Z.to_nat (base_len input))%nat by lia.
  fold (number (96 + Z.to_nat (base_len input)) (Z.to_nat (Z.min (exp_len input) 32)) input).
  rewrite (number_prefix _ (Z.to_nat (exp_len input))) by lia. do 2 f_equal. lia.
Qed.

(** ** Its execution *)

Lemma lens_bound input :
  (0 ≤ base_len input < 2 ^ 256) ∧ (0 ≤ exp_len input < 2 ^ 256) ∧ (0 ≤ mod_len input < 2 ^ 256).
Proof. split_and!; apply number_bound. Qed.

Lemma exponent_head input :
  0 ≤ exp_len input → 0 ≤ exponent_of input / 256 ^ Z.max 0 (exp_len input - 32) < 2 ^ 256.
Proof.
  intros He. unfold exponent_of. set (o := (96 + _)%nat). set (n := Z.to_nat (exp_len input)).
  pose proof (number_prefix o n (Nat.min n 32) input ltac:(lia)) as E.
  replace (Z.of_nat (n - Nat.min n 32)) with (Z.max 0 (exp_len input - 32)) in E by lia. rewrite <- E.
  pose proof (number_bound o (Nat.min n 32) input).
  assert (256 ^ Z.of_nat (Nat.min n 32) ≤ 256 ^ 32) by (apply Z.pow_le_mono_r; lia). lia.
Qed.

(** The lengths for which there is a price. *)
Definition lens_ok (input : bytes) : Prop :=
  base_len input < 2 ^ 31 ∧ exp_len input < 2 ^ 31 ∧ mod_len input < 2 ^ 31.
#[global] Instance lens_ok_dec input : Decision (lens_ok input).
Proof. apply _. Defined.

(** The formula of the price. *)
Definition modexp_formula (divisor : Z) (input : bytes) : Outcome Z :=
  if decide (base_len input = 0 ∧ mod_len input = 0) then Done 0
  else if decide (lens_ok input) then
    let gas := complexity (Z.max (mod_len input) (base_len input)) *
               Z.max (exponent_length (exp_len input) (exponent_of input)) 1 in
    if 2 ^ 64 <=? gas then Done U256_MAX
    else if divisor =? 0 then Panic else Done (gas / divisor)
  else Done U256_MAX.

Lemma modexp_cost_spec divisor input : modexp_cost divisor input = modexp_formula divisor input.
Proof.
  destruct (lens_bound input) as (Hb & He & Hm). unfold modexp_cost, modexp_formula.
  change (read_exact 32 input) with (read_exact 32 (drop 0 input)). rewrite read_exact_at.
  change (0 + 32)%nat with 32%nat. rewrite read_exact_at. change (32 + 32)%nat with 64%nat.
  rewrite read_exact_at. fold (number 0 32 input) (number 32 32 input) (number 64 32 input).
  fold (base_len input) (exp_len input) (mod_len input).
  destruct (decide (base_len input = 0 ∧ mod_len input = 0)) as [[-> ->]|Hz]; [done|].
  assert ((mod_len input =? 0) && (base_len input =? 0) = false) as -> by (apply andb_false_iff; lia).
  change ((2 ^ 32 - 1) / 2) with (2 ^ 31 - 1). unfold lens_ok.
  case_decide as Hl; cycle 1.
  { destruct (Z.ltb_spec (2 ^ 31 - 1) (base_len input)), (Z.ltb_spec (2 ^ 31 - 1) (mod_len input)),
      (Z.ltb_spec (2 ^ 31 - 1) (exp_len input)); try done. lia. }
  rewrite !(proj2 (Z.ltb_ge _ _)) by lia. cbn [orb]. cbv zeta. rewrite exp_low_spec by lia.
  destruct (mult_complexity_spec (Z.max (mod_len input) (base_len input))) as [-> _]; [lia|].
  unfold exponent_length. cbv zeta.
  destruct (adjusted_exp_len_spec (exp_len input) (exponent_of input / 256 ^ Z.max 0 (exp_len input - 32)))
    as [-> _]; [lia|apply exponent_head; lia|done].
Qed.

(** C31: The price of modular exponentiation is that of EIP-198: the complexity of a multiplication
    of the longest operand, times the length of the exponent up to its highest bit, divided by
    the divisor.  The machine integers that compute it do not overflow; operands that are too
    long, and those for which the product before the division does not fit in 64 bits, get the
    largest 256-bit number as their price.  A divisor of zero panics exactly when the division is
    reached, that is for operands that are not both empty and have a product that fits. *)
Theorem modexp_price divisor input :
  pricing_cost (PriceModexp divisor) input = modexp_formula divisor input.
Proof. cbn [pricing_cost]. by rewrite modexp_cost_spec. Qed.

Lemma length_big_to_bytes z n :
  0 ≤ z < 256 ^ Z.of_nat n → (0 < n)%nat → (length (big_to_bytes_be z) ≤ n)%nat.
Proof.
  intros Hz Hn. unfold big_to_bytes_be. destruct (Z.eqb_spec z 0); [done|].
  rewrite length_to_be_bytes. assert (Z.log2 z < 8 * Z.of_nat n) as Hl.
  { apply Z.log2_lt_pow2; [lia|]. rewrite Z.pow_mul_r by lia. apply Hz. }
  pose proof (Z.log2_nonneg z). assert (Z.log2 z / 8 < Z.of_nat n) by (apply Z.div_lt_upper_bound; lia).
  pose proof (Z.div_pos (Z.log2 z) 8). lia.
Qed.

Lemma from_big_to_bytes z : 0 ≤ z → from_be_bytes (big_to_bytes_be z) = z.
Proof.
  intros Hz. unfold big_to_bytes_be. destruct (Z.eqb_spec z 0) as [->|]; [done|].
  rewrite from_to_be_bytes. apply Z.mod_small. split; [done|].
  pose proof (Z.log2_nonneg z). pose proof (Z.div_pos (Z.log2 z) 8 ltac:(lia) ltac:(lia)).
  rewrite Z2Nat.id by lia. change 256 with (2 ^ 8). rewrite <- Z.pow_mul_r by lia.
  pose proof (Z.log2_spec z ltac:(lia)) as [_ Hs]. eapply Z.lt_le_trans; [done|].
  apply Z.pow_le_mono_r; [lia|]. pose proof (Z.div_mod (Z.log2 z) 8 ltac:(lia)).
  pose proof (Z.mod_pos_bound (Z.log2 z) 8 ltac:(lia)). lia.
Qed.

(** Padding gives all bytes of a number. *)
Lemma pad_big_to_bytes z n :
  0 ≤ z < 256 ^ Z.of_nat n → (0 < n)%nat →
  replicate (n - length (big_to_bytes_be z)) zero_byte ++ big_to_bytes_be z = to_be_bytes n z.
Proof.
  intros Hz Hn. pose proof (length_big_to_bytes z n Hz Hn). apply from_be_bytes_inj.
  - rewrite length_app, length_replicate, length_to_be_bytes. lia.
  - rewrite from_be_bytes_zeros, from_big_to_bytes, from_to_be_bytes by lia. by rewrite Z.mod_small.
Qed.

Lemma power_bound input : 0 ≤ power_of input < 256 ^ Z.of_nat (Z.to_nat (mod_len input)).
Proof.
  unfold power_of. pose proof (number_bound (96 + Z.to_nat (base_len input) + Z.to_nat (exp_len input))
    (Z.to_nat (mod_len input)) input) as Hm. fold (modulus_of input) in Hm.
  destruct (Z.eqb_spec (modulus_of input) 0); [lia|].
  pose proof (Z.mod_pos_bound (base_of input ^ exponent_of input) (modulus_of input)). lia.
Qed.

Lemma low_len o input :
  number o 32 input < 2 ^ 64 →
  from_be_bytes (drop 24 (take 32 (drop o input ++ replicate 32 zero_byte))) = number o 32 input.
Proof. intros Hn. apply (low_bytes 24 8); [apply length_read|done]. Qed.

(** ** Activation *)

Lemma last_sorted (l : list (Z * Pricing)) x :
  StronglySorted key_le l → last l = Some x → x ∈ l ∧ ∀ y, y ∈ l → y.1 ≤ x.1.
Proof.
  intros Hs [l' ->]%last_Some. split; [set_solver|]. intros y [Hy| ->%list_elem_of_singleton]%elem_of_app; [|done].
  apply StronglySorted_app in Hs as (Hall & _ & _). apply (Hall y x Hy). set_solver.
Qed.

Lemma pricer_at_spec self n :
  match pricer_at self n with
  | Some p => ∃ k, pricer self !! k = Some p ∧ 0 ≤ k ≤ n ∧
      ∀ k' p', pricer self !! k' = Some p' → 0 ≤ k' ≤ n → k' ≤ k
  | None => ∀ k p, pricer self !! k = Some p → ¬ (0 ≤ k ≤ n)
  end.
Proof.
  unfold pricer_at. set (l := filter _ _).
  assert (∀ k p, (k, p) ∈ l ↔ pricer self !! k = Some p ∧ 0 ≤ k ≤ n) as Hl.
  { intros k p. subst l. rewrite list_elem_of_filter, elem_of_btree_list. cbn. naive_solver. }
  destruct (last l) as [[k p]|] eqn:E; cbn.
  - apply last_sorted in E as [Hin Hmax]; [|apply StronglySorted_filter, btree_list_sorted].
    apply Hl in Hin as [Hk Hn]. exists k. split_and!; [done|lia..|]. intros k' p' Hk' Hn'.
    apply (Hmax (k', p')). by apply Hl.
  - apply last_None in E. intros k p Hk Hn. assert ((k, p) ∈ l) as Hin by (by apply Hl).
    rewrite E in Hin. by apply elem_of_nil in Hin.
Qed.

(** The price of a contract is the one that was activated last: it is active from its first
    activation block on, and at every block its price is that of the activation with the
    highest block number that is not after it. *)
Theorem last_activation_prices self input n :
  match pricer_at self n with
  | Some p => native_is_active self n = true ∧ native_cost self input n = pricing_cost p input ∧
      ∃ k, pricer self !! k = Some p ∧ 0 ≤ k ≤ n ∧
        ∀ k' p', pricer self !! k' = Some p' → 0 ≤ k' ≤ n → k' ≤ k
  | None => native_is_active self n = false ∧ native_cost self input n = Done 0 ∧
      ∀ k p, pricer self !! k = Some p → ¬ (0 ≤ k ≤ n)
  end.
Proof.
  pose proof (pricer_at_spec self n) as Hs. unfold native_is_active, native_cost.
  destruct (pricer_at self n); (split_and!; [|done..]).
  - by apply bool_decide_eq_true_2.
  - apply bool_decide_eq_false_2. by intros [].
Qed.

(** The prices of a specification. *)
Definition pricing_ok (p : Pricing) : Prop :=
  match p with
  | PriceAltBn128Pairing price => 0 ≤ pairing_base price < 2 ^ 64 ∧ 0 ≤ pairing_pair price < 2 ^ 64
  | PriceAltBn128Const price => 0 ≤ price < 2 ^ 64
  | PriceBlake2F gas_per_round => 0 ≤ gas_per_round < 2 ^ 64
  | PriceLinear l => 0 ≤ linear_base l < 2 ^ 64 ∧ 0 ≤ linear_word l < 2 ^ 64
  | PriceModexp divisor => 0 < divisor < 2 ^ 64
  end.

(** Modular exponentiation has its own kind of price. *)
Record native_ok (self : NativeBuiltin) : Prop := {
  no_prices k p : pricer self !! k = Some p → pricing_ok p;
  no_modexp k p : native self = Modexp → pricer self !! k = Some p → ∃ divisor, p = PriceModexp divisor;
}.

Lemma product_cost base factor n :
  0 ≤ base < 2 ^ 64 → 0 ≤ factor < 2 ^ 64 → 0 ≤ n < 2 ^ 64 →
  (words ← u256_mul factor n; u256_add base words) = Done (base + factor * n).
Proof.
  intros. assert (0 ≤ factor * n < 2 ^ 128) by nia. unfold u256_mul, u256_add.
  rewrite (proj2 (Z.ltb_lt _ _)) by lia. cbn. by rewrite (proj2 (Z.ltb_lt _ _)) by lia.
Qed.

Lemma pricing_cost_ok p input :
  pricing_ok p → bytes_ok input → ∃ cost, pricing_cost p input = Done cost ∧ 0 ≤ cost.
Proof.
  intros Hp Hi. unfold bytes_ok in Hi.
  assert (0 ≤ Z.of_nat (length input) / 192 < 2 ^ 64).
  { split; [apply Z.div_pos; lia|]. apply Z.div_lt_upper_bound; lia. }
  assert (0 ≤ u64 (Z.of_nat (length input) + 31) / 32 < 2 ^ 64).
  { unfold u64, wrap. pose proof (Z.mod_pos_bound (Z.of_nat (length input) + 31) (2 ^ 64) ltac:(lia)).
    split; [apply Z.div_pos; lia|]. apply Z.div_lt_upper_bound; lia. }
  destruct p as [price|price|g|l|d]; cbn [pricing_cost pricing_ok] in *.
  - unfold pairing_cost. rewrite product_cost by lia. eexists. split; [done|nia].
  - eexists. split; [done|lia].
  - eexists. split; [done|]. unfold blake2f_cost. destruct (_ <? 4)%nat; [done|].
    pose proof (from_be_bytes_bound (take 4 input)). nia.
  - unfold linear_cost. rewrite product_cost by lia. eexists. split; [done|nia].
  - rewrite modexp_cost_spec. unfold modexp_formula.
    destruct (decide _); [by eexists|]. destruct (decide _) as [Hl|]; [|by eexists]. cbv zeta.
    destruct (_ <=? _); [by eexists|]. rewrite (proj2 (Z.eqb_neq d 0)) by lia. eexists. split; [done|].
    destruct (lens_bound input) as (? & ? & ?). destruct Hl as (? & ? & ?).
    destruct (mult_complexity_spec (Z.max (mod_len input) (base_len input))) as [_ ?]; [lia|].
    apply Z.div_pos; [|lia]. nia.
Qed.

Section Contracts.
Context `{Keccak} `{PublicKeyCrypto} `{BytesRef} `{!BytesRefLaws} `{Digests} `{!DigestLaws} `{Bn} `{!BnLaws}.

(** What is written in the end. *)
Lemma modexp_output z n :
  0 ≤ z < 256 ^ Z.of_nat (Z.to_nat n) → 0 ≤ n → (n = 0 → z = 0) →
  (if Z.of_nat (length (big_to_bytes_be z)) <=? n
   then Done (Ok (bytes_write [] (Z.to_nat (n - Z.of_nat (length (big_to_bytes_be z)))) (big_to_bytes_be z)))
   else Done (Ok [])) = Done (Ok (E := String.string) (to_be_bytes (Z.to_nat n) z)).
Proof.
  intros Hz Hn Hzero. destruct (Z.eq_dec n 0) as [->|]; [by rewrite Hzero|].
  pose proof (length_big_to_bytes z (Z.to_nat n) Hz ltac:(lia)). rewrite (proj2 (Z.leb_le _ _)) by lia.
  rewrite bytes_write_end by (cbn; lia). cbn [length app]. rewrite Nat.sub_0_r.
  rewrite <- (pad_big_to_bytes z (Z.to_nat n)) by (done || lia). do 4 f_equal. lia.
Qed.

Lemma execute_modexp_spec input :
  (base_len input = 0 ∧ mod_len input = 0) ∨ lens_ok input →
  execute_modexp input = Done (Ok (to_be_bytes (Z.to_nat (mod_len input)) (power_of input))).
Proof.
  intros Hok. destruct (lens_bound input) as (Hb & He & Hm).
  assert (base_len input < 2 ^ 64 ∧ mod_len input < 2 ^ 64) as [Hb' Hm'] by (unfold lens_ok in Hok; lia).
  unfold execute_modexp. change (read_exact 32 input) with (read_exact 32 (drop 0 input)).
  rewrite read_exact_at. change (0 + 32)%nat with 32%nat. rewrite read_exact_at.
  change (32 + 32)%nat with 64%nat. rewrite read_exact_at. change (64 + 32)%nat with 96%nat.
  rewrite (low_len 0), (low_len 64) by done. fold (base_len input) (mod_len input).
  destruct ((base_len input =? 0) && (mod_len input =? 0)) eqn:Ez.
  { apply andb_true_iff in Ez as [Eb%Z.eqb_eq Em%Z.eqb_eq]. cbn [mbind outcome_bind].
    rewrite Em. by rewrite modexp_output. }
  destruct Hok as [[Eb Em]|(Lb & Le & Lm)]; [by rewrite Eb, Em in Ez|].
  rewrite (low_len 32) by (fold (exp_len input); lia). fold (exp_len input). unfold vec_alloc.
  rewrite !(proj2 (Z.ltb_lt _ _)) by lia. cbn [mbind outcome_bind].
  rewrite !read_exact_at. fold (number 96 (Z.to_nat (base_len input)) input). fold (base_of input).
  fold (number (96 + Z.to_nat (base_len input) + Z.to_nat (exp_len input)) (Z.to_nat (mod_len input)) input).
  fold (modulus_of input).
  pose proof (number_bound 96 (Z.to_nat (base_len input)) input) as HB. fold (base_of input) in HB.
  pose proof (number_bound (96 + Z.to_nat (base_len input) + Z.to_nat (exp_len input))
    (Z.to_nat (mod_len input)) input) as HM. fold (modulus_of input) in HM.
  rewrite modexp_spec by lia. fold (number (96 + Z.to_nat (base_len input)) (Z.to_nat (exp_len input)) input).
  fold (exponent_of input). fold (power_of input). apply modexp_output; [apply power_bound|lia|].
  intros E. pose proof (power_bound input) as Hp. rewrite E in Hp.
  change (256 ^ Z.of_nat (Z.to_nat 0)) with 1 in Hp. lia.
Qed.

(** C30: Modular exponentiation computes what EIP-198 specifies: unless the price is the one that
    cannot be paid, the contract gives the base to the power of the exponent modulo the modulus, in as
    many bytes as the modulus has; a modulus of zero gives zero. *)
Theorem modexp_contract divisor input :
  modexp_cost divisor input ≠ Done U256_MAX →
  execute_modexp input = Done (Ok (to_be_bytes (Z.to_nat (mod_len input)) (power_of input))).
Proof.
  rewrite modexp_cost_spec. unfold modexp_formula. intros Hcost. apply execute_modexp_spec.
  destruct (decide _); [by left|]. destruct (decide _); [by right|done].
Qed.

(** ** Contracts that are paid *)

(** What a contract writes. *)
Definition output_ok (self : EthereumBuiltin) (input out : bytes) : Prop :=
  match self with
  | Identity => out = input
  | EcRecover => out = [] ∨ length out = 32%nat
  | Sha256 | Ripemd160 | Bn128Pairing => length out = 32%nat
  | Modexp => Z.of_nat (length out) = mod_len input ∧ mod_len input < 2 ^ 31
  | Bn128Add | Bn128Mul | Blake2F => length out = 64%nat
  end.

Lemma write0_ok input : write0 input = Done (Ok input).
Proof. unfold write0. by rewrite bytes_write_end. Qed.

Lemma write_point_ok p : ∃ out, write_point p = Done (Ok out) ∧ length out = 64%nat.
Proof.
  unfold write_point. rewrite write0_ok. eexists. split; [done|].
  destruct (g1_affine p) as [[x y]|]; [|by rewrite length_replicate].
  by rewrite length_app, !length_fq.
Qed.

Lemma point_result_ok r :
  ∃ r', output_of_result r = Done r' ∧ ∀ out, r' = Ok out → length out = 64%nat.
Proof.
  destruct r as [p|e]; [|by eexists]. destruct (write_point_ok p) as (out & E & Hl).
  exists (Ok out). split; [done|]. by intros ? [= <-].
Qed.

Lemma from_slice_ok l n m :
  length l = 128%nat → (m = n + 32)%nat → (m ≤ 128)%nat → ∃ h, from_slice (slice n m l) = Done h.
Proof.
  intros Hl -> Hn. unfold from_slice, h256_of_bytes, slice. destruct (decide _) as [Hd|Hd]; [by eexists|].
  destruct Hd. rewrite length_take, length_drop. lia.
Qed.

Lemma ecrecover_ok input :
  ∃ out, execute_ecrecover input = Done (Ok out) ∧ (out = [] ∨ length out = 32%nat).
Proof.
  unfold execute_ecrecover. set (l := take _ input ++ _).
  assert (length l = 128%nat) as Hl.
  { subst l. rewrite length_app, length_take, length_replicate. lia. }
  destruct (from_slice_ok l 0 32 Hl) as [hash ->]; [lia..|]. destruct (from_slice_ok l 32 64 Hl) as [v ->]; [lia..|].
  destruct (from_slice_ok l 64 96 Hl) as [r ->]; [lia..|]. destruct (from_slice_ok l 96 128 Hl) as [s ->]; [lia..|].
  cbn [mbind outcome_bind]. case_match; [|by eauto]. case_match; [|by eauto].
  destruct (pk_recover _ _) as [p|]; [|by eauto].
  eexists. split; [done|]. right. rewrite (bytes_write_end []) by done. cbn [app length].
  rewrite bytes_write_end by done. rewrite length_app. cbn. by rewrite length_drop, h256_len.
Qed.

Lemma ripemd160_ok input : ∃ out, execute_ripemd160 input = Done (Ok out) ∧ length out = 32%nat.
Proof.
  unfold execute_ripemd160. eexists. split; [done|]. rewrite (bytes_write_end []) by done.
  rewrite bytes_write_end by done. rewrite length_app. cbn. by rewrite length_ripemd160.
Qed.

Lemma pairing_ok input :
  ∃ r, execute_bn128_pairing input = Done r ∧ ∀ out, r = Ok out → length out = 32%nat.
Proof.
  unfold execute_bn128_pairing, execute_with_error. case_match; [by eexists|]. cbv zeta.
  case_match; [|by eexists]. rewrite write0_ok. eexists. split; [done|].
  by intros ? [= <-].
Qed.

Lemma length_bind_const {A C} (f : A → list C) n l :
  (∀ x, length (f x) = n) → length (l ≫= f) = (length l * n)%nat.
Proof. intros Hf. induction l as [|x l IH]; [done|]. cbn. by rewrite length_app, Hf, IH. Qed.

Lemma length_compress avx2 h m t f rounds : length (compress avx2 h m t f rounds) = 8%nat.
Proof.
  unfold compress. destruct avx2; [|done]. unfold avx2_compress. cbv zeta.
  by destruct (foldl _ _ _) as [[[a b] c] d].
Qed.

Lemma blake2f_ok avx2 input :
  ∃ r, execute_blake2f avx2 input = Done r ∧ ∀ out, r = Ok out → length out = 64%nat.
Proof.
  unfold execute_blake2f. case_match; [by eexists|]. cbv zeta.
  assert (∀ f n, ∃ r, write0 (compress avx2 (read_words 8 (drop 4 input)) (read_words 16 (drop 68 input))
    (read_words 2 (drop 196 input)) f n ≫= to_le_bytes 8) = Done r ∧
    ∀ out, r = Ok out → length out = 64%nat) as Hw.
  { intros f n. rewrite write0_ok. eexists. split; [done|]. intros ? [= <-].
    rewrite (length_bind_const _ 8) by (intros; apply length_to_le_bytes). by rewrite length_compress. }
  repeat case_match; try (by eexists); apply Hw.
Qed.

Lemma ethereum_builtin_ok avx2 self input :
  (self = Modexp → (base_len input = 0 ∧ mod_len input = 0) ∨ lens_ok input) →
  ∃ r, ethereum_builtin_execute avx2 self input = Done r ∧ ∀ out, r = Ok out → output_ok self input out.
Proof.
  intros Hm. destruct self; cbn [ethereum_builtin_execute output_ok].
  - rewrite write0_ok. eexists. split; [done|]. by intros ? [= <-].
  - destruct (ecrecover_ok input) as (out & -> & Ho). eexists. split; [done|]. by intros ? [= <-].
  - rewrite write0_ok. eexists. split; [done|]. intros ? [= <-]. apply length_sha256.
  - destruct (ripemd160_ok input) as (out & -> & Ho). eexists. split; [done|]. by intros ? [= <-].
  - specialize (Hm eq_refl). rewrite execute_modexp_spec by done. eexists. split; [done|].
    intros ? [= <-]. rewrite length_to_be_bytes. destruct (lens_bound input) as (? & ? & ?).
    unfold lens_ok in Hm. lia.
  - unfold execute_bn128_add. destruct (read_point input). apply point_result_ok.
  - unfold execute_bn128_mul. destruct (read_point input). apply point_result_ok.
  - apply pairing_ok.
  - apply blake2f_ok.
Qed.

Lemma native_runs avx2 self input n p :
  native_ok self → pricer_at self n = Some p → bytes_ok input →
  ∃ cost, native_cost self input n = Done cost ∧ 0 ≤ cost ∧
    (cost < U256_MAX → ∃ r, ethereum_builtin_execute avx2 (native self) input = Done r ∧
       ∀ out, r = Ok out → output_ok (native self) input out).
Proof.
  intros [Hp Hm] Ea Hi. unfold native_cost. rewrite Ea. pose proof (pricer_at_spec self n) as Hs. rewrite Ea in Hs.
  destruct Hs as (k & Hk & _). destruct (pricing_cost_ok p input (Hp _ _ Hk) Hi) as (cost & Ec & Hc).
  exists cost. split_and!; [done..|]. intros Hlt. apply ethereum_builtin_ok. intros Hn.
  destruct (Hm k p Hn Hk) as [d ->]. cbn [pricing_cost] in Ec. rewrite modexp_cost_spec in Ec.
  unfold modexp_formula in Ec. destruct (decide _); [by left|]. destruct (decide _); [by right|].
  injection Ec as <-. lia.
Qed.

(** C29: A precompiled contract that is paid executes.  Every contract of a specification has a price
    for every input, which the 256-bit arithmetic can represent; and when the gas is enough for
    the price it executes without a panic and writes an output of the length that it promises,
    or gives an error. *)
Theorem paid_builtin_executes avx2 self input n gas :
  native_ok self → native_is_active self n = true → bytes_ok input → 0 ≤ gas < U256_MAX →
  ∃ cost, native_cost self input n = Done cost ∧ 0 ≤ cost ∧
    (cost ≤ gas → ∃ r, ethereum_builtin_execute avx2 (native self) input = Done r ∧
       ∀ out, r = Ok out → output_ok (native self) input out).
Proof.
  intros Hok [p Ha]%bool_decide_eq_true Hi Hg.
  destruct (native_runs avx2 self input n p Hok Ha Hi) as (cost & Ec & Hc & Hr).
  exists cost. split_and!; [done..|]. intros Hle. apply Hr. lia.
Qed.
End Contracts.

(** ** Examples *)

#[local] Existing Instances example_keccak example_crypto example_bytes_ref example_bytes_ref_laws
  example_digests example_digest_laws example_bn example_bn_laws.

(** Three to the power of five modulo seven. *)
Definition example_modexp : bytes :=
  to_be_bytes 32 1 ++ to_be_bytes 32 1 ++ to_be_bytes 32 1 ++ ["003"; "005"; "007"]%byte.

Lemma modexp_contract_witness : execute_modexp example_modexp = Done (Ok ["005"%byte]).
Proof. rewrite (modexp_contract 20) by (by vm_compute). by vm_compute. Defined.

Definition example_builtin : NativeBuiltin := mkNativeBuiltin {[0 := PriceModexp 20]} Modexp.

Lemma example_builtin_ok : native_ok example_builtin.
Proof.
  split; cbn [pricer example_builtin].
  - intros k p [_ <-]%lookup_singleton_Some. done.
  - intros k p _ [_ <-]%lookup_singleton_Some. by eexists.
Qed.

Lemma paid_builtin_executes_witness :
  ∃ cost, native_cost example_builtin example_modexp 1 = Done cost ∧ 0 ≤ cost ∧
    (cost ≤ 1000 → ∃ r, ethereum_builtin_execute true Modexp example_modexp = Done r ∧
       ∀ out, r = Ok out → output_ok Modexp example_modexp out).
Proof.
  apply (paid_builtin_executes true example_builtin example_modexp 1 1000 example_builtin_ok); by vm_compute.
Defined.
