(* ===== verification/Executive.v ===== *)
(** * The executive

    [src/parity-ethereum/ethcore/machine/src/executive.rs]: executing a call or a creation with
    the calls it makes in turn, on one stack of suspended executions, and executing a
    transaction; with the factories of virtual machines [evm/src/factory.rs] and
    [trie-vm-factories/src/lib.rs].

    The interpreter of WebAssembly is a parameter.  The shared cache of jump destinations, one
    object behind an [Arc], is passed from execution to execution. *)

From S2P Require Import Prelude Hash Transaction Account State Schedule EvmWord Vm Gasometer Evm.
From S2P Require Import Externalities.

Local Open Scope Z_scope.

(** [code_version.is_zero()], [WASM_MAGIC_NUMBER] is ["\0asm"]. *)
Definition WASM_MAGIC_NUMBER : list byte := ["000"; "097"; "115"; "109"]%byte.

Definition can_fit_in_usize (gas : Z) : bool := gas =? low_u64 gas.

(** [Transaction::gas_required]. *)
Definition gas_required_for (is_create : bool) (data : list byte) (schedule : Schedule) :
    Outcome Z :=
  foldM (λ g b, usize_add g (if bool_decide (b = "000"%byte) then tx_data_zero_gas schedule
                             else tx_data_non_zero_gas schedule))
    (if is_create then tx_create_gas schedule else tx_gas schedule) data.

Definition gas_required (t : RawTransaction) (schedule : Schedule) : Outcome Z :=
  gas_required_for (match tx_action t with Create => true | Call _ => false end) (tx_data t)
    schedule.

Section Executive.
Context `{Keccak} `{Rlp} `{LruCache H256 H256} `{TrieDatabase} `{HashOrder}.
Context {B : Type} `{!Backend B} `{!LruCache H256 BitSet}.

(** [WasmInterpreter::exec], on any outside; it does not trap. *)
Context (wasm_exec : ∀ X, Ext X → ActionParams → X → Outcome (X * Result GasLeft VmError)).

Abbreviation Borrowed := (Borrowed (B := B)).

(** ** Virtual machines *)

(** An execution, started or to be resumed. *)
Inductive Exec :=
| EvmUsize (i : Interpreter)
| EvmU256 (i : Interpreter)
| WasmInterpreter (params : ActionParams).

(** [Factory::create] of the EVM. *)
Definition evm_create (params : ActionParams) (cache : SharedCache) : Outcome Exec :=
  if can_fit_in_usize (ap_gas params)
  then i ← interpreter_new (H0 := usize_cost) params cache; Done (EvmUsize i)
  else i ← interpreter_new (H0 := u256_cost) params cache; Done (EvmU256 i).

(** [VmFactory::create]. *)
Definition vm_create (params : ActionParams) (schedule : Schedule) (cache : SharedCache) :
    Outcome (option Exec) :=
  if ap_code_version params =? 0 then
    if bool_decide (is_Some (wasm_costs schedule)) && bool_decide (versions schedule = ∅) &&
       match ap_code params with
       | Some code => (4 <? length code)%nat && bool_decide (take 4 code = WASM_MAGIC_NUMBER)
       | None => false
       end
    then Done (Some (WasmInterpreter params))
    else e ← evm_create params cache; Done (Some e)
  else match versions schedule !! ap_code_version params with
       | Some PWasm => Done (Some (WasmInterpreter params))
       | None => Done None
       end.

(** [Exec::exec]. *)
Definition exec_vm (fuel : nat) (ext : Ext Borrowed) (e : Exec) (x : Borrowed) :
    Outcome (Exec * Borrowed * Result (Result GasLeft VmError) TrapKind) :=
  match e with
  | EvmUsize i =>
      '((i, x), r) ← Evm.exec (Ext0 := ext) (H0 := usize_cost) fuel (i, x); Done (EvmUsize i, x, r)
  | EvmU256 i =>
      '((i, x), r) ← Evm.exec (Ext0 := ext) (H0 := u256_cost) fuel (i, x); Done (EvmU256 i, x, r)
  | WasmInterpreter params =>
      '(x, r) ← wasm_exec _ ext params x; Done (WasmInterpreter params, x, Ok r)
  end.

(** The shared cache after an execution, and the execution with the current cache. *)
Definition exec_cache (e : Exec) (cache : SharedCache) : SharedCache :=
  match e with EvmUsize i | EvmU256 i => jump_cache i | WasmInterpreter _ => cache end.
Definition with_cache (cache : SharedCache) (i : Interpreter) : Interpreter :=
  set_jumps cache (valid_jump_destinations i) i.

(** [ResumeCall::resume_call] and [ResumeCreate::resume_create]. *)
Definition vm_resume_call (result : MessageCallResult) (cache : SharedCache) (e : Exec) :
    Outcome Exec :=
  match e with
  | EvmUsize i =>
      i ← Evm.resume_call (H0 := usize_cost) result (with_cache cache i);
      Done (EvmUsize i)
  | EvmU256 i =>
      i ← Evm.resume_call (H0 := u256_cost) result (with_cache cache i);
      Done (EvmU256 i)
  | WasmInterpreter _ => Panic
  end.

Definition vm_resume_create (result : ContractCreateResult) (cache : SharedCache) (e : Exec) :
    Outcome Exec :=
  match e with
  | EvmUsize i =>
      i ← Evm.resume_create (H0 := usize_cost) result (with_cache cache i);
      Done (EvmUsize i)
  | EvmU256 i =>
      i ← Evm.resume_create (H0 := u256_cost) result (with_cache cache i);
      Done (EvmU256 i)
  | WasmInterpreter _ => Panic
  end.

(** ** Calls and creations *)

Inductive CallCreateExecutiveKind :=
| KTransfer (params : ActionParams)
| KCallBuiltin (params : ActionParams)
| KExecCall (params : ActionParams) (substate : Substate)
| KExecCreate (params : ActionParams) (substate : Substate)
| KResumeCall (origin_info : OriginInfo) (resume : Exec) (substate : Substate)
| KResumeCreate (origin_info : OriginInfo) (resume : Exec) (substate : Substate).

(** The references to the environment, the machine, the schedule and the factory are arguments
    of the operations. *)
Record CallCreateExecutive := mkExecutive {
  cce_depth : Z;
  cce_static_flag : bool;
  cce_is_create : bool;
  cce_gas : Z;
  cce_kind : CallCreateExecutiveKind;
}.

Definition set_kind (kind : CallCreateExecutiveKind) (self : CallCreateExecutive) :
    CallCreateExecutive :=
  mkExecutive (cce_depth self) (cce_static_flag self) (cce_is_create self) (cce_gas self) kind.

Inductive ExecutiveTrapError :=
| ExecutiveTrapCall (subparams : ActionParams) (resume : CallCreateExecutive)
| ExecutiveTrapCreate (subparams : ActionParams) (a : Address) (resume : CallCreateExecutive).

Definition ExecutiveTrapResult : Type :=
  Result (Result FinalizationResult VmError) ExecutiveTrapError.

(** [unconfirmed_substate], and writing through the reference. *)
Definition unconfirmed_substate (self : CallCreateExecutive) : option Substate :=
  match cce_kind self with
  | KExecCall _ unsub | KExecCreate _ unsub | KResumeCall _ _ unsub | KResumeCreate _ _ unsub =>
      Some unsub
  | KTransfer _ | KCallBuiltin _ => None
  end.

Definition set_unconfirmed_substate (unsub : Substate) (self : CallCreateExecutive) :
    CallCreateExecutive :=
  set_kind (match cce_kind self with
            | KExecCall params _ => KExecCall params unsub
            | KExecCreate params _ => KExecCreate params unsub
            | KResumeCall origin_info resume _ => KResumeCall origin_info resume unsub
            | KResumeCreate origin_info resume _ => KResumeCreate origin_info resume unsub
            | kind => kind
            end) self.

Definition check_static_flag (params : ActionParams) (static_flag is_create : bool) :
    Result unit VmError :=
  if is_create then
    if static_flag then Err MutableCallInStaticContext else Ok tt
  else if static_flag &&
          (bool_decide (ap_call_type params = CT_StaticCall) ||
           bool_decide (ap_call_type params = CT_Call)) &&
          (0 <? action_value (ap_value params))
  then Err MutableCallInStaticContext else Ok tt.

Definition check_eip684 (params : ActionParams) : XM Borrowed unit :=
  b ← state_op (exists_and_has_code_or_nonce (ap_address params));
  if (b : bool) then xm_err OutOfGas else mret tt.

(** A change of the state alone. *)
Definition change_state (f : State (B := B) → State (B := B)) : XM Borrowed unit :=
  λ '(state, substate), Done ((f state, substate), Ok tt).

(** What the end of an execution does to the state and to the substate of its caller. *)
Definition enact_result (result : Result FinalizationResult VmError) (x : Borrowed)
    (un_substate : Substate) : Borrowed :=
  match result with
  | Ok (mkFinalization _ true _) | Err (Internal _) =>
      (discard_checkpoint x.1, accrue x.2 un_substate)
  | _ => (revert_to_checkpoint x.1, x.2)
  end.

(** The arguments of [done_trace_call] and [done_trace_create], which are computed also for
    the tracer that does nothing. *)
Definition done_trace (gas : Z) (result : Result FinalizationResult VmError) : Outcome unit :=
  match result with
  | Ok (mkFinalization gas_left true return_data) =>
      _ ← u256_sub gas gas_left;
      _ ← rd_deref return_data;
      Done tt
  | _ => Done tt
  end.

Section Frames.
Context (info : EnvInfo) (machine : Machine) (schedule : Schedule).
(** The bound on the turns of each loop. *)
Context (fuel : nat).
(** The calls that an execution makes on a new executive, with the cache at its start. *)
Context (nested_call nested_create :
  SharedCache → Z → bool → ActionParams → XM Borrowed FinalizationResult).

Definition new_call_raw (params : ActionParams) (depth : Z) (parent_static_flag : bool) :
    Outcome CallCreateExecutive :=
  let static_flag := parent_static_flag || bool_decide (ap_call_type params = CT_StaticCall) in
  kind ←
    match machine_builtin machine (ap_code_address params) (env_number info) with
    | Some builtin =>
        if builtin_is_active builtin (env_number info) then Done (KCallBuiltin params) else Panic
    | None =>
        Done (match ap_code params with
              | Some _ => KExecCall params substate_new
              | None => KTransfer params
              end)
    end;
  Done (mkExecutive depth static_flag false (ap_gas params) kind).

Definition new_create_raw (params : ActionParams) (depth : Z) (static_flag : bool) :
    CallCreateExecutive :=
  mkExecutive depth static_flag true (ap_gas params) (KExecCreate params substate_new).

Definition transfer_exec_balance (params : ActionParams) : XM Borrowed unit :=
  match ap_value params with
  | Transfer val => transfer schedule (ap_sender params) (ap_address params) val
  | Apparent _ => mret tt
  end.

Definition transfer_exec_balance_and_init_contract (params : ActionParams) : XM Borrowed unit :=
  let nonce_offset := if no_empty schedule then 1 else 0 in
  prev_bal ← state_op (balance (ap_address params));
  match ap_value params with
  | Transfer val =>
      _ ← with_cleanup schedule (sub_balance (ap_sender params) val);
      state_op (new_contract (ap_address params) (saturating_add val prev_bal) nonce_offset
                  (ap_code_version params))
  | Apparent _ =>
      state_op (new_contract (ap_address params) prev_bal nonce_offset (ap_code_version params))
  end.

(** The end that [exec], [resume_call] and [resume_create] have in common: run the virtual
    machine on the substate of the execution, and finalize or suspend it. *)
Definition exec_machine (self : CallCreateExecutive) (origin_info : OriginInfo)
    (output : OutputPolicy) (e : Exec) (un_substate : Substate) (cache : SharedCache)
    (x : Borrowed) : Outcome (SharedCache * Borrowed * ExecutiveTrapResult) :=
  let ext := externalities_ext (nested_call cache) (nested_create cache)
    (mkExternalities info (cce_depth self) origin_info machine schedule output
       (cce_static_flag self)) in
  let '(state, substate) := x in
  '(e, (state, un_substate), out) ← exec_vm fuel ext e (state, un_substate);
  let cache := exec_cache e cache in
  match out with
  | Ok val =>
      '((state, un_substate), res) ← Vm.finalize (H := ext) val (state, un_substate);
      Done (cache, enact_result res (state, substate) un_substate, Ok res)
  | Err (TrapCall subparams) =>
      Done (cache, (state, substate), Err (ExecutiveTrapCall subparams
              (set_kind (KResumeCall origin_info e un_substate) self)))
  | Err (TrapCreate subparams a) =>
      Done (cache, (state, substate), Err (ExecutiveTrapCreate subparams a
              (set_kind (KResumeCreate origin_info e un_substate) self)))
  end.

(** The start of an execution, after its checks and its transfer. *)
Definition exec_start (self : CallCreateExecutive) (params : ActionParams)
    (output : OutputPolicy) (un_substate : Substate) (cache : SharedCache) (x : Borrowed) :
    Outcome (SharedCache * Borrowed * ExecutiveTrapResult) :=
  e ← vm_create params schedule cache;
  match e with
  | Some e => exec_machine self (origin_info_from params) output e un_substate cache x
  | None => Done (cache, enact_result (Err OutOfGas) x un_substate, Ok (Err OutOfGas))
  end.

(** [CallBuiltin], from the price of the contract. *)
Definition exec_builtin (builtin : Builtin) (params : ActionParams) (x : Borrowed) :
    Outcome (Borrowed * Result FinalizationResult VmError) :=
  let '(state, substate) := x in
  let data := default [] (ap_data params) in
  cost ← builtin_cost builtin data (env_number info);
  if cost <=? ap_gas params then
    result ← builtin_execute builtin data;
    match result with
    | Err e => Done ((revert_to_checkpoint state, substate), Err (BuiltIn e))
    | Ok out =>
        gas_left ← u256_sub (ap_gas params) cost;
        Done ((discard_checkpoint state, substate),
              Ok (mkFinalization gas_left true (mkReturnData out 0 (Z.of_nat (length out)))))
    end
  else Done ((revert_to_checkpoint state, substate), Err OutOfGas).

(** [CallCreateExecutive::exec]. *)
Definition executive_exec (self : CallCreateExecutive) (cache : SharedCache) (x : Borrowed) :
    Outcome (SharedCache * Borrowed * ExecutiveTrapResult) :=
  let static_flag := cce_static_flag self in
  let is_create := cce_is_create self in
  match cce_kind self with
  | KTransfer params =>
      if is_create then Panic
      else
        '(x, r) ← (_ ← xm_lift (check_static_flag params static_flag is_create);
                   _ ← transfer_exec_balance params;
                   mret (mkFinalization (ap_gas params) true return_data_empty)) x;
        Done (cache, x, Ok r)
  | KCallBuiltin params =>
      if is_create then Panic
      else
        builtin ← unwrap (machine_builtin machine (ap_code_address params) (env_number info));
        '(x, r) ← (_ ← xm_lift (check_static_flag params static_flag is_create);
                   _ ← change_state (λ state, (checkpoint state).1);
                   _ ← transfer_exec_balance params;
                   exec_builtin builtin params) x;
        Done (cache, x, Ok r)
  | KExecCall params un_substate =>
      if is_create then Panic
      else
        '(x, r) ← (_ ← xm_lift (check_static_flag params static_flag is_create);
                   _ ← change_state (λ state, (checkpoint state).1);
                   transfer_exec_balance params) x;
        match r with
        | Ok _ => exec_start self params Return un_substate cache x
        | Err err => Done (cache, x, Ok (Err err))
        end
  | KExecCreate params un_substate =>
      if is_create then
        '(x, r) ← (_ ← check_eip684 params;
                   _ ← xm_lift (check_static_flag params static_flag is_create);
                   _ ← change_state (λ state, (checkpoint state).1);
                   transfer_exec_balance_and_init_contract params) x;
        match r with
        | Ok _ => exec_start self params InitContract un_substate cache x
        | Err err => Done (cache, x, Ok (Err err))
        end
      else Panic
  | KResumeCall _ _ _ | KResumeCreate _ _ _ => Panic
  end.

Definition executive_resume_call (self : CallCreateExecutive) (result : MessageCallResult)
    (cache : SharedCache) (x : Borrowed) :
    Outcome (SharedCache * Borrowed * ExecutiveTrapResult) :=
  match cce_kind self with
  | KResumeCall origin_info resume un_substate =>
      e ← vm_resume_call result cache resume;
      exec_machine self origin_info (if cce_is_create self then InitContract else Return) e
        un_substate cache x
  | _ => Panic
  end.

Definition executive_resume_create (self : CallCreateExecutive) (result : ContractCreateResult)
    (cache : SharedCache) (x : Borrowed) :
    Outcome (SharedCache * Borrowed * ExecutiveTrapResult) :=
  match cce_kind self with
  | KResumeCreate origin_info resume un_substate =>
      e ← vm_resume_create result cache resume;
      exec_machine self origin_info (if cce_is_create self then InitContract else Return) e
        un_substate cache x
  | _ => Panic
  end.

(** ** The loop over the stack of executions

    The last element of the vector is the head of the list. *)

Definition CallStack : Type := list (option Address * CallCreateExecutive).

Record Loop := mkLoop {
  lp_cache : SharedCache;
  lp_state : State (B := B);
  lp_top_substate : Substate;
  lp_callstack : CallStack;
  lp_last_res : option (bool * Z * ExecutiveTrapResult);
}.

(** Run an operation of [exec] on the substate of the execution below it, and note its
    result. *)
Definition in_parent (exec : CallCreateExecutive) (f : SharedCache → Borrowed →
    Outcome (SharedCache * Borrowed * ExecutiveTrapResult)) (callstack : CallStack) (l : Loop) :
    Outcome Loop :=
  match callstack with
  | [] =>
      '(cache, (state, top), r) ← f (lp_cache l) (lp_state l, lp_top_substate l);
      Done (mkLoop cache state top [] (Some (cce_is_create exec, cce_gas exec, r)))
  | (a, parent) :: callstack =>
      substate ← unwrap (unconfirmed_substate parent);
      '(cache, (state, substate), r) ← f (lp_cache l) (lp_state l, substate);
      Done (mkLoop cache state (lp_top_substate l)
              ((a, set_unconfirmed_substate substate parent) :: callstack)
              (Some (cce_is_create exec, cce_gas exec, r)))
  end.

(** One turn of the loop: the result of the execution, or the next state of the loop. *)
Definition consume_step (l : Loop) :
    Outcome (Result FinalizationResult VmError + Loop) :=
  match lp_last_res l with
  | None =>
      match lp_callstack l with
      | (_, exec) :: callstack =>
          l ← in_parent exec (executive_exec exec) callstack l; Done (inr l)
      | [] => Panic
      end
  | Some (is_create, gas, Ok val) =>
      match lp_callstack l with
      | [] => Done (inl val)
      | (address, exec) :: callstack =>
          if (is_create : bool) then
            address ← unwrap address;
            _ ← done_trace gas val;
            substate ← unwrap (unconfirmed_substate exec);
            let '(result, substate) := into_contract_create_result val address substate in
            let exec := set_unconfirmed_substate substate exec in
            l ← in_parent exec (executive_resume_create exec result) callstack l;
            Done (inr l)
          else
            _ ← done_trace gas val;
            l ← in_parent exec (executive_resume_call exec (into_message_call_result val))
                  callstack l;
            Done (inr l)
      end
  | Some (_, _, Err (ExecutiveTrapCall subparams resume)) =>
      sub_exec ← new_call_raw subparams (cce_depth resume + 1) (cce_static_flag resume);
      Done (inr (mkLoop (lp_cache l) (lp_state l) (lp_top_substate l)
                   ((None, sub_exec) :: (None, resume) :: lp_callstack l) None))
  | Some (_, _, Err (ExecutiveTrapCreate subparams a resume)) =>
      let sub_exec := new_create_raw subparams (cce_depth resume + 1) (cce_static_flag resume) in
      Done (inr (mkLoop (lp_cache l) (lp_state l) (lp_top_substate l)
                   ((None, sub_exec) :: (Some a, resume) :: lp_callstack l) None))
  end.

Fixpoint consume_loop (turns : nat) (l : Loop) :
    Outcome (SharedCache * Borrowed * Result FinalizationResult VmError) :=
  match turns with
  | O => Panic
  | S turns =>
      r ← consume_step l;
      match r with
      | inl val => Done (lp_cache l, (lp_state l, lp_top_substate l), val)
      | inr l => consume_loop turns l
      end
  end.

Definition consume (self : CallCreateExecutive) (cache : SharedCache) (x : Borrowed) :
    Outcome (SharedCache * Borrowed * Result FinalizationResult VmError) :=
  '(cache, (state, top), r) ← executive_exec self cache x;
  consume_loop fuel (mkLoop cache state top [] (Some (false, cce_gas self, r))).

(** ** The executive of a transaction *)

(** [call_with_stack_depth] and [create_with_stack_depth]. *)
Definition executive_call (depth : Z) (static_flag : bool) (params : ActionParams)
    (cache : SharedCache) (x : Borrowed) :
    Outcome (SharedCache * Borrowed * Result FinalizationResult VmError) :=
  exec ← new_call_raw params depth static_flag;
  '(cache, x, result) ← consume exec cache x;
  _ ← done_trace (ap_gas params) result;
  Done (cache, x, result).

Definition executive_create (depth : Z) (static_flag : bool) (params : ActionParams)
    (cache : SharedCache) (x : Borrowed) :
    Outcome (SharedCache * Borrowed * Result FinalizationResult VmError) :=
  '(cache, x, result) ← consume (new_create_raw params depth static_flag) cache x;
  _ ← done_trace (ap_gas params) result;
  Done (cache, x, result).
End Frames.
End Executive.
