(* ===== verification/ExecWorld.v ===== *)
(** * Worlds during a transaction

    What an execution keeps of the world: the total of the balances, the storage roots, the
    accounts that have been used, and that the refund counter covers the storage slots that
    have been cleared. *)

From S2P Require Import Prelude Hash Transaction Account State World StateInv StateSteps.
From S2P Require Import StateRefine StateOps Schedule EvmWord.

Local Open Scope Z_scope.

(** ** Sums of balances *)

Definition bal (w : World) (a : Address) : Z := default 0 (v_balance <$> w a).

Fixpoint sum (f : Address → Z) (l : list Address) : Z :=
  match l with [] => 0 | a :: l => f a + sum f l end.

(** No finite set of accounts has more than [S]. *)
Definition bounded (S : Z) (f : Address → Z) : Prop := ∀ l, NoDup l → sum f l ≤ S.

Definition upd (f : Address → Z) (a : Address) (v : Z) : Address → Z :=
  λ b, if decide (b = a) then v else f b.

Lemma sum_le f g l : (∀ a, f a ≤ g a) → sum f l ≤ sum g l.
Proof. intros Hle. induction l as [|a l IH]; cbn; [done|]. specialize (Hle a). lia. Qed.

Lemma sum_upd f a v l :
  NoDup l → sum (upd f a v) l = sum f l + (if decide (a ∈ l) then v - f a else 0).
Proof.
  induction 1 as [|b l Hb Hl IH]; cbn; [done|]. rewrite IH. unfold upd.
  destruct (decide (b = a)) as [->|Hne].
  - rewrite (decide_True (P := a ∈ a :: l)), (decide_False (P := a ∈ l)) by set_solver. lia.
  - destruct (decide (a ∈ l)), (decide (a ∈ b :: l)); lia || set_solver.
Qed.

Lemma bounded_le S f g : bounded S g → (∀ a, f a ≤ g a) → bounded S f.
Proof. intros Hg Hle l Hl. specialize (Hg l Hl). pose proof (sum_le f g l Hle). lia. Qed.

Lemma bounded_add S f a v : bounded S f → 0 ≤ v → bounded (S + v) (upd f a (f a + v)).
Proof. intros Hf Hv l Hl. rewrite sum_upd by done. specialize (Hf l Hl). case_decide; lia. Qed.

Lemma bounded_sub S f a v :
  bounded S f → (∀ b, 0 ≤ f b) → 0 ≤ v ≤ f a → bounded (S - v) (upd f a (f a - v)).
Proof.
  intros Hf Hp Hv l Hl. rewrite sum_upd by done. case_decide as Ha; [specialize (Hf l Hl); lia|].
  assert (NoDup (a :: l)) as Hal%Hf by (by constructor). cbn in Hal. lia.
Qed.

#[global] Instance bal_proper : Proper ((≡) ==> (=) ==> (=)) bal.
Proof. intros w w' Hw a ? <-. unfold bal. destruct (Hw a) as [? ? Hv|]; [apply Hv|done]. Qed.

(** ** Changes of the world that leave the storage *)

Section Worlds.
Context `{Keccak} (start : Z).
Implicit Types w : World.

#[global] Instance root_of_proper : Proper ((≡) ==> (=) ==> (=)) root_of.
Proof. intros w w' Hw a ? <-. unfold root_of. destruct (Hw a) as [? ? Hv|]; [apply Hv|done]. Qed.

#[global] Instance storage_of_proper : Proper ((≡) ==> (=) ==> (=) ==> (=)) storage_of.
Proof. intros w w' Hw a ? <- k ? <-. unfold storage_of. destruct (Hw a) as [? ? Hv|]; [apply Hv|done]. Qed.

#[global] Instance marked_proper : Proper ((≡) ==> (=) ==> iff) (marked start).
Proof.
  assert (∀ w w' a, w ≡ w' → marked start w a → marked start w' a) as Himp.
  { intros w w' a Hw (v & Hv & Hn). specialize (Hw a). rewrite Hv in Hw.
    destruct (w' a) as [v'|] eqn:E; inversion Hw as [? ? Hvv|]; subst. exists v'.
    split; [done|]. by rewrite <- (ve_nonce _ _ Hvv). }
  intros w w' Hw a ? <-. split; by apply Himp.
Qed.

(** Accounts keep their storage, and those that are used stay so. *)
Record evolve (w w' : World) : Prop := {
  ev_root a : root_of w' a = root_of w a;
  ev_storage a k : storage_of w' a k = storage_of w a k;
  ev_marked a : marked start w a → marked start w' a;
}.

Lemma evolve_equiv w w' : w ≡ w' → evolve w w'.
Proof. intros Hw. split; intros; by rewrite <- Hw. Qed.

Lemma evolve_refl w : evolve w w.
Proof. done. Qed.

Lemma evolve_trans w1 w2 w3 : evolve w1 w2 → evolve w2 w3 → evolve w1 w3.
Proof. intros [] []. split; intros; [congruence..|auto]. Qed.

(** A new value of one account. *)
Lemma evolve_wset w a v :
  v_root v = root_of w a → (∀ k, v_storage v k = storage_of w a k) →
  (marked start w a → v_nonce v ≠ start) → evolve w (wset a (Some v) w).
Proof.
  intros Hr Hst Hm. split; unfold wset, root_of, storage_of, marked in *; intros b;
    case_decide as E; subst; try done; eauto.
Qed.

Lemma account_storage w a k : v_storage (account_of start (w a)) k = storage_of w a k.
Proof. unfold storage_of. by destruct (w a). Qed.
Lemma account_root w a : v_root (account_of start (w a)) = root_of w a.
Proof. unfold root_of. by destruct (w a). Qed.
Lemma account_bal w a : v_balance (account_of start (w a)) = bal w a.
Proof. unfold bal. by destruct (w a). Qed.

Lemma bal_wset w a v b : bal (wset a (Some v) w) b = upd (bal w) a (v_balance v) b.
Proof. unfold bal, wset, upd. by case_decide. Qed.

Lemma upd_same f a b : upd f a (f a) b = f b.
Proof. unfold upd. case_decide; congruence. Qed.

(** A new balance, nonce or code. *)
Lemma evolve_balance w a b : evolve w (wset a (Some (with_balance b (account_of start (w a)))) w).
Proof.
  apply evolve_wset; [apply account_root|intros; apply account_storage|].
  intros Hm. by apply marked_account.
Qed.

Lemma evolve_code w a c : evolve w (wset a (Some (with_code c (account_of start (w a)))) w).
Proof.
  apply evolve_wset; [apply account_root|intros; apply account_storage|].
  intros Hm. by apply marked_account.
Qed.

Lemma evolve_nonce w a n :
  n ≠ start → evolve w (wset a (Some (with_nonce n (account_of start (w a)))) w).
Proof. intros Hn. by apply evolve_wset; [apply account_root|intros; apply account_storage|]. Qed.

(** *** Changes of balances only *)

Definition nonce_of w (a : Address) : Z := default start (v_nonce <$> w a).
Definition code_hash_of w (a : Address) : H256 := default KECCAK_EMPTY (v_code_hash <$> w a).

Record moved (w w' : World) : Prop := {
  mv_nonce a : nonce_of w' a = nonce_of w a;
  mv_code a : code_hash_of w' a = code_hash_of w a;
  mv_storage a k : storage_of w' a k = storage_of w a k;
}.

#[global] Instance nonce_of_proper : Proper ((≡) ==> (=) ==> (=)) nonce_of.
Proof. intros w w' Hw a ? <-. unfold nonce_of. destruct (Hw a) as [? ? Hv|]; [apply Hv|done]. Qed.
#[global] Instance code_hash_of_proper : Proper ((≡) ==> (=) ==> (=)) code_hash_of.
Proof. intros w w' Hw a ? <-. unfold code_hash_of. destruct (Hw a) as [? ? Hv|]; [apply Hv|done]. Qed.

#[global] Instance moved_refl : Reflexive moved.
Proof. done. Qed.
#[global] Instance moved_trans : Transitive moved.
Proof. intros w1 w2 w3 [] []. split; intros; congruence. Qed.

Lemma moved_equiv w w' : w ≡ w' → moved w w'.
Proof. intros Hw. split; intros; by rewrite Hw. Qed.

Lemma moved_balance w a b : moved w (wset a (Some (with_balance b (account_of start (w a)))) w).
Proof.
  split; intros c; unfold nonce_of, code_hash_of, storage_of, wset; case_decide as E; subst; try done;
    by destruct (w a).
Qed.

Lemma spec_add_evolve a incr mode w :
  0 ≤ incr → is_word (bal w a) → let w' := (spec_add_balance start a incr mode w).1 in
  evolve w w' ∧ moved w w' ∧ ∀ b, bal w' b = upd (bal w) a (saturating_add (bal w a) incr) b.
Proof.
  intros Hi Hw. unfold spec_add_balance.
  destruct (bool_decide (incr ≠ 0) || _) eqn:E; cbn [fst].
  - split_and!; [apply evolve_balance|apply moved_balance|]. intros b. rewrite bal_wset. cbn.
    by rewrite account_bal.
  - split_and!; [done..|]. intros b. apply orb_false_iff in E as [E _]. apply bool_decide_eq_false in E.
    assert (incr = 0) as -> by (by apply dec_stable). unfold saturating_add, is_word, U256_MAX in *.
    rewrite Z.add_0_r, Z.min_l by lia. by rewrite upd_same.
Qed.

Lemma spec_sub_evolve a decr mode w :
  decr ≤ bal w a →
  ∃ w' m, spec_sub_balance start a decr mode w = Done (w', m) ∧ evolve w w' ∧ moved w w' ∧
    (∀ b, bal w' b = upd (bal w) a (bal w a - decr) b) ∧ ∀ b, b ≠ a → w' b = w b.
Proof.
  intros Hd. unfold spec_sub_balance. rewrite account_bal, (proj2 (Z.leb_le _ _)) by done.
  destruct (bool_decide (decr ≠ 0) || _) eqn:E; (eexists _, _; split; [done|]; split_and!); try done.
  - apply evolve_balance.
  - apply moved_balance.
  - intros b. by rewrite bal_wset.
  - intros b Hb. unfold wset. by rewrite decide_False.
  - intros b. apply orb_false_iff in E as [E _]. apply bool_decide_eq_false in E.
    assert (decr = 0) as -> by (by apply dec_stable). by rewrite Z.sub_0_r, upd_same.
Qed.
End Worlds.

(** ** The ledger of a transaction

    [W0] is the world at the start of the execution, to which storage refunds refer. *)

Section Ledger.
Context `{Keccak} (schedule : Schedule) (S : Z) (W0 : World).
Implicit Types w : World.

(** A slot that was not zero and is. *)
Definition cleared (original current : H256) : bool :=
  bool_decide (original ≠ h256_default) && bool_decide (current = h256_default).

(** With net gas metering, the refund counter covers the refund of every cleared slot. *)
Definition refund_ok (R : Z) (w : World) : Prop :=
  0 ≤ R ∧
  (eip1283 schedule = true → ∃ C : gset (Address * H256),
    (∀ a k, (a, k) ∈ C ↔ cleared (storage_of W0 a k) (storage_of w a k) = true) ∧
    sstore_refund_gas schedule * Z.of_nat (size C) ≤ R).

Record ledger (R : Z) (w : World) : Prop := {
  lg_words a : is_word (bal w a);
  lg_supply : bounded S (bal w);
  lg_roots a : root_of w a = root_of W0 a;
  lg_refund : refund_ok R w;
}.

Lemma ledger_evolve start R w w' :
  ledger R w → evolve start w w' → (∀ a, is_word (bal w' a)) → bounded S (bal w') → ledger R w'.
Proof.
  intros [_ _ Hr [HR HC]] [Er Es _] Hw Hb. split; [done..| |].
  - intros a. by rewrite Er.
  - split; [done|]. intros He. destruct (HC He) as (C & HC' & Hsize). exists C. split; [|done].
    intros a k. by rewrite Es.
Qed.

Lemma ledger_quiet start R w w' :
  ledger R w → evolve start w w' → (∀ a, bal w' a = bal w a) → ledger R w'.
Proof.
  intros HL Hev Hb. eapply ledger_evolve; [done..| |].
  - intros a. rewrite Hb. apply HL.
  - eapply bounded_le; [apply HL|]. intros a. by rewrite Hb.
Qed.

#[global] Instance ledger_proper R : Proper ((≡) ==> iff) (ledger R).
Proof.
  assert (∀ w w', w ≡ w' → ledger R w → ledger R w') as Himp.
  { intros w w' Hw HL. eapply ledger_quiet; [done|by apply (evolve_equiv 0)|]. intros a. by rewrite Hw. }
  intros w w' Hw. split; by apply Himp.
Qed.

Lemma ledger_more R R' w : R ≤ R' → ledger R w → ledger R' w.
Proof.
  intros Hle [? ? ? [HR HC]]. split; try done. split; [lia|]. intros He.
  destruct (HC He) as (C & ? & ?). exists C. split; [done|lia].
Qed.

(** At the start nothing has been cleared. *)
Lemma ledger_start :
  (∀ a, is_word (bal W0 a)) → bounded S (bal W0) → ledger 0 W0.
Proof.
  intros Hw Hb. split; [done..|]. split; [done|]. intros _. exists ∅. split; [|rewrite size_empty; lia].
  intros a k. unfold cleared. split; [set_solver|].
  intros [?%bool_decide_eq_true ?%bool_decide_eq_true]%andb_true_iff. done.
Qed.

(** ** Writes to the storage *)

Definition wrote (w w' : World) (a : Address) (k value : H256) : Prop :=
  ∀ b j, storage_of w' b j = if decide ((b, j) = (a, k)) then value else storage_of w b j.

Lemma refund_write R R' w w' a k value :
  wrote w w' a k value → refund_ok R w →
  (if eip1283 schedule then
     R + sstore_refund_gas schedule *
         (Z.b2z (cleared (storage_of W0 a k) value) -
          Z.b2z (cleared (storage_of W0 a k) (storage_of w a k))) ≤ R' ∧
     0 ≤ sstore_refund_gas schedule
   else R ≤ R') →
  refund_ok R' w'.
Proof.
  intros Hw [HR HC]. destruct (eip1283 schedule) eqn:Ee; [|split; [lia|congruence]].
  intros [HR' Hg]. destruct (HC eq_refl) as (C & HC' & Hsize). clear HC.
  assert (∃ C' : gset (Address * H256),
    (∀ b j, (b, j) ∈ C' ↔ cleared (storage_of W0 b j) (storage_of w' b j) = true) ∧
    sstore_refund_gas schedule * Z.of_nat (size C') ≤ R') as (C' & HC1 & Hle);
    [|split; [nia|intros _; by exists C']].
  pose proof (HC' a k) as Hak.
  set (D := if cleared (storage_of W0 a k) value then {[(a, k)]} ∪ C else C ∖ {[(a, k)]}).
  exists D. split.
  - intros b j. rewrite Hw. unfold D. case_decide as E.
    + injection E as -> ->. destruct (cleared _ value); set_solver.
    + rewrite <- HC'. destruct (cleared _ value); set_solver.
  - unfold D. destruct (cleared _ value), (cleared _ (storage_of w a k)); cbn [Z.b2z] in HR'.
    + replace ({[(a, k)]} ∪ C) with C; [lia|]. apply leibniz_equiv. set_solver.
    + rewrite size_union, size_singleton by set_solver. lia.
    + rewrite size_difference, size_singleton by set_solver.
      assert (size C ≠ 0)%nat; [|nia]. intros Hz%size_empty_inv. set_solver.
    + replace (C ∖ {[(a, k)]}) with C; [lia|]. apply leibniz_equiv. set_solver.
Qed.

Lemma ledger_write R R' w w' a k value :
  ledger R w → (∀ b, bal w' b = bal w b) → (∀ b, root_of w' b = root_of w b) →
  wrote w w' a k value →
  (if eip1283 schedule then
     R + sstore_refund_gas schedule *
         (Z.b2z (cleared (storage_of W0 a k) value) -
          Z.b2z (cleared (storage_of W0 a k) (storage_of w a k))) ≤ R' ∧
     0 ≤ sstore_refund_gas schedule
   else R ≤ R') →
  ledger R' w'.
Proof.
  intros [Hw Hb Hr HR] Eb Er Hwr Hle. split.
  - intros b. by rewrite Eb.
  - eapply bounded_le; [done|]. intros b. by rewrite Eb.
  - intros b. by rewrite Er.
  - by eapply refund_write.
Qed.

(** ** Transfers *)

Lemma ledger_sub start R w w1 from v :
  ledger R w → evolve start w w1 → (∀ b, bal w1 b = upd (bal w) from (bal w from - v) b) →
  0 ≤ v ≤ bal w from → ledger R w1.
Proof.
  intros HL Hev Hb Hv. pose proof (lg_words _ _ HL from) as Hf. unfold is_word in *.
  eapply ledger_evolve; [done..| |].
  - intros a. rewrite Hb. unfold upd. case_decide; [unfold is_word; lia|apply HL].
  - eapply bounded_le; [apply HL|]. intros a. rewrite Hb. unfold upd. case_decide; subst; lia.
Qed.

(** The receiver gets what the sender has left, up to the largest word. *)
Lemma ledger_transfer start R w w1 w2 from to v :
  ledger R w → evolve start w w1 → evolve start w1 w2 → 0 ≤ v ≤ bal w from →
  (∀ b, bal w1 b = upd (bal w) from (bal w from - v) b) →
  (∀ b, bal w2 b = upd (bal w1) to (saturating_add (bal w1 to) v) b) → ledger R w2.
Proof.
  intros HL E1 E2 Hv H1 H2. pose proof (ledger_sub _ _ _ _ _ _ HL E1 H1 Hv) as HL1.
  pose proof (lg_words _ _ HL1 to) as Hto. unfold saturating_add, U256_MAX, is_word in *.
  eapply ledger_evolve; [exact HL1|done|..].
  - intros a. rewrite H2. unfold upd. case_decide; [unfold is_word; lia|apply HL1].
  - assert (bounded (S - v) (bal w1)) as Hb.
    { eapply bounded_le; [apply (bounded_sub S (bal w) from v); [apply HL| |done]|].
      - intros b. apply (lg_words _ _ HL b).
      - intros a. by rewrite H1. }
    apply (bounded_add _ _ to v) in Hb; [|lia]. rewrite Z.sub_add in Hb.
    eapply bounded_le; [exact Hb|]. intros a. rewrite H2. unfold upd. case_decide; lia.
Qed.

(** The amount that a write adds to the refund counter. *)
Definition refund_delta (original current new : Z) : Z :=
  let dirty := default (sload_gas schedule) (sstore_dirty_gas schedule) in
  let refund := sstore_refund_gas schedule in
  if current =? new then 0
  else if original =? current then
    if original =? 0 then 0 else if new =? 0 then refund else 0
  else
    (if original =? 0 then 0 else if current =? 0 then - refund else if new =? 0 then refund else 0) +
    (if original =? new then
       (if original =? 0 then sstore_set_gas schedule else sstore_reset_gas schedule) - dirty
     else 0).

Lemma h256_Z_zero h : h256_Z h = 0 ↔ h = h256_default.
Proof.
  split; [|by intros ->]. intros Hz. apply h256_Z_inj. by rewrite Hz.
Qed.

Lemma cleared_Z o c : cleared o c = negb (h256_Z o =? 0) && (h256_Z c =? 0).
Proof.
  unfold cleared. f_equal.
  - destruct (Z.eqb_spec (h256_Z o) 0) as [E|E]; cbn; rewrite h256_Z_zero in E;
      [by apply bool_decide_eq_false_2; intros []|by apply bool_decide_eq_true_2].
  - destruct (Z.eqb_spec (h256_Z c) 0) as [E|E]; rewrite h256_Z_zero in E;
      [by apply bool_decide_eq_true_2|by apply bool_decide_eq_false_2].
Qed.

Lemma refund_delta_covers o c n :
  schedule_ok schedule →
  sstore_refund_gas schedule * (Z.b2z (cleared o n) - Z.b2z (cleared o c)) ≤
    refund_delta (h256_Z o) (h256_Z c) (h256_Z n).
Proof.
  intros Hs. pose proof (so_dirty_least _ Hs). pose proof (so_refunds _ Hs) as [[? _] _].
  rewrite !cleared_Z. unfold refund_delta.
  repeat match goal with |- context [?x =? ?y] => destruct (Z.eqb_spec x y) end; cbn [negb andb Z.b2z];
    lia.
Qed.
End Ledger.
