(* ===== verification/ExternalitiesLaws.v ===== *)
(** * The externalities satisfy the contract of the virtual machine

    On a chain whose parameters are in force, the operations that [Externalities.v] offers to
    an execution neither panic nor fail with an internal error, and they keep the ledger of
    the transaction: the instance of [ExtLaws] that the theorems on the interpreter ask for. *)

From S2P Require Import Prelude Hash Transaction Account State World StateInv StateSteps.
From S2P Require Import StateRefine StateOps Schedule EvmWord Vm Gasometer Evm VmLaws EvmLaws.
From S2P Require Import Externalities ExecWorld.

Local Open Scope Z_scope.

(** ** What the executive relies on of the chain *)

Record chain_ok (info : EnvInfo) (machine : Machine) (schedule : Schedule) : Prop := {
  co_schedule : schedule_ok schedule;
  co_no_empty : no_empty schedule = true;
  co_nonce : keep_unsigned_nonce schedule = false;
  co_dust : kill_dust schedule = DustOff;
  (** There is no WebAssembly. *)
  co_wasm : wasm_costs schedule = None;
  co_versions : versions schedule = ∅;
  co_chain : is_word (chain_id (machine_params machine));
  co_env : env_ok info;
  (** Block hashes come from the environment, not from a contract. *)
  co_number : env_number info < 2 ^ 64 - 256;
  co_eip210 : env_number info + 256 < eip210_transition (machine_params machine);
  co_hashes : Z.min 256 (env_number info) ≤ Z.of_nat (length (env_last_hashes info));
  (** The precompiled contracts have prices, and execute when they are paid. *)
  co_builtins a b data : machine_builtin machine a (env_number info) = Some b → bytes_ok data →
    ∃ cost, builtin_cost b data (env_number info) = Done cost ∧ 0 ≤ cost ∧
      (cost < 2 ^ 64 → ∃ r, builtin_execute b data = Done r ∧ ∀ out, r = Ok out → bytes_ok out);
}.

(** ** Substates *)

(** Only the touched addresses of a substate change. *)
Definition kept (sub sub' : Substate) : Prop := sub' = set_touched (touched sub') sub.

#[global] Instance kept_refl : Reflexive kept.
Proof. by intros []. Qed.

#[global] Instance kept_trans : Transitive kept.
Proof. unfold kept. intros sub1 sub2 sub3 E1 E2. rewrite E2, E1. done. Qed.

Lemma kept_fields sub sub' :
  kept sub sub' → suicides sub' = suicides sub ∧ sstore_clears_refund sub' = sstore_clears_refund sub.
Proof. intros ->. done. Qed.

Lemma put_mode_kept mode sub : kept sub (put_mode mode sub).
Proof. by destruct mode, sub. Qed.

Section Laws.
Context `{Keccak} `{Rlp} `{LruCache H256 H256} `{!LruLaws H256 H256} `{TrieDatabase} `{HashOrder}.
Context {B : Type} `{!Backend B} `{!DbStep} `{!BackendLaws} `{!CodeLaws}.
Context (start : Z) (Hstart : 0 ≤ start < U256_MAX).
Context (info : EnvInfo) (machine : Machine) (schedule : Schedule).
Context (Hchain : chain_ok info machine schedule).
(** The bound on the sum of the balances, and the world at the start of the execution. *)
Context (S : Z) (W0 : World).
Abbreviation Borrowed := (Borrowed (B := B)).
Implicit Types x : Borrowed.

(** ** The invariant of an execution

    [ws] are the saved worlds, [Rb] is the refund of the suspended executions and [M] are
    the accounts that execute. *)
Record borrowed_inv (ws : list World) (Rb : Z) (M : list Address) (x : Borrowed) : Prop := {
  bi_good : good start x.1;
  bi_saved : Forall2 (≡@{World}) (saved x.1) ws;
  bi_ledger : ledger schedule S W0 (Rb + sstore_clears_refund x.2) (world x.1);
  bi_marked : Forall (marked start (world x.1)) M;
  bi_suicides a : a ∈ suicides x.2 → length a = 20%nat;
}.

(** What is left of it after a failure. *)
Definition borrowed_err (ws : list World) (x : Borrowed) : Prop :=
  good start x.1 ∧ Forall2 (≡@{World}) (saved x.1) ws.

Definition has_funds (x : Borrowed) (a : Address) (value : Z) : Prop := value ≤ bal (world x.1) a.

(** What a call or a creation needs. *)
Definition ready (x : Borrowed) (t : TrapKind) : Prop :=
  (∀ v, ap_value (trap_params t) = Transfer v → has_funds x (ap_sender (trap_params t)) v) ∧
  match t with
  | TrapCall p => default [] (ap_code p) ≠ [] → marked start (world x.1) (ap_address p)
  | TrapCreate p _ => marked start (world x.1) (ap_sender p)
  end.

Section Invariant.
Context (ws : list World) (Rb : Z) (M : list Address).

Lemma borrowed_inv_err x : borrowed_inv ws Rb M x → borrowed_err ws x.
Proof. intros []. by split. Qed.

(** A change of the state, and of the substate except its suicides. *)
Lemma borrowed_step s w s' sub sub' :
  borrowed_inv ws Rb M (s, sub) → StateInv.keeps s w s' → good start s' →
  suicides sub' = suicides sub →
  (∀ a, marked start (world s) a → marked start w a) →
  ledger schedule S W0 (Rb + sstore_clears_refund sub') w → borrowed_inv ws Rb M (s', sub').
Proof.
  intros [Hg Hsv HL Hm Hsu] K Hg' E Hmark HL'. cbn in *. pose proof (ke_world _ _ _ K) as Hw.
  split; cbn.
  - done.
  - trans (saved s); [apply K|done].
  - by rewrite Hw.
  - eapply Forall_impl; [exact Hm|]. intros a Ha. rewrite Hw. auto.
  - by rewrite E.
Qed.

(** An operation that leaves the storage and the balances. *)
Lemma borrowed_quiet s w s' sub :
  borrowed_inv ws Rb M (s, sub) → StateInv.keeps s w s' → good start s' →
  evolve start (world s) w → (∀ a, bal w a = bal (world s) a) → borrowed_inv ws Rb M (s', sub).
Proof.
  intros Hx K Hg Hev Hb. eapply borrowed_step; [done..|apply Hev|].
  eapply ledger_quiet; [apply (bi_ledger _ _ _ _ Hx)|done..].
Qed.

Lemma state_op_ok {A} (m : SM (B := B) A) x w a :
  borrowed_inv ws Rb M x → op start x.1 w a (m x.1) →
  evolve start (world x.1) w → (∀ b, bal w b = bal (world x.1) b) →
  ∃ x', state_op m x = Done (x', Ok a) ∧ borrowed_inv ws Rb M x' ∧ world x'.1 ≡ w.
Proof.
  destruct x as [s sub]. intros Hx (s' & Em & K & Hg) Hev Hb. exists (s', sub).
  cbn in *. rewrite Em. split; [done|]. split; [by eapply borrowed_quiet|apply K].
Qed.

Lemma wp_op {A} (m : SM (B := B) A) x w a Q E :
  borrowed_inv ws Rb M x → op start x.1 w a (m x.1) →
  evolve start (world x.1) w → (∀ b, bal w b = bal (world x.1) b) →
  (∀ x', borrowed_inv ws Rb M x' → world x'.1 ≡ w → Q a x') → wp (state_op m) x Q E.
Proof.
  intros Hx Hop Hev Hb HQ. destruct (state_op_ok m x w a) as (x' & Em & Hx' & Hw'); [done..|].
  exists x', (Ok a). auto.
Qed.

(** A query. *)
Lemma wp_query {A} (m : SM (B := B) A) x a Q E :
  borrowed_inv ws Rb M x → op start x.1 (world x.1) a (m x.1) →
  (∀ x', borrowed_inv ws Rb M x' → world x'.1 ≡ world x.1 → Q a x') → wp (state_op m) x Q E.
Proof. intros Hx Hop HQ. by eapply wp_op. Qed.

Lemma wp_change f x Q E : Q tt (x.1, f x.2) → wp (change_substate (B := B) f) x Q E.
Proof. destruct x as [s sub]. intros HQ. by exists (s, f sub), (Ok tt). Qed.

(** ** Balances *)

Lemma cleanup_sub_ok from v s sub :
  good start s → v ≤ bal (world s) from →
  ∃ s' sub' w, with_cleanup schedule (sub_balance from v) (s, sub) = Done ((s', sub'), Ok tt) ∧
    StateInv.keeps s w s' ∧ good start s' ∧ evolve start (world s) w ∧ moved start (world s) w ∧
    (∀ b, bal w b = upd (bal (world s)) from (bal (world s) from - v) b) ∧
    (∀ b, b ≠ from → w b = world s b) ∧
    kept sub sub'.
Proof.
  intros Hs Hv. set (mode := cleanup_mode sub schedule).
  destruct (spec_sub_evolve start from v mode (world s) Hv) as (w & m & Hsp & Hev & Hmv & Hb & Hne).
  destruct (op_sub_balance start from v mode s w m Hs Hsp) as (s' & E & K & Hg).
  eexists s', _, w. cbn. fold mode. rewrite E. cbn. split; [done|].
  split_and!; try done. apply put_mode_kept.
Qed.

Lemma cleanup_add_ok to v s sub :
  good start s → 0 ≤ v → is_word (bal (world s) to) →
  ∃ s' sub' w, with_cleanup schedule (add_balance to v) (s, sub) = Done ((s', sub'), Ok tt) ∧
    StateInv.keeps s w s' ∧ good start s' ∧ evolve start (world s) w ∧ moved start (world s) w ∧
    (∀ b, bal w b = upd (bal (world s)) to (saturating_add (bal (world s) to) v) b) ∧
    kept sub sub'.
Proof.
  intros Hs Hv Hw. set (mode := cleanup_mode sub schedule).
  pose proof (op_add_balance start to v mode s Hs) as Hop.
  pose proof (spec_add_evolve start to v mode (world s) Hv Hw) as (Hev & Hmv & Hb).
  destruct (spec_add_balance start to v mode (world s)) as [w m].
  destruct Hop as (s' & E & K & Hg). eexists s', _, w. cbn. fold mode. rewrite E. cbn.
  split; [done|]. split_and!; try done. apply put_mode_kept.
Qed.

Lemma transfer_ok from to v x :
  borrowed_inv ws Rb M x → 0 ≤ v ≤ bal (world x.1) from →
  ∃ x', transfer schedule from to v x = Done (x', Ok tt) ∧ borrowed_inv ws Rb M x' ∧
    kept x.2 x'.2 ∧ ∀ a, marked start (world x.1) a → marked start (world x'.1) a.
Proof.
  destruct x as [s sub]. cbn. intros Hx Hv. pose proof (bi_ledger _ _ _ _ Hx) as HL. cbn in HL.
  destruct (cleanup_sub_ok from v s sub) as (s1 & sub1 & w1 & E1 & K1 & G1 & Ev1 & _ & B1 & _ & Kp1);
    [apply Hx|lia|].
  pose proof (ke_world _ _ _ K1) as Hw1.
  assert (ledger schedule S W0 (Rb + sstore_clears_refund sub) (world s1)) as HL1.
  { rewrite Hw1. by eapply ledger_sub. }
  destruct (cleanup_add_ok to v s1 sub1) as (s2 & sub2 & w2 & E2 & K2 & G2 & Ev2 & _ & B2 & Kp2);
    [done|lia|apply HL1|].
  destruct (kept_fields _ _ Kp1) as [Su1 R1]. destruct (kept_fields _ _ Kp2) as [Su2 R2].
  exists (s2, sub2). unfold transfer. rewrite (xm_bind_ok _ _ _ _ _ E1). split; [done|]. cbn.
  assert (evolve start w1 w2) as Ev12.
  { eapply evolve_trans; [|done]. apply evolve_equiv. by symmetry. }
  assert (∀ a, marked start (world s) a → marked start w2 a) as Hm.
  { intros a Ha. by apply Ev12, Ev1. }
  split_and!; [|by eapply kept_trans|intros a Ha; rewrite (ke_world _ _ _ K2); auto].
  eapply borrowed_step; [done|by eapply keeps_trans|done|congruence|done|].
  rewrite R2, R1. apply (ledger_transfer _ _ _ start _ (world s) w1 w2 from to v); [done..|].
  assert (∀ b, bal (world s1) b = bal w1 b) as Hb by (intros b; by rewrite Hw1).
  intros b. rewrite B2. unfold upd. by rewrite !Hb.
Qed.

(** ** The account that executes *)

Context (self : Externalities).
Abbreviation address := (oi_address (ex_origin_info self)).

Record self_ok : Prop := {
  sk_info : ex_env_info self = info;
  sk_machine : ex_machine self = machine;
  sk_schedule : ex_schedule self = schedule;
  sk_marked : address ∈ M;
  sk_address : length address = 20%nat;
  sk_origin : length (oi_origin (ex_origin_info self)) = 20%nat;
  sk_price : is_word (oi_gas_price (ex_origin_info self));
  sk_value : is_word (oi_value (ex_origin_info self));
}.

Context (Hself : self_ok) (Hlast : last ws = Some W0).
Context (nested_call nested_create : Z → bool → ActionParams → XM Borrowed FinalizationResult).
#[local] Instance self_ext : Ext Borrowed := externalities_ext nested_call nested_create self.

Abbreviation inv := (borrowed_inv ws Rb M).

Lemma self_marked x : inv x → marked start (world x.1) address.
Proof. intros Hx. eapply Forall_forall; [apply Hx|apply Hself]. Qed.

(** ** Storage *)

Lemma wp_storage key x Q E :
  inv x → (∀ x', inv x' → world x'.1 ≡ world x.1 → Q (storage_of (world x.1) address key) x') →
  wp (state_op (storage_at address key)) x Q E.
Proof. intros Hx HQ. eapply wp_query; [done| |done]. apply op_storage_at, Hx. Qed.

Lemma wp_initial_storage key x Q E :
  inv x → (∀ x', inv x' → world x'.1 ≡ world x.1 → Q (storage_of W0 address key) x') →
  wp (externalities_initial_storage_at self key) x Q E.
Proof.
  intros Hx HQ. apply wp_bind. eapply wp_query; [done|apply op_unchanged, Hx|].
  intros x1 Hx1 Hw1. apply wp_bind.
  assert (∃ w0, last (saved x1.1) = Some w0 ∧ w0 ≡ W0) as (w0 & El & Hw0).
  { pose proof (Forall2_last _ _ _ (bi_saved _ _ _ _ Hx1)) as Hl. rewrite Hlast in Hl.
    inversion Hl as [w0 ? Hw E1|]; subst. by exists w0. }
  eapply wp_query; [done|apply (op_checkpoint_storage start address key x1.1 w0); [apply Hx1|done|]|].
  { rewrite Hw0. symmetry. apply (lg_roots _ _ _ _ _ (bi_ledger _ _ _ _ Hx1)). }
  intros x2 Hx2 Hw2. apply wp_ret. cbn. rewrite Hw0. apply HQ; [done|by etrans].
Qed.

(** A write for which the refund counter has been adjusted. *)
Lemma wp_set_storage s sub sub' key value :
  inv (s, sub) → suicides sub' = suicides sub →
  (if eip1283 schedule then
     sstore_clears_refund sub + sstore_refund_gas schedule *
       (Z.b2z (cleared (storage_of W0 address key) value) -
        Z.b2z (cleared (storage_of W0 address key) (storage_of (world s) address key))) ≤
     sstore_clears_refund sub'
   else sstore_clears_refund sub ≤ sstore_clears_refund sub') →
  wp (externalities_set_storage self key value) (s, sub') (λ _ x', inv x') (borrowed_err ws).
Proof.
  intros Hx Hsu Hle. unfold externalities_set_storage.
  destruct (ex_static_flag self); [apply wp_err; [done|]; by split; apply Hx|].
  pose proof (op_set_storage start address key value s (bi_good _ _ _ _ Hx) (self_marked _ Hx)) as Hop.
  destruct Hop as (s' & E & K & Hg). exists (s', sub'), (Ok tt). cbn. rewrite E. split; [done|].
  eapply borrowed_step; [done..| |].
  - intros a Ha. case_decide; [done|]. destruct Ha as (v & Hv & Hn). unfold marked, wset.
    case_decide; [subst|by exists v]. eexists. split; [done|]. cbn. by rewrite Hv.
  - eapply ledger_write; [apply (bi_ledger _ _ _ _ Hx)|..].
    + intros b. case_decide; [done|]. rewrite bal_wset. cbn. by rewrite account_bal, upd_same.
    + intros b. case_decide; [done|]. unfold root_of, wset. case_decide; [subst|done].
      cbn. by destruct (world s address).
    + intros b j. case_decide as Ev.
      * case_decide as Ek; [|done]. injection Ek as -> ->. by rewrite account_storage in Ev.
      * unfold storage_of at 1, wset. destruct (decide (b = address)) as [->|Hb].
        -- cbn. rewrite account_storage. destruct (decide (j = key)) as [->|Hj].
           ++ by rewrite decide_True.
           ++ rewrite decide_False by congruence. done.
        -- rewrite decide_False by congruence. done.
    + pose proof (so_refunds _ (co_schedule _ _ _ Hchain)) as [[? _] _].
      destruct (eip1283 schedule); cbn; [split; lia|lia].
Qed.

Lemma handle_refund_delta original current new x :
  ∃ x', handle_eip1283_sstore_clears_refund original current new x = Done x' ∧ x'.1 = x.1 ∧
    suicides x'.2 = suicides x.2 ∧
    sstore_clears_refund x'.2 =
      sstore_clears_refund x.2 + refund_delta schedule original current new.
Proof.
  unfold handle_eip1283_sstore_clears_refund, refund_delta, usize_sub. cbn.
  rewrite (sk_schedule Hself).
  pose proof (so_dirty_least _ (co_schedule _ _ _ Hchain)).
  rewrite !(proj2 (Z.leb_le _ _)) by lia. cbn.
  destruct (current =? new), (original =? current), (original =? 0), (new =? 0), (current =? 0),
    (original =? new); cbn; (eexists; split_and!; [done..|cbn; lia]).
Qed.

Lemma sstore_law k v x :
  inv x → is_word k → is_word v → wp (sstore k v) x (λ _ x', inv x') (borrowed_err ws).
Proof.
  intros Hx Hk Hv. apply wp_bind, wp_storage; [done|]. intros x1 Hx1 Hw1.
  apply wp_bind, wp_ask, wp_bind. cbn [ext_schedule self_ext externalities_ext].
  rewrite (sk_schedule Hself).
  set (cur := storage_of (world x.1) address (h256 k)).
  assert (storage_of (world x1.1) address (h256 k) = cur) as Hc1 by (by rewrite Hw1).
  destruct (eip1283 schedule) eqn:Ee.
  - apply wp_bind, wp_initial_storage; [done|]. intros x2 Hx2 Hw2.
    set (orig := storage_of W0 address (h256 k)).
    destruct (handle_refund_delta (h256_Z orig) (h256_Z cur) v x2) as ([s3 sub3] & Eh & E1 & Hsu & HR).
    exists (s3, sub3), (Ok tt). unfold xm_run. rewrite Eh. split; [done|]. destruct x2 as [s2 sub2].
    cbn in E1, Hsu, HR. subst s3. apply (wp_set_storage s2 sub2); [done..|]. rewrite Ee, HR.
    assert (storage_of (world s2) address (h256 k) = cur) as ->.
    { rewrite <- Hc1. by rewrite <- Hw2. }
    pose proof (refund_delta_covers schedule orig cur (h256 v) (co_schedule _ _ _ Hchain)) as Hd.
    rewrite h256_Z_h256 in Hd by done. fold orig. lia.
  - destruct x1 as [s1 sub1]. pose proof (so_refunds _ (co_schedule _ _ _ Hchain)) as [[? _] _].
    case_if.
    + eexists _, (Ok tt). split; [done|]. apply (wp_set_storage s1 sub1); [done..|].
      rewrite Ee. cbn. lia.
    + apply wp_ret, (wp_set_storage s1 sub1); [done..|]. by rewrite Ee.
Qed.

(** ** Calls and creations *)

Lemma inc_nonce_ok a x :
  inv x →
  ∃ x', state_op (inc_nonce a) x = Done (x', Ok tt) ∧ inv x' ∧
    (∀ b, bal (world x'.1) b = bal (world x.1) b) ∧
    (∀ b, marked start (world x.1) b → marked start (world x'.1) b) ∧ marked start (world x'.1) a.
Proof.
  intros Hx. pose proof (op_inc_nonce start Hstart a x.1 (bi_good _ _ _ _ Hx)) as Hop. cbn in Hop.
  set (n := saturating_add _ 1) in Hop.
  assert (n ≠ start) as Hn.
  { assert (start ≤ v_nonce (account_of start (world x.1 a))) as Hle.
    { destruct (world x.1 a) as [v|] eqn:E; [|done]. by eapply world_nonce; [apply Hx|]. }
    subst n. unfold saturating_add, U256_MAX in *. lia. }
  assert (∀ b, bal (wset a (Some (with_nonce n (account_of start (world x.1 a)))) (world x.1)) b =
    bal (world x.1) b) as Hb.
  { intros b. rewrite bal_wset. cbn. by rewrite account_bal, upd_same. }
  destruct (state_op_ok _ _ _ _ Hx Hop) as (x' & E & Hx' & Hw'); [by apply evolve_nonce|done|].
  exists x'. split_and!; [done..| | |].
  - intros b. by rewrite Hw'.
  - intros b Hm. rewrite Hw'. by apply (ev_marked start _ _ (evolve_nonce start (world x.1) a n Hn)).
  - rewrite Hw'. unfold marked, wset. rewrite decide_True by done. by eexists.
Qed.

Lemma length_hash_address h : length (hash_address h) = 20%nat.
Proof. unfold hash_address. rewrite length_drop, h256_len. done. Qed.

Lemma length_contract_address scheme sender nonce code :
  length (contract_address scheme sender nonce code).1 = 20%nat.
Proof. destruct scheme; apply length_hash_address. Qed.

Lemma code_of_ok a x :
  inv x →
  ∃ x' c h v, state_op (code_of a) x = Done (x', Ok (c, h, v)) ∧ inv x' ∧
    world x'.1 ≡ world x.1 ∧ small (default [] c) ∧
    (default [] c ≠ [] → marked start (world x.1) a).
Proof.
  intros Hx. destruct (op_code start a x.1 (bi_good _ _ _ _ Hx)) as (c & (s1 & E1 & K1 & G1) & Hc & Hm).
  destruct (op_code_hash start a s1 G1) as (s2 & E2 & K2 & G2).
  destruct (op_code_version start a s2 G2) as (s3 & E3 & K3 & G3).
  set (r := (c, v_code_hash <$> world s1 a, default 0 (v_code_version <$> world s2 a))).
  assert (op start x.1 (world x.1) r (code_of a x.1)) as Hop.
  { exists s3. unfold code_of. rewrite (sm_bind_ok _ _ _ _ _ E1), (sm_bind_ok _ _ _ _ _ E2),
      (sm_bind_ok _ _ _ _ _ E3). split_and!; [done| |done].
    eapply keeps_world; [by eapply keeps_trans; [|eapply keeps_trans]|].
    trans (world s1); [apply K2|apply K1]. }
  destruct (state_op_ok _ _ _ _ Hx Hop) as (x' & E & Hx' & Hw'); [done..|].
  exists x'. eexists _, _, _. split; [exact E|]. by split_and!.
Qed.

Lemma create_law gas value code version scheme x :
  inv x → 0 ≤ gas < 2 ^ 64 → is_word value → has_funds x address value → bytes_ok code →
  ∃ x' t, externalities_create nested_create self gas value code version scheme true x =
      Done (x', Err t) ∧ inv x' ∧
    is_trap_create t ∧ trap_gas t = gas ∧ action_params_ok (trap_params t) ∧ ready x' t.
Proof.
  intros Hx Hgas Hv Hf Hc. unfold externalities_create.
  destruct (state_op_ok _ x _ _ Hx (op_nonce start address x.1 (bi_good _ _ _ _ Hx)))
    as (x1 & -> & Hx1 & Hw1); [done..|]. cbn -[contract_address].
  set (n := default start _). pose proof (length_contract_address scheme address n code) as Hlen.
  destruct (contract_address scheme address n code) as [new_address code_hash]. cbn in Hlen.
  rewrite (sk_schedule Hself), (co_nonce _ _ _ Hchain). cbn [negb orb].
  assert (∃ x2, (if negb (ex_static_flag self) && true then state_op (inc_nonce address) x1
                 else Done (x1, Ok tt)) = Done (x2, Ok tt) ∧ inv x2 ∧
    ∀ b, bal (world x2.1) b = bal (world x1.1) b) as (x2 & -> & Hx2 & Hb2).
  { destruct (negb _ && true); [|by exists x1].
    destruct (inc_nonce_ok address x1 Hx1) as (x2 & ? & ? & ? & _). by exists x2. }
  eexists x2, _. split; [done|]. split; [done|]. split; [by split; [|eexists]|]. split; [done|].
  split; [by split; try apply Hself|]. split; cbn.
  - intros v [= ->]. unfold has_funds in *. by rewrite Hb2, Hw1.
  - by apply self_marked.
Qed.

Lemma call_law gas sender receive value data code_address call_type x :
  inv x → 0 ≤ gas < 2 ^ 64 → length sender = 20%nat → length receive = 20%nat →
  length code_address = 20%nat → receive = code_address ∨ receive = address → bytes_ok data →
  (∀ v, value = Some v → is_word v ∧ has_funds x sender v) →
  ∃ x' t, externalities_call nested_call self gas sender receive value data code_address call_type
      true x = Done (x', Err t) ∧ inv x' ∧
    is_trap_call t ∧ trap_gas t = gas ∧ action_params_ok (trap_params t) ∧ ready x' t.
Proof.
  intros Hx Hgas Hs Hr Hca Hrc Hd Hv. unfold externalities_call.
  destruct (code_of_ok code_address x Hx) as (x1 & c & h & v & -> & Hx1 & Hw1 & Hc & Hm). cbn.
  eexists x1, _. split; [done|]. split; [done|]. split; [done|]. split; [done|]. split; [|split]; cbn.
  - split; cbn; try done; try apply Hself. destruct value as [w|]; [by apply Hv|apply Hself].
  - intros w Ew. destruct value; [|done]. injection Ew as ->. destruct (Hv w eq_refl) as [_ Hf].
    unfold has_funds in *. by rewrite Hw1.
  - intros Hne. rewrite Hw1. destruct Hrc as [->| ->]; [auto|]. by apply self_marked.
Qed.

(** ** Other operations *)

Lemma blockhash_law n x :
  inv x → is_word n → ∃ h, externalities_blockhash nested_call self n x = Done (x, h).
Proof.
  intros Hx Hn. unfold externalities_blockhash, usize_add, usize_sub.
  rewrite (sk_info Hself), (sk_machine Hself).
  pose proof (co_number _ _ _ Hchain). pose proof (co_eip210 _ _ _ Hchain).
  pose proof (co_hashes _ _ _ Hchain) as Hl. pose proof (eo_number _ (co_env _ _ _ Hchain)).
  unfold is_word in *. rewrite (proj2 (Z.ltb_lt (_ + 256) _)) by lia. cbn -[Z.pow Z.max].
  rewrite (proj2 (Z.leb_gt _ (_ + 256))) by lia. destruct (_ && _) eqn:E; [|by eexists].
  apply andb_true_iff in E as [E1%Z.ltb_lt E2%Z.leb_le]. rewrite low_u64_small in * by lia.
  rewrite (proj2 (Z.leb_le n _)) by lia. cbn -[Z.pow].
  rewrite (proj2 (Z.leb_le 1 _)) by lia. cbn -[Z.pow].
  destruct (lookup_lt_is_Some_2 (env_last_hashes info) (Z.to_nat (env_number info - n - 1))) as [h ->];
    [lia|]. by eexists.
Qed.

Lemma ret_law gas d apply_state x :
  0 ≤ gas < 2 ^ 64 → return_data_ok d → inv x →
  wp (externalities_ret self gas d apply_state) x (λ gas' x', inv x' ∧ 0 ≤ gas' ≤ gas) inv.
Proof.
  intros Hgas Hd Hx. unfold externalities_ret.
  assert (wp (mret gas) x (λ gas' x', inv x' ∧ 0 ≤ gas' ≤ gas) inv) as Hret.
  { apply wp_ret. split; [done|lia]. }
  destruct (ex_output self), apply_state; try done.
  destruct (rd_deref_done d Hd) as (code & Ed & Hlen). destruct Hd as (? & ? & ? & ?).
  apply wp_bind. eapply wp_done; [unfold rd_len; by rewrite Ed|].
  pose proof (so_create_data _ (co_schedule _ _ _ Hchain)) as Hp. unfold price in Hp.
  rewrite (sk_schedule Hself). apply wp_bind. eapply wp_done.
  { unfold u256_mul. rewrite (proj2 (Z.ltb_lt _ _)) by nia. done. }
  destruct (_ || _) eqn:E; [case_if; [by apply wp_err|done]|]. apply orb_false_iff in E as [E%Z.ltb_ge _].
  apply wp_bind. eapply wp_done; [done|]. apply wp_bind.
  eapply wp_op; [done|apply (op_init_code start address code)| | |].
  - apply Hx.
  - by apply self_marked.
  - unfold small. lia.
  - apply evolve_code.
  - intros b. rewrite bal_wset. cbn. by rewrite account_bal, upd_same.
  - intros x' Hx' _. eapply wp_done.
    { unfold u256_sub. rewrite (proj2 (Z.leb_le _ _)) by lia. done. }
    split; [done|]. nia.
Qed.

Lemma suicide_law a x :
  inv x → wp (externalities_suicide self a) x (λ _ x', inv x' ∧ True) inv.
Proof.
  intros Hx. unfold externalities_suicide. destruct (ex_static_flag self); [by apply wp_err|].
  apply wp_bind. eapply wp_query; [done|apply op_balance, Hx|]. intros x1 Hx1 Hw1.
  fold (bal (world x.1) address). replace (bal (world x.1) address) with (bal (world x1.1) address)
    by (by rewrite Hw1).
  set (b := bal (world x1.1) address).
  assert (is_word b) as Hb by apply (bi_ledger _ _ _ _ Hx1). unfold is_word in Hb.
  assert (∀ x', inv x' → wp (change_substate (add_suicide address)) x' (λ _ x', inv x' ∧ True) inv) as Hend.
  { intros [s sub] Hx'. apply wp_change. split; [|done]. destruct Hx'. split; try done. cbn in *.
    intros c [->%elem_of_singleton|]%elem_of_union; [apply Hself|auto]. }
  apply wp_bind. case_decide as Ea.
  - apply wp_bind. destruct (spec_sub_evolve start address b NoEmpty (world x1.1)) as (w & m & Hsp & Hev & _ & Hbal & _);
      [done|].
    destruct (op_sub_balance start _ _ _ _ _ _ (bi_good _ _ _ _ Hx1) Hsp) as (s' & Es & K & Hg).
    destruct x1 as [s1 sub1]. cbn in *. exists (s', sub1), (Ok m). cbn. rewrite Es. split; [done|].
    apply wp_ret, Hend. eapply borrowed_step; [done..|apply Hev|]. cbn.
    eapply ledger_sub; [apply (bi_ledger _ _ _ _ Hx1)|done..|]. cbn. fold b. lia.
  - rewrite (sk_schedule Hself).
    destruct (transfer_ok address a b x1 Hx1) as (x2 & Et & Hx2 & _); [fold b; lia|].
    exists x2, (Ok tt). split; [done|]. by apply Hend.
Qed.

Lemma extcode_law a : keeps inv (state_op (State.code a)) (λ c, bytes_ok (default [] c)).
Proof.
  intros x Hx. destruct (op_code start a x.1 (bi_good _ _ _ _ Hx)) as (c & Hop & Hc & _).
  by eapply wp_query.
Qed.

Lemma extcodesize_law a :
  keeps inv (size ← state_op (code_size a); mret (Z.of_nat <$> size)) (λ n, is_word (default 0 n)).
Proof.
  intros x Hx. destruct (op_code_size start a x.1 (bi_good _ _ _ _ Hx)) as (n & Hop & Hn).
  apply wp_bind. eapply wp_query; [done..|]. intros x' Hx' _. apply wp_ret. split; [done|].
  unfold is_word. destruct n; cbn in *; lia.
Qed.

Lemma extcodehash_law a : keeps inv (externalities_extcodehash a) (λ _, True).
Proof.
  intros x Hx. apply wp_bind. eapply wp_query; [done|apply op_exists_and_not_null, Hx|].
  intros x' Hx' _. case_match; [|by apply wp_ret].
  by eapply wp_query; [done|apply op_code_hash, Hx'|].
Qed.

Lemma log_law topics data : keeps inv (externalities_log self topics data) (λ _, True).
Proof.
  intros x Hx. unfold externalities_log. destruct (ex_static_flag self); [by apply wp_err|].
  apply wp_change. split; [|done]. destruct x, Hx. by split.
Qed.

Lemma balance_law a x :
  inv x →
  wp (state_op (balance a)) x
    (λ b x', inv x' ∧ is_word b ∧ ∀ v, 0 ≤ v ≤ b → has_funds x' a v) inv.
Proof.
  intros Hx. eapply wp_query; [done|apply op_balance, Hx|]. intros x' Hx' Hw.
  fold (bal (world x.1) a). split; [done|]. split; [apply (bi_ledger _ _ _ _ Hx)|].
  intros v Hv. unfold has_funds. rewrite Hw. lia.
Qed.

#[local] Instance self_laws : ExtLaws Borrowed schedule address.
Proof.
  refine {| ext_inv := inv; ext_err := borrowed_err ws; ext_funds := has_funds; ext_ready := ready |}.
  - apply borrowed_inv_err.
  - intros x _. apply Hself.
  - intros x a Hx. apply (bi_ledger _ _ _ _ Hx).
  - intros k x Hx. by apply wp_initial_storage.
  - intros k x Hx. by apply wp_storage.
  - apply sstore_law.
  - intros a x Hx. by eapply wp_query; [done|apply op_exists, Hx|].
  - intros a x Hx. by eapply wp_query; [done|apply op_exists_and_not_null, Hx|].
  - intros x Hx. by eapply wp_query; [done|apply op_balance, Hx|].
  - apply balance_law.
  - intros n x Hx Hn. destruct (blockhash_law n x Hx Hn) as (h & E). by exists x, h.
  - intros gas value code version scheme x Hx ? ? ? ?.
    destruct (create_law gas value code version scheme x) as (x' & t & ? & ? & ?); [done..|].
    by exists x', (Err t).
  - intros gas sender receive value data code_address call_type x Hx ? ? ? ? ? ? ?.
    destruct (call_law gas sender receive value data code_address call_type x)
      as (x' & t & ? & ? & ?); [done..|]. by exists x', (Err t).
  - apply extcode_law.
  - apply extcodehash_law.
  - apply extcodesize_law.
  - apply log_law.
  - intros gas d b Hgas Hd x Hx. by apply ret_law.
  - intros a _ x Hx. by apply suicide_law.
  - intros x _. cbn. rewrite (sk_info Hself). apply Hchain.
  - intros x _. cbn. rewrite (sk_machine Hself). apply Hchain.
  - done.
  - done.
  - done.
  - done.
  - done.
Defined.
End Invariant.
End Laws.
