(* ===== verification/ExecutiveInv.v ===== *)
(** * Executions of calls and creations

    What one execution of [Executive.v] leaves: [exec] and the resumptions neither panic nor
    fail with an internal error; they end with a result that leaves no more gas than there was
    and the checkpoints as they were, or suspend the execution for another one.  The second
    part is on the loop over the stack of such executions. *)

From S2P Require Import Prelude Hash Transaction Account State World StateInv StateSteps.
From S2P Require Import StateRefine StateOps Schedule EvmWord Vm Gasometer Evm VmLaws EvmLaws.
From S2P Require Import EvmRun Externalities Executive ExecWorld ExternalitiesLaws.

Local Open Scope Z_scope.

(** A result that leaves at most [gas]. *)
Definition result_ok (gas : Z) (r : Result FinalizationResult VmError) : Prop :=
  match r with
  | Ok r => 0 ≤ fr_gas_left r ≤ gas ∧ return_data_ok (fr_return_data r)
  | Err e => machine_error e
  end.

(** A result after which the changes of the execution are undone. *)
Definition failed (r : Result FinalizationResult VmError) : Prop :=
  match r with Ok r => fr_apply_state r = false | Err _ => True end.

Record origin_ok (oi : OriginInfo) : Prop := {
  oo_address : length (oi_address oi) = 20%nat;
  oo_origin : length (oi_origin oi) = 20%nat;
  oo_price : is_word (oi_gas_price oi);
  oo_value : is_word (oi_value oi);
}.

Lemma origin_from_ok p : action_params_ok p → origin_ok (origin_info_from p).
Proof. intros []. by split. Qed.

Section Frames.
Context `{Keccak} `{Rlp} `{LruCache H256 H256} `{!LruLaws H256 H256} `{TrieDatabase} `{HashOrder}.
Context {B : Type} `{!Backend B} `{!DbStep} `{!BackendLaws} `{!CodeLaws}.
Context `{!LruCache H256 BitSet}.
Context (wasm_exec : ∀ X, Ext X → ActionParams → X → Outcome (X * Result GasLeft VmError)).
Context (start : Z) (Hstart : 0 ≤ start < U256_MAX).
Context (info : EnvInfo) (machine : Machine) (schedule : Schedule).
Context (Hchain : chain_ok info machine schedule).
Context (S : Z) (W0 : World).
Context (fuel : nat).
Abbreviation Borrowed := (Borrowed (B := B)).
Context (nested_call nested_create :
  SharedCache → Z → bool → ActionParams → XM Borrowed FinalizationResult).
Implicit Types (x : Borrowed) (sub un : Substate).

Abbreviation inv := (borrowed_inv start schedule S W0).

(** The world to which a failing execution goes back suits its caller, whose substate is
    [sub]. *)
Record saved_ok (W : World) (R : Z) (M : list Address) (sub : Substate) : Prop := {
  sv_ledger : ledger schedule S W0 (R + sstore_clears_refund sub) W;
  sv_marked : Forall (marked start W) M;
  sv_suicides a : a ∈ suicides sub → length a = 20%nat;
}.

(** ** Checkpoints *)

Lemma inv_checkpoint ws R M s sub :
  inv ws R M (s, sub) →
  inv (world s :: ws) R M ((checkpoint s).1, sub) ∧ saved_ok (world s) R M sub ∧
  world (checkpoint s).1 ≡ world s.
Proof.
  intros [Hg Hsv HL Hm Hsu]. cbn in *. destruct (op_checkpoint start s Hg) as (Hg' & _ & Hw & Hsv').
  split; [|by split]. split; cbn; try done.
  trans (world s :: saved s); [done|]. by constructor.
Qed.

Lemma inv_discard W ws R M s sub : inv (W :: ws) R M (s, sub) → inv ws R M (discard_checkpoint s, sub).
Proof.
  intros [Hg Hsv HL Hm Hsu]. cbn in *. destruct (op_discard start s Hg) as (Hg' & _ & Hw & Hsv').
  split; cbn; try done.
  - trans (tail (saved s)); [done|]. by inversion Hsv.
  - by rewrite Hw.
  - eapply Forall_impl; [done|]. intros a Ha. by rewrite Hw.
Qed.

Lemma inv_revert W ws R M s un sub :
  borrowed_err start (W :: ws) (s, un) → saved_ok W R M sub →
  inv ws R M (revert_to_checkpoint s, sub) ∧ world (revert_to_checkpoint s) ≡ W.
Proof.
  intros [Hg Hsv] [HL Hm Hsu]. cbn in *.
  destruct (op_revert start s W ws Hg Hsv) as (Hg' & _ & Hw & Hsv'). split; [|done].
  split; cbn; try done.
  - by rewrite Hw.
  - eapply Forall_impl; [done|]. intros a Ha. by rewrite Hw.
Qed.

Lemma inv_marks ws R M a x : inv ws R (a :: M) x → inv ws R M x.
Proof. intros [? ? ? Hm ?]. split; try done. by inversion Hm. Qed.

(** The end of an execution. *)
Lemma enact_ok W ws R M gas res s un sub :
  match res with
  | Ok _ => inv (W :: ws) (R + sstore_clears_refund sub) M (s, un)
  | Err _ => borrowed_err start (W :: ws) (s, un)
  end → result_ok gas res → saved_ok W R M sub →
  let x := enact_result res (s, sub) un in
  inv ws R M x ∧ (failed res → world x.1 ≡ W ∧ kept sub x.2).
Proof.
  intros Hx Hr Hsv. destruct res as [[gas_left [] d]|e]; cbn in *.
  - split; [|done]. apply inv_discard in Hx as [Hg Hs HL Hm Hsu]. split; cbn in *; try done.
    + by rewrite Z.add_assoc.
    + intros a [?|?]%elem_of_union; [by apply Hsv|auto].
  - apply borrowed_inv_err in Hx. destruct (inv_revert _ _ _ _ _ _ _ Hx Hsv).
    split; [done|]. split; [done|apply kept_refl].
  - destruct (inv_revert _ _ _ _ _ _ _ Hx Hsv). pose proof (kept_refl sub). by destruct e.
Qed.

(** ** Suspended executions *)

Definition resume_kind (t : TrapKind) (oi : OriginInfo) (e : Exec) (un : Substate) :
    CallCreateExecutiveKind :=
  match t with TrapCall _ => KResumeCall oi e un | TrapCreate _ _ => KResumeCreate oi e un end.

Definition trap_is_create (t : TrapKind) : bool :=
  match t with TrapCall _ => false | TrapCreate _ _ => true end.

Definition trap_address (t : TrapKind) : option Address :=
  match t with TrapCall _ => None | TrapCreate _ a => Some a end.

(** [f], a creation if [c], waits for [t]; it was given [gas], of which it has [cur] left. *)
Inductive waits (f : CallCreateExecutive) (c : bool) (t : TrapKind) (gas cur : Z) (self : Address)
    (un : Substate) : Prop :=
| waits_intro oi i g :
    cce_kind f = resume_kind t oi (EvmUsize i) un → cce_is_create f = c → cce_gas f = gas →
    origin_ok oi → self = oi_address oi → suspended schedule self i g t → cur = current_gas g →
    cur + trap_gas t ≤ gas → is_trap_call t ∨ is_trap_create t →
    action_params_ok (trap_params t) → waits f c t gas cur self un.

(** What an execution, a creation if [c], that was given [gas], of which it has [limit] left,
    leaves to its caller, whose substate is that of [x].  It started in the world [W], where
    the caller had the substate [sub]. *)
Definition outcome_ok (ws : list World) (R : Z) (M : list Address) (c : bool) (gas limit : Z)
    (W : World) (sub : Substate) (x : Borrowed) (r : ExecutiveTrapResult) : Prop :=
  match r with
  | Ok val => inv ws R M x ∧ result_ok limit val ∧ (failed val → world x.1 ≡ W ∧ kept sub x.2)
  | Err e =>
      ∃ f t cur self un,
        e = (match t with
             | TrapCall p => ExecutiveTrapCall p f
             | TrapCreate p a => ExecutiveTrapCreate p a f
             end) ∧
        waits f c t gas cur self un ∧ cur + trap_gas t < limit ∧ last (W :: ws) = Some W0 ∧ kept sub x.2 ∧
        saved_ok W R M x.2 ∧ ready start (x.1, un) t ∧
        inv (W :: ws) (R + sstore_clears_refund x.2) (self :: M) (x.1, un)
  end.

Lemma outcome_kept ws R M c gas limit W sub0 sub x r :
  kept sub0 sub → outcome_ok ws R M c gas limit W sub x r → outcome_ok ws R M c gas limit W sub0 x r.
Proof.
  intros Hk. destruct r as [val|e]; cbn.
  - intros (Hx & Hr & Hf). split_and!; [done..|]. intros Hv. destruct (Hf Hv). split; [done|].
    by eapply kept_trans.
  - intros (f & t & cur & self & un & ? & ? & ? & ? & Hk' & ? & ? & ?). exists f, t, cur, self, un.
    split_and!; try done. by eapply kept_trans.
Qed.

(** ** Running the virtual machine *)

Abbreviation exec_machine :=
  (exec_machine wasm_exec info machine schedule fuel nested_call nested_create).

Section Machine.
Context (exec : CallCreateExecutive) (oi : OriginInfo) (output : OutputPolicy).
Context (cache : SharedCache) (W : World) (ws : list World) (R : Z) (M : list Address).
Context (sub : Substate).
Context (Hoi : origin_ok oi) (Hlast : last (W :: ws) = Some W0) (Hsaved : saved_ok W R M sub).

Let self : Externalities :=
  mkExternalities info (cce_depth exec) oi machine schedule output (cce_static_flag exec).
Let ext : Ext Borrowed := externalities_ext (nested_call cache) (nested_create cache) self.

Lemma machine_self_ok : self_ok info machine schedule (oi_address oi :: M) self.
Proof. destruct Hoi. split; try done. by left. Qed.

Let laws : ExtLaws (H := ext) Borrowed schedule (oi_address oi) :=
  self_laws start Hstart info machine schedule Hchain S W0 (W :: ws)
    (R + sstore_clears_refund sub) (oi_address oi :: M) self machine_self_ok Hlast
    (nested_call cache) (nested_create cache).

(** The end of the virtual machine. *)
Lemma finalize_ok limit val s un :
  match val with
  | Ok (Known g) => 0 ≤ g ≤ limit
  | Ok (NeedsReturn g d _) => 0 ≤ g ≤ limit ∧ return_data_ok d
  | Err e => machine_error e
  end →
  match val with
  | Ok _ => inv (W :: ws) (R + sstore_clears_refund sub) (oi_address oi :: M) (s, un)
  | Err _ => borrowed_err start (W :: ws) (s, un)
  end → limit < 2 ^ 64 →
  ∃ s' un' res, Vm.finalize (H := ext) val (s, un) = Done ((s', un'), res) ∧
    result_ok limit res ∧ inv ws R M (enact_result res (s', sub) un') ∧
    (failed res → world (enact_result res (s', sub) un').1 ≡ W ∧
       kept sub (enact_result res (s', sub) un').2).
Proof.
  intros Hval Hx Hlim. destruct val as [[g|g d b]|e]; cbn [Vm.finalize].
  - eexists _, _, _. split; [done|].
    assert (result_ok limit (Ok (mkFinalization g true return_data_empty))) as Hr by done.
    split; [done|]. eapply enact_ok; [|done..]. by eapply inv_marks.
  - destruct Hval as [Hg Hd].
    destruct (law_ret (ExtLaws := laws) g d b ltac:(lia) Hd (s, un) Hx) as ([s' un'] & r & E & Hr).
    unfold Vm.finalize. rewrite E. cbn. eexists _, _, _. split; [done|].
    assert (result_ok limit (try_bind r (λ g, Ok (mkFinalization g b d)))) as Hres.
    { destruct r; cbn; [|apply Hr]. destruct Hr as [_ ?]. split; [lia|done]. }
    split; [done|]. eapply enact_ok; [|done..]. destruct r; cbn.
    + eapply inv_marks, Hr.
    + eapply borrowed_inv_err, Hr.
  - eexists _, _, _. split; [done|]. split; [done|]. by apply (enact_ok W ws R M limit).
Qed.

Lemma exec_machine_ok i g un s gas limit :
  inv (W :: ws) (R + sstore_clears_refund sub) (oi_address oi :: M) (s, un) →
  interpreter_inv schedule (oi_address oi) i g → potential i g ≤ limit → cce_gas exec = gas →
  limit ≤ gas < 2 ^ 64 → gas + 1 < Z.of_nat fuel →
  ∃ cache' x r, exec_machine exec oi output (EvmUsize i) un cache (s, sub) = Done (cache', x, r) ∧
    outcome_ok ws R M (cce_is_create exec) gas limit W sub x r.
Proof.
  intros Hx Hi Hlim Hgas Hle Hfuel.
  destruct (exec_fuel (Ext0 := ext) (ExtLaws0 := laws) schedule (oi_address oi)
    (co_schedule _ _ _ Hchain) fuel i g (s, un) Hi Hx) as (i' & [s' un'] & r & E & Hx' & Hend & Ht).
  { unfold least_of. case_match; lia. }
  unfold Executive.exec_machine. fold self. fold ext. cbn [exec_vm]. rewrite E.
  cbn [mbind outcome_bind]. destruct r as [val|t].
  - destruct (finalize_ok limit val s' un') as (s2 & un2 & res & Ef & Hres & Hinv & Hfail).
    { destruct val as [[]|]; cbn in Hend; [lia| |done]. split; [lia|apply Hend]. }
    { by destruct val as [[]|]. }
    { lia. }
    rewrite Ef. cbn [mbind outcome_bind]. eexists _, _, _. split; [done|]. by split.
  - destruct (Ht t eq_refl) as [Hkind Hparams Hready]. destruct Hend as (g' & Hsus & Hlt).
    assert (waits (set_kind (resume_kind t oi (EvmUsize i') un') exec) (cce_is_create exec) t gas (current_gas g')
      (oi_address oi) un') as Hwaits.
    { eapply waits_intro; try done. lia. }
    destruct t as [p|p a]; (eexists _, _, _; split; [done|]);
      [exists (set_kind (resume_kind (TrapCall p) oi (EvmUsize i') un') exec), (TrapCall p)
      |exists (set_kind (resume_kind (TrapCreate p a) oi (EvmUsize i') un') exec), (TrapCreate p a)];
      exists (current_gas g'), (oi_address oi), un'; (split_and!; try done; lia).
Qed.
End Machine.

(** ** The start of an execution *)

Lemma vm_create_ok p cache :
  action_params_ok p → is_Some (ap_code p) →
  vm_create p schedule cache = Done None ∨
  ∃ i g, vm_create p schedule cache = Done (Some (EvmUsize i)) ∧
    interpreter_new (H0 := usize_cost) p cache = Done i ∧
    interpreter_inv schedule (ap_address p) i g ∧ potential i g = ap_gas p.
Proof.
  intros Hp Hc. unfold vm_create, evm_create, can_fit_in_usize.
  rewrite (co_wasm _ _ _ Hchain), (co_versions _ _ _ Hchain), lookup_empty.
  destruct (ap_code_version p =? 0); [right|by left]. cbn -[interpreter_new].
  rewrite low_u64_small, Z.eqb_refl by apply Hp.
  destruct (interpreter_new_inv schedule (ap_address p) (co_schedule _ _ _ Hchain) p cache)
    as (i & g & E & Hi & Hpot); [done..|].
  exists i, g. by rewrite E.
Qed.

(** Without code an execution ends at once. *)
Lemma exec_no_code `{!Ext Borrowed} n i g x :
  done i = false → gasometer i = Some g → code i = [] →
  Evm.exec (H0 := usize_cost) (Datatypes.S n) (i, x) =
    Done ((set_done true i, x), Ok (Ok (Known (current_gas g)))).
Proof.
  intros Hd Hg Hc. cbn [Evm.exec]. unfold step. cbn [fst snd]. by rewrite Hd, Hg, Hc.
Qed.

Abbreviation exec_start :=
  (exec_start wasm_exec info machine schedule fuel nested_call nested_create).

Lemma exec_start_ok exec p output un cache W ws R M s sub :
  inv (W :: ws) (R + sstore_clears_refund sub) M (s, un) → saved_ok W R M sub →
  last (W :: ws) = Some W0 → action_params_ok p → is_Some (ap_code p) →
  (default [] (ap_code p) ≠ [] → marked start (world s) (ap_address p)) →
  cce_gas exec = ap_gas p → ap_gas p + 1 < Z.of_nat fuel →
  ∃ cache' x r, exec_start exec p output un cache (s, sub) = Done (cache', x, r) ∧
    outcome_ok ws R M (cce_is_create exec) (ap_gas p) (ap_gas p) W sub x r.
Proof.
  intros Hx Hsv Hlast Hp Hc Hm Hgas Hfuel. unfold Executive.exec_start.
  pose proof (apo_gas _ Hp) as Hg.
  destruct (vm_create_ok p cache Hp Hc) as [->|(i & g & -> & Hnew & Hi & Hpot)]; cbn [mbind outcome_bind].
  { eexists _, _, _. split; [done|].
    destruct (enact_ok W ws R M 0 (Err OutOfGas) s un sub) as [? ?];
      [by eapply borrowed_inv_err|done..|]. by split_and!. }
  destruct (decide (default [] (ap_code p) = [])) as [He|He].
  - destruct fuel as [|n] eqn:Ef; [lia|]. unfold Executive.exec_machine. cbn [exec_vm].
    rewrite (exec_no_code n i g); [|apply Hi|apply (inv_gas _ _ _ _ Hi)|].
    2: { unfold interpreter_new in Hnew. destruct Hc as [c Hc]. rewrite Hc in *. cbn in He. subst c.
         by injection Hnew as <-. }
    cbn [mbind outcome_bind Vm.finalize]. eexists _, _, _. split; [done|].
    set (res := Ok (mkFinalization (current_gas g) true return_data_empty)).
    assert (result_ok (ap_gas p) res) as Hr.
    { pose proof (go_gas _ _ _ (inv_gas _ _ _ _ Hi)). pose proof (inv_potential _ _ _ _ Hi).
      unfold potential in Hpot. split; [|done]. cbn. lia. }
    destruct (enact_ok W ws R M (ap_gas p) res s un sub Hx Hr Hsv). by split_and!.
  - apply (exec_machine_ok exec (origin_info_from p) output cache W ws R M sub) with (g := g);
      try done; try lia.
    + by apply origin_from_ok.
    + destruct Hx as [? ? ? Hms ?]. split; try done. constructor; [by apply Hm|done].
Qed.

(** ** Transfers *)

(** The value of a call or a creation is at its sender. *)
Definition funded (p : ActionParams) (x : Borrowed) : Prop :=
  ∀ v, ap_value p = Transfer v → has_funds x (ap_sender p) v.

Lemma transfer_exec_balance_ok p ws R M x :
  inv ws R M x → action_params_ok p → funded p x →
  ∃ x', transfer_exec_balance schedule p x = Done (x', Ok tt) ∧ inv ws R M x' ∧
    kept x.2 x'.2 ∧ ∀ a, marked start (world x.1) a → marked start (world x'.1) a.
Proof.
  intros Hx Hp Hf. unfold transfer_exec_balance. pose proof (apo_value _ Hp) as Hv.
  destruct (ap_value p) as [v|v] eqn:E; [|by exists x].
  apply (transfer_ok start schedule S W0); [done|]. unfold is_word in Hv. cbn in Hv.
  specialize (Hf v E). unfold has_funds in Hf. lia.
Qed.

Lemma check_static_ok p flag is_create x :
  xm_lift (check_static_flag p flag is_create) x = Done (x, Ok tt) ∨
  xm_lift (check_static_flag p flag is_create) x = Done (x, Err MutableCallInStaticContext).
Proof. unfold xm_lift, check_static_flag. repeat case_if; auto. Qed.

Lemma checkpoint_run ws R M s sub :
  inv ws R M (s, sub) →
  ∃ s', change_state (λ state, (checkpoint state).1) (s, sub) = Done ((s', sub), Ok tt) ∧
    inv (world s :: ws) R M (s', sub) ∧ saved_ok (world s) R M sub ∧ world s' ≡ world s.
Proof. intros Hx. eexists. split; [done|]. by apply inv_checkpoint. Qed.

(** ** Calls *)

Abbreviation executive_exec :=
  (executive_exec wasm_exec info machine schedule fuel nested_call nested_create).

(** The executive that is made for a call or a creation. *)
Definition fresh (exec : CallCreateExecutive) (t : TrapKind) : Prop :=
  match t with
  | TrapCall p => ∃ depth flag, new_call_raw info machine p depth flag = Done exec
  | TrapCreate p _ => ∃ depth flag, exec = new_create_raw p depth flag
  end.

Section Call.
Context (depth : Z) (flag : bool) (p : ActionParams) (cache : SharedCache).
Context (ws : list World) (R : Z) (M : list Address) (s : State (B := B)) (sub : Substate).
Context (Hx : inv ws R M (s, sub)) (Hp : action_params_ok p) (Hf : funded p (s, sub)).
Context (Hgas : ap_gas p + 1 < Z.of_nat fuel).

Definition call_post (c : bool) (gas : Z) (o : Outcome (SharedCache * Borrowed * ExecutiveTrapResult)) : Prop :=
  ∃ cache' x r, o = Done (cache', x, r) ∧ outcome_ok ws R M c gas gas (world s) sub x r.

Lemma exec_transfer_ok :
  call_post false (ap_gas p) (executive_exec (mkExecutive depth flag false (ap_gas p) (KTransfer p)) cache (s, sub)).
Proof.
  unfold call_post, Executive.executive_exec. cbn [cce_kind cce_is_create cce_static_flag].
  destruct (check_static_ok p flag false (s, sub)) as [Ec|Ec];
    [rewrite (xm_bind_ok _ _ _ _ _ Ec)|rewrite (xm_bind_err _ _ _ _ _ Ec); by eexists _, _, _].
  destruct (transfer_exec_balance_ok p ws R M (s, sub)) as (x & Et & Hx' & _); [done..|].
  rewrite (xm_bind_ok _ _ _ _ _ Et). pose proof (apo_gas _ Hp). eexists _, _, _. split; [done|]. split; [done|].
  split; [|done]. split; [cbn; lia|done].
Qed.

Lemma exec_builtin_ok b W x :
  machine_builtin machine (ap_code_address p) (env_number info) = Some b →
  inv (W :: ws) R M x → saved_ok W R M x.2 →
  ∃ x' r, exec_builtin info b p x = Done (x', r) ∧ inv ws R M x' ∧ result_ok (ap_gas p) r ∧
    (failed r → world x'.1 ≡ W ∧ x'.2 = x.2).
Proof.
  intros Hb Hi Hsv. destruct x as [s1 sub1]. pose proof (apo_gas _ Hp).
  unfold exec_builtin. set (data := default [] (ap_data p)).
  destruct (co_builtins _ _ _ Hchain _ _ data Hb (apo_data _ Hp)) as (cost & -> & Hcost & Hrun).
  cbn [mbind outcome_bind].
  destruct (inv_revert W ws R M s1 sub1 sub1) as [Hrev Hw]; [by eapply borrowed_inv_err|done|].
  destruct (_ <=? _) eqn:Ec; [|by eexists _, _]. apply Z.leb_le in Ec.
  destruct Hrun as (r & -> & Hout); [lia|]. cbn [mbind outcome_bind]. destruct r as [out|e]; [|by eexists _, _].
  specialize (Hout out eq_refl). unfold u256_sub. rewrite (proj2 (Z.leb_le _ _)) by done. cbn.
  eexists _, _. split; [done|]. split; [by eapply inv_discard|]. split; [|done]. split; cbn; [lia|].
  unfold return_data_ok, bytes_ok in *. cbn. lia.
Qed.

Lemma exec_call_builtin_ok b :
  machine_builtin machine (ap_code_address p) (env_number info) = Some b →
  call_post false (ap_gas p)
    (executive_exec (mkExecutive depth flag false (ap_gas p) (KCallBuiltin p)) cache (s, sub)).
Proof.
  intros Hb. unfold call_post, Executive.executive_exec. cbn [cce_kind cce_is_create cce_static_flag].
  rewrite Hb. cbn [unwrap mbind outcome_bind].
  destruct (check_static_ok p flag false (s, sub)) as [Ec|Ec];
    [rewrite (xm_bind_ok _ _ _ _ _ Ec)|rewrite (xm_bind_err _ _ _ _ _ Ec); by eexists _, _, _].
  destruct (checkpoint_run ws R M s sub Hx) as (s1 & E1 & Hx1 & Hsv & Hw1).
  rewrite (xm_bind_ok _ _ _ _ _ E1).
  destruct (transfer_exec_balance_ok p (world s :: ws) R M (s1, sub)) as (x2 & E2 & Hx2 & Kp & _);
    [done..|intros v Ev; unfold has_funds; rewrite Hw1; by apply Hf|].
  rewrite (xm_bind_ok _ _ _ _ _ E2).
  destruct (exec_builtin_ok b (world s) x2) as (x3 & r & -> & Hx3 & Hr & Hfail); [done..| |].
  { destruct Hsv as [HL Hm _]. split; [by rewrite (proj2 (kept_fields _ _ Kp))|done|apply Hx2]. }
  eexists _, _, _. split; [done|]. split_and!; [done..|]. intros [? ->]%Hfail. done.
Qed.

Lemma exec_call_code_ok :
  is_Some (ap_code p) → last (world s :: ws) = Some W0 →
  (default [] (ap_code p) ≠ [] → marked start (world s) (ap_address p)) →
  call_post false (ap_gas p)
    (executive_exec (mkExecutive depth flag false (ap_gas p) (KExecCall p substate_new)) cache (s, sub)).
Proof.
  intros Hc Hlast Hm. unfold call_post, Executive.executive_exec.
  cbn [cce_kind cce_is_create cce_static_flag].
  destruct (check_static_ok p flag false (s, sub)) as [Ec|Ec];
    [rewrite (xm_bind_ok _ _ _ _ _ Ec)|rewrite (xm_bind_err _ _ _ _ _ Ec); by eexists _, _, _].
  destruct (checkpoint_run ws R M s sub Hx) as (s1 & E1 & Hx1 & Hsv & Hw1).
  rewrite (xm_bind_ok _ _ _ _ _ E1).
  destruct (transfer_exec_balance_ok p (world s :: ws) R M (s1, sub)) as ([s2 sub2] & E2 & Hx2 & Kp & Hmk);
    [done..|intros v Ev; unfold has_funds; rewrite Hw1; by apply Hf|].
  rewrite E2. cbn [mbind outcome_bind]. cbn in Kp, Hmk.
  pose proof (proj2 (kept_fields _ _ Kp)) as HR.
  destruct (exec_start_ok (mkExecutive depth flag false (ap_gas p) (KExecCall p substate_new)) p Return
    substate_new cache (world s) ws R M s2 sub2) as (cache' & x & r & -> & Ho); try done.
  - destruct Hx2. split; try done; cbn in *. by rewrite Z.add_0_r.
  - destruct Hsv as [HL Hms _]. split; [by rewrite HR|done|apply (bi_suicides _ _ _ _ _ _ _ _ Hx2)].
  - intros Hne. apply Hmk. rewrite Hw1. by apply Hm.
  - eexists _, _, _. split; [done|]. by eapply outcome_kept.
Qed.
End Call.

(** ** Creations *)

Lemma saturating_comm a b : saturating_add a b = saturating_add b a.
Proof. unfold saturating_add. by rewrite Z.add_comm. Qed.

(** The world with a new contract. *)
Lemma contract_evolve a b version s :
  good start s → ¬ marked start (world s) a →
  let w := wset a (Some (contract_view start b version (v_original (account_of start (world s a)))))
             (world s) in
  evolve start (world s) w ∧ (∀ c, bal w c = upd (bal (world s)) a b c) ∧ marked start w a.
Proof.
  intros Hs Hm. destruct (new_world start a s Hs Hm) as [Hr Hst]. split_and!.
  - apply evolve_wset; [done| |done]. intros k. unfold storage_of.
    destruct (world s a) as [v|] eqn:E; [|done]. cbn. by rewrite (Hst v k).
  - intros c. by rewrite bal_wset.
  - unfold marked, wset. rewrite decide_True by done. eexists. split; [done|]. cbn. lia.
Qed.

Lemma init_contract_ok p ws R M x :
  inv ws R M x → action_params_ok p → funded p x → marked start (world x.1) (ap_sender p) →
  ¬ marked start (world x.1) (ap_address p) →
  ∃ x', transfer_exec_balance_and_init_contract schedule p x = Done (x', Ok tt) ∧ inv ws R M x' ∧
    kept x.2 x'.2 ∧ marked start (world x'.1) (ap_address p).
Proof.
  intros Hx Hp Hf Hms Hma. unfold transfer_exec_balance_and_init_contract.
  rewrite (co_no_empty _ _ _ Hchain). set (a := ap_address p) in *.
  destruct (op_balance start a x.1 (bi_good _ _ _ _ _ _ _ _ Hx)) as (s1 & E1 & K1 & G1).
  assert (inv ws R M (s1, x.2)) as Hx1.
  { destruct x as [s sub]. eapply borrowed_quiet; [done..|apply evolve_refl|done]. }
  pose proof (ke_world _ _ _ K1) as Hw1. fold (bal (world x.1) a) in E1.
  assert (state_op (balance a) x = Done ((s1, x.2), Ok (bal (world x.1) a))) as Eb.
  { destruct x as [s sub]. cbn in *. by rewrite E1. }
  rewrite (xm_bind_ok _ _ _ _ _ Eb).
  replace (bal (world x.1) a) with (bal (world s1) a) by (by rewrite Hw1).
  rewrite <- Hw1 in Hma, Hms. pose proof (bi_ledger _ _ _ _ _ _ _ _ Hx1) as HL. cbn in HL.
  pose proof (apo_value _ Hp) as Hv. destruct (ap_value p) as [v|v] eqn:Ev; cbn in Hv.
  - specialize (Hf v Ev). unfold has_funds in Hf. rewrite <- Hw1 in Hf.
    destruct (cleanup_sub_ok start schedule (ap_sender p) v s1 x.2 G1 Hf)
      as (s2 & sub2 & w2 & E2 & K2 & G2 & Ev2 & _ & B2 & Hne & Kp2).
    destruct (kept_fields _ _ Kp2) as [Su2 R2].
    rewrite (xm_bind_ok _ _ _ _ _ E2). pose proof (ke_world _ _ _ K2) as Hw2.
    assert (a ≠ ap_sender p) as Has by (intros Heq; by rewrite <- Heq in Hms).
    assert (¬ marked start (world s2) a) as Hm2.
    { rewrite Hw2. unfold marked. by rewrite (Hne a Has). }
    set (b := saturating_add v (bal (world s1) a)).
    destruct (op_new_contract start Hstart a b (ap_code_version p) s2 G2 Hm2) as (s3 & E3 & K3 & G3).
    destruct (contract_evolve a b (ap_code_version p) s2 G2 Hm2) as (Ev3 & B3 & M3).
    set (w3 := wset a _ _) in *. pose proof (evolve_equiv start _ _ (symmetry Hw2)) as Eq2.
    pose proof (evolve_trans _ _ _ _ Eq2 Ev3) as Ev23.
    exists (s3, sub2). cbn. rewrite E3. split; [done|]. split_and!; [|done|].
    + eapply borrowed_step; [exact Hx1|by eapply keeps_trans|done..| |].
      * intros c Hc. by apply Ev23, Ev2.
      * rewrite R2. unfold is_word in Hv. cbn in Hv.
        apply (ledger_transfer _ _ _ start _ (world s1) w2 w3 (ap_sender p) a v); [done..|lia|done|].
        intros c. rewrite B3. unfold upd at 1 2.
        assert (∀ d, bal (world s2) d = bal w2 d) as Hb2 by (intros d; by rewrite Hw2).
        rewrite Hb2. case_decide; [|done]. rewrite B2. unfold upd. rewrite decide_False by done.
        apply saturating_comm.
    + rewrite (ke_world _ _ _ K3). done.
  - destruct (op_new_contract start Hstart a (bal (world s1) a) (ap_code_version p) s1 G1 Hma)
      as (s3 & E3 & K3 & G3).
    destruct (contract_evolve a (bal (world s1) a) (ap_code_version p) s1 G1 Hma) as (Ev3 & B3 & M3).
    exists (s3, x.2). cbn. rewrite E3. split; [done|]. split_and!; [|done|].
    + eapply borrowed_quiet; [exact Hx1|done..|]. intros c. by rewrite B3, upd_same.
    + rewrite (ke_world _ _ _ K3). done.
Qed.

Lemma exec_create_ok depth flag p cache ws R M s sub :
  inv ws R M (s, sub) → action_params_ok p → funded p (s, sub) → is_Some (ap_code p) →
  marked start (world s) (ap_sender p) → last (world s :: ws) = Some W0 →
  ap_gas p + 1 < Z.of_nat fuel →
  call_post ws R M s sub true (ap_gas p) (executive_exec (new_create_raw p depth flag) cache (s, sub)).
Proof.
  intros Hx Hp Hf Hc Hms Hlast Hgas. unfold call_post, Executive.executive_exec, new_create_raw.
  cbn [cce_kind cce_is_create cce_static_flag].
  destruct (op_has_code_or_nonce start (ap_address p) s (bi_good _ _ _ _ _ _ _ _ Hx))
    as (s1 & E1 & K1 & G1).
  set (taken := match world s (ap_address p) with Some _ => _ | None => _ end) in E1.
  assert (inv ws R M (s1, sub)) as Hx1 by (by eapply borrowed_quiet; [done..|apply evolve_refl|]).
  pose proof (ke_world _ _ _ K1) as Hw1.
  assert (check_eip684 p (s, sub) = if taken then Done ((s1, sub), Err OutOfGas) else Done ((s1, sub), Ok tt))
    as Ec.
  { unfold check_eip684, mbind, xm_bind. cbn. rewrite E1. cbn. by destruct taken. }
  destruct taken eqn:Et; [rewrite (xm_bind_err _ _ _ _ _ Ec); by eexists _, _, _|].
  rewrite (xm_bind_ok _ _ _ _ _ Ec).
  assert (¬ marked start (world s) (ap_address p)) as Hna.
  { intros (v & Ev & Hn). subst taken. rewrite Ev in Et. apply orb_false_iff in Et as [_ Et].
    by apply bool_decide_eq_false in Et. }
  destruct (check_static_ok p flag true (s1, sub)) as [Es|Es];
    [rewrite (xm_bind_ok _ _ _ _ _ Es)|rewrite (xm_bind_err _ _ _ _ _ Es); by eexists _, _, _].
  destruct (checkpoint_run ws R M s1 sub Hx1) as (s2 & E2 & Hx2 & Hsv & Hw2).
  rewrite (xm_bind_ok _ _ _ _ _ E2).
  assert (inv (world s :: ws) R M (s2, sub)) as Hx2'.
  { destruct Hx2 as [? Hs2 ? ? ?]. split; try done. etrans; [exact Hs2|]. by constructor. }
  destruct (init_contract_ok p (world s :: ws) R M (s2, sub)) as ([s3 sub3] & E3 & Hx3 & Kp & Hm3).
  1-2: done.
  { intros v Ev. unfold has_funds. cbn. rewrite Hw2, Hw1. by apply Hf. }
  { cbn. by rewrite Hw2, Hw1. }
  { cbn. by rewrite Hw2, Hw1. }
  rewrite E3. cbn [mbind outcome_bind]. cbn in Kp, Hm3.
  pose proof (proj2 (kept_fields _ _ Kp)) as HR.
  destruct (exec_start_ok (new_create_raw p depth flag) p InitContract substate_new cache (world s) ws R M
    s3 sub3) as (cache' & x & r & E & Ho); try done.
  - destruct Hx3. split; try done; cbn in *. by rewrite Z.add_0_r.
  - split; [rewrite HR; apply (bi_ledger _ _ _ _ _ _ _ _ Hx)|apply (bi_marked _ _ _ _ _ _ _ _ Hx)|].
    apply (bi_suicides _ _ _ _ _ _ _ _ Hx3).
  - unfold new_create_raw in E. rewrite E. eexists _, _, _. split; [done|]. by eapply outcome_kept.
Qed.

(** [exec] of the executive for a call or a creation. *)
Lemma executive_exec_ok exec t cache ws R M s sub :
  inv ws R M (s, sub) → fresh exec t → is_trap_call t ∨ is_trap_create t →
  action_params_ok (trap_params t) → ready start (s, sub) t → last (world s :: ws) = Some W0 →
  trap_gas t + 1 < Z.of_nat fuel →
  call_post ws R M s sub (trap_is_create t) (trap_gas t) (executive_exec exec cache (s, sub)).
Proof.
  intros Hx Hfr Hk Hp [Hf Hr] Hlast Hgas. destruct t as [p|p a]; cbn in *.
  - destruct Hfr as (depth & flag & E). unfold new_call_raw in E.
    destruct (machine_builtin machine (ap_code_address p) (env_number info)) as [b|] eqn:Eb; cbn in E.
    + destruct (builtin_is_active b _); [|done]. injection E as <-. by eapply exec_call_builtin_ok.
    + injection E as <-. destruct (ap_code p) as [c|] eqn:Ec; [|by apply exec_transfer_ok].
      apply exec_call_code_ok; rewrite ?Ec; done.
  - destruct Hfr as (depth & flag & ->). destruct Hk as [[]|[_ Hc]]. by apply exec_create_ok.
Qed.

(** ** Resumptions *)

Lemma suspended_cache self cache i g t :
  suspended schedule self i g t → suspended schedule self (with_cache cache i) g t.
Proof. intros [[] [] ? ? ? ? ? ?]. split; try done; by split. Qed.

Abbreviation executive_resume_call :=
  (executive_resume_call wasm_exec info machine schedule fuel nested_call nested_create).
Abbreviation executive_resume_create :=
  (executive_resume_create wasm_exec info machine schedule fuel nested_call nested_create).

Section Resume.
Context (f : CallCreateExecutive) (c : bool) (t : TrapKind) (gas cur : Z) (self : Address) (un : Substate).
Context (cache : SharedCache) (W : World) (ws : list World) (R : Z) (M : list Address).
Context (s : State (B := B)) (sub : Substate) (back : Z).
Context (Hw : waits f c t gas cur self un) (Hlast : last (W :: ws) = Some W0).
Context (Hsv : saved_ok W R M sub).
Context (Hx : inv (W :: ws) (R + sstore_clears_refund sub) (self :: M) (s, un)).
Context (Hgas : gas < 2 ^ 64) (Hfuel : gas + 1 < Z.of_nat fuel) (Hback : 0 ≤ back ≤ trap_gas t).

(** The gas [back] of a call or a creation is added to the gas of the execution. *)
Definition resume_post (o : Outcome (SharedCache * Borrowed * ExecutiveTrapResult)) : Prop :=
  ∃ cache' x r, o = Done (cache', x, r) ∧ outcome_ok ws R M c gas (cur + back) W sub x r.

Lemma resume_call_ok r :
  is_trap_call t → call_result_ok back r →
  resume_post (executive_resume_call f r cache (s, sub)).
Proof.
  intros Ht Hr. destruct Hw as [oi i g Hkind Hcr Hg Hoi -> Hsus Hcur Hle _ _].
  destruct (resume_call_safe schedule (oi_address oi) (with_cache cache i) g t back r)
    as (i' & E & Hi & Hpot); [by apply suspended_cache|done..|].
  unfold resume_post, Executive.executive_resume_call. rewrite Hkind. destruct t; [|done].
  cbn [resume_kind vm_resume_call]. rewrite E. cbn [mbind outcome_bind].
  rewrite <- Hcr. apply exec_machine_ok with (W := W) (g := g); done || lia.
Qed.

Lemma resume_create_ok r :
  is_trap_create t → create_result_ok back r →
  resume_post (executive_resume_create f r cache (s, sub)).
Proof.
  intros Ht Hr. destruct Hw as [oi i g Hkind Hcr Hg Hoi -> Hsus Hcur Hle _ _].
  destruct (resume_create_safe schedule (oi_address oi) (with_cache cache i) g t back r)
    as (i' & E & Hi & Hpot); [by apply suspended_cache|done..|].
  unfold resume_post, Executive.executive_resume_create. rewrite Hkind. destruct t; [done|].
  cbn [resume_kind vm_resume_create]. rewrite E. cbn [mbind outcome_bind].
  rewrite <- Hcr. apply exec_machine_ok with (W := W) (g := g); done || lia.
Qed.
End Resume.
End Frames.

(** * The loop over the stack of executions

    [consume] returns: an execution with all the calls and creations it makes ends within a
    number of turns that its gas bounds, without a panic or an internal error, with the
    checkpoints it found and no more gas than it was given. *)

(** The gas that a result leaves. *)
Definition left_gas (r : Result FinalizationResult VmError) : Z :=
  match r with Ok r => fr_gas_left r | Err _ => 0 end.

Lemma left_gas_bound gas r : 0 ≤ gas → result_ok gas r → 0 ≤ left_gas r ≤ gas.
Proof. destruct r; cbn; [|lia]. by intros _ [? _]. Qed.

(** The substate that an execution on top of the stack borrows. *)
Definition parent_sub `{Keccak} `{!LruCache H256 BitSet} (top : Substate) (cs : CallStack) : Substate :=
  match cs with [] => top | (_, f) :: _ => default top (unconfirmed_substate f) end.

Section Loop.
Context `{Keccak} `{Rlp} `{LruCache H256 H256} `{!LruLaws H256 H256} `{TrieDatabase} `{HashOrder}.
Context {B : Type} `{!Backend B} `{!DbStep} `{!BackendLaws} `{!CodeLaws}.
Context `{!LruCache H256 BitSet}.
Context (wasm_exec : ∀ X, Ext X → ActionParams → X → Outcome (X * Result GasLeft VmError)).
Context (start : Z) (Hstart : 0 ≤ start < U256_MAX).
Context (info : EnvInfo) (machine : Machine) (schedule : Schedule).
Context (Hchain : chain_ok info machine schedule).
Context (S : Z) (W0 : World).
Context (fuel : nat).
Abbreviation Borrowed := (Borrowed (B := B)).
Context (nested_call nested_create :
  SharedCache → Z → bool → ActionParams → XM Borrowed FinalizationResult).
(** The gas of the execution at the bottom, and the substate it starts with. *)
Context (top0 : Substate) (G : Z) (HG : 0 ≤ G < 2 ^ 64) (Hfuel : G + 1 < Z.of_nat fuel).
Implicit Types (x : Borrowed) (sub un top : Substate) (cs : CallStack).

Abbreviation inv := (borrowed_inv start schedule S W0).
Abbreviation outcome_ok := (outcome_ok start schedule S W0).
Abbreviation saved_ok := (saved_ok start schedule S W0).

(** ** Stacks of suspended executions

    [ws] are the worlds saved for them, [R] is the refund of all but the last, [M] are their
    accounts and [T] is their gas.  The execution on top has [b], and is for [k]. *)
Inductive frames (top : Substate) :
    CallStack → list World → Z → list Address → Z → Z → option TrapKind → Prop :=
| frames_nil : frames top [] [] 0 [] 0 G None
| frames_cons f cs ws R M T b k c t cur self un W :
    frames top cs ws R M T b k → (∀ t', k = Some t' → c = trap_is_create t') →
    waits schedule f c t b cur self un → last (W :: ws) = Some W0 →
    saved_ok W R M (parent_sub top cs) →
    frames top ((trap_address t, f) :: cs) (W :: ws)
      (R + sstore_clears_refund (parent_sub top cs)) (self :: M) (T + cur) (trap_gas t) (Some t).

Lemma frames_gas top cs ws R M T b k :
  frames top cs ws R M T b k → 0 ≤ T ∧ 0 ≤ b ∧ T + b ≤ G.
Proof.
  induction 1 as [|f cs ws R M T b k c t cur self un W _ IH _ Hw _ _]; [lia|].
  destruct Hw as [oi i g ? ? ? ? ? Hsus -> Hle ? ?]. pose proof (su_trap _ _ _ _ _ Hsus).
  pose proof (go_gas _ _ _ (su_gas _ _ _ _ _ Hsus)). lia.
Qed.

Lemma frames_top top top' ws R M T b k :
  frames top [] ws R M T b k → frames top' [] ws R M T b k.
Proof. inversion 1; subst. constructor. Qed.

Lemma waits_sub f c t gas cur self un un' :
  waits schedule f c t gas cur self un →
  unconfirmed_substate f = Some un ∧
  waits schedule (set_unconfirmed_substate un' f) c t gas cur self un' ∧
  unconfirmed_substate (set_unconfirmed_substate un' f) = Some un'.
Proof.
  intros [oi i g Hk ? ? ? ? ? ? ? ? ?]. unfold unconfirmed_substate, set_unconfirmed_substate.
  rewrite Hk. split_and!; [by destruct t| |by destruct t].
  eapply (waits_intro _ _ _ _ _ _ _ _ oi i g); try done. cbn. by destruct t.
Qed.

(** Writing to the substate that is borrowed. *)
Lemma frames_sub top a f cs ws R M T b k un :
  frames top ((a, f) :: cs) ws R M T b k →
  is_Some (unconfirmed_substate f) ∧
  frames top ((a, set_unconfirmed_substate un f) :: cs) ws R M T b k ∧
  parent_sub top ((a, set_unconfirmed_substate un f) :: cs) = un.
Proof.
  intros Hf. inversion Hf as [|? ? ? ? ? ? ? ? ? ? ? ? un0 ? Hfs Hc Hw ? ?]; subst.
  destruct (waits_sub _ _ _ _ _ _ _ un Hw) as (E1 & Hw' & E2). rewrite E1. split_and!; [done| |].
  - by econstructor.
  - cbn. by rewrite E2.
Qed.

(** ** The states of the loop, with a bound on the turns it still takes *)

Definition depth_of (cs : CallStack) : Z := Z.of_nat (length cs).

Inductive loop_inv : Loop (B := B) → Z → Prop :=
| loop_exec cache s top exec cs ws R M T b t :
    frames top cs ws R M T b (Some t) → inv ws R M (s, parent_sub top cs) →
    fresh info machine exec t → is_trap_call t ∨ is_trap_create t →
    action_params_ok (trap_params t) → ready start (s, parent_sub top cs) t → kept top0 top →
    loop_inv (mkLoop cache s top ((None, exec) :: cs) None) (4 * (T + b) + 2 * depth_of cs + 2)
| loop_result cache s top cs ws R M T b k c val :
    frames top cs ws R M T b k → inv ws R M (s, parent_sub top cs) → result_ok b val →
    (∀ t, k = Some t → c = trap_is_create t) → (cs ≠ [] → kept top0 top) →
    (cs = [] → failed val → world s ≡ W0 ∧ kept top0 top) →
    loop_inv (mkLoop cache s top cs (Some (c, b, Ok val))) (4 * (T + left_gas val) + 2 * depth_of cs)
| loop_trap cache s top f cs ws R M T b t c gas :
    frames top ((trap_address t, f) :: cs) ws R M T b (Some t) →
    inv ws R M (s, parent_sub top ((trap_address t, f) :: cs)) →
    is_trap_call t ∨ is_trap_create t → action_params_ok (trap_params t) →
    ready start (s, parent_sub top ((trap_address t, f) :: cs)) t → kept top0 top →
    loop_inv (mkLoop cache s top cs (Some (c, gas, Err
        (match t with
         | TrapCall p => ExecutiveTrapCall p f
         | TrapCreate p a => ExecutiveTrapCreate p a f
         end)))) (4 * (T + b) + 2 * (depth_of cs + 1) + 3).

(** What the execution on top of the stack leaves is a state of the loop. *)
Lemma outcome_loop cache s top cs ws R M T b k c c' limit W sub r :
  frames top cs ws R M T b k → (∀ t, k = Some t → c = trap_is_create t ∧ c' = c) → 0 ≤ limit ≤ b →
  last (W :: ws) = Some W0 → (cs ≠ [] → kept top0 top) → (cs = [] → kept top0 sub) →
  outcome_ok ws R M c b limit W sub (s, parent_sub top cs) r →
  ∃ m, loop_inv (mkLoop cache s top cs (Some (c', b, r))) m ∧
    m ≤ 4 * (T + limit) + 2 * depth_of cs + 1.
Proof.
  intros Hf Hc Hlim Hlast Hk1 Hk2 Ho. destruct r as [val|e]; cbn in Ho.
  - destruct Ho as (Hx & Hr & Hfail). pose proof (left_gas_bound limit val ltac:(lia) Hr).
    assert (result_ok b val) as Hb.
    { destruct val; [|done]. destruct Hr. split; [lia|done]. }
    eexists. split; [eapply loop_result; try done|lia].
    + intros t Ht. by destruct (Hc t Ht) as [-> ->].
    + intros ->. inversion Hf; subst. injection Hlast as <-. intros [Hw Hk]%Hfail. split; [done|].
      trans sub; [by apply Hk2|done].
  - destruct Ho as (f & t & cur & self & un & -> & Hw & Hlt & _ & Hk & Hsv & Hready & Hx).
    assert (kept top0 top) as Hk0.
    { destruct cs; [|by apply Hk1]. trans sub; [by apply Hk2|done]. }
    destruct (waits_sub _ _ _ _ _ _ _ un Hw) as (Eu & _).
    assert (parent_sub top ((trap_address t, f) :: cs) = un) as Ep by (cbn; by rewrite Eu).
    eexists. split.
    + eapply loop_trap; [eapply frames_cons; try done; by intros ? [? _]%Hc|rewrite Ep; done| | |rewrite Ep; done|done];
        by destruct Hw.
    + lia.
Qed.

(** Running an execution on the substate below it. *)
Lemma in_parent_ok exec run cs l top ws R M T b k limit W cache' x r :
  frames top cs ws R M T b k → lp_top_substate l = top → cce_gas exec = b →
  (∀ t, k = Some t → cce_is_create exec = trap_is_create t) → 0 ≤ limit ≤ b →
  run (lp_cache l) (lp_state l, parent_sub top cs) = Done (cache', x, r) → last (W :: ws) = Some W0 →
  kept top0 top → outcome_ok ws R M (cce_is_create exec) b limit W (parent_sub top cs) x r →
  ∃ l' m, in_parent exec run cs l = Done l' ∧ loop_inv l' m ∧
    m ≤ 4 * (T + limit) + 2 * depth_of cs + 1.
Proof.
  intros Hf Htop Hgas Hc Hlim Hrun Hlast Hkept Ho. destruct x as [s sub]. destruct cs as [|[a f] cs]; cbn [in_parent].
  - cbn in Hrun. rewrite Htop, Hrun. cbn.
    destruct (outcome_loop cache' s sub [] ws R M T b k (cce_is_create exec) (cce_is_create exec) limit W
      top r)
      as (m & Hl & Hm); [by eapply frames_top|by intros t Ht; split; [apply Hc|]|done..|].
    eexists _, m. rewrite Hgas. by split_and!.
  - destruct (frames_sub _ _ _ _ _ _ _ _ _ _ sub Hf) as ([un Eu] & Hf' & Ep).
    cbn [parent_sub] in Hrun. rewrite Eu in Hrun |- *. change (default top (Some un)) with un in Hrun.
    cbn [unwrap mbind outcome_bind]. rewrite Hrun, Htop. cbn [mbind outcome_bind].
    destruct (outcome_loop cache' s top ((a, set_unconfirmed_substate sub f) :: cs) ws R M T b k
      (cce_is_create exec) (cce_is_create exec) limit W (parent_sub top ((a, f) :: cs)) r) as (m & Hl & Hm);
      [done|by intros t Ht; split; [apply Hc|]|done..|by rewrite Ep|].
    eexists _, m. rewrite Hgas. by split_and!.
Qed.

(** ** Turns of the loop *)

Abbreviation consume_step :=
  (consume_step wasm_exec info machine schedule fuel nested_call nested_create).
Abbreviation consume_loop :=
  (consume_loop wasm_exec info machine schedule fuel nested_call nested_create).

Lemma new_call_raw_done p depth flag : ∃ exec, new_call_raw info machine p depth flag = Done exec.
Proof.
  unfold new_call_raw. destruct (machine_builtin _ _ _) as [b|] eqn:E; [|by eexists].
  unfold machine_builtin in E. destruct (machine_builtins machine !! _) as [b'|]; [|done].
  cbn in E. destruct (builtin_is_active b' _) eqn:Ea; [|done]. injection E as <-. rewrite Ea.
  by eexists.
Qed.

Lemma fresh_fields exec t :
  fresh info machine exec t → cce_gas exec = trap_gas t ∧ cce_is_create exec = trap_is_create t.
Proof.
  destruct t as [p|p a]; intros (depth & flag & E); [|by subst].
  unfold new_call_raw in E. destruct (match _ with Some _ => _ | None => _ end); [|done].
  by injection E as <-.
Qed.

Lemma done_trace_ok gas val : result_ok gas val → done_trace gas val = Done tt.
Proof.
  destruct val as [[g [] d]|]; try done. intros [Hg Hd]. cbn in *. unfold u256_sub.
  rewrite (proj2 (Z.leb_le _ _)) by lia. destruct (rd_deref_done d Hd) as (k & -> & _). done.
Qed.

Lemma call_result gas val : result_ok gas val → call_result_ok (left_gas val) (into_message_call_result val).
Proof. destruct val as [[g [] d]|]; [..|done]; intros [? ?]; cbn in *; (split; [lia|done]). Qed.

Lemma create_result gas val a sub :
  result_ok gas val → length a = 20%nat →
  let r := into_contract_create_result val a sub in
  create_result_ok (left_gas val) r.1 ∧ suicides r.2 = suicides sub ∧
  sstore_clears_refund r.2 = sstore_clears_refund sub.
Proof. destruct val as [[g [] d]|]; [..|done]; intros [? ?] ?; cbn in *; (split_and!; done || lia). Qed.

(** The last suspended execution. *)
Lemma frames_head top f cs ws R M T b t s :
  frames top ((trap_address t, f) :: cs) ws R M T b (Some t) →
  inv ws R M (s, parent_sub top ((trap_address t, f) :: cs)) →
  ∃ ws0 R0 M0 T0 b0 k0 cur self un W,
    frames top cs ws0 R0 M0 T0 b0 k0 ∧
    (∀ t', k0 = Some t' → cce_is_create f = trap_is_create t') ∧
    waits schedule f (cce_is_create f) t b0 cur self un ∧ unconfirmed_substate f = Some un ∧
    last (W :: ws0) = Some W0 ∧ saved_ok W R0 M0 (parent_sub top cs) ∧
    inv (W :: ws0) (R0 + sstore_clears_refund (parent_sub top cs)) (self :: M0) (s, un) ∧
    T = T0 + cur ∧ b = trap_gas t ∧ 0 ≤ b ∧ 0 ≤ cur ∧ cur + b ≤ b0 ∧ b0 ≤ G ∧ cce_gas f = b0.
Proof.
  intros Hf Hx. pose proof (frames_gas _ _ _ _ _ _ _ _ Hf) as HT.
  inversion Hf as [|? ? ws0 R0 M0 T0 b0 k0 c0 ? cur self un W Hfs Hk Hw Hlast Hsv]; subst.
  pose proof (frames_gas _ _ _ _ _ _ _ _ Hfs) as HT0.
  destruct (waits_sub _ _ _ _ _ _ _ un Hw) as (Eu & _).
  cbn [parent_sub] in Hx. rewrite Eu in Hx. change (default top (Some un)) with un in Hx.
  exists ws0, R0, M0, T0, b0, k0, cur, self, un, W.
  destruct Hw as [oi i g Hkind Hc Hg Hoi Hself Hsus Hcur Hle Htr Hp]. subst c0.
  pose proof (go_gas _ _ _ (su_gas _ _ _ _ _ Hsus)).
  split_and!; try done; [by econstructor|lia..].
Qed.

(** A suspended execution goes on after a call, or a creation. *)
Lemma resume_call_step cache s top f cs ws R M T b p val :
  let t := TrapCall p in
  frames top ((None, f) :: cs) ws R M T b (Some t) → kept top0 top →
  inv ws R M (s, parent_sub top ((None, f) :: cs)) → result_ok b val →
  ∃ l' m, consume_step (mkLoop cache s top ((None, f) :: cs) (Some (false, b, Ok val))) =
      Done (inr l') ∧ loop_inv l' m ∧
    m < 4 * (T + left_gas val) + 2 * depth_of ((None, f) :: cs).
Proof.
  intros t Hf Hkept Hx Hr. destruct (frames_head _ _ _ _ _ _ _ _ t _ Hf Hx)
    as (ws0 & R0 & M0 & T0 & b0 & k0 & cur & self & un & W & Hfs & Hk & Hw & Eu & Hlast & Hsv & Hx' &
        -> & Hb & ? & ? & ? & ? & Hg).
  pose proof (left_gas_bound b val ltac:(done) Hr) as Hl. set (back := left_gas val) in *.
  destruct (resume_call_ok wasm_exec start Hstart info machine schedule Hchain S W0 fuel nested_call
    nested_create f _ t b0 cur self un cache W ws0 R0 M0 s (parent_sub top cs) back
    Hw Hlast Hsv Hx' ltac:(lia) ltac:(lia) ltac:(lia) (into_message_call_result val))
    as (cache' & x & r & E & Ho); [done|by eapply call_result|].
  set (l := mkLoop cache s top ((None, f) :: cs) (Some (false, b, Ok val))).
  eapply (in_parent_ok f _ cs l) in Ho as (l' & m & El & Hinv & Hm); try done; [|lia].
  unfold Executive.consume_step. cbn [lp_last_res lp_callstack l].
  rewrite (done_trace_ok _ _ Hr). cbn [mbind outcome_bind]. fold l. rewrite El.
  exists l', m. split_and!; [done..|]. unfold depth_of in *. cbn [length]. lia.
Qed.

Lemma resume_create_step cache s top f cs ws R M T b p a val :
  let t := TrapCreate p a in
  frames top ((Some a, f) :: cs) ws R M T b (Some t) → kept top0 top →
  inv ws R M (s, parent_sub top ((Some a, f) :: cs)) → result_ok b val →
  ∃ l' m, consume_step (mkLoop cache s top ((Some a, f) :: cs) (Some (true, b, Ok val))) =
      Done (inr l') ∧ loop_inv l' m ∧
    m < 4 * (T + left_gas val) + 2 * depth_of ((Some a, f) :: cs).
Proof.
  intros t Hf Hkept Hx Hr. destruct (frames_head _ _ _ _ _ _ _ _ t _ Hf Hx)
    as (ws0 & R0 & M0 & T0 & b0 & k0 & cur & self & un & W & Hfs & Hk & Hw & Eu & Hlast & Hsv & Hx' &
        -> & Hb & ? & ? & ? & ? & Hg).
  pose proof (left_gas_bound b val ltac:(done) Hr) as Hl. set (back := left_gas val) in *.
  assert (is_trap_create t ∧ length a = 20%nat) as [Ht Ha].
  { destruct Hw as [_ _ _ _ _ _ _ _ _ _ _ [[]|Ht] Hp]. split; [done|]. destruct Ht as [-> _]. apply Hp. }
  pose proof (create_result b val a un Hr Ha) as Hcr. cbv zeta in Hcr.
  unfold Executive.consume_step. cbn [lp_last_res lp_callstack unwrap mbind outcome_bind].
  rewrite (done_trace_ok _ _ Hr), Eu. cbn [unwrap mbind outcome_bind].
  destruct (into_contract_create_result val a un) as [result un']. cbn [fst snd] in Hcr.
  destruct Hcr as (Hres & Hsu & HR). destruct (waits_sub _ _ _ _ _ _ _ un' Hw) as (_ & Hw' & _).
  set (f' := set_unconfirmed_substate un' f) in *.
  assert (inv (W :: ws0) (R0 + sstore_clears_refund (parent_sub top cs)) (self :: M0) (s, un')) as Hx2.
  { destruct Hx' as [? ? HL ? Hs20]. split; try done; cbn in *; [by rewrite HR|by rewrite Hsu]. }
  destruct (resume_create_ok wasm_exec start Hstart info machine schedule Hchain S W0 fuel nested_call
    nested_create f' _ t b0 cur self un' cache W ws0 R0 M0 s (parent_sub top cs) back
    Hw' Hlast Hsv Hx2 ltac:(lia) ltac:(lia) ltac:(lia) result) as (cache' & x & r & E & Ho); [done..|].
  set (l := mkLoop cache s top ((Some a, f) :: cs) (Some (true, b, Ok val))).
  change (cce_is_create f) with (cce_is_create f') in Ho, Hk.
  eapply (in_parent_ok f' _ cs l) in Ho as (l' & m & El & Hinv & Hm); try done; [|lia].
  rewrite El. exists l', m. split_and!; [done..|]. unfold depth_of in *. cbn [length]. lia.
Qed.

(** A turn of the loop ends it, or leaves it closer to its end. *)
Lemma consume_step_ok l m :
  loop_inv l m →
  (∃ val, consume_step l = Done (inl val) ∧ inv [] 0 [] (lp_state l, lp_top_substate l) ∧
     result_ok G val ∧ (failed val → world (lp_state l) ≡ W0 ∧ kept top0 (lp_top_substate l))) ∨
  ∃ l' m', consume_step l = Done (inr l') ∧ loop_inv l' m' ∧ m' < m.
Proof.
  intros Hl. destruct Hl as [cache s top exec cs ws R M T b t Hf Hx Hfr Hk Hp Hready Hkept
    |cache s top cs ws R M T b k c val Hf Hx Hr Hc Hkept Hfail|cache s top f cs ws R M T b t c gas Hf Hx Hk Hp Hready Hkept].
  - right. pose proof (frames_gas _ _ _ _ _ _ _ _ Hf) as HT. destruct (fresh_fields _ _ Hfr) as [Hg Hcr].
    assert (b = trap_gas t ∧ last ws = Some W0) as [-> Hlast] by (by inversion Hf).
    assert (last (world s :: ws) = Some W0) as Hlast' by (by destruct ws).
    destruct (executive_exec_ok wasm_exec start Hstart info machine schedule Hchain S W0 fuel nested_call
      nested_create exec t cache ws R M s (parent_sub top cs)) as (cache' & x & r & E & Ho); try done; [lia|].
    rewrite <- Hcr in Ho. set (l := mkLoop cache s top ((None, exec) :: cs) None).
    eapply (in_parent_ok exec _ cs l) in Ho as (l' & m & El & Hinv & Hm); try done; [|by intros ? [= <-]|lia].
    unfold Executive.consume_step. cbn [lp_last_res lp_callstack l]. fold l. rewrite El.
    exists l', m. split_and!; [done..|lia].
  - destruct cs as [|[a f] cs].
    + left. exists val. inversion Hf; subst. split_and!; try done. by apply Hfail.
    + right. assert (∃ t, k = Some t ∧ a = trap_address t) as (t & -> & ->).
      { inversion Hf; subst. by eexists. }
      specialize (Hkept ltac:(done)). rewrite (Hc t eq_refl).
      destruct t; [by eapply resume_call_step|by eapply resume_create_step].
  - right. destruct t as [p|p a]; unfold Executive.consume_step; cbn [lp_last_res].
    + destruct (new_call_raw_done p (cce_depth f + 1) (cce_static_flag f)) as [exec E]. rewrite E.
      eexists _, _. split; [done|]. split.
      * eapply (loop_exec _ _ _ _ _ _ _ _ _ _ (TrapCall p)); try done. by eexists _, _.
      * unfold depth_of. cbn [length lp_callstack]. lia.
    + eexists _, _. split; [done|]. split.
      * eapply (loop_exec _ _ _ _ _ _ _ _ _ _ (TrapCreate p a)); try done. by eexists _, _.
      * unfold depth_of. cbn [length lp_callstack]. lia.
Qed.

Lemma loop_nonneg l m : loop_inv l m → 0 ≤ m.
Proof.
  destruct 1 as [? ? ? ? ? ? ? ? ? ? ? Hf|? ? ? ? ? ? ? ? ? ? ? ? Hf _ Hr _ _ _|? ? ? ? ? ? ? ? ? ? ? ? ? Hf];
    pose proof (frames_gas _ _ _ _ _ _ _ _ Hf) as HT; unfold depth_of; try lia.
  pose proof (left_gas_bound _ _ (proj1 (proj2 HT)) Hr). lia.
Qed.

Lemma consume_loop_ok turns l m :
  loop_inv l m → m < Z.of_nat turns →
  ∃ cache x val, consume_loop turns l = Done (cache, x, val) ∧ inv [] 0 [] x ∧ result_ok G val ∧
    (failed val → world x.1 ≡ W0 ∧ kept top0 x.2).
Proof.
  revert l m. induction turns as [|turns IH]; intros l m Hl Hm.
  { pose proof (loop_nonneg _ _ Hl). lia. }
  cbn [Executive.consume_loop].
  destruct (consume_step_ok l m Hl) as [(val & -> & Hx & Hr & Hfail)|(l' & m' & -> & Hl' & Hlt)].
  - by eexists _, _, _.
  - eapply IH; [done|lia].
Qed.

(** ** Executions *)

(** More turns than this are never taken. *)
Definition turns_for (gas : Z) : Z := 4 * gas + 2.

Context (Hturns : turns_for G ≤ Z.of_nat fuel).

Lemma consume_ok exec t cache s sub :
  inv [] 0 [] (s, sub) → top0 = sub → W0 = world s → fresh info machine exec t →
  is_trap_call t ∨ is_trap_create t → action_params_ok (trap_params t) → ready start (s, sub) t →
  trap_gas t = G →
  ∃ cache' x val, consume wasm_exec info machine schedule fuel nested_call nested_create exec cache
      (s, sub) = Done (cache', x, val) ∧
    inv [] 0 [] x ∧ result_ok G val ∧ (failed val → world x.1 ≡ W0 ∧ kept top0 x.2).
Proof.
  intros Hx Hsub HW Hfr Hk Hp Hr Hg. destruct (fresh_fields _ _ Hfr) as [Hg' _].
  destruct (executive_exec_ok wasm_exec start Hstart info machine schedule Hchain S W0 fuel nested_call
    nested_create exec t cache [] 0 [] s sub) as (cache' & [s' top] & r & E & Ho); try done;
    [by rewrite HW|lia|].
  unfold consume. rewrite E. cbn [mbind outcome_bind]. rewrite Hg', Hg in *.
  destruct (outcome_loop cache' s' top [] [] 0 [] 0 G None (trap_is_create t) false G (world s) sub r)
    as (m & Hl & Hm); [constructor|done|lia|by rewrite HW|done|by rewrite Hsub|done|].
  eapply consume_loop_ok; [done|]. unfold turns_for, depth_of in *. cbn in Hm. lia.
Qed.

(** [call_with_stack_depth] and [create_with_stack_depth]. *)
Lemma executive_call_ok p depth flag cache s sub :
  inv [] 0 [] (s, sub) → top0 = sub → W0 = world s → action_params_ok p → ready start (s, sub) (TrapCall p) →
  ap_gas p = G →
  ∃ cache' x val, executive_call wasm_exec info machine schedule fuel nested_call nested_create depth
      flag p cache (s, sub) = Done (cache', x, val) ∧
    inv [] 0 [] x ∧ result_ok G val ∧ (failed val → world x.1 ≡ W0 ∧ kept top0 x.2).
Proof.
  intros Hx Hsub HW Hp Hr Hg. unfold executive_call. destruct (new_call_raw_done p depth flag) as [exec E].
  rewrite E. destruct (consume_ok exec (TrapCall p) cache s sub) as (cache' & x & val & Ec & Hx' & Hv & Hfl);
    try done; [by eexists _, _|by left|].
  cbn [mbind outcome_bind]. rewrite Ec. cbn [mbind outcome_bind].
  rewrite (done_trace_ok (ap_gas p) val) by (by rewrite Hg). by eexists _, _, _.
Qed.

Lemma executive_create_ok p depth flag cache s sub :
  inv [] 0 [] (s, sub) → top0 = sub → W0 = world s → action_params_ok p → is_Some (ap_code p) →
  ready start (s, sub) (TrapCreate p (ap_address p)) → ap_gas p = G →
  ∃ cache' x val, executive_create wasm_exec info machine schedule fuel nested_call nested_create depth
      flag p cache (s, sub) = Done (cache', x, val) ∧
    inv [] 0 [] x ∧ result_ok G val ∧ (failed val → world x.1 ≡ W0 ∧ kept top0 x.2).
Proof.
  intros Hx Hsub HW Hp Hc Hr Hg. unfold executive_create.
  destruct (consume_ok (new_create_raw p depth flag) (TrapCreate p (ap_address p)) cache s sub)
    as (cache' & x & val & Ec & Hx' & Hv & Hfl); try done; [by eexists _, _|by right|].
  rewrite Ec. cbn [mbind outcome_bind].
  rewrite (done_trace_ok (ap_gas p) val) by (by rewrite Hg). by eexists _, _, _.
Qed.
End Loop.
