(* ===== verification/Transact.v ===== *)
(** * Executing transactions

    [Executive::transact] and [finalize] of
    [src/parity-ethereum/ethcore/machine/src/executive.rs], [ExecutiveState::apply] of
    [src/parity-ethereum/ethcore/executive-state/src/lib.rs], [StateDatabase::apply] of
    [src/src/statedb/mod.rs], and the execution thread of [src/src/ledger_manager/mod.rs].

    Transactions are executed without tracing, as the node does.  The filter of the logs in a
    receipt, from the crate [ethbloom], is a parameter. *)

From S2P Require Import Prelude Hash Transaction Account State Schedule EvmWord Vm Gasometer Evm.
From S2P Require Import Externalities Executive StateDatabase StateDb JournalDb KeyValue Bloom.

Local Open Scope Z_scope.

(** The crate [ethbloom]. *)
Class LogBloom := {
  bloom_filter : Type;
  bloom_default : bloom_filter;
  bloom_accrue : list byte → bloom_filter → bloom_filter;
  accrue_bloom : bloom_filter → bloom_filter → bloom_filter;
}.

Inductive ExecutionError :=
| NotEnoughBaseGas (required got : Z)
| BlockGasLimitReached (gas_limit gas_used gas : Z)
| InvalidNonce (expected got : Z)
| NotEnoughCash (required got : Z)
| SenderMustExist
| ExecutionInternal (e : TrieError)
| TransactionMalformed.

Record Executed := mkExecuted {
  exception : option VmError;
  executed_gas : Z;
  gas_used : Z;
  refunded : Z;
  cumulative_gas_used : Z;
  executed_logs : list LogEntry;
  executed_contracts_created : list Address;
  executed_output : list byte;
}.

Inductive TransactionOutcome :=
| OutcomeUnknown
| OutcomeStateRoot (root : H256)
| OutcomeStatusCode (code : Z).

Section Receipt.
Context `{LogBloom}.

Record Receipt := mkReceipt {
  receipt_gas_used : Z;
  receipt_log_bloom : bloom_filter;
  receipt_logs : list LogEntry;
  receipt_outcome : TransactionOutcome;
}.

(** [LogEntry::bloom]. *)
Definition log_entry_bloom (self : LogEntry) : bloom_filter :=
  foldl (λ b t, bloom_accrue (h256_bytes t) b) (bloom_accrue (log_address self) bloom_default)
    (log_topics self).

Definition receipt_new (outcome : TransactionOutcome) (gas_used : Z) (logs : list LogEntry) :
    Receipt :=
  mkReceipt gas_used (foldl (λ b l, accrue_bloom (log_entry_bloom l) b) bloom_default logs) logs
    outcome.
End Receipt.

Section Transact.
Context `{Keccak} `{Rlp} `{LruCache H256 H256} `{TrieDatabase} `{HashOrder}.
Context {B : Type} `{!Backend B} `{!LruCache H256 BitSet}.
Context (wasm_exec : ∀ X, Ext X → ActionParams → X → Outcome (X * Result GasLeft VmError)).

Abbreviation Borrowed := (Borrowed (B := B)).

(** ** The monad of a transaction

    It threads the cache of jump destinations, the state and the substate. *)
Definition Running : Type := SharedCache * Borrowed.
Definition TM (A : Type) : Type := Running → Outcome (Running * Result A ExecutionError).

#[export] Instance tm_ret : MRet TM := λ A a s, Done (s, Ok a).
#[export] Instance tm_bind : MBind TM := λ A B f m s,
  '(s, r) ← m s;
  match r with Ok a => f a s | Err e => Done (s, Err e) end.

Definition tm_err {A} (e : ExecutionError) : TM A := λ s, Done (s, Err e).
Definition tm_done {A} (o : Outcome A) : TM A := λ s, a ← o; Done (s, Ok a).

(** An operation of the state. *)
Definition tm_state {A} (m : SM (B := B) A) : TM A := λ '(cache, (state, substate)),
  '(state, r) ← m state;
  Done ((cache, (state, substate)),
        match r with Ok a => Ok a | Err e => Err (ExecutionInternal e) end).

(** A change of a balance under the cleanup mode of the substate. *)
Definition tm_cleanup (schedule : Schedule) (f : CleanupMode → SM (B := B) CleanupMode) :
    TM unit := λ '(cache, (state, substate)),
  '(state, r) ← f (cleanup_mode substate schedule) state;
  match r with
  | Ok mode => Done ((cache, (state, put_mode mode substate)), Ok tt)
  | Err e => Done ((cache, (state, substate)), Err (ExecutionInternal e))
  end.

Definition tm_substate : TM Substate := λ s, Done (s, Ok s.2.2).
Definition tm_change (f : State (B := B) → State (B := B)) : TM unit :=
  λ '(cache, (state, substate)), Done ((cache, (f state, substate)), Ok tt).

(** An execution; its error is a result of the transaction. *)
Definition tm_exec {A} (f : SharedCache → Borrowed →
    Outcome (SharedCache * Borrowed * Result A VmError)) : TM (Result A VmError) :=
  λ '(cache, x), '(cache, x, r) ← f cache x; Done ((cache, x), Ok r).

Section Transaction.
Context (info : EnvInfo) (machine : Machine) (schedule : Schedule) (fuel : nat).

(** An executive that an execution starts itself, with its own nested executives; there are at
    most [levels] of them. *)
Fixpoint nested (levels : nat) (is_create : bool) (cache : SharedCache) (depth : Z)
    (static_flag : bool) (params : ActionParams) (x : Borrowed) :
    Outcome (Borrowed * Result FinalizationResult VmError) :=
  match levels with
  | O => Panic
  | S levels =>
      let run := if is_create then executive_create wasm_exec else executive_call wasm_exec in
      '(_, x, r) ← run info machine schedule fuel (nested levels false) (nested levels true)
                     depth static_flag params cache x;
      Done (x, r)
  end.

Definition call (params : ActionParams) : TM (Result FinalizationResult VmError) :=
  tm_exec (executive_call wasm_exec info machine schedule fuel (nested fuel false)
             (nested fuel true) 0 false params).
Definition create (params : ActionParams) : TM (Result FinalizationResult VmError) :=
  tm_exec (executive_create wasm_exec info machine schedule fuel (nested fuel false)
             (nested fuel true) 0 false params).

(** ** The end of a transaction *)

Definition gas_left_of (result : Result FinalizationResult VmError) : Z :=
  match result with Ok r => fr_gas_left r | Err _ => 0 end.

(** The amounts that [finalize] computes: the refunded gas, the gas left and the gas used. *)
Definition finalize_gas (t : RawTransaction) (substate : Substate)
    (result : Result FinalizationResult VmError) : Outcome (Z * Z * Z) :=
  if sstore_clears_refund substate <? 0 then Panic
  else
    let sstore_refunds := u64 (sstore_clears_refund substate) in
    suicide_refunds ← u256_mul (suicide_refund_gas schedule) (Z.of_nat (size (suicides substate)));
    refunds_bound ← u256_add sstore_refunds suicide_refunds;
    let gas_left_prerefund := gas_left_of result in
    spent ← u256_sub (Transaction.tx_gas t) gas_left_prerefund;
    let refunded := Z.min refunds_bound (Z.shiftr spent 1) in
    gas_left ← u256_add gas_left_prerefund refunded;
    Done (refunded, gas_left, Z.max 0 (Transaction.tx_gas t - gas_left)).

(** The dust that is removed with the garbage. *)
Definition dust_balance (t : RawTransaction) : option Z :=
  if bool_decide (kill_dust schedule ≠ DustOff)
  then Some (u256 (tx_gas schedule * tx_gas_price t)) else None.

Definition transact_finalize (sender : Address) (t : RawTransaction)
    (result : Result FinalizationResult VmError) (output : list byte) : TM Executed :=
  substate ← tm_substate;
  '(refunded, gas_left, used) ← tm_done (finalize_gas t substate result);
  let refund_value := gas_left * tx_gas_price t in
  let fees_value := used * tx_gas_price t in
  if (2 ^ 256 <=? refund_value) || (2 ^ 256 <=? fees_value) then tm_err TransactionMalformed
  else
    _ ← tm_state (add_balance sender refund_value NoEmpty);
    _ ← tm_cleanup schedule (add_balance (env_author info) fees_value);
    substate ← tm_substate;
    _ ← tm_change (λ state,
          foldl (λ state a, kill_account a state) state (hash_set_iter (suicides substate)));
    _ ← tm_change (kill_garbage (touched substate) (kill_empty schedule) (dust_balance t)
                     (bool_decide (kill_dust schedule = WithCodeAndStorage)));
    match result with
    | Err (Internal e) => tm_err (ExecutionInternal e)
    | Err e =>
        cumulative ← tm_done (u256_add (env_gas_used info) (Transaction.tx_gas t));
        mret (mkExecuted (Some e) (Transaction.tx_gas t) (Transaction.tx_gas t) 0 cumulative [] [] output)
    | Ok r =>
        cumulative ← tm_done (u256_add (env_gas_used info) used);
        mret (mkExecuted (if fr_apply_state r then None else Some Reverted) (Transaction.tx_gas t) used
                refunded cumulative (logs substate) (contracts_created substate) output)
    end.

(** ** Transactions *)

(** [return_data.to_vec()]. *)
Definition output_of (result : Result FinalizationResult VmError) : Outcome (list byte) :=
  match result with Ok r => rd_deref (fr_return_data r) | Err _ => Done [] end.

(** The action of a transaction, with its output. *)
Definition transact_action (sender : Address) (nonce init_gas : Z) (t : RawTransaction)
    (output_from_create : bool) : TM (Result FinalizationResult VmError * list byte) :=
  match tx_action t with
  | Create =>
      let '(new_address, code_hash) :=
        contract_address FromSenderAndNonce sender nonce (tx_data t) in
      result ← create
        (mkActionParams new_address code_hash new_address sender sender init_gas (tx_gas_price t)
           (Transfer (tx_value t)) (Some (tx_data t)) (latest_version schedule) None CT_None
           Embedded);
      output ← tm_done (if output_from_create then output_of result else Done []);
      mret (result, output)
  | Call a =>
      code ← tm_state (State.code a);
      hash ← tm_state (code_hash a);
      version ← tm_state (code_version a);
      result ← call
        (mkActionParams a hash a sender sender init_gas (tx_gas_price t) (Transfer (tx_value t))
           code version (Some (tx_data t)) CT_Call Separate);
      output ← tm_done (output_of result);
      mret (result, output)
  end.

(** [transact_with_tracer]. *)
Definition transact (t : Transaction) (check_nonce output_from_create : bool) : TM Executed :=
  let sender := tx_sender t in
  let raw := unsigned (tx_transaction t) in
  let is_unsigned := is_unsigned (tx_transaction t) in
  nonce ← tm_state (State.nonce sender);
  base_gas_required ← tm_done (gas_required raw schedule);
  if Transaction.tx_gas raw <? base_gas_required
  then tm_err (NotEnoughBaseGas base_gas_required (Transaction.tx_gas raw))
  else
    sender_exists ←
      (if negb is_unsigned && check_nonce && bool_decide (kill_dust schedule ≠ DustOff)
       then tm_state (exists_account sender) else mret true);
    if negb sender_exists then tm_err SenderMustExist
    else if check_nonce && negb (tx_nonce raw =? nonce)
    then tm_err (InvalidNonce nonce (tx_nonce raw))
    else
      total_gas ← tm_done (u256_add (env_gas_used info) (Transaction.tx_gas raw));
      if env_gas_limit info <? total_gas
      then tm_err (BlockGasLimitReached (env_gas_limit info) (env_gas_used info) (Transaction.tx_gas raw))
      else
        balance ← tm_state (balance sender);
        let gas_cost := Transaction.tx_gas raw * tx_gas_price raw in
        let total_cost := tx_value raw + gas_cost in
        if balance <? total_cost then tm_err (NotEnoughCash total_cost balance)
        else
          _ ← (if negb (keep_unsigned_nonce schedule) || negb is_unsigned
               then tm_state (inc_nonce sender) else mret tt);
          gas_cost ← tm_done (if gas_cost <? 2 ^ 256 then Done gas_cost else Panic);
          _ ← tm_cleanup schedule (sub_balance sender gas_cost);
          '(result, output) ← transact_action sender nonce (Transaction.tx_gas raw - base_gas_required) raw
                                output_from_create;
          transact_finalize sender raw result output.

(** [transact_virtual]: the sender gets the balance that it needs. *)
Definition transact_virtual (t : Transaction) (check_nonce output_from_create : bool) :
    TM Executed :=
  let sender := tx_sender t in
  let raw := unsigned (tx_transaction t) in
  balance ← tm_state (State.balance sender);
  let needed_balance :=
    saturating_add (tx_value raw) (Z.min (Transaction.tx_gas raw * tx_gas_price raw) U256_MAX) in
  _ ← (if balance <? needed_balance
       then _ ← tm_state (add_balance sender (needed_balance - balance) NoEmpty); mret tt
       else mret tt);
  transact t check_nonce output_from_create.
End Transaction.

(** ** The state that executes transactions

    [execute], and [apply_with_tracing], which does not check nonces. *)

Definition execute (fuel : nat) (info : EnvInfo) (machine : Machine) (t : Transaction)
    (check_nonce output_from_create virt : bool) (cache : SharedCache) (state : State (B := B)) :
    Outcome (SharedCache * State (B := B) * Result Executed ExecutionError) :=
  let schedule := machine_schedule machine (env_number info) in
  let run := if virt then transact_virtual else transact in
  '((cache, (state, _)), r) ← run info machine schedule fuel t check_nonce output_from_create
                                (cache, (state, substate_new));
  Done (cache, state, r).

Context `{LogBloom}.

Record ApplyOutcome := mkApplyOutcome {
  ao_receipt : Receipt;
  ao_output : list byte;
}.

(** [EthcoreError], of which the executive has two cases. *)
Inductive EthcoreError := EthcoreExecution (e : ExecutionError) | EthcoreTrie (e : TrieError).

Definition apply (fuel : nat) (info : EnvInfo) (machine : Machine) (t : Transaction)
    (cache : SharedCache) (state : State (B := B)) :
    Outcome (SharedCache * State (B := B) * Result ApplyOutcome EthcoreError) :=
  '(cache, state, r) ← execute fuel info machine t false false false cache state;
  match r with
  | Err e => Done (cache, state, Err (EthcoreExecution e))
  | Ok e =>
      let params := machine_params machine in
      let eip658 := eip658_transition params <=? env_number info in
      let no_intermediate_commits :=
        eip658 || ((eip98_transition params <=? env_number info) &&
                   (validate_receipts_transition params <=? env_number info)) in
      '(state, r) ←
        (if no_intermediate_commits then
           Done (state, Ok (if eip658 then OutcomeStatusCode
                                              match exception e with Some _ => 0 | None => 1 end
                            else OutcomeUnknown))
         else
           '(state, r) ← commit state;
           Done (state, match r with
                        | Ok _ => Ok (OutcomeStateRoot (st_root state))
                        | Err e => Err (EthcoreTrie e)
                        end));
      Done (cache, state, try_bind r (λ outcome,
        Ok (mkApplyOutcome (receipt_new outcome (cumulative_gas_used e) (executed_logs e))
              (executed_output e))))
  end.
End Transact.

(** ** The node *)

Section Node.
Context `{Keccak} `{Rlp} `{RlpDecode} `{MemoryDb} `{HashOrder}.
Context `{!LruCache H256 H256} `{!TrieFunctions OverlayRecentDB}.
Context `{!LruCache Address (option Account)} `{!LruCache H256 (list byte)}.
Context `{!SipHash (list byte)} `{!LruCache H256 BitSet} `{LogBloom}.
Context (wasm_exec : ∀ X, Ext X → ActionParams → X → Outcome (X * Result GasLeft VmError)).
Context (machine : Machine) (fuel : nat).

Abbreviation DB := (StateDB (J := OverlayRecentDB)).

(** The environment that [apply_with_env_info] takes when it is given none. *)
Definition default_info : EnvInfo :=
  mkEnvInfo 1 (env_author env_info_default) (env_timestamp env_info_default)
    (env_difficulty env_info_default) U256_MAX [h256_default] (env_gas_used env_info_default).

(** [StateDatabase::apply]. *)
Definition statedb_apply (t : Transaction) (cache : SharedCache) (state : State (B := DB)) :
    Outcome (SharedCache * State (B := DB) * Result ApplyOutcome EthcoreError) :=
  apply wasm_exec fuel default_info machine t cache state.

(** The loop over the transactions of a block. *)
Fixpoint apply_all (added_tx : list Transaction) (cache : SharedCache) (state : State (B := DB)) :
    Outcome (SharedCache * State (B := DB)) :=
  match added_tx with
  | [] => Done (cache, state)
  | tx :: added_tx =>
      '(cache, state, outcome) ← statedb_apply tx cache state;
      _ ← expect outcome;
      apply_all added_tx cache state
  end.

(** One turn of the execution thread. *)
Definition execute_block (added_tx : list Transaction) (cache : SharedCache)
    (state : State (B := DB)) : Outcome (SharedCache * State (B := DB)) :=
  '(cache, state) ← apply_all added_tx cache state;
  '(state, r) ← statedb_commit state;
  _ ← expect r;
  Done (cache, state).
End Node.
