(* ===== verification/TransactInv.v ===== *)
(** * Executions of transactions

    What [transact] of [Transact.v] does to the state: the checks before the execution, the
    price of the gas, the execution of the action, and the end of the transaction. *)

From S2P Require Import Prelude Hash Transaction Account State World StateInv StateSteps.
From S2P Require Import StateRefine StateOps Schedule EvmWord Vm Gasometer Evm VmLaws EvmLaws.
From S2P Require Import Externalities Executive ExecWorld ExternalitiesLaws ExecutiveInv Transact.

Local Open Scope Z_scope.

(** ** The gas of a transaction before its execution *)

Definition base_gas (t : RawTransaction) (schedule : Schedule) : Z :=
  (match tx_action t with Create => tx_create_gas schedule | Call _ => tx_gas schedule end) +
  Z.of_nat (count_occ byte_eq_dec (tx_data t) "000"%byte) * tx_data_zero_gas schedule +
  (Z.of_nat (length (tx_data t)) - Z.of_nat (count_occ byte_eq_dec (tx_data t) "000"%byte)) *
    tx_data_non_zero_gas schedule.

(** The fields of a transaction have their types, and it has less than [2 ^ 64] gas and [2 ^ 40]
    bytes of data. *)
Record tx_ok (t : Transaction) : Prop := {
  to_gas : 0 ≤ Transaction.tx_gas (unsigned (tx_transaction t)) < 2 ^ 64;
  to_price : is_word (tx_gas_price (unsigned (tx_transaction t)));
  to_value : is_word (tx_value (unsigned (tx_transaction t)));
  to_data : Z.of_nat (length (tx_data (unsigned (tx_transaction t)))) < 2 ^ 40;
  to_sender : length (tx_sender t) = 20%nat;
  to_action a : tx_action (unsigned (tx_transaction t)) = Call a → length a = 20%nat;
}.

Lemma usize_add_fits a b : a + b < 2 ^ 64 → usize_add a b = Done (a + b).
Proof. intros ?. unfold usize_add. by rewrite (proj2 (Z.ltb_lt _ _)). Qed.

Lemma gas_fold schedule (d : list byte) g :
  schedule_ok schedule → 0 ≤ g → g + 2 ^ 20 * Z.of_nat (length d) < 2 ^ 63 →
  foldM (λ g b, usize_add g (if bool_decide (b = "000"%byte) then tx_data_zero_gas schedule
                             else tx_data_non_zero_gas schedule)) g d =
  Done (g + Z.of_nat (count_occ byte_eq_dec d "000"%byte) * tx_data_zero_gas schedule +
        (Z.of_nat (length d) - Z.of_nat (count_occ byte_eq_dec d "000"%byte)) *
          tx_data_non_zero_gas schedule).
Proof.
  intros Hs. pose proof (so_tx_data _ Hs) as [Hz Hn]. unfold price in *. revert g.
  induction d as [|b d IH]; intros g Hg Hlen; [cbn; f_equal; lia|].
  cbn [foldM count_occ length]. cbn [length] in Hlen.
  destruct (byte_eq_dec b "000"%byte) as [E|E].
  - rewrite (bool_decide_eq_true_2 _ E), usize_add_fits by lia. cbn [mbind outcome_bind].
    rewrite IH by lia. f_equal. lia.
  - rewrite (bool_decide_eq_false_2 _ E), usize_add_fits by lia. cbn [mbind outcome_bind].
    rewrite IH by lia. f_equal. lia.
Qed.

Lemma gas_required_ok t schedule :
  schedule_ok schedule → Z.of_nat (length (tx_data t)) < 2 ^ 40 →
  gas_required t schedule = Done (base_gas t schedule) ∧ 0 ≤ base_gas t schedule.
Proof.
  intros Hs Hd. pose proof (so_tx _ Hs) as [Ht Hc]. pose proof (so_tx_data _ Hs) as [Hz Hn].
  unfold price in *. pose proof (count_occ_bound byte_eq_dec "000"%byte (tx_data t)) as Hb.
  unfold gas_required, gas_required_for, base_gas.
  destruct (tx_action t); (split; [apply gas_fold; [done|lia..]|nia]).
Qed.

(** ** Rejected transactions *)

Section Transact.
Context `{Keccak} `{Rlp} `{LruCache H256 H256} `{!LruLaws H256 H256} `{TrieDatabase} `{HashOrder}.
Context {B : Type} `{!Backend B} `{!DbStep} `{!BackendLaws} `{!CodeLaws}.
Context `{!LruCache H256 BitSet}.
Context (wasm_exec : ∀ X, Ext X → ActionParams → X → Outcome (X * Result GasLeft VmError)).
Context (start : Z) (Hstart : 0 ≤ start < U256_MAX).
Context (info : EnvInfo) (machine : Machine) (schedule : Schedule).
Context (fuel : nat).
Abbreviation Borrowed := (Borrowed (B := B)).
Implicit Types (s : State (B := B)) (sub : Substate) (t : Transaction) (w : World).

(** The error with which a transaction is rejected in a world, before it is executed. *)
Definition rejection (check_nonce : bool) t w : option ExecutionError :=
  let raw := unsigned (tx_transaction t) in
  let gas := Transaction.tx_gas raw in
  let cost := tx_value raw + gas * tx_gas_price raw in
  if gas <? base_gas raw schedule then Some (NotEnoughBaseGas (base_gas raw schedule) gas)
  else if negb (is_unsigned (tx_transaction t)) && check_nonce &&
          bool_decide (kill_dust schedule ≠ DustOff) && bool_decide (w (tx_sender t) = None)
  then Some SenderMustExist
  else if check_nonce && negb (tx_nonce raw =? nonce_of start w (tx_sender t))
  then Some (InvalidNonce (nonce_of start w (tx_sender t)) (tx_nonce raw))
  else if env_gas_limit info <? env_gas_used info + gas
  then Some (BlockGasLimitReached (env_gas_limit info) (env_gas_used info) gas)
  else if bal w (tx_sender t) <? cost then Some (NotEnoughCash cost (bal w (tx_sender t)))
  else None.

(** A state between transactions. *)
Record settled (S : Z) s : Prop := {
  se_good : good start s;
  se_checkpoints : checkpoints s = [];
  se_words a : is_word (bal (world s) a);
  se_supply : bounded S (bal (world s));
}.

Lemma saved_nil s : saved s = [] ↔ checkpoints s = [].
Proof. unfold saved. by destruct (checkpoints s). Qed.

Lemma settled_step S S' s w s' :
  settled S s → StateInv.keeps s w s' → good start s' → (∀ a, is_word (bal w a)) →
  bounded S' (bal w) → settled S' s'.
Proof.
  intros [_ Hc _ _] K Hg Hw Hb. split; [done|..].
  - apply saved_nil. pose proof (ke_saved _ _ _ K) as Hs. apply saved_nil in Hc. rewrite Hc in Hs.
    by inversion Hs.
  - intros a. by rewrite (ke_world _ _ _ K).
  - eapply bounded_le; [done|]. intros a. by rewrite (ke_world _ _ _ K).
Qed.

Lemma settled_query S s s' : settled S s → StateInv.keeps s (world s) s' → good start s' → settled S s'.
Proof. intros Hs K Hg. eapply settled_step; [done..|apply Hs|apply Hs]. Qed.

(** ** The monad *)

Lemma tm_bind_ok {A C} (m : TM (B := B) A) (f : A → TM (B := B) C) r r' a :
  m r = Done (r', Ok a) → (m ≫= f) r = f a r'.
Proof. intros E. unfold mbind, tm_bind. by rewrite E. Qed.

Lemma tm_state_ok {A} (m : SM (B := B) A) cache s s' sub a :
  m s = Done (s', Ok a) → tm_state m (cache, (s, sub)) = Done ((cache, (s', sub)), Ok a).
Proof. intros E. cbn. by rewrite E. Qed.

(** ** The checks *)

Abbreviation transact := (transact wasm_exec info machine schedule fuel).
Abbreviation transact_action := (transact_action wasm_exec info machine schedule fuel).

(** [transact] after its checks. *)
Definition transact_rest (nonce base : Z) t (output_from_create : bool) : TM (B := B) Executed :=
  let sender := tx_sender t in
  let raw := unsigned (tx_transaction t) in
  _ ← (if negb (keep_unsigned_nonce schedule) || negb (is_unsigned (tx_transaction t))
       then tm_state (inc_nonce sender) else mret tt);
  gas_cost ← tm_done (if Transaction.tx_gas raw * tx_gas_price raw <? 2 ^ 256
                      then Done (Transaction.tx_gas raw * tx_gas_price raw) else Panic);
  _ ← tm_cleanup schedule (sub_balance sender gas_cost);
  '(result, output) ← transact_action sender nonce (Transaction.tx_gas raw - base) raw
                        output_from_create;
  transact_finalize info schedule sender raw result output.

Definition gas_used_ok : Prop := 0 ≤ env_gas_used info ∧ env_gas_used info + 2 ^ 64 ≤ 2 ^ 256.

Lemma transact_checks t check out cache s sub :
  schedule_ok schedule → gas_used_ok → tx_ok t → good start s →
  ∃ s', StateInv.keeps s (world s) s' ∧ good start s' ∧
    transact t check out (cache, (s, sub)) =
      match rejection check t (world s) with
      | Some e => Done ((cache, (s', sub)), Err e)
      | None => transact_rest (nonce_of start (world s) (tx_sender t))
                  (base_gas (unsigned (tx_transaction t)) schedule) t out (cache, (s', sub))
      end.
Proof.
  intros Hsch [Hu1 Hu2] Ht Hg. set (sender := tx_sender t). set (raw := unsigned (tx_transaction t)).
  destruct (op_nonce start sender s Hg) as (s1 & E1 & K1 & G1).
  destruct (gas_required_ok raw schedule Hsch (to_data _ Ht)) as [Eb Hbase].
  unfold transact, rejection. fold sender raw. rewrite (tm_bind_ok _ _ _ _ _ (tm_state_ok _ _ _ _ _ _ E1)).
  rewrite Eb. rewrite (tm_bind_ok (tm_done _) _ _ (cache, (s1, sub)) (base_gas raw schedule)) by done.
  destruct (_ <? base_gas raw schedule); [by exists s1|].
  assert (∃ s2 b, StateInv.keeps s (world s) s2 ∧ good start s2 ∧
    (if negb (is_unsigned (tx_transaction t)) && check && bool_decide (kill_dust schedule ≠ DustOff)
     then tm_state (exists_account sender) else mret true) (cache, (s1, sub)) =
      Done ((cache, (s2, sub)), Ok b) ∧
    negb b = negb (is_unsigned (tx_transaction t)) && check &&
      bool_decide (kill_dust schedule ≠ DustOff) && bool_decide (world s sender = None))
    as (s2 & b & K2 & G2 & E2 & Eneg).
  { destruct (_ && bool_decide (kill_dust schedule ≠ DustOff)); [|by exists s1, true].
    destruct (op_exists start sender s1 G1) as (s2 & E2 & K2 & G2). exists s2. eexists. split_and!.
    - eapply keeps_world; [by eapply keeps_trans|]. apply K1.
    - done.
    - by apply tm_state_ok.
    - pose proof (ke_world _ _ _ K1 sender) as Hw. cbn. rewrite <- bool_decide_not.
      apply bool_decide_ext. rewrite <- eq_None_not_Some. by destruct Hw. }
  rewrite (tm_bind_ok _ _ _ _ _ E2), Eneg. destruct (_ && bool_decide (world s sender = None)); [by exists s2|].
  fold (nonce_of start (world s) sender). destruct (check && _); [by exists s2|].
  pose proof (to_gas _ Ht) as Hgas. fold raw in Hgas.
  rewrite (tm_bind_ok (tm_done _) _ _ (cache, (s2, sub)) (env_gas_used info + Transaction.tx_gas raw)).
  2: { unfold tm_done, u256_add. by rewrite (proj2 (Z.ltb_lt _ _)) by lia. }
  destruct (env_gas_limit info <? _); [by exists s2|].
  destruct (op_balance start sender s2 G2) as (s3 & E3 & K3 & G3).
  rewrite (tm_bind_ok _ _ _ _ _ (tm_state_ok _ _ _ _ _ _ E3)). fold (bal (world s2) sender).
  replace (bal (world s2) sender) with (bal (world s) sender) by (by rewrite (ke_world _ _ _ K2)).
  exists s3. split_and!; [|done|by destruct (bal _ _ <? _)].
  eapply keeps_world; [by eapply keeps_trans|]. apply K2.
Qed.

(** ** The price of the gas *)

Context (Hchain : chain_ok info machine schedule).

(** The sender has paid [cost], and its nonce is one higher. *)
Record charged (sender : Address) (cost : Z) (w w' : World) : Prop := {
  cg_bal a : bal w' a = upd (bal w) sender (bal w sender - cost) a;
  cg_nonce a : nonce_of start w' a =
    if decide (a = sender) then saturating_add (nonce_of start w a) 1 else nonce_of start w a;
  cg_code a : code_hash_of w' a = code_hash_of w a;
  cg_storage a k : storage_of w' a k = storage_of w a k;
}.

(** The nonce of the sender. *)
Lemma inc_nonce_settled S a s :
  settled S s →
  ∃ s', inc_nonce a s = Done (s', Ok tt) ∧ settled S s' ∧ marked start (world s') a ∧
    charged a 0 (world s) (world s').
Proof.
  intros Hs. destruct (op_inc_nonce start Hstart a s (se_good _ _ Hs)) as (s' & E & K & G).
  set (v := account_of start (world s a)) in *. set (n := saturating_add (v_nonce v) 1) in *.
  assert (start ≤ v_nonce v) as Hle.
  { subst v. destruct (world s a) as [v|] eqn:Ew; [|done]. eapply world_nonce; [apply Hs|done]. }
  pose proof (ke_world _ _ _ K) as Hw. exists s'.
  assert (∀ c, bal (wset a (Some (with_nonce n v)) (world s)) c = bal (world s) c) as Hb.
  { intros c. rewrite bal_wset. cbn. unfold v. by rewrite account_bal, upd_same. }
  split_and!; [done| | |].
  - eapply settled_step; [done..| |].
    + intros c. rewrite Hb. apply Hs.
    + eapply bounded_le; [apply Hs|]. intros c. by rewrite Hb.
  - rewrite Hw. unfold marked, wset. rewrite decide_True by done. eexists. split; [done|]. cbn.
    subst n. unfold saturating_add, U256_MAX in *. lia.
  - split; intros c; try intros k; rewrite Hw.
    + by rewrite Hb, Z.sub_0_r, upd_same.
    + unfold nonce_of, wset. case_decide as Ea; [subst c|done]. cbn. subst n v. by destruct (world s a).
    + unfold code_hash_of, wset. case_decide as Ea; [subst c|done]. cbn. subst v. by destruct (world s a).
    + unfold storage_of, wset. case_decide as Ea; [subst c|done]. cbn. subst v. by destruct (world s a).
Qed.

Lemma payment_ok S t nonce base out cache s sub :
  let raw := unsigned (tx_transaction t) in
  let cost := Transaction.tx_gas raw * tx_gas_price raw in
  settled S s → 0 ≤ cost ≤ bal (world s) (tx_sender t) →
  ∃ s' sub', transact_rest nonce base t out (cache, (s, sub)) =
      ('(result, output) ← transact_action (tx_sender t) nonce (Transaction.tx_gas raw - base) raw out;
       transact_finalize info schedule (tx_sender t) raw result output) (cache, (s', sub')) ∧
    settled (S - cost) s' ∧ kept sub sub' ∧ marked start (world s') (tx_sender t) ∧
    charged (tx_sender t) cost (world s) (world s').
Proof.
  intros raw cost Hs Hcost. unfold transact_rest. rewrite (co_nonce _ _ _ Hchain). cbn [negb orb].
  fold raw. fold cost. set (a := tx_sender t) in *.
  destruct (inc_nonce_settled S a s Hs) as (s1 & E1 & Hs1 & Hm1 & [C1 C2 C3 C4]).
  rewrite (tm_bind_ok _ _ _ _ _ (tm_state_ok _ _ _ _ _ _ E1)).
  pose proof (se_words _ _ Hs a) as Hword. unfold is_word in Hword.
  assert (bal (world s1) a = bal (world s) a) as Ha by (rewrite C1, Z.sub_0_r; apply upd_same).
  rewrite (tm_bind_ok (tm_done _) _ _ (cache, (s1, sub)) cost)
    by (by rewrite (proj2 (Z.ltb_lt _ _)) by lia).
  destruct (cleanup_sub_ok start schedule a cost s1 sub) as
    (s2 & sub2 & w & E2 & K & G2 & Hev & [M1 M2 M3] & Hb & _ & Hk); [apply Hs1|lia|].
  assert (tm_cleanup schedule (sub_balance a cost) (cache, (s1, sub)) = Done ((cache, (s2, sub2)), Ok tt))
    as E2'.
  { unfold with_cleanup in E2. unfold tm_cleanup.
    destruct (sub_balance a cost _ s1) as [[s3 [m|e]]|]; cbn in *; [|done..]. by injection E2 as <- <-. }
  rewrite (tm_bind_ok _ _ _ _ _ E2'). exists s2, sub2. split; [done|]. pose proof (ke_world _ _ _ K) as Hw.
  assert (∀ c, bal w c = upd (bal (world s)) a (bal (world s) a - cost) c) as Hb'.
  { intros c. rewrite Hb. unfold upd. rewrite Ha, C1, Z.sub_0_r. by rewrite upd_same. }
  split_and!; [|done| |].
  - eapply settled_step; [exact Hs1|done..| |].
    + intros c. rewrite Hb'. unfold upd. case_decide; [unfold is_word; lia|apply Hs].
    + eapply bounded_le; [apply (bounded_sub S (bal (world s)) a cost); [apply Hs| |done]|].
      * intros c. apply (se_words _ _ Hs c).
      * intros c. by rewrite Hb'.
  - rewrite Hw. by apply Hev.
  - split; intros c; try intros k; rewrite Hw; [apply Hb'|..].
    + by rewrite M1.
    + by rewrite M2.
    + by rewrite M3.
Qed.

(** ** The action *)

(** A substate before the execution: only addresses have been touched. *)
Definition untouched sub : Prop := kept substate_new sub.

Lemma start_inv S s sub :
  settled S s → untouched sub → borrowed_inv start schedule S (world s) [] 0 [] (s, sub).
Proof.
  intros Hs [Hsu HR]%kept_fields. split; cbn.
  - apply Hs.
  - by rewrite (proj2 (saved_nil s) (se_checkpoints _ _ Hs)).
  - rewrite HR. apply ledger_start; apply Hs.
  - done.
  - rewrite Hsu. set_solver.
Qed.

Lemma inv_settled S W0 (x : Borrowed) :
  borrowed_inv start schedule S W0 [] 0 [] x →
  settled S x.1 ∧ 0 ≤ sstore_clears_refund x.2 ∧ ∀ a, a ∈ suicides x.2 → length a = 20%nat.
Proof.
  intros [Hg Hsv [Hw Hb _ [HR _]] _ Hsu]. split_and!; [|lia|done]. split; try done.
  apply saved_nil. by inversion Hsv.
Qed.

Lemma output_ok gas res : result_ok gas res → ∃ output, output_of res = Done output.
Proof.
  destruct res as [r|e]; [|by eexists]. intros [_ Hd]. destruct (rd_deref_done _ Hd) as (k & E & _).
  by exists k.
Qed.

(** What the execution of the action leaves. *)
Definition action_post (S init : Z) s sub (o : Outcome (Running (B := B) *
    Result (Result FinalizationResult VmError * list byte) ExecutionError)) : Prop :=
  ∃ cache' x res output, o = Done ((cache', x), Ok (res, output)) ∧ settled S x.1 ∧
    0 ≤ sstore_clears_refund x.2 ∧ (∀ a, a ∈ suicides x.2 → length a = 20%nat) ∧
    result_ok init res ∧ (failed res → world x.1 ≡ world s ∧ kept sub x.2).

Lemma tm_exec_ok {A} run cache cache' (x x' : Borrowed) (r : Result A VmError) :
  run cache x = Done (cache', x', r) → tm_exec run (cache, x) = Done ((cache', x'), Ok r).
Proof. intros E. cbn. by rewrite E. Qed.

Section Action.
Context (S init nonce : Z) (t : Transaction) (cache : SharedCache) (s : State (B := B)) (sub : Substate).
Context (Ht : tx_ok t) (Hs : settled S s) (Hsub : untouched sub).
Context (Hm : marked start (world s) (tx_sender t)).
Context (Hv : tx_value (unsigned (tx_transaction t)) ≤ bal (world s) (tx_sender t)).
Context (Hinit : 0 ≤ init < 2 ^ 64) (Hfuel : turns_for init ≤ Z.of_nat fuel).

Lemma transact_create_ok out :
  tx_action (unsigned (tx_transaction t)) = Create →
  action_post S init s sub
    (transact_action (tx_sender t) nonce init (unsigned (tx_transaction t)) out (cache, (s, sub))).
Proof.
  intros Ea. unfold Transact.transact_action. rewrite Ea. set (raw := unsigned (tx_transaction t)) in *.
  pose proof (length_contract_address FromSenderAndNonce (tx_sender t) nonce (tx_data raw)) as Hlen.
  destruct (contract_address FromSenderAndNonce (tx_sender t) nonce (tx_data raw)) as [a h]. cbn in Hlen.
  set (p := mkActionParams a _ _ _ _ _ _ _ _ _ _ _ _).
  assert (action_params_ok p) as Hp.
  { destruct Ht. split; try done. cbn. unfold bytes_ok. fold raw in to_data0. lia. }
  unfold create. destruct (executive_create_ok wasm_exec start Hstart info machine schedule Hchain S (world s)
    fuel (nested wasm_exec info machine schedule fuel fuel false)
    (nested wasm_exec info machine schedule fuel fuel true) sub init Hinit
    ltac:(unfold turns_for in *; lia) Hfuel p 0 false cache s sub) as (cache' & x & res & E & Hx & Hr & Hf);
    [by apply start_inv|done..|by eexists| |done|].
  { split; [|done]. by intros v [= <-]. }
  rewrite (tm_bind_ok _ _ _ _ _ (tm_exec_ok _ _ _ _ _ _ E)).
  destruct (output_ok _ _ Hr) as [output Eo].
  destruct (inv_settled _ _ _ Hx) as (? & ? & ?).
  destruct out; [rewrite Eo|]; (eexists cache', x, res, _; split; [done|]; done).
Qed.

Lemma transact_call_ok a out :
  tx_action (unsigned (tx_transaction t)) = Call a →
  action_post S init s sub
    (transact_action (tx_sender t) nonce init (unsigned (tx_transaction t)) out (cache, (s, sub))).
Proof.
  intros Ea. unfold Transact.transact_action. rewrite Ea. set (raw := unsigned (tx_transaction t)) in *.
  destruct (op_code start a s (se_good _ _ Hs)) as (c & (s1 & E1 & K1 & G1) & Hc & Hmk).
  destruct (op_code_hash start a s1 G1) as (s2 & E2 & K2 & G2).
  destruct (op_code_version start a s2 G2) as (s3 & E3 & K3 & G3).
  rewrite (tm_bind_ok _ _ _ _ _ (tm_state_ok _ _ _ _ _ _ E1)),
    (tm_bind_ok _ _ _ _ _ (tm_state_ok _ _ _ _ _ _ E2)),
    (tm_bind_ok _ _ _ _ _ (tm_state_ok _ _ _ _ _ _ E3)).
  assert (StateInv.keeps s (world s) s3) as K.
  { eapply keeps_world; [by eapply keeps_trans; [|eapply keeps_trans]|].
    trans (world s1); [apply K2|apply K1]. }
  pose proof (ke_world _ _ _ K) as Hw. pose proof (settled_query _ _ _ Hs K G3) as Hs3.
  set (p := mkActionParams a _ _ _ _ _ _ _ _ _ _ _ _).
  assert (action_params_ok p) as Hp.
  { destruct Ht. split; try done; try (by apply to_action0). cbn. unfold bytes_ok. fold raw in to_data0. lia. }
  unfold call. destruct (executive_call_ok wasm_exec start Hstart info machine schedule Hchain S (world s3)
    fuel (nested wasm_exec info machine schedule fuel fuel false)
    (nested wasm_exec info machine schedule fuel fuel true) sub init Hinit
    ltac:(unfold turns_for in *; lia) Hfuel p 0 false cache s3 sub) as (cache' & x & res & E & Hx & Hr & Hf);
    [by apply start_inv|done..| |done|].
  { split; [intros v [= <-]; unfold has_funds; cbn; by rewrite Hw|]. cbn. intros Hne. rewrite Hw. auto. }
  rewrite (tm_bind_ok _ _ _ _ _ (tm_exec_ok _ _ _ _ _ _ E)).
  destruct (output_ok _ _ Hr) as [output Eo]. rewrite Eo.
  destruct (inv_settled _ _ _ Hx) as (? & ? & ?).
  eexists cache', x, res, _. split; [done|]. split_and!; try done.
  intros [Hwx Hk]%Hf. split; [|done]. by rewrite Hwx.
Qed.
End Action.

(** ** The end of a transaction *)

(** There are at most 2^160 addresses. *)
Lemma addresses_bound (X : gset Address) :
  (∀ a, a ∈ X → length a = 20%nat) → Z.of_nat (size X) ≤ 2 ^ 160.
Proof.
  intros HX. set (l := from_be_bytes <$> elements X).
  assert (NoDup l) as Hl.
  { apply NoDup_fmap_2_strong; [|apply NoDup_elements]. intros a b Ha Hb E.
    rewrite elem_of_elements in Ha, Hb. apply (from_be_bytes_inj a b); [|done].
    by rewrite (HX a Ha), (HX b Hb). }
  assert (l ⊆ seqZ 0 (2 ^ 160)) as Hsub.
  { intros z (a & -> & Ha%elem_of_elements)%list_elem_of_fmap. apply elem_of_seqZ.
    pose proof (from_be_bytes_bound a) as Hb. rewrite (HX a Ha) in Hb. lia. }
  pose proof (submseteq_length _ _ (NoDup_submseteq _ _ Hl Hsub)) as Hle.
  unfold l in Hle. rewrite length_fmap, length_seqZ in Hle.
  change (size X) with (length (elements X)). apply Nat2Z.inj_le in Hle.
  by rewrite Z2Nat.id in Hle by lia.
Qed.

Lemma finalize_gas_ok raw init sub res :
  0 ≤ init ≤ Transaction.tx_gas raw → Transaction.tx_gas raw < 2 ^ 64 → result_ok init res →
  0 ≤ sstore_clears_refund sub → (∀ a, a ∈ suicides sub → length a = 20%nat) →
  ∃ refunded left, finalize_gas schedule raw sub res =
      Done (refunded, left, Transaction.tx_gas raw - left) ∧
    left_gas res ≤ left ≤ Transaction.tx_gas raw ∧ (untouched sub → left = left_gas res).
Proof.
  intros Hi Hg Hr HR Hsu. pose proof (left_gas_bound init res ltac:(lia) Hr) as Hl.
  pose proof (addresses_bound _ Hsu) as Hsize.
  pose proof (so_refunds _ (co_schedule _ _ _ Hchain)) as [_ Hp]. unfold price in Hp.
  pose proof (wrap_bound 64 (sstore_clears_refund sub) ltac:(lia)) as Hw.
  unfold finalize_gas. rewrite (proj2 (Z.ltb_ge _ _)) by done. fold (left_gas res).
  change (gas_left_of res) with (left_gas res).
  unfold u256_mul, u256_add, u256_sub. unfold u64. rewrite (proj2 (Z.ltb_lt (_ * _) _)) by nia.
  cbn [mbind outcome_bind]. rewrite (proj2 (Z.ltb_lt (wrap 64 _ + _) _)) by nia. cbn [mbind outcome_bind].
  rewrite (proj2 (Z.leb_le _ _)) by lia. cbn [mbind outcome_bind].
  set (bound := wrap 64 _ + _). assert (0 ≤ bound) by (subst bound; nia).
  rewrite Z.shiftr_div_pow2 by lia. change (2 ^ 1) with 2. set (spent := (_ - _) `div` 2).
  assert (0 ≤ spent ≤ Transaction.tx_gas raw - left_gas res).
  { split; [apply Z.div_pos; lia|apply Z.div_le_upper_bound; lia]. }
  rewrite (proj2 (Z.ltb_lt _ _)) by lia. cbn [mbind outcome_bind].
  eexists _, (left_gas res + Z.min bound spent). rewrite Z.max_r by lia. split; [done|].
  split; [lia|]. intros [Es ER]%kept_fields. subst bound. rewrite Es, ER. cbn.
  rewrite size_empty, Z.mul_0_r. change (wrap 64 0) with 0. lia.
Qed.

(** Accounts that are killed. *)
Lemma kills_ok l S s :
  settled S s →
  let s' := foldl (λ s a, kill_account a s) s l in
  settled S s' ∧ ∀ a, world s' a ≡ if decide (a ∈ l) then None else world s a.
Proof.
  revert s. induction l as [|b l IH]; intros s Hs; cbn [foldl].
  { split; [done|]. intros a. by rewrite decide_False by set_solver. }
  destruct (op_kill_account start b s (se_good _ _ Hs)) as [Hg K].
  assert (∀ a, 0 ≤ bal (wset b None (world s)) a ≤ bal (world s) a) as Hb.
  { intros a. pose proof (se_words _ _ Hs a) as Hw. unfold is_word, bal, wset in *. case_decide; cbn; lia. }
  assert (settled S (kill_account b s)) as Hs1.
  { eapply settled_step; [done..| |].
    - intros a. pose proof (se_words _ _ Hs a). specialize (Hb a). unfold is_word in *. lia.
    - eapply bounded_le; [apply Hs|]. intros a. apply Hb. }
  destruct (IH _ Hs1) as [Hs2 Hw]. split; [done|]. intros a. rewrite (Hw a).
  pose proof (ke_world _ _ _ K a) as Hka. unfold wset in Hka.
  destruct (decide (a ∈ l)), (decide (a = b)), (decide (a ∈ b :: l)); set_solver.
Qed.

(** Empty accounts are as if they did not exist. *)
Lemma garbage_ok touched remove kill_contracts S s :
  settled S s →
  let s' := kill_garbage touched remove None kill_contracts s in
  settled S s' ∧ moved start (world s) (world s') ∧ ∀ a, bal (world s') a = bal (world s) a.
Proof.
  intros Hs. unfold kill_garbage. set (kill := list_to_set _).
  destruct (kills_ok (hash_set_iter kill) S s Hs) as [Hs' Hw]. cbv zeta in *.
  set (s' := foldl _ s _) in *. split; [done|].
  assert (∀ a, world s' a ≡ world s a ∨ ∃ v, world s a = Some v ∧ view_null v = true ∧ world s' a = None)
    as Hcase.
  { intros a. specialize (Hw a). destruct (decide (a ∈ hash_set_iter kill)) as [Ha|]; [right|by left].
    apply elem_of_hash_set_iter, elem_of_list_to_set, list_elem_of_fmap in Ha as ([b e] & -> & Ha).
    apply list_elem_of_filter in Ha as [Hk He%elem_of_hash_iter]. cbn in Hk.
    apply andb_true_iff in Hk as [_ Hk]. rewrite orb_false_r in Hk. apply andb_true_iff in Hk as [_ Hk].
    unfold exists_and_is_null in Hk. destruct e as [[acc|] old st]; [|done]. cbn in Hk.
    cbn in Hw |- *. exists (view (as_hash_db (st_db s)) b acc).
    split_and!; [unfold world; by rewrite He|exact Hk|by inversion Hw]. }
  assert (∀ a v, world s a = Some v → view_null v = true →
    v_balance v = 0 ∧ v_nonce v = start ∧ v_code_hash v = KECCAK_EMPTY ∧ ∀ k, v_storage v k = h256_default)
    as Hnull.
  { intros a v Ev Hn. unfold view_null in Hn. apply andb_true_iff in Hn as [Hn Hc%bool_decide_eq_true].
    apply andb_true_iff in Hn as [Hb%Z.eqb_eq Hn%Z.eqb_eq].
    pose proof (world_nonce start a s v (se_good _ _ Hs) Ev) as Hle.
    assert (v_nonce v = start) as Hst by lia. split_and!; try done. intros k.
    eapply (new_world start a s (se_good _ _ Hs)); [|done].
    intros (v' & Ev' & Hne). rewrite Ev in Ev'. by injection Ev' as <-. }
  split; [split|]; intros a; try intros k; unfold bal, nonce_of, code_hash_of, storage_of;
    destruct (Hcase a) as [E|(v & Ev & Hn & ->)];
    try (destruct E as [? ? Hv|]; [apply Hv|done]);
    destruct (Hnull a v Ev Hn) as (? & ? & ? & Hst); rewrite Ev; cbn; by rewrite ?Hst.
Qed.

(** A payment to an account. *)
Lemma pay_ok S s a v mode :
  settled S s → 0 ≤ v →
  ∃ s' mode', add_balance a v mode s = Done (s', Ok mode') ∧ settled (S + v) s' ∧
    moved start (world s) (world s') ∧
    ∀ b, bal (world s') b = upd (bal (world s)) a (saturating_add (bal (world s) a) v) b.
Proof.
  intros Hs Hv. pose proof (se_words _ _ Hs a) as Hwa.
  pose proof (op_add_balance start a v mode s (se_good _ _ Hs)) as Hop.
  pose proof (spec_add_evolve start a v mode (world s) Hv Hwa) as (_ & Hmv & Hb).
  destruct (spec_add_balance start a v mode (world s)) as [w m']. cbn [fst] in *.
  destruct Hop as (s' & E & K & G). exists s', m'. split; [done|].
  pose proof (ke_world _ _ _ K) as Hw. split_and!.
  - unfold is_word in Hwa. eapply settled_step; [done..| |].
    + intros b. rewrite Hb. unfold upd, saturating_add. case_decide; [|apply Hs].
      unfold is_word, U256_MAX. lia.
    + eapply bounded_le; [apply bounded_add; [apply Hs|done]|]. intros b. rewrite Hb.
      instantiate (1 := a). unfold upd, saturating_add. case_decide; lia.
  - etrans; [done|]. apply moved_equiv. by symmetry.
  - intros b. by rewrite Hw.
Qed.

Lemma bounded_one S f a : bounded S f → f a ≤ S.
Proof. intros Hb. specialize (Hb [a]). cbn in Hb. assert (NoDup [a]) as Hl by apply NoDup_singleton. specialize (Hb Hl). lia. Qed.

(** A payment under the cleanup mode of the substate. *)
Lemma tm_pay_ok S cache s sub a v :
  settled S s → 0 ≤ v →
  ∃ s' sub', tm_cleanup schedule (add_balance a v) (cache, (s, sub)) = Done ((cache, (s', sub')), Ok tt) ∧
    settled (S + v) s' ∧ kept sub sub' ∧ moved start (world s) (world s') ∧
    ∀ b, bal (world s') b = upd (bal (world s)) a (saturating_add (bal (world s) a) v) b.
Proof.
  intros Hs Hv. destruct (pay_ok S s a v (cleanup_mode sub schedule) Hs Hv)
    as (s' & mode & E & Hs' & Hmv & Hb).
  exists s', (put_mode mode sub). cbn. rewrite E. cbn. split_and!; try done. apply put_mode_kept.
Qed.

(** What the end of a transaction of [gas] at [price] leaves, when its execution has left
    [res], and no refunds. *)
Record paid_back (sender : Address) (gas price : Z) (res : Result FinalizationResult VmError)
    (w w' : World) : Prop := {
  pb_moved : moved start w w';
  pb_bal a : bal w' a = bal w a +
    (if decide (a = sender) then left_gas res * price else 0) +
    (if decide (a = env_author info) then (gas - left_gas res) * price else 0);
}.

(** Two payments that do not exceed the largest word. *)
Lemma payments_exact S s s1 s2 a b v1 v2 :
  settled S s → 0 ≤ v1 → 0 ≤ v2 → S + v1 + v2 < 2 ^ 256 → settled (S + v1) s1 →
  (∀ c, bal (world s1) c = upd (bal (world s)) a (saturating_add (bal (world s) a) v1) c) →
  (∀ c, bal (world s2) c = upd (bal (world s1)) b (saturating_add (bal (world s1) b) v2) c) →
  ∀ c, bal (world s2) c = bal (world s) c + (if decide (c = a) then v1 else 0) +
                          (if decide (c = b) then v2 else 0).
Proof.
  intros Hs Hv1 Hv2 HS Hs1 B1 B2 c.
  pose proof (bounded_one _ _ a (se_supply _ _ Hs)). pose proof (bounded_one _ _ b (se_supply _ _ Hs1)) as Hb.
  assert (∀ d, bal (world s1) d = bal (world s) d + if decide (d = a) then v1 else 0) as B1'.
  { intros d. rewrite B1. unfold upd, saturating_add, U256_MAX. case_decide; subst; lia. }
  rewrite B2. unfold upd, saturating_add, U256_MAX. rewrite !B1' in *. destruct (decide (c = b)); subst; lia.
Qed.

(** The payments at the end of a transaction, and the removal of accounts. *)
Definition settle (sender : Address) (refund_value fees_value : Z) (price : Z) : TM (B := B) Substate :=
  _ ← tm_state (add_balance sender refund_value NoEmpty);
  _ ← tm_cleanup schedule (add_balance (env_author info) fees_value);
  substate ← tm_substate;
  _ ← tm_change (λ state,
        foldl (λ state a, kill_account a state) state (hash_set_iter (suicides substate)));
  _ ← tm_change (kill_garbage (touched substate) (kill_empty schedule)
        (if bool_decide (kill_dust schedule ≠ DustOff) then Some (u256 (tx_gas schedule * price)) else None)
        (bool_decide (kill_dust schedule = WithCodeAndStorage)));
  mret substate.

Lemma settle_bind {A} sender refund fees price (f : Substate → TM (B := B) A) r :
  (settle sender refund fees price ≫= f) r =
  (_ ← tm_state (add_balance sender refund NoEmpty);
   _ ← tm_cleanup schedule (add_balance (env_author info) fees);
   substate ← tm_substate;
   _ ← tm_change (λ state,
         foldl (λ state a, kill_account a state) state (hash_set_iter (suicides substate)));
   _ ← tm_change (kill_garbage (touched substate) (kill_empty schedule)
         (if bool_decide (kill_dust schedule ≠ DustOff) then Some (u256 (tx_gas schedule * price)) else None)
         (bool_decide (kill_dust schedule = WithCodeAndStorage)));
   f substate) r.
Proof.
  unfold settle, mbind, tm_bind. destruct (tm_state _ r) as [[r1 [u|e]]|]; [|done..]. cbn.
  by destruct (tm_cleanup _ _ r1) as [[[cache [s sub]] [u'|e]]|].
Qed.

Lemma settle_ok S cache s sub sender refund fees price :
  settled (S - (refund + fees)) s → 0 ≤ refund → 0 ≤ fees →
  ∃ s' sub', settle sender refund fees price (cache, (s, sub)) = Done ((cache, (s', sub')), Ok sub') ∧
    settled S s' ∧
    (untouched sub → S < 2 ^ 256 →
     moved start (world s) (world s') ∧
     ∀ a, bal (world s') a = bal (world s) a + (if decide (a = sender) then refund else 0) +
                             (if decide (a = env_author info) then fees else 0)).
Proof.
  intros Hs Hr Hf. unfold settle.
  destruct (pay_ok _ s sender refund NoEmpty Hs Hr) as (s1 & m1 & E1 & Hs1 & Hm1 & B1).
  rewrite (tm_bind_ok _ _ _ _ _ (tm_state_ok _ _ _ _ _ _ E1)).
  destruct (tm_pay_ok _ cache s1 sub (env_author info) fees Hs1 Hf) as (s2 & sub2 & E2 & Hs2 & Hk2 & Hm2 & B2).
  replace (S - (refund + fees) + refund + fees) with S in Hs2 by lia.
  rewrite (tm_bind_ok _ _ _ _ _ E2).
  rewrite (tm_bind_ok tm_substate _ _ (cache, (s2, sub2)) sub2) by done.
  destruct (kills_ok (hash_set_iter (suicides sub2)) S s2 Hs2) as [Hs3 Hw3]. cbv zeta in *.
  set (s3 := foldl _ s2 _) in *.
  rewrite (tm_bind_ok (tm_change _) _ _ (cache, (s3, sub2)) tt) by done.
  rewrite (co_dust _ _ _ Hchain), bool_decide_eq_false_2 by naive_solver.
  destruct (garbage_ok (touched sub2) (kill_empty schedule) (bool_decide (DustOff = WithCodeAndStorage))
    S s3 Hs3) as (Hs4 & Hm4 & B4). cbv zeta in *. set (s4 := kill_garbage _ _ _ _ s3) in *.
  rewrite (tm_bind_ok (tm_change _) _ _ (cache, (s4, sub2)) tt) by done.
  exists s4, sub2. split; [done|]. split; [done|]. intros Hsub HS.
  destruct (kept_fields _ _ Hk2) as [Es2 _]. destruct (kept_fields _ _ Hsub) as [Es0 _]. cbn in Es0.
  assert (world s3 ≡ world s2) as H23.
  { intros a. rewrite (Hw3 a), decide_False; [done|]. rewrite elem_of_hash_set_iter, Es2, Es0. set_solver. }
  split.
  - trans (world s1); [done|]. trans (world s2); [done|]. trans (world s3); [by apply moved_equiv|done].
  - intros a. rewrite B4, H23. eapply (payments_exact _ s s1 s2); try done. lia.
Qed.

Lemma transact_finalize_ok S raw init sender res output cache s sub :
  let gas := Transaction.tx_gas raw in
  let price := tx_gas_price raw in
  gas_used_ok → 0 ≤ init ≤ gas → gas < 2 ^ 64 → 0 ≤ price → gas * price < 2 ^ 256 →
  result_ok init res → settled (S - gas * price) s → 0 ≤ sstore_clears_refund sub →
  (∀ a, a ∈ suicides sub → length a = 20%nat) →
  ∃ s' sub' ex, transact_finalize info schedule sender raw res output (cache, (s, sub)) =
      Done ((cache, (s', sub')), Ok ex) ∧
    settled S s' ∧ 0 ≤ gas_used ex ≤ gas ∧ executed_output ex = output ∧
    (exception ex = None ↔ ¬ failed res) ∧
    (untouched sub → S < 2 ^ 256 →
     gas_used ex = gas - left_gas res ∧ paid_back sender gas price res (world s) (world s')).
Proof.
  intros gas price [Hu1 Hu2] Hinit Hgas Hprice Hcost Hr Hs HR Hsu.
  destruct (finalize_gas_ok raw init sub res Hinit Hgas Hr HR Hsu) as (refunded & left & Ef & Hleft & Hun).
  pose proof (left_gas_bound init res ltac:(lia) Hr) as Hl. fold gas in Ef, Hleft.
  destruct (settle_ok S cache s sub sender (left * price) ((gas - left) * price) price)
    as (s' & sub' & Es & Hs' & Hexact); [by replace (left * price + (gas - left) * price) with (gas * price) by lia|nia..|].
  unfold transact_finalize. rewrite (tm_bind_ok tm_substate _ _ (cache, (s, sub)) sub) by done. rewrite Ef.
  rewrite (tm_bind_ok (tm_done _) _ _ (cache, (s, sub)) (refunded, left, gas - left)) by done.
  fold price. rewrite !(proj2 (Z.leb_gt _ _)) by nia. cbn [orb]. unfold dust_balance. fold price.
  rewrite <- settle_bind, (tm_bind_ok _ _ _ _ _ Es).
  assert (untouched sub → S < 2 ^ 256 → left = left_gas res ∧ paid_back sender gas price res (world s) (world s'))
    as Hpaid.
  { intros Hsub HS. specialize (Hun Hsub). subst left. split; [done|]. by destruct (Hexact Hsub HS). }
  assert (∀ z, 0 ≤ z ≤ gas → tm_done (B := B) (u256_add (env_gas_used info) z) (cache, (s', sub')) =
    Done ((cache, (s', sub')), Ok (env_gas_used info + z))) as Hadd.
  { intros z Hz. unfold tm_done, u256_add. by rewrite (proj2 (Z.ltb_lt _ _)) by lia. }
  destruct res as [r|e].
  - rewrite (tm_bind_ok _ _ _ _ _ (Hadd (gas - left) ltac:(lia))).
    eexists s', sub', _. split; [done|]. cbn. split_and!; try done; try lia.
    + destruct (fr_apply_state r); naive_solver.
    + intros Hsub HS. destruct (Hpaid Hsub HS) as [-> ?]. done.
  - exists s', sub', (mkExecuted (Some e) gas gas 0 (env_gas_used info + gas) [] [] output).
    pose proof (tm_bind_ok _ (λ cumulative, mret (mkExecuted (Some e) gas gas 0 cumulative [] [] output))
      _ _ _ (Hadd gas ltac:(lia))) as Hend.
    split; [by destruct e|]. cbn. split; [done|]. split; [lia|]. split; [done|]. split; [naive_solver|].
    intros Hsub HS. destruct (Hpaid Hsub HS). split; [lia|done].
Qed.

(** ** The whole transaction *)

(** [sender] has paid [amount] to [author], and its nonce is one higher; nothing else has
    changed. *)
Record only_paid (sender author : Address) (amount : Z) (w w' : World) : Prop := {
  op_bal a : bal w' a = bal w a - (if decide (a = sender) then amount else 0) +
                                  (if decide (a = author) then amount else 0);
  op_nonce_of a : nonce_of start w' a =
    if decide (a = sender) then saturating_add (nonce_of start w a) 1 else nonce_of start w a;
  op_code_hash_of a : code_hash_of w' a = code_hash_of w a;
  op_storage_of a k : storage_of w' a k = storage_of w a k;
}.

Lemma charged_paid sender gas price res w w1 w2 w3 :
  charged sender (gas * price) w w1 → w2 ≡ w1 → paid_back sender gas price res w2 w3 →
  only_paid sender (env_author info) ((gas - left_gas res) * price) w w3.
Proof.
  intros [C1 C2 C3 C4] Hw [[M1 M2 M3] Hb]. split; intros a; try intros k.
  - rewrite Hb, Hw, C1. unfold upd. repeat case_decide; subst; lia.
  - by rewrite M1, Hw.
  - by rewrite M2, Hw.
  - by rewrite M3, Hw.
Qed.

Lemma transact_ok S t check out cache s :
  let raw := unsigned (tx_transaction t) in
  gas_used_ok → tx_ok t → settled S s → turns_for (Transaction.tx_gas raw) ≤ Z.of_nat fuel →
  ∃ cache' s' sub' r, transact t check out (cache, (s, substate_new)) = Done ((cache', (s', sub')), r) ∧
    settled S s' ∧
    match rejection check t (world s) with
    | Some e => r = Err e ∧ world s' ≡ world s
    | None => ∃ ex, r = Ok ex ∧ 0 ≤ gas_used ex ≤ Transaction.tx_gas raw ∧
        (exception ex ≠ None → S < 2 ^ 256 →
         only_paid (tx_sender t) (env_author info) (gas_used ex * tx_gas_price raw) (world s) (world s'))
    end.
Proof.
  intros raw Hu Ht Hs Hfuel. pose proof (to_gas _ Ht) as Hgas. pose proof (to_price _ Ht) as Hprice.
  pose proof (to_value _ Ht) as Hval. fold raw in Hgas, Hprice, Hval. unfold is_word in *.
  destruct (gas_required_ok raw schedule (co_schedule _ _ _ Hchain) (to_data _ Ht)) as [_ Hbase].
  destruct (transact_checks t check out cache s substate_new (co_schedule _ _ _ Hchain) Hu Ht (se_good _ _ Hs))
    as (s1 & K1 & G1 & ->). pose proof (settled_query _ _ _ Hs K1 G1) as Hs1.
  pose proof (ke_world _ _ _ K1) as Hw1.
  destruct (rejection check t (world s)) as [e|] eqn:Erej; [by exists cache, s1, substate_new, (Err e)|].
  assert (base_gas raw schedule ≤ Transaction.tx_gas raw ∧
    tx_value raw + Transaction.tx_gas raw * tx_gas_price raw ≤ bal (world s) (tx_sender t)) as [Hb Hcash].
  { unfold rejection in Erej. fold raw in Erej. repeat case_match; try done.
    split; [by apply Z.ltb_ge|]. by apply Z.ltb_ge. }
  fold raw. set (init := Transaction.tx_gas raw - base_gas raw schedule).
  destruct (payment_ok S t (nonce_of start (world s) (tx_sender t)) (base_gas raw schedule) out cache s1 substate_new)
    as (s2 & sub2 & -> & Hs2 & Hk2 & Hm2 & Hch); [done|fold raw; rewrite Hw1; nia|]. fold raw in Hs2, Hch |- *.
  assert (action_post (S - Transaction.tx_gas raw * tx_gas_price raw) init s2 sub2 (transact_action (tx_sender t)
    (nonce_of start (world s) (tx_sender t)) init raw out (cache, (s2, sub2))))
    as (cache3 & [s3 sub3] & res & output & E3 & Hs3 & HR & Hsu & Hr & Hfail).
  { assert (tx_value raw ≤ bal (world s2) (tx_sender t)) as Hv.
    { rewrite (cg_bal _ _ _ _ Hch). unfold upd. rewrite decide_True, Hw1 by done. lia. }
    assert (0 ≤ init < 2 ^ 64 ∧ turns_for init ≤ Z.of_nat fuel) as [? ?]
      by (unfold turns_for in *; subst init; lia).
    destruct (tx_action raw) eqn:Ea; [by apply transact_create_ok|by eapply transact_call_ok]. }
  rewrite (tm_bind_ok _ _ _ _ _ E3). pose proof (se_words _ _ Hs (tx_sender t)) as Hsw. unfold is_word in Hsw.
  destruct (transact_finalize_ok S raw init (tx_sender t) res output cache3 s3 sub3)
    as (s4 & sub4 & ex & E4 & Hs4 & Hused & _ & Hex & Hexact); try done; try (subst init; lia).
  exists cache3, s4, sub4, (Ok ex). split; [done|]. split; [done|]. exists ex. split_and!; [done|lia..|].
  intros Hne HS. assert (failed res) as Hf.
  { destruct res as [r|]; [|done]. cbn in Hex |- *. destruct (fr_apply_state r); [|done].
    destruct Hne. by apply Hex. }
  destruct (Hfail Hf) as [Hw3 Hk3]. destruct Hexact as [-> Hpb]; [exact (transitivity Hk2 Hk3)|done|].
  eapply charged_paid in Hpb as [P1 P2 P3 P4]; [|exact Hch|exact Hw3].
  assert (∀ a, nonce_of start (world s1) a = nonce_of start (world s) a) as Hn by (intros a; by rewrite Hw1).
  split; intros a; try intros k; [by rewrite P1, Hw1|by rewrite P2, Hn|by rewrite P3, Hw1|by rewrite P4, Hw1].
Qed.
End Transact.
