(* ===== verification/ChainSpec.v ===== *)
(** * Chain specifications

    The part of a chain specification that the machine depends on: [CommonParams::from] of
    [src/parity-ethereum/ethcore/types/src/engines/params.rs], [Spec::load_machine] of
    [src/parity-ethereum/ethcore/spec/src/spec.rs], and the values of
    [src/parity-ethereum/ethcore/res/ethereum/prism_test.json], the chain of the node.  Reading
    JSON is not modelled. *)

From S2P Require Import Prelude Hash Transaction Account EvmWord Vm Schedule Gasometer VmLaws.
From S2P Require Import Externalities Builtins BuiltinsTheorems ExternalitiesLaws Transact.
From Stdlib Require String.
Import String.StringSyntax.

Delimit Scope string_scope with string.
Bind Scope string_scope with String.string.

Local Open Scope Z_scope.

(** ** Parameters *)

Definition BLOCK_MAX : Z := 2 ^ 64 - 1.

(** [ethjson::spec::Params]. *)
Record SpecParams := mkSpecParams {
  js_network_id : Z;
  js_chain_id : option Z;
  js_eip150_transition : option Z;
  js_eip160_transition : option Z;
  js_eip161abc_transition : option Z;
  js_eip161d_transition : option Z;
  js_eip98_transition : option Z;
  js_eip658_transition : option Z;
  js_validate_receipts_transition : option Z;
  js_eip140_transition : option Z;
  js_eip210_transition : option Z;
  js_eip210_contract_address : option Address;
  js_eip210_contract_gas : option Z;
  js_eip211_transition : option Z;
  js_eip214_transition : option Z;
  js_eip145_transition : option Z;
  js_eip1052_transition : option Z;
  js_eip1283_transition : option Z;
  js_eip1283_disable_transition : option Z;
  js_eip1283_reenable_transition : option Z;
  js_eip1014_transition : option Z;
  js_eip1706_transition : option Z;
  js_eip1344_transition : option Z;
  js_eip1884_transition : option Z;
  js_eip2028_transition : option Z;
  js_eip2200_advance_transition : option Z;
  js_dust_protection_transition : option Z;
  js_remove_dust_contracts : option bool;
  js_wasm_activation_transition : option Z;
  js_wasm_version : option Z;
  js_kip4_transition : option Z;
  js_kip6_transition : option Z;
  js_max_code_size : option Z;
  js_max_code_size_transition : option Z;
}.

(** [CommonParams::from]. *)
Definition params_from (p : SpecParams) : CommonParams :=
  {| chain_id := match js_chain_id p with Some n => n | None => js_network_id p end;
     eip150_transition := default 0 (js_eip150_transition p);
     eip160_transition := default 0 (js_eip160_transition p);
     eip161abc_transition := default 0 (js_eip161abc_transition p);
     eip161d_transition := default 0 (js_eip161d_transition p);
     eip98_transition := default BLOCK_MAX (js_eip98_transition p);
     eip658_transition := default BLOCK_MAX (js_eip658_transition p);
     validate_receipts_transition := default 0 (js_validate_receipts_transition p);
     eip140_transition := default BLOCK_MAX (js_eip140_transition p);
     eip210_transition := default BLOCK_MAX (js_eip210_transition p);
     eip210_contract_address :=
       default (replicate 19 "000"%byte ++ ["240"%byte]) (js_eip210_contract_address p);
     eip210_contract_gas := default 1000000 (js_eip210_contract_gas p);
     eip211_transition := default BLOCK_MAX (js_eip211_transition p);
     eip214_transition := default BLOCK_MAX (js_eip214_transition p);
     eip145_transition := default BLOCK_MAX (js_eip145_transition p);
     eip1052_transition := default BLOCK_MAX (js_eip1052_transition p);
     eip1283_transition := default BLOCK_MAX (js_eip1283_transition p);
     eip1283_disable_transition := default BLOCK_MAX (js_eip1283_disable_transition p);
     eip1283_reenable_transition := default BLOCK_MAX (js_eip1283_reenable_transition p);
     eip1014_transition := default BLOCK_MAX (js_eip1014_transition p);
     eip1706_transition := default BLOCK_MAX (js_eip1706_transition p);
     eip1344_transition := default BLOCK_MAX (js_eip1344_transition p);
     eip1884_transition := default BLOCK_MAX (js_eip1884_transition p);
     eip2028_transition := default BLOCK_MAX (js_eip2028_transition p);
     eip2200_advance_transition := default BLOCK_MAX (js_eip2200_advance_transition p);
     dust_protection_transition := default BLOCK_MAX (js_dust_protection_transition p);
     remove_dust_contracts := default false (js_remove_dust_contracts p);
     wasm_activation_transition := default BLOCK_MAX (js_wasm_activation_transition p);
     wasm_version := js_wasm_version p;
     kip4_transition := default BLOCK_MAX (js_kip4_transition p);
     kip6_transition := default BLOCK_MAX (js_kip6_transition p);
     max_code_size := default (2 ^ 64 - 1) (js_max_code_size p);
     max_code_size_transition := default 0 (js_max_code_size_transition p) |}.

(** ** Machines *)

Section Machine.
Context `{Keccak} `{PublicKeyCrypto} `{BytesRef} `{Digests} `{Bn} (avx2 : bool).

Definition builtin_of (b : NativeBuiltin) : Builtin :=
  mkBuiltin (native_is_active b) (native_cost b) (ethereum_builtin_execute avx2 (native b)).

(** The accounts of a specification that are precompiled contracts. *)
Definition spec_builtins (accounts : gmap Address (option BuiltinCompat)) : gmap Address BuiltinSpec :=
  builtin_spec_from <$> omap id accounts.

(** [convert_json_to_spec] on each of them; one unknown name is an error. *)
Definition convert_builtins (specs : gmap Address BuiltinSpec) : option (gmap Address NativeBuiltin) :=
  let builtins := builtin_try_from <$> specs in
  if bool_decide (map_Forall (λ _ b, is_Some b) builtins) then Some (omap id builtins) else None.

(** [Spec::load_machine] for the engine [Ethash], with its homestead transition. *)
Definition load_machine (accounts : gmap Address (option BuiltinCompat)) (params : SpecParams)
    (homestead : option Z) : option Machine :=
  builtins ← convert_builtins (spec_builtins accounts);
  Some (mkMachine (params_from params) (builtin_of <$> builtins) (Some (default 0 homestead)) None).
End Machine.

(** ** The chain of the node *)

Definition prism_params : SpecParams :=
  {| js_network_id := 1;
     js_chain_id := None;
     js_eip150_transition := Some 0;
     js_eip160_transition := Some 0;
     js_eip161abc_transition := Some 0;
     js_eip161d_transition := Some 0;
     js_eip98_transition := None;
     js_eip658_transition := Some 0;
     js_validate_receipts_transition := None;
     js_eip140_transition := Some 0;
     js_eip210_transition := None;
     js_eip210_contract_address := None;
     js_eip210_contract_gas := None;
     js_eip211_transition := Some 0;
     js_eip214_transition := Some 0;
     js_eip145_transition := Some 0;
     js_eip1052_transition := Some 0;
     js_eip1283_transition := Some 0;
     js_eip1283_disable_transition := None;
     js_eip1283_reenable_transition := None;
     js_eip1014_transition := Some 0;
     js_eip1706_transition := None;
     js_eip1344_transition := None;
     js_eip1884_transition := None;
     js_eip2028_transition := None;
     js_eip2200_advance_transition := None;
     js_dust_protection_transition := None;
     js_remove_dust_contracts := None;
     js_wasm_activation_transition := None;
     js_wasm_version := None;
     js_kip4_transition := None;
     js_kip6_transition := None;
     js_max_code_size := Some 24576;
     js_max_code_size_transition := Some 0 |}.

Definition small_address (n : byte) : Address := replicate 19 "000"%byte ++ [n].

(** The accounts of the file that are precompiled contracts; its other accounts add none. *)
Definition prism_accounts : gmap Address (option BuiltinCompat) :=
  let linear name base word :=
    Some (mkBuiltinCompat name (Single (PriceLinear (mkLinear base word))) None) in
  let const name p p1108 :=
    Some (mkBuiltinCompat name (Multi {[0 := PriceAltBn128Const p;
      0x7fffffffffffff := PriceAltBn128Const p1108]}) None) in
  list_to_map
    [(small_address "001", linear "ecrecover"%string 3000 0);
     (small_address "002", linear "sha256"%string 60 12);
     (small_address "003", linear "ripemd160"%string 600 120);
     (small_address "004", linear "identity"%string 15 3);
     (small_address "005", Some (mkBuiltinCompat "modexp" (Single (PriceModexp 20)) (Some 0)));
     (small_address "006", const "alt_bn128_add"%string 500 150);
     (small_address "007", const "alt_bn128_mul"%string 40000 6000);
     (small_address "008", Some (mkBuiltinCompat "alt_bn128_pairing" (Multi
        {[0 := PriceAltBn128Pairing (mkPairing 100000 80000);
          0x7fffffffffffff := PriceAltBn128Pairing (mkPairing 45000 34000)]}) None))]%byte.

(** *** What it promises *)

#[global] Instance pricing_ok_dec p : Decision (pricing_ok p).
Proof. destruct p; apply _. Defined.

Definition is_modexp_price (p : Pricing) : bool := match p with PriceModexp _ => true | _ => false end.
#[global] Instance ethereum_builtin_eq_dec : EqDecision EthereumBuiltin.
Proof. solve_decision. Defined.

Definition prices_ok (b : NativeBuiltin) : Prop :=
  map_Forall (λ _ p, pricing_ok p ∧ (native b = Modexp → is_modexp_price p = true)) (pricer b).

Lemma prices_ok_native b : prices_ok b → native_ok b.
Proof.
  intros Hb. split; [intros k p Hk; apply (Hb k p Hk)|]. intros k p Hn Hk.
  destruct (Hb k p Hk) as [_ Hp]. specialize (Hp Hn). destruct p; try done. by eexists.
Qed.

Definition prism_natives : gmap Address NativeBuiltin :=
  default ∅ (convert_builtins (spec_builtins prism_accounts)).

Lemma prism_natives_ok : map_Forall (λ _, prices_ok) prism_natives.
Proof. refine (bool_decide_eq_true_1 _ _). vm_cast_no_check (eq_refl true). Qed.

Lemma prism_converts : convert_builtins (spec_builtins prism_accounts) = Some prism_natives.
Proof.
  unfold prism_natives. assert (is_Some (convert_builtins (spec_builtins prism_accounts))) as [m ->]; [|done].
  refine (bool_decide_eq_true_1 _ _). vm_cast_no_check (eq_refl true).
Qed.

Section Prism.
Context `{Keccak} `{PublicKeyCrypto} `{BytesRef} `{!BytesRefLaws} `{Digests} `{!DigestLaws} `{Bn} `{!BnLaws}.
Context (avx2 : bool).

Definition prism_machine : Machine :=
  mkMachine (params_from prism_params) (builtin_of avx2 <$> prism_natives) (Some 0) None.

Lemma load_prism_machine : load_machine avx2 prism_accounts prism_params (Some 0) = Some prism_machine.
Proof. unfold load_machine. by rewrite prism_converts. Qed.

Lemma output_ok_bytes self input out : bytes_ok input → output_ok self input out → bytes_ok out.
Proof.
  unfold bytes_ok. intros Hi. destruct self; cbn [output_ok]; intros Ho; try lia; [by subst|].
  destruct Ho as [->|]; [done|lia].
Qed.

Lemma prism_chain_ok : chain_ok default_info prism_machine (machine_schedule prism_machine 1).
Proof.
  split; [apply params_schedule_ok|reflexivity..| |split; [reflexivity|..]| | | |]; try (cbn; unfold is_word; lia).
  - by split.
  - reflexivity.
  - intros a b data Hb Hd. unfold machine_builtin in Hb. cbn [machine_builtins prism_machine] in Hb.
    rewrite lookup_fmap in Hb. destruct (prism_natives !! a) as [nb|] eqn:Ea; [|done]. cbn in Hb.
    destruct (native_is_active nb 1) eqn:Eact; [|done]. injection Hb as <-.
    apply bool_decide_eq_true in Eact as [p Ep].
    pose proof (prices_ok_native nb (prism_natives_ok a nb Ea)) as Hok.
    destruct (native_runs avx2 nb data 1 p Hok Ep Hd) as (cost & Ec & Hc & Hr).
    exists cost. split_and!; [done..|]. intros Hlt. destruct Hr as (r & Er & Ho); [unfold U256_MAX; lia|].
    exists r. split; [done|]. intros out ->. by eapply output_ok_bytes, Ho.
Qed.
End Prism.
