(* ===== verification/TransactExample.v ===== *)
(** * A node to execute transactions on

    The code that the state database has stays small, and instances of the parameters with a
    state on which the theorems on transactions are evaluated. *)

From S2P Require Import Prelude Hash Transaction Account State World StateInv StateSteps.
From S2P Require Import StateRefine StateCommit StateOps KeyValue Bloom JournalDb JournalTheorems.
From S2P Require Import StateDb StateDbTheorems StateDatabase Vm Evm EvmExample StateExample.
From S2P Require Import StateTheorems Externalities ExecWorld Builtins Transact TransactInv.
From S2P Require Import ChainSpec.

Local Open Scope Z_scope.

(** ** Code *)

Section Codes.
Context `{Keccak} `{!LruCache H256 H256} `{!LruLaws H256 H256} `{TrieDatabase} `{HashOrder}.
Context `{!LruCache Address (option Account)} `{!LruCache H256 (list byte)} `{!LruLaws H256 (list byte)}.
Context `{!SipHash (list byte)} {J : Type} `{!JournalDB J}.
Context `{!DbStep} `{!BackendLaws (B := StateDB (J := J))}.

(** All code of the database and of the cache of code is small. *)
Definition db_codes_ok (b : StateDB (J := J)) : Prop :=
  backend_ok b ∧ (∀ h c, lru_entries (sdb_code_cache b) !! h = Some c → small c) ∧
  ∀ a h c, code_lookup (as_hash_db b) a h = Some c → small c.

Definition db_code_laws : CodeLaws (B := StateDB (J := J)).
Proof.
  refine {| codes_ok := db_codes_ok |}.
  - by intros b [].
  - intros b h code b' (Hb & Hc & Hd) E. destruct (backend_code_get b h code b' Hb E) as (Hb' & [Hdb _] & _).
    cbn in E. unfold sdb_get_cached_code in E. pose proof (lru_entries_get (sdb_code_cache b) h) as Hg.
    pose proof (lru_entries_touch (sdb_code_cache b) h) as Ht. destruct (lru_get (sdb_code_cache b) h) as [r c].
    cbn in Hg, Ht. injection E as <- <-. split.
    + split; [done|]. split; [cbn; by rewrite Ht|]. by rewrite Hdb.
    + intros c' ->. by apply (Hc h).
  - intros b h c (Hb & Hc & Hd) Hk Hs. destruct (backend_code_put b h c Hb Hk) as [Hb' [Hdb _]].
    split; [done|]. split; [|by rewrite Hdb]. cbn. intros h' c' Hl.
    pose proof (lookup_weaken _ _ _ _ Hl (lru_entries_insert (sdb_code_cache b) h c)) as Hi.
    apply lookup_insert_Some in Hi as [[_ <-]|[_ Hi]]; [done|by apply (Hc h')].
  - intros b a h c (_ & _ & Hd). apply Hd.
Defined.
End Codes.

(** ** Instances *)

Definition example_bloom : LogBloom := {|
  bloom_filter := unit; bloom_default := tt; bloom_accrue _ _ := tt; accrue_bloom _ _ := tt;
|}.

(** There is no WebAssembly on the chain. *)
Definition no_wasm (X : Type) (_ : Ext X) (_ : ActionParams) (_ : X) : Outcome (X * Result GasLeft VmError) :=
  Panic.

#[local] Existing Instances example_keccak journal_rlp journal_rlp_decode journal_rlp_laws
  example_memory_db example_memory_laws example_hash_order example_sip_hash example_tries
  example_trie_laws example_trie_reads overlay_journal example_storage_lru example_storage_lru_laws
  example_code_lru example_code_lru_laws example_account_lru StateTheorems.example_laws
  example_crypto example_bytes_ref example_bytes_ref_laws example_digests example_digest_laws example_bn
  example_bn_laws example_bloom example_jump_lru.

#[global] Instance example_codes : CodeLaws (B := StateDB (J := OverlayRecentDB)) := db_code_laws.

Definition example_machine : Machine := prism_machine true.

(** ** A state *)

Lemma example_state_settled : settled 0 0 example_state.
Proof.
  split.
  - split; [exact (new_state_ok _ _ _ example_backend_ok example_db_ok)|]. split.
    + reflexivity.
    + split; [exact example_backend_ok|]. split; [intros h c|intros a h c]; cbn.
      * by rewrite lookup_empty.
      * change (get_codes (sdb_db example_backend) !! (a, h) = Some c → small c).
        assert (get_codes (sdb_db example_backend) = ∅) as -> by (by vm_compute). by rewrite lookup_empty.
    + intros a b. cbn. unfold get_accounts. rewrite decide_True by reflexivity. by rewrite lookup_empty.
    + intros a e acc. cbn. by rewrite lookup_empty.
    + by intros m a e acc ?%elem_of_nil.
  - done.
  - intros a. unfold bal. by rewrite example_state_empty.
  - intros l _. induction l as [|a l IH]; [done|]. cbn. unfold bal at 1. by rewrite example_state_empty.
Qed.

(** An account with a million. *)
Definition example_rich : State (B := StateDB (J := OverlayRecentDB)) :=
  match add_balance example_address 1000000 NoEmpty example_state with
  | Done (s, _) => s
  | Panic => example_state
  end.

Lemma example_rich_settled :
  settled 0 1000000 example_rich ∧ bal (world example_rich) example_address = 1000000.
Proof.
  destruct (pay_ok 0 0 example_state example_address 1000000 NoEmpty example_state_settled ltac:(done))
    as (s & mode & E & Hs & _ & Hb).
  unfold example_rich. rewrite E. split; [exact Hs|]. rewrite Hb. unfold upd. rewrite decide_True by done.
  unfold bal. by rewrite example_state_empty.
Qed.

(** ** Transactions *)

(** A transaction that creates a contract, with a gas price of one. *)
Definition example_create (gas value : Z) (code : list byte) : Transaction :=
  mkTransaction (mkUnverified (mkRawTransaction 0 1 gas Create value code) 0 0 0 (h256 0)) example_address
    None.

Lemma example_create_ok gas value code :
  0 ≤ gas < 2 ^ 64 → 0 ≤ value < 2 ^ 256 → Z.of_nat (length code) < 2 ^ 40 →
  tx_ok (example_create gas value code).
Proof. intros. by split. Qed.

(** The code [INVALID]. *)
Definition example_failing : Transaction := example_create 60000 0 ["254"%byte].

Definition example_fuel : nat := Z.to_nat 240002.
Definition example_cache : SharedCache := lru_new 0.

Definition example_run : Outcome (SharedCache * State (B := StateDB (J := OverlayRecentDB)) *
    Result Executed ExecutionError) :=
  execute no_wasm example_fuel default_info example_machine example_failing false false false
    example_cache example_rich.

Lemma example_run_fails :
  match example_run with
  | Done (_, _, Ok ex) => bool_decide (exception ex ≠ None ∧ gas_used ex = 60000)
  | _ => false
  end = true.
Proof. vm_cast_no_check (eq_refl true). Qed.
