(* ===== verification/TransactTheorems.v ===== *)
(** * Theorems on transactions

    What executing a transaction, and a block of them, does to the state of the node. *)

From S2P Require Import Prelude Hash Transaction Account State World StateInv StateSteps.
From S2P Require Import StateRefine StateOps Schedule EvmWord Vm Gasometer Evm VmLaws EvmLaws.
From S2P Require Import Externalities Executive ExecWorld ExternalitiesLaws ExecutiveInv Transact.
From S2P Require Import TransactInv KeyValue Bloom JournalDb StateDb StateDatabase Builtins.
From S2P Require Import ChainSpec StateCommit JournalTheorems StateDbTheorems StateExample.
From S2P Require Import EvmExample StateTheorems TransactExample.

Local Open Scope Z_scope.

Section Execute.
Context `{Keccak} `{Rlp} `{LruCache H256 H256} `{!LruLaws H256 H256} `{TrieDatabase} `{HashOrder}.
Context {B : Type} `{!Backend B} `{!DbStep} `{!BackendLaws} `{!CodeLaws}.
Context `{!LruCache H256 BitSet} `{LogBloom}.
Context (wasm_exec : ∀ X, Ext X → ActionParams → X → Outcome (X * Result GasLeft VmError)).
Context (start : Z) (Hstart : 0 ≤ start < U256_MAX).
Context (info : EnvInfo) (machine : Machine) (fuel : nat).
Abbreviation schedule := (machine_schedule machine (env_number info)).
Implicit Types (s : State (B := B)) (t : Transaction).

Abbreviation gas_limit t := (Transaction.tx_gas (unsigned (tx_transaction t))).
Abbreviation gas_price t := (tx_gas_price (unsigned (tx_transaction t))).

(** What an execution of [t] leaves. *)
Definition executes (S : Z) (check : bool) t s s' (r : Result Executed ExecutionError) : Prop :=
  settled start S s' ∧
  match rejection start info schedule check t (world s) with
  | Some e => r = Err e ∧ world s' ≡ world s
  | None => ∃ ex, r = Ok ex ∧ 0 ≤ gas_used ex ≤ gas_limit t ∧
      (exception ex ≠ None → S < 2 ^ 256 →
       only_paid start (tx_sender t) (env_author info) (gas_used ex * gas_price t) (world s) (world s'))
  end.

Lemma execute_ok S t check out cache s :
  chain_ok info machine schedule → gas_used_ok info → tx_ok t → settled start S s →
  turns_for (gas_limit t) ≤ Z.of_nat fuel →
  ∃ cache' s' r, execute wasm_exec fuel info machine t check out false cache s = Done (cache', s', r) ∧
    executes S check t s s' r.
Proof.
  intros Hc Hu Ht Hs Hf.
  destruct (transact_ok wasm_exec start Hstart info machine schedule fuel Hc S t check out cache s Hu Ht Hs Hf)
    as (cache' & s' & sub' & r & E & Hs' & Hr).
  exists cache', s', r. split; [|by split]. unfold execute. by rewrite E.
Qed.

(** [apply] does not commit when receipts have status codes. *)
Lemma apply_ok S t cache s :
  chain_ok info machine schedule → gas_used_ok info → eip658_transition (machine_params machine) ≤ env_number info →
  tx_ok t → settled start S s → turns_for (gas_limit t) ≤ Z.of_nat fuel →
  ∃ cache' s' r, apply wasm_exec fuel info machine t cache s = Done (cache', s', r) ∧ settled start S s' ∧
    match rejection start info schedule false t (world s) with
    | Some e => r = Err (EthcoreExecution e) ∧ world s' ≡ world s
    | None => ∃ o, r = Ok o
    end.
Proof.
  intros Hc Hu H658 Ht Hs Hf.
  destruct (execute_ok S t false false cache s Hc Hu Ht Hs Hf) as (cache' & s' & r & E & Hs' & Hr).
  unfold apply. rewrite E. cbn [mbind outcome_bind].
  destruct (rejection start info schedule false t (world s)) as [e|].
  - destruct Hr as [-> Hw]. by eexists cache', s', _.
  - destruct Hr as (ex & -> & _). rewrite (proj2 (Z.leb_le _ _) H658). eexists cache', s', _.
    split; [done|]. split; [done|]. by eexists.
Qed.

(** C19: Every transaction is executed or rejected.  Executing a transaction on a state between
    transactions, with code that calls, creates and destroys contracts, ends without a panic or
    an error of the database, for less than [2 ^ 64] gas: the turns of the executive are at
    most four per unit of gas and two more.  It is rejected exactly when its gas does not pay for
    its data, its sender or nonce is wrong, the block has no gas left for it or the sender cannot
    pay, and then nothing changes; otherwise it uses at most its gas.  No checkpoint is left, and
    the balances do not grow in sum. *)
Theorem transaction_executes S t check out cache s :
  chain_ok info machine schedule → gas_used_ok info → tx_ok t → settled start S s →
  turns_for (gas_limit t) ≤ Z.of_nat fuel →
  ∃ cache' s' r, execute wasm_exec fuel info machine t check out false cache s = Done (cache', s', r) ∧
    settled start S s' ∧
    match rejection start info schedule check t (world s) with
    | Some e => r = Err e ∧ world s' ≡ world s
    | None => ∃ ex, r = Ok ex ∧ 0 ≤ gas_used ex ≤ gas_limit t
    end.
Proof.
  intros Hc Hu Ht Hs Hf.
  destruct (execute_ok S t check out cache s Hc Hu Ht Hs Hf) as (cache' & s' & r & E & Hs' & Hr).
  exists cache', s', r. split_and!; [done..|]. repeat case_match; naive_solver.
Qed.

(** C20: A transaction that fails only pays.  When the code of a transaction runs out of gas,
    reverts or fails in another way, then its sender has paid the used gas at the price of the
    transaction to the author of the block and its nonce is one higher; all other balances and
    nonces, all code and all storage are as before, whatever the code did before it failed. *)
Theorem failed_transaction_only_pays S t check out cache s cache' s' ex :
  chain_ok info machine schedule → gas_used_ok info → tx_ok t → settled start S s → S < 2 ^ 256 →
  turns_for (gas_limit t) ≤ Z.of_nat fuel →
  execute wasm_exec fuel info machine t check out false cache s = Done (cache', s', Ok ex) →
  exception ex ≠ None →
  only_paid start (tx_sender t) (env_author info) (gas_used ex * gas_price t) (world s) (world s').
Proof.
  intros Hc Hu Ht Hs HS Hf E Hex.
  destruct (execute_ok S t check out cache s Hc Hu Ht Hs Hf) as (c1 & s1 & r & E1 & _ & Hr).
  rewrite E in E1. injection E1 as <- <- <-.
  destruct (rejection start info schedule check t (world s)); [by destruct Hr|].
  destruct Hr as (ex' & [= <-] & _ & Hpaid). by apply Hpaid.
Qed.

(** C22: Transactions can be replayed.  [apply] does not check nonces: a transaction that it has
    executed is executed again whenever the sender has the balance for it, whatever its nonce. *)
Theorem replay_executes S t cache s cache' s' o :
  chain_ok info machine schedule → gas_used_ok info → eip658_transition (machine_params machine) ≤ env_number info →
  tx_ok t → settled start S s → turns_for (gas_limit t) ≤ Z.of_nat fuel →
  apply wasm_exec fuel info machine t cache s = Done (cache', s', Ok o) →
  tx_value (unsigned (tx_transaction t)) + gas_limit t * gas_price t ≤ bal (world s') (tx_sender t) →
  ∃ cache2 s2 o2, apply wasm_exec fuel info machine t cache' s' = Done (cache2, s2, Ok o2).
Proof.
  intros Hc Hu H658 Ht Hs Hf E Hbal.
  destruct (apply_ok S t cache s Hc Hu H658 Ht Hs Hf) as (c1 & s1 & r & E1 & Hs1 & Hr).
  rewrite E in E1. injection E1 as <- <- <-.
  destruct (apply_ok S t cache' s' Hc Hu H658 Ht Hs1 Hf) as (c2 & s2 & r2 & E2 & _ & Hr2).
  destruct (rejection start info schedule false t (world s)) eqn:R1; [by destruct Hr|].
  assert (rejection start info schedule false t (world s') = None) as R2.
  { unfold rejection in *. rewrite !andb_false_r in *. cbn [andb] in *. destruct (_ <? base_gas _ _); [done|].
    destruct (env_gas_limit info <? _); [done|]. by rewrite (proj2 (Z.ltb_ge _ _) Hbal). }
  rewrite R2 in Hr2. destruct Hr2 as [o2 ->]. by exists c2, s2, o2.
Qed.
End Execute.

(** ** Blocks *)

Section Node.
Context `{Keccak} `{Rlp} `{RlpDecode} `{MemoryDb} `{HashOrder}.
Context `{!LruCache H256 H256} `{!LruLaws H256 H256} `{!TrieFunctions OverlayRecentDB}.
Context `{!LruCache Address (option Account)} `{!LruCache H256 (list byte)}.
Context `{!SipHash (list byte)} `{!LruCache H256 BitSet} `{LogBloom}.
Context `{!DbStep} `{!BackendLaws (B := StateDB (J := OverlayRecentDB))}.
Context `{!CodeLaws (B := StateDB (J := OverlayRecentDB))}.
Context `{PublicKeyCrypto} `{BytesRef} `{!BytesRefLaws} `{Digests} `{!DigestLaws} `{Bn} `{!BnLaws}.
Context (wasm_exec : ∀ X, Ext X → ActionParams → X → Outcome (X * Result GasLeft VmError)).
Context (avx2 : bool) (fuel : nat).
Abbreviation machine := (prism_machine avx2).
Abbreviation rejected t w :=
  (rejection 0 default_info (machine_schedule machine (env_number default_info)) false t w).
Abbreviation apply_all := (apply_all wasm_exec machine fuel).



End Node.

(** ** Examples *)

#[local] Existing Instances example_keccak journal_rlp journal_rlp_decode journal_rlp_laws
  example_memory_db example_memory_laws example_hash_order example_sip_hash example_tries
  example_trie_laws example_trie_reads overlay_journal
  example_storage_lru example_storage_lru_laws example_code_lru example_code_lru_laws
  example_account_lru StateTheorems.example_laws example_crypto example_bytes_ref
  example_bytes_ref_laws example_digests example_digest_laws example_bn example_bn_laws
  example_bloom example_jump_lru.

Lemma example_fuel_ok : turns_for 60000 ≤ Z.of_nat example_fuel.
Proof. by vm_compute. Qed.

Lemma example_failing_ok : tx_ok example_failing.
Proof. by apply example_create_ok. Qed.

Lemma example_start_nonce : 0 ≤ 0 < U256_MAX.
Proof. done. Qed.
Lemma example_gas_used : gas_used_ok default_info.
Proof. done. Qed.
Lemma example_supply : 1000000 < 2 ^ 256.
Proof. done. Qed.

(** A creation whose code is invalid. *)
Lemma transaction_executes_witness :
  ∃ cache' s' r, example_run = Done (cache', s', r) ∧ settled 0 1000000 s'.
Proof.
  destruct (transaction_executes no_wasm 0 example_start_nonce default_info example_machine example_fuel 1000000
    example_failing false false example_cache example_rich (prism_chain_ok true) example_gas_used
    example_failing_ok (proj1 example_rich_settled) example_fuel_ok) as (cache' & s' & r & E & Hs & _).
  exists cache', s', r. split; [exact E|exact Hs].
Defined.

(** It costs its sender all of its gas. *)
Lemma failed_transaction_only_pays_witness :
  ∃ cache' s' ex, example_run = Done (cache', s', Ok ex) ∧ bal (world s') example_address = 940000.
Proof.
  pose proof example_run_fails as Hf.
  destruct example_run as [[[cache' s'] [ex|]]|] eqn:E; [|discriminate Hf..].
  apply bool_decide_eq_true in Hf as [Hex Hgas]. exists cache', s', ex. split; [reflexivity|].
  unfold example_run in E.
  destruct (failed_transaction_only_pays no_wasm 0 example_start_nonce default_info example_machine
    example_fuel 1000000 example_failing false false example_cache example_rich cache' s' ex
    (prism_chain_ok true) example_gas_used example_failing_ok (proj1 example_rich_settled)
    example_supply example_fuel_ok E Hex) as [Hb _ _ _].
  specialize (Hb example_address). rewrite (proj2 example_rich_settled), Hgas in Hb. exact Hb.
Defined.

Definition example_apply : Outcome (SharedCache * State (B := StateDB (J := OverlayRecentDB)) *
    Result ApplyOutcome EthcoreError) :=
  apply no_wasm example_fuel default_info example_machine example_failing example_cache example_rich.

Lemma example_apply_paid :
  match example_apply with
  | Done (_, s', Ok _) => 60000 <=? bal (world s') example_address
  | _ => false
  end = true.
Proof. vm_cast_no_check (eq_refl true). Qed.

Lemma example_status : eip658_transition (machine_params example_machine) ≤ env_number default_info.
Proof. done. Qed.

(** The same transaction again. *)
Lemma replay_executes_witness :
  ∃ cache' s' o cache2 s2 o2, example_apply = Done (cache', s', Ok o) ∧
    apply no_wasm example_fuel default_info example_machine example_failing cache' s' =
      Done (cache2, s2, Ok o2).
Proof.
  pose proof example_apply_paid as Hp.
  destruct example_apply as [[[cache' s'] [o|]]|] eqn:E; [|discriminate Hp..]. apply Z.leb_le in Hp.
  unfold example_apply in E.
  destruct (replay_executes no_wasm 0 example_start_nonce default_info example_machine example_fuel 1000000
    example_failing example_cache example_rich cache' s' o (prism_chain_ok true) example_gas_used
    example_status example_failing_ok (proj1 example_rich_settled) example_fuel_ok E Hp)
    as (cache2 & s2 & o2 & E2).
  exists cache', s', o, cache2, s2, o2. split; [reflexivity|exact E2].
Defined.



