(* ===== verification/Admission.v ===== *)
(** * Concurrent workers take in a block once

    [src/src/network/worker.rs], lines 186-221.  Workers run at the same time, and other
    workers come between the pieces of [admit_block]: registering a block in
    [recent_blocks], looking it up in the database, storing it, and releasing it.  The
    comment in the source says that a hash is always in one of the two, so that there is
    not a single duplicate; this is proved here for any number of workers and any
    interleaving, as well as that no block is lost. *)

From S2P Require Import Prelude Hash Float Transaction Mempool Config Block Buffer BlockDb Store.
From S2P Require Import Chain Miner Validation Worker.

(** Where a worker is with its block. *)
Inductive Phase := Received | Registered | Absent | Present | Stored.
#[global] Instance Phase_eq_dec : EqDecision Phase.
Proof. solve_decision. Defined.

Record Admission := mkAdmission {
  am_shared : Shared;
  am_workers : gmap nat (Phase * Block);
  am_received : list Block;
  am_admitted : list Block;
}.

Section Admission.
Context `{Keccak, BincodeHeader, BincodeBlock}.

Inductive admit_step : Admission → Admission → Prop :=
| am_receive sh w rs bs t b :
    w !! t = None →
    admit_step (mkAdmission sh w rs bs) (mkAdmission sh (<[t := (Received, b)]> w) (b :: rs) bs)
| am_skip sh w rs bs t b :
    w !! t = Some (Received, b) → register (hash b) sh = None →
    admit_step (mkAdmission sh w rs bs) (mkAdmission sh (delete t w) rs bs)
| am_register sh w rs bs t b sh' :
    w !! t = Some (Received, b) → register (hash b) sh = Some sh' →
    admit_step (mkAdmission sh w rs bs) (mkAdmission sh' (<[t := (Registered, b)]> w) rs bs)
| am_lookup sh w rs bs t b :
    w !! t = Some (Registered, b) →
    admit_step (mkAdmission sh w rs bs)
      (mkAdmission sh (<[t := (if is_stored (hash b) sh then Present else Absent, b)]> w) rs bs)
| am_drop sh w rs bs t b :
    w !! t = Some (Present, b) →
    admit_step (mkAdmission sh w rs bs) (mkAdmission (release (hash b) sh) (delete t w) rs bs)
| am_store sh w rs bs t b raw :
    w !! t = Some (Absent, b) → deserialize raw = Some b →
    admit_step (mkAdmission sh w rs bs)
      (mkAdmission (store_block (hash b) raw sh) (<[t := (Stored, b)]> w) rs bs)
| am_finish sh w rs bs t b :
    w !! t = Some (Stored, b) →
    admit_step (mkAdmission sh w rs bs)
      (mkAdmission (release (hash b) sh) (delete t w) rs (b :: bs)).

(** A worker that has registered its block. *)
Definition active (w : gmap nat (Phase * Block)) (t : nat) (h : H256) : Prop :=
  ∃ ph b, w !! t = Some (ph, b) ∧ ph ≠ Received ∧ hash b = h.
Definition at_phase (w : gmap nat (Phase * Block)) (ph : Phase) (h : H256) : Prop :=
  ∃ t b, w !! t = Some (ph, b) ∧ hash b = h.

(** The phases of the workers against the database, [stored0] at the start and [stored]
    now, and the blocks that have been admitted. *)
Record phase_inv (stored0 stored : H256 → bool) (P : Phase → H256 → Prop)
    (admitted : list H256) : Prop := {
  pv_stored h : stored h = true ↔ stored0 h = true ∨ h ∈ admitted ∨ P Stored h;
  pv_absent h : P Absent h → stored h = false;
  pv_present h : P Present h → stored h = true;
  pv_new h : h ∈ admitted ∨ P Stored h → stored0 h = false;
  pv_fresh h : P Stored h → h ∉ admitted;
  pv_nodup : NoDup admitted;
}.

Record admission_inv (stored0 : H256 → bool) (A : Admission) : Prop := {
  ai_recent h : h ∈ recent_blocks (am_shared A) ↔ ∃ t, active (am_workers A) t h;
  ai_one t t' h : active (am_workers A) t h → active (am_workers A) t' h → t = t';
  ai_phases : phase_inv stored0 (λ h, is_stored h (am_shared A)) (at_phase (am_workers A))
    (hash <$> am_admitted A);
  ai_received b : b ∈ am_received A →
    stored0 (hash b) = true ∨ hash b ∈ hash <$> am_admitted A ∨
    ∃ ph, at_phase (am_workers A) ph (hash b);
}.

Lemma phase_inv_ext stored0 stored P P' admitted :
  (∀ ph h, ph ≠ Received ∧ ph ≠ Registered → P' ph h ↔ P ph h) →
  phase_inv stored0 stored P admitted → phase_inv stored0 stored P' admitted.
Proof.
  intros He []. split; try done; intros h; rewrite ?(He Stored), ?(He Absent), ?(He Present) by done; auto.
Qed.

(** *** The state of one worker changes *)

Lemma at_phase_insert w t ph b ph' h :
  at_phase (<[t := (ph, b)]> w) ph' h ↔
  (ph' = ph ∧ hash b = h) ∨ at_phase (delete t w) ph' h.
Proof.
  unfold at_phase. setoid_rewrite lookup_insert_Some. setoid_rewrite lookup_delete_Some.
  split; [naive_solver|]. intros [[-> <-]|(t' & b' & [? ?] & ?)]; eauto 10.
Qed.

Lemma at_phase_split w t ph b ph' h :
  w !! t = Some (ph, b) →
  at_phase w ph' h ↔ (ph' = ph ∧ hash b = h) ∨ at_phase (delete t w) ph' h.
Proof.
  intros Ht. rewrite <- at_phase_insert. by rewrite insert_id.
Qed.

Lemma active_insert w t ph b t' h :
  active (<[t := (ph, b)]> w) t' h ↔
  (t' = t ∧ ph ≠ Received ∧ hash b = h) ∨ (t' ≠ t ∧ active w t' h).
Proof.
  unfold active. setoid_rewrite lookup_insert_Some. split.
  - intros (ph' & b' & [[-> [= <- <-]]|[Hne Hw]] & ? & ?); [by left|right]. eauto 10.
  - intros [(-> & ? & ?)|(Hne & ph' & b' & Hw & ? & ?)]; eauto 10.
Qed.

Lemma active_delete w t t' h : active (delete t w) t' h ↔ t' ≠ t ∧ active w t' h.
Proof. unfold active. setoid_rewrite lookup_delete_Some. naive_solver. Qed.

Lemma is_stored_store h raw sh k :
  is_stored k (store_block h raw sh) = true ↔ k = h ∨ is_stored k sh = true.
Proof.
  unfold is_stored, store_block, blockdb_contains. cbn.
  destruct (decide (k = h)) as [->|Hne]; [rewrite lookup_insert_eq; naive_solver|].
  rewrite lookup_insert_ne by done. naive_solver.
Qed.

Lemma active_split w t ph b t' h :
  w !! t = Some (ph, b) →
  active w t' h ↔ (t' = t ∧ ph ≠ Received ∧ hash b = h) ∨ (t' ≠ t ∧ active w t' h).
Proof. intros Ht. rewrite <- (insert_id w t (ph, b)) at 1 by done. apply active_insert. Qed.

(** The other workers that are at a phase are active, and the other active workers have
    other blocks. *)
Lemma others_active w t ph h :
  at_phase (delete t w) ph h → ph ≠ Received → ∃ t', t' ≠ t ∧ active w t' h.
Proof.
  intros (t' & b & [Hne Hw]%lookup_delete_Some & <-) Hph. exists t'. split; [done|].
  by exists ph, b.
Qed.

Lemma others_differ stored0 A t ph b :
  admission_inv stored0 A → am_workers A !! t = Some (ph, b) → ph ≠ Received →
  ∀ ph', ph' ≠ Received → ¬ at_phase (delete t (am_workers A)) ph' (hash b).
Proof.
  intros Hi Ht Hph ph' Hph' (t' & Hne & Ha)%others_active; [|done]. apply Hne.
  eapply (ai_one _ _ Hi); [done|]. by exists ph, b.
Qed.

(** A step between two registered phases, or of a worker that has not registered, leaves
    the active workers; a step that keeps the worker keeps its block. *)
Lemma active_same w t ph ph' b t' h :
  w !! t = Some (ph, b) → ph ≠ Received → ph' ≠ Received →
  active (<[t := (ph', b)]> w) t' h ↔ active w t' h.
Proof. intros Ht ? ?. rewrite active_insert, (active_split w t ph b t' h Ht). tauto. Qed.

Lemma active_idle w t t' h :
  (∀ ph b, w !! t = Some (ph, b) → ph = Received) → t' ≠ t ∧ active w t' h ↔ active w t' h.
Proof.
  intros Ht. split; [tauto|]. intros Ha. split; [|done]. intros ->.
  destruct Ha as (ph & b & Hw & Hn & _). by apply Hn, (Ht ph b).
Qed.

Lemma any_phase_same w t ph ph' b h :
  w !! t = Some (ph, b) →
  (∃ x, at_phase w x h) → ∃ x, at_phase (<[t := (ph', b)]> w) x h.
Proof.
  intros Ht [x Hx]. setoid_rewrite at_phase_insert.
  apply (at_phase_split w t ph b x h Ht) in Hx as [[_ ?]|?]; eauto.
Qed.

Section Inv.
Context (stored0 : H256 → bool).
Abbreviation inv := (admission_inv stored0).

Lemma receive_inv sh w rs bs t b :
  inv (mkAdmission sh w rs bs) → w !! t = None →
  inv (mkAdmission sh (<[t := (Received, b)]> w) (b :: rs) bs).
Proof.
  intros [Hre Hone Hph Hrc] Ht. cbn in *.
  assert (∀ t' h, active (<[t := (Received, b)]> w) t' h ↔ active w t' h) as Hact.
  { intros t' h. rewrite active_insert, active_idle by congruence. tauto. }
  split; cbn.
  - intros h. rewrite Hre. by setoid_rewrite Hact.
  - intros t1 t2 h. rewrite !Hact. apply Hone.
  - eapply phase_inv_ext; [|exact Hph]. intros ph h [? _].
    rewrite at_phase_insert, delete_id by done. tauto.
  - intros b' [->|Hb]%elem_of_cons.
    + right. right. exists Received. apply at_phase_insert. by left.
    + destruct (Hrc b' Hb) as [?|[?|[ph Hp]]]; [tauto..|]. right. right. exists ph.
      rewrite at_phase_insert, delete_id by done. by right.
Qed.

Lemma skip_inv sh w rs bs t b :
  inv (mkAdmission sh w rs bs) → w !! t = Some (Received, b) → register (hash b) sh = None →
  inv (mkAdmission sh (delete t w) rs bs).
Proof.
  intros [Hre Hone Hph Hrc] Ht Hr. cbn in *. unfold register in Hr. case_decide as Hin; [clear Hr|done].
  assert (∀ t' h, active (delete t w) t' h ↔ active w t' h) as Hact.
  { intros t' h. rewrite active_delete. apply active_idle. congruence. }
  split; cbn.
  - intros h. rewrite Hre. by setoid_rewrite Hact.
  - intros t1 t2 h. rewrite !Hact. apply Hone.
  - eapply phase_inv_ext; [|exact Hph]. intros ph h [? _].
    rewrite (at_phase_split w t _ b ph h Ht). tauto.
  - intros b' Hb. destruct (Hrc b' Hb) as [?|[?|[ph Hp]]]; [tauto..|]. right. right.
    apply (at_phase_split w t _ b ph _ Ht) in Hp as [[_ <-]|Hp]; [|by exists ph].
    apply Hre in Hin as (t' & ph' & x & Hx & Hph' & Ex). exists ph', t', x. split; [|done].
    rewrite lookup_delete_ne; [done|]. congruence.
Qed.

Lemma register_inv sh w rs bs t b sh' :
  inv (mkAdmission sh w rs bs) → w !! t = Some (Received, b) → register (hash b) sh = Some sh' →
  inv (mkAdmission sh' (<[t := (Registered, b)]> w) rs bs).
Proof.
  intros [Hre Hone Hph Hrc] Ht Hr. cbn in *.
  unfold register in Hr. case_decide as Hin; [done|]. injection Hr as <-.
  assert (∀ t', ¬ active w t' (hash b)) as Hfree by (intros t' Ht'; apply Hin, Hre; eauto).
  assert (∀ t' h, active (<[t := (Registered, b)]> w) t' h ↔ (t' = t ∧ hash b = h) ∨ active w t' h) as Hact.
  { intros t' h. rewrite active_insert, active_idle by congruence. intuition congruence. }
  split; cbn.
  - intros h. rewrite elem_of_union, elem_of_singleton, Hre. setoid_rewrite Hact. split.
    + intros [->|[t' ?]]; eauto.
    + intros (t' & [[_ ?]|?]); eauto.
  - intros t1 t2 h. rewrite !Hact. intros [[-> <-]|Ha1] [[-> E]|Ha2]; [done| | |by eapply Hone].
    + by destruct (Hfree t2).
    + destruct (Hfree t1). by rewrite E.
  - eapply phase_inv_ext; [|exact Hph]. intros ph h [? ?].
    rewrite at_phase_insert, (at_phase_split w t _ b ph h Ht). tauto.
  - intros b' Hb. destruct (Hrc b' Hb) as [?|[?|Hp]]; [tauto..|].
    right. right. by eapply any_phase_same.
Qed.

(** A step of a registered worker that keeps its block. *)
Lemma registered_step sh sh' w rs bs t ph ph' b :
  inv (mkAdmission sh w rs bs) → w !! t = Some (ph, b) → ph ≠ Received → ph' ≠ Received →
  recent_blocks sh' = recent_blocks sh →
  phase_inv stored0 (λ h, is_stored h sh') (at_phase (<[t := (ph', b)]> w)) (hash <$> bs) →
  inv (mkAdmission sh' (<[t := (ph', b)]> w) rs bs).
Proof.
  intros [Hre Hone Hph Hrc] Ht Hp Hp' Er Hnew. cbn in *.
  pose proof (λ t' h, active_same w t ph ph' b t' h Ht Hp Hp') as Hact. split; cbn; [..|done|].
  - intros h. rewrite Er, Hre. by setoid_rewrite Hact.
  - intros t1 t2 h. rewrite !Hact. apply Hone.
  - intros b' Hb. destruct (Hrc b' Hb) as [?|[?|Hx]]; [tauto..|].
    right. right. by eapply any_phase_same.
Qed.

(** A registered worker releases its block. *)
Lemma release_step sh w rs bs bs' t ph b :
  inv (mkAdmission sh w rs bs) → w !! t = Some (ph, b) → ph ≠ Received →
  phase_inv stored0 (λ h, is_stored h sh) (at_phase (delete t w)) (hash <$> bs') →
  (hash b ∈ hash <$> bs' ∨ stored0 (hash b) = true) →
  (∀ h, h ∈ hash <$> bs → h ∈ hash <$> bs') →
  inv (mkAdmission (release (hash b) sh) (delete t w) rs bs').
Proof.
  intros Hi Ht Hp Hnew Hb Hsub. pose proof Hi as [Hre Hone Hph Hrc]. cbn in *.
  split; cbn; [| |exact Hnew|].
  - intros h. unfold set_remove. rewrite elem_of_difference, elem_of_singleton, Hre.
    setoid_rewrite active_delete. split.
    + intros [(t' & ph' & x & Hx & ? & <-) Hne]. exists t'. split; [congruence|]. by exists ph', x.
    + intros (t' & Hne & Ha). split; [by exists t'|]. intros ->. apply Hne.
      apply (Hone _ _ (hash b)); [done|]. by exists ph, b.
  - intros t1 t2 h. rewrite !active_delete. intros [_ ?] [_ ?]. by eapply Hone.
  - intros b' Hb'. destruct (Hrc b' Hb') as [?|[?|[x Hx]]]; [tauto|auto|].
    apply (at_phase_split w t ph b x _ Ht) in Hx as [[_ <-]|Hx]; [tauto|]. right. right. by exists x.
Qed.

(** The phases when one worker, with the block [hb], goes on; [O] are those of the others. *)
Section Phases.
Context (stored : H256 → bool) (O : Phase → H256 → Prop) (adm : list H256) (hb : H256).
Hypothesis Hod : ∀ ph, ph ≠ Received → ¬ O ph hb.

Definition with_phase (ph : Phase) : Phase → H256 → Prop :=
  λ ph' h, (ph' = ph ∧ hb = h) ∨ O ph' h.

Lemma with_phase_other ph ph' h : ph' ≠ ph → with_phase ph ph' h ↔ O ph' h.
Proof. unfold with_phase. tauto. Qed.

Lemma phases_lookup :
  phase_inv stored0 stored (with_phase Registered) adm →
  phase_inv stored0 stored (with_phase (if stored hb then Present else Absent)) adm.
Proof.
  intros [Hs Ha Hp Hn Hfr Hnd].
  assert (∀ h, with_phase (if stored hb then Present else Absent) Stored h ↔
    with_phase Registered Stored h) as E.
  { intros h. by rewrite !with_phase_other by (done || by destruct (stored hb)). }
  split; try done.
  - intros h. by rewrite E.
  - intros h [[Hx <-]|Hh]; [by destruct (stored hb)|]. apply Ha. by right.
  - intros h [[Hx <-]|Hh]; [by destruct (stored hb)|]. apply Hp. by right.
  - intros h. rewrite E. apply Hn.
  - intros h. rewrite E. apply Hfr.
Qed.

Lemma phases_store stored' :
  (∀ h, stored' h = true ↔ h = hb ∨ stored h = true) →
  phase_inv stored0 stored (with_phase Absent) adm →
  phase_inv stored0 stored' (with_phase Stored) adm.
Proof.
  intros Hst [Hs Ha Hp Hn Hfr Hnd].
  assert (stored hb = false) as Hb0 by (apply Ha; by left).
  assert (stored0 hb = false ∧ hb ∉ adm) as [Hb1 Hb2].
  { split; [apply not_true_is_false|]; intros Hx; assert (stored hb = true) by (apply Hs; tauto); congruence. }
  split; [| | | | |done].
  - intros h. rewrite Hst, Hs, (with_phase_other Absent) by done. unfold with_phase. intuition congruence.
  - intros h [[? _]|Hh]; [done|]. apply not_true_is_false. rewrite Hst. intros [->|Hx].
    + by apply (Hod Absent).
    + rewrite Ha in Hx; [done|by right].
  - intros h [[? _]|Hh]; [done|]. apply Hst. right. apply Hp. by right.
  - intros h [Hh|[[_ <-]|Hh]]; [apply Hn; by left|done|apply Hn; by right; right].
  - intros h [[_ <-]|Hh]; [done|]. apply Hfr. by right.
Qed.

Lemma phases_finish :
  phase_inv stored0 stored (with_phase Stored) adm → phase_inv stored0 stored O (hb :: adm).
Proof.
  intros [Hs Ha Hp Hn Hfr Hnd]. split.
  - intros h. rewrite Hs, elem_of_cons. unfold with_phase. intuition congruence.
  - intros h Hh. apply Ha. by right.
  - intros h Hh. apply Hp. by right.
  - intros h. rewrite elem_of_cons. intros Hh. apply Hn. unfold with_phase. intuition congruence.
  - intros h Hh [->|Hin]%elem_of_cons; [by apply (Hod Stored)|]. by apply (Hfr h); [right|].
  - apply NoDup_cons. split; [|done]. apply Hfr. by left.
Qed.

Lemma phases_drop :
  phase_inv stored0 stored (with_phase Present) adm →
  phase_inv stored0 stored O adm ∧ (hb ∈ adm ∨ stored0 hb = true).
Proof.
  intros [Hs Ha Hp Hn Hfr Hnd]. split.
  - split; [| | | | |done]; intros h; rewrite <- ?(with_phase_other Present Stored) by done; auto.
    + intros Hh. apply Ha. by right.
    + intros Hh. apply Hp. by right.
  - assert (stored hb = true) as Hb by (apply Hp; by left).
    apply Hs in Hb as [?|[?|[[? _]|Hx]]]; [tauto..|done|]. by apply Hod in Hx.
Qed.
End Phases.

Lemma admit_step_inv A A' : inv A → admit_step A A' → inv A'.
Proof.
  intros Hi Hstep. destruct Hstep as [sh w rs bs t b Ht|sh w rs bs t b Ht Hr|
    sh w rs bs t b sh' Ht Hr|sh w rs bs t b Ht|sh w rs bs t b Ht|sh w rs bs t b raw Ht Hd|
    sh w rs bs t b Ht]; [by apply receive_inv|by eapply skip_inv|by eapply register_inv|..];
    pose proof (others_differ _ _ t _ b Hi Ht ltac:(done)) as Hod;
    pose proof (phase_inv_ext _ _ _ (with_phase (at_phase (delete t w)) (hash b) _) _
      (λ ph h _, iff_sym (at_phase_split w t _ b ph h Ht)) (ai_phases _ _ Hi)) as Hph;
    cbn [am_shared am_workers am_received am_admitted] in *.
  - eapply registered_step; [exact Hi|exact Ht|done|by destruct (is_stored _ _)|done|].
    eapply phase_inv_ext; [intros ph h _; apply at_phase_insert|]. by apply phases_lookup.
  - destruct (phases_drop _ _ _ _ Hod Hph) as [Hnew Hb].
    by eapply release_step; [exact Hi|exact Ht|..].
  - eapply registered_step; [exact Hi|exact Ht|done..|].
    eapply phase_inv_ext; [intros ph h _; apply at_phase_insert|].
    eapply phases_store; [exact Hod| |exact Hph]. intros h. apply is_stored_store.
  - eapply release_step; [exact Hi|exact Ht|done|by eapply phases_finish|left; left|].
    intros h Hh. by right.
Qed.

Lemma admission_start_inv sh0 :
  stored0 = (λ h, is_stored h sh0) → recent_blocks sh0 = ∅ → inv (mkAdmission sh0 ∅ [] []).
Proof.
  intros -> Hr. assert (∀ ph h, ¬ at_phase ∅ ph h) as Hno.
  { intros ph h (t & b & Ht & _). by rewrite lookup_empty in Ht. }
  split; cbn.
  - intros h. rewrite Hr. split; [set_solver|]. intros (t & ph & b & Ht & _).
    by rewrite lookup_empty in Ht.
  - intros t t' h (ph & b & Ht & _). by rewrite lookup_empty in Ht.
  - split; [| | | | |constructor]; intros h; try by intros ?%Hno.
    + split; [tauto|]. by intros [?|[?%not_elem_of_nil|?%Hno]].
    + by intros [?%not_elem_of_nil|?%Hno].
  - intros b Hb. by apply not_elem_of_nil in Hb.
Qed.
End Inv.

(** C13: However many workers take in blocks at the same time, and however their steps
    interleave, a hash is taken in at most once, and only if it was not in the database at
    the start; and when all workers are idle, every block that was received and was not in
    the database has been taken in by one of them. *)
Theorem admission_exactly_once (sh0 : Shared) (A : Admission) :
  recent_blocks sh0 = ∅ → rtc admit_step (mkAdmission sh0 ∅ [] []) A →
  NoDup (hash <$> am_admitted A) ∧
  (∀ b, b ∈ am_admitted A → is_stored (hash b) sh0 = false ∧
    is_stored (hash b) (am_shared A) = true) ∧
  (am_workers A = ∅ → ∀ b, b ∈ am_received A →
    is_stored (hash b) sh0 = true ∨ hash b ∈ hash <$> am_admitted A).
Proof.
  intros Hr Hrtc. assert (admission_inv (λ h, is_stored h sh0) A) as [_ _ Hph Hrc].
  { revert A Hrtc. apply (rtc_ind_r (admission_inv (λ h, is_stored h sh0))).
    - by apply admission_start_inv.
    - intros A1 A2 _ Hstep Hi. by eapply admit_step_inv. }
  split_and!; [apply (pv_nodup _ _ _ _ Hph)| |].
  - intros b Hb. apply (list_elem_of_fmap_2 hash) in Hb. split.
    + apply (pv_new _ _ _ _ Hph). by left.
    + apply (pv_stored _ _ _ _ Hph). tauto.
  - intros Hw b [?|[?|(ph & t & x & Ht & _)]]%Hrc; [tauto..|]. by rewrite Hw, lookup_empty in Ht.
Qed.
End Admission.

(** *** Witness *)

Section Witnesses.
#[local] Existing Instances example_keccak example_bincode example_codec example_codec_laws.

Definition example_received : Block :=
  Block_new (h256 1) 0 1 (h256 0) [] (CProposer (mkProposerContent [] [])) [] DEFAULT_DIFFICULTY.
Definition example_empty_node : Node :=
  mkNode (open example_config) (MemoryPool_new 0) blockdb_open.

(** Two workers receive the same block; the second comes while the first has it
    registered. *)
Lemma example_admission :
  ∃ A, rtc admit_step (mkAdmission (worker_new example_empty_node) ∅ [] []) A ∧
    am_workers A = ∅ ∧ am_received A = [example_received; example_received] ∧
    am_admitted A = [example_received].
Proof.
  set (b := example_received). eexists. split.
  - eapply rtc_l; [by apply (am_receive _ _ _ _ 0 b)|].
    eapply rtc_l; [by apply (am_receive _ _ _ _ 1 b)|].
    eapply rtc_l.
    { eapply (am_register _ _ _ _ 0 b); [done|]. unfold register. by rewrite decide_False by set_solver. }
    eapply rtc_l.
    { apply (am_skip _ _ _ _ 1 b); [done|]. unfold register. by rewrite decide_True by set_solver. }
    eapply rtc_l; [by apply (am_lookup _ _ _ _ 0 b)|].
    eapply rtc_l; [by apply (am_store _ _ _ _ 0 b (serialize b)); [|apply example_codec_laws]|].
    eapply rtc_l; [by apply (am_finish _ _ _ _ 0 b)|]. apply rtc_refl.
  - split_and!; done.
Qed.

Lemma admission_exactly_once_witness :
  ∃ A, am_received A = [example_received; example_received] ∧
    hash <$> am_admitted A = [hash example_received] ∧
    NoDup (hash <$> am_admitted A) ∧
    (is_stored (hash example_received) (worker_new example_empty_node) = true ∨
     hash example_received ∈ hash <$> am_admitted A).
Proof.
  destruct example_admission as (A & Hr & Hw & Hrec & Hadm).
  destruct (admission_exactly_once (worker_new example_empty_node) A eq_refl Hr) as (Hnd & _ & Hall).
  exists A. split; [exact Hrec|]. split; [by rewrite Hadm|]. split; [exact Hnd|].
  apply (Hall Hw). rewrite Hrec. left.
Defined.
End Witnesses.
