(* ===== verification/System.v ===== *)
(** * The running node

    The workers, the miner and the ledger manager on the state they share.  A step of the
    system is one message, one block a worker takes in, one block it processes, one turn
    of the miner or one update of the ledger; the steps of all threads interleave.  The
    blocks that the workers have taken in and not finished are one list: which worker holds
    a block, and the order in which it comes to it, do not matter for what is proved. *)

From S2P Require Import Prelude Hash Merkle Float Transaction Mempool Config Block Buffer BlockDb.
From S2P Require Import Store Chain Miner Validation Leader Ledger ChainInv VoteInv.
From S2P Require Import ValidationTheorems LeaderProofs LedgerInv Reachable ChainTheorems.
From S2P Require Import MinerTheorems Worker.

(** ** What the insertion of a block changes *)

Section Insert.
Context `{Keccak, BincodeHeader, Rlp, PublicKeyCrypto}.
Context (s : BlockChain) (b : Block).
Hypothesis Hci : chain_inv s.
Hypothesis Hav : check_data_availability b s = Pass.

(** The levels grow by at most one, and only the new block gets a parent. *)
Record grown (s' : BlockChain) : Prop := {
  gr_parents : parents (db s') = <[hash b := parent (header b)]> (parents (db s));
  gr_best : (proposer_best_level s' ≤ proposer_best_level s + 1)%Z;
  gr_voter k : Forall (λ x : H256 * Z, x.2 < k)%Z (voter_best s) →
    Forall (λ x : H256 * Z, x.2 < k + 1)%Z (voter_best s');
}.

(** A block with its references in the store can be inserted, new or not. *)
Lemma insert_block_grown :
  (proposer_best_level s + 2 < 2 ^ 64)%Z →
  Forall (λ best : H256 * Z, best.2 + 1 < 2 ^ 64)%Z (voter_best s) →
  ∃ s', insert_block s b = Done s' ∧ grown s'.
Proof.
  intros Hroom Hvroom. pose proof Hci as [_ Hp Hv].
  destruct (availability_pass _ _ Hav) as [[l Hl] Hrest].
  pose proof (pi_range _ _ _ Hp _ _ Hl) as Hlr.
  assert (∀ k (l : list (H256 * Z)), Forall (λ x, x.2 < k)%Z l → Forall (λ x, x.2 < k + 1)%Z l) as Hmono.
  { intros k l' Hall. eapply Forall_impl; [exact Hall|]. cbn. lia. }
  destruct (content b) as [ct|ct|ct] eqn:Hct.
  - unfold insert_block. rewrite Hct. eexists. split; [reflexivity|].
    split; [done|cbn; lia|]. intros k. apply Hmono.
  - eexists. split; [by eapply (insert_proposer_eq s b ct l); [..|lia|lia]|].
    split; [done|cbn; lia|]. intros k. apply Hmono.
  - destruct Hrest as [[k Hk] _].
    destruct (vi_block _ _ _ Hv _ _ Hk) as (ch & _ & _ & Hch & _).
    destruct (vi_chain _ _ _ Hv _ _ _ Hk Hch) as (_ & bh & bl & Hb & Hkr).
    rewrite Forall_lookup in Hvroom. pose proof (Hvroom _ _ Hb) as Hbl. cbn in Hbl.
    edestruct (insert_voter_eq s b ct k ch l bh bl) as [counts Heq]; [done..|lia|lia|].
    eexists. split; [exact Heq|]. split; [done|cbn; lia|]. intros j Hall. cbn.
    unfold new_best. case_match; [|by apply Hmono]. apply Forall_insert; [by apply Hmono|].
    rewrite Forall_lookup in Hall. pose proof (Hall _ _ Hb) as Hj. cbn in *. lia.
Qed.

Lemma grown_known s' h :
  config s' = config s → grown s' →
  known (config s') (db s') h ↔ h = hash b ∨ known (config s) (db s) h.
Proof.
  intros Hc [Hpar _ _]. unfold known. rewrite Hc, Hpar, lookup_insert_is_Some'. naive_solver.
Qed.
End Insert.

(** ** The miner while the chain grows *)

Section Grow.
Context `{Keccak, BincodeHeader}.

Lemma miner_inv_extends s s' m : chain_inv s → extends s s' → miner_inv s m → miner_inv s' m.
Proof.
  intros Hci Hex [(lp & Hlp & p & t & vs & Hcs & Hlen & Htr & Hpr & Hall) Htree].
  split; [|done]. exists lp. split; [by apply (ex_plev _ _ Hex)|].
  exists p, t, vs. rewrite (ex_config _ _ Hex). split_and!; [done..| | |].
  - intros x Hx. by apply (ex_parents _ _ Hex), Htr.
  - intros _ r Hr. destruct (Hpr eq_refl r Hr) as (l & Hl & ?). exists l.
    split; [by apply (ex_plev _ _ Hex)|done].
  - intros i v Hv. destruct (Hall i v Hv) as [(Hn & Hl & Hc) Hvo].
    destruct (Hvo I) as (v' & Hv' & Hr & Hf). split.
    + split_and!; [done| |]; [rewrite (ex_vlev _ _ Hex)|rewrite (ex_vchain _ _ Hex)]; done.
    + intros _. exists v'. rewrite (ex_vvoted _ _ Hex) by done. split_and!; [done|lia..|].
      eapply Forall2_impl; [exact Hf|]. intros x k. apply (ex_plev _ _ Hex).
Qed.

Lemma miner_inv_same s s' m : same_blocks s s' → miner_inv s m → miner_inv s' m.
Proof.
  intros [[E1 E2 E3 E4 _ E5 _ _] _ _ _ _ E6].
  intros [(lp & Hlp & p & t & vs & Hcs & Hlen & Htr & Hpr & Hall) Htree].
  split; [|done]. exists lp. rewrite E1. split; [done|]. exists p, t, vs.
  unfold transaction_refs_ok, proposer_refs_ok, voter_parent_ok, votes_ok.
  rewrite E6, E1, E2, E3, E4, E5. done.
Qed.
End Grow.

(** ** The checks do not panic *)

Section Checks.
Context `{Keccak, BincodeHeader, BigUint, Rlp, PublicKeyCrypto}.

Lemma sortition_proof_total c (b : Block) :
  check_pow_sortition_id b c = Done Pass → ∃ r, check_sortition_proof b c = Done r.
Proof.
  unfold check_pow_sortition_id, check_sortition_proof.
  intros Hpow. apply bind_done in Hpow as (id & -> & Hpow). destruct id as [id|]; [|done].
  cbn [mbind outcome_bind]. edestruct merkle_verify_total as [r ->]. cbn [mbind outcome_bind].
  destruct r; eauto.
Qed.

Context (s : BlockChain).
Hypothesis Hci : chain_inv s.

Lemma ref_levels_total l refs :
  (∀ r, r ∈ refs → is_Some (plev (db s) !! r)) → ∃ b, ref_levels_ok s l refs = Done b.
Proof.
  induction refs as [|r refs IH]; intros Hr; [by eexists|]. cbn [ref_levels_ok].
  destruct (Hr r) as [x Hx]; [left|]. unfold proposer_level, get_cf.
  cbn [cf_get proposer_node_level_cf]. rewrite Hx. cbn [unwrap mbind outcome_bind].
  case_match; [by eexists|]. apply IH. intros; apply Hr; by right.
Qed.

Lemma vote_levels_total start vs :
  (∀ r, r ∈ vs → is_Some (plev (db s) !! r)) → ∃ b, vote_levels_ok s start vs = Done b.
Proof.
  revert start. induction vs as [|r vs IH]; intros start Hr; [by eexists|]. cbn [vote_levels_ok].
  destruct (Hr r) as [x Hx]; [left|]. unfold proposer_level, get_cf.
  cbn [cf_get proposer_node_level_cf]. rewrite Hx. cbn [unwrap mbind outcome_bind].
  case_match; [|by eexists]. apply IH. intros; apply Hr; by right.
Qed.

Lemma content_semantic_total (b : Block) :
  check_data_availability b s = Pass → ∃ r, check_content_semantic b s = Done r.
Proof.
  intros [[l Hl] Hav]%availability_pass. unfold check_content_semantic.
  destruct (content b) as [ct|ct|ct]; [by eexists| |].
  - unfold check_ref_proposer_level, proposer_level, get_cf. cbn [cf_get proposer_node_level_cf].
    rewrite Hl. cbn [unwrap mbind outcome_bind].
    destruct (ref_levels_total l (proposer_refs ct) Hav) as [r ->]. by eexists.
  - destruct Hav as [[k Hk] Hvs].
    destruct (vi_block _ _ _ (ci_voter _ Hci) _ _ Hk) as (ch & v & _ & Hch & Hv & _).
    unfold check_chain_number, voter_chain_number, get_cf. cbn [cf_get voter_node_chain_cf].
    rewrite Hch. cbn [unwrap mbind outcome_bind]. case_match; [|by eexists].
    unfold check_levels_voted, deepest_voted_level, proposer_level, get_cf.
    cbn [cf_get voter_node_voted_level_cf proposer_node_level_cf].
    rewrite Hv, Hl. cbn [unwrap mbind outcome_bind]. case_match; [by eexists|].
    case_match; [|by eexists]. destruct (vote_levels_total v (votes ct) Hvs) as [r ->]. by eexists.
Qed.

Lemma availability_result (b : Block) :
  check_data_availability b s = Pass ∨
  ∃ r, r ≠ [] ∧ check_data_availability b s = MissingReferences r.
Proof. unfold check_data_availability. destruct (_ ++ _); [by left|]. right. by eexists (_ :: _). Qed.

(** A voter block that is inserted is of a chain there is. *)
Lemma accepted_signal_ok (b : Block) :
  check_data_availability b s = Pass → check_content_semantic b s = Done Pass →
  signal_ok (config s) (context_signal (content b)).
Proof.
  intros [_ Hav]%availability_pass Hsem. unfold check_content_semantic in Hsem.
  destruct (content b) as [ct|ct|ct]; [done..|]. destruct Hav as [[k Hk] _].
  destruct (vi_block _ _ _ (ci_voter _ Hci) _ _ Hk) as (ch & v & _ & Hch & _).
  destruct (vi_chain _ _ _ (ci_voter _ Hci) _ _ _ Hk Hch) as [Hr _].
  apply bind_done in Hsem as ([] & Hc & Hsem); [|done].
  unfold check_chain_number, voter_chain_number, get_cf in Hc. cbn [cf_get voter_node_chain_cf] in Hc.
  rewrite Hch in Hc. injection Hc as Hc%Z.eqb_eq. cbn. by rewrite <- Hc.
Qed.
End Checks.

(** ** The system *)

Record System := mkSystem {
  sys_shared : Shared;
  sys_pending : list Block;
  sys_miner : Miner;
}.

Section System.
Context `{Keccak, BincodeHeader, BincodeBlock, BigUint, HashOrder, Rlp, PublicKeyCrypto}.
Context (c : BlockchainConfig).

(** The blocks that a worker has still to look at after one. *)
Definition resolved_blocks (r : Processed) : list Block :=
  match r with Inserted _ resolved => resolved | _ => [] end.

(** The transactions a message carries. *)
Definition message_size (msg : Message) : Z :=
  match msg with Transactions txs => Z.of_nat (length txs) | _ => 0 end.

(** The counters have room for [k] more blocks. *)
Record room (k : Z) (node : Node) : Prop := {
  ro_proposer : (proposer_best_level (node_chain node) + 1 + k < 2 ^ 64)%Z;
  ro_voter : Forall (λ best : H256 * Z, best.2 < 2 ^ 64 - k)%Z (voter_best (node_chain node));
  ro_blocks : (db_count (node_blockdb node) + k < 2 ^ 64)%Z;
}.

Inductive sys_step `{PoissonDist} : System → System → Prop :=
| sys_message sh q m msg sh' out :
    match msg with Blocks _ => False | _ => True end →
    (counter (node_mempool (sh_node sh)) + message_size msg < 2 ^ 64)%Z →
    handle_message c 0 sh msg = Done (sh', out) →
    sys_step (mkSystem sh q m) (mkSystem sh' q m)
| sys_admit sh q m encoded sh' q' :
    room 1 (sh_node sh) → admit_block c (sh, q) encoded = Done (sh', q') →
    sys_step (mkSystem sh q m) (mkSystem sh' q' m)
| sys_process sh q1 b q2 m sh' r :
    room 1 (sh_node sh) → process_block c sh b = Done (sh', r) →
    sys_step (mkSystem sh (q1 ++ b :: q2) m) (mkSystem sh' (q1 ++ q2 ++ resolved_blocks r) m)
| sys_ledger sh q m fuel s' out :
    update_ledger fuel (node_chain (sh_node sh)) = Done (s', out) →
    sys_step (mkSystem sh q m)
      (mkSystem (mkShared (mkNode s' (node_mempool (sh_node sh)) (node_blockdb (sh_node sh)))
        (sh_buffer sh) (recent_blocks sh) (requested_blocks sh)) q m)
| sys_mine sh q m i m' node' out :
    Forall (signal_ok c) (signals i) → room 1 (sh_node sh) →
    miner_turn c (sh_node sh) m i = Done (m', node', out) →
    (∀ b sig, out = Some (b, sig) →
      blockdb_contains (node_blockdb (sh_node sh)) (hash (b : Block)) = false) →
    sys_step (mkSystem sh q m)
      (mkSystem (mkShared node' (sh_buffer sh) (recent_blocks sh) (requested_blocks sh)) q m').

Definition sys_start (limit time : Z) (S : System) : Prop :=
  ∃ s bdb m, BlockChain_new c = Done s ∧ blockdb_new c = Done bdb ∧ miner_new c time = Done m ∧
    S = mkSystem (worker_new (mkNode s (MemoryPool_new limit) bdb)) [] m.

Definition sys_reachable `{PoissonDist} (S : System) : Prop :=
  ∃ limit time S0, (0 ≤ limit < 2 ^ 64 - 1)%Z ∧ sys_start limit time S0 ∧ rtc sys_step S0 S.
End System.
