(* ===== verification/SystemInv.v ===== *)
(** * The invariant of the running node

    Every block is in one place: inserted into the chain, waiting in the buffer, held by a
    worker, or rejected; and all of them are in the block database.  The second part has the
    steps that keep it. *)

From S2P Require Import Prelude Hash Merkle Transaction Mempool Float Config Block Buffer BlockDb.
From S2P Require Import Store Chain Miner Validation Leader Ledger ChainInv ValidationTheorems.
From S2P Require Import VoteInv LeaderProofs LedgerInv Reachable ChainExample ChainTheorems.
From S2P Require Import MinerTheorems Worker System.

(** ** What [satisfy] does to the blocks of the buffer *)

Section Satisfy.
Context `{Keccak, BincodeHeader, HashOrder}.

Lemma waiting_Some b x blk ds :
  waiting b !! x = Some (blk, ds) ↔ blocks b !! x = Some blk ∧ dependency b !! x = Some ds.
Proof. unfold waiting. rewrite map_lookup_zip_Some. done. Qed.

Lemma elem_of_resolved (w : Waiting.t) h blk :
  blk ∈ Waiting.resolved w h ↔ ∃ x ds, w !! x = Some (blk, ds) ∧ set_remove h ds = ∅.
Proof.
  unfold Waiting.resolved. rewrite (list_elem_of_fmap fst). split.
  - intros ([blk' ds] & -> & Hx). apply list_elem_of_fmap in Hx as ([x [? ?]] & [= <- <-] & Hx).
    apply elem_of_map_to_list, map_lookup_filter_Some in Hx as [? ?]. eauto.
  - intros (x & ds & Hx & He). exists (blk, ds). split; [done|]. apply list_elem_of_fmap.
    exists (x, (blk, ds)). split; [done|]. by apply elem_of_map_to_list, map_lookup_filter_Some.
Qed.

Lemma resolved_NoDup b h : buffer_inv b → NoDup (hash <$> Waiting.resolved (waiting b) h).
Proof.
  intros Hb. unfold Waiting.resolved. set (W := filter _ _).
  assert (hash <$> (map_to_list W).*2.*1 = (map_to_list W).*1) as ->; [|apply NoDup_fst_map_to_list].
  rewrite <- !list_fmap_compose. apply list_fmap_ext. intros i [x [blk ds]] Hi. cbn.
  apply list_elem_of_lookup_2, elem_of_map_to_list, map_lookup_filter_Some in Hi as [Hx _].
  apply waiting_Some in Hx as [Hx _]. by apply (bu_hash b Hb).
Qed.

(** The blocks are split into those that are resolved and those that still wait. *)
Record split_off (b b' : BlockBuffer) (res : list Block) : Prop := {
  so_inv : buffer_inv b';
  so_nodup : NoDup (hash <$> res);
  so_resolved blk : blk ∈ res →
    blocks b !! hash blk = Some blk ∧ blocks b' !! hash blk = None;
  so_rest x blk : blocks b' !! x = Some blk → blocks b !! x = Some blk;
  so_size : size (blocks b) = size (blocks b') + length res;
}.

Lemma waiting_size b : buffer_inv b → size (waiting b) = size (blocks b).
Proof.
  intros Hb. rewrite <- !size_dom. f_equal. apply set_eq. intros x.
  rewrite !elem_of_dom. split.
  - intros [[blk ds] [Hx _]%waiting_Some]. eauto.
  - intros Hx. pose proof (proj1 (bu_dom b Hb x) Hx) as [ds Hds]. destruct Hx as [blk Hblk].
    exists (blk, ds). by apply waiting_Some.
Qed.

Lemma satisfy_split (b : BlockBuffer) h :
  buffer_inv b → ∃ b' res, satisfy b h = Done (b', res) ∧ split_off b b' res.
Proof.
  intros Hb. destruct (satisfy_ok b h Hb) as (b' & res & Hs & Hb' & Hw & Hres).
  exists b', res. split; [done|].
  assert (∀ x blk, blocks b' !! x = Some blk →
    ∃ ds, waiting b !! x = Some (blk, ds) ∧ set_remove h ds ≠ ∅) as Hrest.
  { intros x blk Hx. pose proof (proj1 (bu_dom b' Hb' x) (mk_is_Some _ _ Hx)) as [ds Hds].
    assert (waiting b' !! x = Some (blk, ds)) as Hxw by by apply waiting_Some.
    rewrite Hw in Hxw. unfold Waiting.satisfy in Hxw. rewrite lookup_omap in Hxw.
    destruct (waiting b !! x) as [[blk0 ds0]|]; [|done]. cbn in Hxw. unfold Waiting.after in Hxw.
    case_decide; [done|]. injection Hxw as <- _. eauto. }
  split; [done| | | |].
  - rewrite Hres. by apply resolved_NoDup.
  - intros blk Hin. rewrite Hres, elem_of_resolved in Hin. destruct Hin as (x & ds & Hx & He).
    pose proof Hx as [Hbx _]%waiting_Some. pose proof (bu_hash b Hb _ _ Hbx) as ->. split; [done|].
    apply eq_None_not_Some. intros [blk' Hx']. destruct (Hrest _ _ Hx') as (ds' & Hw' & Hne).
    rewrite Hx in Hw'. by injection Hw' as <- <-.
  - intros x blk Hx. destruct (Hrest _ _ Hx) as (ds & [? _]%waiting_Some & _). done.
  - rewrite <- (waiting_size b), <- (waiting_size b') by done. rewrite Hres, Hw.
    unfold Waiting.resolved. rewrite !length_fmap, length_map_to_list.
    rewrite <- (map_filter_union_complement (λ x, set_remove h x.2.2 = ∅) (waiting b)) at 1.
    rewrite map_size_disj_union by apply map_disjoint_filter_complement.
    rewrite Nat.add_comm. f_equal. rewrite <- !size_dom. f_equal. apply set_eq. intros x.
    rewrite !elem_of_dom. unfold Waiting.satisfy. rewrite lookup_omap, map_lookup_filter.
    destruct (waiting b !! x) as [[blk ds]|]; cbn; [|by split; intros [? ?]].
    unfold Waiting.after. cbn. case_decide; case_guard; cbn; naive_solver.
Qed.
End Satisfy.

(** ** The invariant *)

Section Inv.
Context `{Keccak, BincodeHeader, BincodeBlock, !BincodeBlockLaws, BigUint, HashOrder, Rlp,
  PublicKeyCrypto}.
Context (c : BlockchainConfig).

(** The database holds [b] under its hash. *)
Definition stored (bdb : BlockDatabase) (b : Block) : Prop :=
  ∃ raw, block_cf bdb !! hash b = Some raw ∧ deserialize raw = Some b.

(** A block that has been taken in and is not in the chain. *)
Record outside (node : Node) (b : Block) : Prop := {
  ou_stored : stored (node_blockdb node) b;
  ou_unknown : ¬ known c (db (node_chain node)) (hash b);
  ou_pow : check_pow_sortition_id b c = Done Pass;
}.

(** A block of the chain that is no genesis block. *)
Definition valid_block (bdb : BlockDatabase) (h : H256) : Prop :=
  ∃ b : Block, hash b = h ∧ stored bdb b ∧
    check_pow_sortition_id b c = Done Pass ∧ check_sortition_proof b c = Done Pass.

Record node_inv (node : Node) (buf : BlockBuffer) (q : list Block) (m : Miner) : Prop := {
  ni_full : full_inv (node_chain node);
  ni_unref : unref_inv (node_chain node);
  ni_config : config (node_chain node) = c;
  ni_pool : pool_inv (node_mempool node);
  ni_db : blockdb_inv (node_blockdb node);
  ni_buffer : buffer_inv buf;
  ni_miner : miner_inv (node_chain node) m;
  ni_known h : known c (db (node_chain node)) h → is_Some (block_cf (node_blockdb node) !! h);
  ni_valid h : is_Some (parents (db (node_chain node)) !! h) →
    h ∈ voter_genesis c ∨ valid_block (node_blockdb node) h;
  ni_pending b : b ∈ q → outside node b ∧ blocks buf !! hash b = None;
  ni_nodup : NoDup (hash <$> q);
  ni_buffered h b : blocks buf !! h = Some b → outside node b;
}.

Lemma node_inv_perm node buf q q' m :
  q ≡ₚ q' → node_inv node buf q m → node_inv node buf q' m.
Proof.
  intros Hq []. split; try done.
  - intros b. rewrite <- Hq. auto.
  - by rewrite <- Hq.
Qed.

(** Fewer blocks to process, and another pool. *)
Lemma node_inv_drop node buf b q m : node_inv node buf (b :: q) m → node_inv node buf q m.
Proof.
  intros [? ? ? ? ? ? ? ? ? Hp Hnd ?]. cbn in Hnd. apply NoDup_cons in Hnd as [_ Hnd].
  split; try done. intros x Hx. apply Hp. by right.
Qed.

Lemma node_inv_pool node p buf q m :
  pool_inv p → node_inv node buf q m →
  node_inv (mkNode (node_chain node) p (node_blockdb node)) buf q m.
Proof.
  intros Hp []. split; try done.
  - intros b Hb. destruct (ni_pending0 b Hb) as [[] ?]. done.
  - intros h b Hb. destruct (ni_buffered0 h b Hb). done.
Qed.

(** *** The database *)

Lemma insert_encoded_lookup bdb h raw k :
  block_cf (blockdb_insert_encoded bdb h raw).1 !! k =
    if decide (k = h) then Some raw else block_cf bdb !! k.
Proof.
  cbn. case_decide as E; [subst; apply lookup_insert_eq|]. by apply lookup_insert_ne.
Qed.

(** A new entry leaves the others. *)
Lemma node_inv_store node buf q m h raw :
  blockdb_contains (node_blockdb node) h = false → (db_count (node_blockdb node) + 1 < 2 ^ 64)%Z →
  is_Some (deserialize raw) → node_inv node buf q m →
  node_inv (mkNode (node_chain node) (node_mempool node)
    (blockdb_insert_encoded (node_blockdb node) h raw).1) buf q m.
Proof.
  intros Hnew Hroom Hraw []. unfold blockdb_contains in Hnew.
  assert (∀ k r, block_cf (node_blockdb node) !! k = Some r →
    block_cf (blockdb_insert_encoded (node_blockdb node) h raw).1 !! k = Some r) as Hkeep.
  { intros k r Hk. rewrite insert_encoded_lookup. case_decide; [|done]. subst. by rewrite Hk in Hnew. }
  assert (∀ b, stored (node_blockdb node) b →
    stored (blockdb_insert_encoded (node_blockdb node) h raw).1 b) as Hst.
  { intros b (r & Hr & Hd). exists r. auto. }
  assert (∀ b, outside node b → outside (mkNode (node_chain node) (node_mempool node)
    (blockdb_insert_encoded (node_blockdb node) h raw).1) b) as Hout.
  { intros b [? ? ?]. split; [by apply Hst|done..]. }
  split; try done.
  - apply put_block_inv; [done|lia|done].
  - intros k [r Hr]%ni_known0. eexists. by apply Hkeep.
  - intros k [?|(b & ? & ? & ?)]%ni_valid0; [by left|right]. exists b. auto.
  - intros b Hb. destruct (ni_pending0 b Hb). auto.
  - intros k b Hb. apply Hout. by eapply ni_buffered0.
Qed.

(** *** Insertion into the chain *)

Lemma node_inv_insert node buf q m (b : Block) :
  node_inv node buf q m → accepted (node_chain node) b →
  stored (node_blockdb node) b → check_pow_sortition_id b c = Done Pass →
  check_sortition_proof b c = Done Pass → hash b ∉ hash <$> q → blocks buf !! hash b = None →
  ∃ s', insert_block (node_chain node) b = Done s' ∧ grown (node_chain node) b s' ∧
    node_inv (mkNode s' (node_mempool node) (node_blockdb node)) buf q m.
Proof.
  intros [Hf Hu Hc Hpo Hbd Hbu Hmi Hkn Hva Hpe Hnd Hbf] Hacc Hst Hpow Hproof Hq Hbuf.
  pose proof Hacc as [Hfr Hav _ Hr1 Hr2].
  destruct (insert_block_full_inv _ b Hf Hacc) as (s' & Hs' & Hf' & Hex).
  destruct (insert_block_grown _ b (fi_chain _ Hf) Hav Hr1 Hr2) as (s1 & Hs1 & Hg).
  assert (s1 = s') as -> by congruence. exists s'. split_and!; [done..|].
  pose proof (ex_config _ _ Hex) as Ec.
  assert (∀ h, known c (db s') h ↔ h = hash b ∨ known c (db (node_chain node)) h) as Hk.
  { intros h. pose proof (grown_known _ b s' h Ec Hg) as Hk. by rewrite Ec, Hc in Hk. }
  assert (∀ x, outside node x → hash x ≠ hash b →
    outside (mkNode s' (node_mempool node) (node_blockdb node)) x) as Hout.
  { intros x [? Hn ?] Hx. split; [done| |done]. cbn. rewrite Hk. tauto. }
  split; cbn [node_chain node_mempool node_blockdb]; try done.
  - by eapply (insert_block_unref _ b); [apply Hf|..].
  - congruence.
  - by eapply miner_inv_extends; [apply Hf|..].
  - intros h [->|?]%Hk; [|auto]. destruct Hst as (raw & ? & _). eauto.
  - intros h. rewrite (gr_parents _ _ _ Hg), lookup_insert_is_Some'. intros [<-|Hh]; [|auto].
    right. exists b. done.
  - intros x Hx. destruct (Hpe x Hx) as [Ho ?]. split; [|done]. apply Hout; [done|].
    intros E. apply Hq. rewrite <- E. by apply list_elem_of_fmap_2.
  - intros h x Hx. apply Hout; [by eapply Hbf|]. intros E.
    rewrite (bu_hash _ Hbu _ _ Hx) in E. congruence.
Qed.

(** A block that passes the checks is accepted. *)
Lemma outside_accepted node buf q m (b : Block) :
  node_inv node buf q m → ¬ known c (db (node_chain node)) (hash b) → room 1 node →
  check_data_availability b (node_chain node) = Pass →
  check_content_semantic b (node_chain node) = Done Pass ∨ (∃ ct, content b = CTransaction ct) →
  accepted (node_chain node) b.
Proof.
  intros Hi Hn [Hr1 Hr2 _] Hav Hsem. split; try done; [by rewrite (ni_config _ _ _ _ Hi)|lia|].
  eapply Forall_impl; [exact Hr2|]. cbn. lia.
Qed.

(** *** A worker *)

Lemma admit_block_inv sh q m raw :
  room 1 (sh_node sh) → node_inv (sh_node sh) (sh_buffer sh) q m →
  ∀ sh' q', admit_block c (sh, q) raw = Done (sh', q') →
  node_inv (sh_node sh') (sh_buffer sh') q' m ∧
  node_chain (sh_node sh') = node_chain (sh_node sh).
Proof.
  intros Hroom Hi sh' q' Ha. unfold admit_block in Ha.
  apply bind_done in Ha as (b & Hb%unwrap_done & Ha). apply bind_done in Ha as (r & Hpow & Ha).
  destruct r; try by injection Ha as <- <-.
  unfold register in Ha. case_decide; [by injection Ha as <- <-|].
  unfold is_stored, release, store_block in Ha. cbn [set_recent set_requested sh_node] in Ha.
  destruct (blockdb_contains (node_blockdb (sh_node sh)) (hash b)) eqn:Hnew; injection Ha as <- <-;
    [done|]. cbn [set_recent set_blockdb sh_node sh_buffer node_chain node_mempool]. split; [|done].
  pose proof (node_inv_store _ _ _ _ (hash b) raw Hnew (ro_blocks _ _ Hroom)
    (mk_is_Some _ _ Hb) Hi) as Hi'.
  assert (∀ x, stored (node_blockdb (sh_node sh)) x → hash x ≠ hash b) as Hne.
  { intros x (r & Hr & _) E. unfold blockdb_contains in Hnew. by rewrite <- E, Hr in Hnew. }
  assert (blocks (sh_buffer sh) !! hash b = None) as Hbuf.
  { apply eq_None_not_Some. intros [x Hx]. pose proof (bu_hash _ (ni_buffer _ _ _ _ Hi) _ _ Hx).
    by destruct (Hne x (ou_stored _ _ (ni_buffered _ _ _ _ Hi _ _ Hx))). }
  destruct Hi' as [? ? ? ? ? ? ? Hkn ? Hpe Hnd ?]. split; try done.
  - intros x [Hx| ->%list_elem_of_singleton]%elem_of_app; [auto|]. split; [|done]. split; [| |done].
    + exists raw. split; [|done]. cbn. by rewrite lookup_insert_eq.
    + cbn. intros [r Hr]%(ni_known _ _ _ _ Hi). unfold blockdb_contains in Hnew. by rewrite Hr in Hnew.
  - rewrite fmap_app. apply NoDup_app. split_and!; [done| |apply NoDup_singleton].
    intros h (x & -> & Hx)%list_elem_of_fmap Hin. cbn in Hin. apply list_elem_of_singleton in Hin.
    by destruct (Hne x (ou_stored _ _ (proj1 (ni_pending _ _ _ _ Hi x Hx)))).
Qed.

Lemma remove_transactions_inv txs p :
  pool_inv p → pool_inv (foldl (λ p tx, remove_by_hash p (hash (tx : Transaction))) p txs).
Proof.
  revert p. induction txs as [|tx txs IH]; intros p Hp; [done|]. cbn [foldl].
  apply IH. by apply (remove_by_hash_ok p Hp).
Qed.

Lemma new_validated_block_inv node buf q m (b : Block) s' :
  insert_block (node_chain node) b = Done s' →
  node_inv (mkNode s' (node_mempool node) (node_blockdb node)) buf q m →
  ∃ p', new_validated_block b (node_mempool node) (node_chain node) = Done (p', s') ∧
    node_inv (mkNode s' p' (node_blockdb node)) buf q m.
Proof.
  intros Hs' Hi. unfold new_validated_block. rewrite Hs'. cbn [mbind outcome_bind].
  eexists. split; [reflexivity|].
  apply (node_inv_pool (mkNode s' (node_mempool node) (node_blockdb node))); [|done].
  pose proof (ni_pool _ _ _ _ Hi) as Hp.
  destruct (content b); [by apply remove_transactions_inv|done..].
Qed.

(** Resolved blocks go from the buffer to the worker. *)
Lemma node_inv_satisfy node buf buf' res q m :
  split_off buf buf' res → node_inv node buf q m → node_inv node buf' (q ++ res) m.
Proof.
  intros [Hb' Hnd Hres Hrest _] []. split; try done.
  - intros b [Hb|Hb]%elem_of_app.
    + destruct (ni_pending0 b Hb) as [? Hn]. split; [done|].
      destruct (blocks buf' !! hash b) eqn:E; [|done]. apply Hrest in E. congruence.
    + destruct (Hres b Hb) as [? ?]. split; [by eapply ni_buffered0|done].
  - rewrite fmap_app. apply NoDup_app. split_and!; [done| |done].
    intros h (x & -> & Hx)%list_elem_of_fmap (y & E & Hy)%list_elem_of_fmap.
    destruct (Hres y Hy) as [Hby _]. destruct (ni_pending0 x Hx) as [_ Hn]. congruence.
  - intros h b Hb. eapply ni_buffered0. by apply Hrest.
Qed.

(** A block that waits goes from the worker to the buffer. *)
Lemma buffer_insert_size buf (b : Block) deps :
  blocks buf !! hash b = None → size (blocks (buffer_insert buf b deps)) = S (size (blocks buf)).
Proof.
  intros Hb. unfold buffer_insert. destruct (add_dependencies _ _ _). cbn.
  by apply map_size_insert_None.
Qed.

Lemma node_inv_buffer node buf b deps q m :
  buffer_inv (buffer_insert buf b deps) → node_inv node buf (b :: q) m →
  node_inv node (buffer_insert buf b deps) q m.
Proof.
  intros Hb' Hi. pose proof (ni_pending _ _ _ _ Hi b ltac:(left)) as [Hout _].
  assert (blocks (buffer_insert buf b deps) = <[hash b := b]> (blocks buf)) as Eb.
  { unfold buffer_insert. by destruct (add_dependencies _ _ _). }
  pose proof (ni_nodup _ _ _ _ Hi) as Hnd. cbn in Hnd. apply NoDup_cons in Hnd as [Hq _].
  destruct (node_inv_drop _ _ _ _ _ Hi). split; try done; rewrite Eb.
  - intros x Hx. destruct (ni_pending0 x Hx). split; [done|]. rewrite lookup_insert_ne; [done|].
    intros E. apply Hq. rewrite E. by apply list_elem_of_fmap_2.
  - intros h x [[_ <-]|[_ Hx]]%lookup_insert_Some; [done|by eapply ni_buffered0].
Qed.

(** What one turn of the loop of a worker does. *)
Record process_spec (sh : Shared) (b : Block) (sh' : Shared) (r : Processed) : Prop := {
  ps_chain : match r with
    | Inserted sig _ => sig = context_signal (content b) ∧ signal_ok c sig ∧
        accepted (node_chain (sh_node sh)) b ∧
        insert_block (node_chain (sh_node sh)) b = Done (node_chain (sh_node sh')) ∧
        grown (node_chain (sh_node sh)) b (node_chain (sh_node sh'))
    | _ => node_chain (sh_node sh') = node_chain (sh_node sh)
    end;
  ps_db : node_blockdb (sh_node sh') = node_blockdb (sh_node sh);
  ps_size : size (blocks (sh_buffer sh')) + length (resolved_blocks r) =
    size (blocks (sh_buffer sh)) + match r with Waits _ => 1 | _ => 0 end;
}.

Lemma process_block_ok sh b q m :
  room 1 (sh_node sh) → node_inv (sh_node sh) (sh_buffer sh) (b :: q) m →
  ∃ sh' r, process_block c sh b = Done (sh', r) ∧
    node_inv (sh_node sh') (sh_buffer sh') (q ++ resolved_blocks r) m ∧
    process_spec sh b sh' r.
Proof.
  intros Hroom Hi. pose proof (node_inv_drop _ _ _ _ _ Hi) as Hiq.
  destruct (ni_pending _ _ _ _ Hi b) as [[Hst Hun Hpow] Hbuf]; [left|].
  pose proof (ni_nodup _ _ _ _ Hi) as Hnd. cbn in Hnd. apply NoDup_cons in Hnd as [Hq _].
  pose proof (fi_chain _ (ni_full _ _ _ _ Hi)) as Hci. unfold process_block.
  destruct (availability_result (node_chain (sh_node sh)) b) as [Hav|(r & Hr & Hav)]; rewrite Hav.
  2: { eexists _, _. split; [reflexivity|]. cbn [sh_node sh_buffer resolved_blocks].
       rewrite app_nil_r. destruct (buffer_insert_ok _ b r (ni_buffer _ _ _ _ Hi) Hbuf Hr) as [Hb' _].
       split; [|split; [done..|]].
       - by apply node_inv_buffer.
       - cbn [sh_buffer resolved_blocks length]. rewrite buffer_insert_size by done. lia. }
  destruct (sortition_proof_total c b Hpow) as [r Hproof]. rewrite Hproof. cbn [mbind outcome_bind].
  assert (∀ r, ∃ sh' r', Done (sh, Dropped r) = Done (sh', r') ∧
    node_inv (sh_node sh') (sh_buffer sh') (q ++ resolved_blocks r') m ∧
    process_spec sh b sh' r') as Hdrop.
  { intros r'. exists sh, (Dropped r'). split; [done|]. cbn. rewrite app_nil_r. split; [done|].
    by split; cbn; [..|lia]. }
  destruct r; try apply Hdrop.
  destruct (content_semantic_total _ Hci b Hav) as [r Hsem]. rewrite Hsem. cbn [mbind outcome_bind].
  destruct r; try apply Hdrop. clear Hdrop.
  pose proof (outside_accepted _ _ _ _ b Hi Hun Hroom Hav (or_introl Hsem)) as Hacc.
  destruct (node_inv_insert _ _ _ _ b Hiq Hacc Hst Hpow Hproof Hq Hbuf) as (s' & Hs' & Hg & Hi').
  destruct (new_validated_block_inv _ _ _ _ b s' Hs' Hi') as (p' & -> & Hi2). cbn [mbind outcome_bind].
  destruct (satisfy_split (sh_buffer sh) (hash b) (ni_buffer _ _ _ _ Hi)) as (buf' & res & -> & Hso).
  eexists _, _. split; [reflexivity|]. cbn [sh_node sh_buffer resolved_blocks].
  split; [by eapply node_inv_satisfy|]. split; cbn [sh_node node_chain node_blockdb]; [|done|].
  - split_and!; try done. rewrite <- (ni_config _ _ _ _ Hi). by apply accepted_signal_ok.
  - cbn. rewrite (so_size _ _ _ Hso). lia.
Qed.
End Inv.

(** * Steps of the running node

    A worker handles every message that decodes without a panic, and its loop over blocks
    ends; the miner finishes every turn and mines blocks that the other nodes accept; and
    in every state the system can reach the chain is one that [Reachable] describes, whose
    blocks have all passed the checks. *)

Section Worker.
Context `{Keccak, BincodeHeader, BincodeBlock, !BincodeBlockLaws, BigUint, HashOrder, Rlp,
  PublicKeyCrypto, PoissonDist}.
Context (c : BlockchainConfig).

(** ** The loop over the blocks *)

Lemma room_mono k k' node : room k node → (k' ≤ k)%Z → room k' node.
Proof. intros [] Hk. split; [lia| |lia]. eapply Forall_impl; [done|]. cbn. lia. Qed.

Lemma room_grown k node s' p b :
  room k node → grown (node_chain node) b s' → room (k - 1) (mkNode s' p (node_blockdb node)).
Proof.
  intros [Hp Hvo Hbl] [_ Hb Hv]. split; cbn; [lia| |lia].
  apply Hv in Hvo. eapply Forall_impl; [exact Hvo|]. cbn. lia.
Qed.

Lemma room_process k sh b sh' r :
  room k (sh_node sh) → process_spec c sh b sh' r →
  room (k - match r with Inserted _ _ => 1 | _ => 0 end) (sh_node sh').
Proof.
  intros Hr [Hc Hd _]. destruct sh' as [[s' p' bdb'] buf' rec req].
  cbn [sh_node node_chain node_blockdb] in *.
  destruct r; [subst s' bdb'; rewrite Z.sub_0_r; by destruct Hr; split..|].
  destruct Hc as (_ & _ & _ & _ & Hg). subst bdb'. by eapply room_grown.
Qed.

(** Turns of the loop that are enough for [q] blocks, with [b] in the buffer. *)
Definition process_bound (q b : nat) : nat := (q + b) * (q + b + 1) + q.

(** What the loop guarantees, with [q2] the blocks of the other workers. *)
Lemma process_blocks_ok fuel sh q q2 p m :
  room (Z.of_nat (length q + size (blocks (sh_buffer sh)))) (sh_node sh) →
  node_inv c (sh_node sh) (sh_buffer sh) (q ++ q2) m →
  process_bound (length q) (size (blocks (sh_buffer sh))) ≤ fuel →
  Forall (signal_ok c) (context_update_sig p) →
  ∃ sh' p', process_blocks c fuel sh q p = Done (sh', p') ∧
    node_inv c (sh_node sh') (sh_buffer sh') q2 m ∧
    rtc step (node_chain (sh_node sh)) (node_chain (sh_node sh')) ∧
    Forall (signal_ok c) (context_update_sig p').
Proof.
  unfold process_bound. revert sh q p. induction fuel as [|fuel IH]; intros sh q p Hroom Hi Hfuel Hsig.
  { destruct q as [|b q]; [|cbn [length] in Hfuel; nia]. exists sh, p. by split_and!. }
  destruct q as [|b q]; [exists sh, p; by split_and!|]. cbn [app length] in *.
  destruct (process_block_ok c sh b (q ++ q2) m) as (sh1 & r & Hstep & Hi1 & Hspec);
    [eapply room_mono; [done|lia]|done|].
  pose proof (room_process _ _ _ _ _ Hroom Hspec) as Hroom1. pose proof Hspec as [Hch _ Hsize].
  cbn [process_blocks]. rewrite Hstep. cbn [mbind outcome_bind].
  destruct r as [missing|reason|sig res]; cbn [resolved_blocks length] in Hsize, Hi1;
    [rewrite <- Hch..|].
  1: apply (IH sh1 q (mkPending (to_request p ++ missing) (context_update_sig p))).
  5: apply (IH sh1 q p).
  1,5: by eapply room_mono; [done|lia].
  1,4: by rewrite app_nil_r in Hi1.
  1,3: nia.
  1,2: done.
  destruct Hch as (-> & Hsok & Hacc & Hins & _).
  destruct (IH sh1 (rev res ++ q) (mkPending (to_request p)
    (context_update_sig p ++ [context_signal (content b)]))) as (sh' & p' & Hp & Hi' & Hr & Hs).
  - eapply room_mono; [done|]. rewrite length_app, length_rev. lia.
  - eapply node_inv_perm; [|exact Hi1]. rewrite Permutation_app_comm, <- app_assoc.
    apply Permutation_app_tail, Permutation_rev.
  - rewrite length_app, length_rev. nia.
  - apply Forall_app. split; [done|]. by apply Forall_singleton.
  - exists sh', p'. split_and!; [exact Hp|done| |done].
    eapply rtc_l; [|exact Hr]. by eapply step_insert.
Qed.

(** ** Taking in blocks *)

Lemma admit_block_frame sh q q2 raw sh' q' :
  admit_block c (sh, q) raw = Done (sh', q') → admit_block c (sh, q2 ++ q) raw = Done (sh', q2 ++ q').
Proof.
  unfold admit_block. intros Ha. apply bind_done in Ha as (b & -> & Ha).
  apply bind_done in Ha as (r & Hr & Ha). cbn [mbind outcome_bind] in *. rewrite Hr. cbn [mbind outcome_bind].
  destruct r; try by injection Ha as <- <-. destruct (register _ _); [|by injection Ha as <- <-].
  case_match; injection Ha as <- <-; [done|]. by rewrite app_assoc.
Qed.

Lemma admit_block_total sh q raw :
  sortition_wf c → is_Some (deserialize raw) → (0 ≤ db_count (node_blockdb (sh_node sh)))%Z →
  ∃ sh' q', admit_block c (sh, q) raw = Done (sh', q') ∧ sh_buffer sh' = sh_buffer sh ∧
    length q' ≤ S (length q) ∧ node_chain (sh_node sh') = node_chain (sh_node sh) ∧
    node_mempool (sh_node sh') = node_mempool (sh_node sh) ∧
    (∀ k, room k (sh_node sh) → room (k - 1) (sh_node sh')).
Proof.
  intros Hwf [b Hb] H0db. unfold admit_block. rewrite Hb. cbn [unwrap mbind outcome_bind].
  unfold check_pow_sortition_id. rewrite sortition_hash_spec by done. cbn [mbind outcome_bind].
  assert (∀ k node, room k node → room (k - 1) node) as Hmono.
  { intros k node Hr. eapply room_mono; [done|lia]. }
  destruct (sortition_spec _ _ _) as [id|]; cbn [mbind outcome_bind];
    [|eexists _, _; split_and!; [reflexivity|done|lia|done|done|intros k; apply Hmono]].
  destruct (id =? _)%Z; cbn [mbind outcome_bind];
    [|eexists _, _; split_and!; [reflexivity|done|lia|done|done|intros k; apply Hmono]].
  unfold register.
  case_decide; [eexists _, _; split_and!; [reflexivity|done|lia|done|done|intros k; apply Hmono]|].
  case_match; eexists _, _; (split_and!; [reflexivity|done| |done|done|]);
    rewrite ?length_app; cbn [length]; [lia|intros k; apply Hmono|lia|].
  intros k [Hp Hv Hd]. split; cbn in *; [lia| |].
  - eapply Forall_impl; [exact Hv|]. cbn. lia.
  - pose proof (Z.mod_le (db_count (node_blockdb (sh_node sh)) + 1) (2 ^ 64)). unfold u64, wrap. lia.
Qed.

Lemma admit_blocks_ok raws sh q q2 m :
  sortition_wf c → Forall (λ raw, is_Some (deserialize raw)) raws →
  room (Z.of_nat (length raws)) (sh_node sh) →
  node_inv c (sh_node sh) (sh_buffer sh) (q2 ++ q) m →
  ∃ sh' q', foldM (admit_block c) (sh, q) raws = Done (sh', q') ∧
    node_inv c (sh_node sh') (sh_buffer sh') (q2 ++ q') m ∧
    sh_buffer sh' = sh_buffer sh ∧ length q' ≤ length q + length raws ∧
    node_chain (sh_node sh') = node_chain (sh_node sh) ∧
    (∀ k, room k (sh_node sh) → room (k - Z.of_nat (length raws)) (sh_node sh')).
Proof.
  intros Hwf Hall. revert sh q. induction Hall as [|raw raws Hraw _ IH]; intros sh q Hroom Hi.
  { exists sh, q. split_and!; [done..|cbn; lia|done|]. cbn. intros k. by rewrite Z.sub_0_r. }
  cbn [length foldM] in *.
  destruct (admit_block_total sh q raw Hwf Hraw) as (sh1 & q1 & Ha & Hbuf & Hlen & Hc1 & _ & Hr1).
  { apply (bd_count _ (ni_db _ _ _ _ _ Hi)). }
  destruct (admit_block_inv c sh (q2 ++ q) m raw ltac:(eapply room_mono; [done|lia]) Hi sh1 (q2 ++ q1))
    as [Hi1 _]; [by apply admit_block_frame|].
  rewrite Ha. cbn [mbind outcome_bind].
  destruct (IH sh1 q1) as (sh' & q' & Hf & Hi' & Hbuf' & Hlen' & Hc' & Hr'); [|done|].
  { eapply room_mono; [by apply Hr1|lia]. }
  exists sh', q'. split_and!; [done..|congruence|lia|congruence|].
  intros k Hk. eapply room_mono; [apply Hr', Hr1, Hk|lia].
Qed.

(** ** Messages *)

(** The blocks of a message decode. *)
Definition message_decodes (msg : Message) : Prop :=
  match msg with Blocks raws => Forall (λ raw, is_Some (deserialize raw)) raws | _ => True end.
Definition message_blocks (msg : Message) : nat :=
  match msg with Blocks raws => length raws | _ => 0 end.

(** The counters have room for the message. *)
Definition message_room (sh : Shared) (msg : Message) : Prop :=
  room (2 * Z.of_nat (message_blocks msg) + Z.of_nat (size (blocks (sh_buffer sh)))) (sh_node sh) ∧
  (counter (node_mempool (sh_node sh)) + message_size msg < 2 ^ 64)%Z.

Lemma new_transactions_inv txs p :
  pool_inv p → (counter p + Z.of_nat (length txs) < 2 ^ 64)%Z →
  pool_inv (foldl (λ p tx, new_transaction tx p) p txs).
Proof.
  revert p. induction txs as [|tx txs IH]; intros p Hp Hc; [done|]. cbn [foldl length] in *.
  destruct (pool_step_ok p Hp (AddTransaction tx)) as (Hp' & _ & _ & Hc'); [lia|].
  cbn [pool_step] in *. apply IH; [done|lia].
Qed.

(** Every message but [Blocks] is handled without a loop. *)
Lemma handle_other_ok fuel sh q m msg :
  match msg with Blocks _ => False | _ => True end →
  (counter (node_mempool (sh_node sh)) + message_size msg < 2 ^ 64)%Z →
  node_inv c (sh_node sh) (sh_buffer sh) q m →
  ∃ sh' out, handle_message c fuel sh msg = Done (sh', out) ∧
    node_inv c (sh_node sh') (sh_buffer sh') q m ∧
    node_chain (sh_node sh') = node_chain (sh_node sh) ∧
    Forall (λ o, match o with Notify _ => False | _ => True end) out.
Proof.
  intros Hmsg Hc Hi. destruct msg as [n|n|hs|hs|raws|hs|hs|txs|h]; try done;
    cbn [handle_message]; eexists _, _; 
    (split_and!; [reflexivity| |done|by repeat case_match; repeat constructor]); try exact Hi.
  apply (node_inv_pool c); [|done]. by apply new_transactions_inv; [apply (ni_pool _ _ _ _ _ Hi)|].
Qed.

Lemma handle_blocks_ok fuel sh q m raws :
  sortition_wf c → Forall (λ raw, is_Some (deserialize raw)) raws →
  room (2 * Z.of_nat (length raws) + Z.of_nat (size (blocks (sh_buffer sh)))) (sh_node sh) →
  process_bound (length raws) (size (blocks (sh_buffer sh))) ≤ fuel →
  node_inv c (sh_node sh) (sh_buffer sh) q m →
  ∃ sh' out, handle_blocks c fuel sh raws = Done (sh', out) ∧
    node_inv c (sh_node sh') (sh_buffer sh') q m ∧
    rtc step (node_chain (sh_node sh)) (node_chain (sh_node sh')) ∧
    Forall (λ o, match o with Notify sig => signal_ok c sig | _ => True end) out.
Proof.
  intros Hwf Hraws Hroom Hfuel Hi. unfold handle_blocks.
  destruct (admit_blocks_ok raws sh [] q m) as (sh1 & bs & -> & Hi1 & Hbuf & Hlen & Hc1 & Hr1);
    [done..|eapply room_mono; [done|lia]|by rewrite app_nil_r|]. cbn [length] in Hlen.
  cbn [mbind outcome_bind]. rewrite <- Hc1. specialize (Hr1 _ Hroom).
  destruct bs as [|b bs]; [exists sh1, []; by rewrite app_nil_r in Hi1|].
  destruct (process_blocks_ok fuel sh1 (rev (b :: bs)) q (mkPending [] []) m)
    as (sh' & p' & -> & Hi' & Hr' & Hs').
  - eapply room_mono; [done|]. rewrite length_rev, Hbuf. lia.
  - eapply node_inv_perm; [|exact Hi1]. rewrite Permutation_app_comm.
    apply Permutation_app_tail, Permutation_rev.
  - rewrite length_rev, Hbuf. unfold process_bound in *. nia.
  - constructor.
  - cbn [mbind outcome_bind]. eexists _, _. split_and!; [reflexivity|done..|].
    constructor; [done|]. apply Forall_app. split; [|by destruct (to_request p'); repeat constructor].
    by apply Forall_fmap.
Qed.
End Worker.

(** ** The miner *)

Section Mine.
Context `{Keccak, BincodeHeader, BincodeBlock, !BincodeBlockLaws, BigUint, HashOrder, Rlp,
  PublicKeyCrypto, PoissonDist}.
Context (c : BlockchainConfig).

Lemma node_inv_miner node buf q m m' :
  miner_inv (node_chain node) m' → node_inv c node buf q m → node_inv c node buf q m'.
Proof. intros Hm []. by split. Qed.

(** The state, the nonce, the time and the annotation do not matter. *)
Lemma miner_inv_state s m st : miner_inv s m → miner_inv s (set_state st m).
Proof. intros []. by split. Qed.
Lemma miner_inv_attempt s m nonce time skip : miner_inv s m → miner_inv s (new_attempt m nonce time skip).
Proof. intros []. by split. Qed.

(** What validation says of a block that the node mines. *)
Record mined_ok (s : BlockChain) (b : Block) : Prop := {
  mo_pow : check_pow_sortition_id b c = Done Pass;
  mo_proof : check_sortition_proof b c = Done Pass;
  mo_available : check_data_availability b s = Pass;
  mo_content : check_content_semantic b s =
    Done (match content b with
          | CTransaction t => if check_signature_batch (transactions t) then Pass else WrongSignature
          | _ => Pass end);
}.

Lemma mined_accepted s b :
  mined_ok s b →
  check_content_semantic b s = Done Pass ∨ (∃ ct, content b = CTransaction ct).
Proof. intros [_ _ _ Hc]. destruct (content b); [right; eauto|by left..]. Qed.

(** A mined block goes into the database, the pool and the chain. *)
Lemma insert_mined_ok node buf q m b :
  node_inv c node buf q m → room 1 node → mined_ok (node_chain node) b →
  ∃ p' s', new_validated_block b (node_mempool node) (node_chain node) = Done (p', s') ∧
    insert_block (node_chain node) b = Done s' ∧
    (blockdb_contains (node_blockdb node) (hash b) = false →
     accepted (node_chain node) b ∧
     node_inv c (mkNode s' p' (blockdb_insert (node_blockdb node) b).1) buf q m).
Proof.
  intros Hi Hroom Hok. pose proof Hok as [Hpow Hproof Hav _].
  destruct (insert_block_grown _ b (fi_chain _ (ni_full _ _ _ _ _ Hi)) Hav) as (s' & Hs' & _).
  { destruct Hroom. lia. }
  { destruct Hroom as [_ Hv _]. eapply Forall_impl; [exact Hv|]. cbn. lia. }
  unfold new_validated_block. rewrite Hs'. cbn [mbind outcome_bind].
  eexists _, _. split_and!; [reflexivity|done|]. intros Hnew.
  assert (¬ known c (db (node_chain node)) (hash b)) as Hun.
  { intros [r Hr]%(ni_known _ _ _ _ _ Hi). unfold blockdb_contains in Hnew. by rewrite Hr in Hnew. }
  pose proof (outside_accepted c _ _ _ _ b Hi Hun Hroom Hav (mined_accepted _ _ Hok)) as Hacc.
  split; [done|].
  pose proof (node_inv_store c _ _ _ _ (hash b) (serialize b) Hnew (ro_blocks _ _ Hroom)
    ltac:(rewrite deserialize_serialize; eauto) Hi) as Hi1.
  set (node1 := mkNode _ _ _) in Hi1.
  assert (∀ x, stored (node_blockdb node) x → hash x ≠ hash b) as Hne.
  { intros x (r & Hr & _) E. unfold blockdb_contains in Hnew. by rewrite <- E, Hr in Hnew. }
  destruct (node_inv_insert c node1 buf q m b Hi1 Hacc) as (s1 & Hs1 & _ & Hi2); [|done|done|..].
  { exists (serialize b). split; [cbn; apply lookup_insert_eq|apply deserialize_serialize]. }
  { intros (x & E & Hx)%list_elem_of_fmap.
    by destruct (Hne x (ou_stored _ _ _ (proj1 (ni_pending _ _ _ _ _ Hi x Hx)))). }
  { apply eq_None_not_Some. intros [x Hx]. pose proof (bu_hash _ (ni_buffer _ _ _ _ _ Hi) _ _ Hx).
    by destruct (Hne x (ou_stored _ _ _ (ni_buffered _ _ _ _ _ Hi _ _ Hx))). }
  destruct (new_validated_block_inv c node1 buf q m b s1 Hs1 Hi2) as (p' & Hp' & Hi3).
  unfold new_validated_block in Hp'. rewrite Hs1 in Hp'. injection Hp' as <-.
  assert (s1 = s') as -> by (cbn in Hs1; congruence). exact Hi3.
Qed.

(** What a turn does: nothing to the node, or one mined block. *)
Definition turn_result (node : Node) (buf : BlockBuffer) (q : list Block) (m' : Miner)
    (node' : Node) (out : option (Block * ContextUpdateSignal)) : Prop :=
  match out with
  | None => node' = node ∧ node_inv c node buf q m'
  | Some (b, sig) => mined_ok (node_chain node) b ∧ sig = context_signal (content b) ∧
      blockdb_get (node_blockdb node') (hash b) = Done (Some b) ∧
      insert_block (node_chain node) b = Done (node_chain node') ∧
      (blockdb_contains (node_blockdb node) (hash b) = false →
       accepted (node_chain node) b ∧ node_inv c node' buf q m')
  end.

Lemma try_mine_ok node buf q m :
  sortition_wf c → node_inv c node buf q m → room 1 node →
  content_merkle_root (mi_header m) = merkle_root (mi_tree m) →
  ∃ m' node' out, try_mine c node m = Done (m', node', out) ∧
    turn_result node buf q m' node' out.
Proof.
  intros Hwf Hi Hroom Hroot. pose proof (ni_config _ _ _ _ _ Hi) as Hc. unfold try_mine.
  destruct (H256_ltb (hash (mi_header m)) (difficulty (mi_header m))) eqn:Hlt;
    [|by eexists _, _, None].
  destruct (produce_block_ok (node_chain node) (ni_full _ _ _ _ _ Hi) m)
    as (b & Hb & _ & _ & Hpow & Hproof & Hav & Hsem); rewrite ?Hc; try done; [apply Hi|].
  rewrite Hc in Hb, Hpow, Hproof. rewrite Hb. cbn [mbind outcome_bind].
  assert (mined_ok (node_chain node) b) as Hok by by split.
  destruct (insert_mined_ok node buf q m b Hi Hroom Hok) as (p' & s' & -> & Hs' & Hnew).
  cbn [mbind outcome_bind]. eexists _, _, (Some (_, _)). split; [reflexivity|].
  split_and!; [done..| |done|].
  - unfold blockdb_get. cbn. by rewrite lookup_insert_eq, deserialize_serialize.
  - intros [Ha Hi']%Hnew. split; [done|]. eapply node_inv_miner; [|exact Hi'].
    pose proof (ni_miner _ _ _ _ _ Hi'). destruct (operating_state m); [done..| |done].
    by apply miner_inv_state.
Qed.

Lemma miner_turn_ok node buf q m i :
  sortition_wf c → node_inv c node buf q m → room 1 node → Forall (signal_ok c) (signals i) →
  ∃ m' node' out, miner_turn c node m i = Done (m', node', out) ∧
    turn_result node buf q m' node' out.
Proof.
  intros Hwf Hi Hroom Hsig. unfold miner_turn.
  set (m0 := match control i with Some sig => handle_control_signal m sig | None => m end).
  assert (miner_inv (node_chain node) m0) as Hm0.
  { pose proof (ni_miner _ _ _ _ _ Hi). subst m0.
    destruct (control i) as [[]|]; [by apply miner_inv_state..|done]. }
  assert (node_inv c node buf q m0) as Hi0 by by eapply node_inv_miner.
  assert (∃ m' node' out, (m ← refresh_context c node (signals i) m0;
      try_mine c node (new_attempt m (turn_nonce i) (turn_time i) (turn_skip i))) =
    Done (m', node', out) ∧ turn_result node buf q m' node' out) as Hturn; cycle 1.
  { destruct (operating_state m);
      [by eexists _, _, None|..|by eexists _, _, None];
      (destruct (operating_state m0); [exact Hturn..|by eexists _, _, None]). }
  pose proof (wf_chains _ Hwf) as Hch. pose proof (ni_config _ _ _ _ _ Hi) as Hc.
  destruct (refresh_context_ok node m0 (ni_full _ _ _ _ _ Hi) (ni_unref _ _ _ _ _ Hi)
    ltac:(rewrite Hc; lia) (ni_pool _ _ _ _ _ Hi) (ni_db _ _ _ _ _ Hi) Hm0 (signals i)
    ltac:(by rewrite Hc)) as (m1 & Hm1 & Hinv1 & _ & _ & Hroot).
  rewrite Hc in Hm1. rewrite Hm1. cbn [mbind outcome_bind].
  apply (try_mine_ok node buf q); [done| |done|done].
  eapply node_inv_miner; [|exact Hi]. by apply miner_inv_attempt.
Qed.
End Mine.

(** ** The start *)

Section Start.
Context `{Keccak, BincodeHeader, BincodeBlock, !BincodeBlockLaws, BigUint, HashOrder, Rlp,
  PublicKeyCrypto, PoissonDist}.
Context (c : BlockchainConfig).
Hypothesis Hwf : config_wf c.

Lemma blockdb_new_genesis bdb :
  blockdb_new c = Done bdb → ∀ h, h = proposer_genesis c ∨ h ∈ voter_genesis c →
  is_Some (block_cf bdb !! h).
Proof.
  intros Hn. unfold blockdb_new in Hn. apply bind_done in Hn as ([db1 n] & Hf & [= <-]).
  apply (foldM_inv _ (λ pre acc, is_Some (block_cf acc.1 !! proposer_genesis c) ∧
    ∀ i h, i ∈ pre → voter_genesis c !! Z.to_nat i = Some h → is_Some (block_cf acc.1 !! h)))
    in Hf as [Hp Hv].
  - cbn [fst set_count block_cf] in *. intros h [->|Hh]; [done|].
    apply list_elem_of_lookup in Hh as [i Hi]. apply (Hv (Z.of_nat i)); [|by rewrite Nat2Z.id].
    apply elem_of_seqZ. apply lookup_lt_Some in Hi. destruct Hwf as [_ Hl _]. lia.
  - split; [cbn; rewrite lookup_insert_eq; eauto|]. intros i h Hi. by apply not_elem_of_nil in Hi.
  - intros pre i [d1 n1] [d2 n2] [Hp Hv] _ Hs. apply bind_done in Hs as (g & Hg%unwrap_done & [= <- <-]).
    cbn in *. split; [apply lookup_insert_is_Some'; by right|].
    intros j h [Hj| ->%list_elem_of_singleton]%elem_of_app Hh; apply lookup_insert_is_Some'.
    + right. by eapply Hv.
    + left. congruence.
Qed.

(** The first contents: a voter block after each genesis block, without votes. *)
Definition first_voters : list VoterContent :=
  imap (λ i g, mkVoterContent (Z.of_nat i) g []) (voter_genesis c).

Lemma miner_new_contents time :
  miner_new c time = Done (mkMiner Paused
    (mkHeader (proposer_genesis c) time 0 h256_default zero_bytes DEFAULT_DIFFICULTY)
    (CProposer (mkProposerContent [] []) :: CTransaction (mkTransactionContent []) ::
      (CVoter <$> first_voters))
    (ref_tree (hash <$> CProposer (mkProposerContent [] []) ::
      CTransaction (mkTransactionContent []) :: (CVoter <$> first_voters)))).
Proof.
  unfold miner_new. destruct Hwf as [Hch Hlen _].
  assert (mapO (λ voter_idx, genesis ← unwrap (voter_genesis c !! Z.to_nat voter_idx);
      Done (CVoter (mkVoterContent voter_idx genesis []))) (range 0 (voter_chains c)) =
    Done (CVoter <$> first_voters)) as ->.
  { apply mapO_done, Forall2_same_length_lookup. unfold first_voters, range. split.
    - rewrite length_seqZ, length_fmap, length_imap. lia.
    - intros i x y [-> Hi]%lookup_seqZ Hy. rewrite list_lookup_fmap, list_lookup_imap in Hy.
      rewrite Z.add_0_l, Nat2Z.id. destruct (voter_genesis c !! i); [|done]. by injection Hy as <-. }
  cbn [mbind outcome_bind]. by rewrite merkle_new_ref.
Qed.

Lemma miner_new_ok s time :
  BlockChain_new c = Done s → ∃ m, miner_new c time = Done m ∧ miner_inv s m.
Proof.
  intros Hs. destruct (BlockChain_new_ok c Hwf) as (s0 & Hs0 & Hci & Hg & Hc & _).
  assert (s0 = s) as -> by congruence. pose proof Hwf as [Hch Hlen _].
  eexists. split; [apply miner_new_contents|]. split; [|done]. exists 0%Z.
  cbn [mi_header parent mi_contents]. rewrite (gd_plev _ _ _ Hg), lookup_singleton_eq. split; [done|].
  eexists _, _, first_voters. split; [reflexivity|]. unfold first_voters. split_and!.
  - by rewrite length_imap, Hc, Hlen.
  - intros x Hx. by apply not_elem_of_nil in Hx.
  - intros _ x Hx. by apply not_elem_of_nil in Hx.
  - intros i v. rewrite list_lookup_imap. destruct (voter_genesis c !! i) as [g|] eqn:Ei; [|done].
    intros [= <-]. pose proof (lookup_lt_Some _ _ _ Ei) as Hi.
    destruct (gd_voter _ _ _ Hg i g Hi Ei) as (Hl & Hc' & Hv & _). split.
    + split_and!; cbn; [done|eauto|done].
    + intros _. exists 0%Z. split_and!; [done|lia..|]. constructor.
Qed.

Lemma sys_start_inv limit time S :
  (0 ≤ limit < 2 ^ 64 - 1)%Z → sys_start c limit time S →
  node_inv c (sh_node (sys_shared S)) (sh_buffer (sys_shared S)) (sys_pending S) (sys_miner S).
Proof.
  intros Hl (s & bdb & m & Hs & Hb & Hm & ->). cbn [sys_shared sys_pending sys_miner worker_new sh_node sh_buffer].
  destruct (BlockChain_new_full_inv c Hwf) as (s0 & Hs0 & Hi0 & Hc0).
  assert (s0 = s) as -> by congruence.
  destruct (BlockChain_new_ok c Hwf) as (s0 & Hs0' & Hci & Hg & _).
  assert (s0 = s) as -> by congruence.
  destruct (miner_new_ok s time Hs) as (m0 & Hm0 & Hmi). assert (m0 = m) as -> by congruence.
  pose proof Hwf as [Hch Hlen _].
  destruct (blockdb_new_inv c Hch Hlen) as (b0 & Hb0 & Hbi & _). assert (b0 = bdb) as -> by congruence.
  split; cbn [node_chain node_mempool node_blockdb]; try done.
  - by eapply BlockChain_new_unref.
  - by apply pool_inv_new.
  - apply buffer_inv_new.
  - intros h Hh. apply (blockdb_new_genesis _ Hb). destruct Hh as [->|Hh]; [by left|right].
    destruct (gd_parents _ _ _ Hg h Hh) as (i & _ & Hi). by eapply list_elem_of_lookup_2.
  - intros h Hh. left. destruct (gd_parents _ _ _ Hg h Hh) as (i & _ & Hi).
    by eapply list_elem_of_lookup_2.
  - intros b Hb'. by apply not_elem_of_nil in Hb'.
  - constructor.
Qed.
End Start.

(** ** Every reachable state *)

Section Reach.
Context `{Keccak, BincodeHeader, BincodeBlock, !BincodeBlockLaws, BigUint, HashOrder, Rlp,
  PublicKeyCrypto, PoissonDist}.
Context (c : BlockchainConfig).
Hypothesis Hwf : config_wf c.
Hypothesis Hsort : sortition_wf c.

Abbreviation sys_inv S :=
  (node_inv c (sh_node (sys_shared S)) (sh_buffer (sys_shared S)) (sys_pending S) (sys_miner S)).
Abbreviation sys_chain S := (node_chain (sh_node (sys_shared S))).

Lemma node_inv_ledger node buf q m fuel s' out :
  node_inv c node buf q m → update_ledger fuel (node_chain node) = Done (s', out) →
  node_inv c (mkNode s' (node_mempool node) (node_blockdb node)) buf q m.
Proof.
  intros [Hf Hu Hc Hpo Hbd Hbu Hmi Hkn Hva Hpe Hnd Hbf] Hup.
  destruct (update_ledger_full_inv _ _ _ _ Hf Hup) as [Hf' Hc'].
  pose proof (update_ledger_same _ _ _ _ Hup) as Hsame.
  pose proof (ss_parents _ _ (sb_store _ _ Hsame)) as Epar.
  assert (∀ h, known c (db s') h ↔ known c (db (node_chain node)) h) as Hk.
  { intros h. unfold known. by rewrite Epar. }
  assert (∀ x, outside c node x → outside c (mkNode s' (node_mempool node) (node_blockdb node)) x) as Hout.
  { intros x [? ? ?]. split; [done| |done]. cbn. by rewrite Hk. }
  split; cbn [node_chain node_mempool node_blockdb]; try done.
  - by eapply unref_inv_same.
  - congruence.
  - by eapply miner_inv_same.
  - intros h Hh%Hk. auto.
  - intros h. rewrite Epar. auto.
  - intros b Hb. destruct (Hpe b Hb). auto.
  - intros h b Hb. apply Hout. by eapply Hbf.
Qed.

Lemma sys_step_inv S S' :
  sys_inv S → sys_step c S S' → sys_inv S' ∧ rtc step (sys_chain S) (sys_chain S').
Proof.
  intros Hi Hstep. destruct Hstep as [sh q m msg sh' out Hmsg Hcnt Hh|sh q m raw sh' q' Hroom Ha|
    sh q1 b q2 m sh' r Hroom Hp|sh q m fuel s' out Hup|sh q m i m' node' out Hsig Hroom Ht Hnew];
    cbn [sys_shared sys_pending sys_miner] in *.
  - destruct (handle_other_ok c 0 sh q m msg Hmsg Hcnt Hi) as (sh1 & out1 & Hh1 & Hi1 & Hc1 & _).
    rewrite Hh in Hh1. injection Hh1 as <- <-. by rewrite Hc1.
  - destruct (admit_block_inv c sh q m raw Hroom Hi sh' q' Ha) as [Hi' Hc']. by rewrite Hc'.
  - destruct (process_block_ok c sh b (q1 ++ q2) m Hroom) as (sh1 & r1 & Hp1 & Hi1 & [Hch _ _]).
    { eapply node_inv_perm; [|exact Hi]. symmetry. apply Permutation_middle. }
    rewrite Hp in Hp1. injection Hp1 as <- <-. rewrite app_assoc. split; [done|].
    destruct r; [by rewrite Hch..|]. destruct Hch as (_ & _ & Hacc & Hins & _).
    apply rtc_once. by eapply step_insert.
  - split; [by eapply node_inv_ledger|]. apply rtc_once. by eapply step_ledger.
  - destruct (miner_turn_ok c _ _ _ _ i Hsort Hi Hroom Hsig) as (m1 & node1 & out1 & Ht1 & Hres).
    rewrite Ht in Ht1. injection Ht1 as <- <- <-. cbn [sh_node sh_buffer]. unfold turn_result in Hres.
    destruct out as [[b sig]|]; [|by destruct Hres as [-> ?]].
    destruct Hres as (_ & _ & _ & Hins & Hok). destruct (Hok (Hnew b sig eq_refl)) as [Hacc Hi'].
    split; [done|]. apply rtc_once. by eapply step_insert.
Qed.

Lemma sys_reachable_inv S : sys_reachable c S → sys_inv S ∧ reachable c (sys_chain S).
Proof.
  intros (limit & time & S0 & Hl & Hs & Hr).
  pose proof (sys_start_inv c Hwf limit time S0 Hl Hs) as Hi0.
  assert (reachable c (sys_chain S0)) as Hr0.
  { destruct Hs as (s & bdb & m & Hs & _ & _ & ->). exists s. split; [done|apply rtc_refl]. }
  clear Hs. induction Hr as [S|S S1 S2 Hstep _ IH]; [done|].
  destruct (sys_step_inv _ _ Hi0 Hstep) as [Hi1 Hc1]. apply IH; [done|].
  destruct Hr0 as (s0 & ? & ?). exists s0. split; [done|]. by etransitivity.
Qed.
End Reach.
