(* ===== verification/SystemExample.v ===== *)
(** * A concrete execution of the node

    The steps of [System] as a function, and an execution in which the node mines two
    blocks and takes in a block whose parent it does not have. *)

From S2P Require Import Prelude Hash Merkle Float Transaction Mempool Config Block Buffer BlockDb.
From S2P Require Import Store Chain Miner Validation Leader Ledger ChainInv VoteInv.
From S2P Require Import ValidationTheorems LeaderProofs LedgerInv Reachable ChainExample.
From S2P Require Import ChainTheorems MinerTheorems Worker System.

Section Exec.
Context `{Keccak, BincodeHeader, BincodeBlock, BigUint, HashOrder, Rlp, PublicKeyCrypto,
  PoissonDist}.
Context (c : BlockchainConfig).

Inductive sys_event :=
| SMessage (msg : Message)
| SAdmit (encoded : list byte)
| SProcess
| SLedger (fuel : nat)
| SMine (i : TurnInput).

Definition roomb (k : Z) (node : Node) : bool :=
  (proposer_best_level (node_chain node) + 1 + k <? 2 ^ 64)%Z &&
  forallb (λ best : H256 * Z, best.2 <? 2 ^ 64 - k)%Z (voter_best (node_chain node)) &&
  (db_count (node_blockdb node) + k <? 2 ^ 64)%Z.

Definition signal_okb (sig : ContextUpdateSignal) : bool :=
  match sig with
  | NewVoterBlock chain => (0 <=? chain)%Z && (chain <? voter_chains c)%Z
  | _ => true
  end.

Definition guard (b : bool) : Outcome unit := if b then Done () else Panic.

Definition sys_exec (S : System) (e : sys_event) : Outcome System :=
  let '(mkSystem sh q m) := S in
  match e with
  | SMessage msg =>
      _ ← guard (match msg with Blocks _ => false | _ => true end &&
        (counter (node_mempool (sh_node sh)) + message_size msg <? 2 ^ 64)%Z);
      '(sh', _) ← handle_message c 0 sh msg; Done (mkSystem sh' q m)
  | SAdmit encoded =>
      _ ← guard (roomb 1 (sh_node sh));
      '(sh', q') ← admit_block c (sh, q) encoded; Done (mkSystem sh' q' m)
  | SProcess =>
      _ ← guard (roomb 1 (sh_node sh));
      match q with
      | [] => Panic
      | b :: q => '(sh', r) ← process_block c sh b; Done (mkSystem sh' (q ++ resolved_blocks r) m)
      end
  | SLedger fuel =>
      '(s', _) ← update_ledger fuel (node_chain (sh_node sh));
      Done (mkSystem (mkShared (mkNode s' (node_mempool (sh_node sh)) (node_blockdb (sh_node sh)))
        (sh_buffer sh) (recent_blocks sh) (requested_blocks sh)) q m)
  | SMine i =>
      _ ← guard (roomb 1 (sh_node sh) && forallb signal_okb (signals i));
      '(m', node', out) ← miner_turn c (sh_node sh) m i;
      _ ← guard (match out with
                 | Some (b, _) => negb (blockdb_contains (node_blockdb (sh_node sh)) (hash (b : Block)))
                 | None => true end);
      Done (mkSystem (mkShared node' (sh_buffer sh) (recent_blocks sh) (requested_blocks sh)) q m')
  end.

Lemma roomb_ok k node : roomb k node = true → room k node.
Proof.
  unfold roomb. rewrite !andb_true_iff, !Z.ltb_lt, forallb_forall. intros [[H1' H2'] H3'].
  split; [done| |done]. apply Forall_forall. intros x Hx%list_elem_of_In. by apply Z.ltb_lt, H2'.
Qed.

Lemma guard_done b u : guard b = Done u → b = true.
Proof. by destruct b. Qed.

Lemma sys_exec_step S e S' : sys_exec S e = Done S' → sys_step c S S'.
Proof.
  destruct S as [sh q m], e as [msg|raw| |fuel|i]; cbn [sys_exec]; intros He.
  - apply bind_done in He as (u & Hg%guard_done & He). apply bind_done in He as ([sh' o] & Hh & [= <-]).
    apply andb_true_iff in Hg as [Hm Hc%Z.ltb_lt]. apply (sys_message c sh q m msg sh' o); [by destruct msg|done|done].
  - apply bind_done in He as (u & Hg%guard_done & He). apply bind_done in He as ([sh' q'] & Hh & [= <-]).
    eapply sys_admit; [by apply roomb_ok|done].
  - apply bind_done in He as (u & Hg%guard_done & He). destruct q as [|b q]; [done|].
    apply bind_done in He as ([sh' r] & Hh & [= <-]).
    apply (sys_process c sh [] b q m sh' r); [by apply roomb_ok|done].
  - apply bind_done in He as ([s' o] & Hh & [= <-]). by eapply sys_ledger.
  - apply bind_done in He as (u & Hg%guard_done & He). apply bind_done in He as ([[m' n'] o] & Ht & He).
    apply bind_done in He as (u' & Hn%guard_done & [= <-]). apply andb_true_iff in Hg as [Hr Hs].
    eapply sys_mine; [|by apply roomb_ok|done|].
    + rewrite forallb_forall in Hs. apply Forall_forall. intros sig Hsig%list_elem_of_In%Hs.
      destruct sig; cbn in *; [done|lia|done].
    + intros b sig ->. by apply negb_true_iff.
Qed.

Definition sys_init (limit time : Z) : Outcome System :=
  s ← BlockChain_new c; bdb ← blockdb_new c; m ← miner_new c time;
  Done (mkSystem (worker_new (mkNode s (MemoryPool_new limit) bdb)) [] m).

Definition sys_run (limit time : Z) (es : list sys_event) : Outcome System :=
  S0 ← sys_init limit time; foldM sys_exec S0 es.

Lemma sys_run_reachable limit time es S :
  (0 ≤ limit < 2 ^ 64 - 1)%Z → sys_run limit time es = Done S → sys_reachable c S.
Proof.
  intros Hl Hr. apply bind_done in Hr as (S0 & Hinit & Hr). exists limit, time, S0. split; [done|].
  apply bind_done in Hinit as (s & Hs & Hinit). apply bind_done in Hinit as (bdb & Hb & Hinit).
  apply bind_done in Hinit as (m & Hm & [= <-]). split; [by exists s, bdb, m|].
  revert Hr. generalize (mkSystem (worker_new (mkNode s (MemoryPool_new limit) bdb)) [] m).
  induction es as [|e es IH]; intros S1; cbn [foldM].
  - intros [= ->]. apply rtc_refl.
  - intros Hr. apply bind_done in Hr as (S2 & He & Hr).
    eapply rtc_l; [by eapply sys_exec_step|by apply IH].
Qed.
End Exec.

(** ** The execution *)

#[local] Existing Instances example_keccak example_rlp example_crypto example_biguint
  example_bincode example_codec example_codec_laws example_hash_order example_poisson.

Lemma example_chain_config_sortition : sortition_wf example_chain_config.
Proof. split; by vm_compute. Qed.

Definition example_turn (control : option ControlSignal) (nonce time : Z) : sys_event :=
  SMine (mkTurn control (initial_signals example_chain_config) nonce time false).

(** A proposer block of another node, on a parent that this node does not have. *)
Definition example_peer_block (nonce : Z) : Block :=
  example_block (h256 5) nonce (CProposer (mkProposerContent [] [])).

(** The miner is started and mines two proposer blocks and a transaction block; a worker
    takes in two blocks of a peer and processes one of them. *)
Definition example_sys_events : list sys_event :=
  [example_turn (Some (Start 0 false (f64_of_f32 (f32_of_Z 0)))) 0 0;
   example_turn None 0 1; example_turn None 1 (2 ^ 10); example_turn None 2 (2 ^ 20);
   SAdmit (serialize (example_peer_block 1)); SProcess;
   SAdmit (serialize (example_peer_block 2))].

Definition example_system : System :=
  match sys_run example_chain_config 100 0 example_sys_events with
  | Done sys => sys
  | Panic => mkSystem (worker_new (mkNode (open example_chain_config) (MemoryPool_new 0) blockdb_open))
      [] (mkMiner Paused (header (example_peer_block 1)) [] (ref_tree []))
  end.

(** Where the blocks are at the end. *)
Lemma example_system_blocks :
  length (sys_pending example_system) = 1 ∧
  size (blocks (sh_buffer (sys_shared example_system))) = 1 ∧
  proposer_best_level (node_chain (sh_node (sys_shared example_system))) = 2%Z ∧
  size (unreferred_transactions (node_chain (sh_node (sys_shared example_system)))) = 1 ∧
  num_blocks (node_blockdb (sh_node (sys_shared example_system))) = 9%Z.
Proof. split_and!; vm_compute; reflexivity. Qed.

Definition is_done {A} (x : Outcome A) : bool := match x with Done _ => true | Panic => false end.

Lemma example_system_runs : is_done (sys_run example_chain_config 100 0 example_sys_events) = true.
Proof. vm_compute. reflexivity. Qed.

Lemma example_system_reachable : sys_reachable example_chain_config example_system.
Proof.
  pose proof example_system_runs as Hd. unfold example_system.
  destruct (sys_run example_chain_config 100 0 example_sys_events) as [sys|] eqn:Hr; [|discriminate Hd].
  apply (sys_run_reachable example_chain_config 100 0 example_sys_events sys); [lia|exact Hr].
Qed.
